(* ===== verification/_CoqProject ===== *)
-Q . S2P
Prelude.v
GoLib.v
Crypto.v
Json.v
JsonEncode.v
Domain.v
QueueSchema.v
QueueStore.v
QueueLifecycle.v
QueuePull.v
QueuePullClaims.v
QueueSettle.v
QueueSettleClaims.v
QueueScheduler.v
Classify.v
QueueCallbacks.v
QueueSystem.v
QueueSchedulerClaims.v
QueueSystemClaims.v
QueueService.v
ScheduleService.v
ServiceClaims.v
ScheduleClaims.v
AdminCursor.v
Auth.v
AuthClaims.v
AppStore.v
AppService.v
AppEffects.v
AppClaims.v
DeliverySchema.v
DeliveryStore.v
DeliveryEffects.v
CallbackStore.v
CallbackEffects.v
DeliverySystem.v
PublishStore.v
AdminStore.v
AdminEffects.v
PublishEffects.v
PublishClaims.v
DeliveryClaims.v
Dispatcher.v
Routing.v
EventService.v
CallbackWorker.v
CallbackClaims.v
StreamProtocol.v
StreamFrames.v
StreamSession.v
StreamSystem.v
StreamInvariant.v
StreamLedger.v
StreamClaims.v
AdminRead.v
AdminClaims.v
RealtimeProtocol.v
RealtimeHub.v
RealtimeTasks.v
RealtimeSystem.v
RealtimeSteps.v
RealtimeClosing.v
RealtimeClaims.v
FunctionResult.v
FunctionStore.v
FunctionService.v
FunctionSystem.v
FunctionClaims.v
RedisKeys.v
RedisServer.v
RedisOwnership.v
RedisSessions.v
AdminUsers.v
RedisRate.v
RedisRealtime.v
RedisRealtimeClaims.v
RealtimeFiles.v
RealtimePush.v
RealtimeBridge.v
DeliveryExample.v
