(* ===== verification/Prelude.v ===== *)
(** * RelayHub: a verification of its queues, deliveries, sessions and access control

    RelayHub is a message relay. Applications publish events; routing rules and
    subscriptions decide who gets them; Postgres holds the durable state, NATS
    carries messages to the workers, callbacks are HTTP requests. Paths below are
    relative to [backend/internal].

    ** The program and its model

    - Values: [GoLib], [Crypto], [Json], [JsonEncode] hold what the code uses of Go's
      standard library (strings, SHA-256, HMAC, hexadecimal, base 64,
      [encoding/json] in both directions, dates); [Domain] is the package [domain],
      with the grammar of channels and of channel grants.
    - Queues: [QueueSchema] has the tables, [QueueStore] the statements and
      transactions of [store/postgres/queue_v2.go], [QueueScheduler] those of
      [queue_scheduler.go] and the queue part of [PublishEvent], [QueueCallbacks]
      those of [queue_callbacks.go] with the worker of
      [worker/queue_callbacks.go]; [QueueService] is [service/queue.go] and
      [ScheduleService] is [service/queue_schedule.go]. The services use the store
      through the record [QueueRepository]; [ServiceClaims] states what they rely on
      as a class of laws, and the Postgres store is an instance.
    - Deliveries: [DeliverySchema] has the tables of migrations 005 to 014 over the
      queue tables; [PublishStore] is [store/postgres/events.go] with
      [broker/nats/subjects.go], [DeliveryStore] is [delivery_assignments.go] and
      [outbox.go], [CallbackStore] is [callbacks.go], [Dispatcher] is
      [outbox/dispatcher.go], [CallbackWorker] is [worker/jetstream.go], [Classify]
      is [delivery/classify.go], [Routing] is [store/postgres/routing.go] and
      [service/routing.go], [EventService] is [service/events.go].
    - Administration: [AdminCursor] is [adminread/cursor.go], [AdminStore] is
      [store/postgres/admin_lifecycle.go] with [service/admin_lifecycle.go],
      [AdminRead] the lists of [store/postgres/admin_read.go] and
      [service/admin_reads.go], [AdminUsers] is [store/postgres/admin_users.go] with
      the handlers of [httpapi/admin_users.go].
    - Stream sessions: [StreamProtocol] is [streamprotocol/protocol.go],
      [StreamSession] the critical sections of [streamgateway/session.go] and
      [gateway.go], and [StreamSystem] their interleaving with each other, the broker
      and the database of [DeliveryStore].
    - Realtime sessions: [RealtimeProtocol] has the frames and checks of
      [realtime/protocol.go], [RealtimeHub] the state and the critical sections of
      [realtime/hub.go] and [realtime/session.go], [RealtimeTasks] the code of the
      goroutines as tasks, one step between two points where others may run, and
      [RealtimeSystem] their interleaving; [RealtimeBridge] is [realtime/nats_bridge.go]
      and [control.go], the messages between gateways. [RealtimeFiles] is
      [service/realtime_files.go] with its store, [RealtimePush] is
      [service/realtime_push.go] with its store.
    - Functions: [FunctionResult] has the results and errors of [domain/function.go],
      [FunctionStore] is [store/postgres/functions.go] and
      [function_invocations.go], [FunctionService] is [service/functions.go] with its
      waiting loop, and [FunctionSystem] the statements in any order over time.
    - Access: [Auth] is the package [auth] (signatures, tokens, passwords),
      [AppStore] is [crypto/secrets.go] and [store/postgres/apps.go], [AppService] is
      [service/apps.go] over the record [ApplicationStore].
    - State in Redis ([redisstate]): [RedisKeys] is [keys.go], [RedisServer] the
      commands of the server that the scripts use, [RedisOwnership] is
      [ownership.go], [RedisSessions] is [session.go] with
      [service/admin_sessions.go], [RedisRate] is [ratelimit.go] and
      [realtime_rate.go], [RedisRealtime] is [realtime_history.go],
      [realtime_presence.go] and [realtime_connections.go]. A script is a function
      on the keys and values of the server; what it had written before it fails stays
      where it can fail on the inputs the code gives it.

    ** How code is represented

    A table is a finite map by primary key, a SQL statement a function on the
    database that includes the constraints of the schema that can refuse it, and a
    call to the database a step of the monad [M] below. The world lists which calls
    fail and which rows other transactions have locked; a transaction that fails
    leaves the database as it was. Statements and transactions are the unit of
    interleaving: the systems of [QueueSystem] and [DeliveryClaims] run whole
    operations in any order with any failures, and where the code leaves a
    transaction to call the outside (the dispatcher between two statements, the
    worker during its HTTP request, the update of an application between its read
    and its write) what others commit meanwhile is an argument.
    Times are nanoseconds since the epoch. The store rounds to microseconds, which
    is written out where the code does it ([postgresTime]) and left out where it
    only passes through the driver. Errors are values of [res]; machine integers
    wrap where the code computes with them ([wrap64]).

    Code that is not in the repository is an argument: [Postgres] (collation,
    [jsonb] and [md5]), [NetLib] (host resolution), [CronLib] (schedules), HTTP date
    parsing, [AEAD] (AES-GCM), PBKDF2, [LuaNumbers] (the rounding of the numbers of a
    script), [MailLib] (addresses and lower case), the broker's answers, the HTTP exchange. Clocks, fresh identifiers and
    tokens are arguments of the operations that read them.

    ** What is proved

    - Pulling ([QueuePullClaims]): a pull leases what it returns, respects running
      leases, limits, the order of keys and priorities, and makes progress.
    - Settling ([QueueSettleClaims]): settlements act on live leases only, once, and
      report what was stored; extensions stay within the bound of the lease.
    - The queue as a whole ([QueueSystem], [QueueSystemClaims]): an invariant of
      every reachable database, and that every operation refines the abstract machine of
      one delivery, [life_step] of [QueueLifecycle].
    - Schedules and result callbacks ([QueueSchedulerClaims], [ScheduleClaims]):
      fencing by claim and generation, one occurrence per instant, bounded attempts.
    - The queue service ([ServiceClaims]): failures that change nothing (but for
      pulls and the beginning of a drain), receipts that settle,
      termination of the polling loop, accepted input is stored.
    - Publishing ([PublishClaims]): all or nothing, exactly the deliveries and
      messages of the plan, idempotent under its key.
    - Deliveries ([DeliverySystem], [DeliveryClaims]): an invariant and what may
      happen to a row over every operation (settled rows stay settled, generations and
      attempts do not fall), exclusive assignments and claims.
    - The dispatcher ([Dispatcher]): no message is lost, a healthy run delivers
      its batch, retry delays double up to their bound without overflow.
    - Callbacks ([CallbackClaims], [Classify]): exclusive attempts, and the worker
      acknowledges only what is finished.
    - Administration ([AdminClaims], [AdminUsers]): replay of dead letters, pages that
      list every row once, and that a rotated password ends earlier access.
    - Stream sessions ([StreamFrames], [StreamClaims]): typed frames and their round
      trip; over every interleaving, flow control, acknowledgement only of what is
      settled, giving back on close, and termination.
    - Realtime sessions ([RealtimeClaims]): over every interleaving, who may receive
      what and whose requests the answers answer, bounded queues, sessions closed with the hub, function routes, claims of
      invocations; what one delivery does, and going live after a rewind. Between
      gateways ([RealtimeBridge]): frames reach only their application, an accepted
      request is not published again, calls end, and watches are closed once. Files
      are ready only when their object was verified ([RealtimeFiles]), and push
      notifications reach exactly the bound devices ([RealtimePush]).
    - Functions ([FunctionClaims], [FunctionResult]): an invariant of invocations and
      their moves, one invocation per key, outcomes that are final, claims that are
      exclusive, and that waiting ends; canonical errors remain valid.
    - Access ([AuthClaims], [AppClaims]): signatures and tokens are accepted exactly
      when they should be, tokens are read back as issued, keys open their application
      until they are rotated away or it is disabled, and updates merge.
    - State in Redis: keys differ where they should and share a slot where a script
      needs it ([RedisKeys]); owners and instances are fenced
      ([RedisOwnership]); operator sessions end in time and on logout
      ([RedisSessions]); the rate limiter grants no more than its limit
      ([RedisRate]); pages of history are complete, presence refines a map of members,
      and connections are fenced ([RedisRealtimeClaims]).

    The files [*Effects] and [QueuePull], [QueueSettle], [QueueSystem],
    [StreamInvariant], [StreamLedger], [RealtimeSteps], [RealtimeClosing] hold the
    lemmas behind these; the file
    [DeliveryExample] holds the states on which the theorems are instantiated.

    ** Bounds

    The JSON parser recurses on fuel, twice the length of its input plus one, which
    [parse_value_fuel] shows to be enough; trimming and cutting into blocks take the
    length of their input. [pull_loop] recurses on the number of
    turns; [pull_terminates] bounds the turns a pull takes. [invoke_loop] does the same,
    with [invoke_terminates]. Every other loop
    recurses on its data.

    ** Not modelled

    The other HTTP handlers ([httpapi]); in Redis the message actions, whose records a
    script encodes anew, and the counters of the dashboard; of administration the event
    timeline, the durable counts and the dashboard; the clients of the object store and
    of the push providers, and the lifecycle events of
    realtime; the WebSocket connection of a stream or realtime session, and the JSON of
    realtime frames; the migration tool, configuration and metrics; the SDKs. These
    are decoding, wiring, or state kept by a server outside. The realtime hub takes
    the answers of its Redis stores as arguments of its steps, so what is proved of
    the hub holds for any answers, also those of [RedisRealtime].
    [QueueRepository] leaves out the two methods that only the result-callback
    worker uses, which [QueueCallbacks] models directly.
*)

From Stdlib Require Export ZArith Lia.
From stdpp Require Export base tactics strings gmap sorting numbers list.

#[global] Open Scope string_scope.
#[global] Open Scope Z_scope.

(** * Results and errors *)

(** The error values the Go packages compare with [errors.Is]. The store
    package and the service package declare their own sentinels; [mapStoreError]
    translates the former into the latter. Those of the package [redisstate] are
    [RedisUnavailable] to [RedisForbidden]. [UniqueViolation] is SQLSTATE 23505,
    [DriverError] every other failure of a database call. *)
Inductive error :=
| StoreNotFound | StoreConflict | StoreInvalidTarget | StoreInvalidResult
| ErrNotFound | ErrConflict | ErrInvalidInput | ErrInvalidDependency
| ErrFunctionUnavailable | ErrFunctionTimeout | ErrUnauthorized | ErrInvalidApplicationID
| ErrInvalidArgument | ErrInvalidCursor
| ErrForbidden
| RedisUnavailable | RedisNotFound | LimitExceeded | CorruptRecord | InvalidRecord | OwnershipLost | InvalidKeyPart
| RedisForbidden
| UniqueViolation | DriverError | RandomError | ContextError.

#[export] Instance error_eq_dec : EqDecision error.
Proof. solve_decision. Defined.

Inductive res (A : Type) :=
| Ok (a : A)
| Err (e : error).
Arguments Ok {A} a.
Arguments Err {A} e.

(** * The database monad

    A computation over a database of type [D]. [w_faults] says, call by call,
    whether the next database call fails (an exhausted list means no further
    failure); [w_locked] is the set of row identifiers that concurrent
    transactions hold, which [FOR UPDATE SKIP LOCKED] passes over. *)
Record World (D : Type) := mkWorld {
  w_db : D;
  w_faults : list bool;
  w_locked : gset string
}.
Arguments mkWorld {D} _ _ _.
Arguments w_db {D} _.
Arguments w_faults {D} _.
Arguments w_locked {D} _.

Definition M (D A : Type) : Type := World D -> res A * World D.

Section monad.
Context {D : Type}.

Definition set_db (d : D) (w : World D) : World D :=
  mkWorld d (w_faults w) (w_locked w).

#[global] Instance M_ret : MRet (M D) := fun A a w => (Ok a, w).
#[global] Instance M_bind : MBind (M D) := fun A B k m w =>
  match m w with
  | (Ok a, w') => k a w'
  | (Err e, w') => (Err e, w')
  end.

Definition fail {A} (e : error) : M D A := fun w => (Err e, w).

(** One round trip to the database: it fails when the fault schedule says
    so, and otherwise runs the statement, which may itself be refused. *)
Definition exec {A} (stmt : gset string -> D -> res (A * D)) : M D A := fun w =>
  let run faults :=
    match stmt (w_locked w) (w_db w) with
    | Ok (a, d) => (Ok a, mkWorld d faults (w_locked w))
    | Err e => (Err e, mkWorld (w_db w) faults (w_locked w))
    end in
  match w_faults w with
  | [] => run []
  | false :: fs => run fs
  | true :: fs => (Err DriverError, mkWorld (w_db w) fs (w_locked w))
  end.

(** A read-only statement, and one whose single row may be missing. *)
Definition query {A} (f : D -> A) : M D A :=
  exec (fun _ d => Ok (f d, d)).
Definition query_row {A} (e : error) (f : D -> option A) : M D A :=
  exec (fun _ d => match f d with Some a => Ok (a, d) | None => Err e end).
Definition update {A} (f : D -> A * D) : M D A :=
  exec (fun _ d => Ok (f d)).

(** [pool.Begin] and [tx.Commit] are database calls too. *)
Definition begin : M D unit := query (fun _ => tt).
Definition commit : M D unit := query (fun _ => tt).

(** [defer tx.Rollback(ctx)]: a transaction body that returns an error,
    including the error of [Commit] itself, leaves the database as it was. *)
Definition transaction {A} (body : M D A) : M D A := fun w =>
  match body w with
  | (Ok a, w') => (Ok a, w')
  | (Err e, w') => (Err e, set_db (w_db w) w')
  end.

(** [if err != nil { ... }] after a call: the error is looked at, and replaced
    or raised again. *)
Definition on_error {A} (m : M D A) (h : error -> M D A) : M D A := fun w =>
  match m w with
  | (Ok a, w') => (Ok a, w')
  | (Err e, w') => h e w'
  end.

Definition mapM_ {A B} (f : A -> M D B) : list A -> M D (list B) :=
  fix go l := match l with
  | [] => mret []
  | a :: l' => b ← f a; bs ← go l'; mret (b :: bs)
  end.
End monad.

(** * Running a computation *)

Section run.
Context {D : Type}.
Implicit Types w : World D.

Lemma bind_ok {A B} (m : M D A) (k : A -> M D B) w b w' :
  (m ≫= k) w = (Ok b, w') <->
  exists a w1, m w = (Ok a, w1) /\ k a w1 = (Ok b, w').
Proof.
  unfold mbind, M_bind. destruct (m w) as [[a|e] w1]; naive_solver.
Qed.

Lemma bind_err {A B} (m : M D A) (k : A -> M D B) w e w' :
  (m ≫= k) w = (Err e, w') <->
  m w = (Err e, w') \/
  exists a w1, m w = (Ok a, w1) /\ k a w1 = (Err e, w').
Proof.
  unfold mbind, M_bind. destruct (m w) as [[a|e'] w1]; naive_solver.
Qed.

Lemma ret_ok {A} (a b : A) w w' :
  (mret a : M D A) w = (Ok b, w') <-> a = b /\ w = w'.
Proof. unfold mret, M_ret. naive_solver. Qed.

Lemma fail_ok {A} (b : A) e w w' : fail e w = (Ok b, w') <-> False.
Proof. unfold fail. naive_solver. Qed.

(** A statement that succeeds consumes one entry of the fault schedule and
    leaves the lock set alone. *)
Definition after_call w w' : Prop :=
  w_locked w' = w_locked w /\ w_faults w' = tail (w_faults w).

Lemma exec_ok {A} (stmt : gset string -> D -> res (A * D)) w a w' :
  exec stmt w = (Ok a, w') <->
  stmt (w_locked w) (w_db w) = Ok (a, w_db w') /\ after_call w w'
  /\ hd false (w_faults w) = false.
Proof.
  unfold exec, after_call. destruct w as [d fs lk], w' as [d' fs' lk']; simpl.
  destruct fs as [|[] fs]; simpl; [| naive_solver |];
    destruct (stmt lk d) as [[a0 d0]|e]; naive_solver.
Qed.

(** A statement that fails has changed nothing. *)
Lemma exec_err {A} (stmt : gset string -> D -> res (A * D)) w e w' :
  exec stmt w = (Err e, w') -> w_db w' = w_db w.
Proof.
  unfold exec. destruct w as [d fs lk]; simpl.
  destruct fs as [|[] fs]; simpl; [|naive_solver|];
    destruct (stmt lk d) as [[a0 d0]|e0]; naive_solver.
Qed.

Lemma query_ok {A} (f : D -> A) w a w' :
  query f w = (Ok a, w') <->
  a = f (w_db w) /\ w_db w' = w_db w /\ after_call w w'
  /\ hd false (w_faults w) = false.
Proof.
  unfold query. rewrite exec_ok. split; intros; destruct_and!; simplify_eq;
    split_and!; congruence.
Qed.

Lemma query_row_ok {A} (f : D -> option A) e w a w' :
  query_row e f w = (Ok a, w') <->
  f (w_db w) = Some a /\ w_db w' = w_db w /\ after_call w w'
  /\ hd false (w_faults w) = false.
Proof.
  unfold query_row. rewrite exec_ok.
  destruct (f (w_db w)); split; intros; destruct_and!; simplify_eq;
    split_and!; congruence.
Qed.

Lemma update_ok {A} (f : D -> A * D) w a w' :
  update f w = (Ok a, w') <->
  f (w_db w) = (a, w_db w') /\ after_call w w'
  /\ hd false (w_faults w) = false.
Proof.
  unfold update. rewrite exec_ok. split; intros; destruct_and!; simplify_eq;
    split_and!; congruence.
Qed.

Lemma transaction_ok {A} (body : M D A) w a w' :
  transaction body w = (Ok a, w') <-> body w = (Ok a, w').
Proof. unfold transaction. destruct (body w) as [[?|?] ?]; naive_solver. Qed.

Lemma transaction_err {A} (body : M D A) w e w' :
  transaction body w = (Err e, w') -> exists w1, body w = (Err e, w1).
Proof. unfold transaction. destruct (body w) as [[?|?] ?]; naive_solver. Qed.

(** Atomicity: a transaction that reports an error has changed nothing. *)
Lemma transaction_err_db {A} (body : M D A) w e w' :
  transaction body w = (Err e, w') -> w_db w' = w_db w.
Proof.
  unfold transaction. destruct (body w) as [[?|?] ?]; intros; simplify_eq; done.
Qed.
End run.

(** * Relations that computations keep

    A reflexive and transitive relation between the database before and after
    is kept by a computation if each of its statements keeps it, whatever fails. *)

Section keeps.
Context {D : Type} (R : D -> D -> Prop) `{!PreOrder R}.

Definition keeps {A} (m : M D A) : Prop := forall w, R (w_db w) (w_db (m w).2).

Lemma keeps_ret {A} (a : A) : keeps (mret a).
Proof. intros w. reflexivity. Qed.
Lemma keeps_fail {A} e : keeps (fail (A:=A) e).
Proof. intros w. reflexivity. Qed.

Lemma keeps_exec {A} (stmt : gset string -> D -> res (A * D)) :
  (forall lk d a d', stmt lk d = Ok (a, d') -> R d d') -> keeps (exec stmt).
Proof.
  intros Hs w. unfold exec. destruct w as [d fs lk]; simpl.
  destruct fs as [|[] fs]; simpl; [|reflexivity|];
    destruct (stmt lk d) as [[a d']|e] eqn:E; simpl; eauto; reflexivity.
Qed.

Lemma keeps_query {A} (f : D -> A) : keeps (query f).
Proof. apply keeps_exec. intros. simplify_eq. reflexivity. Qed.
Lemma keeps_query_row {A} e (f : D -> option A) : keeps (query_row e f).
Proof. apply keeps_exec. intros. destruct (f _); simplify_eq. reflexivity. Qed.
Lemma keeps_update {A} (f : D -> A * D) : (forall d, R d (f d).2) -> keeps (update f).
Proof.
  intros Hf. apply keeps_exec. intros lk d a d' Heq. specialize (Hf d).
  injection Heq as Heq. by rewrite Heq in Hf.
Qed.

Lemma keeps_bind {A B} (m : M D A) (k : A -> M D B) :
  keeps m -> (forall a, keeps (k a)) -> keeps (m ≫= k).
Proof.
  intros Hm Hk w. unfold mbind, M_bind. specialize (Hm w).
  destruct (m w) as [[a|e] w1]; simpl in *; [|done].
  etransitivity; [exact Hm|apply Hk].
Qed.

Lemma keeps_on_error {A} (m : M D A) (h : error -> M D A) :
  keeps m -> (forall e, keeps (h e)) -> keeps (on_error m h).
Proof.
  intros Hm Hh w. unfold on_error. specialize (Hm w).
  destruct (m w) as [[a|e] w1]; simpl in *; [done|].
  etransitivity; [exact Hm|apply Hh].
Qed.

Lemma keeps_transaction {A} (m : M D A) : keeps m -> keeps (transaction m).
Proof.
  intros Hm w. unfold transaction. specialize (Hm w).
  destruct (m w) as [[a|e] w1]; simpl in *; [done|reflexivity].
Qed.

Lemma keeps_mapM {A B} (f : A -> M D B) l : (forall a, keeps (f a)) -> keeps (mapM_ f l).
Proof.
  intros Hf. induction l as [|a l IH]; [apply keeps_ret|]. simpl.
  apply keeps_bind; [done|]. intros b. apply keeps_bind; [done|]. intros. apply keeps_ret.
Qed.

(** From the outcome of every run. *)
Lemma keeps_run {A} (m : M D A) :
  (forall w r w', m w = (r, w') -> R (w_db w) (w_db w')) -> keeps m.
Proof. intros Hr w. destruct (m w) as [r w'] eqn:E. by apply Hr in E. Qed.
End keeps.

(** * Runs without faults *)

Section quiet.
Context {D : Type}.

(** Once no further call fails, none does later. *)
Definition quiet {A} (m : M D A) : Prop :=
  forall w, w_faults w = [] -> w_faults (m w).2 = [] /\ w_locked (m w).2 = w_locked w.

Lemma quiet_ret {A} (a : A) : quiet (mret a).
Proof. by intros w. Qed.
Lemma quiet_fail {A} e : quiet (fail (A:=A) e).
Proof. by intros w. Qed.
Lemma quiet_exec {A} (stmt : gset string -> D -> res (A * D)) : quiet (exec stmt).
Proof.
  intros w Hw. unfold exec. rewrite Hw. by destruct (stmt _ _) as [[? ?]|?].
Qed.
Lemma quiet_bind {A B} (m : M D A) (k : A -> M D B) :
  quiet m -> (forall a, quiet (k a)) -> quiet (m ≫= k).
Proof.
  intros Hm Hk w Hw. unfold mbind, M_bind. destruct (Hm w Hw) as [Hf Hl].
  destruct (m w) as [[a|e] w1]; simpl in *; [|done].
  destruct (Hk a w1 Hf) as [Hf' Hl']. split; congruence.
Qed.
Lemma quiet_on_error {A} (m : M D A) (h : error -> M D A) :
  quiet m -> (forall e, quiet (h e)) -> quiet (on_error m h).
Proof.
  intros Hm Hh w Hw. unfold on_error. destruct (Hm w Hw) as [Hf Hl].
  destruct (m w) as [[a|e] w1]; simpl in *; [done|].
  destruct (Hh e w1 Hf) as [Hf' Hl']. split; congruence.
Qed.
Lemma quiet_transaction {A} (m : M D A) : quiet m -> quiet (transaction m).
Proof.
  intros Hm w Hw. unfold transaction. destruct (Hm w Hw) as [Hf Hl].
  by destruct (m w) as [[a|e] w1].
Qed.

(** The world after a quiet run. *)
Lemma quiet_world {A} (m : M D A) d lk r w' :
  quiet m -> m (mkWorld d [] lk) = (r, w') -> w' = mkWorld (w_db w') [] lk.
Proof.
  intros Hm Hrun. destruct (Hm (mkWorld d [] lk) eq_refl) as [Hf Hl]. rewrite Hrun in Hf, Hl.
  destruct w'. simpl in *. congruence.
Qed.
End quiet.

(** * Tables keyed by a text primary key *)

Section table.
Context {R : Type}.
Implicit Types T : gmap string R.

Definition rows T : list R := (map_to_list T).*2.

(** [SELECT ... WHERE p], [SELECT count], [UPDATE ... SET f WHERE p] and
    [DELETE ... WHERE p]. *)
Definition select_where (p : R -> bool) T : list R := List.filter p (rows T).
Definition count_where (p : R -> bool) T : Z :=
  Z.of_nat (length (select_where p T)).
Definition update_where (p : R -> bool) (f : R -> R) T : gmap string R :=
  (fun r => if p r then f r else r) <$> T.
Definition delete_where (p : R -> bool) T : gmap string R :=
  filter (fun kv : string * R => p kv.2 = false) T.

Lemma elem_of_rows T r : r ∈ rows T <-> exists k, T !! k = Some r.
Proof.
  unfold rows. rewrite list_elem_of_fmap. split.
  - intros ([k r'] & -> & H%elem_of_map_to_list). eauto.
  - intros [k H]. exists (k, r). by rewrite elem_of_map_to_list.
Qed.

Lemma elem_of_select p T r :
  r ∈ select_where p T <-> p r = true /\ exists k, T !! k = Some r.
Proof.
  unfold select_where. rewrite list_elem_of_In, filter_In, <- list_elem_of_In,
    elem_of_rows. naive_solver.
Qed.

Lemma lookup_update_where p f T k :
  update_where p f T !! k = (fun r => if p r then f r else r) <$> T !! k.
Proof. apply lookup_fmap. Qed.

Lemma lookup_delete_where p T k r :
  delete_where p T !! k = Some r <-> T !! k = Some r /\ p r = false.
Proof. unfold delete_where. by rewrite map_lookup_filter_Some. Qed.

Lemma count_where_nonneg p T : 0 <= count_where p T.
Proof. unfold count_where. lia. Qed.

Lemma count_where_0 p T :
  count_where p T = 0 <-> forall k r, T !! k = Some r -> p r = false.
Proof.
  unfold count_where. split.
  - intros H k r Hk. destruct (p r) eqn:Hp; [|done].
    assert (r ∈ select_where p T) as Hin by (rewrite elem_of_select; eauto).
    destruct (select_where p T); [by apply elem_of_nil in Hin | done].
  - intros H. destruct (select_where p T) as [|r l] eqn:E; [done|].
    assert (r ∈ select_where p T) as [Hp [k Hk]]%elem_of_select
      by (rewrite E; apply list_elem_of_here).
    by rewrite (H k r Hk) in Hp.
Qed.

Lemma alter_insert_Some (f : R -> R) T k r :
  T !! k = Some r -> alter f k T = <[k:=f r]> T.
Proof.
  intros Hk. apply map_eq. intros k'. destruct (decide (k = k')) as [<-|Hne].
  - by rewrite lookup_alter_eq, lookup_insert_eq, Hk.
  - by rewrite lookup_alter_ne, lookup_insert_ne.
Qed.

(** Counting after one row has changed. *)
Lemma count_where_insert p T k r r' :
  T !! k = Some r ->
  count_where p (<[k:=r']> T) =
  count_where p T - Z.b2z (p r) + Z.b2z (p r').
Proof.
  intros Hk. unfold count_where, select_where, rows.
  assert (forall l1 l2 : list R, l1 ≡ₚ l2 ->
    length (List.filter p l1) = length (List.filter p l2)) as Hperm.
  { induction 1; simpl; repeat case_match; simpl in *; lia. }
  assert (forall m : gmap string R, m !! k = None -> forall x,
    Z.of_nat (length (List.filter p (map_to_list (<[k:=x]> m)).*2)) =
    Z.b2z (p x) + Z.of_nat (length (List.filter p (map_to_list m).*2))) as Hnew.
  { intros m Hm x. erewrite Hperm.
    2:{ apply fmap_Permutation, map_to_list_insert. done. }
    rewrite fmap_cons. cbn [snd List.filter].
    destruct (p x); cbn [length Z.b2z]; lia. }
  rewrite <- (insert_delete_id T k r Hk) at 2.
  rewrite <- insert_delete_eq.
  rewrite !Hnew by apply lookup_delete_eq. lia.
Qed.
End table.

(** * Lists of rows *)

Section lists.
Context {A B : Type}.

Lemma filter_sublist (p : A -> bool) l : List.filter p l `sublist_of` l.
Proof. induction l as [|a l IH]; simpl; [done|]. destruct (p a); by constructor. Qed.

Lemma elem_of_filter_list (p : A -> bool) l a :
  a ∈ List.filter p l <-> a ∈ l /\ p a = true.
Proof. by rewrite !list_elem_of_In, filter_In. Qed.

Lemma filter_length_ext (p q : A -> bool) l :
  (forall a, a ∈ l -> p a = q a) ->
  length (List.filter p l) = length (List.filter q l).
Proof.
  intros H. f_equal. apply List.filter_ext_in. intros a Ha. apply H.
  by apply list_elem_of_In.
Qed.

(** A join keeps the order of the rows it finds a partner for. *)
Lemma omap_fst_sublist (f : A -> option B) l :
  (omap (fun a => (fun b => (a, b)) <$> f a) l).*1 `sublist_of` l.
Proof.
  induction l as [|a l IH]; simpl; [done|].
  destruct (f a); simpl; by constructor.
Qed.

Lemma find_app_None (p : A -> bool) l l' :
  List.find p l = None -> List.find p (l ++ l')%list = List.find p l'.
Proof. induction l as [|a l IH]; simpl; [done|]. by destruct (p a). Qed.

Lemma zip_with_elem {C} (f : A -> B -> C) l k a :
  (length l <= length k)%nat -> a ∈ l -> exists b, f a b ∈ zip_with f l k.
Proof.
  intros Hlen [i Hi]%list_elem_of_lookup.
  destruct (lookup_lt_is_Some_2 k i) as [b Hb]; [apply lookup_lt_Some in Hi; lia|].
  exists b. apply (list_elem_of_lookup_2 _ i), lookup_zip_with_Some. eauto.
Qed.

(** A part of a sorted list is sorted. *)
Lemma sorted_sublist (R : A -> A -> Prop) l l' :
  l `sublist_of` l' -> StronglySorted R l' -> StronglySorted R l.
Proof.
  induction 1 as [|x l l' Hs IH|x l l' Hs IH]; intros Hd; [done|..];
    apply StronglySorted_inv in Hd as [Hd Hx]; [|auto].
  constructor; [auto|]. rewrite Forall_forall in *. intros y Hy. apply Hx.
  by eapply elem_of_sublist.
Qed.

(** In a sorted list, what [take] keeps comes before what it leaves. *)
Lemma sorted_take_drop (R : A -> A -> Prop) l n a b :
  StronglySorted R l -> a ∈ take n l -> b ∈ drop n l -> R a b.
Proof.
  intros Hs Ha Hb. rewrite <- (take_drop n l) in Hs.
  apply StronglySorted_app in Hs as (H & _). by apply H.
Qed.
End lists.

Section count.
Context `{Countable K} {V : Type}.
Implicit Types m : gmap K V.

(** Entries of a table that satisfy a condition on key and value. *)
Definition count_entries (p : K * V -> bool) m : Z :=
  Z.of_nat (length (List.filter p (map_to_list m))).

Lemma filter_length_perm {A} (p : A -> bool) l l' :
  l ≡ₚ l' -> length (List.filter p l) = length (List.filter p l').
Proof. induction 1; simpl; repeat case_match; simpl in *; lia. Qed.

Lemma count_entries_insert p m k v :
  m !! k = None -> count_entries p (<[k:=v]> m) = Z.b2z (p (k, v)) + count_entries p m.
Proof.
  intros Hk. unfold count_entries.
  rewrite (filter_length_perm _ _ _ (map_to_list_insert _ _ v Hk)). cbn [List.filter].
  destruct (p (k, v)); cbn [length Z.b2z]; lia.
Qed.

Lemma count_entries_ext p q m :
  (forall k v, m !! k = Some v -> p (k, v) = q (k, v)) ->
  count_entries p m = count_entries q m.
Proof.
  intros Heq. unfold count_entries. f_equal. apply filter_length_ext.
  intros [k v] Hin%elem_of_map_to_list. auto.
Qed.
End count.

Section keyed.
Context {R : Type} (key : R -> string).

(** Rows under their primary key are listed without repetition. *)
Lemma rows_keys (T : gmap string R) :
  (forall k r, T !! k = Some r -> key r = k) -> key <$> rows T = (map_to_list T).*1.
Proof.
  intros Hk. unfold rows. rewrite <- list_fmap_compose. apply list_fmap_ext.
  intros i [k r] Hi. simpl. apply Hk.
  apply elem_of_map_to_list, list_elem_of_lookup. eauto.
Qed.

Lemma select_keys_NoDup p (T : gmap string R) :
  (forall k r, T !! k = Some r -> key r = k) -> NoDup (key <$> select_where p T).
Proof.
  intros Hk. eapply sublist_NoDup; [|apply fmap_sublist, filter_sublist].
  rewrite rows_keys by done. apply NoDup_fst_map_to_list.
Qed.
End keyed.

(** ** Sums over a table *)

Section msum.
Context `{Countable K} {A : Type} (f : A -> Z).
Implicit Types m : gmap K A.

Definition msum m : Z := map_fold (fun _ a z => f a + z) 0 m.

Lemma msum_empty : msum ∅ = 0.
Proof. apply map_fold_empty. Qed.
Lemma msum_insert m k a : m !! k = None -> msum (<[k := a]> m) = f a + msum m.
Proof. intros Hk. unfold msum. rewrite map_fold_insert_L; [done|intros; lia|done]. Qed.
Lemma msum_delete m k a : m !! k = Some a -> msum (delete k m) = msum m - f a.
Proof.
  intros Hk. rewrite <- (insert_delete_id m k a Hk) at 2.
  rewrite msum_insert by apply lookup_delete_eq. lia.
Qed.
Lemma msum_replace m k a b : m !! k = Some a -> msum (<[k := b]> m) = msum m - f a + f b.
Proof.
  intros Hk. rewrite <- insert_delete_eq, msum_insert by apply lookup_delete_eq.
  rewrite (msum_delete m k a Hk). lia.
Qed.
Lemma msum_nonneg m : (forall k a, m !! k = Some a -> 0 <= f a) -> 0 <= msum m.
Proof.
  induction m as [|k a m Hk IH] using map_ind; intros Hf; [by rewrite msum_empty|].
  rewrite msum_insert by done. pose proof (Hf k a (lookup_insert_eq _ _ _)).
  assert (0 <= msum m); [|lia]. apply IH. intros k' a' Hk'. apply (Hf k').
  by rewrite lookup_insert_ne by congruence.
Qed.
Lemma msum_insert_le m k a :
  (forall k a, m !! k = Some a -> 0 <= f a) -> msum (<[k := a]> m) <= msum m + f a.
Proof.
  intros Hf. destruct (m !! k) as [b|] eqn:Hk.
  - rewrite (msum_replace m k b) by done. specialize (Hf k b Hk). lia.
  - rewrite msum_insert by done. lia.
Qed.
End msum.

(** * Machine integers and durations *)

(** Two's-complement wrap-around of Go's [int64]. *)
Definition wrap64 (z : Z) : Z := (z + 2 ^ 63) `mod` 2 ^ 64 - 2 ^ 63.

Lemma wrap64_small z : - 2 ^ 63 <= z < 2 ^ 63 -> wrap64 z = z.
Proof. intros. unfold wrap64. rewrite Z.mod_small; lia. Qed.

(** Times and durations are nanoseconds, as in Go's [time] package. *)
Definition Microsecond : Z := 1000.
Definition Millisecond : Z := 1000 * Microsecond.
Definition Second : Z := 1000 * Millisecond.
Definition Minute : Z := 60 * Second.
Definition Hour : Z := 60 * Minute.

(** [time.Duration(n) * time.Second]. *)
Definition seconds (n : Z) : Z := wrap64 (n * Second).

Lemma seconds_small n : 0 <= n <= 2592000 -> seconds n = n * Second.
Proof.
  intros. unfold seconds. apply wrap64_small.
  unfold Second, Millisecond, Microsecond. lia.
Qed.

(** A property of a bounded range of integers, checked by computation. *)
Lemma check_range (P : Z -> Prop) `{forall z, Decision (P z)} lo n z :
  forallb (fun z => bool_decide (P z)) (seqZ lo n) = true -> lo <= z < lo + n -> P z.
Proof.
  rewrite forallb_forall. intros Hall Hz. apply (bool_decide_eq_true (P z)).
  apply Hall, list_elem_of_In, elem_of_seqZ. lia.
Qed.

(** * Automation *)

(** Decomposes [keeps R m] along the structure of [m]; the statements that change
    the database remain as goals. *)
Ltac keeps_solve :=
  repeat match goal with
  | |- keeps ?R (mret _) => apply (keeps_ret R)
  | |- keeps ?R (fail _) => apply (keeps_fail R)
  | |- keeps ?R begin => apply (keeps_query R)
  | |- keeps ?R commit => apply (keeps_query R)
  | |- keeps ?R (query _) => apply (keeps_query R)
  | |- keeps ?R (query_row _ _) => apply (keeps_query_row R)
  | |- keeps ?R (transaction _) => apply (keeps_transaction R)
  | |- keeps ?R (on_error _ _) => apply (keeps_on_error R); [|intros ?]
  | |- keeps ?R (_ ≫= _) => apply (keeps_bind R); [|intros ?]
  | |- keeps ?R (if ?b then _ else _) => destruct b
  | |- keeps ?R (match ?o with Some _ => _ | None => _ end) => destruct o
  | |- keeps ?R (let '(_, _) := ?p in _) => destruct p
  end.

(** Decomposes [quiet m] along the structure of [m]. *)
Ltac quiet_solve :=
  repeat match goal with
  | |- quiet (mret _) => apply quiet_ret
  | |- quiet (fail _) => apply quiet_fail
  | |- quiet begin => apply quiet_exec
  | |- quiet commit => apply quiet_exec
  | |- quiet (query _) => apply quiet_exec
  | |- quiet (query_row _ _) => apply quiet_exec
  | |- quiet (update _) => apply quiet_exec
  | |- quiet (exec _) => apply quiet_exec
  | |- quiet (transaction _) => apply quiet_transaction
  | |- quiet (on_error _ _) => apply quiet_on_error; [|intros ?]
  | |- quiet (_ ≫= _) => apply quiet_bind; [|intros ?]
  | |- quiet (if ?b then _ else _) => destruct b
  | |- quiet (match ?o with Some _ => _ | None => _ end) => destruct o
  | |- quiet (let '(_, _) := ?p in _) => destruct p
  end.

(** Turns boolean tests in hypotheses and goal into propositions. *)
Create Rewrite HintDb relay_bool.
Create HintDb relay.
Create Rewrite HintDb relay_db.
#[export] Hint Rewrite andb_true_iff orb_true_iff negb_true_iff negb_false_iff
  andb_false_iff orb_false_iff Z.leb_le Z.ltb_lt Z.eqb_eq Z.leb_gt Z.ltb_ge
  Z.eqb_neq bool_decide_eq_true bool_decide_eq_false : relay_bool.

Ltac bool_to_prop := autorewrite with relay_bool in *.

(** Decomposes a successful run, statement by statement. *)
Ltac run_inv :=
  repeat match goal with
  | H : transaction _ _ = (Ok _, _) |- _ =>
      apply (proj1 (transaction_ok _ _ _ _)) in H
  | H : (_ ≫= _) _ = (Ok _, _) |- _ =>
      apply bind_ok in H; destruct H as (? & ? & ? & H)
  | H : mret _ _ = (Ok _, _) |- _ => apply ret_ok in H; destruct H as [? ?]; subst
  | H : fail _ _ = (Ok _, _) |- _ => apply fail_ok in H; destruct H
  | H : begin _ = (Ok _, _) |- _ => apply query_ok in H; destruct H as (_ & ? & ? & ?)
  | H : commit _ = (Ok _, _) |- _ => apply query_ok in H; destruct H as (_ & ? & ? & ?)
  | H : query _ _ = (Ok _, _) |- _ => apply query_ok in H; destruct H as (? & ? & ? & ?)
  | H : query_row _ _ _ = (Ok _, _) |- _ =>
      apply query_row_ok in H; destruct H as (? & ? & ? & ?)
  | H : update _ _ = (Ok _, _) |- _ => apply update_ok in H; destruct H as (? & ? & ?)
  | H : exec _ _ = (Ok _, _) |- _ => apply exec_ok in H; destruct H as (? & ? & ?)
  end.
