(* ===== verification/GoLib.v ===== *)
(** * The parts of Go's standard library the program uses

    Byte strings and the functions of [strings], [sort], [encoding/hex],
    [encoding/base64], [unicode/utf8] and [crypto/sha256] that the modelled
    files call. A Go string is a byte sequence, so it is a [string] here, one
    [ascii] per byte. *)

From Stdlib Require Import Ascii String.
From stdpp Require Import pretty.
From S2P Require Import Prelude.

Definition bytes (s : string) : list ascii := list_ascii_of_string s.
Definition of_bytes (l : list ascii) : string := string_of_list_ascii l.
Definition code (c : ascii) : Z := Z.of_N (N_of_ascii c).
Definition chr (z : Z) : ascii := ascii_of_N (Z.to_N z).
Definition len (s : string) : Z := Z.of_nat (String.length s).

Lemma of_bytes_bytes s : of_bytes (bytes s) = s.
Proof. apply string_of_list_ascii_of_string. Qed.
Lemma bytes_of_bytes l : bytes (of_bytes l) = l.
Proof. apply list_ascii_of_string_of_list_ascii. Qed.
Lemma bytes_length s : length (bytes s) = String.length s.
Proof. induction s; simpl; [done|]. by f_equal. Qed.
Lemma bytes_app s t : bytes (s ++ t)%string = (bytes s ++ bytes t)%list.
Proof. induction s; simpl; [done|]. by f_equal. Qed.
Lemma bytes_inj s t : bytes s = bytes t -> s = t.
Proof. intros H. rewrite <- (of_bytes_bytes s), <- (of_bytes_bytes t). by rewrite H. Qed.
Lemma len_bytes s : len s = Z.of_nat (length (bytes s)).
Proof. unfold len. by rewrite bytes_length. Qed.

(** ** Byte lists: prefixes *)

Fixpoint strip_prefix (p l : list ascii) : option (list ascii) :=
  match p, l with
  | [], _ => Some l
  | a :: p', b :: l' => if decide (a = b) then strip_prefix p' l' else None
  | _ :: _, [] => None
  end.

Lemma strip_prefix_Some p l r : strip_prefix p l = Some r <-> l = (p ++ r)%list.
Proof.
  revert l. induction p as [|a p IH]; intros l; simpl; [naive_solver|].
  destruct l as [|b l]; [naive_solver|]. case_decide; [|naive_solver].
  subst. rewrite IH. naive_solver.
Qed.

(** [strings.HasPrefix], [strings.CutPrefix], [strings.CutSuffix]. *)
Definition CutPrefix (s p : string) : option string :=
  of_bytes <$> strip_prefix (bytes p) (bytes s).
Definition HasPrefix (s p : string) : bool := bool_decide (is_Some (CutPrefix s p)).
Definition CutSuffix (s p : string) : option string :=
  (fun l => of_bytes (rev l)) <$> strip_prefix (rev (bytes p)) (rev (bytes s)).
Definition HasSuffix (s p : string) : bool := bool_decide (is_Some (CutSuffix s p)).

Lemma CutPrefix_Some s p r : CutPrefix s p = Some r <-> s = (p ++ r)%string.
Proof.
  unfold CutPrefix. rewrite fmap_Some. split.
  - intros (l & H & ->). apply strip_prefix_Some in H. apply bytes_inj.
    by rewrite bytes_app, bytes_of_bytes.
  - intros ->. exists (bytes r). rewrite of_bytes_bytes, strip_prefix_Some, bytes_app.
    done.
Qed.

Lemma CutSuffix_Some s p r : CutSuffix s p = Some r <-> s = (r ++ p)%string.
Proof.
  unfold CutSuffix. rewrite fmap_Some. split.
  - intros (l & H & ->). apply strip_prefix_Some in H. apply bytes_inj.
    apply (f_equal (@rev ascii)) in H. rewrite rev_app_distr, !rev_involutive in H.
    simpl. by rewrite bytes_app, bytes_of_bytes.
  - intros ->. exists (rev (bytes r)). simpl.
    rewrite rev_involutive, of_bytes_bytes, strip_prefix_Some, bytes_app, rev_app_distr.
    done.
Qed.

Lemma HasPrefix_true s p : HasPrefix s p = true <-> exists r, s = (p ++ r)%string.
Proof.
  unfold HasPrefix. rewrite bool_decide_eq_true. split.
  - intros [r H]. exists r. by apply CutPrefix_Some.
  - intros [r H]. exists r. by apply CutPrefix_Some.
Qed.

(** ** Splitting, counting and containment of one byte *)

Fixpoint split_bytes (c : ascii) (l : list ascii) : list (list ascii) :=
  match l with
  | [] => [[]]
  | b :: l' =>
      if decide (b = c) then [] :: split_bytes c l'
      else match split_bytes c l' with
           | [] => [[b]]
           | s :: ss => (b :: s) :: ss
           end
  end.

(** [strings.Split] with a one-byte separator. *)
Definition Split (s : string) (c : ascii) : list string :=
  of_bytes <$> split_bytes c (bytes s).
(** [strings.Count] and [strings.Contains] of a one-byte substring. *)
Definition CountByte (s : string) (c : ascii) : nat :=
  length (List.filter (fun b => bool_decide (b = c)) (bytes s)).
Definition ContainsByte (s : string) (c : ascii) : bool :=
  existsb (fun b => bool_decide (b = c)) (bytes s).

Lemma ContainsByte_true s c : ContainsByte s c = true <-> c ∈ bytes s.
Proof.
  unfold ContainsByte. rewrite existsb_exists, list_elem_of_In. split.
  - intros (x & Hx & ->%bool_decide_eq_true). done.
  - intros H. exists c. by rewrite bool_decide_eq_true.
Qed.

Lemma split_bytes_ne c l : split_bytes c l <> [].
Proof. destruct l; simpl; [done|]. repeat case_match; done. Qed.

Lemma split_bytes_app c l l' :
  split_bytes c (l ++ c :: l') = (split_bytes c l ++ split_bytes c l')%list.
Proof.
  induction l as [|b l IH]; simpl.
  - by rewrite decide_True.
  - case_decide; [by rewrite IH|]. rewrite IH.
    destruct (split_bytes c l) eqn:E; [by apply split_bytes_ne in E | done].
Qed.

Lemma split_bytes_single c l : c ∉ l -> split_bytes c l = [l].
Proof.
  induction l as [|b l IH]; [done|]. intros H. simpl.
  rewrite decide_False by set_solver. rewrite IH by set_solver. done.
Qed.

(** ** [strings.TrimSpace]

    The UTF-8 encodings of the runes for which [unicode.IsSpace] holds.
    Decoding the first (or last) rune of a string yields one of them exactly
    when its encoding is a prefix (or suffix) of the bytes. *)
Definition space_runes : list (list ascii) :=
  map (map chr)
   ([[9]; [10]; [11]; [12]; [13]; [32]; [194; 133]; [194; 160]; [225; 154; 128];
     [226; 128; 128]; [226; 128; 129]; [226; 128; 130]; [226; 128; 131];
     [226; 128; 132]; [226; 128; 133]; [226; 128; 134]; [226; 128; 135];
     [226; 128; 136]; [226; 128; 137]; [226; 128; 138]; [226; 128; 168];
     [226; 128; 169]; [226; 128; 175]; [226; 129; 159]; [227; 128; 128]] : list (list Z)).

Fixpoint strip_any (ws : list (list ascii)) (l : list ascii) : option (list ascii) :=
  match ws with
  | [] => None
  | w :: ws' => match strip_prefix w l with Some r => Some r | None => strip_any ws' l end
  end.

(** Every stripped rune is at least one byte long, so [length l] rounds suffice. *)
Fixpoint trim_left (ws : list (list ascii)) (fuel : nat) (l : list ascii) : list ascii :=
  match fuel with
  | O => l
  | S n => match strip_any ws l with Some r => trim_left ws n r | None => l end
  end.

Definition trim_bytes (l : list ascii) : list ascii :=
  let l1 := trim_left space_runes (length l) l in
  rev (trim_left (map (@rev ascii) space_runes) (length l1) (rev l1)).
Definition TrimSpace (s : string) : string := of_bytes (trim_bytes (bytes s)).

(** A graphic ASCII byte never starts or ends the encoding of a space. *)
Definition graphic (c : ascii) : bool := (33 <=? code c) && (code c <=? 126).

Lemma strip_any_graphic ws c l :
  graphic c = true ->
  forallb (fun w => match w with [] => false | b :: _ => negb (graphic b) end) ws = true ->
  strip_any ws (c :: l) = None.
Proof.
  intros Hc. induction ws as [|[|b w] ws IH]; simpl; [done | done |].
  rewrite andb_true_iff, negb_true_iff. intros [Hb Hws].
  rewrite decide_False by congruence. auto.
Qed.

Lemma trim_left_graphic ws n l :
  forallb (fun w => match w with [] => false | b :: _ => negb (graphic b) end) ws = true ->
  forallb graphic l = true -> trim_left ws n l = l.
Proof.
  intros Hws Hl. destruct n; [done|]. simpl.
  destruct l as [|c l]; simpl in *.
  - assert (strip_any ws [] = None) as ->; [|done].
    clear -Hws. induction ws as [|[|b w] ws IH]; simpl in *; [done|done|].
    apply andb_true_iff in Hws as [_ ?]. auto.
  - apply andb_true_iff in Hl as [Hc _]. by rewrite strip_any_graphic.
Qed.

Lemma forallb_rev {A} (f : A -> bool) l : forallb f (rev l) = forallb f l.
Proof.
  apply eq_true_iff_eq. rewrite !forallb_forall. setoid_rewrite <- in_rev. done.
Qed.

Lemma TrimSpace_graphic s : forallb graphic (bytes s) = true -> TrimSpace s = s.
Proof.
  intros H. unfold TrimSpace, trim_bytes.
  rewrite (trim_left_graphic space_runes) by (done || reflexivity).
  rewrite (trim_left_graphic (map _ _)) by (rewrite ?forallb_rev; done || reflexivity).
  by rewrite rev_involutive, of_bytes_bytes.
Qed.

Example TrimSpace_ex :
  TrimSpace (String (chr 194) (String (chr 160) " a b ")) = "a b".
Proof. reflexivity. Qed.

(** ** [sort.Strings]: byte-wise lexicographic order *)
Definition sort_strings (l : list string) : list string := merge_sort String.le l.

Lemma sort_strings_perm l : sort_strings l ≡ₚ l.
Proof. apply merge_sort_Permutation. Qed.
Lemma sort_strings_sorted l : StronglySorted String.le (sort_strings l).
Proof. apply StronglySorted_merge_sort; apply _. Qed.

(** ** Character classes of the regular expressions *)
Definition in_range (lo hi c : ascii) : bool := (code lo <=? code c) && (code c <=? code hi).
Definition is_lower : ascii -> bool := in_range "a" "z".
Definition is_upper : ascii -> bool := in_range "A" "Z".
Definition is_digit : ascii -> bool := in_range "0" "9".
Definition is_one_of (s : string) (c : ascii) : bool := ContainsByte s c.

(** [^C1C2{lo,hi}$]: a first byte of one class and then at least [lo] and at
    most [hi] bytes of another. Without the [m] flag Go's [$] matches only at
    the end of the text. *)
Definition match_class (first rest : ascii -> bool) (lo hi : Z) (s : string) : bool :=
  match bytes s with
  | [] => false
  | c :: l => first c && forallb rest l && (lo <=? Z.of_nat (length l))
              && (Z.of_nat (length l) <=? hi)
  end.

(** ** [strings.ToLower], as far as ASCII substrings of the result go

    Besides [A-Z] only U+212A (Kelvin sign) and U+0130 have an ASCII letter as
    lower case; every other rune lowers to non-ASCII bytes, which are kept. *)
Fixpoint lower_bytes (l : list ascii) : list ascii :=
  match l with
  | [] => []
  | c :: l1 =>
      if is_upper c then chr (code c + 32) :: lower_bytes l1
      else match l1 with
           | d :: l2 =>
               if (code c =? 196) && (code d =? 176) then "i"%char :: lower_bytes l2
               else match l2 with
                    | e :: l3 =>
                        if (code c =? 226) && (code d =? 132) && (code e =? 170)
                        then "k"%char :: lower_bytes l3
                        else c :: lower_bytes l1
                    | [] => c :: lower_bytes l1
                    end
           | [] => c :: lower_bytes l1
           end
  end.
Definition ToLower (s : string) : string := of_bytes (lower_bytes (bytes s)).

(** [strings.Contains]. *)
Fixpoint contains_bytes (sub l : list ascii) : bool :=
  match strip_prefix sub l with
  | Some _ => true
  | None => match l with [] => false | _ :: l' => contains_bytes sub l' end
  end.
Definition Contains (s sub : string) : bool := contains_bytes (bytes sub) (bytes s).

(** * Calendar rendering of Go's [time] package

    [Time.String] and [Time.Format(time.RFC3339Nano)] for times in UTC, which
    the queue uses to derive identifiers from instants. *)

(** Decimal text, padded on the left with zeros. *)
Fixpoint zeros (n : nat) : string :=
  match n with O => "" | S n => String "0" (zeros n) end.
Definition decimal (z : Z) : string := pretty z.
Definition padded (width : nat) (z : Z) : string :=
  let s := decimal z in (zeros (width - String.length s) ++ s)%string.

(** Proleptic Gregorian date of a number of days since 1970-01-01. *)
Definition civil_from_days (days : Z) : Z * Z * Z :=
  let z := days + 719468 in
  let era := z `div` 146097 in
  let doe := z - era * 146097 in
  let yoe := (doe - doe `div` 1460 + doe `div` 36524 - doe `div` 146096) `div` 365 in
  let doy := doe - (365 * yoe + yoe `div` 4 - yoe `div` 100) in
  let mp := (5 * doy + 2) `div` 153 in
  let d := doy - (153 * mp + 2) `div` 5 + 1 in
  let m := if mp <? 10 then mp + 3 else mp - 9 in
  let y := yoe + era * 400 + (if m <=? 2 then 1 else 0) in
  (y, m, d).

(** The zero [time.Time], January 1 of year 1, and [IsZero]. *)
Definition zero_time : Z := -62135596800 * Second.
Definition IsZero (t : Z) : bool := t =? zero_time.

Fixpoint trim_zeros (l : list ascii) : list ascii :=
  match l with
  | c :: l' => if bool_decide (c = "0"%char) then trim_zeros l' else l
  | [] => []
  end.

(** The [.999999999] part of a layout: nothing for a whole second, otherwise
    the nanoseconds without trailing zeros. *)
Definition fraction (nanos : Z) : string :=
  if nanos =? 0 then ""
  else String "." (of_bytes (rev (trim_zeros (rev (bytes (padded 9 nanos)))))).

Definition date_text (t : Z) : string :=
  let '(y, m, d) := civil_from_days (t `div` (24 * Hour)) in
  (padded 4 y ++ "-" ++ padded 2 m ++ "-" ++ padded 2 d)%string.

Definition clock_text (t : Z) : string :=
  let s := (t `div` Second) `mod` 86400 in
  (padded 2 (s `div` 3600) ++ ":" ++ padded 2 ((s `div` 60) `mod` 60) ++ ":"
   ++ padded 2 (s `mod` 60) ++ fraction (t `mod` Second))%string.

(** [t.UTC().String()] and [t.UTC().Format(time.RFC3339Nano)]. *)
Definition Time_String (t : Z) : string :=
  (date_text t ++ " " ++ clock_text t ++ " +0000 UTC")%string.
Definition Format_RFC3339Nano (t : Z) : string :=
  (date_text t ++ "T" ++ clock_text t ++ "Z")%string.

Example Time_String_unix_1 : Time_String (1 * Second) = "1970-01-01 00:00:01 +0000 UTC".
Proof. vm_compute. reflexivity. Qed.

Example Format_leap_day :
  Format_RFC3339Nano (1709210096 * Second + 120 * Millisecond) = "2024-02-29T12:34:56.12Z".
Proof. vm_compute. reflexivity. Qed.
