(* ===== verification/Crypto.v ===== *)
(** * Encodings and digests of Go's standard library

    [unicode/utf8.Valid], [encoding/hex], [encoding/base64.RawURLEncoding],
    [crypto/sha256] and [crypto/hmac], executable on byte strings, with the
    round trips the program relies on. *)

From Stdlib Require Import Ascii String.
From S2P Require Import Prelude GoLib.

(** ** [utf8.Valid] *)

Definition byte_in (lo hi : Z) (c : ascii) : bool := (lo <=? code c) && (code c <=? hi).

Fixpoint utf8_valid (l : list ascii) : bool :=
  match l with
  | [] => true
  | a :: l1 =>
      if code a <? 128 then utf8_valid l1
      else match l1 with
      | [] => false
      | b :: l2 =>
          if byte_in 194 223 a then byte_in 128 191 b && utf8_valid l2
          else match l2 with
          | [] => false
          | c :: l3 =>
              if byte_in 224 239 a then
                byte_in (if code a =? 224 then 160 else 128)
                        (if code a =? 237 then 159 else 191) b
                && byte_in 128 191 c && utf8_valid l3
              else match l3 with
              | [] => false
              | d :: l4 =>
                  byte_in 240 244 a
                  && byte_in (if code a =? 240 then 144 else 128)
                             (if code a =? 244 then 143 else 191) b
                  && byte_in 128 191 c && byte_in 128 191 d && utf8_valid l4
              end
          end
      end
  end.
Definition utf8_Valid (s : string) : bool := utf8_valid (bytes s).

(** ** [encoding/hex] *)

Definition hex_alphabet : list ascii := bytes "0123456789abcdef".
Definition hex_digit (n : Z) : ascii := nth (Z.to_nat n) hex_alphabet "0"%char.
Definition hex_value (c : ascii) : option Z :=
  if is_digit c then Some (code c - 48)
  else if in_range "a" "f" c then Some (code c - 87)
  else if in_range "A" "F" c then Some (code c - 55)
  else None.

Fixpoint hex_encode (l : list ascii) : list ascii :=
  match l with
  | [] => []
  | c :: l' => hex_digit (code c `div` 16) :: hex_digit (code c `mod` 16) :: hex_encode l'
  end.
Fixpoint hex_decode (l : list ascii) : option (list ascii) :=
  match l with
  | [] => Some []
  | [_] => None
  | a :: b :: l' =>
      match hex_value a, hex_value b, hex_decode l' with
      | Some x, Some y, Some r => Some (chr (16 * x + y) :: r)
      | _, _, _ => None
      end
  end.
Definition hex_EncodeToString (s : string) : string := of_bytes (hex_encode (bytes s)).
Definition hex_DecodeString (s : string) : option string :=
  of_bytes <$> hex_decode (bytes s).

Lemma code_range c : 0 <= code c < 256.
Proof. destruct c as [[] [] [] [] [] [] [] []]; vm_compute; split; congruence. Qed.
Lemma chr_code c : chr (code c) = c.
Proof. unfold chr, code. by rewrite N2Z.id, ascii_N_embedding. Qed.
Lemma chr_eq z c : z = code c -> chr z = c.
Proof. intros ->. apply chr_code. Qed.
Lemma code_chr z : 0 <= z < 256 -> code (chr z) = z.
Proof. intros. unfold code, chr. rewrite N_ascii_embedding; lia. Qed.

(** A property of every byte follows from checking all 256 of them. *)
Lemma byte_cases (P : ascii -> Prop) `{forall c, Decision (P c)} c :
  forallb (fun z => bool_decide (P (chr z))) (seqZ 0 256) = true -> P c.
Proof.
  intros Hall. rewrite <- (chr_code c).
  apply (check_range (fun z => P (chr z)) 0 256); [done|]. apply code_range.
Qed.

Lemma hex_value_digit n : 0 <= n < 16 -> hex_value (hex_digit n) = Some n.
Proof.
  intros H. by apply (check_range (fun n => hex_value (hex_digit n) = Some n) 0 16).
Qed.

Lemma hex_decode_encode l : hex_decode (hex_encode l) = Some l.
Proof.
  induction l as [|c l IH]; [done|]. cbn [hex_encode hex_decode].
  pose proof (code_range c).
  rewrite !hex_value_digit by (apply Z.mod_pos_bound || Z.to_euclidean_division_equations; lia).
  rewrite IH. do 2 f_equal.
  rewrite <- (Z.div_mod (code c) 16) by lia. apply chr_code.
Qed.

Lemma hex_roundtrip s : hex_DecodeString (hex_EncodeToString s) = Some s.
Proof.
  unfold hex_DecodeString, hex_EncodeToString.
  rewrite bytes_of_bytes, hex_decode_encode. simpl. by rewrite of_bytes_bytes.
Qed.

Lemma hex_encode_length l : length (hex_encode l) = (2 * length l)%nat.
Proof. induction l as [|c l IH]; simpl; lia. Qed.

(** ** [base64.RawURLEncoding] *)

Definition b64_alphabet : list ascii :=
  bytes "ABCDEFGHIJKLMNOPQRSTUVWXYZabcdefghijklmnopqrstuvwxyz0123456789-_".
Definition b64_digit (n : Z) : ascii := nth (Z.to_nat n) b64_alphabet "A"%char.
Definition b64_value (c : ascii) : option Z :=
  if is_upper c then Some (code c - 65)
  else if is_lower c then Some (code c - 71)
  else if is_digit c then Some (code c + 4)
  else if decide (c = "-"%char) then Some 62
  else if decide (c = "_"%char) then Some 63
  else None.

Fixpoint b64_encode (l : list ascii) : list ascii :=
  match l with
  | [] => []
  | [a] => [b64_digit (code a `div` 4); b64_digit (code a `mod` 4 * 16)]
  | [a; b] =>
      [b64_digit (code a `div` 4);
       b64_digit (code a `mod` 4 * 16 + code b `div` 16);
       b64_digit (code b `mod` 16 * 4)]
  | a :: b :: c :: l' =>
      b64_digit (code a `div` 4)
      :: b64_digit (code a `mod` 4 * 16 + code b `div` 16)
      :: b64_digit (code b `mod` 16 * 4 + code c `div` 64)
      :: b64_digit (code c `mod` 64) :: b64_encode l'
  end.

(** Groups of four digits; a last group of two or three digits is allowed, its
    unused low bits are ignored (the encoding is not [Strict]). *)
Fixpoint b64_groups (l : list Z) : option (list ascii) :=
  match l with
  | [] => Some []
  | [_] => None
  | [x; y] => Some [chr (x * 4 + y `div` 16)]
  | [x; y; z] => Some [chr (x * 4 + y `div` 16); chr (y `mod` 16 * 16 + z `div` 4)]
  | x :: y :: z :: t :: l' =>
      match b64_groups l' with
      | Some r => Some (chr (x * 4 + y `div` 16) :: chr (y `mod` 16 * 16 + z `div` 4)
                        :: chr (z `mod` 4 * 64 + t) :: r)
      | None => None
      end
  end.

(** Go's decoder skips line feeds and carriage returns. *)
Definition b64_decode (l : list ascii) : option (list ascii) :=
  let l' := List.filter (fun c => negb ((code c =? 10) || (code c =? 13))) l in
  match mapM b64_value l' with
  | Some ds => b64_groups ds
  | None => None
  end.
Definition b64_EncodeToString (s : string) : string := of_bytes (b64_encode (bytes s)).
Definition b64_DecodeString (s : string) : option string :=
  of_bytes <$> b64_decode (bytes s).

Lemma b64_value_digit n : 0 <= n < 64 -> b64_value (b64_digit n) = Some n.
Proof.
  intros H. by apply (check_range (fun n => b64_value (b64_digit n) = Some n) 0 64).
Qed.

Lemma b64_digit_plain n :
  negb ((code (b64_digit n) =? 10) || (code (b64_digit n) =? 13)) = true.
Proof.
  unfold b64_digit. destruct (nth_in_or_default (Z.to_nat n) b64_alphabet "A"%char) as [H| ->];
    [|done]. revert H. generalize (nth (Z.to_nat n) b64_alphabet "A"%char).
  apply forallb_forall. reflexivity.
Qed.

(** Induction over a list three elements at a time. *)
Lemma list_ind3 {A} (P : list A -> Prop) :
  P [] -> (forall a, P [a]) -> (forall a b, P [a; b]) ->
  (forall a b c l, P l -> P (a :: b :: c :: l)) -> forall l, P l.
Proof.
  intros H0 H1 H2 H3. fix IH 1. intros [|a [|b [|c l]]]; [done|apply H1|apply H2|].
  apply H3, IH.
Qed.

Lemma b64_encode_plain l :
  List.filter (fun c => negb ((code c =? 10) || (code c =? 13))) (b64_encode l)
  = b64_encode l.
Proof.
  induction l using list_ind3; cbn [b64_encode List.filter];
    rewrite ?b64_digit_plain; congruence.
Qed.

Ltac b64_bounds :=
  repeat match goal with |- context [code ?c] =>
    lazymatch goal with
    | _ : 0 <= code c < 256 |- _ => fail
    | _ => pose proof (code_range c)
    end
  end; Z.to_euclidean_division_equations; lia.

Lemma b64_decode_encode l : b64_decode (b64_encode l) = Some l.
Proof.
  unfold b64_decode. rewrite b64_encode_plain.
  enough (exists ds, mapM b64_value (b64_encode l) = Some ds /\ b64_groups ds = Some l)
    as (ds & -> & ?) by done.
  induction l as [|a|a b|a b c l (ds & IH1 & IH2)] using list_ind3;
    cbn [b64_encode mapM mbind option_bind mret option_ret].
  - exists []. done.
  - rewrite !b64_value_digit by b64_bounds. eexists; split; [done|].
    cbn [b64_groups]. repeat f_equal; apply chr_eq; b64_bounds.
  - rewrite !b64_value_digit by b64_bounds. eexists; split; [done|].
    cbn [b64_groups]. repeat f_equal; apply chr_eq; b64_bounds.
  - rewrite !b64_value_digit by b64_bounds. cbn [mbind option_bind].
    rewrite IH1. eexists; split; [done|]. cbn [b64_groups]. rewrite IH2.
    repeat f_equal; apply chr_eq; b64_bounds.
Qed.

(** Decoding an encoded byte string yields it back. *)
Lemma b64_roundtrip s : b64_DecodeString (b64_EncodeToString s) = Some s.
Proof.
  unfold b64_DecodeString, b64_EncodeToString.
  rewrite bytes_of_bytes, b64_decode_encode. simpl. by rewrite of_bytes_bytes.
Qed.

(** ** [crypto/sha256] and [crypto/hmac] (FIPS 180-4, RFC 2104) *)

Definition mask32 (z : Z) : Z := Z.land z 4294967295.
Definition add32 (a b : Z) : Z := mask32 (a + b).
Definition rotr (n x : Z) : Z := Z.lor (Z.shiftr x n) (mask32 (Z.shiftl x (32 - n))).

Definition sha_k : list Z :=
  [1116352408; 1899447441; 3049323471; 3921009573; 961987163; 1508970993; 2453635748;
   2870763221; 3624381080; 310598401; 607225278; 1426881987; 1925078388; 2162078206;
   2614888103; 3248222580; 3835390401; 4022224774; 264347078; 604807628; 770255983;
   1249150122; 1555081692; 1996064986; 2554220882; 2821834349; 2952996808; 3210313671;
   3336571891; 3584528711; 113926993; 338241895; 666307205; 773529912; 1294757372;
   1396182291; 1695183700; 1986661051; 2177026350; 2456956037; 2730485921; 2820302411;
   3259730800; 3345764771; 3516065817; 3600352804; 4094571909; 275423344; 430227734;
   506948616; 659060556; 883997877; 958139571; 1322822218; 1537002063; 1747873779;
   1955562222; 2024104815; 2227730452; 2361852424; 2428436474; 2756734187; 3204031479;
   3329325298].
Definition sha_init : list Z :=
  [1779033703; 3144134277; 1013904242; 2773480762; 1359893119; 2600822924; 528734635;
   1541459225].

Fixpoint be_word (l : list Z) : Z :=
  match l with [] => 0 | b :: l' => b * 256 ^ Z.of_nat (length l') + be_word l' end.
Definition be_bytes (n : nat) (z : Z) : list Z :=
  map (fun i => Z.shiftr z (8 * (Z.of_nat n - 1 - Z.of_nat i)) `mod` 256) (seq 0 n).

Fixpoint chunks (n fuel : nat) (l : list Z) : list (list Z) :=
  match fuel, l with
  | O, _ | _, [] => []
  | S f, _ => take n l :: chunks n f (drop n l)
  end.

Definition sha_pad (l : list Z) : list Z :=
  let n := Z.of_nat (length l) in
  (l ++ 128 :: replicate (Z.to_nat ((55 - n) `mod` 64)) 0 ++ be_bytes 8 (8 * n))%list.

(** The message schedule, most recent word first. *)
Fixpoint sha_schedule (n : nat) (w : list Z) : list Z :=
  match n with
  | O => w
  | S m =>
      let x15 := nth 14 w 0 in
      let x2 := nth 1 w 0 in
      let s0 := Z.lxor (Z.lxor (rotr 7 x15) (rotr 18 x15)) (Z.shiftr x15 3) in
      let s1 := Z.lxor (Z.lxor (rotr 17 x2) (rotr 19 x2)) (Z.shiftr x2 10) in
      sha_schedule m (mask32 (nth 15 w 0 + s0 + nth 6 w 0 + s1) :: w)
  end.

Definition sha_round (st : list Z) (kw : Z * Z) : list Z :=
  match st with
  | [a; b; c; d; e; f; g; h] =>
      let s1 := Z.lxor (Z.lxor (rotr 6 e) (rotr 11 e)) (rotr 25 e) in
      let ch := Z.lxor (Z.land e f) (Z.land (Z.lxor e 4294967295) g) in
      let t1 := mask32 (h + s1 + ch + fst kw + snd kw) in
      let s0 := Z.lxor (Z.lxor (rotr 2 a) (rotr 13 a)) (rotr 22 a) in
      let maj := Z.lxor (Z.lxor (Z.land a b) (Z.land a c)) (Z.land b c) in
      [add32 t1 (add32 s0 maj); a; b; c; add32 d t1; e; f; g]
  | _ => st
  end.

Definition sha_block (st : list Z) (block : list Z) : list Z :=
  let w0 := map be_word (chunks 4 16 block) in
  let w := rev (sha_schedule 48 (rev w0)) in
  zip_with add32 st (fold_left sha_round (zip sha_k w) st).

Definition sha256_bytes (l : list Z) : list Z :=
  let p := sha_pad l in
  fold_left sha_block (chunks 64 (length p) p) sha_init ≫= be_bytes 4.

Definition sha256 (s : string) : string :=
  of_bytes (map chr (sha256_bytes (map code (bytes s)))).
(** [hex.EncodeToString(sha256.Sum256(...))]. *)
Definition sha256_hex (s : string) : string := hex_EncodeToString (sha256 s).

Definition xor_pad (n : Z) (key : list Z) : list Z :=
  map (Z.lxor n) (key ++ replicate (64 - length key) 0)%list.
Definition hmac_sha256 (key msg : string) : string :=
  let k := map code (bytes key) in
  let k := if (64 <? length k)%nat then sha256_bytes k else k in
  let inner := sha256_bytes (xor_pad 54 k ++ map code (bytes msg))%list in
  of_bytes (map chr (sha256_bytes (xor_pad 92 k ++ inner)%list)).

Example sha256_abc :
  sha256_hex "abc" = "ba7816bf8f01cfea414140de5dae2223b00361a396177a9cb410ff61f20015ad".
Proof. vm_compute. reflexivity. Qed.
Example hmac_jefe :
  hex_EncodeToString (hmac_sha256 "Jefe" "what do ya want for nothing?") =
  "5bdcc146bf60754e6a042426089575c75a003f089d2739839dec58b964ec3843".
Proof. vm_compute. reflexivity. Qed.
