(* ===== verification/Json.v ===== *)
(** * [encoding/json]

    A parser with the acceptance and decoding behaviour of Go's
    [encoding/json]: the grammar of its scanner, its nesting limit of 10,000,
    string unquoting with surrogate pairs and replacement of ill-formed UTF-8,
    and an optional early exit on a repeated object key, which is how
    [streamprotocol.inspectValue] walks a frame. *)

From Stdlib Require Import Ascii String.
From S2P Require Import Prelude GoLib Crypto.

#[warnings="-register-all"]
Inductive json :=
| JNull
| JBool (b : bool)
| JNum (lit : string)
| JStr (s : string)
| JArr (l : list json)
| JObj (l : list (string * json)).

(** [PDup] reports a repeated key, [PErr] a syntax error, [PFuel] that the
    recursion bound was too small (ruled out by [parse_value_fuel]). *)
Inductive presult (A : Type) :=
| POk (a : A) (rest : list ascii)
| PErr
| PDup
| PFuel.
Arguments POk {A} a rest.
Arguments PErr {A}.
Arguments PDup {A}.
Arguments PFuel {A}.

(** ** White space and literals *)

Definition is_space (c : ascii) : bool :=
  (code c =? 32) || (code c =? 9) || (code c =? 10) || (code c =? 13).
Fixpoint skip_space (l : list ascii) : list ascii :=
  match l with
  | c :: l' => if is_space c then skip_space l' else l
  | [] => []
  end.

(** [eat d l]: the rest of [l] when it starts with [d]. *)
Definition eat (d : ascii) (l : list ascii) : option (list ascii) :=
  match l with
  | c :: l' => if decide (c = d) then Some l' else None
  | [] => None
  end.

Definition eat_literal (w : string) (l : list ascii) : option (list ascii) :=
  strip_prefix (bytes w) l.
Arguments eat_literal : simpl never.

(** ** Numbers: an optional minus sign, a zero or digits with a nonzero lead,
    an optional fraction and an optional exponent *)

Fixpoint span_digits (l : list ascii) : list ascii * list ascii :=
  match l with
  | c :: l' => if is_digit c then let '(ds, r) := span_digits l' in (c :: ds, r)
               else ([], l)
  | [] => ([], [])
  end.
Definition digits1 (l : list ascii) : option (list ascii * list ascii) :=
  match span_digits l with
  | ([], _) => None
  | r => Some r
  end.

Definition scan_int (l : list ascii) : option (list ascii * list ascii) :=
  match eat "0" l with
  | Some r => Some (["0"%char], r)
  | None => digits1 l
  end.
Definition scan_frac (l : list ascii) : option (list ascii * list ascii) :=
  match eat "." l with
  | Some l' => '(ds, r) ← digits1 l'; Some ("."%char :: ds, r)
  | None => Some ([], l)
  end.
Definition scan_exp (l : list ascii) : option (list ascii * list ascii) :=
  match l with
  | c :: l' =>
      if bool_decide (c = "e"%char) || bool_decide (c = "E"%char) then
        match eat "+" l', eat "-" l' with
        | Some l2, _ => '(ds, r) ← digits1 l2; Some (c :: "+"%char :: ds, r)
        | _, Some l2 => '(ds, r) ← digits1 l2; Some (c :: "-"%char :: ds, r)
        | None, None => '(ds, r) ← digits1 l'; Some (c :: ds, r)
        end
      else Some ([], l)
  | [] => Some ([], l)
  end.
Definition scan_number (l : list ascii) : option (list ascii * list ascii) :=
  let '(sign, l1) := match eat "-" l with Some l' => (["-"%char], l') | None => ([], l) end in
  '(ds, l2) ← scan_int l1;
  '(fs, l3) ← scan_frac l2;
  '(es, l4) ← scan_exp l3;
  Some (sign ++ ds ++ fs ++ es, l4)%list.

(** ** Strings *)

(** [utf8.EncodeRune] and the UTF-8 replacement character. *)
Definition encode_rune (r : Z) : list ascii :=
  map chr
   (if r <? 128 then [r]
    else if r <? 2048 then [192 + r `div` 64; 128 + r `mod` 64]
    else if r <? 65536 then
      [224 + r `div` 4096; 128 + (r `div` 64) `mod` 64; 128 + r `mod` 64]
    else [240 + r `div` 262144; 128 + (r `div` 4096) `mod` 64;
          128 + (r `div` 64) `mod` 64; 128 + r `mod` 64]).
Definition replacement : list ascii := encode_rune 65533.

Definition hex4 (a b c d : ascii) : option Z :=
  match hex_value a, hex_value b, hex_value c, hex_value d with
  | Some w, Some x, Some y, Some z => Some (((w * 16 + x) * 16 + y) * 16 + z)
  | _, _, _, _ => None
  end.
Definition is_surrogate (r : Z) : bool := (55296 <=? r) && (r <? 57344).
(** [utf16.DecodeRune]. *)
Definition surrogate_pair (hi lo : Z) : option Z :=
  if (55296 <=? hi) && (hi <? 56320) && (56320 <=? lo) && (lo <? 57344)
  then Some ((hi - 55296) * 1024 + (lo - 56320) + 65536) else None.

Definition simple_escape (c : ascii) : option ascii :=
  if bool_decide (c = chr 34) || bool_decide (c = chr 92) || bool_decide (c = "/"%char)
  then Some c
  else if bool_decide (c = "b"%char) then Some (chr 8)
  else if bool_decide (c = "f"%char) then Some (chr 12)
  else if bool_decide (c = "n"%char) then Some (chr 10)
  else if bool_decide (c = "r"%char) then Some (chr 13)
  else if bool_decide (c = "t"%char) then Some (chr 9)
  else None.

(** The content of a string literal after its opening quote, unquoted. *)
Fixpoint scan_string (l : list ascii) : option (list ascii * list ascii) :=
  match l with
  | [] => None
  | c :: l1 =>
      if decide (c = chr 34) then Some ([], l1)
      else if code c <? 32 then None
      else if decide (c = chr 92) then
        match l1 with
        | [] => None
        | e :: l2 =>
            if decide (e = "u"%char) then
              match l2 with
              | h1 :: h2 :: h3 :: h4 :: l3 =>
                  match hex4 h1 h2 h3 h4 with
                  | None => None
                  | Some r =>
                      let alone := match scan_string l3 with
                                   | Some (s, rest) =>
                                       Some ((if is_surrogate r then replacement
                                              else encode_rune r) ++ s, rest)%list
                                   | None => None
                                   end in
                      match l3 with
                      | b :: u :: k1 :: k2 :: k3 :: k4 :: l4 =>
                          if decide (b = chr 92) then
                            if decide (u = "u"%char) then
                              match hex4 k1 k2 k3 k4 with
                              | Some r2 =>
                                  match surrogate_pair r r2 with
                                  | Some x =>
                                      match scan_string l4 with
                                      | Some (s, rest) => Some (encode_rune x ++ s, rest)%list
                                      | None => None
                                      end
                                  | None => alone
                                  end
                              | None => alone
                              end
                            else alone
                          else alone
                      | _ => alone
                      end
                  end
              | _ => None
              end
            else match simple_escape e, scan_string l2 with
                 | Some x, Some (s, rest) => Some (x :: s, rest)
                 | _, _ => None
                 end
        end
      else match scan_string l1 with
           | Some (s, rest) => Some (c :: s, rest)
           | None => None
           end
  end.

(** Ill-formed bytes of a decoded string become U+FFFD, one per byte. *)
Fixpoint coerce_utf8 (l : list ascii) : list ascii :=
  match l with
  | [] => []
  | a :: l1 =>
      if utf8_valid [a] then a :: coerce_utf8 l1
      else match l1 with
      | [] => replacement
      | b :: l2 =>
          if utf8_valid [a; b] && negb (utf8_valid [b]) then a :: b :: coerce_utf8 l2
          else match l2 with
          | c :: l3 =>
              if byte_in 224 239 a && utf8_valid [a; b; c] then a :: b :: c :: coerce_utf8 l3
              else match l3 with
              | d :: l4 =>
                  if byte_in 240 244 a && utf8_valid [a; b; c; d]
                  then a :: b :: c :: d :: coerce_utf8 l4
                  else (replacement ++ coerce_utf8 l1)%list
              | [] => (replacement ++ coerce_utf8 l1)%list
              end
          | [] => (replacement ++ coerce_utf8 l1)%list
          end
      end
  end.

(** ** Values *)

Section parse.
(** [strict] stops at a repeated key; [limit] bounds the nesting. *)
Context (strict : bool) (limit : Z).

Fixpoint parse_value (fuel : nat) (depth : Z) (l : list ascii) : presult json :=
  match fuel with
  | O => PFuel
  | S f =>
      let l := skip_space l in
      match l with
      | [] => PErr
      | c :: l' =>
          if decide (c = "{"%char) then
            if depth <? limit then
              match parse_members f (depth + 1) true [] l' with
              | POk ms r => POk (JObj ms) r
              | PErr => PErr | PDup => PDup | PFuel => PFuel
              end
            else PErr
          else if decide (c = "["%char) then
            if depth <? limit then
              match parse_elems f (depth + 1) true l' with
              | POk es r => POk (JArr es) r
              | PErr => PErr | PDup => PDup | PFuel => PFuel
              end
            else PErr
          else if decide (c = chr 34) then
            match scan_string l' with
            | Some (s, r) => POk (JStr (of_bytes (coerce_utf8 s))) r
            | None => PErr
            end
          else match eat_literal "null" l with Some r => POk JNull r | None =>
               match eat_literal "true" l with Some r => POk (JBool true) r | None =>
               match eat_literal "false" l with Some r => POk (JBool false) r | None =>
               match scan_number l with
               | Some (n, r) => POk (JNum (of_bytes n)) r
               | None => PErr
               end end end end
      end
  end
(** The elements of an array up to and including its closing bracket;
    [first] says that no element has been read yet. *)
with parse_elems (fuel : nat) (depth : Z) (first : bool) (l : list ascii)
    : presult (list json) :=
  match fuel with
  | O => PFuel
  | S f =>
      let l := skip_space l in
      match eat "]" l with
      | Some r => POk [] r
      | None =>
          match (if first then Some l else eat "," l) with
          | None => PErr
          | Some l1 =>
              match parse_value f depth l1 with
              | POk v l2 =>
                  match parse_elems f depth false l2 with
                  | POk vs r => POk (v :: vs) r
                  | PErr => PErr | PDup => PDup | PFuel => PFuel
                  end
              | PErr => PErr | PDup => PDup | PFuel => PFuel
              end
          end
      end
  end
(** The members of an object up to and including its closing brace. *)
with parse_members (fuel : nat) (depth : Z) (first : bool) (seen : list string)
    (l : list ascii) : presult (list (string * json)) :=
  match fuel with
  | O => PFuel
  | S f =>
      let l := skip_space l in
      match eat "}" l with
      | Some r => POk [] r
      | None =>
          match (if first then Some l else eat "," l) with
          | None => PErr
          | Some l1 =>
              match eat (chr 34) (skip_space l1) with
              | None => PErr
              | Some l2 =>
                  match scan_string l2 with
                  | None => PErr
                  | Some (k, l3) =>
                      let key := of_bytes (coerce_utf8 k) in
                      if strict && bool_decide (key ∈ seen) then PDup
                      else match eat ":" (skip_space l3) with
                      | None => PErr
                      | Some l4 =>
                          match parse_value f depth l4 with
                          | POk v l5 =>
                              match parse_members f depth false (key :: seen) l5 with
                              | POk ms r => POk ((key, v) :: ms) r
                              | PErr => PErr | PDup => PDup | PFuel => PFuel
                              end
                          | PErr => PErr | PDup => PDup | PFuel => PFuel
                          end
                      end
                  end
              end
          end
      end
  end.
End parse.

Definition maxNestingDepth : Z := 10000.
Definition parse_fuel (l : list ascii) : nat := (2 * length l + 1)%nat.

(** One value and nothing but white space after it: [json.Unmarshal] into
    [any], and the test [json.Valid]. *)
Definition json_parse (s : string) : option json :=
  let l := bytes s in
  match parse_value false maxNestingDepth (parse_fuel l) 0 l with
  | POk v r => match skip_space r with [] => Some v | _ => None end
  | _ => None
  end.
Definition json_Valid (s : string) : bool := bool_decide (is_Some (json_parse s)).

(** [map[string]T] keeps the last value of a repeated key. *)
Fixpoint obj_lookup (k : string) (ms : list (string * json)) : option json :=
  match ms with
  | [] => None
  | (k', v) :: ms' =>
      match obj_lookup k ms' with
      | Some x => Some x
      | None => if decide (k = k') then Some v else None
      end
  end.

Example json_ex1 :
  json_parse (of_bytes (map chr [123;34;97;34;58;91;49;44;45;48;46;53;101;51;93;125]))
  = Some (JObj [("a", JArr [JNum "1"; JNum "-0.5e3"])]).
Proof. vm_compute. reflexivity. Qed.

(** ** The recursion bound is large enough *)

Lemma skip_space_length l : (length (skip_space l) <= length l)%nat.
Proof. induction l; simpl; [lia|]. case_match; simpl; lia. Qed.
Lemma eat_length d l r : eat d l = Some r -> (length r < length l)%nat.
Proof. destruct l; simpl; [done|]. case_decide; intros; simplify_eq; lia. Qed.
Lemma strip_prefix_length p l r :
  strip_prefix p l = Some r -> (length r + length p = length l)%nat.
Proof. intros ->%strip_prefix_Some. rewrite length_app. lia. Qed.

Lemma span_digits_length l ds r :
  span_digits l = (ds, r) -> (length ds + length r = length l)%nat.
Proof.
  revert ds r. induction l as [|c l IH]; simpl; intros ds r H; simplify_eq; [done|].
  destruct (is_digit c); [|by simplify_eq].
  destruct (span_digits l) as [ds' r'] eqn:E. simplify_eq.
  specialize (IH _ _ eq_refl). simpl. lia.
Qed.
Lemma digits1_length l ds r : digits1 l = Some (ds, r) -> (length r < length l)%nat.
Proof.
  unfold digits1. destruct (span_digits l) as [[|d ds'] r'] eqn:E; intros; simplify_eq.
  apply span_digits_length in E. simpl in *. lia.
Qed.
Lemma scan_int_length l ds r : scan_int l = Some (ds, r) -> (length r < length l)%nat.
Proof.
  unfold scan_int. case_match eqn:E; intros; simplify_eq;
    eauto using eat_length, digits1_length.
Qed.
Lemma scan_frac_length l ds r : scan_frac l = Some (ds, r) -> (length r <= length l)%nat.
Proof.
  unfold scan_frac. case_match eqn:E; intros H; [|by simplify_eq].
  apply bind_Some in H as ([ds' r'] & H & ?). simplify_eq.
  apply eat_length in E. apply digits1_length in H. lia.
Qed.
Lemma scan_exp_length l ds r : scan_exp l = Some (ds, r) -> (length r <= length l)%nat.
Proof.
  unfold scan_exp. destruct l as [|c l]; [intros; by simplify_eq|].
  case_match; [|intros; by simplify_eq].
  repeat case_match; intros ([ds' r'] & Hd%digits1_length & ?)%bind_Some;
    simplify_eq; repeat match goal with
    | H : eat _ _ = Some _ |- _ => apply eat_length in H end; simpl; lia.
Qed.
Lemma scan_number_length l ds r : scan_number l = Some (ds, r) -> (length r < length l)%nat.
Proof.
  unfold scan_number. destruct (eat "-" l) as [l'|] eqn:E; [apply eat_length in E|];
    intros ([i l2] & Hi%scan_int_length & ([f l3] & Hf%scan_frac_length &
      ([e l4] & He%scan_exp_length & ?)%bind_Some)%bind_Some)%bind_Some;
    simplify_eq; lia.
Qed.

Lemma scan_string_length l s r : scan_string l = Some (s, r) -> (length r < length l)%nat.
Proof.
  remember (length l) as n eqn:Hn. revert l s r Hn.
  induction (lt_wf n) as [n _ IH]. intros l s r -> H.
  destruct l as [|c l1]; [done|]. cbn [scan_string] in H.
  assert (forall l' s' r', (length l' < length (c :: l1))%nat ->
    scan_string l' = Some (s', r') -> (length r' < length l')%nat) as Hrec
    by (intros; eapply IH; eauto).
  clear IH. cbn [length] in *.
  case_decide; [simplify_eq; lia|]. destruct (code c <? 32); [done|].
  case_decide; [|destruct (scan_string l1) as [[s1 r1]|] eqn:E1; simplify_eq;
                 apply Hrec in E1; lia].
  destruct l1 as [|e l2]; [done|]. cbn [length] in *.
  case_decide; [|destruct (simple_escape e), (scan_string l2) as [[s2 r2]|] eqn:E2;
                 simplify_eq; apply Hrec in E2; lia].
  destruct l2 as [|h1 [|h2 [|h3 [|h4 l3]]]]; try done. cbn [length] in *.
  destruct (hex4 h1 h2 h3 h4) as [x|]; [|done].
  assert (forall s' r', scan_string l3 = Some (s', r') -> (length r' < length l3)%nat) as H3
    by (intros; eapply Hrec; eauto; lia).
  destruct (scan_string l3) as [[s3 r3]|]; [specialize (H3 _ _ eq_refl)|];
  (destruct l3 as [|b [|u [|k1 [|k2 [|k3 [|k4 l4]]]]]]; cbn [length] in *;
    [simplify_eq; try lia..|]);
  (destruct (decide (b = chr 92)); [|simplify_eq; lia]);
  (destruct (decide (u = "u"%char)); [|simplify_eq; lia]);
  (destruct (hex4 k1 k2 k3 k4) as [y|]; [|simplify_eq; lia]);
  (destruct (surrogate_pair x y) as [z|]; [|simplify_eq; lia]);
  (destruct (scan_string l4) as [[s4 r4]|] eqn:E4; simplify_eq; apply Hrec in E4; lia).
Qed.

Section fuel.
Context (strict : bool) (limit : Z).

Definition fueled {A} (n : nat) (l : list ascii) (p : presult A) : Prop :=
  p <> PFuel /\ forall a r, p = POk a r -> (length r < length l)%nat.

Ltac lengths :=
  repeat match goal with
  | H : eat _ _ = Some _ |- _ => apply eat_length in H
  | H : scan_string _ = Some _ |- _ => apply scan_string_length in H
  | H : scan_number _ = Some _ |- _ => apply scan_number_length in H
  | H : strip_prefix _ _ = Some _ |- _ => apply strip_prefix_length in H
  end;
  repeat match goal with
  | H : context [length (skip_space ?l)] |- _ =>
      lazymatch goal with
      | _ : (length (skip_space l) <= length l)%nat |- _ => fail
      | _ => pose proof (skip_space_length l)
      end
  end; simpl in *; try lia.

Lemma parse_fueled fuel :
  (forall depth l, (2 * length l + 1 <= fuel)%nat ->
     fueled fuel l (parse_value strict limit fuel depth l)) /\
  (forall depth first l, (2 * length l + 2 <= fuel)%nat ->
     fueled fuel l (parse_elems strict limit fuel depth first l)) /\
  (forall depth first seen l, (2 * length l + 2 <= fuel)%nat ->
     fueled fuel l (parse_members strict limit fuel depth first seen l)).
Proof.
  induction fuel as [|f (IHv & IHe & IHm)]; [split_and!; intros; lia|].
  split_and!.
  - intros depth l Hl. simpl. pose proof (skip_space_length l).
    destruct (skip_space l) as [|c l'] eqn:E; [done|]. cbn [length] in *.
    destruct (IHe (depth + 1) true l') as [He1 He2]; [lia|].
    destruct (IHm (depth + 1) true [] l') as [Hm1 Hm2]; [lia|].
    case_decide.
    { destruct (depth <? limit); [|done].
      destruct (parse_members _ _ _ _ _ _ _) as [ms r| | |]; try done.
      specialize (Hm2 _ _ eq_refl). split; [done|intros; simplify_eq; lia]. }
    case_decide.
    { destruct (depth <? limit); [|done].
      destruct (parse_elems _ _ _ _ _ _) as [es r| | |]; try done.
      specialize (He2 _ _ eq_refl). split; [done|intros; simplify_eq; lia]. }
    clear He1 He2 Hm1 Hm2 IHv IHe IHm.
    case_decide.
    { destruct (scan_string l') as [[s r]|] eqn:Es; [|done].
      apply scan_string_length in Es. split; [done|intros; simplify_eq; lia]. }
    destruct (eat_literal "null" (c :: l')) as [r|] eqn:E1;
      [|destruct (eat_literal "true" (c :: l')) as [r|] eqn:E2;
        [|destruct (eat_literal "false" (c :: l')) as [r|] eqn:E3;
          [|destruct (scan_number (c :: l')) as [[n r]|] eqn:E4; [|done]]]];
      (split; [done|intros; simplify_eq]);
      [apply strip_prefix_length in E1 | apply strip_prefix_length in E2
      |apply strip_prefix_length in E3 | apply scan_number_length in E4];
      simpl in *; lia.
  - intros depth first l Hl. simpl.
    destruct (eat "]" (skip_space l)) eqn:E0; [(split; [done|intros; simplify_eq; lengths])|].
    destruct (if first then _ else _) as [l1|] eqn:E1; [|done].
    assert (length l1 <= length l)%nat.
    { destruct first; simplify_eq; lengths. apply skip_space_length. }
    destruct (IHv depth l1) as [Hv1 Hv2]; [lia|].
    destruct (parse_value strict limit f depth l1) as [v l2| | |]; try done.
    specialize (Hv2 _ _ eq_refl).
    destruct (IHe depth false l2) as [He1 He2]; [lia|].
    destruct (parse_elems strict limit f depth false l2) as [vs r| | |]; try done.
    specialize (He2 _ _ eq_refl). split; [done|intros; simplify_eq; lia].
  - intros depth first seen l Hl. simpl.
    destruct (eat "}" (skip_space l)) eqn:E0; [(split; [done|intros; simplify_eq; lengths])|].
    destruct (if first then _ else _) as [l1|] eqn:E1; [|done].
    assert (length l1 <= length l)%nat.
    { destruct first; simplify_eq; lengths. apply skip_space_length. }
    destruct (eat (chr 34) (skip_space l1)) as [l2|] eqn:E2; [|done].
    destruct (scan_string l2) as [[k l3]|] eqn:E3; [|done].
    destruct (strict && _); [done|].
    destruct (eat ":" (skip_space l3)) as [l4|] eqn:E4; [|done].
    assert (length l4 + 3 <= length l)%nat by lengths.
    destruct (IHv depth l4) as [Hv1 Hv2]; [lia|].
    destruct (parse_value strict limit f depth l4) as [v l5| | |]; try done.
    specialize (Hv2 _ _ eq_refl).
    destruct (IHm depth false (of_bytes (coerce_utf8 k) :: seen) l5) as [Hm1 Hm2]; [lia|].
    destruct (parse_members strict limit f depth false _ l5) as [ms r| | |]; try done.
    specialize (Hm2 _ _ eq_refl). split; [done|intros; simplify_eq; lia].
Qed.
End fuel.

(** Parsing with [parse_fuel] never runs out of fuel. *)
Lemma parse_value_fuel strict limit depth l :
  parse_value strict limit (parse_fuel l) depth l <> PFuel.
Proof. apply (parse_fueled strict limit (parse_fuel l)). unfold parse_fuel. lia. Qed.
