(* ===== verification/JsonEncode.v ===== *)
(** * [encoding/json]: writing strings and numbers

    The text [json.Marshal] writes for strings and integers, and that the parser
    reads back what was written. *)

From Stdlib Require Import Ascii String ZifyBool.
From stdpp Require Import pretty.
From Stdlib Require Import Ascii String.
From S2P Require Import Prelude GoLib Crypto Json.

(** ** The leading rune *)

(** The number of bytes of the well-formed rune that [l] starts with, 0 when its
    first byte starts none. *)
Definition lead (l : list ascii) : nat :=
  match l with
  | [] => 0
  | a :: l1 =>
      if code a <? 128 then 1
      else match l1 with
      | [] => 0
      | b :: l2 =>
          if byte_in 194 223 a && byte_in 128 191 b then 2
          else match l2 with
          | [] => 0
          | c :: l3 =>
              if byte_in 224 239 a
                 && byte_in (if code a =? 224 then 160 else 128)
                            (if code a =? 237 then 159 else 191) b
                 && byte_in 128 191 c then 3
              else match l3 with
              | [] => 0
              | d :: _ =>
                  if byte_in 240 244 a
                     && byte_in (if code a =? 240 then 144 else 128)
                                (if code a =? 244 then 143 else 191) b
                     && byte_in 128 191 c && byte_in 128 191 d then 4 else 0
              end
          end
      end
  end.

(** What a rune, and an ill-formed byte, contribute to a translation of text that
    works rune by rune. *)
Definition by_rune (rune : list ascii -> list ascii) (ill : list ascii)
    (self : list ascii -> list ascii) (l : list ascii) : list ascii :=
  match l with
  | [] => []
  | _ :: l1 =>
      match lead l with
      | O => ill ++ self l1
      | n => rune (take n l) ++ self (drop n l)
      end
  end%list.

Lemma coerce_by_rune l : coerce_utf8 l = by_rune id replacement coerce_utf8 l.
Proof.
  destruct l as [|a l1]; [done|]. unfold by_rune, lead. cbn [coerce_utf8 utf8_valid].
  destruct (code a <? 128) eqn:Ha; [done|].
  destruct l1 as [|b l2]; [by rewrite app_nil_r|].
  assert (((if byte_in 194 223 a then byte_in 128 191 b && true else false)
    && negb (if code b <? 128 then true else false)) = (byte_in 194 223 a && byte_in 128 191 b)) as ->.
  { unfold byte_in. destruct (code b <? 128) eqn:?; repeat case_match; lia. }
  destruct (byte_in 194 223 a && byte_in 128 191 b) eqn:H2; [done|].
  destruct l2 as [|c l3]; [done|].
  destruct (byte_in 224 239 a) eqn:H3.
  - assert (byte_in 194 223 a = false) as -> by (unfold byte_in in *; lia).
    cbn [andb]. rewrite andb_true_r.
    assert (byte_in 240 244 a = false) as -> by (unfold byte_in in *; lia).
    cbn [andb]. repeat case_match; done.
  - cbn [andb]. destruct l3 as [|d l4]; [done|].
    destruct (byte_in 240 244 a) eqn:H4; cbn [andb]; [|by repeat case_match].
    assert (byte_in 194 223 a = false) as -> by (unfold byte_in in *; lia).
    rewrite andb_true_r. repeat case_match; done.
Qed.

(** A property of texts follows from its preservation by runes and ill-formed
    bytes. *)
Lemma rune_ind (P : list ascii -> Prop) :
  P [] -> (forall a l, lead (a :: l) = O -> P l -> P (a :: l)) ->
  (forall l, lead l <> O -> P (drop (lead l) l) -> P l) -> forall l, P l.
Proof.
  intros Hnil Hill Hrune l. induction (Nat.lt_wf_0_projected (@length ascii) l) as [l _ IH].
  destruct l as [|a l]; [done|]. destruct (decide (lead (a :: l) = O)) as [H|H].
  - apply Hill; [done|]. apply IH. simpl. lia.
  - apply Hrune; [done|]. apply IH. rewrite length_drop. cbn [length]. lia.
Qed.

Lemma by_rune_ill rune ill self a l :
  lead (a :: l) = O -> by_rune rune ill self (a :: l) = (ill ++ self l)%list.
Proof. intros H. unfold by_rune. by rewrite H. Qed.
Lemma by_rune_rune rune ill self l :
  lead l <> O -> by_rune rune ill self l = (rune (take (lead l) l) ++ self (drop (lead l) l))%list.
Proof. intros H. unfold by_rune. destruct l; [done|]. by destruct (lead _). Qed.

(** ** Writing *)

Definition hex_escape (c : ascii) : list ascii :=
  (bytes "\u00" ++ [hex_digit (code c / 16); hex_digit (code c mod 16)])%list.

(** [appendString] with HTML escaping: a byte below 128. *)
Definition quote_byte (c : ascii) : list ascii :=
  if bool_decide (c = chr 34) || bool_decide (c = chr 92) then [chr 92; c]
  else if code c =? 8 then bytes "\b"
  else if code c =? 12 then bytes "\f"
  else if code c =? 10 then bytes "\n"
  else if code c =? 13 then bytes "\r"
  else if code c =? 9 then bytes "\t"
  else if (code c <? 32) || is_one_of "<>&" c then hex_escape c
  else [c].
(** A rune of one or more bytes; U+2028 and U+2029 are escaped. *)
Definition quote_rune (r : list ascii) : list ascii :=
  match r with
  | [c] => quote_byte c
  | [a; b; c] =>
      if (code a =? 226) && (code b =? 128) && ((code c =? 168) || (code c =? 169))
      then (bytes "\u202" ++ [hex_digit (code c mod 16)])%list else r
  | _ => r
  end.
Definition quote_ill : list ascii := bytes "\ufffd".

Fixpoint quote_bytes (l : list ascii) : list ascii :=
  match l with
  | [] => []
  | a :: l1 =>
      match lead l, l1 with
      | 1%nat, _ => quote_rune [a] ++ quote_bytes l1
      | 2%nat, b :: l2 => quote_rune [a; b] ++ quote_bytes l2
      | 3%nat, b :: c :: l3 => quote_rune [a; b; c] ++ quote_bytes l3
      | 4%nat, b :: c :: d :: l4 => quote_rune [a; b; c; d] ++ quote_bytes l4
      | _, _ => quote_ill ++ quote_bytes l1
      end
  end%list.

(** [json.Marshal] of a string. *)
Definition json_quote (s : string) : string :=
  of_bytes (chr 34 :: quote_bytes (bytes s) ++ [chr 34])%list.

Lemma quote_by_rune l : quote_bytes l = by_rune quote_rune quote_ill quote_bytes l.
Proof.
  destruct l as [|a l1]; [done|]. unfold by_rune. cbn [quote_bytes].
  unfold lead. repeat case_match; try done; simplify_eq.
Qed.

Example json_quote_ex :
  json_quote (of_bytes (map chr [97; 34; 60; 10; 226; 128; 168; 195; 169; 255]))
  = of_bytes (map chr ([34; 97; 92; 34] ++ [92; 117; 48; 48; 51; 99] ++ [92; 110]
      ++ [92; 117; 50; 48; 50; 56] ++ [195; 169] ++ [92; 117; 102; 102; 102; 100; 34]))%list.
Proof. vm_compute. reflexivity. Qed.

(** ** Reading back what was written *)

Definition prepend (x : list ascii) (o : option (list ascii * list ascii))
    : option (list ascii * list ascii) :=
  match o with Some (s, r) => Some (x ++ s, r)%list | None => None end.

Lemma scan_unicode h1 h2 h3 h4 r rest :
  hex4 h1 h2 h3 h4 = Some r -> is_surrogate r = false ->
  scan_string (chr 92 :: "u"%char :: h1 :: h2 :: h3 :: h4 :: rest)
  = prepend (encode_rune r) (scan_string rest).
Proof.
  intros Hr Hs. cbn [scan_string]. rewrite Hr.
  assert (forall lo, surrogate_pair r lo = None) as Hno.
  { intros lo. unfold surrogate_pair, is_surrogate in *. case_match; [lia|done]. }
  rewrite Hs. simpl.
  repeat case_match; simplify_eq; try rewrite Hno in *; try done.
Qed.

Lemma scan_plain c rest :
  c <> chr 34 -> c <> chr 92 -> 32 <= code c ->
  scan_string (c :: rest) = prepend [c] (scan_string rest).
Proof.
  intros H1 H2 H3. cbn [scan_string]. rewrite (decide_False _ _ H1), (decide_False _ _ H2).
  assert ((code c <? 32) = false) as -> by lia. done.
Qed.
Lemma scan_simple e x rest :
  e <> "u"%char -> simple_escape e = Some x ->
  scan_string (chr 92 :: e :: rest) = prepend [x] (scan_string rest).
Proof. intros He Hx. cbn [scan_string]. simpl. rewrite (decide_False _ _ He), Hx. done. Qed.

(** How a byte is written: as it is, with a short escape or with a long one. *)
Definition byte_written (c : ascii) : Prop :=
  (quote_byte c = [c] /\ c <> chr 34 /\ c <> chr 92 /\ 32 <= code c)
  \/ Exists (fun e => quote_byte c = [chr 92; e] /\ e <> "u"%char /\ simple_escape e = Some c)
      (chr 34 :: chr 92 :: bytes "bfnrt")
  \/ (quote_byte c = hex_escape c
      /\ hex4 "0" "0" (hex_digit (code c / 16)) (hex_digit (code c mod 16)) = Some (code c)
      /\ encode_rune (code c) = [c]).
#[local] Instance byte_written_dec c : Decision (byte_written c).
Proof. unfold byte_written. apply _. Defined.

Lemma quote_byte_cases c : code c < 128 -> byte_written c.
Proof. apply (byte_cases (fun c => code c < 128 -> byte_written c)). vm_compute. reflexivity. Qed.

Lemma scan_quote_byte c rest :
  code c < 128 -> scan_string (quote_byte c ++ rest)%list = prepend [c] (scan_string rest).
Proof.
  intros Hc. destruct (quote_byte_cases c Hc)
    as [(-> & H1 & H2 & H3)|[(e & _ & -> & He & Hx)%Exists_exists|(-> & Hx & He)]].
  - by apply scan_plain.
  - by apply scan_simple.
  - unfold hex_escape. rewrite <- He. apply scan_unicode; [exact Hx|].
    unfold is_surrogate. lia.
Qed.

Lemma prepend_prepend x y o : prepend x (prepend y o) = prepend (x ++ y)%list o.
Proof. destruct o as [[s r]|]; simpl; [|done]. by rewrite app_assoc. Qed.
Lemma scan_high l rest :
  Forall (fun c => 128 <= code c) l -> scan_string (l ++ rest)%list = prepend l (scan_string rest).
Proof.
  induction 1 as [|c l Hc _ IH]; simpl app; [by destruct (scan_string rest) as [[]|]|].
  rewrite scan_plain, IH, prepend_prepend; [done| | |lia]; intros ->; by destruct Hc.
Qed.

(** The shape of the leading rune. *)
Lemma lead_take l :
  lead l <> O ->
  (exists c, take (lead l) l = [c] /\ code c < 128)
  \/ Forall (fun c => 128 <= code c) (take (lead l) l) /\ length (take (lead l) l) <> 1%nat.
Proof.
  unfold lead. destruct l as [|a l1]; [done|]. destruct (code a <? 128) eqn:Ha.
  { intros _. left. exists a. split; [done|lia]. }
  intros Hl. right. repeat case_match; simplify_eq; cbn [take]; unfold byte_in in *;
    (split; [repeat constructor; lia|done]).
Qed.
Lemma lead_prefix l x : lead l <> O -> lead (take (lead l) l ++ x)%list = lead l.
Proof.
  destruct l as [|a l1]; [done|]. remember (lead (a :: l1)) as n eqn:Hn. unfold lead in Hn.
  destruct (code a <? 128) eqn:Ha; [subst n; intros _; simpl; by rewrite Ha|].
  destruct l1 as [|b l2]; [by subst|].
  destruct (byte_in 194 223 a && byte_in 128 191 b) eqn:Hb.
  { subst n. intros _. cbn [take app]. unfold lead. by rewrite Ha, Hb. }
  destruct l2 as [|c l3]; [by subst|]. destruct (byte_in 224 239 a && _ && _) eqn:Hc.
  { subst n. intros _. cbn [take app]. unfold lead. by rewrite Ha, Hb, Hc. }
  destruct l3 as [|d l4]; [by subst|].
  destruct (byte_in 240 244 a && _ && _ && _) eqn:Hd; [|by subst].
  subst n. intros _. cbn [take app]. unfold lead. by rewrite Ha, Hb, Hc, Hd.
Qed.

Lemma lead_length l : lead l <> O -> lead l = length (take (lead l) l).
Proof. intros _. rewrite length_take. unfold lead. repeat case_match; clear; cbn [length]; lia. Qed.
Lemma coerce_app r x :
  lead r <> O -> lead r = length r -> coerce_utf8 (r ++ x)%list = (r ++ coerce_utf8 x)%list.
Proof.
  intros Hr Hlen. pose proof (lead_prefix r x Hr) as Hl.
  rewrite firstn_all2 in Hl by lia.
  rewrite coerce_by_rune, by_rune_rune, Hl, Hlen by (by rewrite Hl).
  by rewrite take_app_length, drop_app_length.
Qed.

(** A coerced text stays as it is. *)
Lemma coerce_idemp l : coerce_utf8 (coerce_utf8 l) = coerce_utf8 l.
Proof.
  induction l as [|a l Hl IH|l Hl IH] using rune_ind; [done| |].
  - rewrite (coerce_by_rune (a :: l)), by_rune_ill by done. by rewrite coerce_app, IH.
  - rewrite (coerce_by_rune l), by_rune_rune by done. unfold id.
    pose proof (lead_prefix l [] Hl) as Hp. rewrite app_nil_r in Hp.
    rewrite coerce_app, IH; [done|by rewrite Hp|]. rewrite Hp. by apply lead_length.
Qed.

Lemma quote_rune_high l rest :
  lead l <> O -> scan_string (quote_rune (take (lead l) l) ++ rest)%list
                 = prepend (take (lead l) l) (scan_string rest).
Proof.
  intros Hl. destruct (lead_take l Hl) as [(c & -> & Hc)|[Hh Hn]]; [by apply scan_quote_byte|].
  unfold quote_rune. destruct (take (lead l) l) as [|a [|b [|c [|d t]]]] eqn:Ht;
    [by apply scan_high|by destruct Hn|by apply scan_high| |by apply scan_high].
  destruct (_ && _ && _) eqn:E; [|by apply scan_high].
  assert (a = chr 226 /\ b = chr 128 /\ (c = chr 168 \/ c = chr 169)) as (-> & -> & Hc).
  { rewrite <- (chr_code a), <- (chr_code b), <- (chr_code c).
    assert (code a = 226 /\ code b = 128) as [-> ->] by lia.
    split_and!; [done..|]. assert (code c = 168 \/ code c = 169) as [->| ->] by lia; auto. }
  destruct Hc as [-> | ->]; [by apply (scan_unicode "2" "0" "2" "8" 8232)|].
  by apply (scan_unicode "2" "0" "2" "9" 8233).
Qed.

(** What was written is read back, ill-formed bytes replaced. *)
Lemma scan_quote l rest :
  scan_string (quote_bytes l ++ chr 34 :: rest)%list = Some (coerce_utf8 l, rest).
Proof.
  induction l as [|a l Hl IH|l Hl IH] using rune_ind; [done| |].
  - rewrite quote_by_rune, coerce_by_rune, !by_rune_ill by done. rewrite <- app_assoc.
    transitivity (prepend replacement (scan_string (quote_bytes l ++ chr 34 :: rest)%list));
      [by apply scan_unicode|]. by rewrite IH.
  - rewrite quote_by_rune, coerce_by_rune, !by_rune_rune by done. rewrite <- app_assoc.
    rewrite quote_rune_high by done. by rewrite IH.
Qed.

Lemma coerce_valid l : utf8_valid l = true -> coerce_utf8 l = l.
Proof.
  induction l as [|a l Hl IH|l Hl IH] using rune_ind; [done| |].
  - intros Hv. exfalso. unfold lead in Hl. cbn [utf8_valid] in Hv.
    repeat case_match; try done; simplify_eq; unfold byte_in in *; lia.
  - intros Hv. rewrite coerce_by_rune, by_rune_rune by done. unfold id. rewrite IH; [apply take_drop|].
    revert Hv. clear. unfold lead. destruct l as [|a l1]; [done|]. cbn [utf8_valid].
    repeat case_match; simplify_eq; cbn [drop]; intros Hv;
      first [done|by apply andb_true_iff in Hv as [_ Hv]|unfold byte_in in *; lia].
Qed.

(** ** Numbers *)

(** The value of a string of digits. *)
Definition digits_value (acc : Z) (l : list ascii) : Z :=
  fold_left (fun n c => 10 * n + (code c - 48)) l acc.

Lemma pretty_char_digit n :
  (n < 10)%N -> is_digit (pretty_N_char n) = true /\ code (pretty_N_char n) - 48 = Z.of_N n
                /\ (n <> 0%N -> pretty_N_char n <> "0"%char).
Proof.
  intros Hn. rewrite <- (N2Z.id n).
  apply (check_range (fun z => let m := Z.to_N z in is_digit (pretty_N_char m) = true
    /\ code (pretty_N_char m) - 48 = Z.of_N m /\ (m <> 0%N -> pretty_N_char m <> "0"%char)) 0 10);
    [by vm_compute|lia].
Qed.

Lemma pretty_go_digits n s :
  exists ds, bytes (pretty_N_go n s) = (ds ++ bytes s)%list /\ forallb is_digit ds = true
    /\ (forall acc, digits_value acc ds = acc * 10 ^ Z.of_nat (length ds) + Z.of_N n)
    /\ (n <> 0%N -> exists c ds', ds = c :: ds' /\ c <> "0"%char)
    /\ (n = 0%N -> ds = []).
Proof.
  revert s. induction (N.lt_wf_0 n) as [n _ IH]; intros s.
  destruct (decide (n = 0%N)) as [->|Hn].
  { exists []. rewrite pretty_N_go_0. split_and!; [done|done| |done|done].
    intros acc. unfold digits_value. simpl. lia. }
  rewrite pretty_N_go_step by lia.
  destruct (IH (n `div` 10)%N ltac:(apply N.div_lt; lia)
    (String (pretty_N_char (n `mod` 10)) s)) as (ds & Hb & Hd & Hv & Hnz & Hz).
  pose proof (N.mod_lt n 10 ltac:(lia)) as Hlt.
  destruct (pretty_char_digit (n `mod` 10)%N Hlt) as (Hdig & Hval & Hc0).
  exists (ds ++ [pretty_N_char (n `mod` 10)])%list. split_and!.
  - rewrite Hb, <- app_assoc. done.
  - by rewrite forallb_app, Hd; simpl; rewrite Hdig.
  - intros acc. unfold digits_value in *. rewrite fold_left_app. simpl. rewrite Hv, Hval, length_app. simpl.
    rewrite Nat2Z.inj_add, Z.pow_add_r by lia.
    pose proof (N.div_mod n 10 ltac:(lia)). change (10 ^ Z.of_nat 1) with 10. lia.
  - intros _. destruct (decide (n `div` 10 = 0)%N) as [Hq|Hq].
    + rewrite (Hz Hq). simpl. eexists _, _. split; [done|]. apply Hc0.
      pose proof (N.div_mod n 10 ltac:(lia)). lia.
    + destruct (Hnz Hq) as (c & ds' & -> & Hc). by exists c, (ds' ++ [pretty_N_char (n `mod` 10)])%list.
  - done.
Qed.

(** [strconv.ParseInt(lit, 10, 64)] *)
Definition in_int64 (z : Z) : bool := (- 2 ^ 63 <=? z) && (z <? 2 ^ 63).
Definition parse_int64 (lit : string) : option Z :=
  let digits l := match l with
                  | [] => None
                  | _ => if forallb is_digit l then Some (digits_value 0 l) else None
                  end in
  z ← match bytes lit with
      | c :: l => if bool_decide (c = "-"%char) then Z.opp <$> digits l
                  else if bool_decide (c = "+"%char) then digits l else digits (c :: l)
      | [] => None
      end;
  if in_int64 z then Some z else None.

Lemma decimal_digits z :
  0 <= z -> exists c ds, bytes (decimal z) = c :: ds /\ forallb is_digit (c :: ds) = true
    /\ digits_value 0 (c :: ds) = z /\ (c = "0"%char -> ds = []).
Proof.
  intros Hz. unfold decimal, pretty, pretty_Z. destruct z as [|p|p]; [by exists "0"%char, []| |lia].
  change (pretty p) with (pretty_N_go (N.pos p) "").
  destruct (pretty_go_digits (N.pos p) "") as (ds & Hb & Hd & Hv & Hnz & _).
  destruct Hnz as (c & ds' & -> & Hc); [done|]. rewrite app_nil_r in Hb.
  exists c, ds'. split_and!; [done|done| |done]. rewrite Hv. lia.
Qed.

Lemma parse_decimal z : 0 <= z -> in_int64 z = true -> parse_int64 (decimal z) = Some z.
Proof.
  intros Hz Hr. destruct (decimal_digits z Hz) as (c & ds & Hb & Hd & Hv & _).
  unfold parse_int64. rewrite Hb.
  assert (is_digit c = true) as Hc by (by apply andb_true_iff in Hd as [? _]).
  rewrite !bool_decide_eq_false_2 by (by intros ->). rewrite Hd, Hv. cbn. by rewrite Hr.
Qed.

(** Nothing that could continue a number follows. *)
Definition ends_number (rest : list ascii) : bool :=
  match rest with
  | [] => true
  | c :: _ => negb (is_digit c || bool_decide (c = "."%char) || bool_decide (c = "e"%char)
                    || bool_decide (c = "E"%char))
  end.
Lemma span_digits_app ds rest :
  forallb is_digit ds = true -> ends_number rest = true ->
  span_digits (ds ++ rest)%list = (ds, rest).
Proof.
  intros Hd Hr. induction ds as [|c ds IH]; simpl in *.
  - destruct rest as [|c rest]; [done|]. simpl in *. by destruct (is_digit c).
  - apply andb_true_iff in Hd as [-> Hd]. by rewrite IH.
Qed.
Lemma scan_decimal z rest :
  0 <= z -> ends_number rest = true ->
  scan_number (bytes (decimal z) ++ rest)%list = Some (bytes (decimal z), rest).
Proof.
  intros Hz Hr. destruct (decimal_digits z Hz) as (c & ds & -> & Hd & _ & H0).
  assert (is_digit c = true) as Hc by (by apply andb_true_iff in Hd as [? _]).
  assert (scan_frac rest = Some ([], rest) /\ scan_exp rest = Some ([], rest)) as [Hf He].
  { destruct rest as [|x rest]; [done|]. unfold scan_frac, scan_exp, eat, ends_number in *.
    bool_to_prop. destruct_and!. rewrite decide_False by done.
    by rewrite !bool_decide_eq_false_2. }
  unfold scan_number. cbn [app eat]. rewrite decide_False by (by intros ->).
  assert (scan_int (c :: ds ++ rest)%list = Some (c :: ds, rest)) as ->.
  { unfold scan_int. cbn [eat]. case_decide as Heq; [by rewrite Heq, H0|].
    unfold digits1. change (c :: ds ++ rest)%list with ((c :: ds) ++ rest)%list.
    by rewrite span_digits_app. }
  simpl. rewrite Hf. simpl. rewrite He. simpl. by rewrite app_nil_r.
Qed.

(** ** Flat objects *)

(** The values of the fields of the structs that are written. *)
Inductive scalar := SInt (z : Z) | SStr (s : string).
Definition scalar_bytes (v : scalar) : list ascii :=
  match v with SInt z => bytes (decimal z) | SStr s => bytes (json_quote s) end.
Definition member_bytes (m : string * scalar) : list ascii :=
  (bytes (json_quote m.1) ++ ":"%char :: scalar_bytes m.2)%list.
Fixpoint members_bytes (first : bool) (ms : list (string * scalar)) : list ascii :=
  match ms with
  | [] => ["}"%char]
  | m :: ms' => ((if first then [] else [","%char]) ++ member_bytes m ++ members_bytes false ms')%list
  end.
(** [json.Marshal] of a struct. *)
Definition json_object (ms : list (string * scalar)) : string :=
  of_bytes ("{"%char :: members_bytes true ms)%list.

Definition coerce (s : string) : string := of_bytes (coerce_utf8 (bytes s)).
Definition scalar_json (v : scalar) : json :=
  match v with SInt z => JNum (decimal z) | SStr s => JStr (coerce s) end.
Definition scalar_ok (v : scalar) : bool := match v with SInt z => 0 <=? z | SStr _ => true end.

Lemma digit_not_space c : is_digit c = true -> is_space c = false.
Proof. apply (byte_cases (fun c => is_digit c = true -> is_space c = false)). by vm_compute. Qed.

Section parse.
Context (strict : bool) (limit : Z).

Lemma parse_scalar f depth v rest :
  scalar_ok v = true -> ends_number rest = true ->
  parse_value strict limit (S f) depth (scalar_bytes v ++ rest)%list = POk (scalar_json v) rest.
Proof.
  intros Hv Hr. destruct v as [z|s]; simpl in Hv; cbn [scalar_bytes scalar_json].
  - destruct (decimal_digits z ltac:(lia)) as (c & ds & Hb & Hd & _).
    pose proof (scan_decimal z rest ltac:(lia) Hr) as Hscan. rewrite Hb in *.
    assert (is_digit c = true) as Hc by (by apply andb_true_iff in Hd as [? _]). clear Hd.
    cbn [app] in *. cbn [parse_value skip_space].
    rewrite (digit_not_space c Hc).
    rewrite !decide_False by (by intros ->).
    assert (forall w, w ∈ ["null"; "true"; "false"] -> eat_literal w (c :: ds ++ rest)%list = None) as He.
    { intros w Hw. unfold eat_literal. rewrite !elem_of_cons, elem_of_nil in Hw.
      destruct_or!; subst; try done; simpl; case_decide; subst; done. }
    rewrite !He by set_solver. rewrite Hscan. by rewrite <- Hb, of_bytes_bytes.
  - unfold json_quote. rewrite bytes_of_bytes. cbn [app parse_value skip_space].
    change (is_space (chr 34)) with false. cbn iota. rewrite !decide_False by done.
    rewrite decide_True by done. rewrite <- app_assoc. cbn [app]. rewrite scan_quote.
    by rewrite coerce_idemp.
Qed.

Lemma members_ends ms first : ms = [] \/ first = false -> ends_number (members_bytes first ms) = true.
Proof. destruct ms; [done|]. by intros [? | ->]. Qed.

Lemma parse_member f depth first seen l :
  parse_members strict limit (S f) depth first seen
    ((if first then [] else [","%char]) ++ chr 34 :: l)%list
  = match scan_string l with
    | None => PErr
    | Some (k, l3) =>
        if strict && bool_decide (of_bytes (coerce_utf8 k) ∈ seen) then PDup else
        match eat ":" (skip_space l3) with
        | None => PErr
        | Some l4 =>
            match parse_value strict limit f depth l4 with
            | POk v l5 =>
                match parse_members strict limit f depth false (of_bytes (coerce_utf8 k) :: seen) l5 with
                | POk ms r => POk ((of_bytes (coerce_utf8 k), v) :: ms) r
                | PErr => PErr | PDup => PDup | PFuel => PFuel
                end
            | PErr => PErr | PDup => PDup | PFuel => PFuel
            end
        end
    end.
Proof. by destruct first. Qed.

(** No name is repeated, where that matters. *)
Definition fresh_names (seen : list string) (ms : list (string * scalar)) : Prop :=
  strict = false \/ NoDup ((fun m => coerce m.1) <$> ms) /\ forall m, m ∈ ms -> coerce m.1 ∉ seen.

Lemma fresh_cons seen m ms :
  fresh_names seen (m :: ms) ->
  strict && bool_decide (coerce m.1 ∈ seen) = false /\ fresh_names (coerce m.1 :: seen) ms.
Proof.
  intros [-> | [Hnd Hf]]; [by split; [|left]|]. cbn [fmap list_fmap] in Hnd.
  apply NoDup_cons in Hnd as [Hm Hnd]. split.
  - rewrite bool_decide_eq_false_2 by (apply Hf; by left). by destruct strict.
  - right. split; [done|]. intros m' Hm'. apply not_elem_of_cons. split; [|apply Hf; by right].
    intros Heq. apply Hm. rewrite <- Heq. by apply (list_elem_of_fmap_2 (fun m => coerce m.1)).
Qed.

Lemma parse_object_members f depth first seen ms :
  (length ms < f)%nat -> forallb (fun m => scalar_ok m.2) ms = true -> fresh_names seen ms ->
  parse_members strict limit f depth first seen (members_bytes first ms)
  = POk ((fun m => (coerce m.1, scalar_json m.2)) <$> ms) [].
Proof.
  revert f first seen. induction ms as [|[k v] ms IH]; intros [|f] first seen Hf Hok Hfresh;
    cbn [length] in *; try lia; [done|].
  apply fresh_cons in Hfresh as [Hnew Hfresh]. cbn [fst] in Hnew, Hfresh.
  cbn [forallb] in Hok. apply andb_true_iff in Hok as [Hv Hok]. cbn [snd] in Hv.
  assert (members_bytes first ((k, v) :: ms)
    = (if first then [] else [","%char]) ++ chr 34 :: quote_bytes (bytes k) ++ chr 34 :: ":"%char
        :: scalar_bytes v ++ members_bytes false ms)%list as ->.
  { cbn [members_bytes]. unfold member_bytes, json_quote. cbn [fst snd]. rewrite bytes_of_bytes.
    f_equal. cbn [app]. by rewrite <- !app_assoc. }
  rewrite parse_member, scan_quote, coerce_idemp. fold (coerce k). rewrite Hnew. simpl eat. destruct f as [|f]; [lia|].
  rewrite parse_scalar by (done || by apply members_ends; right).
  by rewrite IH by (done || lia).
Qed.

Lemma parse_brace f depth l :
  depth < limit ->
  parse_value strict limit (S f) depth ("{"%char :: l)
  = match parse_members strict limit f (depth + 1) true [] l with
    | POk ms r => POk (JObj ms) r
    | PErr => PErr | PDup => PDup | PFuel => PFuel
    end.
Proof. intros Hd. cbn. assert ((depth <? limit) = true) as -> by lia. done. Qed.
End parse.

Lemma members_length first ms : (length ms < length (members_bytes first ms))%nat.
Proof.
  revert first. induction ms as [|m ms IH]; intros first; [simpl; lia|]. cbn [members_bytes length].
  rewrite length_app. unfold member_bytes. rewrite !length_app. specialize (IH false). simpl. lia.
Qed.

(** An object that was written is read back. *)
Lemma parse_json_object ms :
  forallb (fun m => scalar_ok m.2) ms = true ->
  json_parse (json_object ms) = Some (JObj ((fun m => (coerce m.1, scalar_json m.2)) <$> ms)).
Proof.
  intros Hok. unfold json_parse, json_object. rewrite bytes_of_bytes.
  pose proof (members_length true ms). unfold parse_fuel. cbn [length].
  rewrite Nat.add_1_r, parse_brace by done. by rewrite parse_object_members by (done || lia || by left).
Qed.

(** ** Nested values

    [json.Marshal] of values that are already written. *)
Fixpoint comma_separated (texts : list string) : string :=
  match texts with
  | [] => ""
  | [t] => t
  | t :: ts => t ++ "," ++ comma_separated ts
  end.
Definition object_text (fields : list (string * string)) : string :=
  "{" ++ comma_separated ((fun f => json_quote f.1 ++ ":" ++ f.2) <$> fields) ++ "}".
Definition array_text (items : list string) : string := "[" ++ comma_separated items ++ "]".
Definition bool_text (b : bool) : string := if b then "true" else "false".

(** ** What is written is UTF-8 and bounded *)

(** A text that may stand before any other without changing whether that is UTF-8. *)
Definition transparent (x : list ascii) : Prop := forall rest, utf8_valid (x ++ rest)%list = utf8_valid rest.
Lemma transparent_app x y : transparent x -> transparent y -> transparent (x ++ y)%list.
Proof. intros Hx Hy rest. by rewrite <- app_assoc, Hx, Hy. Qed.
Lemma transparent_ascii x : forallb (fun c => code c <? 128) x = true -> transparent x.
Proof.
  induction x as [|c x IH]; intros Hx rest; [done|]. cbn [forallb] in Hx. apply andb_true_iff in Hx as [Hc Hx].
  cbn [app utf8_valid]. rewrite Hc. by apply IH.
Qed.
Lemma transparent_lead l : lead l <> O -> transparent (take (lead l) l).
Proof.
  destruct l as [|a l1]; [done|]. unfold lead. destruct (code a <? 128) eqn:Ha.
  { intros _ rest. cbn [take app utf8_valid]. by rewrite Ha. }
  destruct l1 as [|b l2]; [done|]. destruct (byte_in 194 223 a && byte_in 128 191 b) eqn:Hb.
  { intros _ rest. cbn [take app utf8_valid]. rewrite Ha. by apply andb_true_iff in Hb as [-> ->]. }
  destruct l2 as [|c l3]; [done|]. destruct (byte_in 224 239 a && _ && _) eqn:Hc.
  { intros _ rest. cbn [take app utf8_valid]. rewrite Ha.
    apply andb_true_iff in Hc as [[H1 H2]%andb_true_iff H3].
    assert (byte_in 194 223 a = false) as -> by (unfold byte_in in *; lia). by rewrite H1, H2, H3. }
  destruct l3 as [|d l4]; [done|]. destruct (byte_in 240 244 a && _ && _ && _) eqn:Hd; [|done].
  intros _ rest. cbn [take app utf8_valid]. rewrite Ha.
  apply andb_true_iff in Hd as [[[H1 H2]%andb_true_iff H3]%andb_true_iff H4].
  assert (byte_in 194 223 a = false) as -> by (unfold byte_in in *; lia).
  assert (byte_in 224 239 a = false) as -> by (unfold byte_in in *; lia). by rewrite H1, H2, H3, H4.
Qed.
Lemma quote_byte_ascii c : code c < 128 -> forallb (fun c => code c <? 128) (quote_byte c) = true.
Proof.
  apply (byte_cases (fun c => code c < 128 -> forallb (fun c => code c <? 128) (quote_byte c) = true)).
  vm_compute. reflexivity.
Qed.
Lemma quote_byte_length c : code c < 128 -> (length (quote_byte c) <= 6)%nat.
Proof.
  apply (byte_cases (fun c => code c < 128 -> (length (quote_byte c) <= 6)%nat)). vm_compute. reflexivity.
Qed.

(** How a rune is written: in ASCII, or as it is. *)
Lemma quote_rune_cases l :
  lead l <> O ->
  let q := quote_rune (take (lead l) l) in
  transparent q /\ (length q <= 6 * lead l)%nat.
Proof.
  intros Hl q. destruct (lead_take l Hl) as [(c & Hc & Hlt)|[_ Hn]].
  - unfold q. rewrite Hc. cbn [quote_rune]. split; [by apply transparent_ascii, quote_byte_ascii|].
    pose proof (quote_byte_length c Hlt). lia.
  - assert (length (take (lead l) l) <= lead l)%nat as Hlen by (rewrite length_take; lia).
    assert (q = take (lead l) l \/ q = bytes "\u2028" \/ q = bytes "\u2029") as [Hq|Hq].
    { unfold q, quote_rune. destruct (take (lead l) l) as [|a [|b [|c [|d t]]]] eqn:Ht; auto; [done|].
      destruct (_ && _ && _) eqn:E; auto. assert (code c = 168 \/ code c = 169) as [-> | ->] by lia; auto. }
    + rewrite Hq. split; [by apply transparent_lead|lia].
    + split; [destruct Hq as [-> | ->]; by apply transparent_ascii|].
      assert (length q = 6%nat) as -> by (by destruct Hq as [-> | ->]). lia.
Qed.
Lemma quote_transparent l : transparent (quote_bytes l).
Proof.
  induction l as [|a l Hl IH|l Hl IH] using rune_ind; [done| |].
  - rewrite quote_by_rune, by_rune_ill by done. apply transparent_app; [by apply transparent_ascii|done].
  - rewrite quote_by_rune, by_rune_rune by done. apply transparent_app; [|done].
    by destruct (quote_rune_cases l Hl).
Qed.
Lemma quote_length l : (length (quote_bytes l) <= 6 * length l)%nat.
Proof.
  induction l as [|a l Hl IH|l Hl IH] using rune_ind; [done| |].
  - rewrite quote_by_rune, by_rune_ill by done. rewrite length_app. simpl. lia.
  - rewrite quote_by_rune, by_rune_rune by done. rewrite length_app.
    destruct (quote_rune_cases l Hl) as [_ Hq]. rewrite length_drop in IH.
    pose proof (lead_length l Hl) as Hll. rewrite length_take in Hll. lia.
Qed.

Lemma decimal_ascii z : 0 <= z -> transparent (bytes (decimal z)).
Proof.
  intros Hz. destruct (decimal_digits z Hz) as (c & ds & -> & Hd & _). apply transparent_ascii.
  apply forallb_forall. intros x Hx. rewrite forallb_forall in Hd. specialize (Hd x Hx).
  revert Hd. apply (byte_cases (fun x => is_digit x = true -> (code x <? 128) = true)).
  vm_compute. reflexivity.
Qed.
Lemma scalar_transparent v : scalar_ok v = true -> transparent (scalar_bytes v).
Proof.
  destruct v as [z|s]; simpl; intros Hv; [apply decimal_ascii; lia|].
  unfold json_quote. rewrite bytes_of_bytes. apply (transparent_app [_]); [by apply transparent_ascii|].
  apply transparent_app; [apply quote_transparent|by apply transparent_ascii].
Qed.
Lemma members_utf8 first ms :
  forallb (fun m => scalar_ok m.2) ms = true -> utf8_valid (members_bytes first ms) = true.
Proof.
  revert first. induction ms as [|[k v] ms IH]; intros first Hok; [done|]. cbn [forallb snd] in Hok.
  apply andb_true_iff in Hok as [Hv Hok]. cbn [members_bytes].
  assert (transparent (if first then [] else [","%char])) as Hsep
    by (by destruct first; apply transparent_ascii).
  assert (transparent (member_bytes (k, v))) as Hm.
  { unfold member_bytes, json_quote. cbn [fst snd]. rewrite bytes_of_bytes.
    apply transparent_app; [|apply (transparent_app [_]); [by apply transparent_ascii|by apply scalar_transparent]].
    apply (transparent_app [_]); [by apply transparent_ascii|].
    apply transparent_app; [apply quote_transparent|by apply transparent_ascii]. }
  rewrite Hsep, Hm. by apply IH.
Qed.
Lemma json_object_utf8 ms :
  forallb (fun m => scalar_ok m.2) ms = true -> utf8_Valid (json_object ms) = true.
Proof.
  intros Hok. unfold utf8_Valid, json_object. rewrite bytes_of_bytes.
  change (utf8_valid (["{"%char] ++ members_bytes true ms)%list = true).
  rewrite (transparent_ascii ["{"%char] eq_refl). by apply members_utf8.
Qed.

(** * Writing nested JSON values

    [json.Marshal] of a value of any shape, and that the parser of [Json] reads
    back what was written: the depth, the fuel and the separators fit. *)

(** The texts of the elements with their commas and the closing bracket. *)
Fixpoint listing (first : bool) (close : ascii) (texts : list (list ascii)) : list ascii :=
  match texts with
  | [] => [close]
  | t :: ts => ((if first then [] else [","%char]) ++ t ++ listing false close ts)%list
  end.

Fixpoint render (v : json) : list ascii :=
  match v with
  | JNull => bytes "null"
  | JBool b => bytes (bool_text b)
  | JNum lit => bytes lit
  | JStr s => bytes (json_quote s)
  | JArr l => "["%char :: listing true "]" (map render l)
  | JObj l => "{"%char :: listing true "}"
                (map (fun m => bytes (json_quote m.1) ++ ":"%char :: render m.2)%list l)
  end.
Definition json_Marshal (v : json) : string := of_bytes (render v).

(** ** Values that survive

    Numbers are decimals as [strconv] writes them, strings are UTF-8, and the
    nesting stays within the parser's limit. *)
Definition is_decimal (lit : string) : Prop := exists z, 0 <= z /\ lit = decimal z.

Fixpoint written (v : json) : Prop :=
  match v with
  | JNull | JBool _ => True
  | JNum lit => is_decimal lit
  | JStr s => coerce s = s
  | JArr l => foldr and True (map written l)
  | JObj l => foldr and True (map (fun m => coerce m.1 = m.1 /\ written m.2) l)
  end.
Fixpoint nesting (v : json) : nat :=
  match v with
  | JArr l => S (foldr Nat.max 0%nat (map nesting l))
  | JObj l => S (foldr Nat.max 0%nat (map (fun m => nesting m.2) l))
  | _ => 0%nat
  end.

(** Induction that reaches the elements of arrays and objects. *)
Section json_nested.
Context (P : json -> Prop).
Context (Hnull : P JNull) (Hbool : forall b, P (JBool b)) (Hnum : forall n, P (JNum n))
  (Hstr : forall s, P (JStr s)) (Harr : forall l, Forall P l -> P (JArr l))
  (Hobj : forall l, Forall (fun m => P m.2) l -> P (JObj l)).

Fixpoint json_nested (v : json) : P v :=
  match v with
  | JNull => Hnull
  | JBool b => Hbool b
  | JNum n => Hnum n
  | JStr s => Hstr s
  | JArr l => Harr l ((fix all (l : list json) : Forall P l :=
      match l with [] => Forall_nil_2 P | x :: l' => Forall_cons_2 P x l' (json_nested x) (all l') end) l)
  | JObj l => Hobj l ((fix all (l : list (string * json)) : Forall (fun m => P m.2) l :=
      match l with
      | [] => Forall_nil_2 _
      | x :: l' => Forall_cons_2 (fun m => P m.2) x l' (json_nested x.2) (all l')
      end) l)
  end.
End json_nested.

Lemma render_nonempty v : written v -> (1 <= length (render v))%nat.
Proof.
  destruct v as [|[]|lit|s|l|l]; simpl; try lia. intros (z & Hz & ->).
  destruct (decimal_digits z Hz) as (c & ds & -> & _). simpl. lia.
Qed.

Lemma listing_ends close texts :
  close = "]"%char \/ close = "}"%char -> forall rest, ends_number (listing false close texts ++ rest)%list = true.
Proof. intros [-> | ->] rest; by destruct texts. Qed.

Lemma listing_length close texts first t :
  t ∈ texts -> (length t < length (listing first close texts))%nat.
Proof.
  revert first. induction texts as [|x texts IH]; intros first Ht; [by apply elem_of_nil in Ht|].
  cbn [listing]. rewrite !length_app. apply elem_of_cons in Ht as [-> | Ht].
  - assert (1 <= length (listing false close texts))%nat; [|lia].
    destruct texts; simpl; lia.
  - specialize (IH false Ht). lia.
Qed.

Section read_back.
Context (limit : Z).

(** One value is read back, whatever ends it. *)
Definition reads_back (v : json) : Prop := forall fuel depth rest,
  depth + Z.of_nat (nesting v) <= limit -> (2 * length (render v) + 1 <= fuel)%nat ->
  ends_number rest = true ->
  parse_value false limit fuel depth (render v ++ rest)%list = POk v rest.

Lemma parse_elem f depth first c t :
  is_space c = false -> c <> "]"%char ->
  parse_elems false limit (S f) depth first ((if first then [] else [","%char]) ++ c :: t)%list
  = match parse_value false limit f depth (c :: t) with
    | POk v l2 =>
        match parse_elems false limit f depth false l2 with
        | POk vs r => POk (v :: vs) r
        | PErr => PErr | PDup => PDup | PFuel => PFuel
        end
    | PErr => PErr | PDup => PDup | PFuel => PFuel
    end.
Proof.
  intros Hs Hc. destruct first; simpl; [|done]. rewrite Hs. simpl. by rewrite decide_False.
Qed.

Lemma reads_elems l : forall fuel depth first rest,
  Forall (fun v => written v /\ reads_back v) l ->
  depth + Z.of_nat (foldr Nat.max 0%nat (map nesting l)) <= limit ->
  (2 * length (listing first "]" (map render l)) + 2 <= fuel)%nat ->
  parse_elems false limit fuel depth first (listing first "]" (map render l) ++ rest)%list = POk l rest.
Proof.
  induction l as [|v l IH]; intros [|f] depth first rest Hall Hd Hf; try lia; [done|].
  apply Forall_cons in Hall as [[Hw Hv] Hall]. cbn [map listing foldr] in *.
  rewrite !length_app in Hf. pose proof (render_nonempty v Hw) as Hne.
  rewrite <- !app_assoc.
  assert (parse_value false limit f depth (render v ++ listing false "]" (map render l) ++ rest)%list
    = POk v (listing false "]" (map render l) ++ rest)%list) as Hval.
  { apply Hv; [lia|lia|]. apply listing_ends. by left. }
  assert (exists c t, render v = c :: t /\ is_space c = false /\ c <> "]"%char) as (c & t & Hr & Hs & Hc).
  { clear -Hw. destruct v as [|[]|lit|s|l|l]; try (eexists _, _; split_and!; [reflexivity|done|done]).
    - destruct Hw as (z & Hz & ->). destruct (decimal_digits z Hz) as (c & ds & Hb & Hd & _).
      apply andb_true_iff in Hd as [Hd _]. exists c, ds. split_and!; [done|by apply digit_not_space|by intros ->].
    }
  rewrite Hr in *. cbn [app] in *. rewrite parse_elem, Hval, IH by (done || lia). done.
Qed.

Lemma reads_members l : forall fuel depth first seen rest,
  Forall (fun m => coerce m.1 = m.1 /\ written m.2 /\ reads_back m.2) l ->
  depth + Z.of_nat (foldr Nat.max 0%nat (map (fun m => nesting m.2) l)) <= limit ->
  (2 * length (listing first "}" (map (fun m => bytes (json_quote m.1) ++ ":"%char :: render m.2)%list l)) + 2
    <= fuel)%nat ->
  parse_members false limit fuel depth first seen
    (listing first "}" (map (fun m => bytes (json_quote m.1) ++ ":"%char :: render m.2)%list l) ++ rest)%list
  = POk l rest.
Proof.
  induction l as [|[k v] l IH]; intros [|f] depth first seen rest Hall Hd Hf; try lia; [done|].
  apply Forall_cons in Hall as [(Hk & Hw & Hv) Hall]. cbn [map listing foldr fst snd] in *.
  rewrite !length_app in Hf. cbn [length] in Hf.
  set (tail := listing false "}" _) in *.
  assert (((if first then [] else [","%char]) ++ (bytes (json_quote k) ++ ":"%char :: render v) ++ tail) ++ rest
    = (if first then [] else [","%char]) ++ chr 34 :: quote_bytes (bytes k) ++ chr 34 :: ":"%char
        :: render v ++ tail ++ rest)%list as ->.
  { unfold json_quote. rewrite bytes_of_bytes. clear. generalize (quote_bytes (bytes k)) (render v) tail.
    intros q r u. destruct first; simpl; by rewrite <- !app_assoc; simpl; rewrite <- ?app_assoc. }
  rewrite parse_member, scan_quote, coerce_idemp. fold (coerce k). cbn [andb]. simpl eat. cbn iota beta.
  rewrite Hv; [|lia|lia|apply listing_ends; by right].
  subst tail. rewrite IH; [by rewrite Hk|done|lia|lia].
Qed.

Lemma written_reads_back v : written v -> reads_back v.
Proof.
  induction v as [|b|lit|s|l IH|l IH] using json_nested; intros Hw [|f] depth rest Hd Hf Hr; try lia.
  - done.
  - by destruct b.
  - destruct Hw as (z & Hz & ->). by apply (parse_scalar false limit f depth (SInt z) rest); [simpl; lia|].
  - pose proof (parse_scalar false limit f depth (SStr s) rest eq_refl Hr) as Hs.
    cbn [scalar_json scalar_bytes] in Hs. by rewrite Hw in Hs.
  - cbn [render nesting app length] in *.
    assert (Forall (fun v => written v /\ reads_back v) l) as Hall.
    { clear -IH Hw. cbn [written] in Hw. induction l as [|v l IHl]; [done|].
      apply Forall_cons in IH as [Hv IH]. cbn in Hw. destruct Hw. constructor; eauto. }
    simpl. assert ((depth <? limit) = true) as -> by lia.
    by rewrite reads_elems by (done || lia).
  - cbn [render nesting app length] in *.
    assert (Forall (fun m => coerce m.1 = m.1 /\ written m.2 /\ reads_back m.2) l) as Hall.
    { clear -IH Hw. cbn [written] in Hw. induction l as [|v l IHl]; [done|].
      apply Forall_cons in IH as [Hv IH]. cbn in Hw. destruct Hw as [[] ?]. constructor; eauto. }
    rewrite parse_brace by lia. by rewrite reads_members by (done || lia).
Qed.
End read_back.

(** What [json.Marshal] writes, [json.Unmarshal] reads back. *)
Lemma marshal_parse v :
  written v -> Z.of_nat (nesting v) <= maxNestingDepth -> json_parse (json_Marshal v) = Some v.
Proof.
  intros Hw Hn. unfold json_parse, json_Marshal. rewrite bytes_of_bytes.
  rewrite <- (app_nil_r (render v)) at 2. rewrite written_reads_back; [done|done|lia| |done].
  unfold parse_fuel. lia.
Qed.
