(* ===== verification/Domain.v ===== *)
(** * Package [domain]

    Channel names and channel grants, applications, events, jobs, queue
    subscriptions and remote-function values, with the predicates the other
    packages call. *)

From Stdlib Require Import Ascii String.
From S2P Require Import Prelude GoLib Crypto Json.

(** ** [domain/routing.go]: realtime channels and grants *)

Module Channel.

(** [^[a-z0-9][a-z0-9_.:-]{0,95}$] *)
Definition channel_head (c : ascii) : bool := is_lower c || is_digit c.
Definition channel_tail (c : ascii) : bool :=
  is_lower c || is_digit c || is_one_of "_.:-" c.
Definition realtimeChannelPattern (s : string) : bool :=
  match_class channel_head channel_tail 0 95 s.

Definition ValidRealtimeChannel (channel : string) : bool :=
  bool_decide (channel = TrimSpace channel) && realtimeChannelPattern channel.

Definition PrivateRealtimeChannel (channel : string) : bool :=
  ValidRealtimeChannel channel && HasPrefix channel "private:"
  && (0 <? len (default channel (CutPrefix channel "private:"))).

Definition completeRealtimeNamespace (value : string) : bool :=
  forallb (fun segment => negb (bool_decide (segment = ""))) (Split value ":").

Definition ValidRealtimeChannelGrant (grant : string) : bool :=
  if ValidRealtimeChannel grant && completeRealtimeNamespace grant then true
  else if negb (HasSuffix grant ":*") || negb (CountByte grant "*" =? 1)%nat then false
  else
    let prefix := default grant (CutSuffix grant ":*") in
    negb (bool_decide (prefix = "")) && ValidRealtimeChannel prefix
    && completeRealtimeNamespace prefix.

Definition RealtimeChannelGrantMatches (grant channel : string) : bool :=
  if negb (ValidRealtimeChannel channel) || negb (ValidRealtimeChannelGrant grant) then false
  else if bool_decide (grant = channel) then true
  else match CutSuffix grant ":*" with
       | None => false
       | Some prefix =>
           match CutPrefix channel (prefix ++ ":")%string with
           | Some remainder =>
               negb (bool_decide (remainder = "")) && negb (ContainsByte remainder ":")
           | None => false
           end
       end.

(** *** Channel names *)

Lemma channel_byte_graphic c : channel_tail c = true -> graphic c = true /\ c <> "*"%char.
Proof.
  apply (byte_cases (fun c => channel_tail c = true -> graphic c = true /\ c <> "*"%char)).
  vm_compute. reflexivity.
Qed.

Lemma channel_head_tail c : channel_head c = true -> channel_tail c = true.
Proof. unfold channel_head, channel_tail. intros ->. done. Qed.

Lemma pattern_bytes s :
  realtimeChannelPattern s = true -> forallb channel_tail (bytes s) = true /\ bytes s <> [].
Proof.
  unfold realtimeChannelPattern, match_class. destruct (bytes s) as [|c l]; [done|].
  intros. bool_to_prop. destruct_and!. simpl. rewrite channel_head_tail by done. done.
Qed.

Lemma forallb_impl {A} (f g : A -> bool) l :
  (forall x, f x = true -> g x = true) -> forallb f l = true -> forallb g l = true.
Proof. rewrite !forallb_forall. naive_solver. Qed.

(** The comparison with the trimmed name never rejects a name the pattern accepts. *)
Lemma valid_channel_pattern s : ValidRealtimeChannel s = realtimeChannelPattern s.
Proof.
  unfold ValidRealtimeChannel. destruct (realtimeChannelPattern s) eqn:E;
    [|by rewrite andb_false_r].
  apply pattern_bytes in E as [E _]. rewrite andb_true_r. apply bool_decide_eq_true.
  symmetry. apply TrimSpace_graphic. eapply forallb_impl, E.
  intros c Hc. apply channel_byte_graphic, Hc.
Qed.

Lemma valid_channel_bytes s :
  ValidRealtimeChannel s = true -> forallb channel_tail (bytes s) = true /\ bytes s <> [].
Proof. rewrite valid_channel_pattern. apply pattern_bytes. Qed.

Lemma valid_channel_no_star s : ValidRealtimeChannel s = true -> "*"%char ∉ bytes s.
Proof.
  intros [H _]%valid_channel_bytes Hin%list_elem_of_In.
  rewrite forallb_forall in H. apply H, channel_byte_graphic in Hin. by destruct Hin.
Qed.

(** Accepted names are between 1 and 96 bytes long. *)
Lemma valid_channel_len s : ValidRealtimeChannel s = true -> 1 <= len s <= 96.
Proof.
  rewrite valid_channel_pattern. unfold realtimeChannelPattern, match_class.
  rewrite len_bytes. destruct (bytes s) as [|c l]; [done|].
  intros. bool_to_prop. destruct_and!. simpl. lia.
Qed.

(** *** Grants, segment by segment *)

(** What a grant means: the channel's segments are the grant's, except that a
    final ["*"] stands for one nonempty segment. *)
Definition grant_covers (grant channel : list string) : Prop :=
  grant = channel \/
  exists p s, grant = (p ++ ["*"])%list /\ channel = (p ++ [s])%list /\ s <> "".

Fixpoint join_bytes (c : ascii) (ls : list (list ascii)) : list ascii :=
  match ls with
  | [] => []
  | [l] => l
  | l :: ls' => (l ++ c :: join_bytes c ls')%list
  end.

Lemma join_split c l : join_bytes c (split_bytes c l) = l.
Proof.
  induction l as [|b l IH]; [done|]. simpl. case_decide.
  - subst. pose proof (split_bytes_ne c l). destruct (split_bytes c l) eqn:E; [done|].
    simpl in *. by f_equal.
  - destruct (split_bytes c l) as [|x xs] eqn:E; [by apply split_bytes_ne in E|].
    simpl in *. destruct xs; simpl in *; by f_equal.
Qed.

Lemma split_inj c l l' : split_bytes c l = split_bytes c l' -> l = l'.
Proof. intros H. by rewrite <- (join_split c l), <- (join_split c l'), H. Qed.

Lemma join_split_snoc c p x :
  p <> [] -> join_bytes c (p ++ [x])%list = (join_bytes c p ++ c :: x)%list.
Proof.
  induction p as [|y p IH]; [done|]. intros _. simpl.
  destruct p as [|z p]; [done|]. simpl in *. rewrite IH by done. by rewrite <- app_assoc.
Qed.

Lemma Split_inj s t c : Split s c = Split t c -> s = t.
Proof.
  intros H. apply bytes_inj, (split_inj c). unfold Split in H.
  apply (f_equal (fmap bytes)) in H. rewrite <- !list_fmap_compose in H.
  assert (forall l : list (list ascii), (bytes ∘ of_bytes) <$> l = l) as Hid.
  { intros l. rewrite <- (list_fmap_id l) at 2. apply list_fmap_ext. intros ? x ?.
    simpl. apply bytes_of_bytes. }
  by rewrite !Hid in H.
Qed.

Lemma Split_snoc p x c :
  c ∉ bytes x -> Split (p ++ String c x)%string c = (Split p c ++ [x])%list.
Proof.
  intros H. unfold Split. rewrite bytes_app.
  change (bytes (String c x)) with (c :: bytes x).
  rewrite split_bytes_app, (split_bytes_single c (bytes x)) by done.
  rewrite fmap_app. simpl. by rewrite of_bytes_bytes.
Qed.

Lemma split_bytes_no_sep c l x : x ∈ split_bytes c l -> c ∉ x.
Proof.
  revert x. induction l as [|b l IH]; simpl; intros x.
  - rewrite list_elem_of_singleton. intros ->. apply not_elem_of_nil.
  - case_decide.
    + rewrite elem_of_cons. intros [->|?]; [apply not_elem_of_nil | auto].
    + destruct (split_bytes c l) as [|y ys] eqn:E; [by apply split_bytes_ne in E|].
      rewrite elem_of_cons. intros [->|?]; [|apply IH; set_solver].
      rewrite elem_of_cons. intros [->|?]; [done|]. eapply IH; [|done]. set_solver.
Qed.

(** A channel whose last segment is [x], after at least one other segment. *)
Lemma Split_snoc_inv s p x c :
  Split s c = (p ++ [x])%list -> p <> [] ->
  exists q, s = (q ++ String c x)%string /\ (c ∉ bytes x) /\ Split q c = p.
Proof.
  intros H Hp. assert (c ∉ bytes x) as Hx.
  { assert (x ∈ Split s c) as Hin by (rewrite H; set_solver).
    unfold Split in Hin. apply list_elem_of_fmap in Hin as (l & -> & Hl).
    rewrite bytes_of_bytes. by eapply split_bytes_no_sep. }
  assert (bytes s = join_bytes c (bytes <$> (p ++ [x])%list)) as Hs.
  { rewrite <- H. unfold Split. rewrite <- list_fmap_compose.
    rewrite (list_fmap_ext _ id), list_fmap_id, join_split; [done|].
    intros. apply bytes_of_bytes. }
  rewrite fmap_app in Hs. simpl in Hs. rewrite join_split_snoc in Hs by (by destruct p).
  exists (of_bytes (join_bytes c (bytes <$> p))).
  assert (s = (of_bytes (join_bytes c (bytes <$> p)) ++ String c x)%string) as Heq.
  { apply bytes_inj. rewrite bytes_app, bytes_of_bytes. done. }
  split_and!; [done|done|]. rewrite Heq, Split_snoc in H by done.
  by apply app_inj_tail in H as [? _].
Qed.

Lemma string_app_cons s c t : (s ++ String c t)%string = ((s ++ String c "") ++ t)%string.
Proof. apply bytes_inj. rewrite !bytes_app. simpl. by rewrite <- app_assoc. Qed.

(** A grant matches a channel exactly when both are well formed and the
    grant's segments cover the channel's: equal, or equal up to one final
    wildcard segment that stands for exactly one nonempty segment. *)
Theorem grant_matches_segments grant channel :
  RealtimeChannelGrantMatches grant channel = true <->
  ValidRealtimeChannel channel = true /\ ValidRealtimeChannelGrant grant = true
  /\ grant_covers (Split grant ":") (Split channel ":").
Proof.
  unfold RealtimeChannelGrantMatches.
  destruct (ValidRealtimeChannel channel) eqn:Hc; [|simpl; naive_solver].
  destruct (ValidRealtimeChannelGrant grant) eqn:Hg; [|simpl; naive_solver].
  cbn [negb orb]. split.
  - intros H. split_and!; [done..|]. destruct (bool_decide (grant = channel)) eqn:E.
    { apply bool_decide_eq_true in E. subst. by left. }
    destruct (CutSuffix grant ":*") as [prefix|] eqn:Es; [|done].
    destruct (CutPrefix channel (prefix ++ ":")) as [rem|] eqn:Ep; [|done].
    apply CutSuffix_Some in Es. apply CutPrefix_Some in Ep. subst grant channel.
    bool_to_prop. destruct H as [Hne Hno].
    right. exists (Split prefix ":"), rem. split_and!; [..|done].
    + apply Split_snoc. set_solver.
    + rewrite <- string_app_cons. apply Split_snoc.
      intros Hin. apply ContainsByte_true in Hin. by rewrite Hno in Hin.
  - intros (_ & _ & [Heq|(p & s & Hp & Hs & Hne)]).
    { apply Split_inj in Heq as ->. by rewrite bool_decide_eq_true_2. }
    destruct (bool_decide (grant = channel)) eqn:E; [done|].
    destruct (decide (p = [])) as [->|Hnil].
    { change (Split grant ":" = Split "*" ":") in Hp. apply Split_inj in Hp as ->.
      vm_compute in Hg. done. }
    apply Split_snoc_inv in Hp as (q & -> & _ & Hq); [|done].
    apply Split_snoc_inv in Hs as (q' & -> & Hns & Hq'); [|done].
    rewrite <- Hq' in Hq. apply Split_inj in Hq as ->.
    rewrite (proj2 (CutSuffix_Some _ _ q') eq_refl).
    rewrite (proj2 (CutPrefix_Some _ _ s) (string_app_cons q' ":" s)).
    rewrite bool_decide_eq_false_2 by done. simpl.
    destruct (ContainsByte s ":") eqn:Ec; [|done].
    by apply ContainsByte_true in Ec.
Qed.

End Channel.

Record RoutingRule := mkRule {
  rule_ID : string;
  rule_SourceAppID : option string;
  rule_EventType : string;
  rule_TargetAppID : string;
  rule_RealtimeChannel : option string;
  rule_Enabled : bool;
  rule_CreatedAt : Z;
  rule_UpdatedAt : Z;
  rule_DeletedAt : option Z
}.

Record ChannelMessage := mkChannelMessage {
  msg_Channel : string;
  msg_PublisherAppID : string;
  msg_Data : string
}.

(** ** [domain/app.go] *)

Inductive DeliveryMode :=
| DeliveryQueue | DeliveryWebSocket | DeliveryCallback | DeliveryAll
| DeliveryOther (text : string).

Definition DeliveryMode_Valid (mode : DeliveryMode) : bool :=
  match mode with
  | DeliveryQueue | DeliveryWebSocket | DeliveryCallback | DeliveryAll => true
  | DeliveryOther _ => false
  end.

Record App := mkApp {
  App_ID : string;
  App_Name : string;
  App_CallbackURL : option string;
  App_DeliveryMode : DeliveryMode;
  App_Enabled : bool;
  App_CreatedAt : Z;
  App_UpdatedAt : Z
}.

(** ** [domain/event.go] *)

Record QueueEvent := mkQueueEvent {
  qe_AvailableAt : Z;
  qe_OrderingKey : string;
  qe_Priority : Z;
  qe_Metadata : string;
  qe_DedupHash : string
}.

Record Event := mkEvent {
  ev_ID : string;
  ev_Type : string;
  ev_SourceAppID : string;
  ev_TargetAppIDs : list string;
  ev_Data : string;
  ev_CreatedAt : Z;
  ev_Queue : option QueueEvent
}.

Definition CanRead (event : Event) (actor : string) : bool :=
  if bool_decide (actor = ev_SourceAppID event) then true
  else existsb (fun target => bool_decide (target = actor)) (ev_TargetAppIDs event).

(** ** [domain/queue.go] *)

Inductive QueueOrderingMode :=
| QueueOrderingNone | QueueOrderingKey | QueueOrderingOther (text : string).

#[export] Instance QueueOrderingMode_eq_dec : EqDecision QueueOrderingMode.
Proof. solve_decision. Defined.

Record QueueSubscription := mkSubscription {
  sub_ID : string;
  sub_AppID : string;
  sub_Name : string;
  sub_Enabled : bool;
  sub_PausedAt : option Z;
  sub_DrainingAt : option Z;
  sub_DrainDeadlineAt : option Z;
  sub_DrainedAt : option Z;
  sub_EventTypes : list string;
  sub_MaxAttempts : Z;
  sub_DefaultVisibilitySeconds : Z;
  sub_MaxVisibilitySeconds : Z;
  sub_MaxTotalLeaseSeconds : Z;
  sub_RetentionSeconds : Z;
  sub_MaxInFlight : Z;
  sub_MaxBatchSize : Z;
  sub_RetryDelaySeconds : Z;
  sub_OrderingMode : QueueOrderingMode;
  sub_DeduplicationSeconds : Z;
  sub_MaxDispatchRate : option Z;
  sub_SuccessCallbackURL : option string;
  sub_FailureCallbackURL : option string;
  sub_ResultCallbackMetadata : string;
  sub_PolicyVersion : Z;
  sub_CreatedAt : Z;
  sub_UpdatedAt : Z
}.

Inductive DrainStatus := DrainActive | DrainDraining | DrainTimedOut | DrainDrained.

Record QueueDrain := mkDrain {
  drain_SubscriptionID : string;
  drain_Status : DrainStatus;
  drain_InFlight : Z;
  drain_StartedAt : option Z;
  drain_DeadlineAt : option Z;
  drain_CompletedAt : option Z
}.

Record QueueSchedule := mkSchedule {
  sch_ID : string;
  sch_AppID : string;
  sch_SubscriptionID : string;
  sch_Name : string;
  sch_Enabled : bool;
  sch_CronExpression : string;
  sch_Timezone : string;
  sch_EventType : string;
  sch_Data : string;
  sch_OrderingKey : string;
  sch_Priority : Z;
  sch_Metadata : string;
  sch_NextRunAt : Z;
  sch_LastRunAt : option Z;
  sch_PolicyVersion : Z;
  sch_CreatedAt : Z;
  sch_UpdatedAt : Z;
  sch_ClaimToken : string;
  sch_ClaimGeneration : Z
}.

Record QueueDelivery := mkQueueDelivery {
  qd_ID : string;
  qd_SubscriptionID : string;
  qd_Event : Event;
  qd_Receipt : string;
  qd_Attempt : Z;
  qd_Generation : Z;
  qd_LeaseExpiresAt : Z;
  qd_OrderingKey : string;
  qd_Priority : Z;
  qd_Metadata : string
}.

Record QueueDepth := mkDepth {
  depth_Available : Z;
  depth_InFlight : Z;
  depth_Acknowledged : Z;
  depth_DeadLetter : Z;
  depth_OldestAvailable : option Z
}.

Record QueueDeadLetter := mkDeadLetter {
  dl_DeliveryID : string;
  dl_SubscriptionID : string;
  dl_EventID : string;
  dl_Attempts : Z;
  dl_Generation : Z;
  dl_Reason : string;
  dl_UpdatedAt : Z
}.

(** ** [domain/job.go] *)

Inductive JobStatus := JobPending | JobLeased | JobDelivered | JobAcked | JobDeadLetter.

#[export] Instance JobStatus_eq_dec : EqDecision JobStatus.
Proof. solve_decision. Defined.

Definition CanTransition (status next : JobStatus) : bool :=
  match status with
  | JobPending =>
      bool_decide (next = JobLeased) || bool_decide (next = JobAcked)
      || bool_decide (next = JobDeadLetter)
  | JobLeased =>
      bool_decide (next = JobPending) || bool_decide (next = JobDelivered)
      || bool_decide (next = JobAcked) || bool_decide (next = JobDeadLetter)
  | JobDelivered => bool_decide (next = JobAcked) || bool_decide (next = JobDeadLetter)
  | JobAcked => bool_decide (next = JobAcked)
  | JobDeadLetter => bool_decide (next = JobPending) || bool_decide (next = JobDeadLetter)
  end.

(** ** [domain/function.go] *)

Definition FunctionFrameLimit : Z := 64 * 1024.
Definition InvocationRetention : Z := 24 * Hour.

(** [^[A-Za-z_][A-Za-z0-9_.-]{0,63}$] *)
Definition ValidFunctionName (name : string) : bool :=
  match_class (fun c => is_upper c || is_lower c || is_one_of "_" c)
    (fun c => is_upper c || is_lower c || is_digit c || is_one_of "_.-" c) 0 63 name.

(** [bytes.TrimSpace] trims the same characters as [strings.TrimSpace]. *)
Definition JSONObject (raw : string) : bool :=
  let raw := TrimSpace raw in
  (0 <? len raw) && HasPrefix raw "{" && utf8_Valid raw && json_Valid raw.
