(* ===== verification/QueueSchema.v ===== *)
(** * The queue tables

    The rows of migrations 015, 018 and 019, the database record the queue
    operations run on, and the functions on tables that their SQL statements
    use. A surrogate key that no statement reads ([queue_delivery_attempts.id])
    is left out; the attempt table is keyed by its UNIQUE columns instead. *)

From S2P Require Import Prelude GoLib Crypto Json Domain.

(** ** What the model takes from Postgres

    The collation of text columns, the [::jsonb] cast (it refuses text that is
    not JSON and normalises what it accepts), and [md5]. *)
Class Postgres := {
  text_le : string -> string -> Prop;
  text_le_dec : RelDecision text_le;
  text_le_order : PartialOrder text_le;
  text_le_total : Total text_le;
  to_jsonb : string -> option string;
  md5 : string -> string
}.
#[export] Existing Instance text_le_dec.
#[export] Existing Instance text_le_order.
#[export] Existing Instance text_le_total.

Definition text_lt `{Postgres} (s t : string) : Prop := text_le s t /\ s <> t.

(** ** Rows *)

Inductive DeliveryStatus := Available | InFlight | Acked | DeadLetter.

#[export] Instance DeliveryStatus_eq_dec : EqDecision DeliveryStatus.
Proof. solve_decision. Defined.

(** [queue_deliveries] *)
Record Delivery := mkDelivery {
  d_id : string;
  d_subscription_id : string;
  d_app_id : string;
  d_event_id : string;
  d_generation : Z;
  d_status : DeliveryStatus;
  d_attempts : Z;
  d_available_at : Z;
  d_receipt_hash : option string;
  d_lease_started_at : option Z;
  d_lease_expires_at : option Z;
  d_lease_max_expires_at : option Z;
  d_ordering_key : option string;
  d_priority : Z;
  d_metadata : string;
  d_last_reason : option string;
  d_created_at : Z;
  d_updated_at : Z;
  d_expires_at : Z
}.

(** The [outcome] text of an attempt: ['leased'], ['visibility_timeout'],
    ['ack'], ['retry'], ['dead_letter']. *)
Inductive Outcome := Leased | VisibilityTimeout | OutAck | OutRetry | OutDeadLetter.

#[export] Instance Outcome_eq_dec : EqDecision Outcome.
Proof. solve_decision. Defined.
Definition Outcome_to_nat (o : Outcome) : nat :=
  match o with
  | Leased => 0 | VisibilityTimeout => 1 | OutAck => 2 | OutRetry => 3 | OutDeadLetter => 4
  end.
Definition Outcome_of_nat (n : nat) : option Outcome :=
  match n with
  | 0 => Some Leased | 1 => Some VisibilityTimeout | 2 => Some OutAck
  | 3 => Some OutRetry | 4 => Some OutDeadLetter | _ => None
  end%nat.
#[export] Instance Outcome_countable : Countable Outcome.
Proof. apply (inj_countable Outcome_to_nat Outcome_of_nat). by intros []. Defined.

(** [queue_delivery_attempts], UNIQUE (delivery_id, generation, attempt, outcome) *)
Abbreviation AttemptKey := (string * Z * Z * Outcome)%type.
Record AttemptInfo := mkAttempt {
  at_reason : option string;
  at_occurred_at : Z
}.

Inductive CallbackOutcome := CbSuccess | CbFailure.
Inductive CallbackStatus := CbPending | CbDelivered | CbFailed.

#[export] Instance CallbackOutcome_eq_dec : EqDecision CallbackOutcome.
Proof. solve_decision. Defined.
#[export] Instance CallbackStatus_eq_dec : EqDecision CallbackStatus.
Proof. solve_decision. Defined.

(** The object both callback producers store in [payload]. *)
Record CallbackPayload := mkPayload {
  pl_app_id : string;
  pl_subscription_id : string;
  pl_delivery_id : string;
  pl_event_id : string;
  pl_generation : Z;
  pl_outcome : CallbackOutcome;
  pl_attempt_count : Z;
  pl_metadata : string
}.

(** [queue_result_callbacks] *)
Record Callback := mkCallback {
  cb_id : string;
  cb_app_id : string;
  cb_subscription_id : string;
  cb_delivery_id : string;
  cb_event_id : string;
  cb_generation : Z;
  cb_outcome : CallbackOutcome;
  cb_url : string;
  cb_payload : CallbackPayload;
  cb_status : CallbackStatus;
  cb_attempts : Z;
  cb_available_at : Z;
  cb_claim_token : option string;
  cb_claim_expires_at : option Z;
  cb_claim_generation : Z;
  cb_last_reason : option string;
  cb_created_at : Z;
  cb_updated_at : Z
}.

(** [queue_result_callback_attempts], keyed by (callback_id, attempt) *)
Inductive CallbackAttemptOutcome := CaClaimed | CaStatus (status : CallbackStatus).
Record CallbackAttempt := mkCallbackAttempt {
  ca_claim_generation : Z;
  ca_outcome : CallbackAttemptOutcome;
  ca_reason : option string;
  ca_occurred_at : Z
}.

(** [queue_schedules] *)
Record Schedule := mkScheduleRow {
  sr_id : string;
  sr_app_id : string;
  sr_subscription_id : string;
  sr_name : string;
  sr_enabled : bool;
  sr_cron_expression : string;
  sr_timezone : string;
  sr_event_type : string;
  sr_data : string;
  sr_ordering_key : option string;
  sr_priority : Z;
  sr_metadata : string;
  sr_next_run_at : Z;
  sr_last_run_at : option Z;
  sr_claim_token : option string;
  sr_claim_expires_at : option Z;
  sr_claim_generation : Z;
  sr_policy_version : Z;
  sr_created_at : Z;
  sr_updated_at : Z
}.

(** [events] with the queue columns of migration 015 *)
Record EventRow := mkEventRow {
  er_id : string;
  er_type : string;
  er_source_app_id : string;
  er_target_app_ids : list string;
  er_data : string;
  er_created_at : Z;
  er_expires_at : Z;
  er_queue_available_at : option Z;
  er_queue_ordering_key : option string;
  er_queue_priority : Z;
  er_queue_metadata : string
}.

(** ** The database *)

Record QueueDB := mkQueueDB {
  applications : gset string;
  credentials : gmap string string; (* the unrevoked secret of an application *)
  events : gmap string EventRow;
  queue_subscriptions : gmap string QueueSubscription;
  queue_deliveries : gmap string Delivery;
  queue_delivery_attempts : gmap AttemptKey AttemptInfo;
  queue_result_callbacks : gmap string Callback;
  queue_result_callback_attempts : gmap (string * Z) CallbackAttempt;
  queue_schedules : gmap string Schedule;
  queue_schedule_occurrences : gmap (string * Z) string;
  queue_deduplication_keys : gmap (string * string) (string * Z)
}.

Definition set_events (t : gmap string EventRow) (db : QueueDB) : QueueDB :=
  mkQueueDB (applications db) (credentials db) t (queue_subscriptions db)
    (queue_deliveries db) (queue_delivery_attempts db) (queue_result_callbacks db)
    (queue_result_callback_attempts db) (queue_schedules db) (queue_schedule_occurrences db)
    (queue_deduplication_keys db).
Definition set_subscriptions (t : gmap string QueueSubscription) (db : QueueDB) : QueueDB :=
  mkQueueDB (applications db) (credentials db) (events db) t
    (queue_deliveries db) (queue_delivery_attempts db) (queue_result_callbacks db)
    (queue_result_callback_attempts db) (queue_schedules db) (queue_schedule_occurrences db)
    (queue_deduplication_keys db).
Definition set_deliveries (t : gmap string Delivery) (db : QueueDB) : QueueDB :=
  mkQueueDB (applications db) (credentials db) (events db) (queue_subscriptions db)
    t (queue_delivery_attempts db) (queue_result_callbacks db)
    (queue_result_callback_attempts db) (queue_schedules db) (queue_schedule_occurrences db)
    (queue_deduplication_keys db).
Definition set_attempts (t : gmap AttemptKey AttemptInfo) (db : QueueDB) : QueueDB :=
  mkQueueDB (applications db) (credentials db) (events db) (queue_subscriptions db)
    (queue_deliveries db) t (queue_result_callbacks db)
    (queue_result_callback_attempts db) (queue_schedules db) (queue_schedule_occurrences db)
    (queue_deduplication_keys db).
Definition set_callbacks (t : gmap string Callback) (db : QueueDB) : QueueDB :=
  mkQueueDB (applications db) (credentials db) (events db) (queue_subscriptions db)
    (queue_deliveries db) (queue_delivery_attempts db) t
    (queue_result_callback_attempts db) (queue_schedules db) (queue_schedule_occurrences db)
    (queue_deduplication_keys db).
Definition set_callback_attempts (t : gmap (string * Z) CallbackAttempt) (db : QueueDB) : QueueDB :=
  mkQueueDB (applications db) (credentials db) (events db) (queue_subscriptions db)
    (queue_deliveries db) (queue_delivery_attempts db) (queue_result_callbacks db)
    t (queue_schedules db) (queue_schedule_occurrences db)
    (queue_deduplication_keys db).
Definition set_schedules (t : gmap string Schedule) (db : QueueDB) : QueueDB :=
  mkQueueDB (applications db) (credentials db) (events db) (queue_subscriptions db)
    (queue_deliveries db) (queue_delivery_attempts db) (queue_result_callbacks db)
    (queue_result_callback_attempts db) t (queue_schedule_occurrences db)
    (queue_deduplication_keys db).
Definition set_occurrences (t : gmap (string * Z) string) (db : QueueDB) : QueueDB :=
  mkQueueDB (applications db) (credentials db) (events db) (queue_subscriptions db)
    (queue_deliveries db) (queue_delivery_attempts db) (queue_result_callbacks db)
    (queue_result_callback_attempts db) (queue_schedules db) t (queue_deduplication_keys db).
Definition set_dedup_keys (t : gmap (string * string) (string * Z)) (db : QueueDB) : QueueDB :=
  mkQueueDB (applications db) (credentials db) (events db) (queue_subscriptions db)
    (queue_deliveries db) (queue_delivery_attempts db) (queue_result_callbacks db)
    (queue_result_callback_attempts db) (queue_schedules db) (queue_schedule_occurrences db) t.

Definition M_queue (A : Type) : Type := M QueueDB A.

(** ** SQL fragments *)

Definition isNone {A} (o : option A) : bool := match o with Some _ => false | None => true end.
Definition isSome {A} (o : option A) : bool := negb (isNone o).

(** [NULLIF(text, '')] and [COALESCE(text, '')] *)
Definition nullif_empty (s : string) : option string :=
  if bool_decide (s = "") then None else Some s.
Definition coalesce_empty (s : option string) : string := default "" s.

(** A comparison with NULL is not true. *)
Definition null_le (x : option Z) (y : Z) : bool := match x with Some x => x <=? y | None => false end.
Definition null_gt (x : option Z) (y : Z) : bool := match x with Some x => y <? x | None => false end.
Definition null_eq (x : option string) (y : string) : bool := bool_decide (x = Some y).

Definition is_status (s : DeliveryStatus) (d : Delivery) : bool := bool_decide (d_status d = s).
Definition in_subscription (sub : string) (d : Delivery) : bool :=
  bool_decide (d_subscription_id d = sub).

(** [INSERT INTO queue_delivery_attempts ... VALUES], refused by the UNIQUE
    constraint, and the variant with [ON CONFLICT DO NOTHING]. *)
Definition insert_attempt (k : AttemptKey) (a : AttemptInfo) (db : QueueDB) : res QueueDB :=
  match queue_delivery_attempts db !! k with
  | Some _ => Err UniqueViolation
  | None => Ok (set_attempts (<[k:=a]> (queue_delivery_attempts db)) db)
  end.
Definition insert_attempt_do_nothing (k : AttemptKey) (a : AttemptInfo)
    (t : gmap AttemptKey AttemptInfo) : gmap AttemptKey AttemptInfo :=
  match t !! k with Some _ => t | None => <[k:=a]> t end.

(** [INSERT INTO queue_result_callbacks ... ON CONFLICT (delivery_id,
    generation, outcome) DO NOTHING]; a clash of the primary key alone is an
    error. *)
Definition same_result (c c' : Callback) : bool :=
  bool_decide (cb_delivery_id c = cb_delivery_id c')
  && (cb_generation c =? cb_generation c') && bool_decide (cb_outcome c = cb_outcome c').
Definition insert_callback (c : Callback) (t : gmap string Callback) : res (gmap string Callback) :=
  if existsb (same_result c) (rows t) then Ok t
  else match t !! cb_id c with
       | Some _ => Err UniqueViolation
       | None => Ok (<[cb_id c:=c]> t)
       end.
Fixpoint insert_callbacks (cs : list Callback) (t : gmap string Callback)
    : res (gmap string Callback) :=
  match cs with
  | [] => Ok t
  | c :: cs' => match insert_callback c t with
                | Ok t' => insert_callbacks cs' t'
                | Err e => Err e
                end
  end.

(** A freshly enqueued callback row: the defaults of migration 019. *)
Definition new_callback (id app sub delivery event : string) (generation : Z)
    (outcome : CallbackOutcome) (url : string) (payload : CallbackPayload) (now : Z) : Callback :=
  mkCallback id app sub delivery event generation outcome url payload CbPending 0 now
    None None 0 None now now.
