(* ===== verification/QueueStore.v ===== *)
(** * [store/postgres/queue_v2.go] and [insertQueueResultCallback]

    Subscriptions, pulling, settling and extending leases, queue depth and the
    dead-letter operations. Each SQL statement is a function on the tables; the
    Go functions run them in order through the database monad. *)

From S2P Require Import Prelude GoLib Crypto Json Domain QueueSchema.

(** ** Requests ([store/store.go]) *)

Record QueuePullRequest := mkPullRequest {
  pr_AppID : string;
  pr_SubscriptionID : string;
  pr_Limit : Z;
  pr_Visibility : Z;
  pr_Now : Z;
  pr_Receipts : list string
}.

Inductive QueueSettlementDisposition :=
| QueueAcknowledge | QueueRetry | QueueToDeadLetter | QueueDispositionOther (text : string).

#[export] Instance QueueSettlementDisposition_eq_dec : EqDecision QueueSettlementDisposition.
Proof. solve_decision. Defined.

Record QueueSettlement := mkSettlement {
  st_Receipt : string;
  st_Disposition : QueueSettlementDisposition;
  st_Delay : Z;
  st_Reason : string
}.

(** The [Status] text of a result: ["invalid_receipt"], the persisted status of
    the delivery, or ["extended"]. *)
Inductive SettleStatus := InvalidReceipt | Persisted (status : DeliveryStatus) | Extended.

Record QueueSettlementResult := mkSettlementResult {
  sres_Receipt : string;
  sres_Status : SettleStatus
}.

Record QueueLeaseExtension := mkExtension {
  ext_Receipt : string;
  ext_Extension : Z
}.

Record QueueDeadLetterQuery := mkDeadLetterQuery {
  dlq_Limit : Z;
  dlq_Cursor : string
}.

(** ** Helpers *)

Definition queueReceiptHash (receipt : string) : string := sha256_hex receipt.
Definition queueStringValue (value : option string) : string := default "" value.

(** A row with its status and lease columns replaced. *)
Definition with_lease (d : Delivery) (status : DeliveryStatus) (attempts available_at : Z)
    (hash : option string) (started expires max : option Z) (reason : option string)
    (now : Z) : Delivery :=
  mkDelivery (d_id d) (d_subscription_id d) (d_app_id d) (d_event_id d) (d_generation d)
    status attempts available_at hash started expires max (d_ordering_key d) (d_priority d)
    (d_metadata d) reason (d_created_at d) now (d_expires_at d).

(** ... [receipt_hash=NULL,lease_started_at=NULL,lease_expires_at=NULL,lease_max_expires_at=NULL] *)
Definition release (d : Delivery) (status : DeliveryStatus) (available_at : Z)
    (reason : option string) (now : Z) : Delivery :=
  with_lease d status (d_attempts d) available_at None None None None reason now.

(** [WHERE app_id=$1 AND id=$2] *)
Definition get_subscription (appID id : string) (db : QueueDB) : option QueueSubscription :=
  match queue_subscriptions db !! id with
  | Some s => if bool_decide (sub_AppID s = appID) then Some s else None
  | None => None
  end.

Definition scanQueueSubscription (appID id : string) : M_queue QueueSubscription :=
  query_row StoreNotFound (get_subscription appID id).

(** ** Subscriptions *)

(** The CHECK constraints of migrations 015 and 018. *)
Definition between (lo z hi : Z) : bool := (lo <=? z) && (z <=? hi).
Definition drain_order (s : QueueSubscription) : bool :=
  match sub_DrainingAt s, sub_DrainDeadlineAt s, sub_DrainedAt s with
  | None, None, None => true
  | Some started, Some deadline, None => started <=? deadline
  | Some started, Some deadline, Some drained => (started <=? deadline) && (started <=? drained)
  | _, _, _ => false
  end.
Definition subscription_check (s : QueueSubscription) : bool :=
  between 1 (sub_MaxAttempts s) 100
  && between 1 (sub_DefaultVisibilitySeconds s) 900
  && between (sub_DefaultVisibilitySeconds s) (sub_MaxVisibilitySeconds s) 3600
  && between (sub_MaxVisibilitySeconds s) (sub_MaxTotalLeaseSeconds s) 86400
  && between 60 (sub_RetentionSeconds s) 2592000
  && between 1 (sub_MaxInFlight s) 10000
  && between 1 (sub_MaxBatchSize s) 100
  && between 0 (sub_RetryDelaySeconds s) 86400
  && match sub_OrderingMode s with QueueOrderingOther _ => false | _ => true end
  && between 0 (sub_DeduplicationSeconds s) 86400
  && match sub_MaxDispatchRate s with Some r => between 1 r 100000 | None => true end
  && (0 <? sub_PolicyVersion s)
  && (isNone (sub_PausedAt s) || sub_Enabled s)
  && drain_order s.

(** UNIQUE (app_id, name) *)
Definition name_taken (s : QueueSubscription) (t : gmap string QueueSubscription) : bool :=
  existsb (fun o => negb (bool_decide (sub_ID o = sub_ID s))
                    && bool_decide (sub_AppID o = sub_AppID s)
                    && bool_decide (sub_Name o = sub_Name s)) (rows t).

Definition set_metadata (m : string) (s : QueueSubscription) : QueueSubscription :=
  mkSubscription (sub_ID s) (sub_AppID s) (sub_Name s) (sub_Enabled s) (sub_PausedAt s)
    (sub_DrainingAt s) (sub_DrainDeadlineAt s) (sub_DrainedAt s) (sub_EventTypes s)
    (sub_MaxAttempts s) (sub_DefaultVisibilitySeconds s) (sub_MaxVisibilitySeconds s)
    (sub_MaxTotalLeaseSeconds s) (sub_RetentionSeconds s) (sub_MaxInFlight s)
    (sub_MaxBatchSize s) (sub_RetryDelaySeconds s) (sub_OrderingMode s)
    (sub_DeduplicationSeconds s) (sub_MaxDispatchRate s) (sub_SuccessCallbackURL s)
    (sub_FailureCallbackURL s) m (sub_PolicyVersion s) (sub_CreatedAt s) (sub_UpdatedAt s).

Definition default_metadata (s : QueueSubscription) : QueueSubscription :=
  if bool_decide (sub_ResultCallbackMetadata s = "") then set_metadata "{}" s else s.

(** A unique violation is reported as [store.ErrConflict]. *)
Definition unique_conflict {A} (m : M_queue A) : M_queue A :=
  on_error m (fun e => fail (if bool_decide (e = UniqueViolation) then StoreConflict else e)).

Section store.
Context `{Postgres}.

Definition insert_subscription (item : QueueSubscription) (db : QueueDB) : res QueueDB :=
  match to_jsonb (sub_ResultCallbackMetadata item) with
  | None => Err DriverError
  | Some meta =>
      let row := set_metadata meta item in
      if negb (subscription_check row) then Err DriverError
      else if isSome (queue_subscriptions db !! sub_ID row)
              || name_taken row (queue_subscriptions db) then Err UniqueViolation
      else if negb (bool_decide (sub_AppID row ∈ applications db)) then Err DriverError
      else Ok (set_subscriptions (<[sub_ID row:=row]> (queue_subscriptions db)) db)
  end.

Definition CreateQueueSubscription (item : QueueSubscription) : M_queue unit :=
  let item := default_metadata item in
  unique_conflict (exec (fun _ db =>
    match insert_subscription item db with Ok db' => Ok (tt, db') | Err e => Err e end)).

Definition by_created_at (s t : QueueSubscription) : Prop :=
  sub_CreatedAt s < sub_CreatedAt t
  \/ sub_CreatedAt s = sub_CreatedAt t /\ text_le (sub_ID s) (sub_ID t).
#[global] Instance by_created_at_dec : RelDecision by_created_at.
Proof. unfold by_created_at, RelDecision. apply _. Defined.

Definition ListQueueSubscriptions (appID : string) : M_queue (list QueueSubscription) :=
  query (fun db => merge_sort by_created_at
    (select_where (fun s => bool_decide (sub_AppID s = appID)) (queue_subscriptions db))).

Definition GetQueueSubscription (appID id : string) : M_queue QueueSubscription :=
  scanQueueSubscription appID id.

(** [UPDATE queue_subscriptions SET ... policy_version=policy_version+1]: identity,
    drain columns and creation time stay. *)
Definition updated_subscription (cur item : QueueSubscription) (meta : string) : QueueSubscription :=
  mkSubscription (sub_ID cur) (sub_AppID cur) (sub_Name item) (sub_Enabled item)
    (sub_PausedAt item) (sub_DrainingAt cur) (sub_DrainDeadlineAt cur) (sub_DrainedAt cur)
    (sub_EventTypes item) (sub_MaxAttempts item) (sub_DefaultVisibilitySeconds item)
    (sub_MaxVisibilitySeconds item) (sub_MaxTotalLeaseSeconds item) (sub_RetentionSeconds item)
    (sub_MaxInFlight item) (sub_MaxBatchSize item) (sub_RetryDelaySeconds item)
    (sub_OrderingMode item) (sub_DeduplicationSeconds item) (sub_MaxDispatchRate item)
    (sub_SuccessCallbackURL item) (sub_FailureCallbackURL item) meta
    (sub_PolicyVersion cur + 1) (sub_CreatedAt cur) (sub_UpdatedAt item).

Definition put_subscription (row : QueueSubscription) (db : QueueDB)
    : res (QueueSubscription * QueueDB) :=
  if negb (subscription_check row) then Err DriverError
  else if name_taken row (queue_subscriptions db) then Err UniqueViolation
  else Ok (row, set_subscriptions (<[sub_ID row:=row]> (queue_subscriptions db)) db).

Definition update_subscription (item : QueueSubscription) (expectedVersion : Z) (db : QueueDB)
    : res (QueueSubscription * QueueDB) :=
  match to_jsonb (sub_ResultCallbackMetadata item) with
  | None => Err DriverError
  | Some meta =>
      match get_subscription (sub_AppID item) (sub_ID item) db with
      | Some cur => if sub_PolicyVersion cur =? expectedVersion
                    then put_subscription (updated_subscription cur item meta) db
                    else Err StoreNotFound
      | None => Err StoreNotFound
      end
  end.

Definition UpdateQueueSubscription (item : QueueSubscription) (expectedVersion : Z)
    : M_queue QueueSubscription :=
  let item := default_metadata item in
  on_error (exec (fun _ => update_subscription item expectedVersion)) (fun e =>
    if bool_decide (e = StoreNotFound) then
      on_error (GetQueueSubscription (sub_AppID item) (sub_ID item);; fail StoreConflict)
        (fun e' => fail (if bool_decide (e' = StoreConflict) then StoreConflict else StoreNotFound))
    else fail (if bool_decide (e = UniqueViolation) then StoreConflict else e)).

(** Foreign keys with ON DELETE CASCADE. *)
Definition keep_deliveries (keep : Delivery -> bool) (db : QueueDB) : QueueDB :=
  let t := delete_where (fun d => negb (keep d)) (queue_deliveries db) in
  set_attempts (filter (fun kv : AttemptKey * AttemptInfo => is_Some (t !! kv.1.1.1.1))
                  (queue_delivery_attempts db)) (set_deliveries t db).
Definition keep_schedules (keep : Schedule -> bool) (db : QueueDB) : QueueDB :=
  let t := delete_where (fun s => negb (keep s)) (queue_schedules db) in
  set_occurrences (filter (fun kv : (string * Z) * string => is_Some (t !! kv.1.1))
                     (queue_schedule_occurrences db)) (set_schedules t db).
Definition keep_callbacks (keep : Callback -> bool) (db : QueueDB) : QueueDB :=
  let t := delete_where (fun c => negb (keep c)) (queue_result_callbacks db) in
  set_callback_attempts (filter (fun kv : (string * Z) * CallbackAttempt => is_Some (t !! kv.1.1))
                           (queue_result_callback_attempts db)) (set_callbacks t db).

Definition delete_subscription (id : string) (db : QueueDB) : QueueDB :=
  let db := set_subscriptions (delete id (queue_subscriptions db)) db in
  let db := keep_deliveries (fun d => negb (bool_decide (d_subscription_id d = id))) db in
  let db := keep_schedules (fun s => negb (bool_decide (sr_subscription_id s = id))) db in
  let db := keep_callbacks (fun c => negb (bool_decide (cb_subscription_id c = id))) db in
  set_dedup_keys (filter (fun kv : (string * string) * (string * Z) => kv.1.1 <> id)
                    (queue_deduplication_keys db)) db.

Definition DeleteQueueSubscription (appID id : string) : M_queue unit :=
  exec (fun _ db => match get_subscription appID id db with
                    | None => Err StoreNotFound
                    | Some _ => Ok (tt, delete_subscription id db)
                    end).

(** ** Pulling *)

(** Leases that ran out: [status='in_flight' AND lease_expires_at<=$2]. *)
Definition lease_expired (sub : string) (now : Z) (d : Delivery) : bool :=
  in_subscription sub d && is_status InFlight d && null_le (d_lease_expires_at d) now.

Definition reclaim_row (maxAttempts retrySeconds now : Z) (d : Delivery) : Delivery :=
  if maxAttempts <=? d_attempts d
  then release d DeadLetter (d_available_at d) (Some "max_attempts_exhausted") now
  else release d Available (default 0 (d_lease_expires_at d) + retrySeconds * Second)
         (Some "visibility_timeout") now.

Definition reclaim_attempt (now : Z) (d : Delivery) (t : gmap AttemptKey AttemptInfo)
    : gmap AttemptKey AttemptInfo :=
  insert_attempt_do_nothing
    (d_id d, d_generation d, d_attempts d,
     if is_status DeadLetter d then OutDeadLetter else VisibilityTimeout)
    (mkAttempt (d_last_reason d) now) t.

Definition reclaim (sub : string) (maxAttempts retrySeconds now : Z) (db : QueueDB) : QueueDB :=
  let hit := lease_expired sub now in
  let reclaimed := reclaim_row maxAttempts retrySeconds now
                     <$> select_where hit (queue_deliveries db) in
  set_attempts (foldr (reclaim_attempt now) (queue_delivery_attempts db) reclaimed)
    (set_deliveries (update_where hit (reclaim_row maxAttempts retrySeconds now)
                       (queue_deliveries db)) db).

(** Failure callbacks for the deliveries the reclaim has just given up on. *)
Definition failure_callback (url meta : string) (now : Z) (d : Delivery) : Callback :=
  new_callback ("qcb_" ++ md5 (d_id d ++ ":" ++ decimal (d_generation d) ++ ":failure"))%string
    (d_app_id d) (d_subscription_id d) (d_id d) (d_event_id d) (d_generation d) CbFailure url
    (mkPayload (d_app_id d) (d_subscription_id d) (d_id d) (d_event_id d) (d_generation d)
       CbFailure (d_attempts d) meta) now.

Definition exhausted_at (sub : string) (now : Z) (d : Delivery) : bool :=
  in_subscription sub d && is_status DeadLetter d && (d_updated_at d =? now)
  && null_eq (d_last_reason d) "max_attempts_exhausted".

Definition failure_callbacks (sub url meta : string) (now : Z) (db : QueueDB) : res (unit * QueueDB) :=
  match insert_callbacks (failure_callback url meta now
                            <$> select_where (exhausted_at sub now) (queue_deliveries db))
          (queue_result_callbacks db) with
  | Ok t => Ok (tt, set_callbacks t db)
  | Err e => Err e
  end.

(** Retention: [status='available' AND expires_at<=$2]. *)
Definition retention_expired (sub : string) (now : Z) (d : Delivery) : bool :=
  in_subscription sub d && is_status Available d && (d_expires_at d <=? now).

Definition expire_row (now : Z) (d : Delivery) : Delivery :=
  with_lease d DeadLetter (d_attempts d) (d_available_at d) (d_receipt_hash d)
    (d_lease_started_at d) (d_lease_expires_at d) (d_lease_max_expires_at d)
    (Some "retention_expired") now.

Definition expire (sub : string) (now : Z) (db : QueueDB) : QueueDB :=
  set_deliveries (update_where (retention_expired sub now) (expire_row now)
                    (queue_deliveries db)) db.

Definition in_flight_count (sub : string) (db : QueueDB) : Z :=
  count_where (fun d => in_subscription sub d && is_status InFlight d) (queue_deliveries db).

(** The leases of the last second, joined with the subscription's deliveries. *)
Definition recent_lease (sub : string) (now : Z) (db : QueueDB) (kv : AttemptKey * AttemptInfo) : bool :=
  bool_decide (kv.1.2 = Leased) && (now - Second <? at_occurred_at kv.2)
  && match queue_deliveries db !! kv.1.1.1.1 with
     | Some d => in_subscription sub d
     | None => false
     end.
Definition dispatched_count (sub : string) (now : Z) (db : QueueDB) : Z :=
  count_entries (recent_lease sub now db) (queue_delivery_attempts db).

(** [NOT EXISTS (SELECT 1 FROM queue_deliveries earlier ...)] *)
Definition row_lt (e d : Delivery) : Prop :=
  d_created_at e < d_created_at d
  \/ d_created_at e = d_created_at d /\ text_lt (d_id e) (d_id d).
#[global] Instance row_lt_dec : RelDecision row_lt.
Proof. unfold row_lt, text_lt, RelDecision. apply _. Defined.

Definition same_key (e d : Delivery) : bool :=
  match d_ordering_key e, d_ordering_key d with
  | Some k, Some k' => bool_decide (k = k')
  | _, _ => false
  end.
Definition active (d : Delivery) : bool := is_status Available d || is_status InFlight d.
Definition blocks (d e : Delivery) : bool :=
  bool_decide (d_subscription_id e = d_subscription_id d) && same_key e d && active e
  && bool_decide (row_lt e d).

Definition eligible (sub : string) (now : Z) (mode : QueueOrderingMode) (db : QueueDB)
    (d : Delivery) : bool :=
  in_subscription sub d && is_status Available d && (d_available_at d <=? now)
  && (now <? d_expires_at d)
  && (bool_decide (mode = QueueOrderingNone) || isNone (d_ordering_key d)
      || negb (existsb (blocks d) (rows (queue_deliveries db)))).

(** [ORDER BY LEAST(10, priority + minutes waiting) DESC, available_at, created_at, id] *)
Definition effective_priority (now : Z) (d : Delivery) : Z :=
  Z.min 10 (d_priority d + (now - d_available_at d) `div` Minute).
Definition pull_before (now : Z) (d e : Delivery) : Prop :=
  effective_priority now e < effective_priority now d
  \/ effective_priority now d = effective_priority now e
     /\ (d_available_at d < d_available_at e
         \/ d_available_at d = d_available_at e
            /\ (d_created_at d < d_created_at e
                \/ d_created_at d = d_created_at e /\ text_le (d_id d) (d_id e))).
#[global] Instance pull_before_dec now : RelDecision (pull_before now).
Proof. unfold pull_before, RelDecision. apply _. Defined.

(** [JOIN events e ON e.id=d.event_id] and [FOR UPDATE OF d SKIP LOCKED LIMIT $4]. *)
Definition join_event (db : QueueDB) (d : Delivery) : option (Delivery * EventRow) :=
  (fun e => (d, e)) <$> events db !! d_event_id d.
Definition unlocked (locked : gset string) (p : Delivery * EventRow) : bool :=
  negb (bool_decide (d_id p.1 ∈ locked)).
Definition ranked (sub : string) (now : Z) (mode : QueueOrderingMode) (db : QueueDB)
    : list Delivery :=
  merge_sort (pull_before now) (select_where (eligible sub now mode db) (queue_deliveries db)).
Definition candidates (sub : string) (now : Z) (mode : QueueOrderingMode) (limit : Z)
    (locked : gset string) (db : QueueDB) : list (Delivery * EventRow) :=
  take (Z.to_nat limit) (List.filter (unlocked locked)
    (omap (join_event db) (ranked sub now mode db))).

Definition select_candidates (sub : string) (now : Z) (mode : QueueOrderingMode) (limit : Z)
    : M_queue (list (Delivery * EventRow)) :=
  exec (fun locked db => if limit <? 0 then Err DriverError
                         else Ok (candidates sub now mode limit locked db, db)).

(** [UPDATE queue_deliveries SET status='in_flight' ... WHERE id=$1] *)
Definition lease_row (attempt : Z) (hash : string) (now expires max : Z) (d : Delivery) : Delivery :=
  with_lease d InFlight attempt (d_available_at d) (Some hash) (Some now) (Some expires)
    (Some max) (d_last_reason d) now.
Definition lease_update (id : string) (attempt : Z) (hash : string) (now expires max : Z)
    (db : QueueDB) : QueueDB :=
  set_deliveries (alter (lease_row attempt hash now expires max) id (queue_deliveries db)) db.

Definition do_insert_attempt (k : AttemptKey) (a : AttemptInfo) : M_queue unit :=
  exec (fun _ db => match insert_attempt k a db with Ok db' => Ok (tt, db') | Err e => Err e end).

Definition event_of_row (e : EventRow) : Event :=
  mkEvent (er_id e) (er_type e) (er_source_app_id e) (er_target_app_ids e) (er_data e)
    (er_created_at e) None.

(** One turn of the loop over the selected rows. *)
Definition lease_one (request : QueuePullRequest) (visibility totalLease : Z)
    (item : Delivery * EventRow) (receipt : string) : M_queue QueueDelivery :=
  let '(d, e) := item in
  let now := pr_Now request in
  let leaseExpires := now + visibility in
  let leaseMax := now + totalLease in
  let attempt := d_attempts d + 1 in
  update (fun db => (tt, lease_update (d_id d) attempt (queueReceiptHash receipt) now
                           leaseExpires leaseMax db));;
  do_insert_attempt (d_id d, d_generation d, attempt, Leased) (mkAttempt None now);;
  mret (mkQueueDelivery (d_id d) (pr_SubscriptionID request) (event_of_row e) receipt attempt
          (d_generation d) leaseExpires (queueStringValue (d_ordering_key d)) (d_priority d)
          (d_metadata d)).

Fixpoint lease_all (request : QueuePullRequest) (visibility totalLease : Z)
    (selected : list (Delivery * EventRow)) (receipts : list string)
    : M_queue (list QueueDelivery) :=
  match selected, receipts with
  | [], _ => mret []
  | _ :: _, [] => fail StoreConflict
  | item :: selected, receipt :: receipts =>
      first ← lease_one request visibility totalLease item receipt;
      rest ← lease_all request visibility totalLease selected receipts;
      mret (first :: rest)
  end.

Definition pull_visibility (request : QueuePullRequest) (s : QueueSubscription) : Z :=
  let visibility := pr_Visibility request in
  let visibility := if visibility <=? 0 then seconds (sub_DefaultVisibilitySeconds s)
                    else visibility in
  let maxVisibility := seconds (sub_MaxVisibilitySeconds s) in
  if maxVisibility <? visibility then maxVisibility else visibility.

(** The part of the function after the capacity checks. *)
Definition pull_selected (request : QueuePullRequest) (s : QueueSubscription) (limit : Z)
    : M_queue (list QueueDelivery) :=
  selected ← select_candidates (pr_SubscriptionID request) (pr_Now request)
               (sub_OrderingMode s) limit;
  result ← lease_all request (pull_visibility request s)
             (seconds (sub_MaxTotalLeaseSeconds s)) selected (pr_Receipts request);
  commit;;
  mret result.

Definition pull_dispatch (request : QueuePullRequest) (s : QueueSubscription) (limit : Z)
    : M_queue (list QueueDelivery) :=
  match sub_MaxDispatchRate s with
  | None => pull_selected request s limit
  | Some rate =>
      recentlyDispatched ← query (dispatched_count (pr_SubscriptionID request) (pr_Now request));
      let rateCapacity := rate - recentlyDispatched in
      if rateCapacity <=? 0 then commit;; mret []
      else pull_selected request s (if rateCapacity <? limit then rateCapacity else limit)
  end.

Definition pull_reclaim (request : QueuePullRequest) (s : QueueSubscription) : M_queue unit :=
  let sub := pr_SubscriptionID request in
  let now := pr_Now request in
  update (fun db => (tt, reclaim sub (sub_MaxAttempts s) (sub_RetryDelaySeconds s) now db));;
  match sub_FailureCallbackURL s with
  | Some url => exec (fun _ => failure_callbacks sub url (sub_ResultCallbackMetadata s) now)
  | None => mret tt
  end;;
  update (fun db => (tt, expire sub now db)).

Definition PullQueueDeliveries (request : QueuePullRequest) : M_queue (list QueueDelivery) :=
  transaction (
    begin;;
    subscription ← scanQueueSubscription (pr_AppID request) (pr_SubscriptionID request);
    if isSome (sub_DrainingAt subscription) then commit;; mret []
    else if negb (sub_Enabled subscription) || isSome (sub_PausedAt subscription)
    then fail StoreConflict
    else
      let limit := if sub_MaxBatchSize subscription <? pr_Limit request
                   then sub_MaxBatchSize subscription else pr_Limit request in
      pull_reclaim request subscription;;
      inFlight ← query (in_flight_count (pr_SubscriptionID request));
      let capacity := sub_MaxInFlight subscription - inFlight in
      if capacity <=? 0 then commit;; mret []
      else pull_dispatch request subscription (if capacity <? limit then capacity else limit)).

(** ** Settling *)

Definition callback_outcome_text (o : CallbackOutcome) : string :=
  match o with CbSuccess => "success" | CbFailure => "failure" end.
Definition nul : string := String.String (Ascii.ascii_of_nat 0) "".

(** [payload] is always encodable: the metadata comes from a jsonb column. *)
Definition insertQueueResultCallback (s : QueueSubscription) (deliveryID eventID : string)
    (generation attempts : Z) (status : DeliveryStatus) (now : Z) : M_queue unit :=
  let '(outcome, callbackURL) :=
    if bool_decide (status = DeadLetter) then (CbFailure, sub_FailureCallbackURL s)
    else (CbSuccess, sub_SuccessCallbackURL s) in
  match callbackURL with
  | None => mret tt
  | Some url =>
      let payload := mkPayload (sub_AppID s) (sub_ID s) deliveryID eventID generation outcome
                       attempts (sub_ResultCallbackMetadata s) in
      let digest := sha256 (deliveryID ++ nul ++ callback_outcome_text outcome ++ nul
                            ++ Time_String (generation * Second))%string in
      let id := ("qcb_" ++ hex_EncodeToString (of_bytes (take 16 (bytes digest))))%string in
      exec (fun _ db =>
        match insert_callback (new_callback id (sub_AppID s) (sub_ID s) deliveryID eventID
                generation outcome url payload now) (queue_result_callbacks db) with
        | Ok t => Ok (tt, set_callbacks t db)
        | Err e => Err e
        end)
  end.

(** [receipt_hash=$3 AND status='in_flight' AND lease_expires_at>$7] *)
Definition holds_lease (appID sub hash : string) (now : Z) (d : Delivery) : bool :=
  in_subscription sub d && bool_decide (d_app_id d = appID) && null_eq (d_receipt_hash d) hash
  && is_status InFlight d && null_gt (d_lease_expires_at d) now.

Definition next_status (settlement : QueueSettlement) : option DeliveryStatus :=
  match st_Disposition settlement with
  | QueueAcknowledge => Some Acked
  | QueueRetry => Some Available
  | QueueToDeadLetter => Some DeadLetter
  | QueueDispositionOther _ => None
  end.
Definition settle_available_at (settlement : QueueSettlement) (now : Z) : Z :=
  match st_Disposition settlement with QueueRetry => now + st_Delay settlement | _ => now end.

Definition settle_row (next : DeliveryStatus) (available_at : Z) (reason : string)
    (now maxAttempts : Z) (d : Delivery) : Delivery :=
  if bool_decide (next = Available) && (maxAttempts <=? d_attempts d)
  then release d DeadLetter available_at (Some "max_attempts_exhausted") now
  else release d next available_at (nullif_empty reason) now.

(** The update and its [RETURNING] row, if there is one. *)
Definition settle_update (appID sub hash : string) (next : DeliveryStatus) (available_at : Z)
    (reason : string) (now maxAttempts : Z) (db : QueueDB) : option Delivery * QueueDB :=
  let hit := holds_lease appID sub hash now in
  let row := settle_row next available_at reason now maxAttempts in
  (row <$> head (select_where hit (queue_deliveries db)),
   set_deliveries (update_where hit row (queue_deliveries db)) db).

Definition settled_outcome (disposition : QueueSettlementDisposition) (status : DeliveryStatus)
    (reason : string) : Outcome * string :=
  match disposition with
  | QueueRetry => if bool_decide (status = DeadLetter)
                  then (OutDeadLetter, "max_attempts_exhausted") else (OutRetry, reason)
  | QueueToDeadLetter => (OutDeadLetter, reason)
  | _ => (OutAck, reason)
  end.

Definition settle_one (s : QueueSubscription) (appID subscriptionID : string) (now : Z)
    (settlement : QueueSettlement) : M_queue QueueSettlementResult :=
  match next_status settlement with
  | None => mret (mkSettlementResult (st_Receipt settlement) InvalidReceipt)
  | Some nextStatus =>
      returned ← update (settle_update appID subscriptionID
        (queueReceiptHash (st_Receipt settlement)) nextStatus
        (settle_available_at settlement now) (st_Reason settlement) now (sub_MaxAttempts s));
      match returned with
      | None => mret (mkSettlementResult (st_Receipt settlement) InvalidReceipt)
      | Some d =>
          let '(outcome, reason) :=
            settled_outcome (st_Disposition settlement) (d_status d) (st_Reason settlement) in
          do_insert_attempt (d_id d, d_generation d, d_attempts d, outcome)
            (mkAttempt (nullif_empty reason) now);;
          (if bool_decide (d_status d = Acked) || bool_decide (d_status d = DeadLetter)
           then insertQueueResultCallback s (d_id d) (d_event_id d) (d_generation d)
                  (d_attempts d) (d_status d) now
           else mret tt);;
          mret (mkSettlementResult (st_Receipt settlement) (Persisted (d_status d)))
      end
  end.

Definition SettleQueueDeliveries (appID subscriptionID : string)
    (settlements : list QueueSettlement) (now : Z) : M_queue (list QueueSettlementResult) :=
  transaction (
    begin;;
    subscription ← scanQueueSubscription appID subscriptionID;
    results ← mapM_ (settle_one subscription appID subscriptionID now) settlements;
    commit;;
    mret results).

(** ** Extending leases *)

Definition microseconds (duration : Z) : Z := Z.quot duration 1000.

Definition extend_row (extension now : Z) (d : Delivery) : Delivery :=
  with_lease d (d_status d) (d_attempts d) (d_available_at d) (d_receipt_hash d)
    (d_lease_started_at d)
    (match d_lease_expires_at d, d_lease_max_expires_at d with
     | Some expires, Some max => Some (Z.min (expires + microseconds extension * 1000) max)
     | Some expires, None => Some (expires + microseconds extension * 1000)
     | None, max => max
     end)
    (d_lease_max_expires_at d) (d_last_reason d) now.

Definition extend_one (appID subscriptionID : string) (now : Z) (extension : QueueLeaseExtension)
    : M_queue QueueSettlementResult :=
  let hit := holds_lease appID subscriptionID (queueReceiptHash (ext_Receipt extension)) now in
  affected ← update (fun db =>
    (count_where hit (queue_deliveries db),
     set_deliveries (update_where hit (extend_row (ext_Extension extension) now)
                       (queue_deliveries db)) db));
  mret (mkSettlementResult (ext_Receipt extension)
          (if affected =? 1 then Extended else InvalidReceipt)).

Definition ExtendQueueLeases (appID subscriptionID : string)
    (extensions : list QueueLeaseExtension) (now : Z) : M_queue (list QueueSettlementResult) :=
  transaction (
    begin;;
    scanQueueSubscription appID subscriptionID;;
    results ← mapM_ (extend_one appID subscriptionID now) extensions;
    commit;;
    mret results).

(** ** Depth and dead letters *)

Definition ready (now : Z) (d : Delivery) : bool :=
  is_status Available d && (d_available_at d <=? now).

Definition min_option (x : Z) (acc : option Z) : option Z :=
  match acc with Some y => Some (Z.min x y) | None => Some x end.

(** [FROM queue_deliveries d JOIN queue_subscriptions s ... WHERE s.app_id=$1 AND s.id=$2] *)
Definition owned (appID sub : string) (db : QueueDB) (d : Delivery) : bool :=
  in_subscription sub d && isSome (get_subscription appID sub db).

Definition queue_depth (appID sub : string) (now : Z) (db : QueueDB) : QueueDepth :=
  let count p := count_where (fun d => owned appID sub db d && p d) (queue_deliveries db) in
  mkDepth (count (ready now)) (count (is_status InFlight)) (count (is_status Acked))
    (count (is_status DeadLetter))
    (foldr min_option None (d_available_at <$>
       select_where (fun d => owned appID sub db d && ready now d) (queue_deliveries db))).

Definition QueueDepth_ (appID subscriptionID : string) (now : Z) : M_queue QueueDepth :=
  query (queue_depth appID subscriptionID now).

Definition dead_letter_of (d : Delivery) : QueueDeadLetter :=
  mkDeadLetter (d_id d) (d_subscription_id d) (d_event_id d) (d_attempts d) (d_generation d)
    (coalesce_empty (d_last_reason d)) (d_updated_at d).

Definition by_id (d e : Delivery) : Prop := text_le (d_id d) (d_id e).
#[global] Instance by_id_dec : RelDecision by_id.
Proof. unfold by_id, RelDecision. apply _. Defined.

Definition after_cursor (cursor : string) (d : Delivery) : bool :=
  bool_decide (cursor = "") || bool_decide (text_lt cursor (d_id d)).

Definition dead_letter_page (appID sub cursor : string) (limit : Z) (db : QueueDB)
    : list QueueDeadLetter :=
  dead_letter_of <$> take (Z.to_nat limit) (merge_sort by_id
    (select_where (fun d => owned appID sub db d && is_status DeadLetter d
                            && after_cursor cursor d) (queue_deliveries db))).

Definition ListQueueDeadLetters (appID subscriptionID : string) (q : QueueDeadLetterQuery)
    : M_queue (list QueueDeadLetter) :=
  exec (fun _ db => if dlq_Limit q <? 0 then Err DriverError
                    else Ok (dead_letter_page appID subscriptionID (dlq_Cursor q) (dlq_Limit q) db, db)).

Definition chosen_dead_letter (appID sub : string) (ids : list string) (db : QueueDB)
    (d : Delivery) : bool :=
  owned appID sub db d && bool_decide (d_id d ∈ ids) && is_status DeadLetter d.

Definition replay_row (now : Z) (d : Delivery) : Delivery :=
  mkDelivery (d_id d) (d_subscription_id d) (d_app_id d) (d_event_id d) (d_generation d + 1)
    Available 0 now None None None None (d_ordering_key d) (d_priority d) (d_metadata d)
    None (d_created_at d) now (d_expires_at d).

Definition ReplayQueueDeadLetters (appID subscriptionID : string) (ids : list string) (now : Z)
    : M_queue Z :=
  update (fun db =>
    let hit := chosen_dead_letter appID subscriptionID ids db in
    (count_where hit (queue_deliveries db),
     set_deliveries (update_where hit (replay_row now) (queue_deliveries db)) db)).

Definition DeleteQueueDeadLetters (appID subscriptionID : string) (ids : list string)
    : M_queue Z :=
  update (fun db =>
    let hit := chosen_dead_letter appID subscriptionID ids db in
    (count_where hit (queue_deliveries db),
     keep_deliveries (fun d => negb (hit d)) db)).

End store.
