(* ===== verification/QueueLifecycle.v ===== *)
(** * The life of a queue delivery

    An abstract specification of one row of [queue_deliveries]: the steps a
    delivery may take, whatever operation causes them, first on the row and then, as
    [life_step], without the columns. The theorems about the
    operations show that each of them moves every row along such steps; what
    holds of every path of the machine then holds of the code. *)

From S2P Require Import Prelude GoLib Crypto Json Domain QueueSchema QueueStore.

(** The CHECK constraints of [queue_deliveries] in migration 015. *)
Definition delivery_check (d : Delivery) : bool :=
  (0 <? d_generation d) && (0 <=? d_attempts d) && between (-10) (d_priority d) 10
  && Bool.eqb (is_status InFlight d) (isSome (d_receipt_hash d))
  && Bool.eqb (isNone (d_receipt_hash d)) (isNone (d_lease_started_at d))
  && Bool.eqb (isNone (d_receipt_hash d)) (isNone (d_lease_expires_at d))
  && Bool.eqb (isNone (d_receipt_hash d)) (isNone (d_lease_max_expires_at d)).

(** A lease never outlives its total bound. *)
Definition lease_bounded (d : Delivery) : bool :=
  match d_lease_expires_at d, d_lease_max_expires_at d with
  | Some expires, Some max => expires <=? max
  | _, _ => true
  end.

Definition delivery_ok (d : Delivery) : bool := delivery_check d && lease_bounded d.

(** A row as publishing or a schedule inserts it: column defaults of migration 015. *)
Definition fresh_delivery (d : Delivery) : Prop :=
  d_generation d = 1 /\ d_status d = Available /\ d_attempts d = 0
  /\ d_receipt_hash d = None /\ d_lease_started_at d = None /\ d_lease_expires_at d = None
  /\ d_lease_max_expires_at d = None /\ d_last_reason d = None
  /\ between (-10) (d_priority d) 10 = true.

(** ** The machine *)

Inductive row_update : Delivery -> Delivery -> Prop :=
| step_lease d hash now expires max :
    d_status d = Available -> expires <= max ->
    row_update d (lease_row (d_attempts d + 1) hash now expires max d)
| step_extend d extension now :
    d_status d = InFlight -> row_update d (extend_row extension now d)
| step_release d status available_at reason now :
    d_status d = InFlight -> status <> InFlight ->
    row_update d (release d status available_at reason now)
| step_expire d now :
    d_status d = Available -> row_update d (expire_row now d)
| step_replay d now :
    d_status d = DeadLetter -> row_update d (replay_row now d).

#[export] Hint Constructors row_update : relay.
#[export] Hint Resolve rtc_refl rtc_once : relay.

(** ** What every path preserves *)

Lemma delivery_ok_lease d :
  delivery_ok d = true ->
  (d_status d = InFlight ->
     exists h s e m, d_receipt_hash d = Some h /\ d_lease_started_at d = Some s
       /\ d_lease_expires_at d = Some e /\ d_lease_max_expires_at d = Some m /\ e <= m)
  /\ (d_status d <> InFlight ->
     d_receipt_hash d = None /\ d_lease_started_at d = None
       /\ d_lease_expires_at d = None /\ d_lease_max_expires_at d = None).
Proof.
  unfold delivery_ok, delivery_check, lease_bounded, is_status, isSome.
  destruct (d_receipt_hash d), (d_lease_started_at d), (d_lease_expires_at d),
    (d_lease_max_expires_at d); simpl; intros; bool_to_prop; destruct_and?;
    try done; case_bool_decide; simpl in *; try done.
  split; [|done]. intros _. bool_to_prop. eauto 10.
Qed.

Lemma delivery_ok_bounds d :
  delivery_ok d = true -> 0 < d_generation d /\ 0 <= d_attempts d /\ -10 <= d_priority d <= 10.
Proof.
  unfold delivery_ok, delivery_check, between. intros. bool_to_prop. naive_solver.
Qed.

(** A row outside a lease: the shape [release], [replay_row] and inserts leave. *)
Lemma delivery_ok_idle d :
  0 < d_generation d -> 0 <= d_attempts d -> -10 <= d_priority d <= 10 ->
  d_status d <> InFlight -> d_receipt_hash d = None -> d_lease_started_at d = None ->
  d_lease_expires_at d = None -> d_lease_max_expires_at d = None -> delivery_ok d = true.
Proof.
  intros Hg Ha Hp Hs H1 H2 H3 H4.
  unfold delivery_ok, delivery_check, lease_bounded, between, is_status.
  rewrite H1, H2, H3, H4, bool_decide_eq_false_2 by done. simpl.
  bool_to_prop. lia.
Qed.

Lemma delivery_ok_leased d attempts av h s e m reason now :
  0 < d_generation d -> 0 <= attempts -> -10 <= d_priority d <= 10 -> e <= m ->
  delivery_ok (with_lease d InFlight attempts av (Some h) (Some s) (Some e) (Some m) reason now)
  = true.
Proof.
  intros. unfold delivery_ok, delivery_check, lease_bounded, between, is_status. simpl.
  bool_to_prop. lia.
Qed.

(** Every step keeps the CHECK constraints and the lease bound. *)
Lemma row_update_ok d d' : row_update d d' -> delivery_ok d = true -> delivery_ok d' = true.
Proof.
  intros Hstep Hok.
  pose proof (delivery_ok_bounds _ Hok) as (? & ? & ?).
  pose proof (delivery_ok_lease _ Hok) as [Hin Hout].
  destruct Hstep as [d ???? Hs ?|d ?? Hs|d ???? Hs ?|d ? Hs|d ? Hs].
  - apply delivery_ok_leased; lia.
  - destruct Hin as (h & s & e & m & Hh & Hst & He & Hm & Hle); [done|].
    unfold extend_row. rewrite Hh, Hst, He, Hm, Hs. apply delivery_ok_leased; lia.
  - apply delivery_ok_idle; simpl; try lia; done.
  - destruct Hout as (? & ? & ? & ?); [congruence|].
    apply delivery_ok_idle; simpl; try lia; done.
  - apply delivery_ok_idle; simpl; try lia; done.
Qed.

Lemma fresh_delivery_ok d : fresh_delivery d -> delivery_ok d = true.
Proof.
  unfold fresh_delivery, between. intros. destruct_and!. bool_to_prop.
  apply delivery_ok_idle; try lia; try done; congruence.
Qed.

(** Identity columns never change while the row exists. *)
Definition same_identity (d d' : Delivery) : Prop :=
  d_id d' = d_id d /\ d_subscription_id d' = d_subscription_id d /\ d_app_id d' = d_app_id d
  /\ d_event_id d' = d_event_id d /\ d_ordering_key d' = d_ordering_key d
  /\ d_priority d' = d_priority d /\ d_created_at d' = d_created_at d
  /\ d_expires_at d' = d_expires_at d.

#[export] Instance same_identity_preorder : PreOrder same_identity.
Proof.
  split; unfold same_identity.
  - intros d. split_and!; reflexivity.
  - intros d1 d2 d3 H1 H2. destruct_and!. split_and!; congruence.
Qed.

(** (generation, attempts) grow lexicographically. *)
Definition progress_le (d d' : Delivery) : Prop :=
  d_generation d < d_generation d'
  \/ d_generation d = d_generation d' /\ d_attempts d <= d_attempts d'.

#[export] Instance progress_le_preorder : PreOrder progress_le.
Proof. split; unfold progress_le; repeat intro; lia. Qed.

Lemma row_update_progress d d' : row_update d d' -> same_identity d d' /\ progress_le d d'.
Proof.
  destruct 1; split; unfold same_identity, progress_le; simpl;
    try (split_and!; reflexivity); lia.
Qed.

(** An attempt recorded for the row [d]: of an earlier generation, or not later
    than the current attempt, and a row in flight has recorded nothing but the
    lease for its current attempt. *)
Definition attempt_fits (d : Delivery) (generation attempt : Z) (outcome : Outcome) : Prop :=
  generation <= d_generation d
  /\ (generation = d_generation d ->
      attempt <= d_attempts d
      /\ (d_status d = InFlight -> attempt = d_attempts d -> outcome = Leased)).

Lemma row_update_attempts d d' g a o :
  row_update d d' -> attempt_fits d g a o -> attempt_fits d' g a o.
Proof.
  unfold attempt_fits.
  destruct 1 as [d ???? Hs ?|d ?? Hs|d ???? Hs ?|d ? Hs|d ? Hs]; simpl; intros [? Hf];
    split; try lia; intros; destruct Hf as [? Hf]; try lia; split; try lia; try done.
Qed.

(** ** The life of a delivery, without its columns

    A delivery waits, is leased under a receipt until a time that may be moved up to a
    limit, is done, or is dead; attempts are counted within a generation. *)
Inductive life_phase := Waits | IsLeased (receipt : string) (expires limit : Z) | Done | Dead.
Record life := mkLife { lf_generation : Z; lf_attempts : Z; lf_phase : life_phase }.
Inductive life_step : life -> life -> Prop :=
| life_lease g a receipt expires limit : expires <= limit -> life_step (mkLife g a Waits) (mkLife g (a + 1) (IsLeased receipt expires limit))
| life_extend g a receipt expires expires' limit : expires' <= limit ->
    life_step (mkLife g a (IsLeased receipt expires limit)) (mkLife g a (IsLeased receipt expires' limit))
| life_release g a receipt expires limit phase : phase ∈ [Waits; Done; Dead] ->
    life_step (mkLife g a (IsLeased receipt expires limit)) (mkLife g a phase)
| life_expire g a : life_step (mkLife g a Waits) (mkLife g a Dead)
| life_replay g a : life_step (mkLife g a Dead) (mkLife (g + 1) 0 Waits).
Definition life_start : life := mkLife 1 0 Waits.
Definition life_of (d : Delivery) : life :=
  mkLife (d_generation d) (d_attempts d)
    match d_status d with
    | Available => Waits
    | InFlight => IsLeased (default "" (d_receipt_hash d)) (default 0 (d_lease_expires_at d)) (default 0 (d_lease_max_expires_at d))
    | Acked => Done
    | DeadLetter => Dead
    end.

Lemma row_update_life d d' : row_update d d' -> delivery_ok d = true -> life_step (life_of d) (life_of d').
Proof.
  intros Hstep Hok. pose proof (delivery_ok_lease _ Hok) as [Hin _].
  destruct Hstep as [d hash now e m Hs He|d ext now Hs|d st av reason now Hs Hst|d now Hs|d now Hs]; unfold life_of; cbn; rewrite Hs.
  - by constructor.
  - destruct (Hin Hs) as (h & s & e & m & -> & _ & -> & -> & _). cbn. constructor. lia.
  - constructor. destruct st; set_solver.
  - constructor.
  - constructor.
Qed.
Lemma rtc_update_life d d' : rtc row_update d d' -> delivery_ok d = true -> rtc life_step (life_of d) (life_of d').
Proof. induction 1 as [|d1 d2 d3 H _ IH]; [done|]. intros Hok. eapply rtc_l; [by apply row_update_life|]. apply IH. by eapply row_update_ok. Qed.
Lemma fresh_life d : fresh_delivery d -> life_of d = life_start.
Proof. unfold fresh_delivery, life_of, life_start. intros (-> & -> & -> & _). done. Qed.

(** ** Tables moved row by row *)

Definition rows_moved (T T' : gmap string Delivery) : Prop :=
  forall id, option_Forall2 (rtc row_update) (T !! id) (T' !! id).

#[export] Instance rows_moved_preorder : PreOrder rows_moved.
Proof.
  split.
  - intros T id. destruct (T !! id); constructor. apply rtc_refl.
  - intros T1 T2 T3 H1 H2 id. specialize (H1 id). specialize (H2 id).
    destruct H1; inversion H2; subst; constructor. by etrans.
Qed.

Lemma rtc_update_facts d d' :
  rtc row_update d d' ->
  same_identity d d' /\ progress_le d d' /\ (delivery_ok d = true -> delivery_ok d' = true)
  /\ (forall g a o, attempt_fits d g a o -> attempt_fits d' g a o).
Proof.
  induction 1 as [d|d1 d2 d3 H _ (IH1 & IH2 & IH3 & IH4)]; [split_and!; done|].
  apply row_update_progress in H as Hp. destruct Hp as [Hi Hp].
  split_and!; [by etrans|by etrans|..]; eauto using row_update_ok, row_update_attempts.
Qed.

Lemma rows_moved_bwd T T' id d' :
  rows_moved T T' -> T' !! id = Some d' -> exists d, T !! id = Some d /\ rtc row_update d d'.
Proof. intros Hm Hd. specialize (Hm id). rewrite Hd in Hm. inversion Hm. eauto. Qed.

Lemma rows_moved_fwd T T' id d :
  rows_moved T T' -> T !! id = Some d -> exists d', T' !! id = Some d' /\ rtc row_update d d'.
Proof. intros Hm Hd. specialize (Hm id). rewrite Hd in Hm. inversion Hm. eauto. Qed.

(** [UPDATE ... WHERE p] moves a table if every row that is hit takes a step. *)
Lemma update_where_moved p f T :
  (forall id d, T !! id = Some d -> p d = true -> row_update d (f d)) ->
  rows_moved T (update_where p f T).
Proof.
  intros Hf id. rewrite lookup_update_where. destruct (T !! id) as [d|] eqn:E; constructor.
  destruct (p d) eqn:Hp; [|apply rtc_refl]. eapply rtc_once, Hf; eauto.
Qed.

Lemma alter_moved f k T :
  (forall d, T !! k = Some d -> row_update d (f d)) -> rows_moved T (alter f k T).
Proof.
  intros Hf id. destruct (decide (k = id)) as [<-|Hne].
  - rewrite lookup_alter_eq. destruct (T !! k) eqn:E; constructor. by apply rtc_once, Hf.
  - rewrite lookup_alter_ne by done. destruct (T !! id); constructor. apply rtc_refl.
Qed.

(** An acknowledged row takes no further step. *)
Lemma acked_final d d' : d_status d = Acked -> rtc row_update d d' -> d' = d.
Proof.
  intros Ha Hs. apply rtc_inv in Hs as [<-|(o' & H1 & _)]; [done|].
  inversion H1; congruence.
Qed.

(** ** The invariant of the delivery tables *)

Record delivery_inv (db : QueueDB) : Prop := {
  inv_key : forall k d, queue_deliveries db !! k = Some d -> d_id d = k;
  inv_ok : forall k d, queue_deliveries db !! k = Some d -> delivery_ok d = true;
  inv_owner : forall k d, queue_deliveries db !! k = Some d ->
    exists s, queue_subscriptions db !! d_subscription_id d = Some s
              /\ sub_AppID s = d_app_id d;
  inv_event : forall k d, queue_deliveries db !! k = Some d ->
    is_Some (events db !! d_event_id d);
  inv_unique : forall k k' d d',
    queue_deliveries db !! k = Some d -> queue_deliveries db !! k' = Some d' ->
    d_subscription_id d = d_subscription_id d' -> d_event_id d = d_event_id d' -> k = k';
  inv_attempts : forall id g a o i,
    queue_delivery_attempts db !! (id, g, a, o) = Some i ->
    exists d, queue_deliveries db !! id = Some d /\ attempt_fits d g a o;
  inv_subs : forall k s, queue_subscriptions db !! k = Some s ->
    sub_ID s = k /\ subscription_check s = true
}.

(** Moving rows and recording attempts that fit keeps the invariant. *)
Lemma delivery_inv_moved db db' :
  delivery_inv db ->
  queue_subscriptions db' = queue_subscriptions db -> events db' = events db ->
  rows_moved (queue_deliveries db) (queue_deliveries db') ->
  (forall id g a o i, queue_delivery_attempts db' !! (id, g, a, o) = Some i ->
     is_Some (queue_delivery_attempts db !! (id, g, a, o))
     \/ exists d, queue_deliveries db' !! id = Some d /\ attempt_fits d g a o) ->
  delivery_inv db'.
Proof.
  intros Hinv Hsub Hev Hmoved Hatt.
  assert (forall k d', queue_deliveries db' !! k = Some d' ->
    exists d, queue_deliveries db !! k = Some d /\ same_identity d d'
      /\ delivery_ok d' = true) as Hback.
  { intros k d' Hd'. destruct (rows_moved_bwd _ _ _ _ Hmoved Hd') as (d & Hd & Hs).
    apply rtc_update_facts in Hs as (Hi & _ & Hok & _).
    exists d. split_and!; [done..|]. by eapply Hok, inv_ok. }
  split.
  - intros k d' (d & Hd & (-> & _) & _)%Hback. by eapply inv_key.
  - by intros k d' (d & _ & _ & ?)%Hback.
  - intros k d' (d & Hd & (_ & -> & -> & _) & _)%Hback. rewrite Hsub. by eapply inv_owner.
  - intros k d' (d & Hd & (_ & _ & _ & -> & _) & _)%Hback. rewrite Hev. by eapply inv_event.
  - intros k1 k2 d1' d2' (d1 & Hd1 & (_ & -> & _ & -> & _) & _)%Hback
      (d2 & Hd2 & (_ & -> & _ & -> & _) & _)%Hback. by eapply inv_unique.
  - intros id g a o i Hi. destruct (Hatt _ _ _ _ _ Hi) as [[i0 H0]|?]; [|done].
    destruct (inv_attempts _ Hinv _ _ _ _ _ H0) as (d & Hd & Hfit).
    destruct (rows_moved_fwd _ _ _ _ Hmoved Hd) as (d' & Hd' & Hs).
    apply rtc_update_facts in Hs as (_ & _ & _ & Hf). eauto.
  - rewrite Hsub. apply inv_subs, Hinv.
Qed.

(** ** An executable check of the invariant *)

Definition attempt_fits_b (d : Delivery) (generation attempt : Z) (outcome : Outcome) : bool :=
  (generation <=? d_generation d)
  && (negb (generation =? d_generation d)
      || (attempt <=? d_attempts d)
         && (negb (is_status InFlight d && (attempt =? d_attempts d))
             || bool_decide (outcome = Leased))).

Definition delivery_inv_b (db : QueueDB) : bool :=
  let T := map_to_list (queue_deliveries db) in
  forallb (fun kd : string * Delivery =>
    bool_decide (d_id kd.2 = kd.1) && delivery_ok kd.2
    && match queue_subscriptions db !! d_subscription_id kd.2 with
       | Some s => bool_decide (sub_AppID s = d_app_id kd.2)
       | None => false
       end
    && isSome (events db !! d_event_id kd.2)
    && forallb (fun kd' : string * Delivery =>
         negb (bool_decide (d_subscription_id kd.2 = d_subscription_id kd'.2)
               && bool_decide (d_event_id kd.2 = d_event_id kd'.2))
         || bool_decide (kd.1 = kd'.1)) T) T
  && forallb (fun ka : AttemptKey * AttemptInfo =>
       match queue_deliveries db !! ka.1.1.1.1 with
       | Some d => attempt_fits_b d ka.1.1.1.2 ka.1.1.2 ka.1.2
       | None => false
       end) (map_to_list (queue_delivery_attempts db))
  && forallb (fun ks : string * QueueSubscription =>
       bool_decide (sub_ID ks.2 = ks.1) && subscription_check ks.2)
       (map_to_list (queue_subscriptions db)).

Lemma forallb_entries `{Countable K} {V} (p : K * V -> bool) (m : gmap K V) k v :
  forallb p (map_to_list m) = true -> m !! k = Some v -> p (k, v) = true.
Proof.
  rewrite forallb_forall. intros Hall Hk. apply Hall, list_elem_of_In.
  by apply elem_of_map_to_list.
Qed.

Lemma attempt_fits_b_sound d g a o : attempt_fits_b d g a o = true -> attempt_fits d g a o.
Proof.
  unfold attempt_fits_b, attempt_fits, is_status. intros Hb. bool_to_prop.
  split; [lia|]. intros ->. destruct Hb as [_ [?|[? Hb]]]; [done|].
  split; [done|]. intros Hs Ha. destruct Hb as [[?|?]|?]; done.
Qed.

Lemma delivery_inv_b_sound db : delivery_inv_b db = true -> delivery_inv db.
Proof.
  unfold delivery_inv_b. rewrite !andb_true_iff. intros [[HT HA] HS].
  assert (forall k d, queue_deliveries db !! k = Some d -> _) as Hrow
    by exact (fun k d Hk => forallb_entries _ _ k d HT Hk).
  simpl in Hrow.
  split.
  - intros k d Hk%Hrow. bool_to_prop. tauto.
  - intros k d Hk%Hrow. bool_to_prop. tauto.
  - intros k d Hk%Hrow. bool_to_prop. destruct_and!. case_match; [|done].
    bool_to_prop. eauto.
  - intros k d Hk%Hrow. bool_to_prop. destruct_and!. unfold isSome, isNone in *.
    case_match; [by eexists|done].
  - intros k k' d d' Hk%Hrow Hk' Hs He. bool_to_prop. destruct_and!.
    match goal with Hf : forallb _ _ = true |- _ =>
      apply (forallb_entries _ _ _ _ Hf) in Hk' end.
    simpl in Hk'. bool_to_prop. tauto.
  - intros id g a o i Hi. apply (forallb_entries _ _ _ _ HA) in Hi. simpl in Hi.
    case_match; [|done]. eauto using attempt_fits_b_sound.
  - intros k s Hk. apply (forallb_entries _ _ _ _ HS) in Hk. simpl in Hk. bool_to_prop. tauto.
Qed.

(** * A small queue database for evaluating the operations

    One application with an ordered and a rate-limited subscription, used by
    the concrete instances of the theorems. *)

(** Postgres with the "C" collation. *)
#[export] Instance demo_postgres : Postgres := {
  text_le := String.le;
  to_jsonb s := if json_Valid s then Some s else None;
  md5 s := sha256_hex s
}.

Definition at_second (n : Z) : Z := (1700000000 + n) * Second.

Definition demo_subscription : QueueSubscription :=
  mkSubscription "sub_1" "app_a" "orders" true None None None None [] 3 60 300 3600
    604800 2 20 5 QueueOrderingKey 0 (Some 10) None None "{}" 1 (at_second 0) (at_second 0).

Definition demo_delivery (id event : string) (key : option string) (created : Z) : Delivery :=
  mkDelivery id "sub_1" "app_a" event 1 Available 0 (at_second created) None None None None
    key 0 "{}" None (at_second created) (at_second created) (at_second (created + 1000)).

Definition demo_event (id : string) : EventRow :=
  mkEventRow id "order.created" "app_s" ["app_a"] "{}" (at_second 1) (at_second 1001) None None
    0 "{}".

Definition demo_db : QueueDB :=
  mkQueueDB {["app_a"]} ∅
    (list_to_map [("evt_1", demo_event "evt_1"); ("evt_2", demo_event "evt_2");
                  ("evt_3", demo_event "evt_3")])
    {["sub_1" := demo_subscription]}
    (list_to_map [("qdl_1", demo_delivery "qdl_1" "evt_1" (Some "k") 1);
                  ("qdl_2", demo_delivery "qdl_2" "evt_2" (Some "k") 2);
                  ("qdl_3", demo_delivery "qdl_3" "evt_3" None 3)])
    ∅ ∅ ∅ ∅ ∅ ∅.

Definition world (db : QueueDB) : World QueueDB := mkWorld db [] ∅.

Definition demo_request (now : Z) (receipts : list string) : QueuePullRequest :=
  mkPullRequest "app_a" "sub_1" 10 0 (at_second now) receipts.

(** The state a run leaves, and its result. *)
Definition after {A} (m : M_queue A) (db : QueueDB) : QueueDB := w_db (m (world db)).2.
Definition result {A} (m : M_queue A) (db : QueueDB) : res A := (m (world db)).1.

Lemma demo_inv : delivery_inv demo_db.
Proof. apply delivery_inv_b_sound. vm_compute. reflexivity. Qed.

Lemma run_result {A} (m : M_queue A) db :
  m (world db) = (result m db, (m (world db)).2).
Proof. unfold result. by destruct (m (world db)). Qed.

(** The three deliveries after the first pull: the oldest of key [k] and the
    delivery without a key are leased. *)
Example demo_pull :
  (fun r => match r with Ok l => qd_ID <$> l | Err _ => [] end)
    (result (PullQueueDeliveries (demo_request 10 ["r1"; "r2"; "r3"])) demo_db)
  = ["qdl_1"; "qdl_3"].
Proof. vm_compute. reflexivity. Qed.
