(* ===== verification/QueuePull.v ===== *)
(** * Pulling: what [PullQueueDeliveries] does to the tables

    The successful runs of [PullQueueDeliveries], phase by phase (reclaim,
    retention, selection, leasing), and the theorems about what it returns. *)

From S2P Require Import Prelude GoLib Crypto Json Domain QueueSchema QueueStore.
From S2P Require Import QueueLifecycle.

Section pull.
Context `{Postgres}.

(** ** Reclaiming and retention *)

Lemma set_callbacks_id db : set_callbacks (queue_result_callbacks db) db = db.
Proof. by destruct db. Qed.

(** The state after the statements of [pull_reclaim]. *)
Definition reclaim_phase (request : QueuePullRequest) (s : QueueSubscription)
    (db db' : QueueDB) : Prop :=
  let sub := pr_SubscriptionID request in
  let now := pr_Now request in
  let db1 := reclaim sub (sub_MaxAttempts s) (sub_RetryDelaySeconds s) now db in
  exists t, match sub_FailureCallbackURL s with
            | None => t = queue_result_callbacks db1
            | Some url => insert_callbacks (failure_callback url (sub_ResultCallbackMetadata s) now
                            <$> select_where (exhausted_at sub now) (queue_deliveries db1))
                            (queue_result_callbacks db1) = Ok t
            end
            /\ db' = expire sub now (set_callbacks t db1).

Lemma pull_reclaim_run request s w u w' :
  pull_reclaim request s w = (Ok u, w') ->
  reclaim_phase request s (w_db w) (w_db w') /\ w_locked w' = w_locked w.
Proof.
  unfold pull_reclaim, reclaim_phase. intros Hrun. run_inv.
  match goal with
  | Hm : (match sub_FailureCallbackURL s with _ => _ end) ?w1 = (Ok _, ?w2) |- _ =>
      assert (w_locked w2 = w_locked w1 /\ exists t,
        match sub_FailureCallbackURL s with
        | None => t = queue_result_callbacks (w_db w1)
        | Some url => insert_callbacks (failure_callback url (sub_ResultCallbackMetadata s)
              (pr_Now request) <$> select_where (exhausted_at (pr_SubscriptionID request)
                (pr_Now request)) (queue_deliveries (w_db w1)))
              (queue_result_callbacks (w_db w1)) = Ok t
        end /\ w_db w2 = set_callbacks t (w_db w1)) as (Hl & t & Ht & Hdb)
  end.
  { destruct (sub_FailureCallbackURL s) as [url|]; run_inv.
    - unfold failure_callbacks in *. unfold after_call in *.
      destruct (insert_callbacks _ _) as [t|] eqn:E; simplify_eq.
      split; [tauto|]. eexists. split; [done|]. congruence.
    - split; [done|]. eexists. split; [done|]. by rewrite set_callbacks_id. }
  unfold after_call in *. simplify_eq. destruct_and!. split; [|congruence].
  match goal with Hr : reclaim _ _ _ _ _ = w_db _ |- _ => rewrite Hr end.
  exists t. split; congruence.
Qed.

(** Reclaiming releases leases; retention gives up on available rows. *)
Lemma reclaim_row_step maxAttempts retry now d :
  d_status d = InFlight -> row_update d (reclaim_row maxAttempts retry now d).
Proof. intros. unfold reclaim_row. case_match; by constructor. Qed.

Lemma reclaim_moved sub maxAttempts retry now db :
  rows_moved (queue_deliveries db) (queue_deliveries (reclaim sub maxAttempts retry now db)).
Proof.
  apply update_where_moved. intros id d _ Hhit. apply reclaim_row_step.
  unfold lease_expired, is_status in Hhit. bool_to_prop. tauto.
Qed.

Lemma expire_moved sub now db :
  rows_moved (queue_deliveries db) (queue_deliveries (expire sub now db)).
Proof.
  apply update_where_moved. intros id d _ Hhit. constructor.
  unfold retention_expired, is_status in Hhit. bool_to_prop. tauto.
Qed.

Lemma insert_do_nothing_lookup k a t k' i :
  insert_attempt_do_nothing k a t !! k' = Some i -> is_Some (t !! k') \/ k' = k.
Proof.
  unfold insert_attempt_do_nothing. destruct (t !! k) eqn:E; [eauto|].
  destruct (decide (k = k')) as [->|Hne]; [by right|].
  rewrite lookup_insert_ne by done. eauto.
Qed.

Lemma reclaim_attempts_lookup now l t k i :
  foldr (reclaim_attempt now) t l !! k = Some i ->
  is_Some (t !! k) \/ exists d, d ∈ l /\ k.1.1.1 = d_id d /\ k.1.1.2 = d_generation d
                               /\ k.1.2 = d_attempts d.
Proof.
  revert i. induction l as [|d l IH]; simpl; intros i Hi; [eauto|].
  apply insert_do_nothing_lookup in Hi as [[i' Hi]| ->].
  - apply IH in Hi as [?|(d' & ? & ?)]; [by left|]. right. exists d'. set_solver.
  - right. exists d. set_solver.
Qed.

Lemma reclaim_phase_inv request s db db' :
  reclaim_phase request s db db' -> delivery_inv db ->
  delivery_inv db' /\ rows_moved (queue_deliveries db) (queue_deliveries db')
  /\ queue_subscriptions db' = queue_subscriptions db /\ events db' = events db.
Proof.
  intros (t & _ & ->) Hinv.
  set (sub := pr_SubscriptionID request). set (now := pr_Now request).
  assert (delivery_inv (reclaim sub (sub_MaxAttempts s) (sub_RetryDelaySeconds s) now db))
    as Hinv1.
  { eapply delivery_inv_moved; [exact Hinv|done|done|apply reclaim_moved|].
    intros id g a o i [?|(d' & Hd' & Hk)]%reclaim_attempts_lookup; [by left|right].
    apply list_elem_of_fmap in Hd' as (d & -> & [Hhit [k Hk']]%elem_of_select).
    simpl in Hk. destruct Hk as (-> & -> & ->).
    assert (d_id d = k) as <- by (by eapply inv_key).
    exists (reclaim_row (sub_MaxAttempts s) (sub_RetryDelaySeconds s) now d). split.
    - simpl. rewrite lookup_update_where.
      replace (d_id (reclaim_row _ _ _ _)) with (d_id d)
        by (unfold reclaim_row; by case_match).
      rewrite Hk'. simpl. by rewrite Hhit.
    - unfold attempt_fits, reclaim_row. case_match; simpl; split; lia || done. }
  pose proof (reclaim_moved sub (sub_MaxAttempts s) (sub_RetryDelaySeconds s) now db) as Hm1.
  set (db1 := reclaim sub _ _ now db) in *.
  pose proof (expire_moved sub now (set_callbacks t db1)) as Hm2.
  split_and!; [|by etrans|done..].
  eapply delivery_inv_moved; [exact Hinv1|done|done|exact Hm2|]. simpl. eauto.
Qed.

(** What the phase does to one row. *)
Definition reclaimed (request : QueuePullRequest) (s : QueueSubscription) (d : Delivery) : Delivery :=
  let sub := pr_SubscriptionID request in
  let now := pr_Now request in
  let d1 := if lease_expired sub now d
            then reclaim_row (sub_MaxAttempts s) (sub_RetryDelaySeconds s) now d else d in
  if retention_expired sub now d1 then expire_row now d1 else d1.

Lemma reclaim_phase_lookup request s db db' id :
  reclaim_phase request s db db' ->
  queue_deliveries db' !! id = reclaimed request s <$> queue_deliveries db !! id.
Proof.
  intros (t & _ & ->). simpl. rewrite !lookup_update_where, <- option_fmap_compose.
  by destruct (queue_deliveries db !! id).
Qed.

(** ** Leasing the selected rows *)

Definition leased_row (request : QueuePullRequest) (visibility totalLease : Z) (d : Delivery)
    (receipt : string) : Delivery :=
  let now := pr_Now request in
  lease_row (d_attempts d + 1) (queueReceiptHash receipt) now (now + visibility)
    (now + totalLease) d.

Definition lease_key (d : Delivery) : AttemptKey :=
  (d_id d, d_generation d, d_attempts d + 1, Leased).

Definition lease_step (request : QueuePullRequest) (visibility totalLease : Z) (d : Delivery)
    (receipt : string) (db : QueueDB) : QueueDB :=
  let now := pr_Now request in
  set_attempts (<[lease_key d := mkAttempt None now]> (queue_delivery_attempts db))
    (lease_update (d_id d) (d_attempts d + 1) (queueReceiptHash receipt) now
       (now + visibility) (now + totalLease) db).

Definition delivered (request : QueuePullRequest) (visibility : Z)
    (item : Delivery * EventRow) (receipt : string) : QueueDelivery :=
  let '(d, e) := item in
  mkQueueDelivery (d_id d) (pr_SubscriptionID request) (event_of_row e) receipt
    (d_attempts d + 1) (d_generation d) (pr_Now request + visibility)
    (queueStringValue (d_ordering_key d)) (d_priority d) (d_metadata d).

Inductive leases (request : QueuePullRequest) (visibility totalLease : Z)
    : list (Delivery * EventRow) -> list string -> QueueDB -> QueueDB -> Prop :=
| leases_nil receipts db : leases request visibility totalLease [] receipts db db
| leases_cons d e sel receipt receipts db db' :
    queue_delivery_attempts db !! lease_key d = None ->
    leases request visibility totalLease sel receipts
      (lease_step request visibility totalLease d receipt db) db' ->
    leases request visibility totalLease ((d, e) :: sel) (receipt :: receipts) db db'.

Lemma lease_one_run request vis tot d e receipt w r w' :
  lease_one request vis tot (d, e) receipt w = (Ok r, w') ->
  r = delivered request vis (d, e) receipt
  /\ queue_delivery_attempts (w_db w) !! lease_key d = None
  /\ w_db w' = lease_step request vis tot d receipt (w_db w)
  /\ w_locked w' = w_locked w.
Proof.
  unfold lease_one, do_insert_attempt, insert_attempt. intros Hrun. run_inv.
  unfold after_call in *. simplify_eq. repeat case_match; simplify_eq.
  match goal with Hu : lease_update _ _ _ _ _ _ _ = w_db _ |- _ => rewrite <- Hu in * end.
  destruct_and!. split_and!; [done|done| |congruence].
  symmetry. done.
Qed.

Lemma lease_all_run request vis tot sel receipts w r w' :
  lease_all request vis tot sel receipts w = (Ok r, w') ->
  (length sel <= length receipts)%nat
  /\ r = zip_with (delivered request vis) sel receipts
  /\ leases request vis tot sel receipts (w_db w) (w_db w')
  /\ w_locked w' = w_locked w.
Proof.
  revert receipts w r. induction sel as [|[d e] sel IH]; intros receipts w r;
    cbn [lease_all].
  { intros. run_inv. split_and!; [simpl; lia|done|constructor|done]. }
  destruct receipts as [|receipt receipts]; intros Hrun; run_inv.
  match goal with Hl : lease_one _ _ _ _ _ _ = _ |- _ => apply lease_one_run in Hl end.
  match goal with Hl : lease_all _ _ _ _ _ _ = _ |- _ => apply IH in Hl end.
  destruct_and!. subst. split_and!; [simpl; lia|done| |congruence].
  constructor; [done|]. congruence.
Qed.

Lemma leases_skip request vis tot sel receipts db db' id :
  leases request vis tot sel receipts db db' ->
  id ∉ ((d_id ∘ fst) <$> sel) ->
  queue_deliveries db' !! id = queue_deliveries db !! id.
Proof.
  induction 1 as [|d e sel receipt receipts db db' Hf Hl IH]; [done|].
  simpl. intros [Hne Hni]%not_elem_of_cons. rewrite IH by done. simpl.
  by rewrite lookup_alter_ne.
Qed.

Lemma leases_hit request vis tot sel receipts db db' i d e receipt :
  leases request vis tot sel receipts db db' ->
  NoDup ((d_id ∘ fst) <$> sel) ->
  (forall d e, (d, e) ∈ sel -> queue_deliveries db !! d_id d = Some d) ->
  sel !! i = Some (d, e) -> receipts !! i = Some receipt ->
  queue_deliveries db' !! d_id d = Some (leased_row request vis tot d receipt).
Proof.
  intros Hl. revert i. induction Hl as [|d0 e0 sel r0 receipts db db' Hf Hl IH];
    intros i Hnd Hrows Hi Hr; [done|].
  simpl in Hnd. apply NoDup_cons in Hnd as [Hni Hnd]. destruct i as [|i]; simplify_eq/=.
  - erewrite leases_skip by done. simpl. rewrite lookup_alter_eq, (Hrows d e) by set_solver.
    done.
  - apply (IH i); [done| |done..]. intros d1 e1 Hin. simpl.
    rewrite lookup_alter_ne; [apply (Hrows d1 e1); set_solver|].
    intros Heq. apply Hni. rewrite Heq. apply list_elem_of_fmap. by exists (d1, e1).
Qed.

(** ** The selected rows *)

Lemma candidates_row sub now mode limit locked db d e :
  delivery_inv db -> (d, e) ∈ candidates sub now mode limit locked db ->
  queue_deliveries db !! d_id d = Some d /\ events db !! d_event_id d = Some e
  /\ eligible sub now mode db d = true /\ d_id d ∉ locked.
Proof.
  intros Hinv Hin. unfold candidates, ranked in Hin.
  eapply elem_of_sublist in Hin; [|apply sublist_take].
  apply elem_of_filter_list in Hin as [Hj Hu].
  apply list_elem_of_omap in Hj as (d' & Hd' & Hj). unfold join_event in Hj.
  destruct (events db !! d_event_id d') as [e'|] eqn:He; simplify_eq/=.
  rewrite merge_sort_Permutation in Hd'. apply elem_of_select in Hd' as [Hel [k Hk]].
  unfold unlocked in Hu. bool_to_prop.
  split_and!; [|done..]. by rewrite (inv_key _ Hinv _ _ Hk).
Qed.

Lemma ranked_NoDup sub now mode db :
  delivery_inv db -> NoDup (d_id <$> ranked sub now mode db).
Proof.
  intros Hinv. unfold ranked. rewrite merge_sort_Permutation.
  apply select_keys_NoDup, inv_key, Hinv.
Qed.

Lemma candidates_sublist sub now mode limit locked db :
  (candidates sub now mode limit locked db).*1 `sublist_of` ranked sub now mode db.
Proof.
  unfold candidates. etrans; [apply fmap_sublist, sublist_take|].
  etrans; [apply fmap_sublist, filter_sublist|]. apply omap_fst_sublist.
Qed.

Lemma candidates_NoDup sub now mode limit locked db :
  delivery_inv db -> NoDup ((d_id ∘ fst) <$> candidates sub now mode limit locked db).
Proof.
  intros Hinv. rewrite list_fmap_compose.
  eapply sublist_NoDup; [by apply ranked_NoDup|]. apply fmap_sublist, candidates_sublist.
Qed.

Lemma candidates_length sub now mode limit locked db :
  0 <= limit -> Z.of_nat (length (candidates sub now mode limit locked db)) <= limit.
Proof. intros. unfold candidates. rewrite length_take. lia. Qed.

(** ** What leasing preserves and counts *)

(** The rows to lease: distinct, present, available, of the subscription. *)
Record leasable (sub : string) (sel : list (Delivery * EventRow)) (db : QueueDB) : Prop := {
  lb_nodup : NoDup ((d_id ∘ fst) <$> sel);
  lb_row : forall d e, (d, e) ∈ sel -> queue_deliveries db !! d_id d = Some d;
  lb_status : forall d e, (d, e) ∈ sel -> d_status d = Available /\ d_subscription_id d = sub
}.

Lemma leasable_step request vis tot sub d e sel receipt db :
  leasable sub ((d, e) :: sel) db ->
  leasable sub sel (lease_step request vis tot d receipt db).
Proof.
  intros [Hnd Hrow Hst]. simpl in Hnd. apply NoDup_cons in Hnd as [Hni Hnd].
  split; [done| |set_solver].
  intros d1 e1 Hin. simpl. rewrite lookup_alter_ne; [apply (Hrow d1 e1); set_solver|].
  intros Heq. apply Hni. rewrite Heq. apply list_elem_of_fmap. by exists (d1, e1).
Qed.

Lemma lease_step_inv request vis tot sub d e sel receipt db :
  leasable sub ((d, e) :: sel) db -> vis <= tot -> delivery_inv db ->
  delivery_inv (lease_step request vis tot d receipt db)
  /\ rows_moved (queue_deliveries db)
       (queue_deliveries (lease_step request vis tot d receipt db)).
Proof.
  intros [_ Hrow Hst] Hle Hinv.
  assert (queue_deliveries db !! d_id d = Some d) as Hd by (apply (Hrow d e); set_solver).
  destruct (Hst d e) as [Hav _]; [set_solver|].
  assert (rows_moved (queue_deliveries db)
    (queue_deliveries (lease_step request vis tot d receipt db))) as Hm.
  { apply alter_moved. intros d' Hd'. simplify_eq. constructor; [done|lia]. }
  split; [|done].
  eapply delivery_inv_moved; [exact Hinv|done|done|exact Hm|].
  intros id g a o i. simpl. intros [[Heq _]|[_ Hi]]%lookup_insert_Some; [|eauto].
  unfold lease_key in Heq. simplify_eq. right.
  rewrite lookup_alter_eq, Hd. eexists. split; [done|].
  unfold attempt_fits. simpl. split; [lia|]. intros _. split; [lia|done].
Qed.

Lemma leases_inv request vis tot sub sel receipts db db' :
  leases request vis tot sel receipts db db' -> leasable sub sel db -> vis <= tot ->
  delivery_inv db ->
  delivery_inv db' /\ rows_moved (queue_deliveries db) (queue_deliveries db')
  /\ queue_subscriptions db' = queue_subscriptions db /\ events db' = events db.
Proof.
  induction 1 as [|d e sel receipt receipts db db' _ _ IH]; intros Hlb Hle Hinv; [done|].
  destruct (lease_step_inv request vis tot sub d e sel receipt db) as [Hi Hm]; [done..|].
  destruct IH as (? & ? & ? & ?); [by eapply leasable_step|done..|].
  split_and!; [done| |done..]. by etrans.
Qed.

Lemma lease_step_in_flight request vis tot sub d e sel receipt db :
  leasable sub ((d, e) :: sel) db ->
  in_flight_count sub (lease_step request vis tot d receipt db) = in_flight_count sub db + 1.
Proof.
  intros [_ Hrow Hst].
  assert (queue_deliveries db !! d_id d = Some d) as Hd by (apply (Hrow d e); set_solver).
  destruct (Hst d e) as [Hav Hsub]; [set_solver|].
  unfold in_flight_count. simpl.
  rewrite (alter_insert_Some _ _ _ _ Hd), (count_where_insert _ _ _ d) by done.
  unfold in_subscription, is_status. simpl. rewrite Hav, Hsub.
  rewrite !bool_decide_eq_true_2 by done. simpl. lia.
Qed.

Lemma leases_in_flight request vis tot sub sel receipts db db' :
  leases request vis tot sel receipts db db' -> leasable sub sel db ->
  in_flight_count sub db' = in_flight_count sub db + Z.of_nat (length sel).
Proof.
  induction 1 as [|d e sel receipt receipts db db' _ _ IH]; intros Hlb; [simpl; lia|].
  rewrite IH by (by eapply leasable_step).
  erewrite lease_step_in_flight by done. simpl length. lia.
Qed.

(** Each lease is one more dispatch of the last second. *)
Lemma lease_step_dispatched request vis tot sub d e sel receipt db :
  leasable sub ((d, e) :: sel) db ->
  queue_delivery_attempts db !! lease_key d = None ->
  dispatched_count sub (pr_Now request) (lease_step request vis tot d receipt db)
  = dispatched_count sub (pr_Now request) db + 1.
Proof.
  intros [_ Hrow Hst] Hfresh.
  assert (queue_deliveries db !! d_id d = Some d) as Hd by (apply (Hrow d e); set_solver).
  destruct (Hst d e) as [Hav Hsub]; [set_solver|].
  unfold dispatched_count. cbn [queue_delivery_attempts lease_step set_attempts].
  rewrite count_entries_insert by done.
  assert (forall kv, recent_lease sub (pr_Now request)
            (lease_step request vis tot d receipt db) kv
          = recent_lease sub (pr_Now request) db kv) as Hext.
  { intros [[[[id g] a] o] i]. unfold recent_lease. simpl. f_equal.
    destruct (decide (id = d_id d)) as [->|Hne].
    - by rewrite lookup_alter_eq, Hd.
    - by rewrite lookup_alter_ne. }
  rewrite (count_entries_ext _ (recent_lease sub (pr_Now request) db)) by (intros; apply Hext).
  rewrite Hext. unfold recent_lease at 1, in_subscription, lease_key. simpl.
  rewrite Hd, !bool_decide_eq_true_2 by done.
  replace (pr_Now request - Second <? pr_Now request) with true; [simpl; lia|].
  symmetry. apply Z.ltb_lt. unfold Second, Millisecond, Microsecond. lia.
Qed.

Lemma leases_dispatched request vis tot sub sel receipts db db' :
  leases request vis tot sel receipts db db' -> leasable sub sel db ->
  dispatched_count sub (pr_Now request) db'
  = dispatched_count sub (pr_Now request) db + Z.of_nat (length sel).
Proof.
  induction 1 as [|d e sel receipt receipts db db' Hf _ IH]; intros Hlb; [simpl; lia|].
  rewrite IH by (by eapply leasable_step).
  erewrite lease_step_dispatched by done. simpl length. lia.
Qed.

Lemma candidates_leasable sub now mode limit locked db :
  delivery_inv db -> leasable sub (candidates sub now mode limit locked db) db.
Proof.
  intros Hinv. split; [by apply candidates_NoDup|..]; intros d e Hin;
    destruct (candidates_row _ _ _ _ _ _ _ _ Hinv Hin) as (? & ? & He & ?); [done|].
  unfold eligible, is_status, in_subscription in He. bool_to_prop. tauto.
Qed.

(** ** Whole runs *)

Definition clamped_limit (request : QueuePullRequest) (s : QueueSubscription) (limit : Z)
    (db : QueueDB) : Prop :=
  limit <= pr_Limit request /\ limit <= sub_MaxBatchSize s
  /\ limit <= sub_MaxInFlight s - in_flight_count (pr_SubscriptionID request) db
  /\ match sub_MaxDispatchRate s with
     | Some rate =>
         limit <= rate - dispatched_count (pr_SubscriptionID request) (pr_Now request) db
     | None => True
     end
  /\ (0 < pr_Limit request -> 0 < sub_MaxBatchSize s -> 0 < limit).

Definition no_capacity (request : QueuePullRequest) (s : QueueSubscription) (db : QueueDB) : Prop :=
  sub_MaxInFlight s <= in_flight_count (pr_SubscriptionID request) db
  \/ exists rate, sub_MaxDispatchRate s = Some rate
     /\ rate <= dispatched_count (pr_SubscriptionID request) (pr_Now request) db.

(** The ways in which a pull succeeds. *)
Inductive pull_outcome (request : QueuePullRequest) (locked : gset string) (db : QueueDB)
    (s : QueueSubscription) : list QueueDelivery -> QueueDB -> Prop :=
| pull_draining :
    isSome (sub_DrainingAt s) = true -> pull_outcome request locked db s [] db
| pull_full db1 :
    sub_DrainingAt s = None -> sub_Enabled s = true -> sub_PausedAt s = None ->
    reclaim_phase request s db db1 -> no_capacity request s db1 ->
    pull_outcome request locked db s [] db1
| pull_leased db1 limit sel db' :
    sub_DrainingAt s = None -> sub_Enabled s = true -> sub_PausedAt s = None ->
    reclaim_phase request s db db1 ->
    0 <= limit -> clamped_limit request s limit db1 ->
    sel = candidates (pr_SubscriptionID request) (pr_Now request) (sub_OrderingMode s) limit
            locked db1 ->
    (length sel <= length (pr_Receipts request))%nat ->
    leases request (pull_visibility request s) (seconds (sub_MaxTotalLeaseSeconds s))
      sel (pr_Receipts request) db1 db' ->
    pull_outcome request locked db s
      (zip_with (delivered request (pull_visibility request s)) sel (pr_Receipts request)) db'.

Lemma pull_selected_run request s limit w r w' :
  pull_selected request s limit w = (Ok r, w') ->
  0 <= limit
  /\ let sel := candidates (pr_SubscriptionID request) (pr_Now request) (sub_OrderingMode s)
                  limit (w_locked w) (w_db w) in
     (length sel <= length (pr_Receipts request))%nat
     /\ r = zip_with (delivered request (pull_visibility request s)) sel (pr_Receipts request)
     /\ leases request (pull_visibility request s) (seconds (sub_MaxTotalLeaseSeconds s))
          sel (pr_Receipts request) (w_db w) (w_db w').
Proof.
  unfold pull_selected, select_candidates. intros Hrun. run_inv.
  match goal with Hl : lease_all _ _ _ _ _ _ = _ |- _ => apply lease_all_run in Hl end.
  destruct (limit <? 0) eqn:E; simplify_eq. bool_to_prop. destruct_and!. simplify_eq.
  split; [done|]. split_and!; [done|done|].
  congruence.
Qed.

Lemma pull_dispatch_run request s limit w r w' :
  pull_dispatch request s limit w = (Ok r, w') ->
  (r = [] /\ w_db w' = w_db w /\ no_capacity request s (w_db w))
  \/ exists limit', limit' <= limit /\ (0 < limit -> 0 < limit')
     /\ match sub_MaxDispatchRate s with
        | Some rate => limit' <= rate
            - dispatched_count (pr_SubscriptionID request) (pr_Now request) (w_db w)
        | None => True
        end
     /\ exists w1, w_db w1 = w_db w /\ w_locked w1 = w_locked w
        /\ pull_selected request s limit' w1 = (Ok r, w').
Proof.
  unfold pull_dispatch, no_capacity. intros Hrun.
  destruct (sub_MaxDispatchRate s) as [rate|].
  2:{ right. exists limit. split_and!; [lia|done|done|]. eauto. }
  run_inv. case_match; bool_to_prop; run_inv; simplify_eq.
  - left. split_and!; [done|congruence|]. right. exists rate. split; [done|lia].
  - right. unfold after_call in *. destruct_and!.
    eexists. split; [|split; [|split; [|eexists; split_and!; [..|eassumption]]]]; [| | |done..];
      case_match; bool_to_prop; lia.
Qed.

Lemma pull_run request w r w' :
  PullQueueDeliveries request w = (Ok r, w') ->
  exists s, get_subscription (pr_AppID request) (pr_SubscriptionID request) (w_db w) = Some s
    /\ pull_outcome request (w_locked w) (w_db w) s r (w_db w').
Proof.
  unfold PullQueueDeliveries, scanQueueSubscription. intros Hrun. run_inv.
  match goal with Hg : get_subscription _ _ _ = Some ?s |- _ => rename s into sub; rename Hg into Hget end.
  repeat match goal with Hd : w_db _ = w_db _ |- _ => rewrite Hd in *; clear Hd end.
  exists sub. split; [done|].
  assert (forall w1 w2 : World QueueDB, after_call w1 w2 -> w_locked w2 = w_locked w1) as Hlk
    by (unfold after_call; tauto).
  destruct (sub_DrainingAt sub) eqn:Hdr; simpl in Hrun; run_inv.
  { simplify_eq. replace (w_db w') with (w_db w) by congruence.
    constructor. by rewrite Hdr. }
  destruct (sub_Enabled sub) eqn:Hen; simpl in Hrun; run_inv.
  destruct (sub_PausedAt sub) eqn:Hpa; simpl in Hrun; run_inv.
  match goal with Hp : pull_reclaim _ _ _ = _ |- _ => apply pull_reclaim_run in Hp as [Hrec ?] end.
  repeat match goal with Ha : after_call _ _ |- _ => apply Hlk in Ha end.
  match goal with Hd : w_db ?x = w_db w |- _ => rewrite Hd in Hrec end.
  case_match; bool_to_prop.
  { run_inv. simplify_eq. eapply pull_full; [done..| |left].
    - match goal with |- reclaim_phase _ _ _ ?d => replace d with (w_db x3) by congruence end.
      done.
    - replace (w_db w') with (w_db x3) by congruence. lia. }
  apply pull_dispatch_run in Hrun as [(-> & Hdb & Hcap)|(limit & Hlim & Hsome & Hrate & w1 & Hw1 & Hl1 & Hsel)].
  { eapply pull_full; [done..| |]; congruence. }
  apply pull_selected_run in Hsel as (Hpos & Hlen & -> & Hleases).
  rewrite Hw1 in Hleases, Hlen. rewrite Hl1 in Hlen, Hleases.
  rewrite Hw1, Hl1. subst.
  match goal with Hd : w_db ?a = w_db ?b |- context [w_db ?a] => rewrite !Hd in * end.
  match goal with Hd : w_locked ?a = w_locked _ |- context [w_locked ?a] => rewrite !Hd in * end.
  replace (w_locked x3) with (w_locked w) in * by congruence.
  eapply (pull_leased _ _ _ _ (w_db x3) limit); try done.
  unfold clamped_limit. repeat case_match; bool_to_prop; split_and!; try intros ? ?; try apply Hsome; lia || done.
Qed.

(** ** Consequences *)

Lemma check_bounds s :
  subscription_check s = true ->
  1 <= sub_MaxAttempts s <= 100
  /\ 1 <= sub_DefaultVisibilitySeconds s <= sub_MaxVisibilitySeconds s
  /\ sub_MaxVisibilitySeconds s <= 3600
  /\ sub_MaxVisibilitySeconds s <= sub_MaxTotalLeaseSeconds s <= 86400
  /\ 0 <= sub_RetryDelaySeconds s <= 86400.
Proof.
  unfold subscription_check, between. intros Hc. bool_to_prop. lia.
Qed.

(** The granted visibility is positive and within the policy. *)
Lemma pull_visibility_bounds request s :
  subscription_check s = true ->
  0 < pull_visibility request s <= sub_MaxVisibilitySeconds s * Second
  /\ pull_visibility request s <= seconds (sub_MaxTotalLeaseSeconds s)
  /\ seconds (sub_MaxTotalLeaseSeconds s) = sub_MaxTotalLeaseSeconds s * Second.
Proof.
  intros Hc%check_bounds. unfold pull_visibility. rewrite !seconds_small by lia.
  unfold Second, Millisecond, Microsecond in *.
  repeat case_match; bool_to_prop; lia.
Qed.

Lemma get_subscription_spec app id db s :
  get_subscription app id db = Some s ->
  queue_subscriptions db !! id = Some s /\ sub_AppID s = app.
Proof.
  unfold get_subscription. destruct (queue_subscriptions db !! id); [|done].
  case_bool_decide; naive_solver.
Qed.

Lemma pull_outcome_inv request locked db s r db' :
  pull_outcome request locked db s r db' -> delivery_inv db ->
  subscription_check s = true ->
  delivery_inv db' /\ rows_moved (queue_deliveries db) (queue_deliveries db')
  /\ queue_subscriptions db' = queue_subscriptions db /\ events db' = events db.
Proof.
  intros Hout Hinv Hs.
  destruct Hout as [|db1 _ _ _ Hrec _|db1 limit sel db' _ _ _ Hrec _ _ -> _ Hl]; [done|..];
    apply reclaim_phase_inv in Hrec as (Hinv1 & Hm1 & Hsub1 & Hev1); try done.
  eapply leases_inv in Hl as (? & ? & ? & ?);
    [|by apply candidates_leasable|by apply pull_visibility_bounds|done].
  split_and!; [done|by etrans|congruence..].
Qed.

Lemma pull_preserves request w res w' :
  PullQueueDeliveries request w = (res, w') -> delivery_inv (w_db w) ->
  delivery_inv (w_db w') /\ rows_moved (queue_deliveries (w_db w)) (queue_deliveries (w_db w'))
  /\ queue_subscriptions (w_db w') = queue_subscriptions (w_db w)
  /\ events (w_db w') = events (w_db w).
Proof.
  intros Hrun Hinv. destruct res as [r|e].
  - apply pull_run in Hrun as (s & Hget & Hout).
    apply get_subscription_spec in Hget as [Hs _].
    eapply pull_outcome_inv; [done..|]. by eapply inv_subs.
  - apply transaction_err_db in Hrun. by rewrite Hrun.
Qed.

(** Which rows [reclaimed] leaves alone, and what it makes available. *)
Lemma reclaimed_other request s d :
  d_subscription_id d <> pr_SubscriptionID request -> reclaimed request s d = d.
Proof.
  intros Hne. unfold reclaimed.
  assert (in_subscription (pr_SubscriptionID request) d = false) as Hs
    by (by apply bool_decide_eq_false_2).
  unfold lease_expired. rewrite Hs. simpl. unfold retention_expired. by rewrite Hs.
Qed.

Lemma reclaimed_live request s d :
  d_status d = InFlight -> null_gt (d_lease_expires_at d) (pr_Now request) = true ->
  reclaimed request s d = d.
Proof.
  intros Hs Hl. unfold reclaimed.
  assert (lease_expired (pr_SubscriptionID request) (pr_Now request) d = false) as ->.
  { unfold lease_expired, null_gt, null_le in *. destruct (d_lease_expires_at d); [|done].
    bool_to_prop. right. apply Z.leb_gt. lia. }
  unfold retention_expired, is_status. rewrite Hs. simpl. by rewrite andb_false_r.
Qed.

Lemma reclaimed_available request s d :
  d_status (reclaimed request s d) = Available ->
  same_identity d (reclaimed request s d)
  /\ d_attempts (reclaimed request s d) = d_attempts d
  /\ d_generation (reclaimed request s d) = d_generation d
  /\ (d_status d = Available
      \/ d_status d = InFlight /\ null_le (d_lease_expires_at d) (pr_Now request) = true
         /\ d_attempts d < sub_MaxAttempts s).
Proof.
  unfold reclaimed. destruct (lease_expired _ _ d) eqn:Hl.
  - unfold reclaim_row. destruct (sub_MaxAttempts s <=? d_attempts d) eqn:Ha;
      case_match; simpl; intros; try done; bool_to_prop.
    unfold lease_expired, is_status in Hl. bool_to_prop.
    split_and!; [repeat split..|]. right. split_and!; tauto || lia.
  - case_match; simpl; [done|]. intros. split_and!; [done..|by left].
Qed.

(** A returned delivery comes from a selected row and its receipt. *)
Lemma pull_outcome_elem request locked db s r db' x :
  pull_outcome request locked db s r db' -> delivery_inv db -> x ∈ r ->
  exists db1 limit d e receipt,
    reclaim_phase request s db db1 /\ delivery_inv db1
    /\ (d, e) ∈ candidates (pr_SubscriptionID request) (pr_Now request) (sub_OrderingMode s)
                 limit locked db1
    /\ receipt ∈ pr_Receipts request
    /\ x = delivered request (pull_visibility request s) (d, e) receipt
    /\ queue_deliveries db' !! d_id d
       = Some (leased_row request (pull_visibility request s)
                 (seconds (sub_MaxTotalLeaseSeconds s)) d receipt).
Proof.
  intros Hout Hinv Hx.
  destruct Hout as [|db1 _ _ _ Hrec _|db1 limit sel db' _ _ _ Hrec _ _ Hsel Hlen Hl];
    [set_solver..|].
  apply list_elem_of_lookup in Hx as [i Hi].
  apply lookup_zip_with_Some in Hi as ([d e] & receipt & -> & Hi & Hr).
  apply reclaim_phase_inv in Hrec as Hrec'; [|done]. destruct Hrec' as [Hinv1 _].
  exists db1, limit, d, e, receipt. rewrite <- Hsel.
  split_and!; [done..|by eapply list_elem_of_lookup_2|by eapply list_elem_of_lookup_2|done|].
  subst sel. eapply leases_hit; [done|by apply candidates_NoDup| |done|done].
  intros d0 e0 Hin. by eapply candidates_row in Hin as (? & _).
Qed.

Lemma candidate_origin request s db db1 limit locked d e :
  reclaim_phase request s db db1 -> delivery_inv db1 ->
  (d, e) ∈ candidates (pr_SubscriptionID request) (pr_Now request) (sub_OrderingMode s)
             limit locked db1 ->
  exists d0, queue_deliveries db !! d_id d = Some d0 /\ d = reclaimed request s d0
    /\ d_status d = Available /\ d_subscription_id d = pr_SubscriptionID request
    /\ d_available_at d <= pr_Now request < d_expires_at d.
Proof.
  intros Hrec Hinv1 Hin.
  eapply candidates_row in Hin as (Hd & He & Hel & _); [|done].
  rewrite (reclaim_phase_lookup _ _ _ _ _ Hrec) in Hd.
  destruct (queue_deliveries db !! d_id d) as [d0|]; simplify_eq/=.
  exists d0. unfold eligible, is_status, in_subscription in Hel. bool_to_prop.
  destruct_and!. split_and!; done.
Qed.

(** The rows a pull may change: its own subscription's, and no live lease. *)
Lemma pull_outcome_frame request locked db s r db' id d :
  pull_outcome request locked db s r db' -> delivery_inv db ->
  queue_deliveries db !! id = Some d -> reclaimed request s d = d ->
  d_status d <> Available \/ d_subscription_id d <> pr_SubscriptionID request ->
  queue_deliveries db' !! id = Some d /\ id ∉ (qd_ID <$> r).
Proof.
  intros Hout Hinv Hd Hsame Hfree. assert (d_id d = id) as <- by (by eapply inv_key).
  destruct Hout as [|db1 _ _ _ Hrec _|db1 limit sel db' _ _ _ Hrec _ _ -> _ Hl];
    [set_solver|..];
    pose proof (reclaim_phase_lookup _ _ _ _ (d_id d) Hrec) as Hlk;
    rewrite Hd in Hlk; simpl in Hlk; rewrite Hsame in Hlk.
  { split; [done|]. apply not_elem_of_nil. }
  assert (d_id d ∉ ((d_id ∘ fst) <$> candidates (pr_SubscriptionID request) (pr_Now request)
            (sub_OrderingMode s) limit locked db1)) as Hni.
  { intros ([d1 e1] & Heq & Hin)%list_elem_of_fmap. simpl in Heq.
    apply reclaim_phase_inv in Hrec as Hrec'; [|done]. destruct Hrec' as [Hinv1 _].
    eapply candidate_origin in Hin as (d0 & Hd0 & Hd1 & Hav & Hsub & _); [|done..].
    rewrite <- Heq, Hd in Hd0. simplify_eq. rewrite Hsame in *. naive_solver. }
  split; [by erewrite leases_skip|].
  intros (x & Hx & Hin)%list_elem_of_fmap. apply Hni.
  apply list_elem_of_lookup in Hin as [i Hi].
  apply lookup_zip_with_Some in Hi as ([d1 e1] & receipt & -> & Hi & _).
  simpl in Hx. rewrite Hx. apply list_elem_of_fmap. exists (d1, e1).
  split; [done|]. by eapply list_elem_of_lookup_2.
Qed.

(** ** Order *)

Lemma leases_rows request vis tot sub sel receipts db db' id e :
  leases request vis tot sel receipts db db' -> leasable sub sel db ->
  queue_deliveries db' !! id = Some e ->
  exists e1, queue_deliveries db !! id = Some e1
    /\ (e = e1 \/ d_status e1 = Available /\ same_identity e1 e).
Proof.
  intros Hl Hlb He.
  destruct (decide (id ∈ ((d_id ∘ fst) <$> sel))) as [Hin|Hni].
  2:{ erewrite leases_skip in He by done. eauto. }
  destruct Hlb as [Hnd Hrow Hst].
  apply list_elem_of_fmap in Hin as ([d ev] & -> & Hin). simpl in *.
  pose proof (Hrow _ _ Hin) as Hd. pose proof (Hst _ _ Hin) as [Hav _].
  exists d. split; [done|]. apply list_elem_of_lookup in Hin as [i Hi].
  destruct (receipts !! i) as [receipt|] eqn:Hr.
  - erewrite leases_hit in He by done. simplify_eq. right. split; [done|]. by repeat split.
  - exfalso. clear He Hrow Hst Hd Hav Hnd. revert i Hi Hr.
    induction Hl as [|???????? _ IH]; intros [|i] Hi Hr; simplify_eq/=. by eapply IH.
Qed.

Lemma row_lt_total d e : d_id d <> d_id e -> ~ row_lt e d -> row_lt d e.
Proof.
  unfold row_lt, text_lt. intros Hne Hn.
  destruct (Z.lt_trichotomy (d_created_at d) (d_created_at e)) as [?|[?|?]];
    [by left| |exfalso; apply Hn; by left].
  right. split; [done|]. split; [|done].
  destruct (total text_le (d_id d) (d_id e)); [done|].
  exfalso. apply Hn. right. split_and!; [done|done|congruence].
Qed.

Lemma eligible_oldest sub now db d e :
  eligible sub now QueueOrderingKey db d = true ->
  is_Some (d_ordering_key d) -> d_ordering_key e = d_ordering_key d ->
  d_subscription_id e = d_subscription_id d -> active e = true -> d_id e <> d_id d ->
  (exists k, queue_deliveries db !! k = Some e) -> row_lt d e.
Proof.
  intros Hel [k Hk] Hke Hse Hac Hne Hin. apply row_lt_total; [done|]. intros Hlt.
  unfold eligible in Hel. rewrite Hk in Hel. simpl in Hel. bool_to_prop.
  destruct Hel as [_ Hel].
  assert (existsb (blocks d) (rows (queue_deliveries db)) = true) as Hex; [|congruence].
  apply existsb_exists. exists e. split; [by apply list_elem_of_In, elem_of_rows|].
  unfold blocks, same_key. rewrite Hke, Hk, Hse, Hac.
  by rewrite !bool_decide_eq_true_2.
Qed.

Lemma pull_outcome_oldest request locked db s r db' x d e :
  pull_outcome request locked db s r db' -> delivery_inv db ->
  sub_OrderingMode s = QueueOrderingKey -> x ∈ r ->
  queue_deliveries db' !! qd_ID x = Some d -> is_Some (d_ordering_key d) ->
  (exists k, queue_deliveries db' !! k = Some e) -> active e = true ->
  d_subscription_id e = d_subscription_id d -> d_ordering_key e = d_ordering_key d ->
  d_id e <> d_id d -> row_lt d e.
Proof.
  intros Hout Hinv Hmode Hx Hd Hkey [ke He] Hac Hse Hke Hne.
  destruct Hout as [|db1 _ _ _ Hrec _|db1 limit sel db' _ _ _ Hrec _ _ -> Hlen Hl];
    [set_solver..|].
  apply reclaim_phase_inv in Hrec as Hrec'; [|done]. destruct Hrec' as [Hinv1 _].
  set (sel := candidates _ _ _ _ _ _) in *.
  assert (leasable (pr_SubscriptionID request) sel db1) as Hlb by (by apply candidates_leasable).
  apply list_elem_of_lookup in Hx as [i Hi].
  apply lookup_zip_with_Some in Hi as ([d1 e1] & receipt & -> & Hi & Hr). simpl in Hd.
  erewrite leases_hit in Hd by (done || apply Hlb). simplify_eq. simpl in *.
  destruct (leases_rows _ _ _ _ _ _ _ _ _ _ Hl Hlb He) as (e0 & He0 & Hsame).
  assert (same_identity e0 e /\ active e0 = true) as [(Hi1 & Hi2 & _ & _ & Hi5 & _ & Hi7 & _) Hac0].
  { destruct Hsame as [<-|[Hav ?]]; [done|]. split; [done|]. unfold active, is_status.
    by rewrite Hav. }
  apply list_elem_of_lookup_2, candidates_row in Hi as (_ & _ & Hel & _); [|done].
  rewrite Hmode in Hel. unfold row_lt. simpl. rewrite Hi1, Hi7.
  eapply (eligible_oldest _ _ _ d1 e0); [done|done|congruence|congruence|done|congruence|by eexists].
Qed.

(** The ranking is a total preorder, so the selection is its beginning. *)
#[local] Instance pull_before_total now : Total (pull_before now).
Proof.
  intros d e. unfold pull_before.
  destruct (Z.lt_trichotomy (effective_priority now d) (effective_priority now e)) as [?|[?|?]];
    [by right; left| |by left; left].
  destruct (Z.lt_trichotomy (d_available_at d) (d_available_at e)) as [?|[?|?]];
    [left; right; tauto| |right; right; split; [done|by left]].
  destruct (Z.lt_trichotomy (d_created_at d) (d_created_at e)) as [?|[?|?]];
    [left; right; tauto| |right; right; split; [done|]; right; split; [done|by left]].
  destruct (total text_le (d_id d) (d_id e)); [left|right]; right; auto 10.
Qed.

#[local] Instance pull_before_trans now : Transitive (pull_before now).
Proof.
  intros a b c. unfold pull_before. intros Hab Hbc.
  assert (forall x y z, text_le x y -> text_le y z -> text_le x z) as Htr
    by (intros x y z; apply transitivity).
  destruct Hab as [?|[? [?|[? [?|[? Hab]]]]]], Hbc as [?|[? [?|[? [?|[? Hbc]]]]]];
    try (left; lia); right; (split; [lia|]); try (left; lia); right; (split; [lia|]);
    try (left; lia); right; (split; [lia|]). eauto.
Qed.

Lemma ranked_sorted sub now mode db :
  StronglySorted (pull_before now) (ranked sub now mode db).
Proof. apply StronglySorted_merge_sort; apply _. Qed.

(** An eligible, unlocked row that was left out ranks after every selected one. *)
Lemma candidates_rank sub now mode limit locked db d e :
  delivery_inv db ->
  d ∈ (candidates sub now mode limit locked db).*1 ->
  eligible sub now mode db e = true -> queue_deliveries db !! d_id e = Some e ->
  d_id e ∉ locked -> e ∉ (candidates sub now mode limit locked db).*1 ->
  pull_before now d e.
Proof.
  intros Hinv Hd Hel He Hlk Hni. destruct (inv_event _ Hinv _ _ He) as [ev Hev].
  set (all := List.filter (unlocked locked) (omap (join_event db) (ranked sub now mode db))).
  assert ((e, ev) ∈ all) as Hall.
  { unfold all. apply elem_of_filter_list. split.
    - apply list_elem_of_omap. exists e. split; [|unfold join_event; by rewrite Hev].
      unfold ranked. rewrite merge_sort_Permutation. apply elem_of_select. eauto.
    - unfold unlocked. simpl. by rewrite bool_decide_eq_false_2. }
  assert (StronglySorted (pull_before now) all.*1) as Hsorted.
  { eapply sorted_sublist, (ranked_sorted sub now mode db).
    etrans; [apply fmap_sublist, filter_sublist|]. apply omap_fst_sublist. }
  change (candidates sub now mode limit locked db) with (take (Z.to_nat limit) all) in *.
  rewrite <- firstn_map in Hd, Hni. eapply sorted_take_drop; [exact Hsorted|exact Hd|].
  assert (e ∈ all.*1) as Hin by (apply list_elem_of_fmap; by exists (e, ev)).
  rewrite <- (take_drop (Z.to_nat limit) all.*1) in Hin.
  apply elem_of_app in Hin as [Hin|Hin]; [|done]. by destruct Hni.
Qed.

(** ** Termination with a result

    Without database failures a pull on an active subscription succeeds: in
    particular the INSERT of a lease never meets the UNIQUE constraint. *)

Lemma lease_key_fresh db d :
  delivery_inv db -> queue_deliveries db !! d_id d = Some d ->
  queue_delivery_attempts db !! lease_key d = None.
Proof.
  intros Hinv Hd. destruct (queue_delivery_attempts db !! lease_key d) eqn:E; [|done].
  apply (inv_attempts _ Hinv) in E as (d' & Hd' & _ & Hfit). simplify_eq. lia.
Qed.

Lemma lease_all_total request vis tot sub sel receipts db lk :
  delivery_inv db -> leasable sub sel db -> vis <= tot ->
  (length sel <= length receipts)%nat ->
  exists r db', lease_all request vis tot sel receipts (mkWorld db [] lk)
                = (Ok r, mkWorld db' [] lk).
Proof.
  revert receipts db. induction sel as [|[d e] sel IH]; intros receipts db Hinv Hlb Hle Hlen.
  { by do 2 eexists. }
  destruct receipts as [|receipt receipts]; simpl in Hlen; [lia|].
  assert (queue_deliveries db !! d_id d = Some d) as Hd by (by eapply lb_row, list_elem_of_here).
  destruct (lease_step_inv request vis tot sub d e sel receipt db) as [Hinv' _]; [done..|].
  destruct (IH receipts (lease_step request vis tot d receipt db)) as (r & db' & Hr);
    [done|by eapply leasable_step|done|lia|].
  assert (lease_one request vis tot (d, e) receipt (mkWorld db [] lk)
    = (Ok (delivered request vis (d, e) receipt),
       mkWorld (lease_step request vis tot d receipt db) [] lk)) as Hone.
  { unfold lease_one, do_insert_attempt, insert_attempt, mbind, M_bind. simpl.
    change (d_id d, d_generation d, d_attempts d + 1, Leased) with (lease_key d).
    unfold exec. simpl. by rewrite (lease_key_fresh db d). }
  do 2 eexists. cbn [lease_all]. unfold mbind, M_bind. rewrite Hone, Hr. reflexivity.
Qed.

Lemma pull_selected_total request s limit db lk :
  delivery_inv db -> subscription_check s = true -> 0 <= limit ->
  limit <= Z.of_nat (length (pr_Receipts request)) ->
  exists r db', pull_selected request s limit (mkWorld db [] lk) = (Ok r, mkWorld db' [] lk).
Proof.
  intros Hinv Hs H0 Hlen. unfold pull_selected, select_candidates, mbind, M_bind. simpl.
  destruct (limit <? 0) eqn:E; bool_to_prop; [lia|]. simpl.
  destruct (lease_all_total request (pull_visibility request s)
    (seconds (sub_MaxTotalLeaseSeconds s)) (pr_SubscriptionID request)
    (candidates (pr_SubscriptionID request) (pr_Now request) (sub_OrderingMode s) limit lk db)
    (pr_Receipts request) db lk) as (r & db' & ->).
  - done.
  - by apply candidates_leasable.
  - by apply pull_visibility_bounds.
  - pose proof (candidates_length (pr_SubscriptionID request) (pr_Now request)
      (sub_OrderingMode s) limit lk db H0). lia.
  - simpl. eauto.
Qed.

Lemma pull_dispatch_total request s limit db lk :
  delivery_inv db -> subscription_check s = true -> 0 <= limit ->
  limit <= Z.of_nat (length (pr_Receipts request)) ->
  exists r db', pull_dispatch request s limit (mkWorld db [] lk) = (Ok r, mkWorld db' [] lk).
Proof.
  intros Hinv Hs H0 Hlen. unfold pull_dispatch.
  destruct (sub_MaxDispatchRate s) as [rate|]; [|by apply pull_selected_total].
  unfold mbind, M_bind. simpl. case_match; bool_to_prop; [eauto|].
  apply pull_selected_total; [done..| |]; case_match; bool_to_prop; lia.
Qed.

Lemma pull_reclaim_total request s db lk :
  sub_FailureCallbackURL s = None ->
  exists db', pull_reclaim request s (mkWorld db [] lk) = (Ok tt, mkWorld db' [] lk).
Proof.
  intros Hurl. unfold pull_reclaim, mbind, M_bind. rewrite Hurl. simpl. eauto.
Qed.

(** ** When a pull finds something *)

Lemma count_entries_le `{Countable K} {V} (p q : K * V -> bool) (m m' : gmap K V) :
  (forall k v, m' !! k = Some v -> q (k, v) = true -> exists v', m !! k = Some v' /\ p (k, v') = true) ->
  count_entries q m' <= count_entries p m.
Proof.
  intros Hle. unfold count_entries. apply Nat2Z.inj_le. rewrite <- !(length_fmap fst (List.filter _ _)).
  apply submseteq_length, NoDup_submseteq.
  - eapply sublist_NoDup; [apply (NoDup_fst_map_to_list m')|apply fmap_sublist, filter_sublist].
  - intros k ([k' v] & -> & [Hv%elem_of_map_to_list Hq]%elem_of_filter_list)%list_elem_of_fmap.
    destruct (Hle _ _ Hv Hq) as (v' & Hv' & Hp). apply list_elem_of_fmap. exists (k', v').
    split; [done|]. apply elem_of_filter_list. by rewrite elem_of_map_to_list.
Qed.
Lemma count_where_entries {R} (p : R -> bool) (T : gmap string R) : count_where p T = count_entries (fun kv => p kv.2) T.
Proof.
  unfold count_where, count_entries, select_where, rows. f_equal. induction (map_to_list T) as [|[k r] l IH]; [done|]. cbn.
  destruct (p r); cbn; by rewrite IH.
Qed.

(** Taking leases back only lowers the two counts. *)
Lemma reclaimed_in_flight request s d sub :
  in_subscription sub (reclaimed request s d) && is_status InFlight (reclaimed request s d) = true ->
  in_subscription sub d && is_status InFlight d = true.
Proof.
  unfold reclaimed. destruct (lease_expired _ _ d) eqn:Hl.
  - unfold lease_expired in Hl. bool_to_prop. unfold reclaim_row. repeat case_match; cbn; unfold is_status, in_subscription in *; cbn in *; bool_to_prop; naive_solver.
  - repeat case_match; cbn; unfold is_status, in_subscription in *; cbn in *; bool_to_prop; naive_solver.
Qed.
Lemma reclaimed_sub request s d : d_subscription_id (reclaimed request s d) = d_subscription_id d.
Proof. unfold reclaimed, reclaim_row. by repeat case_match. Qed.
Lemma reclaim_attempts_leased now l t k i :
  foldr (reclaim_attempt now) t l !! k = Some i -> k.2 = Leased -> t !! k = Some i.
Proof.
  revert i. induction l as [|d l IH]; intros i; [done|]. cbn [foldr]. unfold reclaim_attempt at 1, insert_attempt_do_nothing.
  set (key := (d_id d, d_generation d, d_attempts d, _)). destruct (foldr _ _ l !! key) eqn:E; [by apply IH|]. intros Hi Hk.
  rewrite lookup_insert_ne in Hi; [by apply IH|]. intros <-. cbn in Hk. by destruct (is_status DeadLetter d).
Qed.
Lemma reclaim_phase_counts request s db db1 sub : reclaim_phase request s db db1 ->
  in_flight_count sub db1 <= in_flight_count sub db
  /\ dispatched_count sub (pr_Now request) db1 <= dispatched_count sub (pr_Now request) db.
Proof.
  intros Hr. pose proof (fun id => reclaim_phase_lookup _ _ _ _ id Hr) as Hl. split.
  - unfold in_flight_count. rewrite !count_where_entries. apply count_entries_le. intros k d Hd Hp. rewrite Hl in Hd.
    apply fmap_Some in Hd as (d0 & Hd0 & ->). exists d0. split; [done|]. by eapply reclaimed_in_flight.
  - unfold dispatched_count. apply count_entries_le. intros k a Ha Hp. exists a. unfold recent_lease in *. cbn [fst snd] in *.
    apply andb_true_iff in Hp as [[Hk Ht]%andb_true_iff Hs]. split.
    + destruct Hr as (t & _ & ->). cbn in Ha. apply bool_decide_eq_true in Hk. by eapply reclaim_attempts_leased.
    + rewrite Hk, Ht. cbn [andb]. rewrite Hl in Hs. destruct (queue_deliveries db !! k.1.1.1) as [d|]; [|done]. cbn in Hs.
      unfold in_subscription in *. by rewrite reclaimed_sub in Hs.
Qed.

(** A delivery that is waiting: available and due, not past its retention, without an
    ordering key where keys are ordered, and not locked by another transaction. *)
Definition pull_waiting (request : QueuePullRequest) (mode : QueueOrderingMode) (locked : gset string) (d : Delivery) : Prop :=
  d_subscription_id d = pr_SubscriptionID request /\ d_status d = Available /\ d_available_at d <= pr_Now request < d_expires_at d
  /\ (mode = QueueOrderingNone \/ d_ordering_key d = None) /\ d_id d ∉ locked.
Definition pull_room (request : QueuePullRequest) (s : QueueSubscription) (db : QueueDB) : Prop :=
  in_flight_count (pr_SubscriptionID request) db < sub_MaxInFlight s
  /\ match sub_MaxDispatchRate s with
     | Some rate => dispatched_count (pr_SubscriptionID request) (pr_Now request) db < rate
     | None => True
     end.
Lemma pull_waiting_reclaimed request s mode locked d : pull_waiting request mode locked d -> reclaimed request s d = d.
Proof.
  intros (Hs & Hst & [_ He] & _). unfold reclaimed, lease_expired, retention_expired, is_status. rewrite Hst. cbn.
  rewrite andb_false_r. cbn. destruct (Z.leb_spec (d_expires_at d) (pr_Now request)); [lia|]. by rewrite andb_false_r.
Qed.
Lemma pull_waiting_eligible request mode locked db d :
  pull_waiting request mode locked d -> eligible (pr_SubscriptionID request) (pr_Now request) mode db d = true.
Proof.
  intros (Hs & Hst & [Ha He] & Hk & _). unfold eligible, in_subscription, is_status. rewrite Hst, Hs. bool_to_prop.
  split_and!; try done. destruct Hk as [->| ->]; [left; left; done|left; by right].
Qed.
Lemma candidates_found sub now mode limit locked db d :
  delivery_inv db -> 0 < limit -> queue_deliveries db !! d_id d = Some d -> eligible sub now mode db d = true -> d_id d ∉ locked ->
  candidates sub now mode limit locked db <> [].
Proof.
  intros Hinv Hlim Hd Hel Hlk. destruct (inv_event _ Hinv _ _ Hd) as [e He]. unfold candidates.
  assert ((d, e) ∈ List.filter (unlocked locked) (omap (join_event db) (ranked sub now mode db))) as Hin.
  { apply elem_of_filter_list. split; [|unfold unlocked; cbn; by rewrite bool_decide_false].
    apply list_elem_of_omap. exists d. unfold join_event. rewrite He. split; [|done]. unfold ranked. rewrite merge_sort_Permutation.
    apply elem_of_select. eauto. }
  destruct (List.filter _ _) as [|x l]; [by apply not_elem_of_nil in Hin|]. destruct (Z.to_nat limit) eqn:E; [lia|done].
Qed.
End pull.
