(* ===== verification/QueuePullClaims.v ===== *)
(** * Theorems about pulling

    What a caller of [PullQueueDeliveries] can rely on, with an evaluated
    instance of each theorem. *)

From S2P Require Import Prelude GoLib Crypto Json Domain QueueSchema QueueStore.
From S2P Require Import QueueLifecycle QueuePull.

Section claims.
Context `{Postgres}.

(** C1: every delivery a successful pull returns is leased to the caller. Before
    the pull its row belonged to the requested subscription of the calling
    application and was available, or its lease had run out with attempts left;
    afterwards the row is in flight under the hash of the receipt that was
    returned (one of those supplied), its attempt is one higher, the lease ends
    after now and within the maximum visibility, it may never be extended past
    the total lease, and the delivery had not reached its retention time. *)
Theorem pull_grants_leases request w r w' x :
  PullQueueDeliveries request w = (Ok r, w') -> delivery_inv (w_db w) -> x ∈ r ->
  exists s d d',
    get_subscription (pr_AppID request) (pr_SubscriptionID request) (w_db w) = Some s
    /\ queue_deliveries (w_db w) !! qd_ID x = Some d
    /\ queue_deliveries (w_db w') !! qd_ID x = Some d'
    /\ d_subscription_id d = pr_SubscriptionID request /\ d_app_id d = pr_AppID request
    /\ (d_status d = Available
        \/ d_status d = InFlight /\ null_le (d_lease_expires_at d) (pr_Now request) = true
           /\ d_attempts d < sub_MaxAttempts s)
    /\ d_status d' = InFlight
    /\ d_receipt_hash d' = Some (queueReceiptHash (qd_Receipt x))
    /\ qd_Receipt x ∈ pr_Receipts request
    /\ qd_Attempt x = d_attempts d + 1 /\ d_attempts d' = qd_Attempt x
    /\ qd_Generation x = d_generation d /\ d_generation d' = d_generation d
    /\ d_lease_expires_at d' = Some (qd_LeaseExpiresAt x)
    /\ pr_Now request < qd_LeaseExpiresAt x
       <= pr_Now request + sub_MaxVisibilitySeconds s * Second
    /\ d_lease_max_expires_at d' = Some (pr_Now request + sub_MaxTotalLeaseSeconds s * Second)
    /\ pr_Now request < d_expires_at d.
Proof.
  intros Hrun Hinv Hx. apply pull_run in Hrun as (s & Hget & Hout).
  destruct (pull_outcome_elem _ _ _ _ _ _ _ Hout Hinv Hx)
    as (db1 & limit & d1 & e & receipt & Hrec & Hinv1 & Hin & Hr & -> & Hd').
  destruct (candidate_origin _ _ _ _ _ _ _ _ Hrec Hinv1 Hin)
    as (d & Hd & -> & Hav & Hsub & _ & Hexp).
  destruct (reclaimed_available _ _ _ Hav) as (Hid & Hat & Hgen & Horig).
  apply get_subscription_spec in Hget as Hs. destruct Hs as [Hs Happ].
  assert (subscription_check s = true) as Hc by apply (inv_subs _ Hinv _ _ Hs).
  destruct (pull_visibility_bounds request s Hc) as (Hv & _ & Htot).
  destruct (inv_owner _ Hinv _ _ Hd) as (s' & Hs' & Howner).
  destruct Hid as (Hid1 & Hid2 & _ & _ & _ & _ & _ & Hid8).
  exists s, d, (leased_row request (pull_visibility request s)
    (seconds (sub_MaxTotalLeaseSeconds s)) (reclaimed request s d) receipt).
  simpl. rewrite Hat, Hgen, Htot. rewrite Hid2 in Hsub. rewrite Hsub in Hs'. simplify_eq.
  rewrite Htot in Hd'. split_and!; lia || done || congruence.
Qed.

(** C2: a pull never disturbs work in progress. A row of another subscription,
    and a row whose lease is still running, is exactly as before and is not
    among the returned deliveries: no delivery is handed out twice while a
    lease on it lives. *)
Theorem pull_respects_leases request w r w' id d :
  PullQueueDeliveries request w = (Ok r, w') -> delivery_inv (w_db w) ->
  queue_deliveries (w_db w) !! id = Some d ->
  d_subscription_id d <> pr_SubscriptionID request
  \/ d_status d = InFlight /\ null_gt (d_lease_expires_at d) (pr_Now request) = true ->
  queue_deliveries (w_db w') !! id = Some d /\ id ∉ (qd_ID <$> r).
Proof.
  intros Hrun Hinv Hd Hcase. apply pull_run in Hrun as (s & _ & Hout).
  eapply pull_outcome_frame; [done..| |].
  - destruct Hcase as [?|[??]]; [by apply reclaimed_other|by apply reclaimed_live].
  - destruct Hcase as [?|[Hf _]]; [by right|left; by rewrite Hf].
Qed.

(** The deliveries of a subscription that are in flight, and the leases of its
    deliveries in the last second. *)
Definition in_flight_now (sub : string) (db : QueueDB) : nat :=
  size (filter (fun kd : string * Delivery => d_subscription_id kd.2 = sub /\ d_status kd.2 = InFlight)
    (queue_deliveries db)).
Definition leases_since (sub : string) (since : Z) (db : QueueDB) : nat :=
  size (filter (fun ka : AttemptKey * AttemptInfo => ka.1.2 = Leased /\ since < at_occurred_at ka.2
      /\ d_subscription_id <$> queue_deliveries db !! ka.1.1.1.1 = Some sub) (queue_delivery_attempts db)).

Lemma count_entries_size `{Countable K} {V} (p : K * V -> bool) (P : K * V -> Prop) `{!forall x, Decision (P x)}
    (m : gmap K V) :
  (forall x, p x = true <-> P x) -> count_entries p m = Z.of_nat (size (filter P m)).
Proof.
  intros Hp. unfold count_entries. f_equal. rewrite map_filter_alt, map_size_list_to_map.
  - induction (map_to_list m) as [|x l IH]; [done|]. simpl. rewrite filter_cons.
    destruct (p x) eqn:Hx; [rewrite decide_True by by apply Hp|rewrite decide_False by (intros HP%Hp; congruence)];
      simpl; by rewrite IH.
  - eapply sublist_NoDup; [apply (NoDup_fst_map_to_list m)|]. apply fmap_sublist, sublist_filter.
Qed.
Lemma in_flight_size sub db : in_flight_count sub db = Z.of_nat (in_flight_now sub db).
Proof.
  unfold in_flight_count. rewrite count_where_entries. apply count_entries_size. intros [k d]. simpl.
  unfold in_subscription, is_status. by bool_to_prop.
Qed.
Lemma dispatched_size sub now db : dispatched_count sub now db = Z.of_nat (leases_since sub (now - Second) db).
Proof.
  apply count_entries_size. intros [k a]. unfold recent_lease, in_subscription. simpl.
  destruct (queue_deliveries db !! k.1.1.1); simpl; bool_to_prop; naive_solver.
Qed.

(** C3: the limits hold. A pull that returns anything returns at most the requested
    number, the subscription's batch size and the number of receipts it was given, and
    afterwards the number of rows in flight is within [MaxInFlight] and the leases of
    the last second are within [MaxDispatchRate]. *)
Theorem pull_within_limits request w r w' :
  PullQueueDeliveries request w = (Ok r, w') -> delivery_inv (w_db w) -> r <> [] ->
  exists s, get_subscription (pr_AppID request) (pr_SubscriptionID request) (w_db w) = Some s
  /\ Z.of_nat (length r) <= pr_Limit request
  /\ Z.of_nat (length r) <= sub_MaxBatchSize s
  /\ (length r <= length (pr_Receipts request))%nat
  /\ Z.of_nat (in_flight_now (pr_SubscriptionID request) (w_db w')) <= sub_MaxInFlight s
  /\ match sub_MaxDispatchRate s with
     | Some rate =>
         Z.of_nat (leases_since (pr_SubscriptionID request) (pr_Now request - Second) (w_db w')) <= rate
     | None => True
     end.
Proof.
  intros Hrun Hinv Hne. apply pull_run in Hrun as (s & Hget & Hout). exists s. split; [done|].
  destruct Hout as [|?????|db1 limit sel db' _ _ _ Hrec H0 Hlim -> Hlen Hl]; [done..|].
  apply reclaim_phase_inv in Hrec as (Hinv1 & _); [|done].
  set (sel := candidates _ _ _ _ _ _) in *.
  assert (leasable (pr_SubscriptionID request) sel db1) as Hlb by (by apply candidates_leasable).
  assert (Z.of_nat (length sel) <= limit) as Hsel by (by apply candidates_length).
  rewrite <- in_flight_size, <- dispatched_size, length_zip_with, (leases_in_flight _ _ _ _ _ _ _ _ Hl Hlb),
    (leases_dispatched _ _ _ _ _ _ _ _ Hl Hlb).
  destruct Hlim as (? & ? & ? & ? & _). case_match; split_and!; lia || done.
Qed.

(** C4: ordering keys. On a subscription ordered by key, a returned delivery that
    has a key is the oldest of all rows of that key that are available or in
    flight after the pull: every other such row was created later. So one pull
    never returns two deliveries of a key, nor one whose predecessor is still
    being worked on. *)
Theorem pull_oldest_of_key request w r w' s x d e k :
  PullQueueDeliveries request w = (Ok r, w') -> delivery_inv (w_db w) ->
  get_subscription (pr_AppID request) (pr_SubscriptionID request) (w_db w) = Some s ->
  sub_OrderingMode s = QueueOrderingKey ->
  x ∈ r -> queue_deliveries (w_db w') !! qd_ID x = Some d -> is_Some (d_ordering_key d) ->
  queue_deliveries (w_db w') !! k = Some e -> active e = true ->
  d_subscription_id e = d_subscription_id d -> d_ordering_key e = d_ordering_key d ->
  d_id e <> d_id d -> row_lt d e.
Proof.
  intros Hrun Hinv Hget Hmode Hx Hd Hk He Hac Hs Hke Hne.
  apply pull_run in Hrun as (s' & Hget' & Hout). simplify_eq.
  eapply pull_outcome_oldest; eauto.
Qed.

(** Priority. A row that the reclaimed state offers (eligible and not locked
    by another transaction) but that the pull left out ranks, by aged priority,
    availability, creation and identifier, after every delivery returned. *)
Theorem pull_takes_best request w r w' s :
  PullQueueDeliveries request w = (Ok r, w') -> delivery_inv (w_db w) ->
  get_subscription (pr_AppID request) (pr_SubscriptionID request) (w_db w) = Some s ->
  r <> [] ->
  exists db1, reclaim_phase request s (w_db w) db1 /\
  forall x e,
    x ∈ r -> queue_deliveries db1 !! d_id e = Some e ->
    eligible (pr_SubscriptionID request) (pr_Now request) (sub_OrderingMode s) db1 e = true ->
    d_id e ∉ w_locked w -> d_id e ∉ (qd_ID <$> r) ->
    exists d, queue_deliveries db1 !! qd_ID x = Some d /\ pull_before (pr_Now request) d e.
Proof.
  intros Hrun Hinv Hget Hne. apply pull_run in Hrun as (s' & Hget' & Hout). simplify_eq.
  destruct Hout as [|?????|db1 limit sel db' _ _ _ Hrec H0 Hlim Hsel Hlen Hl]; [done..|].
  exists db1. split; [done|]. intros x e Hx He Hel Hlk Hni.
  apply reclaim_phase_inv in Hrec as (Hinv1 & _); [|done].
  apply list_elem_of_lookup in Hx as [i Hi].
  apply lookup_zip_with_Some in Hi as ([d ev] & receipt & -> & Hi & _).
  apply list_elem_of_lookup_2 in Hi. exists d. split.
  { rewrite Hsel in Hi. by eapply candidates_row in Hi as (? & _). }
  eapply candidates_rank; [exact Hinv1| |exact Hel|exact He|exact Hlk|].
  - rewrite <- Hsel. apply list_elem_of_fmap. by exists (d, ev).
  - rewrite <- Hsel. intros ([e' ev'] & -> & Hin)%list_elem_of_fmap. apply Hni.
    eapply (zip_with_elem (delivered request (pull_visibility request s'))) in Hin as [rc Hin];
      [|exact Hlen]. apply list_elem_of_fmap. eexists. split; [|exact Hin]. done.
Qed.


End claims.

(** ** Evaluated instances *)

Definition demo_pull_request : QueuePullRequest := demo_request 10 ["r1"; "r2"; "r3"].
Definition demo_pulled : list QueueDelivery :=
  match result (PullQueueDeliveries demo_pull_request) demo_db with Ok l => l | Err _ => [] end.
Definition demo_pulled_world : World QueueDB :=
  (PullQueueDeliveries demo_pull_request (world demo_db)).2.

Lemma demo_pulled_run :
  PullQueueDeliveries demo_pull_request (world demo_db) = (Ok demo_pulled, demo_pulled_world).
Proof. vm_compute. reflexivity. Qed.

Definition demo_first : QueueDelivery :=
  default (mkQueueDelivery "" "" (mkEvent "" "" "" [] "" 0 None) "" 0 0 0 "" 0 "")
    (head demo_pulled).

Lemma demo_first_in : demo_first ∈ demo_pulled.
Proof. vm_compute. apply list_elem_of_here. Qed.

Lemma pull_grants_leases_witness :
  exists d', queue_deliveries (w_db demo_pulled_world) !! "qdl_1" = Some d'
             /\ d_status d' = InFlight /\ d_attempts d' = 1
             /\ d_lease_expires_at d' = Some (at_second 70).
Proof.
  destruct (pull_grants_leases _ _ _ _ _ demo_pulled_run demo_inv demo_first_in)
    as (s & d & d' & _ & _ & Hd' & _ & _ & _ & Hst & _ & _ & _ & Hat & _ & _ & Hex & _).
  exists d'. split; [exact Hd'|]. split; [exact Hst|]. split; [exact Hat|exact Hex].
Defined.

(** The same subscription ten seconds later: the two leases are still running. *)
Definition demo_second_request : QueuePullRequest := demo_request 20 ["r4"; "r5"].
Definition demo_db2 : QueueDB := w_db demo_pulled_world.
Definition demo_second_world : World QueueDB :=
  (PullQueueDeliveries demo_second_request (world demo_db2)).2.

Lemma demo_second_run :
  PullQueueDeliveries demo_second_request (world demo_db2) = (Ok [], demo_second_world).
Proof. vm_compute. reflexivity. Qed.

Lemma demo_inv2 : delivery_inv demo_db2.
Proof. apply delivery_inv_b_sound. vm_compute. reflexivity. Qed.

Definition demo_leased : Delivery :=
  default (demo_delivery "" "" None 0) (queue_deliveries demo_db2 !! "qdl_1").

Lemma pull_respects_leases_witness :
  queue_deliveries (w_db demo_second_world) !! "qdl_1" = Some demo_leased.
Proof.
  apply (pull_respects_leases demo_second_request (world demo_db2) [] demo_second_world
           "qdl_1" demo_leased demo_second_run demo_inv2).
  - vm_compute. reflexivity.
  - right. split; vm_compute; reflexivity.
Defined.

Lemma pull_within_limits_witness :
  exists s, get_subscription "app_a" "sub_1" demo_db = Some s
            /\ Z.of_nat (in_flight_now "sub_1" (w_db demo_pulled_world)) <= sub_MaxInFlight s.
Proof.
  destruct (pull_within_limits _ _ _ _ demo_pulled_run demo_inv) as (s & Hs & _ & _ & _ & Hf & _).
  - vm_compute. discriminate.
  - exists s. split; [exact Hs|exact Hf].
Defined.

Lemma pull_oldest_of_key_witness :
  row_lt demo_leased (demo_delivery "qdl_2" "evt_2" (Some "k") 2).
Proof.
  apply (pull_oldest_of_key demo_pull_request (world demo_db) demo_pulled demo_pulled_world
           demo_subscription demo_first _ _ "qdl_2" demo_pulled_run demo_inv).
  - vm_compute. reflexivity.
  - reflexivity.
  - exact demo_first_in.
  - vm_compute. reflexivity.
  - exists "k". vm_compute. reflexivity.
  - vm_compute. reflexivity.
  - vm_compute. reflexivity.
  - vm_compute. reflexivity.
  - vm_compute. reflexivity.
  - vm_compute. discriminate.
Defined.

(** A pull limited to one delivery takes [qdl_1] and leaves [qdl_3]. *)
Definition demo_one_request : QueuePullRequest :=
  mkPullRequest "app_a" "sub_1" 1 0 (at_second 10) ["r1"].
Definition demo_one : list QueueDelivery :=
  match result (PullQueueDeliveries demo_one_request) demo_db with Ok l => l | Err _ => [] end.
Definition demo_one_world : World QueueDB :=
  (PullQueueDeliveries demo_one_request (world demo_db)).2.

Lemma demo_one_run :
  PullQueueDeliveries demo_one_request (world demo_db) = (Ok demo_one, demo_one_world).
Proof. vm_compute. reflexivity. Qed.

Lemma pull_takes_best_witness :
  exists d, d_id d = "qdl_1"
            /\ pull_before (at_second 10) d (demo_delivery "qdl_3" "evt_3" None 3).
Proof.
  destruct (pull_takes_best _ _ _ _ demo_subscription demo_one_run demo_inv)
    as (db1 & Hdb1 & Hbest).
  - vm_compute. reflexivity.
  - vm_compute. discriminate.
  - pose proof (reclaim_phase_lookup _ _ _ _ "qdl_3" Hdb1) as H3.
    pose proof (reclaim_phase_lookup _ _ _ _ "qdl_1" Hdb1) as H1.
    destruct (Hbest (default demo_first (head demo_one)) (demo_delivery "qdl_3" "evt_3" None 3))
      as (d & Hd & Hbefore).
    + vm_compute. apply list_elem_of_here.
    + etransitivity; [exact H3|]. vm_compute. reflexivity.
    + vm_compute. reflexivity.
    + apply not_elem_of_empty.
    + apply (bool_decide_unpack _). vm_compute. exact I.
    + exists d. split; [|exact Hbefore].
      change (queue_deliveries db1 !! "qdl_1" = Some d) in Hd. rewrite H1 in Hd.
      assert (Some "qdl_1" = d_id <$> Some d) as Hid
        by (rewrite <- Hd; vm_compute; reflexivity).
      simpl in Hid. congruence.
Defined.

