(* ===== verification/QueueSettle.v ===== *)
(** * Settling and extending leases, dead letters

    The successful runs of [SettleQueueDeliveries], [ExtendQueueLeases],
    [ReplayQueueDeadLetters] and [DeleteQueueDeadLetters], and their theorems. *)

From S2P Require Import Prelude GoLib Crypto Json Domain QueueSchema QueueStore.
From S2P Require Import QueueLifecycle QueuePull.

Section settle.
Context `{Postgres}.

Lemma update_where_none (p : Delivery -> bool) f (T : gmap string Delivery) :
  (forall k d, T !! k = Some d -> p d = false) -> update_where p f T = T.
Proof.
  intros Hp. apply map_eq. intros k. rewrite lookup_update_where.
  destruct (T !! k) as [d|] eqn:E; [|done]. simpl. by rewrite (Hp k d).
Qed.

(** The invariant looks at four tables only. *)
Lemma delivery_inv_ext db db' :
  queue_deliveries db' = queue_deliveries db ->
  queue_delivery_attempts db' = queue_delivery_attempts db ->
  queue_subscriptions db' = queue_subscriptions db -> events db' = events db ->
  delivery_inv db -> delivery_inv db'.
Proof. intros H1 H2 H3 H4 []. by split; rewrite ?H1, ?H2, ?H3, ?H4. Qed.

(** ** One settlement *)

Definition row_of (s : QueueSubscription) (now : Z) (st : QueueSettlement)
    (next : DeliveryStatus) : Delivery -> Delivery :=
  settle_row next (settle_available_at st now) (st_Reason st) now (sub_MaxAttempts s).

Lemma next_status_not_in_flight st next : next_status st = Some next -> next <> InFlight.
Proof. unfold next_status. case_match; naive_solver. Qed.

Lemma holds_lease_status app sub hash now d :
  holds_lease app sub hash now d = true ->
  d_status d = InFlight /\ d_subscription_id d = sub /\ d_app_id d = app
  /\ d_receipt_hash d = Some hash /\ null_gt (d_lease_expires_at d) now = true.
Proof.
  unfold holds_lease, in_subscription, is_status, null_eq. intros. bool_to_prop. tauto.
Qed.

Lemma settle_row_step next av reason now maxA d :
  d_status d = InFlight -> next <> InFlight ->
  row_update d (settle_row next av reason now maxA d).
Proof. intros. unfold settle_row. case_match; by constructor. Qed.

Lemma settle_row_status next av reason now maxA d :
  next <> InFlight -> d_status (settle_row next av reason now maxA d) <> InFlight.
Proof. intros. unfold settle_row. by case_match. Qed.

Lemma settle_row_id next av reason now maxA d :
  d_id (settle_row next av reason now maxA d) = d_id d
  /\ d_generation (settle_row next av reason now maxA d) = d_generation d
  /\ d_attempts (settle_row next av reason now maxA d) = d_attempts d.
Proof. unfold settle_row. by case_match. Qed.

Lemma insert_result_callback_run s did eid g a st now w u w' :
  insertQueueResultCallback s did eid g a st now w = (Ok u, w') ->
  exists t, w_db w' = set_callbacks t (w_db w).
Proof.
  unfold insertQueueResultCallback. destruct (bool_decide _); cbv iota zeta;
    (case_match; intros Hrun; run_inv; [|eexists; symmetry; apply set_callbacks_id]);
    case_match; simplify_eq; eauto.
Qed.

Lemma do_insert_attempt_run k a w u w' :
  do_insert_attempt k a w = (Ok u, w') ->
  queue_delivery_attempts (w_db w) !! k = None
  /\ w_db w' = set_attempts (<[k:=a]> (queue_delivery_attempts (w_db w))) (w_db w).
Proof.
  unfold do_insert_attempt, insert_attempt. intros Hrun. run_inv.
  destruct (queue_delivery_attempts (w_db w) !! k); simplify_eq. done.
Qed.

(** What a settlement does: nothing, or it releases the rows its receipt holds
    and records one attempt. *)
Inductive settled (s : QueueSubscription) (app sub : string) (now : Z) (st : QueueSettlement)
    (db : QueueDB) : QueueSettlementResult -> QueueDB -> Prop :=
| settled_invalid :
    next_status st = None
    \/ (forall k d, queue_deliveries db !! k = Some d ->
          holds_lease app sub (queueReceiptHash (st_Receipt st)) now d = false) ->
    settled s app sub now st db (mkSettlementResult (st_Receipt st) InvalidReceipt) db
| settled_released next d0 outcome reason t :
    next_status st = Some next ->
    let hit := holds_lease app sub (queueReceiptHash (st_Receipt st)) now in
    let d := row_of s now st next d0 in
    head (select_where hit (queue_deliveries db)) = Some d0 ->
    settled_outcome (st_Disposition st) (d_status d) (st_Reason st) = (outcome, reason) ->
    queue_delivery_attempts db !! (d_id d, d_generation d, d_attempts d, outcome) = None ->
    settled s app sub now st db
      (mkSettlementResult (st_Receipt st) (Persisted (d_status d)))
      (set_callbacks t (set_attempts
         (<[(d_id d, d_generation d, d_attempts d, outcome)
            := mkAttempt (nullif_empty reason) now]> (queue_delivery_attempts db))
         (set_deliveries (update_where hit (row_of s now st next) (queue_deliveries db)) db))).

Lemma settle_one_run s app sub now st w r w' :
  settle_one s app sub now st w = (Ok r, w') ->
  settled s app sub now st (w_db w) r (w_db w').
Proof.
  unfold settle_one. destruct (next_status st) as [next|] eqn:Hn; intros Hrun; run_inv;
    [|constructor; by left].
  unfold settle_update in *.
  destruct (head (select_where _ _)) as [d0|] eqn:Hh; simpl in *; simplify_eq.
  2:{ run_inv. match goal with Hd : set_deliveries _ _ = w_db _ |- _ => rewrite <- Hd end.
      assert (forall k d, queue_deliveries (w_db w) !! k = Some d ->
        holds_lease app sub (queueReceiptHash (st_Receipt st)) now d = false) as Hnone.
      { intros k d Hk. destruct (holds_lease _ _ _ _ d) eqn:Hd; [|done].
        assert (d ∈ select_where (holds_lease app sub (queueReceiptHash (st_Receipt st)) now)
          (queue_deliveries (w_db w))) as Hin by (apply elem_of_select; eauto).
        destruct (select_where _ _); [by apply elem_of_nil in Hin|done]. }
      rewrite update_where_none by done.
      replace (set_deliveries (queue_deliveries (w_db w)) (w_db w)) with (w_db w)
        by (by destruct (w_db w)).
      constructor. by right. }
  destruct (settled_outcome _ _ _) as [outcome reason] eqn:Ho. run_inv.
  match goal with Hi : do_insert_attempt _ _ _ = _ |- _ =>
    apply do_insert_attempt_run in Hi as [Hfresh Hdb1] end.
  match goal with Hd : set_deliveries _ _ = w_db _ |- _ => rewrite <- Hd in Hfresh, Hdb1 end.
  match goal with Hc : (if _ then insertQueueResultCallback _ _ _ _ _ _ _ else _) ?w1 = _ |- _ =>
    assert (exists t, w_db w' = set_callbacks t (w_db w1)) as [t Ht] end.
  { case_match; [by eapply insert_result_callback_run|]. run_inv. eexists.
    symmetry. apply set_callbacks_id. }
  rewrite Ht, Hdb1. exact (settled_released s app sub now st (w_db w) next d0 outcome reason t Hn Hh Ho Hfresh).
Qed.

Inductive settled_all (s : QueueSubscription) (app sub : string) (now : Z)
    : list QueueSettlement -> QueueDB -> list QueueSettlementResult -> QueueDB -> Prop :=
| settled_all_nil db : settled_all s app sub now [] db [] db
| settled_all_cons st sts db r db1 rs db' :
    settled s app sub now st db r db1 -> settled_all s app sub now sts db1 rs db' ->
    settled_all s app sub now (st :: sts) db (r :: rs) db'.

Lemma settle_all_run s app sub now sts w rs w' :
  mapM_ (settle_one s app sub now) sts w = (Ok rs, w') ->
  settled_all s app sub now sts (w_db w) rs (w_db w').
Proof.
  revert w rs. induction sts as [|st sts IH]; intros w rs Hrun.
  { cbn [mapM_] in Hrun. run_inv. constructor. }
  cbn [mapM_] in Hrun. run_inv. econstructor; [by eapply settle_one_run|].
  by apply IH.
Qed.

Lemma settle_run app sub sts now w rs w' :
  SettleQueueDeliveries app sub sts now w = (Ok rs, w') ->
  exists s, get_subscription app sub (w_db w) = Some s
    /\ settled_all s app sub now sts (w_db w) rs (w_db w').
Proof.
  unfold SettleQueueDeliveries, scanQueueSubscription. intros Hrun. run_inv.
  match goal with Hm : mapM_ _ _ _ = _ |- _ => apply settle_all_run in Hm end.
  match goal with Hg : get_subscription _ _ _ = Some ?s |- _ => exists s end. split; congruence.
Qed.

(** ** What settling does to a row *)

Definition settles (app sub : string) (now : Z) (d : Delivery) (st : QueueSettlement) : bool :=
  isSome (next_status st) && holds_lease app sub (queueReceiptHash (st_Receipt st)) now d.

Definition settled_row (s : QueueSubscription) (now : Z) (st : QueueSettlement) (d : Delivery)
    : Delivery :=
  match next_status st with Some next => row_of s now st next d | None => d end.

Definition settle_once (s : QueueSubscription) (app sub : string) (now : Z)
    (st : QueueSettlement) (d : Delivery) : Delivery :=
  if settles app sub now d st then settled_row s now st d else d.

(** The first settlement whose receipt holds the row decides. *)
Definition settle_first (s : QueueSubscription) (app sub : string) (now : Z)
    (sts : list QueueSettlement) (d : Delivery) : Delivery :=
  match List.find (settles app sub now d) sts with
  | Some st => settled_row s now st d
  | None => d
  end.

Lemma settled_lookup s app sub now st db r db' id :
  settled s app sub now st db r db' ->
  queue_deliveries db' !! id = settle_once s app sub now st <$> queue_deliveries db !! id.
Proof.
  unfold settle_once, settles, settled_row.
  destruct 1 as [Hnone|next d0 outcome reason t Hn hit d _ _ _]; cbn -[update_where].
  - destruct (queue_deliveries db !! id) as [d|] eqn:E; [|done]. simpl.
    destruct Hnone as [->|Hno]; [done|]. by rewrite (Hno _ _ E), andb_false_r.
  - rewrite lookup_update_where, Hn. destruct (queue_deliveries db !! id); [|done]. done.
Qed.

Lemma settled_row_status s now st d :
  is_Some (next_status st) -> d_status (settled_row s now st d) <> InFlight.
Proof.
  intros [next Hn]. unfold settled_row, row_of. rewrite Hn.
  eapply settle_row_status, next_status_not_in_flight, Hn.
Qed.

Lemma settles_status app sub now d st : settles app sub now d st = true -> d_status d = InFlight.
Proof.
  unfold settles. intros Hs. bool_to_prop. destruct Hs as [_ Hs].
  by apply holds_lease_status in Hs as [? _].
Qed.

Lemma settle_first_idle s app sub now sts d :
  d_status d <> InFlight -> settle_first s app sub now sts d = d.
Proof.
  intros Hs. unfold settle_first. destruct (List.find _ sts) eqn:E; [|done].
  by apply List.find_some in E as [_ ?%settles_status].
Qed.

Lemma settled_all_lookup s app sub now sts db rs db' id :
  settled_all s app sub now sts db rs db' ->
  queue_deliveries db' !! id = settle_first s app sub now sts <$> queue_deliveries db !! id.
Proof.
  induction 1 as [|st sts db r db1 rs db' H1 _ IH].
  { by destruct (queue_deliveries db !! id). }
  rewrite IH, (settled_lookup _ _ _ _ _ _ _ _ _ H1).
  destruct (queue_deliveries db !! id) as [d|]; [|done]. simpl. f_equal.
  unfold settle_once. unfold settle_first at 2. simpl.
  destruct (settles app sub now d st) eqn:E; [|done].
  apply settle_first_idle, settled_row_status.
  unfold settles, isSome in E. destruct (next_status st); [by eexists|done].
Qed.

Lemma settled_all_receipts s app sub now sts db rs db' :
  settled_all s app sub now sts db rs db' -> sres_Receipt <$> rs = st_Receipt <$> sts.
Proof.
  induction 1 as [|st sts db r db1 rs db' H1 _ IH]; [done|].
  rewrite !fmap_cons, IH. f_equal. by destruct H1.
Qed.

(** *** The invariant *)

Lemma settled_moved s app sub now st db r db' :
  settled s app sub now st db r db' ->
  rows_moved (queue_deliveries db) (queue_deliveries db').
Proof.
  destruct 1 as [|next d0 outcome reason t Hn hit d _ _ _]; [done|]. simpl.
  apply update_where_moved. intros id d' _ Hd'. apply settle_row_step.
  - by apply holds_lease_status in Hd' as [? _].
  - by eapply next_status_not_in_flight.
Qed.

Lemma settled_inv s app sub now st db r db' :
  settled s app sub now st db r db' -> delivery_inv db ->
  delivery_inv db' /\ queue_subscriptions db' = queue_subscriptions db
  /\ events db' = events db.
Proof.
  intros Hset Hinv. pose proof (settled_moved _ _ _ _ _ _ _ _ Hset) as Hm.
  destruct Hset as [|next d0 outcome reason t Hn hit d Hh _ _]; [done|].
  split; [|done]. eapply delivery_inv_moved; [exact Hinv|done|done|exact Hm|].
  intros id g a o i. simpl. intros [[Heq _]|[_ Hi]]%lookup_insert_Some; [|eauto]. right.
  apply head_Some_elem_of, elem_of_select in Hh as [Hhit [k Hk]].
  assert (d_id d0 = k) as <- by (by eapply inv_key).
  pose proof (settle_row_id next (settle_available_at st now) (st_Reason st) now
    (sub_MaxAttempts s) d0) as (Hid & _).
  unfold d, row_of in Heq. simplify_eq. rewrite Hid, lookup_update_where, Hk.
  exists (row_of s now st next d0). split; [simpl; by rewrite Hhit|].
  split; [unfold row_of; lia|]. intros _. split; [unfold row_of; lia|].
  intros Hfl. exfalso. revert Hfl.
  eapply settle_row_status, next_status_not_in_flight, Hn.
Qed.

Lemma settled_all_inv s app sub now sts db rs db' :
  settled_all s app sub now sts db rs db' -> delivery_inv db ->
  delivery_inv db' /\ rows_moved (queue_deliveries db) (queue_deliveries db')
  /\ queue_subscriptions db' = queue_subscriptions db /\ events db' = events db.
Proof.
  induction 1 as [|st sts db r db1 rs db' H1 _ IH]; intros Hinv; [done|].
  pose proof (settled_moved _ _ _ _ _ _ _ _ H1).
  apply settled_inv in H1 as (Hi & Hs & He); [|done].
  destruct (IH Hi) as (? & ? & ? & ?). split_and!; [done|by etrans|congruence..].
Qed.

Lemma settle_preserves app sub sts now w res w' :
  SettleQueueDeliveries app sub sts now w = (res, w') -> delivery_inv (w_db w) ->
  delivery_inv (w_db w') /\ rows_moved (queue_deliveries (w_db w)) (queue_deliveries (w_db w'))
  /\ queue_subscriptions (w_db w') = queue_subscriptions (w_db w)
  /\ events (w_db w') = events (w_db w).
Proof.
  intros Hrun Hinv. destruct res as [rs|e].
  - apply settle_run in Hrun as (s & _ & Hall). by eapply settled_all_inv.
  - apply transaction_err_db in Hrun. by rewrite Hrun.
Qed.

(** *** The results *)

Lemma settled_result s app sub now st db r db' :
  settled s app sub now st db r db' ->
  ((forall k d, queue_deliveries db !! k = Some d -> settles app sub now d st = false) ->
   sres_Status r = InvalidReceipt)
  /\ (forall k d, queue_deliveries db !! k = Some d -> settles app sub now d st = true ->
      (forall k' d', queue_deliveries db !! k' = Some d' -> settles app sub now d' st = true ->
         d' = d) ->
      sres_Status r = Persisted (d_status (settled_row s now st d))).
Proof.
  unfold settles, settled_row.
  destruct 1 as [Hnone|next d0 outcome reason t Hn hit d Hh _ _]; simpl.
  - split; [done|]. intros k d Hk Hs _. exfalso.
    destruct Hnone as [Hno|Hno]; [by rewrite Hno in Hs|].
    by rewrite (Hno _ _ Hk), andb_false_r in Hs.
  - apply head_Some_elem_of, elem_of_select in Hh as [Hhit [k0 Hk0]]. rewrite Hn. simpl.
    split; [intros Hno; specialize (Hno _ _ Hk0); unfold hit in Hhit; congruence|].
    intros k d' Hk Hd' Huniq. by rewrite <- (Huniq _ _ Hk0 Hhit).
Qed.

Lemma settled_all_nth s app sub now sts db rs db' i st r :
  settled_all s app sub now sts db rs db' -> sts !! i = Some st -> rs !! i = Some r ->
  exists dbi dbi', settled_all s app sub now (take i sts) db (take i rs) dbi
    /\ settled s app sub now st dbi r dbi'.
Proof.
  intros Hall. revert i. induction Hall as [|st0 sts db r0 db1 rs db' H1 _ IH];
    intros [|i] Hi Hr; simplify_eq/=.
  - exists db, db1. split; [constructor|done].
  - destruct (IH i Hi Hr) as (dbi & dbi' & ? & ?). exists dbi, dbi'. split; [|done].
    by econstructor.
Qed.

(** ** Extending *)

Definition extend_once (app sub : string) (now : Z) (d : Delivery) (ext : QueueLeaseExtension)
    : Delivery :=
  if holds_lease app sub (queueReceiptHash (ext_Receipt ext)) now d
  then extend_row (ext_Extension ext) now d else d.

Lemma extend_one_run app sub now ext w r w' :
  extend_one app sub now ext w = (Ok r, w') ->
  w_db w' = set_deliveries (update_where
              (holds_lease app sub (queueReceiptHash (ext_Receipt ext)) now)
              (extend_row (ext_Extension ext) now) (queue_deliveries (w_db w))) (w_db w)
  /\ sres_Receipt r = ext_Receipt ext.
Proof. unfold extend_one. intros Hrun. run_inv. simplify_eq. done. Qed.

Lemma extend_all_run app sub now exts w rs w' :
  mapM_ (extend_one app sub now) exts w = (Ok rs, w') ->
  w_db w' = set_deliveries (queue_deliveries (w_db w')) (w_db w)
  /\ sres_Receipt <$> rs = ext_Receipt <$> exts
  /\ forall id, queue_deliveries (w_db w') !! id
       = (fun d => foldl (extend_once app sub now) d exts) <$> queue_deliveries (w_db w) !! id.
Proof.
  revert w rs. induction exts as [|ext exts IH]; intros w rs Hrun; cbn [mapM_] in Hrun; run_inv.
  { split_and!; [by destruct (w_db _)|done|]. intros id. by destruct (queue_deliveries _ !! id). }
  match goal with He : extend_one _ _ _ _ _ = _ |- _ => apply extend_one_run in He as [Hdb Hr] end.
  match goal with Hm : mapM_ _ _ _ = _ |- _ => apply IH in Hm as (Hdb' & Hrs & Hlk) end.
  split_and!.
  - rewrite Hdb', Hdb. done.
  - rewrite !fmap_cons. by f_equal.
  - intros id. rewrite Hlk, Hdb. cbn -[update_where]. rewrite lookup_update_where.
    by destruct (queue_deliveries (w_db w) !! id).
Qed.

Lemma extend_run app sub exts now w rs w' :
  ExtendQueueLeases app sub exts now w = (Ok rs, w') ->
  is_Some (get_subscription app sub (w_db w))
  /\ w_db w' = set_deliveries (queue_deliveries (w_db w')) (w_db w)
  /\ sres_Receipt <$> rs = ext_Receipt <$> exts
  /\ forall id, queue_deliveries (w_db w') !! id
       = (fun d => foldl (extend_once app sub now) d exts) <$> queue_deliveries (w_db w) !! id.
Proof.
  unfold ExtendQueueLeases, scanQueueSubscription. intros Hrun. run_inv.
  match goal with Hm : mapM_ _ _ _ = _ |- _ => apply extend_all_run in Hm as (? & ? & Hlk) end.
  match goal with Hg : get_subscription _ _ _ = Some ?s |- _ =>
    assert (get_subscription app sub (w_db w) = Some s) by congruence end.
  repeat match goal with Hd : w_db ?x = w_db ?y |- _ => rewrite Hd in *; clear Hd end.
  split_and!; [by eexists|done..].
Qed.

(** What repeated extensions can do to a row: the lease end moves within its
    bound, nothing else but [updated_at] changes. *)
Definition extended_from (d d' : Delivery) : Prop :=
  d' = with_lease d (d_status d) (d_attempts d) (d_available_at d) (d_receipt_hash d)
         (d_lease_started_at d) (d_lease_expires_at d') (d_lease_max_expires_at d)
         (d_last_reason d) (d_updated_at d')
  /\ forall e m, d_lease_expires_at d = Some e -> d_lease_max_expires_at d = Some m -> e <= m ->
       exists e', d_lease_expires_at d' = Some e' /\ e <= e' <= m.

Lemma extended_from_refl d : extended_from d d.
Proof. split; [by destruct d|]. intros e m He _ Hle. exists e. split; [done|lia]. Qed.

Lemma extended_from_trans d1 d2 d3 :
  extended_from d1 d2 -> extended_from d2 d3 -> extended_from d1 d3.
Proof.
  intros [E1 H1] [E2 H2]. split.
  - destruct d1, d2, d3. unfold with_lease in *. cbn in *. injection E1; injection E2; by intros; subst.
  - intros e m He Hm Hle. destruct (H1 e m He Hm Hle) as (e1 & He1 & ?).
    destruct (H2 e1 m) as (e2 & He2 & ?); [done| |lia|eexists; split; [done|lia]].
    rewrite E1. done.
Qed.

Lemma extend_row_from d extension now :
  0 <= extension -> d_status d = InFlight -> extended_from d (extend_row extension now d).
Proof.
  intros Hext _. split; [done|]. intros e m He Hm Hle. unfold extend_row, microseconds. simpl.
  rewrite He, Hm. eexists. split; [done|].
  assert (0 <= Z.quot extension 1000) by (apply Z.quot_pos; lia). lia.
Qed.

Lemma extend_fold_from app sub now exts d :
  Forall (fun ext => 0 <= ext_Extension ext) exts ->
  extended_from d (foldl (extend_once app sub now) d exts).
Proof.
  intros Hpos. revert d. induction Hpos as [|ext exts Hext _ IH]; intros d; simpl;
    [apply extended_from_refl|].
  eapply extended_from_trans; [|apply IH]. unfold extend_once.
  destruct (holds_lease _ _ _ _ d) eqn:Hh; [|apply extended_from_refl].
  apply extend_row_from; [done|]. by apply holds_lease_status in Hh as [? _].
Qed.

Lemma extend_fold_moved app sub now exts d :
  rtc row_update d (foldl (extend_once app sub now) d exts).
Proof.
  revert d. induction exts as [|ext exts IH]; intros d; simpl; [apply rtc_refl|].
  etrans; [|apply IH]. unfold extend_once.
  destruct (holds_lease _ _ _ _ d) eqn:Hh; [|apply rtc_refl].
  apply rtc_once, step_extend. by apply holds_lease_status in Hh as [? _].
Qed.

Lemma extend_fold_unheld app sub now exts d :
  Forall (fun ext => holds_lease app sub (queueReceiptHash (ext_Receipt ext)) now d = false) exts ->
  foldl (extend_once app sub now) d exts = d.
Proof.
  induction 1 as [|ext exts Hext _ IH]; [done|]. simpl. unfold extend_once at 2.
  by rewrite Hext.
Qed.

Lemma extend_preserves app sub exts now w res w' :
  ExtendQueueLeases app sub exts now w = (res, w') -> delivery_inv (w_db w) ->
  delivery_inv (w_db w') /\ rows_moved (queue_deliveries (w_db w)) (queue_deliveries (w_db w'))
  /\ queue_subscriptions (w_db w') = queue_subscriptions (w_db w)
  /\ events (w_db w') = events (w_db w).
Proof.
  intros Hrun Hinv. destruct res as [rs|e].
  2:{ apply transaction_err_db in Hrun. by rewrite Hrun. }
  apply extend_run in Hrun as (_ & Hdb & _ & Hlk).
  assert (rows_moved (queue_deliveries (w_db w)) (queue_deliveries (w_db w'))) as Hm.
  { intros id. rewrite Hlk. destruct (queue_deliveries (w_db w) !! id); constructor.
    apply extend_fold_moved. }
  assert (queue_subscriptions (w_db w') = queue_subscriptions (w_db w)
    /\ events (w_db w') = events (w_db w)
    /\ queue_delivery_attempts (w_db w') = queue_delivery_attempts (w_db w)) as (? & ? & Hat)
    by (rewrite Hdb; done).
  split_and!; [|done..].
  eapply delivery_inv_moved; [exact Hinv|done|done|exact Hm|]. rewrite Hat. eauto.
Qed.

End settle.
