(* ===== verification/QueueSettleClaims.v ===== *)
(** * Theorems about settling and extending leases *)

From S2P Require Import Prelude GoLib Crypto Json Domain QueueSchema QueueStore.
From S2P Require Import QueueLifecycle QueuePull QueuePullClaims QueueSettle.

(** What [List.find] finds, and what comes before. *)
Lemma find_split {A} (p : A -> bool) l a : List.find p l = Some a ->
  exists before after, l = (before ++ a :: after)%list /\ p a = true /\ forall x, x ∈ before -> p x = false.
Proof.
  induction l as [|x l IH]; [done|]. cbn. destruct (p x) eqn:Hx.
  - intros [= ->]. exists [], l. split_and!; [done|done|]. intros y Hy. by apply not_elem_of_nil in Hy.
  - intros (b & c & -> & Ha & Hb)%IH. exists (x :: b), c. split_and!; [done|done|]. intros y [->|Hy]%elem_of_cons; auto.
Qed.

Section claims.
Context `{Postgres}.

(** ** What a settlement means *)

(** The settlement names the lease of a delivery: it is one of the three known
    dispositions, the delivery belongs to the subscription of the application and is in
    flight under the hash of the receipt, and its lease ends after now. *)
Definition names_lease (app sub : string) (now : Z) (st : QueueSettlement) (d : Delivery) : Prop :=
  st_Disposition st ∈ [QueueAcknowledge; QueueRetry; QueueToDeadLetter]
  /\ d_subscription_id d = sub /\ d_app_id d = app /\ d_status d = InFlight
  /\ d_receipt_hash d = Some (queueReceiptHash (st_Receipt st))
  /\ exists expires, d_lease_expires_at d = Some expires /\ now < expires.
(** The delivery without its lease, in a status, available from a time, with a reason. *)
Definition freed (d : Delivery) (status : DeliveryStatus) (available : Z) (reason : option string) (now : Z) : Delivery :=
  mkDelivery (d_id d) (d_subscription_id d) (d_app_id d) (d_event_id d) (d_generation d) status (d_attempts d) available
    None None None None (d_ordering_key d) (d_priority d) (d_metadata d) reason (d_created_at d) now (d_expires_at d).
Definition given_reason (st : QueueSettlement) : option string := if decide (st_Reason st = "") then None else Some (st_Reason st).
(** What the disposition makes of the delivery. *)
Inductive disposed (max now : Z) (st : QueueSettlement) (d : Delivery) : Delivery -> Prop :=
| disposed_ack : st_Disposition st = QueueAcknowledge -> disposed max now st d (freed d Acked now (given_reason st) now)
| disposed_dead : st_Disposition st = QueueToDeadLetter -> disposed max now st d (freed d DeadLetter now (given_reason st) now)
| disposed_retry : st_Disposition st = QueueRetry -> d_attempts d < max ->
    disposed max now st d (freed d Available (now + st_Delay st) (given_reason st) now)
| disposed_exhausted : st_Disposition st = QueueRetry -> max <= d_attempts d ->
    disposed max now st d (freed d DeadLetter (now + st_Delay st) (Some "max_attempts_exhausted") now).

Lemma settles_names app sub now d st : settles app sub now d st = true <-> names_lease app sub now st d.
Proof.
  assert (isSome (next_status st) = true <-> st_Disposition st ∈ [QueueAcknowledge; QueueRetry; QueueToDeadLetter]) as Hknown.
  { unfold next_status. destruct (st_Disposition st); cbn [isSome]; set_solver. }
  unfold settles, names_lease, holds_lease, in_subscription, is_status, null_eq. rewrite !andb_true_iff, Hknown, !bool_decide_eq_true.
  assert (null_gt (d_lease_expires_at d) now = true <-> exists expires, d_lease_expires_at d = Some expires /\ now < expires) as ->.
  { unfold null_gt. destruct (d_lease_expires_at d); [rewrite Z.ltb_lt|]; naive_solver. }
  tauto.
Qed.
Lemma settled_disposed app sub s now st d : names_lease app sub now st d -> disposed (sub_MaxAttempts s) now st d (settled_row s now st d).
Proof.
  intros [Hd _]. assert (nullif_empty (st_Reason st) = given_reason st) as Hr.
  { unfold nullif_empty, given_reason. by repeat case_decide || case_bool_decide. }
  unfold settled_row, next_status, row_of, settle_row, settle_available_at. rewrite Hr.
  destruct (st_Disposition st) eqn:E; cbn; [..|set_solver].
  all: try (destruct (Z.leb_spec (sub_MaxAttempts s) (d_attempts d))); by constructor.
Qed.

(** C6: the effect of a settlement batch. The results come back in the order of
    the settlements, one each. A delivery is changed exactly if some settlement of the
    batch names its running lease; then the first such settlement decides: it is
    acknowledged, given up, or made available again after the requested delay, unless
    its attempts are used up, and loses its lease. No other row changes, appears or
    disappears. *)
Theorem settle_effect app sub sts now w rs w' :
  SettleQueueDeliveries app sub sts now w = (Ok rs, w') ->
  exists s, get_subscription app sub (w_db w) = Some s
  /\ sres_Receipt <$> rs = st_Receipt <$> sts
  /\ dom (queue_deliveries (w_db w')) = dom (queue_deliveries (w_db w))
  /\ forall id d, queue_deliveries (w_db w) !! id = Some d ->
       (exists before st after d', sts = (before ++ st :: after)%list /\ names_lease app sub now st d
          /\ (forall st', st' ∈ before -> ~ names_lease app sub now st' d)
          /\ queue_deliveries (w_db w') !! id = Some d' /\ disposed (sub_MaxAttempts s) now st d d')
       \/ (forall st, st ∈ sts -> ~ names_lease app sub now st d) /\ queue_deliveries (w_db w') !! id = Some d.
Proof.
  intros (s & Hs & Hall)%settle_run. exists s. split; [done|].
  split; [by eapply settled_all_receipts|]. pose proof (fun id => settled_all_lookup _ _ _ _ _ _ _ _ id Hall) as Hl. split.
  - apply set_eq. intros id. rewrite !elem_of_dom, Hl. by rewrite fmap_is_Some.
  - intros id d Hd. rewrite Hl, Hd. cbn. unfold settle_first. destruct (List.find _ sts) as [st|] eqn:Hf.
    + left. apply find_split in Hf as (before & after & -> & Hst & Hno). apply settles_names in Hst.
      exists before, st, after, (settled_row s now st d). split_and!; [done|done| |done|by eapply settled_disposed].
      intros st' Hin Hn%settles_names. rewrite (Hno st' Hin) in Hn. done.
    + right. split; [|done]. intros st Hin Hn%settles_names. apply list_elem_of_In, (List.find_none _ _ Hf) in Hin. congruence.
Qed.

(** The results tell the truth. If no row is held by the receipt of the i-th
    settlement the result is [invalid_receipt]; if exactly one row is, and no
    earlier settlement of the batch released it, the result is the status that
    row ends in. *)
Theorem settle_results app sub sts now w rs w' i st r :
  SettleQueueDeliveries app sub sts now w = (Ok rs, w') ->
  sts !! i = Some st -> rs !! i = Some r ->
  exists s, get_subscription app sub (w_db w) = Some s /\
  ((forall k d, queue_deliveries (w_db w) !! k = Some d -> settles app sub now d st = false) ->
   sres_Status r = InvalidReceipt)
  /\ (forall k d, queue_deliveries (w_db w) !! k = Some d -> settles app sub now d st = true ->
      (forall k' d', queue_deliveries (w_db w) !! k' = Some d' ->
         settles app sub now d' st = true -> k' = k) ->
      (forall j st', (j < i)%nat -> sts !! j = Some st' -> settles app sub now d st' = false) ->
      sres_Status r = Persisted (d_status (settled_row s now st d))
      /\ queue_deliveries (w_db w') !! k = Some (settled_row s now st d)).
Proof.
  intros (s & Hs & Hall)%settle_run Hi Hr. exists s. split; [done|].
  destruct (settled_all_nth _ _ _ _ _ _ _ _ _ _ _ Hall Hi Hr) as (dbi & dbi' & Hpre & Hst).
  apply settled_result in Hst as [Hinvalid Hpersisted].
  assert (forall k d, queue_deliveries dbi !! k = Some d -> settles app sub now d st = true ->
    queue_deliveries (w_db w) !! k = Some d) as Hback.
  { intros k d Hk Hd. rewrite (settled_all_lookup _ _ _ _ _ _ _ _ _ Hpre) in Hk.
    destruct (queue_deliveries (w_db w) !! k) as [d0|]; simplify_eq/=. f_equal.
    unfold settle_first in *. destruct (List.find _ _) as [st'|] eqn:E; [|done].
    exfalso. apply List.find_some in E as [_ E]. apply settles_status in Hd. revert Hd.
    apply settled_row_status. unfold settles, isSome in E.
    destruct (next_status st'); [by eexists|done]. }
  split.
  - intros Hnone. apply Hinvalid. intros k d Hk.
    destruct (settles app sub now d st) eqn:E; [|done]. specialize (Hback _ _ Hk E).
    by rewrite (Hnone _ _ Hback) in E.
  - intros k d Hk Hd Huniq Hearlier.
    assert (List.find (settles app sub now d) (take i sts) = None) as Hfind.
    { destruct (List.find _ _) as [st'|] eqn:E; [|done]. exfalso.
      apply List.find_some in E as [Hin E]. apply list_elem_of_In, list_elem_of_lookup in Hin
        as [j Hj]. apply lookup_take_Some in Hj as [Hj Hlt].
      by rewrite (Hearlier _ _ Hlt Hj) in E. }
    split.
    + eapply (Hpersisted k d); [|done|].
      * rewrite (settled_all_lookup _ _ _ _ _ _ _ _ _ Hpre), Hk. simpl.
        unfold settle_first. by rewrite Hfind.
      * intros k' d' Hk' Hd'. pose proof (Hback _ _ Hk' Hd') as Hw.
        rewrite (Huniq _ _ Hw Hd') in Hw. congruence.
    + rewrite (settled_all_lookup _ _ _ _ _ _ _ _ _ Hall), Hk. simpl. f_equal.
      unfold settle_first. rewrite <- (take_drop_middle sts i st Hi).
      rewrite find_app_None by done. simpl. by rewrite Hd.
Qed.

(** A receipt is spent by its settlement. After the batch, and at any later
    time, no row is held by the receipt of any of its settlements, so settling or
    extending with it again is refused. *)
Theorem settle_spends_receipts app sub sts now w rs w' st later id d :
  SettleQueueDeliveries app sub sts now w = (Ok rs, w') ->
  st ∈ sts -> is_Some (next_status st) -> now <= later ->
  queue_deliveries (w_db w') !! id = Some d ->
  holds_lease app sub (queueReceiptHash (st_Receipt st)) later d = false.
Proof.
  intros (s & _ & Hall)%settle_run Hin Hnext Hle Hd.
  rewrite (settled_all_lookup _ _ _ _ _ _ _ _ _ Hall) in Hd.
  destruct (queue_deliveries (w_db w) !! id) as [d0|]; simplify_eq/=.
  destruct (holds_lease _ _ _ later _) eqn:Hh; [|done]. exfalso.
  unfold settle_first in Hh. destruct (List.find _ sts) as [st'|] eqn:E.
  - apply List.find_some in E as [_ E]. apply holds_lease_status in Hh as [Hfl _].
    revert Hfl. apply settled_row_status. unfold settles, isSome in E.
    destruct (next_status st'); [by eexists|done].
  - apply list_elem_of_In in Hin. apply (List.find_none _ _ E) in Hin.
    unfold settles in Hin. destruct Hnext as [next Hn]. rewrite Hn in Hin. simpl in Hin.
    revert Hin. apply not_false_iff_true. unfold holds_lease in *. bool_to_prop.
    destruct_and!. split_and!; [done..|]. unfold null_gt in *.
    destruct (d_lease_expires_at d0); [|done]. bool_to_prop. lia.
Qed.

(** Extending never shortens a lease, never passes its total bound, and
    changes nothing else: every row after the batch is the row before it with a
    later lease end, and a row that no receipt of the batch holds is the same. *)
Theorem extend_bounded app sub exts now w rs w' id d :
  ExtendQueueLeases app sub exts now w = (Ok rs, w') ->
  Forall (fun ext => 0 <= ext_Extension ext) exts ->
  queue_deliveries (w_db w) !! id = Some d ->
  exists d', queue_deliveries (w_db w') !! id = Some d' /\ extended_from d d'
  /\ (Forall (fun ext => holds_lease app sub (queueReceiptHash (ext_Receipt ext)) now d = false)
        exts -> d' = d).
Proof.
  intros (_ & _ & _ & Hlk)%extend_run Hpos Hd. eexists. rewrite Hlk, Hd. split; [done|].
  split; [by apply extend_fold_from|apply extend_fold_unheld].
Qed.

End claims.

(** ** Evaluated instances: [qdl_1] of the example, leased with receipt [r1] *)

Definition demo_settlements : list QueueSettlement :=
  [mkSettlement "r1" QueueRetry (5 * Second) "busy"; mkSettlement "zz" QueueAcknowledge 0 ""].
Definition demo_settled_world : World QueueDB :=
  (SettleQueueDeliveries "app_a" "sub_1" demo_settlements (at_second 20) (world demo_db2)).2.
Definition demo_settle_results : list QueueSettlementResult :=
  [mkSettlementResult "r1" (Persisted Available); mkSettlementResult "zz" InvalidReceipt].

Lemma demo_settle_run :
  SettleQueueDeliveries "app_a" "sub_1" demo_settlements (at_second 20) (world demo_db2)
  = (Ok demo_settle_results, demo_settled_world).
Proof. vm_compute. reflexivity. Qed.

Definition demo_retry : QueueSettlement := mkSettlement "r1" QueueRetry (5 * Second) "busy".
Lemma settle_effect_witness :
  exists st d', st ∈ demo_settlements /\ queue_deliveries (w_db demo_settled_world) !! "qdl_1" = Some d'
            /\ disposed 3 (at_second 20) st demo_leased d'.
Proof.
  destruct (settle_effect _ _ _ _ _ _ _ demo_settle_run) as (s & Hs & _ & _ & Hrows).
  assert (get_subscription "app_a" "sub_1" (w_db (world demo_db2)) = Some demo_subscription)
    as Hs' by (vm_compute; reflexivity).
  rewrite Hs' in Hs. injection Hs as <-.
  destruct (Hrows "qdl_1" demo_leased) as [(before & st & after & d' & Heq & _ & _ & Hd' & Hdis)|[Hno _]].
  - vm_compute. reflexivity.
  - exists st, d'. split; [|split; [exact Hd'|exact Hdis]]. rewrite Heq. apply elem_of_app. right. apply list_elem_of_here.
  - exfalso. apply (Hno demo_retry); [apply list_elem_of_here|]. apply settles_names. vm_compute. reflexivity.
Defined.

Lemma demo_only_holder :
  forallb (fun kd : string * Delivery =>
    negb (settles "app_a" "sub_1" (at_second 20) kd.2 demo_retry) || bool_decide (kd.1 = "qdl_1"))
    (map_to_list (queue_deliveries (w_db (world demo_db2)))) = true.
Proof. vm_compute. reflexivity. Qed.

Lemma settle_results_witness :
  exists s, get_subscription "app_a" "sub_1" (w_db (world demo_db2)) = Some s
  /\ Persisted Available = Persisted (d_status (settled_row s (at_second 20) demo_retry demo_leased)).
Proof.
  destruct (settle_results _ _ _ _ _ _ _ 0%nat demo_retry
    (mkSettlementResult "r1" (Persisted Available)) demo_settle_run) as (s & Hs & _ & Hheld).
  - reflexivity.
  - reflexivity.
  - exists s. split; [exact Hs|].
    destruct (Hheld "qdl_1" demo_leased) as [Hstatus _].
    + vm_compute. reflexivity.
    + vm_compute. reflexivity.
    + intros k' d' Hk' Hd'. pose proof (forallb_entries _ _ _ _ demo_only_holder Hk') as Hf.
      cbn [fst snd] in Hf. rewrite Hd' in Hf. apply bool_decide_eq_true in Hf. exact Hf.
    + intros j st' Hj. inversion Hj.
    + exact Hstatus.
Defined.

Definition demo_retried : Delivery :=
  default demo_leased (queue_deliveries (w_db demo_settled_world) !! "qdl_1").

Lemma settle_spends_receipts_witness :
  holds_lease "app_a" "sub_1" (queueReceiptHash "r1") (at_second 21) demo_retried = false.
Proof.
  apply (settle_spends_receipts _ _ _ _ _ _ _ demo_retry
    (at_second 21) "qdl_1" demo_retried demo_settle_run).
  - apply list_elem_of_here.
  - exists Available. reflexivity.
  - vm_compute. discriminate.
  - vm_compute. reflexivity.
Defined.

Definition demo_extensions : list QueueLeaseExtension := [mkExtension "r1" (100 * Second)].
Definition demo_extended_world : World QueueDB :=
  (ExtendQueueLeases "app_a" "sub_1" demo_extensions (at_second 20) (world demo_db2)).2.

Lemma demo_extend_run :
  ExtendQueueLeases "app_a" "sub_1" demo_extensions (at_second 20) (world demo_db2)
  = (Ok [mkSettlementResult "r1" Extended], demo_extended_world).
Proof. vm_compute. reflexivity. Qed.

Lemma extend_bounded_witness :
  exists d', queue_deliveries (w_db demo_extended_world) !! "qdl_1" = Some d'
             /\ extended_from demo_leased d'.
Proof.
  destruct (extend_bounded _ _ _ _ _ _ _ "qdl_1" demo_leased demo_extend_run)
    as (d' & Hd' & Hfrom & _).
  - repeat constructor. vm_compute. discriminate.
  - vm_compute. reflexivity.
  - exists d'. split; [exact Hd'|exact Hfrom].
Defined.
