(* ===== verification/QueueScheduler.v ===== *)
(** * [store/postgres/queue_scheduler.go]: schedules and draining, and the
    queue part of [PublishEvent]

    Cron schedules with claim fencing, the occurrence that a claimed schedule
    turns into an event and a delivery, the drain of a subscription, and the
    statements of [store/postgres/events.go] that fan an event out to the queue
    subscriptions. *)

From S2P Require Import Prelude GoLib Crypto Json Domain QueueSchema QueueStore.

Record QueueScheduleCompletion := mkCompletion {
  sc_ScheduleID : string;
  sc_ClaimToken : string;
  sc_EventID : string;
  sc_DeliveryID : string;
  sc_ClaimGeneration : Z;
  sc_OccurrenceAt : Z;
  sc_NextRunAt : Z;
  sc_Now : Z
}.

(** The columns a query returns, with [COALESCE] on the nullable text ones. *)
Definition scanQueueSchedule (r : Schedule) : QueueSchedule :=
  mkSchedule (sr_id r) (sr_app_id r) (sr_subscription_id r) (sr_name r) (sr_enabled r)
    (sr_cron_expression r) (sr_timezone r) (sr_event_type r) (sr_data r)
    (coalesce_empty (sr_ordering_key r)) (sr_priority r) (sr_metadata r) (sr_next_run_at r)
    (sr_last_run_at r) (sr_policy_version r) (sr_created_at r) (sr_updated_at r)
    (coalesce_empty (sr_claim_token r)) (sr_claim_generation r).

(** CHECK constraints of [queue_schedules]; a jsonb object prints as [{...}]. *)
Definition schedule_check (r : Schedule) : bool :=
  HasPrefix (sr_data r) "{" && between (-10) (sr_priority r) 10
  && (0 <=? sr_claim_generation r) && (0 <? sr_policy_version r)
  && Bool.eqb (isNone (sr_claim_token r)) (isNone (sr_claim_expires_at r)).

(** UNIQUE (app_id, subscription_id, name) *)
Definition schedule_name_taken (r : Schedule) (t : gmap string Schedule) : bool :=
  existsb (fun o => negb (bool_decide (sr_id o = sr_id r))
                    && bool_decide (sr_app_id o = sr_app_id r)
                    && bool_decide (sr_subscription_id o = sr_subscription_id r)
                    && bool_decide (sr_name o = sr_name r)) (rows t).

Definition claim_row (token : option string) (expires : option Z) (generation : Z)
    (next_run_at : Z) (last_run_at : option Z) (now : Z) (r : Schedule) : Schedule :=
  mkScheduleRow (sr_id r) (sr_app_id r) (sr_subscription_id r) (sr_name r) (sr_enabled r)
    (sr_cron_expression r) (sr_timezone r) (sr_event_type r) (sr_data r) (sr_ordering_key r)
    (sr_priority r) (sr_metadata r) next_run_at last_run_at token expires
    generation (sr_policy_version r) (sr_created_at r) now.

(** [WHERE app_id=$1 AND subscription_id=$2 AND id=$3] *)
Definition get_schedule (appID subscriptionID id : string) (db : QueueDB) : option Schedule :=
  match queue_schedules db !! id with
  | Some r => if bool_decide (sr_app_id r = appID)
                 && bool_decide (sr_subscription_id r = subscriptionID) then Some r else None
  | None => None
  end.

Section scheduler.
Context `{Postgres}.

Definition insert_schedule (item : QueueSchedule) (db : QueueDB) : res (unit * QueueDB) :=
  match to_jsonb (sch_Data item), to_jsonb (sch_Metadata item) with
  | Some data, Some metadata =>
      match get_subscription (sch_AppID item) (sch_SubscriptionID item) db with
      | None => Err StoreNotFound
      | Some _ =>
          let row := mkScheduleRow (sch_ID item) (sch_AppID item) (sch_SubscriptionID item)
            (sch_Name item) (sch_Enabled item) (sch_CronExpression item) (sch_Timezone item)
            (sch_EventType item) data (nullif_empty (sch_OrderingKey item)) (sch_Priority item)
            metadata (sch_NextRunAt item) None None None 0 (sch_PolicyVersion item)
            (sch_CreatedAt item) (sch_UpdatedAt item) in
          if negb (schedule_check row) then Err DriverError
          else if isSome (queue_schedules db !! sr_id row)
                  || schedule_name_taken row (queue_schedules db) then Err UniqueViolation
          else Ok (tt, set_schedules (<[sr_id row:=row]> (queue_schedules db)) db)
      end
  | _, _ => Err DriverError
  end.

Definition CreateQueueSchedule (item : QueueSchedule) : M_queue unit :=
  unique_conflict (exec (fun _ => insert_schedule item)).

Definition schedule_by_created (a b : Schedule) : Prop :=
  sr_created_at a < sr_created_at b
  \/ sr_created_at a = sr_created_at b /\ text_le (sr_id a) (sr_id b).
#[global] Instance schedule_by_created_dec : RelDecision schedule_by_created.
Proof. unfold schedule_by_created, RelDecision. apply _. Defined.

Definition ListQueueSchedules (appID subscriptionID : string) : M_queue (list QueueSchedule) :=
  query (fun db => scanQueueSchedule <$> merge_sort schedule_by_created
    (select_where (fun r => bool_decide (sr_app_id r = appID)
                            && bool_decide (sr_subscription_id r = subscriptionID))
       (queue_schedules db))).

Definition GetQueueSchedule (appID subscriptionID scheduleID : string) : M_queue QueueSchedule :=
  query_row StoreNotFound (fun db =>
    scanQueueSchedule <$> get_schedule appID subscriptionID scheduleID db).

(** [UPDATE queue_schedules SET ... claim_token=NULL,claim_expires_at=NULL,
    policy_version=policy_version+1]: an edit takes the claim away. *)
Definition update_schedule (item : QueueSchedule) (expectedVersion : Z) (db : QueueDB)
    : res (QueueSchedule * QueueDB) :=
  match to_jsonb (sch_Data item), to_jsonb (sch_Metadata item) with
  | Some data, Some metadata =>
      match get_schedule (sch_AppID item) (sch_SubscriptionID item) (sch_ID item) db with
      | Some cur =>
          if sr_policy_version cur =? expectedVersion then
            let row := mkScheduleRow (sr_id cur) (sr_app_id cur) (sr_subscription_id cur)
              (sch_Name item) (sch_Enabled item) (sch_CronExpression item) (sch_Timezone item)
              (sch_EventType item) data (nullif_empty (sch_OrderingKey item))
              (sch_Priority item) metadata (sch_NextRunAt item) (sr_last_run_at cur) None None
              (sr_claim_generation cur) (sr_policy_version cur + 1) (sr_created_at cur)
              (sch_UpdatedAt item) in
            if negb (schedule_check row) then Err DriverError
            else if schedule_name_taken row (queue_schedules db) then Err UniqueViolation
            else Ok (scanQueueSchedule row,
                     set_schedules (<[sr_id row:=row]> (queue_schedules db)) db)
          else Err StoreNotFound
      | None => Err StoreNotFound
      end
  | _, _ => Err DriverError
  end.

Definition UpdateQueueSchedule (item : QueueSchedule) (expectedVersion : Z) : M_queue QueueSchedule :=
  on_error (exec (fun _ => update_schedule item expectedVersion)) (fun e =>
    if bool_decide (e = StoreNotFound) then
      on_error (GetQueueSchedule (sch_AppID item) (sch_SubscriptionID item) (sch_ID item);;
                fail StoreConflict)
        (fun e' => fail (if bool_decide (e' = StoreConflict) then StoreConflict else StoreNotFound))
    else fail e).

Definition DeleteQueueSchedule (appID subscriptionID scheduleID : string) : M_queue unit :=
  exec (fun _ db => match get_schedule appID subscriptionID scheduleID db with
                    | None => Err StoreNotFound
                    | Some _ => Ok (tt, keep_schedules (fun r =>
                                  negb (bool_decide (sr_id r = scheduleID))) db)
                    end).

(** ** Claiming due schedules *)

Definition schedule_due (now : Z) (db : QueueDB) (r : Schedule) : bool :=
  sr_enabled r && (sr_next_run_at r <=? now)
  && (isNone (sr_claim_expires_at r) || null_le (sr_claim_expires_at r) now)
  && match queue_subscriptions db !! sr_subscription_id r with
     | Some s => bool_decide (sub_AppID s = sr_app_id r) && sub_Enabled s
                 && isNone (sub_PausedAt s) && isNone (sub_DrainingAt s)
     | None => false
     end.

Definition due_before (a b : Schedule) : Prop :=
  sr_next_run_at a < sr_next_run_at b
  \/ sr_next_run_at a = sr_next_run_at b /\ text_le (sr_id a) (sr_id b).
#[global] Instance due_before_dec : RelDecision due_before.
Proof. unfold due_before, RelDecision. apply _. Defined.

Definition due_schedules (now : Z) (limit : Z) (locked : gset string) (db : QueueDB)
    : list Schedule :=
  take (Z.to_nat limit) (List.filter (fun r => negb (bool_decide (sr_id r ∈ locked)))
    (merge_sort due_before (select_where (schedule_due now db) (queue_schedules db)))).

Definition claim_schedule (token : string) (claimUntil now : Z) (r : Schedule) : Schedule :=
  claim_row (Some token) (Some claimUntil) (sr_claim_generation r + 1) (sr_next_run_at r)
    (sr_last_run_at r) now r.

(** [RETURNING] does not promise an order; the order of the claim is kept. *)
Definition ClaimDueQueueSchedules (now claimUntil : Z) (token : string) (limit : Z)
    : M_queue (list QueueSchedule) :=
  exec (fun locked db =>
    if limit <? 0 then Err DriverError
    else
      let due := due_schedules now limit locked db in
      let claim := claim_schedule token claimUntil now in
      Ok (scanQueueSchedule ∘ claim <$> due,
          set_schedules (update_where (fun r => bool_decide (sr_id r ∈ (sr_id <$> due)))
                           claim (queue_schedules db)) db)).

(** ** Completing an occurrence *)

(** [q.id=$1 AND q.claim_token=$2 AND q.claim_generation=$3], joined with the
    subscription for its retention. *)
Definition claimed_schedule (completion : QueueScheduleCompletion) (db : QueueDB)
    : option (Schedule * Z) :=
  match queue_schedules db !! sc_ScheduleID completion with
  | Some r =>
      match queue_subscriptions db !! sr_subscription_id r with
      | Some s =>
          if null_eq (sr_claim_token r) (sc_ClaimToken completion)
             && (sr_claim_generation r =? sc_ClaimGeneration completion)
             && bool_decide (sub_AppID s = sr_app_id r)
          then Some (r, sub_RetentionSeconds s) else None
      | None => None
      end
  | None => None
  end.

(** [INSERT INTO queue_deliveries ... ON CONFLICT(subscription_id,event_id) DO NOTHING],
    with the CHECK on [priority] and the foreign keys of the row. *)
Definition insert_delivery (d : Delivery) (db : QueueDB) : res QueueDB :=
  if negb (between (-10) (d_priority d) 10) then Err DriverError
  else if existsb (fun o => bool_decide (d_subscription_id o = d_subscription_id d)
                       && bool_decide (d_event_id o = d_event_id d)) (rows (queue_deliveries db))
  then Ok db
  else match queue_deliveries db !! d_id d with
       | Some _ => Err UniqueViolation
       | None =>
           if isNone (events db !! d_event_id d)
              || isNone (queue_subscriptions db !! d_subscription_id d)
           then Err DriverError
           else Ok (set_deliveries (<[d_id d:=d]> (queue_deliveries db)) db)
       end.

(** A new delivery row: the column defaults of migration 015. *)
Definition new_delivery (id sub app event : string) (available_at : Z) (key : option string)
    (priority : Z) (metadata : string) (created_at expires_at : Z) : Delivery :=
  mkDelivery id sub app event 1 Available 0 available_at None None None None key priority
    metadata None created_at created_at expires_at.

Definition occurrence_event (c : QueueScheduleCompletion) (r : Schedule) (expiresAt : Z) : EventRow :=
  mkEventRow (sc_EventID c) (sr_event_type r) (sr_app_id r) [sr_app_id r] (sr_data r)
    (sc_OccurrenceAt c) expiresAt (Some (sc_OccurrenceAt c)) (sr_ordering_key r)
    (sr_priority r) (sr_metadata r).

(** [INSERT INTO events ... ON CONFLICT(id) DO NOTHING] *)
Definition insert_event_do_nothing (e : EventRow) (db : QueueDB) : QueueDB :=
  match events db !! er_id e with
  | Some _ => db
  | None => set_events (<[er_id e := e]> (events db)) db
  end.

Definition insert_occurrence (c : QueueScheduleCompletion) (r : Schedule) (db : QueueDB)
    : res (unit * QueueDB) :=
  if isSome (queue_schedule_occurrences db !! (sr_id r, sc_OccurrenceAt c))
     || existsb (fun kv : (string * Z) * string => bool_decide (kv.2 = sc_EventID c))
          (map_to_list (queue_schedule_occurrences db))
  then Err UniqueViolation
  else Ok (tt, set_occurrences (<[(sr_id r, sc_OccurrenceAt c) := sc_EventID c]>
                                  (queue_schedule_occurrences db)) db).

Definition create_occurrence (c : QueueScheduleCompletion) (r : Schedule) (retentionSeconds : Z)
    : M_queue unit :=
  let expiresAt := sc_OccurrenceAt c + seconds retentionSeconds in
  update (fun db => (tt, insert_event_do_nothing (occurrence_event c r expiresAt) db));;
  exec (fun _ db => match insert_delivery (new_delivery (sc_DeliveryID c) (sr_subscription_id r)
                            (sr_app_id r) (sc_EventID c) (sc_OccurrenceAt c)
                            (sr_ordering_key r) (sr_priority r) (sr_metadata r)
                            (sc_OccurrenceAt c) expiresAt) db with
                    | Ok db' => Ok (tt, db')
                    | Err e => Err e
                    end);;
  exec (fun _ => insert_occurrence c r).

(** [if !exists { ... }] *)
Definition record_occurrence (recorded : bool) (c : QueueScheduleCompletion) (r : Schedule)
    (retentionSeconds : Z) : M_queue unit :=
  if recorded then mret tt else create_occurrence c r retentionSeconds.

(** [UPDATE ... WHERE id=$1 AND claim_token=$2 AND claim_generation=$3] and its row count. *)
Definition holds_claim (c : QueueScheduleCompletion) (r : Schedule) : bool :=
  bool_decide (sr_id r = sc_ScheduleID c) && null_eq (sr_claim_token r) (sc_ClaimToken c)
  && (sr_claim_generation r =? sc_ClaimGeneration c).

Definition advance_schedule (c : QueueScheduleCompletion) (r : Schedule) : Schedule :=
  claim_row None None (sr_claim_generation r) (sc_NextRunAt c) (Some (sc_OccurrenceAt c))
    (sc_Now c) r.

Definition CompleteQueueSchedule (c : QueueScheduleCompletion) : M_queue unit :=
  transaction (
    begin;;
    found ← query_row StoreConflict (claimed_schedule c);
    let '(schedule, retentionSeconds) := found in
    if negb (sr_next_run_at schedule =? sc_OccurrenceAt c) then fail StoreConflict
    else
      recorded ← query (fun db =>
        isSome (queue_schedule_occurrences db !! (sr_id schedule, sc_OccurrenceAt c)));
      record_occurrence recorded c schedule retentionSeconds;;
      affected ← update (fun db =>
        (count_where (holds_claim c) (queue_schedules db),
         set_schedules (update_where (holds_claim c) (advance_schedule c) (queue_schedules db)) db));
      if negb (affected =? 1) then fail StoreConflict else commit).

(** ** Draining *)

Definition with_drain (s : QueueSubscription) (draining deadline drained : option Z)
    (version now : Z) : QueueSubscription :=
  mkSubscription (sub_ID s) (sub_AppID s) (sub_Name s) (sub_Enabled s) (sub_PausedAt s)
    draining deadline drained (sub_EventTypes s) (sub_MaxAttempts s)
    (sub_DefaultVisibilitySeconds s) (sub_MaxVisibilitySeconds s) (sub_MaxTotalLeaseSeconds s)
    (sub_RetentionSeconds s) (sub_MaxInFlight s) (sub_MaxBatchSize s) (sub_RetryDelaySeconds s)
    (sub_OrderingMode s) (sub_DeduplicationSeconds s) (sub_MaxDispatchRate s)
    (sub_SuccessCallbackURL s) (sub_FailureCallbackURL s) (sub_ResultCallbackMetadata s)
    version (sub_CreatedAt s) now.

Definition coalesce (x : option Z) (y : Z) : Z := default y x.

Definition begin_drain_row (startedAt deadlineAt : Z) (s : QueueSubscription) : QueueSubscription :=
  with_drain s (Some (coalesce (sub_DrainingAt s) startedAt))
    (Some (coalesce (sub_DrainDeadlineAt s) deadlineAt)) (sub_DrainedAt s)
    (if isNone (sub_DrainingAt s) then sub_PolicyVersion s + 1 else sub_PolicyVersion s)
    startedAt.

(** [UPDATE queue_subscriptions SET ... WHERE app_id=$1 AND id=$2 AND ...] of
    columns outside the UNIQUE constraint; the CHECK constraints apply. *)
Definition update_drain (appID id : string) (p : QueueSubscription -> bool)
    (f : QueueSubscription -> QueueSubscription) (db : QueueDB) : res (Z * QueueDB) :=
  match get_subscription appID id db with
  | Some s => if p s then
                if subscription_check (f s)
                then Ok (1, set_subscriptions (<[id := f s]> (queue_subscriptions db)) db)
                else Err DriverError
              else Ok (0, db)
  | None => Ok (0, db)
  end.

Definition GetQueueDrain (appID subscriptionID : string) (now : Z) : M_queue QueueDrain :=
  row ← query_row StoreNotFound (fun db : QueueDB =>
    (fun s => (s, in_flight_count (sub_ID s) db)) <$> get_subscription appID subscriptionID db);
  let '(s, inFlight) := row in
  let drain status completed :=
    mkDrain subscriptionID status inFlight (sub_DrainingAt s) (sub_DrainDeadlineAt s) completed in
  if isNone (sub_DrainingAt s) then mret (drain DrainActive (sub_DrainedAt s))
  else if inFlight =? 0 then
    match sub_DrainedAt s with
    | Some completed => mret (drain DrainDrained (Some completed))
    | None =>
        exec (fun _ => update_drain appID subscriptionID
          (fun s => isSome (sub_DrainingAt s) && isNone (sub_DrainedAt s))
          (fun s => with_drain s (sub_DrainingAt s) (sub_DrainDeadlineAt s) (Some now)
                      (sub_PolicyVersion s) now));;
        mret (drain DrainDrained (Some now))
    end
  else if match sub_DrainDeadlineAt s with Some deadline => deadline <=? now | None => false end
  then mret (drain DrainTimedOut (sub_DrainedAt s))
  else mret (drain DrainDraining (sub_DrainedAt s)).

Definition BeginQueueDrain (appID subscriptionID : string) (startedAt deadlineAt : Z)
    : M_queue QueueDrain :=
  affected ← exec (fun _ => update_drain appID subscriptionID (fun _ => true)
                              (begin_drain_row startedAt deadlineAt));
  if affected =? 0 then fail StoreNotFound
  else GetQueueDrain appID subscriptionID startedAt.

(** ** Publishing to queue subscriptions ([store/postgres/events.go]) *)

(** The queue columns of an event to publish. *)
Definition queue_columns (event : Event) : option Z * option string * Z * string * string :=
  match ev_Queue event with
  | None => (None, None, 0, "{}", "")
  | Some q =>
      let availableAt := if IsZero (qe_AvailableAt q) then ev_CreatedAt event else qe_AvailableAt q in
      (Some availableAt, nullif_empty (qe_OrderingKey q), qe_Priority q,
       (if bool_decide (qe_Metadata q = "") then "{}" else qe_Metadata q), qe_DedupHash q)
  end.

Definition insert_event (event : Event) (retention : Z) (db : QueueDB) : res (unit * QueueDB) :=
  let '(availableAt, orderingKey, priority, metadata, _) := queue_columns event in
  match to_jsonb metadata with
  | None => Err DriverError
  | Some metadata =>
      if negb (between (-10) priority 10) then Err DriverError
      else match events db !! ev_ID event with
           | Some _ => Err UniqueViolation
           | None => Ok (tt, set_events (<[ev_ID event := mkEventRow (ev_ID event) (ev_Type event)
                       (ev_SourceAppID event) (ev_TargetAppIDs event) (ev_Data event)
                       (ev_CreatedAt event) (ev_CreatedAt event + retention) availableAt
                       orderingKey priority metadata]> (events db)) db)
           end
  end.

(** [DELETE FROM queue_deduplication_keys k USING queue_subscriptions s ...] *)
Definition drop_expired_keys (targets : list string) (now : Z) (db : QueueDB) : QueueDB :=
  set_dedup_keys (filter (fun kv : (string * string) * (string * Z) =>
    match queue_subscriptions db !! kv.1.1 with
    | Some s => negb (bool_decide (sub_AppID s ∈ targets) && (kv.2.2 <=? now))
    | None => true
    end = true) (queue_deduplication_keys db)) db.

Definition key_live (db : QueueDB) (sub hash : string) (now : Z) : bool :=
  match queue_deduplication_keys db !! (sub, hash) with
  | Some (_, expires) => now <? expires
  | None => false
  end.

Definition receives (event : Event) (dedupHash : string) (db : QueueDB) (s : QueueSubscription)
    : bool :=
  bool_decide (sub_AppID s ∈ ev_TargetAppIDs event) && sub_Enabled s && isNone (sub_PausedAt s)
  && (bool_decide (sub_EventTypes s = []) || bool_decide (ev_Type event ∈ sub_EventTypes s))
  && (bool_decide (dedupHash = "") || (sub_DeduplicationSeconds s =? 0)
      || negb (key_live db (sub_ID s) dedupHash (ev_CreatedAt event))).

(** [length] of a text counts characters: UTF-8 continuation bytes do not count. *)
Definition text_length (s : string) : Z :=
  Z.of_nat (length (List.filter (fun c => negb (byte_in 128 191 c)) (bytes s))).

(** ['qdl_' || md5(length($1)::text || ':' || $1 || s.id)] *)
Definition fan_out_id (event_id sub_id : string) : string :=
  ("qdl_" ++ md5 (decimal (text_length event_id) ++ ":" ++ event_id ++ sub_id))%string.

Definition fan_out_row (event : Event) (availableAt : option Z) (key : option string)
    (priority : Z) (metadata : string) (retention : Z) (s : QueueSubscription) : Delivery :=
  let created := ev_CreatedAt event in
  new_delivery (fan_out_id (ev_ID event) (sub_ID s)) (sub_ID s) (sub_AppID s) (ev_ID event)
    (Z.max created (default created availableAt)) key priority metadata created
    (Z.min (created + retention) (created + sub_RetentionSeconds s * Second)).

Fixpoint insert_deliveries (ds : list Delivery) (db : QueueDB) : res QueueDB :=
  match ds with
  | [] => Ok db
  | d :: ds => match insert_delivery d db with
               | Ok db' => insert_deliveries ds db'
               | Err e => Err e
               end
  end.

Definition fan_out (event : Event) (retention : Z) (db : QueueDB) : res (unit * QueueDB) :=
  let '(availableAt, key, priority, metadata, dedupHash) := queue_columns event in
  match to_jsonb metadata with
  | None => Err DriverError
  | Some metadata =>
      match insert_deliveries (fan_out_row event availableAt key priority metadata retention
              <$> select_where (receives event dedupHash db) (queue_subscriptions db)) db with
      | Ok db' => Ok (tt, db')
      | Err e => Err e
      end
  end.

(** [INSERT INTO queue_deduplication_keys ... SELECT ... ON CONFLICT DO NOTHING] *)
Definition remember_key (event_id hash : string) (now : Z) (s : QueueSubscription)
    (t : gmap (string * string) (string * Z)) : gmap (string * string) (string * Z) :=
  match t !! (sub_ID s, hash) with
  | Some _ => t
  | None => <[(sub_ID s, hash) := (event_id, now + sub_DeduplicationSeconds s * Second)]> t
  end.
Definition has_delivery (event_id : string) (db : QueueDB) (s : QueueSubscription) : bool :=
  existsb (fun d => bool_decide (d_subscription_id d = sub_ID s)
                    && bool_decide (d_event_id d = event_id)) (rows (queue_deliveries db)).
Definition insert_keys (event : Event) (hash : string) (db : QueueDB) : QueueDB :=
  set_dedup_keys (foldr (remember_key (ev_ID event) hash (ev_CreatedAt event))
    (queue_deduplication_keys db)
    (select_where (fun s => (0 <? sub_DeduplicationSeconds s) && has_delivery (ev_ID event) db s)
       (queue_subscriptions db))) db.

(** The queue statements of [PublishEvent], in order; the surrounding
    transaction also writes the stream deliveries and the outbox. *)
Definition publish_to_queues (event : Event) (retention : Z) : M_queue unit :=
  let '(_, _, _, _, dedupHash) := queue_columns event in
  unique_conflict (exec (fun _ => insert_event event retention));;
  query (fun _ => tt);;
  (if bool_decide (dedupHash = "") then mret tt
   else update (fun db => (tt, drop_expired_keys (ev_TargetAppIDs event) (ev_CreatedAt event) db)));;
  exec (fun _ => fan_out event retention);;
  (if bool_decide (dedupHash = "") then mret tt
   else update (fun db => (tt, insert_keys event dedupHash db))).

End scheduler.
