(* ===== verification/Classify.v ===== *)
(** * [delivery/classify.go]: what a callback response means

    The verdict on one HTTP attempt: delivered, retried at a given time, or given
    up. [http.ParseTime] is an argument: the theorems hold whatever it returns. *)

From Stdlib Require Import Ascii String.
From S2P Require Import Prelude GoLib Crypto.

Module Classifier.

Inductive Kind := Delivered | Retry | DeadLetter.

Record Outcome := mkOutcome {
  oc_Kind : Kind;
  oc_RetryAt : option Z; (* nil time when the kind is not [Retry] *)
  oc_Reason : string
}.

Definition MaxAttempts : Z := 6.

(** [strconv.ParseInt(raw, 10, 64)]: an optional sign, at least one digit, and
    the value within [int64]. *)
Definition digit_value (c : ascii) : option Z :=
  if is_digit c then Some (code c - 48) else None.
Fixpoint digits_value (acc : Z) (l : list ascii) : option Z :=
  match l with
  | [] => Some acc
  | c :: l => match digit_value c with Some v => digits_value (10 * acc + v) l | None => None end
  end.
Definition ParseInt (s : string) : option Z :=
  let '(sign, ds) := match bytes s with
    | c :: l => if bool_decide (c = "-"%char) then (-1, l)
                else if bool_decide (c = "+"%char) then (1, l) else (1, c :: l)
    | [] => (1, [])
    end in
  match ds with
  | [] => None
  | _ => match digits_value 0 ds with
         | Some v => let z := sign * v in
                     if (- 2 ^ 63 <=? z) && (z <? 2 ^ 63) then Some z else None
         | None => None
         end
  end.

(** [time.Time.Sub] saturates at the range of [time.Duration]. *)
Definition time_Sub (t u : Z) : Z := Z.max (- 2 ^ 63) (Z.min (2 ^ 63 - 1) (t - u)).

Definition delays : list Z :=
  [Second; 5 * Second; 15 * Second; 60 * Second; 300 * Second].

Section classify.
Context (ParseTime : string -> option Z).

(** [status == 429 && err == nil]: the server's hint replaces the delay. *)
Definition retry_after (retryAfter : string) (now delay : Z) : Z :=
  let raw := TrimSpace retryAfter in
  let by_date :=
    match ParseTime raw with
    | Some at_ => if at_ <? now then delay else Z.min (time_Sub at_ now) (300 * Second)
    | None => delay
    end in
  match ParseInt raw with
  | Some secs => if 0 <=? secs then seconds (if 300 <? secs then 300 else secs) else by_date
  | None => by_date
  end.

Definition Classify (status : Z) (retryAfter : string) (err : bool) (attempt now : Z) : Outcome :=
  if negb err && (200 <=? status) && (status <? 300)
  then mkOutcome Delivered None "http_success"
  else
    let retry := err || (status =? 408) || (status =? 425) || (status =? 429)
                 || (500 <=? status) && (status <=? 599) in
    if negb retry then mkOutcome DeadLetter None "http_permanent"
    else
      let reason := if err then "transport_error" else "http_transient" in
      if MaxAttempts <=? attempt then mkOutcome DeadLetter None "attempts_exhausted"
      else
        let attempt := if attempt <? 1 then 1 else attempt in
        let delay := nth (Z.to_nat (attempt - 1)) delays 0 in
        let delay := if (status =? 429) && negb err then retry_after retryAfter now delay
                     else delay in
        mkOutcome Retry (Some (now + delay)) reason.

(** ** Properties *)

Lemma delays_bounds n : (n < 5)%nat -> Second <= nth n delays 0 <= 300 * Second.
Proof.
  intros Hn. unfold delays, Second, Millisecond, Microsecond.
  do 5 (destruct n as [|n]; [cbn [nth]; lia|]). lia.
Qed.

Lemma retry_after_bounds raw now delay :
  0 <= delay <= 300 * Second -> 0 <= retry_after raw now delay <= 300 * Second.
Proof.
  intros Hd. unfold retry_after, time_Sub.
  repeat case_match; bool_to_prop; try lia; try (rewrite seconds_small by lia);
    unfold Second, Millisecond, Microsecond in *; lia.
Qed.

(** A response is classified as delivered exactly when it is a success
    without error, and as a retry exactly when the failure is transient and
    attempts are left; a retry is due between now and five minutes from now,
    whatever the server sends in [Retry-After], and the backoff table is never
    indexed out of range. Everything else is given up. *)
Theorem classify_spec status raw err attempt now :
  let o := Classify status raw err attempt now in
  (oc_Kind o = Delivered <-> err = false /\ 200 <= status < 300)
  /\ (oc_Kind o = Retry <->
        attempt < MaxAttempts
        /\ (err = true \/ status = 408 \/ status = 425 \/ status = 429 \/ 500 <= status <= 599))
  /\ (oc_Kind o = Retry ->
        exists t, oc_RetryAt o = Some t /\ now <= t <= now + 300 * Second)
  /\ (oc_Kind o <> Retry -> oc_RetryAt o = None)
  /\ (attempt < MaxAttempts ->
        (Z.to_nat ((if attempt <? 1 then 1 else attempt) - 1)%Z < length delays)%nat).
Proof.
  unfold Classify, MaxAttempts. split_and!.
  1,2: destruct err; repeat case_match; simpl; bool_to_prop;
    (split; intros; [try done|try (exfalso; lia); try done]); try lia; intuition lia.
  - destruct (negb err && _ && _); [done|]. destruct (negb _); [done|].
    destruct (6 <=? attempt) eqn:Ha; [done|]. intros _. bool_to_prop.
    set (n := Z.to_nat _). assert (n < 5)%nat as Hn by (unfold n; case_match; bool_to_prop; lia).
    apply delays_bounds in Hn. eexists. split; [done|].
    assert (0 <= nth n delays 0 <= 300 * Second) as Hd
      by (unfold Second, Millisecond, Microsecond in *; lia).
    case_match; [|lia]. pose proof (retry_after_bounds raw now _ Hd). lia.
  - repeat case_match; simpl; done.
  - intros. simpl. case_match; bool_to_prop; lia.
Qed.

End classify.

End Classifier.
