(* ===== verification/QueueCallbacks.v ===== *)
(** * [store/postgres/queue_callbacks.go] and [worker/queue_callbacks.go]

    Result callbacks: claiming one with a fenced claim, finishing it, and the
    worker that connects the two through the HTTP delivery. *)

From S2P Require Import Prelude GoLib Crypto Json Domain QueueSchema QueueStore Classify.

(** ** Data *)

Record QueueResultCallback := mkResultCallback {
  rc_ID : string;
  rc_AppID : string;
  rc_SubscriptionID : string;
  rc_DeliveryID : string;
  rc_EventID : string;
  rc_Generation : Z;
  rc_Outcome : CallbackOutcome;
  rc_URL : string;
  rc_Body : CallbackPayload;
  rc_Secret : string;
  rc_Attempt : Z;
  rc_ClaimToken : string;
  rc_ClaimGeneration : Z;
  rc_ClaimExpiresAt : Z
}.

Record QueueResultCallbackTransition := mkTransition {
  tr_CallbackID : string;
  tr_Attempt : Z;
  tr_ClaimToken : string;
  tr_ClaimGeneration : Z;
  tr_Status : CallbackStatus;
  tr_Reason : string;
  tr_RetryAt : Z;
  tr_Now : Z
}.

Record QueueCallbackOutcome := mkCallbackOutcome {
  co_ID : string;
  co_SubscriptionID : string;
  co_DeliveryID : string;
  co_EventID : string;
  co_Generation : Z;
  co_Outcome : CallbackOutcome;
  co_Status : CallbackStatus;
  co_Reason : string;
  co_Attempts : Z;
  co_CreatedAt : Z;
  co_UpdatedAt : Z
}.

Definition with_claim (c : Callback) (status : CallbackStatus) (attempts available_at : Z)
    (token : option string) (expires : option Z) (generation : Z) (reason : option string)
    (now : Z) : Callback :=
  mkCallback (cb_id c) (cb_app_id c) (cb_subscription_id c) (cb_delivery_id c) (cb_event_id c)
    (cb_generation c) (cb_outcome c) (cb_url c) (cb_payload c) status attempts available_at
    token expires generation reason (cb_created_at c) now.

Section callbacks.
Context `{Postgres}.
(** [client.cipher.Decrypt]: the stored secret's cipher, which may refuse it. *)
Context (Decrypt : string -> option string).

(** ** Claiming *)

Definition claimable (now : Z) (c : Callback) : bool :=
  bool_decide (cb_status c = CbPending) && (cb_attempts c <? 6) && (cb_available_at c <=? now)
  && (isNone (cb_claim_expires_at c) || null_le (cb_claim_expires_at c) now).

Definition claim_before (a b : Callback) : Prop :=
  cb_available_at a < cb_available_at b
  \/ cb_available_at a = cb_available_at b /\ text_le (cb_id a) (cb_id b).
#[global] Instance claim_before_dec : RelDecision claim_before.
Proof. unfold claim_before, RelDecision. apply _. Defined.

(** [SELECT id ... ORDER BY available_at,id FOR UPDATE SKIP LOCKED LIMIT 1] *)
Definition candidate (now : Z) (locked : gset string) (db : QueueDB) : option Callback :=
  head (List.filter (fun c => negb (bool_decide (cb_id c ∈ locked)))
    (merge_sort claim_before (select_where (claimable now) (queue_result_callbacks db)))).

Definition claim_callback (now claimUntil : Z) (token : string) (c : Callback) : Callback :=
  with_claim c (cb_status c) (cb_attempts c + 1) (cb_available_at c) (Some token)
    (Some claimUntil) (cb_claim_generation c + 1) (cb_last_reason c) now.

(** The statement: claim the candidate and join its application's unrevoked
    credential. Without a credential there is no row, and the caller rolls the
    claim back. *)
Definition claim_statement (now claimUntil : Z) (token : string) (locked : gset string)
    (db : QueueDB) : res ((Callback * string) * QueueDB) :=
  match candidate now locked db with
  | None => Err StoreNotFound
  | Some c0 =>
      let c := claim_callback now claimUntil token c0 in
      match credentials db !! cb_app_id c with
      | None => Err StoreNotFound
      | Some secret =>
          Ok ((c, secret), set_callbacks (<[cb_id c := c]> (queue_result_callbacks db)) db)
      end
  end.

Definition insert_callback_attempt (c : Callback) (now : Z) (db : QueueDB) : res (unit * QueueDB) :=
  match queue_result_callback_attempts db !! (cb_id c, cb_attempts c) with
  | Some _ => Err UniqueViolation
  | None => Ok (tt, set_callback_attempts
      (<[(cb_id c, cb_attempts c) := mkCallbackAttempt (cb_claim_generation c) CaClaimed None now]>
         (queue_result_callback_attempts db)) db)
  end.

Definition ClaimQueueResultCallback (now claimUntil : Z) (token : string)
    : M_queue QueueResultCallback :=
  transaction (
    begin;;
    claimed ← exec (claim_statement now claimUntil token);
    let '(c, encryptedSecret) := claimed in
    match Decrypt encryptedSecret with
    | None => fail DriverError
    | Some secret =>
        exec (fun _ => insert_callback_attempt c now);;
        commit;;
        mret (mkResultCallback (cb_id c) (cb_app_id c) (cb_subscription_id c) (cb_delivery_id c)
                (cb_event_id c) (cb_generation c) (cb_outcome c) (cb_url c) (cb_payload c) secret
                (cb_attempts c) token (cb_claim_generation c) claimUntil)
    end).

(** ** Finishing *)

Definition holds_callback (t : QueueResultCallbackTransition) (c : Callback) : bool :=
  bool_decide (cb_id c = tr_CallbackID t) && (cb_attempts c =? tr_Attempt t)
  && null_eq (cb_claim_token c) (tr_ClaimToken t)
  && (cb_claim_generation c =? tr_ClaimGeneration t) && bool_decide (cb_status c = CbPending).

Definition finish_callback (t : QueueResultCallbackTransition) (c : Callback) : Callback :=
  with_claim c (tr_Status t) (cb_attempts c)
    (if bool_decide (tr_Status t = CbPending) then tr_RetryAt t else cb_available_at c)
    None None (cb_claim_generation c) (nullif_empty (tr_Reason t)) (tr_Now t).

Definition finish_attempt (t : QueueResultCallbackTransition) (db : QueueDB) : QueueDB :=
  set_callback_attempts (alter (fun a => mkCallbackAttempt (ca_claim_generation a)
      (CaStatus (tr_Status t)) (nullif_empty (tr_Reason t)) (ca_occurred_at a))
    (tr_CallbackID t, tr_Attempt t) (queue_result_callback_attempts db)) db.

Definition FinishQueueResultCallback (t : QueueResultCallbackTransition) : M_queue unit :=
  transaction (
    begin;;
    affected ← update (fun db =>
      (count_where (holds_callback t) (queue_result_callbacks db),
       set_callbacks (update_where (holds_callback t) (finish_callback t)
                        (queue_result_callbacks db)) db));
    if negb (affected =? 1) then fail StoreConflict
    else
      update (fun db => (tt, finish_attempt t db));;
      commit).

(** ** Listing *)

Definition newest_first (a b : Callback) : Prop :=
  cb_created_at b < cb_created_at a
  \/ cb_created_at a = cb_created_at b /\ text_le (cb_id b) (cb_id a).
#[global] Instance newest_first_dec : RelDecision newest_first.
Proof. unfold newest_first, RelDecision. apply _. Defined.

Definition callback_outcome_of (c : Callback) : QueueCallbackOutcome :=
  mkCallbackOutcome (cb_id c) (cb_subscription_id c) (cb_delivery_id c) (cb_event_id c)
    (cb_generation c) (cb_outcome c) (cb_status c) (coalesce_empty (cb_last_reason c))
    (cb_attempts c) (cb_created_at c) (cb_updated_at c).

Definition ListQueueResultCallbacks (appID subscriptionID : string) (limit : Z)
    : M_queue (list QueueCallbackOutcome) :=
  exec (fun _ db =>
    if limit <? 0 then Err DriverError
    else Ok (callback_outcome_of <$> take (Z.to_nat limit) (merge_sort newest_first
               (select_where (fun c => bool_decide (cb_app_id c = appID)
                                       && bool_decide (cb_subscription_id c = subscriptionID))
                  (queue_result_callbacks db))), db)).

(** ** One turn of the worker

    [deliver] stands for the HTTP exchange of [delivery.Callback.Deliver]: the
    status, the [Retry-After] header and whether it failed. *)
Definition worker_transition (ParseTime : string -> option Z) (claim : QueueResultCallback)
    (response : Z * string * bool) (now : Z) : QueueResultCallbackTransition :=
  let '(status, retryAfter, err) := response in
  let classified := Classifier.Classify ParseTime status retryAfter err (rc_Attempt claim) now in
  mkTransition (rc_ID claim) (rc_Attempt claim) (rc_ClaimToken claim) (rc_ClaimGeneration claim)
    (match Classifier.oc_Kind classified with
     | Classifier.Delivered => CbDelivered
     | Classifier.Retry => CbPending
     | Classifier.DeadLetter => CbFailed
     end)
    (Classifier.oc_Reason classified) (default zero_time (Classifier.oc_RetryAt classified)) now.

(** Claim, deliver, finish; [None] when nothing was claimable. *)
Definition worker_turn (ParseTime : string -> option Z)
    (deliver : QueueResultCallback -> Z * string * bool) (timeout now later : Z) (token : string)
    : M_queue (option CallbackStatus) :=
  claimed ← on_error
    (c ← ClaimQueueResultCallback now (now + (timeout + 5 * Second)) token; mret (Some c))
    (fun e => if bool_decide (e = StoreNotFound) then mret None else fail e);
  match claimed with
  | None => mret None
  | Some claim =>
      let t := worker_transition ParseTime claim (deliver claim) later in
      FinishQueueResultCallback t;;
      mret (Some (tr_Status t))
  end.

(** ** The invariant of the callback tables *)

Record callback_inv (db : QueueDB) : Prop := {
  cbi_key : forall k c, queue_result_callbacks db !! k = Some c -> cb_id c = k;
  cbi_check : forall k c, queue_result_callbacks db !! k = Some c ->
    0 <= cb_attempts c <= 6 /\ 0 <= cb_claim_generation c
    /\ isNone (cb_claim_token c) = isNone (cb_claim_expires_at c);
  cbi_unique : forall k k' c c',
    queue_result_callbacks db !! k = Some c -> queue_result_callbacks db !! k' = Some c' ->
    same_result c c' = true -> k = k';
  cbi_attempts : forall id a i, queue_result_callback_attempts db !! (id, a) = Some i ->
    exists c, queue_result_callbacks db !! id = Some c /\ 1 <= a <= cb_attempts c
}.

(** Replacing a row by one of the same identity with no fewer attempts. *)
Lemma callback_inv_put db db' c c' :
  callback_inv db -> queue_result_callbacks db !! cb_id c = Some c ->
  cb_id c' = cb_id c -> same_result c' c = true ->
  (0 <= cb_attempts c' <= 6 /\ 0 <= cb_claim_generation c'
   /\ isNone (cb_claim_token c') = isNone (cb_claim_expires_at c')) ->
  cb_attempts c <= cb_attempts c' ->
  queue_result_callbacks db' = <[cb_id c := c']> (queue_result_callbacks db) ->
  (forall id a i, queue_result_callback_attempts db' !! (id, a) = Some i ->
     is_Some (queue_result_callback_attempts db !! (id, a))
     \/ id = cb_id c /\ 1 <= a <= cb_attempts c') ->
  callback_inv db'.
Proof using Type.
  clear Decrypt.
  intros Hinv Hc Hid Hsame Hok Hle Hdb Hatt.
  assert (forall k x, queue_result_callbacks db' !! k = Some x ->
    (k = cb_id c /\ x = c') \/ (k <> cb_id c /\ queue_result_callbacks db !! k = Some x)) as Hlk.
  { rewrite Hdb. intros k x [[<- <-]|[? ?]]%lookup_insert_Some; [by left|right].
    split; [done|]. done. }
  assert (forall x, same_result c' x = same_result c x /\ same_result x c' = same_result x c)
    as Hsr.
  { unfold same_result in *. bool_to_prop. intros x. destruct Hsame as [[-> ->] ->]. done. }
  split.
  - intros k x [[-> ->]|[_ ?]]%Hlk; [done|]. by eapply cbi_key.
  - intros k x [[-> ->]|[_ ?]]%Hlk; [done|]. by eapply cbi_check.
  - intros k k' x x' [[-> ->]|[Hk ?]]%Hlk [[-> ->]|[Hk' ?]]%Hlk Hs; [done|..].
    + rewrite (proj1 (Hsr _)) in Hs. by eapply cbi_unique.
    + rewrite (proj2 (Hsr _)) in Hs. by eapply cbi_unique.
    + by eapply cbi_unique.
  - intros id a i Hi. rewrite Hdb. destruct (Hatt _ _ _ Hi) as [[i0 H0]|[-> Ha]].
    + destruct (cbi_attempts _ Hinv _ _ _ H0) as (x & Hx & Ha).
      destruct (decide (id = cb_id c)) as [->|Hne].
      * rewrite lookup_insert_eq. exists c'. split; [done|]. simplify_eq. lia.
      * rewrite lookup_insert_ne by done. eauto.
    + rewrite lookup_insert_eq. eauto.
Qed.

Lemma candidate_spec now locked db c :
  callback_inv db -> candidate now locked db = Some c ->
  queue_result_callbacks db !! cb_id c = Some c /\ claimable now c = true.
Proof.
  intros Hinv Hh. unfold candidate in Hh.
  apply head_Some_elem_of, elem_of_filter_list in Hh as [Hin _].
  rewrite merge_sort_Permutation in Hin. apply elem_of_select in Hin as [Hcl [k Hk]].
  split; [|done]. by rewrite (cbi_key _ Hinv _ _ Hk).
Qed.

(** A successful claim, in full. *)
Lemma claim_run now claimUntil token w r w' :
  ClaimQueueResultCallback now claimUntil token w = (Ok r, w') ->
  exists c, candidate now (w_locked w) (w_db w) = Some c
  /\ rc_ID r = cb_id c /\ rc_Attempt r = cb_attempts c + 1
  /\ rc_ClaimToken r = token /\ rc_ClaimGeneration r = cb_claim_generation c + 1
  /\ rc_ClaimExpiresAt r = claimUntil
  /\ queue_result_callback_attempts (w_db w) !! (cb_id c, cb_attempts c + 1) = None
  /\ w_db w' = set_callback_attempts
       (<[(cb_id c, cb_attempts c + 1) :=
            mkCallbackAttempt (cb_claim_generation c + 1) CaClaimed None now]>
          (queue_result_callback_attempts (w_db w)))
       (set_callbacks (<[cb_id c := claim_callback now claimUntil token c]>
                         (queue_result_callbacks (w_db w))) (w_db w)).
Proof.
  unfold ClaimQueueResultCallback. intros Hrun. run_inv.
  unfold claim_statement in *. unfold after_call in *. destruct_and!.
  repeat match goal with Hd : w_db _ = w_db w |- _ => rewrite Hd in *; clear Hd end.
  match goal with Hl : w_locked ?x = w_locked w, Hm : context [candidate now (w_locked ?x) _] |- _ =>
    rewrite Hl in Hm end.
  destruct (candidate now (w_locked w) (w_db w)) as [c|] eqn:Hc; [|done]. simpl in *.
  destruct (credentials (w_db w) !! cb_app_id c) as [secret|]; simplify_eq.
  destruct (Decrypt secret); run_inv.
  unfold insert_callback_attempt in *. simpl in *. case_match; simplify_eq.
  exists c. split_and!; try done.
  - match goal with Hd : set_callbacks _ _ = w_db ?x, Hn : _ = None |- _ => rewrite <- Hd in Hn end.
    done.
  - repeat match goal with Hd : w_db ?x = w_db ?y |- _ => rewrite Hd; clear Hd end.
    match goal with Hd : set_callback_attempts _ _ = w_db ?x |- _ => rewrite <- Hd end.
    match goal with Hd : set_callbacks _ _ = w_db ?x |- _ => rewrite <- Hd end. done.
Qed.

(** A successful finish changes exactly the row whose claim it names. *)
Lemma finish_run t w u w' :
  FinishQueueResultCallback t w = (Ok u, w') -> callback_inv (w_db w) ->
  exists c, queue_result_callbacks (w_db w) !! tr_CallbackID t = Some c
  /\ holds_callback t c = true
  /\ w_db w' = finish_attempt t (set_callbacks
       (<[tr_CallbackID t := finish_callback t c]> (queue_result_callbacks (w_db w))) (w_db w)).
Proof using Type.
  clear Decrypt.
  unfold FinishQueueResultCallback. intros Hrun Hinv. run_inv.
  repeat match goal with Hd : w_db _ = w_db w |- _ => rewrite Hd in *; clear Hd end.
  destruct (negb _) eqn:Hone; run_inv. simplify_eq. bool_to_prop.
  assert (exists k c, queue_result_callbacks (w_db w) !! k = Some c /\ holds_callback t c = true)
    as (k & c & Hk & Hc).
  { unfold count_where in *.
    destruct (select_where (holds_callback t) (queue_result_callbacks (w_db w))) as [|c l] eqn:E;
      [done|].
    assert (c ∈ select_where (holds_callback t) (queue_result_callbacks (w_db w)))
      as [Hh [k Hk]]%elem_of_select by (rewrite E; apply list_elem_of_here). eauto. }
  assert (k = tr_CallbackID t) as ->.
  { rewrite <- (cbi_key _ Hinv _ _ Hk). unfold holds_callback in Hc. bool_to_prop. tauto. }
  exists c. split_and!; [done..|].
  repeat match goal with Hd : w_db ?x = w_db ?y |- _ => rewrite Hd; clear Hd end.
  match goal with Hd : finish_attempt _ _ = w_db _ |- _ => rewrite <- Hd end.
  match goal with Hd : set_callbacks _ _ = w_db _ |- _ => rewrite <- Hd end.
  f_equal. f_equal. apply map_eq. intros j. rewrite lookup_update_where.
  destruct (decide (j = tr_CallbackID t)) as [->|Hne].
  - rewrite Hk, lookup_insert_eq. simpl. by rewrite Hc.
  - rewrite lookup_insert_ne by done.
    destruct (queue_result_callbacks (w_db w) !! j) as [cj|] eqn:Hj; [|done]. simpl.
    destruct (holds_callback t cj) eqn:Hx; [|done]. exfalso. apply Hne.
    rewrite <- (cbi_key _ Hinv _ _ Hj). unfold holds_callback in Hx. bool_to_prop. tauto.
Qed.

Lemma claim_preserves now claimUntil token w res w' :
  ClaimQueueResultCallback now claimUntil token w = (res, w') -> callback_inv (w_db w) ->
  callback_inv (w_db w').
Proof.
  intros Hrun Hinv. destruct res as [r|e].
  2:{ apply transaction_err_db in Hrun. by rewrite Hrun. }
  apply claim_run in Hrun as (c & Hc & _ & _ & _ & _ & _ & _ & Hdb).
  apply candidate_spec in Hc as [Hc Hcl]; [|done].
  destruct (cbi_check _ Hinv _ _ Hc) as (? & ? & ?).
  unfold claimable in Hcl. bool_to_prop.
  eapply (callback_inv_put _ _ c (claim_callback now claimUntil token c));
    [done|done|done| | |simpl; lia|by rewrite Hdb|].
  - unfold same_result. simpl. by rewrite !bool_decide_eq_true_2, Z.eqb_refl.
  - simpl. split_and!; [lia..|done].
  - rewrite Hdb. simpl. intros id a i [[Heq _]|[_ ?]]%lookup_insert_Some; [|left; eauto].
    simplify_eq. right. split; [done|]. lia.
Qed.

Lemma finish_preserves t w res w' :
  FinishQueueResultCallback t w = (res, w') -> callback_inv (w_db w) -> callback_inv (w_db w').
Proof using Type.
  clear Decrypt.
  intros Hrun Hinv. destruct res as [r|e].
  2:{ apply transaction_err_db in Hrun. by rewrite Hrun. }
  apply finish_run in Hrun as (c & Hc & _ & Hdb); [|done].
  destruct (cbi_check _ Hinv _ _ Hc) as (? & ? & ?).
  pose proof (cbi_key _ Hinv _ _ Hc) as Hid. rewrite <- Hid in *.
  eapply (callback_inv_put _ _ c (finish_callback t c)); [done|done|done| | |simpl; lia| |].
  - unfold same_result. simpl. by rewrite !bool_decide_eq_true_2, Z.eqb_refl.
  - simpl. split_and!; [lia..|done].
  - by rewrite Hdb, Hid.
  - rewrite Hdb. intros id a i. unfold finish_attempt. simpl. intros Hi. left.
    apply lookup_alter_Some in Hi as [(_ & x & -> & _)|[_ ->]]; by eexists.
Qed.

End callbacks.
