(* ===== verification/QueueSystem.v ===== *)
(** * The queue as a whole: every operation, in any order, with any failures

    The operations of the queue as steps of one transition system over the
    database, the invariant of its reachable states, and the refinement of every
    step by the life cycle of a delivery. *)

From S2P Require Import Prelude GoLib Crypto Json Domain QueueSchema QueueStore.
From S2P Require Import QueueLifecycle QueuePull QueueSettle QueueScheduler Classify.
From S2P Require Import QueueCallbacks.

(** ** Invariants of the remaining tables *)

Record schedule_inv (db : QueueDB) : Prop := {
  sch_row : forall k r, queue_schedules db !! k = Some r ->
    sr_id r = k /\ schedule_check r = true;
  sch_occurrence : forall k k' e,
    queue_schedule_occurrences db !! k = Some e -> queue_schedule_occurrences db !! k' = Some e ->
    k = k'
}.

Record queue_inv (db : QueueDB) : Prop := {
  qi_delivery : delivery_inv db;
  qi_schedule : schedule_inv db;
  qi_callback : callback_inv db
}.

(** Rows evolve along the life cycle; new ones start fresh, and none disappears. *)
Definition rows_evolve (T T' : gmap string Delivery) : Prop :=
  (forall id d, T !! id = Some d -> exists d', T' !! id = Some d' /\ rtc row_update d d')
  /\ (forall id d', T !! id = None -> T' !! id = Some d' -> exists d, fresh_delivery d /\ rtc row_update d d').

#[export] Instance rows_evolve_preorder : PreOrder rows_evolve.
Proof.
  split; [intros T; split; [eauto using rtc_refl|congruence]|].
  intros T1 T2 T3 [H1 H2] [H3 H4]. split.
  - intros id d Hd. destruct (H1 _ _ Hd) as (d2 & Hd2 & ?). destruct (H3 _ _ Hd2) as (d3 & ? & ?). exists d3. split; [done|by etrans].
  - intros id d3 Hn Hd3. destruct (T2 !! id) as [d2|] eqn:E; [|by eapply H4]. destruct (H2 _ _ Hn E) as (d & ? & ?).
    destruct (H3 _ _ E) as (d3' & ? & ?). simplify_eq. exists d. split; [done|by etrans].
Qed.

Lemma rows_moved_evolve T T' : rows_moved T T' -> rows_evolve T T'.
Proof.
  intros Hm. split; [intros id d; by apply rows_moved_fwd|].
  intros id d' Hn Hd'. destruct (rows_moved_bwd _ _ _ _ Hm Hd') as (d & Hd & _). congruence.
Qed.

(** What a step must establish. *)
Definition step_ok (db db' : QueueDB) : Prop :=
  queue_inv db -> queue_inv db' /\ rows_evolve (queue_deliveries db) (queue_deliveries db').

#[export] Instance step_ok_preorder : PreOrder step_ok.
Proof.
  split; [done|]. intros db1 db2 db3 H1 H2 Hi.
  destruct (H1 Hi) as [Hi2 ?]. destruct (H2 Hi2) as [? ?]. split; [done|]. by etrans.
Qed.

(** ** Tables an operation leaves alone *)

Lemma schedule_inv_ext db db' :
  queue_schedules db' = queue_schedules db ->
  queue_schedule_occurrences db' = queue_schedule_occurrences db ->
  schedule_inv db -> schedule_inv db'.
Proof. intros H1 H2 []. by split; rewrite ?H1, ?H2. Qed.

Lemma callback_inv_ext db db' :
  queue_result_callbacks db' = queue_result_callbacks db ->
  queue_result_callback_attempts db' = queue_result_callback_attempts db ->
  callback_inv db -> callback_inv db'.
Proof. intros H1 H2 []. by split; rewrite ?H1, ?H2. Qed.

(** [inv_ext H] transfers the invariant [H] to a database with the same tables. *)
Ltac inv_ext H :=
  first [eapply schedule_inv_ext; [..|exact H] | eapply callback_inv_ext; [..|exact H]
        | eapply delivery_inv_ext; [..|exact H]]; simpl; congruence || done.

Lemma insert_callback_inv db c t :
  callback_inv db -> cb_attempts c = 0 -> cb_claim_generation c = 0 ->
  isNone (cb_claim_token c) = isNone (cb_claim_expires_at c) ->
  insert_callback c (queue_result_callbacks db) = Ok t -> callback_inv (set_callbacks t db).
Proof.
  intros Hinv Ha Hg Hc. unfold insert_callback.
  destruct (existsb _ _) eqn:Hex; intros Hok; simplify_eq.
  { by rewrite set_callbacks_id. }
  destruct (queue_result_callbacks db !! cb_id c) eqn:Hid; simplify_eq.
  assert (forall k x, queue_result_callbacks db !! k = Some x -> same_result c x = false) as Hnew.
  { intros k x Hk. destruct (same_result c x) eqn:E; [|done].
    assert (existsb (same_result c) (rows (queue_result_callbacks db)) = true); [|congruence].
    apply existsb_exists. exists x. split; [|done]. apply list_elem_of_In, elem_of_rows. eauto. }
  split; simpl.
  - intros k x [[<- <-]|[_ Hk]]%lookup_insert_Some; [done|]. by eapply cbi_key.
  - intros k x [[<- <-]|[_ Hk]]%lookup_insert_Some; [split_and!; lia || done|].
    by eapply cbi_check.
  - intros k k' x x' [[<- <-]|[_ Hk]]%lookup_insert_Some [[<- <-]|[_ Hk']]%lookup_insert_Some Hs;
      [done|..].
    + by rewrite (Hnew _ _ Hk') in Hs.
    + assert (same_result c x = true) as Hs' by (unfold same_result in *; bool_to_prop; naive_solver).
      by rewrite (Hnew _ _ Hk) in Hs'.
    + by eapply cbi_unique.
  - intros id a i Hi. destruct (cbi_attempts _ Hinv _ _ _ Hi) as (x & Hx & Hle).
    exists x. split; [|done]. rewrite lookup_insert_ne; [done|congruence].
Qed.

Lemma insert_callbacks_inv cs db t :
  callback_inv db ->
  Forall (fun c => cb_attempts c = 0 /\ cb_claim_generation c = 0
                   /\ isNone (cb_claim_token c) = isNone (cb_claim_expires_at c)) cs ->
  insert_callbacks cs (queue_result_callbacks db) = Ok t -> callback_inv (set_callbacks t db).
Proof.
  intros Hinv Hcs. revert db t Hinv. induction Hcs as [|c cs (Ha & Hg & Hc) _ IH];
    intros db t Hinv; simpl.
  { intros. simplify_eq. by rewrite set_callbacks_id. }
  destruct (insert_callback c _) as [t1|] eqn:H1; [|done]. intros Hrest.
  apply (IH (set_callbacks t1 db)); [|done]. by eapply insert_callback_inv.
Qed.

Section system.
Context `{Postgres} (Decrypt : string -> option string).

(** *** Pulling *)

Lemma leases_tables request vis tot sel receipts db db' :
  leases request vis tot sel receipts db db' ->
  queue_schedules db' = queue_schedules db
  /\ queue_schedule_occurrences db' = queue_schedule_occurrences db
  /\ queue_result_callbacks db' = queue_result_callbacks db
  /\ queue_result_callback_attempts db' = queue_result_callback_attempts db.
Proof. by induction 1. Qed.

Lemma reclaim_phase_tables request s db db' :
  reclaim_phase request s db db' -> schedule_inv db -> callback_inv db ->
  schedule_inv db' /\ callback_inv db'.
Proof.
  intros (t & Ht & ->) Hs Hc. split; [inv_ext Hs|].
  set (db1 := reclaim _ _ _ _ _) in *.
  assert (callback_inv db1) as Hc1 by inv_ext Hc.
  assert (callback_inv (set_callbacks t db1)) as Hc2.
  { destruct (sub_FailureCallbackURL s) as [url|]; [|subst t; by rewrite set_callbacks_id].
    eapply insert_callbacks_inv; [done| |exact Ht]. apply Forall_forall.
    intros c (d & -> & _)%list_elem_of_fmap. done. }
  inv_ext Hc2.
Qed.

Lemma pull_step request w res w' :
  PullQueueDeliveries request w = (res, w') -> step_ok (w_db w) (w_db w').
Proof.
  intros Hrun [Hd Hs Hc].
  destruct (pull_preserves _ _ _ _ Hrun Hd) as (Hd' & Hm & _).
  split; [|by apply rows_moved_evolve]. destruct res as [r|e].
  2:{ apply transaction_err_db in Hrun. rewrite Hrun in *. by split. }
  apply pull_run in Hrun as (s & _ & Hout).
  assert (schedule_inv (w_db w') /\ callback_inv (w_db w')) as [??]; [|by split].
  destruct Hout as [|db1 _ _ _ Hrec _|db1 limit sel db' _ _ _ Hrec _ _ _ _ Hl]; [done|..].
  - by eapply reclaim_phase_tables.
  - eapply reclaim_phase_tables in Hrec as [Hs1 Hc1]; [|done..].
    apply leases_tables in Hl as (? & ? & ? & ?).
    split; [inv_ext Hs1|inv_ext Hc1].
Qed.

(** *** Settling and extending *)

Lemma settle_callback_inv s did eid g a st now w u w' :
  insertQueueResultCallback s did eid g a st now w = (Ok u, w') ->
  callback_inv (w_db w) -> callback_inv (w_db w').
Proof.
  unfold insertQueueResultCallback. destruct (bool_decide _); cbv iota zeta;
    (case_match; intros Hrun Hinv; run_inv; [|done]);
    match goal with Hm : match ?i with Ok _ => _ | Err _ => _ end = _ |- _ =>
      destruct i eqn:Hins; simplify_eq end;
    match goal with Hd : set_callbacks _ _ = w_db _ |- _ => rewrite <- Hd end;
    (eapply insert_callback_inv; [exact Hinv| | | |exact Hins]; done).
Qed.

Lemma settle_one_tables s app sub now st w r w' :
  settle_one s app sub now st w = (Ok r, w') ->
  schedule_inv (w_db w) -> callback_inv (w_db w) ->
  schedule_inv (w_db w') /\ callback_inv (w_db w').
Proof.
  intros Hrun Hs Hc. split.
  { apply settle_one_run in Hrun. destruct Hrun; [done|]. inv_ext Hs. }
  unfold settle_one in Hrun. destruct (next_status st); run_inv; [|done].
  unfold settle_update in *. destruct (head (select_where _ _)) eqn:Hh; simpl in *; simplify_eq.
  2:{ run_inv. match goal with Hd : set_deliveries _ _ = w_db _ |- _ => rewrite <- Hd end.
      inv_ext Hc. }
  destruct (settled_outcome _ _ _) as [outcome reason]. run_inv.
  match goal with Hi : do_insert_attempt _ _ _ = _ |- _ =>
    apply do_insert_attempt_run in Hi as [_ Hdb1] end.
  match goal with Hd : set_deliveries _ _ = w_db _ |- _ => rewrite <- Hd in Hdb1 end.
  match goal with Hf : (if _ then insertQueueResultCallback _ _ _ _ _ _ _ else _) ?w1 = _ |- _ =>
    assert (callback_inv (w_db w1)) as Hc1 by (rewrite Hdb1; inv_ext Hc);
    destruct (bool_decide _ || bool_decide _); [by eapply settle_callback_inv in Hf|] end.
  by run_inv.
Qed.

Lemma settle_all_tables s app sub now sts w rs w' :
  mapM_ (settle_one s app sub now) sts w = (Ok rs, w') ->
  schedule_inv (w_db w) -> callback_inv (w_db w) ->
  schedule_inv (w_db w') /\ callback_inv (w_db w').
Proof.
  revert w rs. induction sts as [|st sts IH]; intros w rs Hrun Hs Hc;
    cbn [mapM_] in Hrun; run_inv; [done|].
  match goal with Ho : settle_one _ _ _ _ _ _ = _ |- _ =>
    apply settle_one_tables in Ho as [??]; [|done..] end.
  by eapply IH.
Qed.

Lemma settle_step app sub sts now w res w' :
  SettleQueueDeliveries app sub sts now w = (res, w') -> step_ok (w_db w) (w_db w').
Proof.
  intros Hrun [Hd Hs Hc].
  destruct (settle_preserves _ _ _ _ _ _ _ Hrun Hd) as (Hd' & Hm & _).
  split; [|by apply rows_moved_evolve]. destruct res as [rs|e].
  2:{ apply transaction_err_db in Hrun. rewrite Hrun in *. by split. }
  unfold SettleQueueDeliveries, scanQueueSubscription in Hrun. run_inv.
  match goal with Hm : mapM_ _ _ _ = _ |- _ => apply settle_all_tables in Hm as [??] end.
  - split; [done|..]; congruence.
  - congruence.
  - congruence.
Qed.

Lemma extend_step app sub exts now w res w' :
  ExtendQueueLeases app sub exts now w = (res, w') -> step_ok (w_db w) (w_db w').
Proof.
  intros Hrun [Hd Hs Hc].
  destruct (extend_preserves _ _ _ _ _ _ _ Hrun Hd) as (Hd' & Hm & _).
  split; [|by apply rows_moved_evolve]. destruct res as [rs|e].
  2:{ apply transaction_err_db in Hrun. rewrite Hrun in *. by split. }
  apply extend_run in Hrun as (_ & Hdb & _). split; [done|..]; rewrite Hdb.
  - inv_ext Hs.
  - inv_ext Hc.
Qed.

(** *** Dead letters *)

Lemma step_moved db db' :
  (delivery_inv db -> rows_moved (queue_deliveries db) (queue_deliveries db')) ->
  queue_subscriptions db' = queue_subscriptions db -> events db' = events db ->
  queue_delivery_attempts db' = queue_delivery_attempts db ->
  queue_schedules db' = queue_schedules db ->
  queue_schedule_occurrences db' = queue_schedule_occurrences db ->
  queue_result_callbacks db' = queue_result_callbacks db ->
  queue_result_callback_attempts db' = queue_result_callback_attempts db -> step_ok db db'.
Proof.
  intros Hm ?? Ha ???? [Hd Hs Hc]. split; [|by apply rows_moved_evolve, Hm].
  split; [|inv_ext Hs|inv_ext Hc].
  eapply delivery_inv_moved; [exact Hd|done|done|by apply Hm|]. rewrite Ha. eauto.
Qed.

Lemma replay_keeps app sub ids now : keeps step_ok (ReplayQueueDeadLetters app sub ids now).
Proof.
  apply (keeps_update step_ok). intros db. simpl. apply step_moved; try done. intros _.
  apply update_where_moved. intros id d _ Hhit. constructor.
  unfold chosen_dead_letter, is_status in Hhit. bool_to_prop. tauto.
Qed.

(** Removing rows, with the attempts that hang off them. *)
Lemma keep_deliveries_inv keep db : queue_inv db -> queue_inv (keep_deliveries keep db).
Proof.
  intros [Hd Hs Hc].
  assert (forall k d, queue_deliveries (keep_deliveries keep db) !! k = Some d ->
    queue_deliveries db !! k = Some d) as Hsub.
  { simpl. intros k d Hk. by apply lookup_delete_where in Hk as [? _]. }
  split; [split|inv_ext Hs|inv_ext Hc].
  - intros k d Hk%Hsub. apply (inv_key _ Hd _ _ Hk).
  - intros k d Hk%Hsub. apply (inv_ok _ Hd _ _ Hk).
  - intros k d Hk%Hsub. apply (inv_owner _ Hd _ _ Hk).
  - intros k d Hk%Hsub. apply (inv_event _ Hd _ _ Hk).
  - intros k k' d d' Hk%Hsub Hk'%Hsub. apply (inv_unique _ Hd _ _ _ _ Hk Hk').
  - simpl. intros id g a o i [Hi [d Hk]]%map_lookup_filter_Some. simpl in Hk.
    exists d. split; [done|]. destruct (inv_attempts _ Hd _ _ _ _ _ Hi) as (d' & Hd' & Hfit).
    apply lookup_delete_where in Hk as [Hk _]. by simplify_eq.
  - intros k s Hk. apply (inv_subs _ Hd _ _ Hk).
Qed.

(** *** Subscriptions *)

(** Writing a subscription row that satisfies the checks and keeps its owner. *)
Lemma put_subscription_step s db :
  subscription_check s = true ->
  (forall cur, queue_subscriptions db !! sub_ID s = Some cur -> sub_AppID s = sub_AppID cur) ->
  step_ok db (set_subscriptions (<[sub_ID s := s]> (queue_subscriptions db)) db).
Proof.
  intros Hc Hown [Hd Hs Hcb]. split; [|done]. split; [|inv_ext Hs|inv_ext Hcb].
  destruct Hd as [H1 H2 H3 H4 H5 H6 H7]. split; try done.
  - intros k d Hk. destruct (H3 _ _ Hk) as (cur & Hcur & Happ). simpl.
    destruct (decide (sub_ID s = d_subscription_id d)) as [Heq|Hne].
    + rewrite Heq, lookup_insert_eq. exists s. split; [done|]. rewrite <- Heq in Hcur.
      by rewrite (Hown _ Hcur).
    + rewrite lookup_insert_ne by done. eauto.
  - simpl. intros k s' [[<- <-]|[_ Hk]]%lookup_insert_Some; [done|]. by apply H7.
Qed.

Lemma create_subscription_keeps item : keeps step_ok (CreateQueueSubscription item).
Proof.
  unfold CreateQueueSubscription, unique_conflict. keeps_solve.
  apply (keeps_exec step_ok). intros lk db u db'. unfold insert_subscription.
  destruct (to_jsonb _) as [meta|]; [|done].
  destruct (subscription_check _) eqn:Hc; simpl; [|done].
  destruct (isSome _ || name_taken _ _) eqn:He; [done|].
  destruct (negb _); [done|]. intros. simplify_eq.
  apply (put_subscription_step (set_metadata meta (default_metadata item))); [done|].
  intros cur Hcur. bool_to_prop. destruct He as [He _]. simpl in Hcur.
  unfold isSome, isNone in He. by rewrite Hcur in He.
Qed.

Lemma update_subscription_keeps item version : keeps step_ok (UpdateQueueSubscription item version).
Proof.
  unfold UpdateQueueSubscription, GetQueueSubscription, scanQueueSubscription. keeps_solve.
  apply (keeps_exec step_ok). intros lk db u db'. unfold update_subscription.
  destruct (to_jsonb _) as [meta|]; [|done].
  destruct (get_subscription _ _ db) as [cur|] eqn:Hget; [|done].
  destruct (_ =? version); [|done]. unfold put_subscription.
  destruct (subscription_check _) eqn:Hc; simpl; [|done]. case_match; [done|].
  intros Heq Hi. simplify_eq. revert Hi. apply get_subscription_spec in Hget as [Hcur Happ].
  intros Hi. apply (put_subscription_step (updated_subscription cur (default_metadata item) meta));
    [done| |done].
  simpl. intros cur' Hcur'. pose proof (inv_subs _ (qi_delivery _ Hi) _ _ Hcur) as [Hid _].
  rewrite Hid in Hcur'. by simplify_eq.
Qed.

Lemma keep_schedules_inv keep db : schedule_inv db -> schedule_inv (keep_schedules keep db).
Proof.
  intros [H1 H2]. split.
  - simpl. intros k r [Hk _]%lookup_delete_where. eauto.
  - simpl. intros k k' e [? _]%map_lookup_filter_Some [? _]%map_lookup_filter_Some. eauto.
Qed.

Lemma keep_callbacks_inv keep db : callback_inv db -> callback_inv (keep_callbacks keep db).
Proof.
  intros [H1 H2 H3 H4]. split; simpl.
  - intros k c [Hk _]%lookup_delete_where. eauto.
  - intros k c [Hk _]%lookup_delete_where. eauto.
  - intros k k' c c' [? _]%lookup_delete_where [? _]%lookup_delete_where. eauto.
  - intros id a i [Hi [c Hc]]%map_lookup_filter_Some. simpl in Hc.
    destruct (H4 _ _ _ Hi) as (c' & Hc' & ?). exists c. split; [done|].
    apply lookup_delete_where in Hc as [? _]. by simplify_eq.
Qed.

Lemma delete_subscription_inv id db : queue_inv db -> queue_inv (delete_subscription id db).
Proof.
  intros Hinv. pose proof Hinv as [Hd Hs Hc].
  set (keep := fun d => negb (bool_decide (d_subscription_id d = id))).
  destruct (keep_deliveries_inv keep db Hinv) as [Hd1 _ _]. split.
  - destruct Hd1 as [H1 H2 H3 H4 H5 H6 H7]. split; try done.
    + intros k d Hk. destruct (H3 _ _ Hk) as (s & Hks & Happ). exists s. split; [|done].
      simpl. rewrite lookup_delete_ne; [done|]. intros ->.
      apply lookup_delete_where in Hk as [_ Hk]. unfold keep in Hk.
      by rewrite bool_decide_eq_true_2 in Hk.
    + simpl. intros k s [_ Hk]%lookup_delete_Some. by apply H7.
  - eapply schedule_inv_ext; [..|apply (keep_schedules_inv
      (fun s => negb (bool_decide (sr_subscription_id s = id))) db Hs)]; done.
  - eapply callback_inv_ext; [..|apply (keep_callbacks_inv
      (fun c => negb (bool_decide (cb_subscription_id c = id))) db Hc)]; done.
Qed.

(** *** Schedules *)

Lemma schedules_step db T :
  (forall k r, T !! k = Some r -> sr_id r = k /\ schedule_check r = true) ->
  step_ok db (set_schedules T db).
Proof.
  intros HT [Hd Hs Hc]. split; [|done]. split; [inv_ext Hd| |inv_ext Hc].
  destruct Hs as [_ Ho]. by split.
Qed.

Lemma put_schedule_step r db :
  schedule_check r = true -> step_ok db (set_schedules (<[sr_id r := r]> (queue_schedules db)) db).
Proof.
  intros Hr Hi. pose proof (qi_schedule _ Hi) as [Hrow _]. revert Hi.
  apply schedules_step. intros k r' [[<- <-]|[_ Hk]]%lookup_insert_Some; [done|eauto].
Qed.

Lemma create_schedule_keeps item : keeps step_ok (CreateQueueSchedule item).
Proof.
  unfold CreateQueueSchedule, unique_conflict. keeps_solve.
  apply (keeps_exec step_ok). intros lk db u db'. unfold insert_schedule.
  destruct (to_jsonb (sch_Data item)), (to_jsonb (sch_Metadata item)); try done.
  destruct (get_subscription _ _ _); [|done]. simpl.
  destruct (schedule_check _) eqn:Hc; [|done]. simpl. case_match; [done|]. intros. simplify_eq.
  by apply (put_schedule_step (mkScheduleRow _ _ _ _ _ _ _ _ _ _ _ _ _ _ _ _ _ _ _ _)).
Qed.

Lemma update_schedule_keeps item version : keeps step_ok (UpdateQueueSchedule item version).
Proof.
  unfold UpdateQueueSchedule, GetQueueSchedule. keeps_solve.
  apply (keeps_exec step_ok). intros lk db u db'. unfold update_schedule.
  destruct (to_jsonb (sch_Data item)), (to_jsonb (sch_Metadata item)); try done.
  destruct (get_schedule _ _ _ _); [|done]. case_match; [|done]. simpl.
  destruct (schedule_check _) eqn:Hc; [|done]. simpl. case_match; [done|]. intros. simplify_eq.
  by apply (put_schedule_step (mkScheduleRow _ _ _ _ _ _ _ _ _ _ _ _ _ _ _ _ _ _ _ _)).
Qed.

Lemma delete_schedule_keeps app sub id : keeps step_ok (DeleteQueueSchedule app sub id).
Proof.
  apply (keeps_exec step_ok). intros lk db u db'. case_match; intros; simplify_eq.
  intros [Hd Hs Hc]. split; [|done].
  split; [inv_ext Hd|by apply keep_schedules_inv|inv_ext Hc].
Qed.

(** Changing the claim of some rows. *)
Lemma claim_rows_step p f db :
  (forall r, sr_id (f r) = sr_id r /\ (schedule_check r = true -> schedule_check (f r) = true)) ->
  step_ok db (set_schedules (update_where p f (queue_schedules db)) db).
Proof.
  intros Hf Hi. pose proof (qi_schedule _ Hi) as [Hrow _]. revert Hi.
  apply schedules_step. intros k r. rewrite lookup_update_where.
  destruct (queue_schedules db !! k) as [r0|] eqn:Hk; [|done]. simpl. intros. simplify_eq.
  destruct (Hrow _ _ Hk) as [<- Hc]. destruct (Hf r0) as [Hid Hok].
  case_match; [by split; [|apply Hok]|done].
Qed.

Lemma claim_row_check token expires g next last now r :
  schedule_check r = true -> isNone token = isNone expires -> 0 <= g ->
  schedule_check (claim_row token expires g next last now r) = true.
Proof.
  unfold schedule_check. simpl. intros Hc Heq Hg. bool_to_prop. destruct_and!.
  split_and!; try done. rewrite Heq. apply eqb_reflx.
Qed.

Lemma schedule_generation r : schedule_check r = true -> 0 <= sr_claim_generation r.
Proof. unfold schedule_check. intros. bool_to_prop. lia. Qed.

Lemma claim_schedules_keeps now until token limit :
  keeps step_ok (ClaimDueQueueSchedules now until token limit).
Proof.
  apply (keeps_exec step_ok). intros lk db r db'. case_match; [done|].
  cbv zeta. intros. simplify_eq. apply claim_rows_step. intros s. split; [done|]. intros Hc. apply claim_row_check; [done..|].
  pose proof (schedule_generation _ Hc). lia.
Qed.

(** *** New deliveries *)

Lemma set_events_step e db :
  events db !! er_id e = None -> step_ok db (set_events (<[er_id e := e]> (events db)) db).
Proof.
  intros He [Hd Hs Hc]. split; [|done]. split; [|inv_ext Hs|inv_ext Hc].
  destruct Hd as [H1 H2 H3 H4 H5 H6 H7]. split; try done.
  intros k d Hk. simpl. destruct (H4 _ _ Hk) as [e' He'].
  rewrite lookup_insert_ne by congruence. by eexists.
Qed.

Lemma insert_delivery_step d db db' :
  insert_delivery d db = Ok db' ->
  (between (-10) (d_priority d) 10 = true -> fresh_delivery d) ->
  (forall s, queue_subscriptions db !! d_subscription_id d = Some s -> sub_AppID s = d_app_id d) ->
  step_ok db db' /\ queue_subscriptions db' = queue_subscriptions db.
Proof.
  unfold insert_delivery. destruct (negb (between _ _ _)) eqn:Hp; [done|].
  destruct (existsb _ _) eqn:Hex; [by intros; simplify_eq|].
  destruct (queue_deliveries db !! d_id d) eqn:Hid; [done|].
  destruct (isNone _ || isNone _) eqn:Hfk; [done|].
  intros Heq Hfresh Hown. simplify_eq. split; [|done]. apply negb_false_iff in Hp.
  specialize (Hfresh Hp). unfold isNone in Hfk. bool_to_prop. destruct Hfk as [Hev Hsub].
  intros [Hd Hs Hc]. split; [split; [|inv_ext Hs|inv_ext Hc]|].
  2:{ split; simpl.
      - intros id d0 Hd0. exists d0. rewrite lookup_insert_ne by congruence. eauto using rtc_refl.
      - intros id d0 Hn [[_ <-]|[_ Hd0]]%lookup_insert_Some; [eauto using rtc_refl|congruence]. }
  assert (forall k d', queue_deliveries db !! k = Some d' ->
    d_subscription_id d' = d_subscription_id d -> d_event_id d' = d_event_id d -> False) as Hnew.
  { intros k d' Hk Hs1 He1. assert (existsb (fun o => bool_decide (d_subscription_id o =
      d_subscription_id d) && bool_decide (d_event_id o = d_event_id d))
      (rows (queue_deliveries db)) = true); [|congruence].
    apply existsb_exists. exists d'. rewrite !bool_decide_eq_true_2 by done.
    split; [|done]. apply list_elem_of_In, elem_of_rows. eauto. }
  destruct Hd as [H1 H2 H3 H4 H5 H6 H7]. split; simpl; try done.
  - intros k d' [[<- <-]|[_ Hk]]%lookup_insert_Some; eauto.
  - intros k d' [[<- <-]|[_ Hk]]%lookup_insert_Some; eauto using fresh_delivery_ok.
  - intros k d' [[<- <-]|[_ Hk]]%lookup_insert_Some; [|eauto].
    destruct (queue_subscriptions db !! d_subscription_id d) as [s|]; [|done]. eauto.
  - intros k d' [[<- <-]|[_ Hk]]%lookup_insert_Some; [|eauto].
    destruct (events db !! d_event_id d); [by eexists|done].
  - intros k k' x y [[<- <-]|[_ Hk]]%lookup_insert_Some [[<- <-]|[_ Hk']]%lookup_insert_Some ? ?;
      [done|exfalso; by eapply Hnew|exfalso; by eapply Hnew|by eapply H5].
  - intros id g a o i Hi. destruct (H6 _ _ _ _ _ Hi) as (x & Hx & Hfit). exists x.
    split; [|done]. rewrite lookup_insert_ne; [done|congruence].
Qed.

Lemma new_delivery_fresh id sub app event av key prio meta created expires :
  between (-10) prio 10 = true ->
  fresh_delivery (new_delivery id sub app event av key prio meta created expires).
Proof. by repeat split. Qed.

Lemma insert_deliveries_step ds db db' :
  insert_deliveries ds db = Ok db' ->
  Forall (fun d => (between (-10) (d_priority d) 10 = true -> fresh_delivery d)
    /\ forall s, queue_subscriptions db !! d_subscription_id d = Some s ->
                 sub_AppID s = d_app_id d) ds ->
  step_ok db db'.
Proof.
  revert db. induction ds as [|d ds IH]; simpl; intros db Hins Hall; [by simplify_eq|].
  destruct (insert_delivery d db) as [db1|] eqn:H1; [|done].
  apply Forall_cons in Hall as [[Hf Ho] Hall].
  apply insert_delivery_step in H1 as [Hstep Hsub]; [|done..].
  etransitivity; [exact Hstep|]. apply (IH db1); [done|]. by rewrite Hsub.
Qed.

(** *** Publishing *)

Definition PublishToQueues (event : Event) (retention : Z) : M_queue unit :=
  transaction (begin;; publish_to_queues event retention;; commit).

Lemma fan_out_step event retention db u db' :
  fan_out event retention db = Ok (u, db') -> step_ok db db'.
Proof.
  unfold fan_out. destruct (queue_columns event) as [[[[av key] prio] meta] hash].
  destruct (to_jsonb meta) as [meta'|]; [|done].
  destruct (insert_deliveries _ _) as [db1|] eqn:Hins; [|done]. intros Heq Hinv. simplify_eq.
  pose proof (qi_delivery _ Hinv) as Hd. revert Hinv.
  eapply insert_deliveries_step; [exact Hins|]. apply Forall_forall.
  intros d (s & -> & [_ [k Hk]]%elem_of_select)%list_elem_of_fmap.
  split; [apply new_delivery_fresh|]. simpl. intros s' Hs'.
  destruct (inv_subs _ Hd _ _ Hk) as [Hid _]. rewrite Hid in Hs'. by simplify_eq.
Qed.

Lemma dedup_step T db : step_ok db (set_dedup_keys T db).
Proof. intros [Hd Hs Hc]. split; [|done]. split; [inv_ext Hd|inv_ext Hs|inv_ext Hc]. Qed.

Lemma publish_keeps event retention : keeps step_ok (PublishToQueues event retention).
Proof.
  unfold PublishToQueues, publish_to_queues, unique_conflict. keeps_solve.
  - apply (keeps_exec step_ok). intros lk db ? db'. unfold insert_event.
    destruct (queue_columns event) as [[[[av key] prio] meta] hash].
    destruct (to_jsonb meta); [|done]. case_match; [done|].
    destruct (events db !! ev_ID event) eqn:He; [done|]. intros. simplify_eq.
    by apply (set_events_step (mkEventRow (ev_ID event) _ _ _ _ _ _ _ _ _ _)).
  - apply (keeps_update step_ok). intros db. apply dedup_step.
  - apply (keeps_exec step_ok). intros lk db ? db'. apply fan_out_step.
  - apply (keeps_update step_ok). intros db. apply dedup_step.
Qed.

(** *** Completing an occurrence *)

Lemma occurrence_step c r db u db' :
  insert_occurrence c r db = Ok (u, db') -> step_ok db db'.
Proof.
  unfold insert_occurrence. destruct (isSome _ || existsb _ _) eqn:He; [done|].
  intros Heq [Hd Hs Hc]. simplify_eq. split; [|done]. split; [inv_ext Hd| |inv_ext Hc].
  bool_to_prop. destruct He as [_ Hfree]. destruct Hs as [Hrow Hocc]. split; [done|].
  assert (forall k e, queue_schedule_occurrences db !! k = Some e -> e <> sc_EventID c) as Hnew.
  { intros k e Hk ->. assert (existsb (fun kv : (string * Z) * string =>
      bool_decide (kv.2 = sc_EventID c)) (map_to_list (queue_schedule_occurrences db)) = true);
      [|congruence].
    apply existsb_exists. exists (k, sc_EventID c). split; [|by apply bool_decide_eq_true_2].
    by apply list_elem_of_In, elem_of_map_to_list. }
  simpl. intros k k' e [[<- <-]|[_ Hk]]%lookup_insert_Some [[<- He']|[_ Hk']]%lookup_insert_Some;
    [done|exfalso; by eapply Hnew|exfalso; subst; by eapply Hnew|by eapply Hocc].
Qed.

Lemma event_do_nothing_step e db :
  step_ok db (insert_event_do_nothing e db)
  /\ queue_subscriptions (insert_event_do_nothing e db) = queue_subscriptions db.
Proof.
  unfold insert_event_do_nothing. destruct (events db !! er_id e) eqn:He; [done|].
  split; [|done]. by apply set_events_step.
Qed.

Lemma create_occurrence_run c r retention w u w' :
  create_occurrence c r retention w = (Ok u, w') ->
  (forall s, queue_subscriptions (w_db w) !! sr_subscription_id r = Some s ->
             sub_AppID s = sr_app_id r) ->
  step_ok (w_db w) (w_db w').
Proof.
  unfold create_occurrence. intros Hrun Hown. run_inv. simplify_eq.
  match goal with He : insert_event_do_nothing ?e _ = w_db ?x |- _ =>
    destruct (event_do_nothing_step e (w_db w)) as [Hs1 Hsub1]; rewrite He in Hs1, Hsub1 end.
  match goal with Hi : context [insert_delivery ?d ?db] |- _ =>
    destruct (insert_delivery d db) as [db2|] eqn:Hins; simplify_eq end.
  apply insert_delivery_step in Hins as [Hs2 Hsub2].
  - etransitivity; [exact Hs1|]. etransitivity; [exact Hs2|]. by eapply occurrence_step.
  - intros Hp. by apply new_delivery_fresh.
  - simpl. rewrite Hsub1. done.
Qed.

Lemma claimed_schedule_spec c db r retention :
  claimed_schedule c db = Some (r, retention) ->
  queue_schedules db !! sc_ScheduleID c = Some r
  /\ sr_claim_token r = Some (sc_ClaimToken c) /\ sr_claim_generation r = sc_ClaimGeneration c
  /\ exists s, queue_subscriptions db !! sr_subscription_id r = Some s
      /\ sub_AppID s = sr_app_id r /\ retention = sub_RetentionSeconds s.
Proof.
  unfold claimed_schedule, null_eq.
  destruct (queue_schedules db !! sc_ScheduleID c) as [r0|]; [|done].
  destruct (queue_subscriptions db !! sr_subscription_id r0) as [s|] eqn:Hs; [|done].
  destruct (_ && _ && _) eqn:Hc; [|done]. intros. simplify_eq. bool_to_prop. naive_solver.
Qed.

Lemma complete_step c w res w' :
  CompleteQueueSchedule c w = (res, w') -> step_ok (w_db w) (w_db w').
Proof.
  intros Hrun. destruct res as [r|e].
  2:{ apply transaction_err_db in Hrun. by rewrite Hrun. }
  unfold CompleteQueueSchedule in Hrun. run_inv.
  match goal with Hc : claimed_schedule _ _ = Some ?x |- _ =>
    destruct x as [schedule retention]; rename Hc into Hclaim end.
  destruct (negb _) eqn:Hnext; run_inv.
  match goal with Hr : record_occurrence ?b _ _ _ ?w1 = (Ok _, ?w2) |- _ =>
    assert (w_db w1 = w_db w) as Hw1 by congruence;
    assert (step_ok (w_db w) (w_db w2)) as Hs1; [rewrite <- Hw1|] end.
  { match goal with Hr : record_occurrence ?b _ _ _ _ = _ |- _ =>
      unfold record_occurrence in Hr; destruct b; run_inv; [reflexivity|];
      eapply create_occurrence_run; [exact Hr|] end.
    rewrite Hw1. intros s Hs.
    match goal with Hd : w_db ?x = w_db w, Hc : claimed_schedule _ (w_db ?x) = _ |- _ =>
      rewrite Hd in Hc end.
    apply claimed_schedule_spec in Hclaim as (_ & _ & _ & s' & Hs' & ? & _). congruence. }
  match type of Hrun with context [?n =? 1] => destruct (n =? 1) end; simpl in Hrun; run_inv.
  simplify_eq. etransitivity; [exact Hs1|]. match goal with Hd : w_db w' = w_db ?x |- _ => rewrite Hd end.
  match goal with Hd : set_schedules _ _ = w_db ?x |- _ => rewrite <- Hd end.
  apply claim_rows_step. intros row. split; [done|]. intros Hc. apply claim_row_check; [done..|].
  by apply schedule_generation.
Qed.

(** *** Draining *)

Lemma update_drain_step app id p f db n db' :
  (forall s, sub_ID (f s) = sub_ID s /\ sub_AppID (f s) = sub_AppID s) ->
  update_drain app id p f db = Ok (n, db') -> step_ok db db'.
Proof.
  intros Hf. unfold update_drain. destruct (get_subscription app id db) as [s|] eqn:Hget.
  2:{ by intros; simplify_eq. }
  destruct (p s); [|by intros; simplify_eq].
  destruct (subscription_check (f s)) eqn:Hc; [|done]. intros Heq Hinv. simplify_eq.
  apply get_subscription_spec in Hget as [Hs _]. destruct (Hf s) as [Hid Happ].
  pose proof (inv_subs _ (qi_delivery _ Hinv) _ _ Hs) as [Hkey _]. revert Hinv.
  replace id with (sub_ID (f s)) by congruence. apply put_subscription_step; [done|].
  intros cur Hcur. rewrite Hid, Hkey in Hcur. by simplify_eq.
Qed.

Lemma get_drain_keeps app sub now : keeps step_ok (GetQueueDrain app sub now).
Proof.
  unfold GetQueueDrain. keeps_solve. apply (keeps_exec step_ok). intros lk db n db'.
  by apply update_drain_step.
Qed.

Lemma begin_drain_keeps app sub started deadline :
  keeps step_ok (BeginQueueDrain app sub started deadline).
Proof.
  unfold BeginQueueDrain. keeps_solve; [|apply get_drain_keeps].
  apply (keeps_exec step_ok). intros lk db n db'. by apply update_drain_step.
Qed.

(** *** Callbacks *)

Lemma claim_callback_step now until token w res w' :
  ClaimQueueResultCallback Decrypt now until token w = (res, w') -> step_ok (w_db w) (w_db w').
Proof.
  intros Hrun [Hd Hs Hc]. pose proof (claim_preserves _ _ _ _ _ _ _ Hrun Hc) as Hc'.
  destruct res as [r|e].
  2:{ apply transaction_err_db in Hrun. by rewrite Hrun. }
  apply claim_run in Hrun as (c & _ & _ & _ & _ & _ & _ & _ & Hdb).
  split; [|by rewrite Hdb]. split; [rewrite Hdb; inv_ext Hd|rewrite Hdb; inv_ext Hs|done].
Qed.

Lemma finish_callback_step t w res w' :
  FinishQueueResultCallback t w = (res, w') -> step_ok (w_db w) (w_db w').
Proof.
  intros Hrun [Hd Hs Hc]. assert (callback_inv (w_db w')) as Hc' by (by eapply finish_preserves).
  destruct res as [r|e].
  2:{ apply transaction_err_db in Hrun. by rewrite Hrun. }
  apply finish_run in Hrun as (c & _ & _ & Hdb); [|done].
  split; [|by rewrite Hdb]. split; [rewrite Hdb; inv_ext Hd|rewrite Hdb; inv_ext Hs|done].
Qed.

(** ** The transition system *)

Inductive queue_op :=
| OpCreateSubscription (item : QueueSubscription)
| OpUpdateSubscription (item : QueueSubscription) (expectedVersion : Z)
| OpDeleteSubscription (appID id : string)
| OpPull (request : QueuePullRequest)
| OpSettle (appID subscriptionID : string) (settlements : list QueueSettlement) (now : Z)
| OpExtend (appID subscriptionID : string) (extensions : list QueueLeaseExtension) (now : Z)
| OpReplay (appID subscriptionID : string) (ids : list string) (now : Z)
| OpDeleteDeadLetters (appID subscriptionID : string) (ids : list string)
| OpCreateSchedule (item : QueueSchedule)
| OpUpdateSchedule (item : QueueSchedule) (expectedVersion : Z)
| OpDeleteSchedule (appID subscriptionID scheduleID : string)
| OpClaimSchedules (now claimUntil : Z) (token : string) (limit : Z)
| OpCompleteSchedule (completion : QueueScheduleCompletion)
| OpBeginDrain (appID subscriptionID : string) (startedAt deadlineAt : Z)
| OpGetDrain (appID subscriptionID : string) (now : Z)
| OpPublish (event : Event) (retention : Z)
| OpClaimCallback (now claimUntil : Z) (token : string)
| OpFinishCallback (transition : QueueResultCallbackTransition).

Definition discard {A} (m : M_queue A) : M_queue unit := m;; mret tt.

Definition run_op (op : queue_op) : M_queue unit :=
  match op with
  | OpCreateSubscription item => CreateQueueSubscription item
  | OpUpdateSubscription item version => discard (UpdateQueueSubscription item version)
  | OpDeleteSubscription app id => DeleteQueueSubscription app id
  | OpPull request => discard (PullQueueDeliveries request)
  | OpSettle app sub sts now => discard (SettleQueueDeliveries app sub sts now)
  | OpExtend app sub exts now => discard (ExtendQueueLeases app sub exts now)
  | OpReplay app sub ids now => discard (ReplayQueueDeadLetters app sub ids now)
  | OpDeleteDeadLetters app sub ids => discard (DeleteQueueDeadLetters app sub ids)
  | OpCreateSchedule item => CreateQueueSchedule item
  | OpUpdateSchedule item version => discard (UpdateQueueSchedule item version)
  | OpDeleteSchedule app sub id => DeleteQueueSchedule app sub id
  | OpClaimSchedules now until token limit =>
      discard (ClaimDueQueueSchedules now until token limit)
  | OpCompleteSchedule completion => CompleteQueueSchedule completion
  | OpBeginDrain app sub started deadline => discard (BeginQueueDrain app sub started deadline)
  | OpGetDrain app sub now => discard (GetQueueDrain app sub now)
  | OpPublish event retention => PublishToQueues event retention
  | OpClaimCallback now until token => discard (ClaimQueueResultCallback Decrypt now until token)
  | OpFinishCallback transition => FinishQueueResultCallback transition
  end.

(** The database after an operation, under a schedule of database failures and
    with rows locked by concurrent transactions. *)
Definition op_result (op : queue_op) (faults : list bool) (locked : gset string) (db : QueueDB)
    : QueueDB := w_db (run_op op (mkWorld db faults locked)).2.

Definition set_applications (apps : gset string) (creds : gmap string string) (db : QueueDB)
    : QueueDB :=
  mkQueueDB apps creds (events db) (queue_subscriptions db) (queue_deliveries db)
    (queue_delivery_attempts db) (queue_result_callbacks db) (queue_result_callback_attempts db)
    (queue_schedules db) (queue_schedule_occurrences db) (queue_deduplication_keys db).

(** States reached from empty tables; applications and credentials are managed
    elsewhere and may change at any time. *)
Inductive reachable : QueueDB -> Prop :=
| reach_init apps creds : reachable (mkQueueDB apps creds ∅ ∅ ∅ ∅ ∅ ∅ ∅ ∅ ∅)
| reach_op db op faults locked : reachable db -> reachable (op_result op faults locked db)
| reach_apps db apps creds : reachable db -> reachable (set_applications apps creds db).

Lemma discard_keeps {A} (m : M_queue A) : keeps step_ok m -> keeps step_ok (discard m).
Proof. intros Hm. unfold discard. keeps_solve. done. Qed.

(** The operations that remove deliveries, and which. *)
Definition removes (op : queue_op) (d : Delivery) : Prop :=
  match op with
  | OpDeleteSubscription appID id => d_subscription_id d = id /\ d_app_id d = appID
  | OpDeleteDeadLetters appID subscriptionID ids =>
      d_status d = DeadLetter /\ d_subscription_id d = subscriptionID /\ d_app_id d = appID /\ d_id d ∈ ids
  | _ => False
  end.
(** What an operation does to the rows of deliveries. *)
Definition op_rows (op : queue_op) (T T' : gmap string Delivery) : Prop :=
  rows_evolve T T'
  \/ forall id, match T' !! id with
                | Some d => T !! id = Some d
                | None => forall d, T !! id = Some d -> removes op d
                end.
Lemma kept_rows keep db (P : Delivery -> Prop) :
  (forall id d, queue_deliveries db !! id = Some d -> keep d = false -> P d) ->
  forall id, match queue_deliveries (keep_deliveries keep db) !! id with
             | Some d => queue_deliveries db !! id = Some d
             | None => forall d, queue_deliveries db !! id = Some d -> P d
             end.
Proof.
  intros Hp id. simpl. destruct (delete_where _ _ !! id) as [d|] eqn:E; [by apply lookup_delete_where in E as [? _]|].
  intros d Hd. apply (Hp id d Hd). destruct (keep d) eqn:Hk; [|done].
  assert (delete_where (fun d => negb (keep d)) (queue_deliveries db) !! id = Some d) as Hc; [|congruence].
  apply lookup_delete_where. by rewrite Hk.
Qed.
Lemma run_op_rows op w : queue_inv (w_db w) ->
  queue_inv (w_db (run_op op w).2) /\ op_rows op (queue_deliveries (w_db w)) (queue_deliveries (w_db (run_op op w).2)).
Proof.
  intros Hinv. assert (keeps step_ok (run_op op) -> queue_inv (w_db (run_op op w).2)
    /\ op_rows op (queue_deliveries (w_db w)) (queue_deliveries (w_db (run_op op w).2))) as Hkeep.
  { intros Hk. destruct (Hk w Hinv) as [? ?]. split; [done|by left]. }
  destruct op as [| |app id| | | | |app sub ids| | | | | | | | | |]; try (apply Hkeep; simpl; try apply discard_keeps;
    first [apply create_subscription_keeps | apply update_subscription_keeps | apply replay_keeps | apply create_schedule_keeps
          | apply update_schedule_keeps | apply delete_schedule_keeps | apply claim_schedules_keeps | apply begin_drain_keeps
          | apply get_drain_keeps | apply publish_keeps
          | apply (keeps_run step_ok); intros w0 r w' Hrun;
            first [by eapply pull_step | by eapply settle_step | by eapply extend_step
                  | by eapply complete_step | by eapply claim_callback_step
                  | by eapply finish_callback_step]]).
  - simpl. destruct (DeleteQueueSubscription app id w) as [[[]|e] w'] eqn:Hrun; [|apply exec_err in Hrun; simpl; rewrite Hrun; split; [done|by left]].
    apply exec_ok in Hrun as [Hrun _]. destruct (get_subscription app id (w_db w)) as [s|] eqn:Hs; [|done]. injection Hrun as Hrun. simpl. rewrite <- Hrun.
    split; [by apply delete_subscription_inv|]. right. apply (kept_rows (fun d => negb (bool_decide (d_subscription_id d = id))) (w_db w)).
    intros k d Hd Hk%negb_false_iff%bool_decide_eq_true. split; [done|]. destruct (inv_owner _ (qi_delivery _ Hinv) _ _ Hd) as (s' & Hs' & <-).
    apply get_subscription_spec in Hs as [Hs Happ]. congruence.
  - simpl. unfold discard, DeleteQueueDeadLetters. unfold mbind, M_bind.
    destruct (update _ w) as [[n|e] w'] eqn:Hrun; [|apply exec_err in Hrun; simpl; rewrite Hrun; split; [done|by left]].
    apply update_ok in Hrun as [Hrun _]. injection Hrun as _ Hrun. simpl. rewrite <- Hrun.
    split; [by apply keep_deliveries_inv|]. right. apply (kept_rows (fun d => negb (chosen_dead_letter app sub ids (w_db w) d)) (w_db w)).
    intros k d Hd Hk%negb_false_iff. unfold chosen_dead_letter, owned, is_status in Hk. bool_to_prop.
    destruct Hk as [[[Hsub Hown] Hin] Hst]. unfold in_subscription in Hsub. apply bool_decide_eq_true in Hsub. split_and!; try done.
    destruct (get_subscription app sub (w_db w)) as [s|] eqn:Hs; [|done]. apply get_subscription_spec in Hs as [Hs Happ].
    destruct (inv_owner _ (qi_delivery _ Hinv) _ _ Hd) as (s' & Hs' & <-). congruence.
Qed.
Lemma run_op_inv op w : queue_inv (w_db w) -> queue_inv (w_db (run_op op w).2).
Proof. intros Hi. by apply run_op_rows. Qed.

Lemma reachable_queue_inv db : reachable db -> queue_inv db.
Proof.
  induction 1 as [apps creds|db op faults locked _ IH|db apps creds _ IH].
  - split; split; simpl; intros; rewrite ?lookup_empty in *; done.
  - by apply (run_op_inv op (mkWorld db faults locked)).
  - destruct IH as [Hd Hs Hc]. split; [inv_ext Hd|inv_ext Hs|inv_ext Hc].
Qed.

End system.
