(* ===== verification/QueueSchedulerClaims.v ===== *)
(** * Theorems about schedules and result callbacks

    Fencing: a claim that has been superseded can finish nothing. *)

From S2P Require Import Prelude GoLib Crypto Json Domain QueueSchema QueueStore.
From S2P Require Import QueueLifecycle QueuePull QueueSettle QueueScheduler Classify.
From S2P Require Import QueueCallbacks QueueSystem QueueLifecycle.

Section schedules.
Context `{Postgres}.

Lemma count_where_one (p : Schedule -> bool) (T : gmap string Schedule) k r :
  T !! k = Some r -> p r = true -> 0 < count_where p T.
Proof.
  intros Hk Hp. pose proof (count_where_nonneg p T).
  destruct (decide (count_where p T = 0)) as [Hz|]; [|lia].
  rewrite count_where_0 in Hz. by rewrite (Hz _ _ Hk) in Hp.
Qed.

(** What a completed occurrence leaves: the event (unless one of that identifier
    existed) and a delivery for the subscription, and the occurrence itself. *)
Definition occurrence_recorded (c : QueueScheduleCompletion) (r : Schedule) (db db' : QueueDB)
    : Prop :=
  queue_schedule_occurrences db' !! (sr_id r, sc_OccurrenceAt c) = Some (sc_EventID c)
  /\ is_Some (events db' !! sc_EventID c)
  /\ exists k d, queue_deliveries db' !! k = Some d
     /\ d_subscription_id d = sr_subscription_id r /\ d_event_id d = sc_EventID c.

Lemma insert_delivery_present d db db' :
  insert_delivery d db = Ok db' ->
  (exists k x, queue_deliveries db' !! k = Some x
     /\ d_subscription_id x = d_subscription_id d /\ d_event_id x = d_event_id d)
  /\ events db' = events db
  /\ queue_schedule_occurrences db' = queue_schedule_occurrences db
  /\ queue_schedules db' = queue_schedules db.
Proof.
  unfold insert_delivery. case_match; [done|]. destruct (existsb _ _) eqn:Hex.
  { intros. simplify_eq. split; [|done]. apply existsb_exists in Hex as (x & Hin & Hx).
    apply list_elem_of_In, elem_of_rows in Hin as [k Hk]. bool_to_prop.
    destruct Hx. eauto 10. }
  case_match; [done|]. case_match; [done|]. intros. simplify_eq. split; [|done].
  exists (d_id d), d. simpl. by rewrite lookup_insert_eq.
Qed.

Lemma create_occurrence_records c r retention w u w' :
  create_occurrence c r retention w = (Ok u, w') ->
  occurrence_recorded c r (w_db w) (w_db w')
  /\ queue_schedules (w_db w') = queue_schedules (w_db w)
  /\ queue_schedule_occurrences (w_db w')
     = <[(sr_id r, sc_OccurrenceAt c) := sc_EventID c]> (queue_schedule_occurrences (w_db w)).
Proof.
  unfold create_occurrence. intros Hrun. run_inv. simplify_eq.
  match goal with Hi : context [insert_delivery ?d ?db] |- _ =>
    destruct (insert_delivery d db) as [db2|] eqn:Hins; simplify_eq end.
  apply insert_delivery_present in Hins as ((k & x & Hx & Hs & He) & Hev & Hoc & Hsch).
  match goal with Hi : insert_occurrence _ _ _ = _ |- _ => unfold insert_occurrence in Hi end.
  destruct (isSome _ || existsb _ _); simplify_eq.
  match goal with Hd : set_occurrences _ _ = w_db w' |- _ => rewrite <- Hd end.
  match goal with Hd : insert_event_do_nothing _ _ = w_db _ |- _ =>
    rewrite <- Hd in Hev, Hsch, Hoc end.
  unfold occurrence_recorded. simpl. rewrite lookup_insert_eq, Hev, Hsch, Hoc.
  unfold insert_event_do_nothing. simpl.
  destruct (events (w_db w) !! sc_EventID c) eqn:E; split_and!; eauto 10; simpl;
    rewrite ?lookup_insert_eq; eauto.
Qed.

(** The schedule that holds the claim is the only row the last update touches. *)
Lemma advance_one c db r :
  schedule_inv db -> queue_schedules db !! sc_ScheduleID c = Some r ->
  sr_claim_token r = Some (sc_ClaimToken c) -> sr_claim_generation r = sc_ClaimGeneration c ->
  update_where (holds_claim c) (advance_schedule c) (queue_schedules db)
  = <[sc_ScheduleID c := advance_schedule c r]> (queue_schedules db).
Proof.
  intros Hinv Hr Htok Hgen. apply map_eq. intros k. rewrite lookup_update_where.
  destruct (decide (k = sc_ScheduleID c)) as [->|Hne].
  - rewrite Hr, lookup_insert_eq. simpl. destruct (sch_row _ Hinv _ _ Hr) as [Hid _].
    unfold holds_claim, null_eq. rewrite Htok, Hgen, Hid, Z.eqb_refl.
    by rewrite !bool_decide_eq_true_2.
  - rewrite lookup_insert_ne by done. destruct (queue_schedules db !! k) as [r'|] eqn:Hk; [|done].
    simpl. destruct (sch_row _ Hinv _ _ Hk) as [Hid _].
    unfold holds_claim. by rewrite Hid, bool_decide_eq_false_2.
Qed.

(** What a successful completion leaves. *)
Lemma complete_run c w u w' :
  CompleteQueueSchedule c w = (Ok u, w') -> queue_inv (w_db w) ->
  exists r, queue_schedules (w_db w) !! sc_ScheduleID c = Some r
  /\ sr_claim_token r = Some (sc_ClaimToken c)
  /\ sr_claim_generation r = sc_ClaimGeneration c
  /\ sr_next_run_at r = sc_OccurrenceAt c
  /\ queue_schedules (w_db w') = <[sc_ScheduleID c := advance_schedule c r]> (queue_schedules (w_db w))
  /\ match queue_schedule_occurrences (w_db w) !! (sr_id r, sc_OccurrenceAt c) with
     | Some e => queue_deliveries (w_db w') = queue_deliveries (w_db w)
                 /\ events (w_db w') = events (w_db w)
                 /\ queue_schedule_occurrences (w_db w') = queue_schedule_occurrences (w_db w)
     | None => occurrence_recorded c r (w_db w) (w_db w')
               /\ queue_schedule_occurrences (w_db w')
                  = <[(sr_id r, sc_OccurrenceAt c) := sc_EventID c]>
                      (queue_schedule_occurrences (w_db w))
     end.
Proof.
  intros Hrun Hinv.
  unfold CompleteQueueSchedule in Hrun. run_inv.
  match goal with Hc : claimed_schedule _ _ = Some ?x |- _ =>
    destruct x as [r retention]; rename Hc into Hclaim end.
  destruct (negb (_ =? sc_OccurrenceAt c)) eqn:Hnext; run_inv.
  match type of Hrun with context [?n =? 1] => destruct (n =? 1) end; simpl in Hrun; run_inv.
  match goal with Hr : record_occurrence ?b _ _ _ ?w1 = (Ok _, ?w2) |- _ =>
    rename Hr into Hrec; assert (w_db w1 = w_db w) as Hw1 by congruence end.
  match goal with Hd : w_db ?x = w_db w, Hc : claimed_schedule _ (w_db ?x) = _ |- _ =>
    rewrite Hd in Hc end.
  match goal with Hb : ?b = isSome (queue_schedule_occurrences (w_db ?x) !! _) |- _ =>
    replace (w_db x) with (w_db w) in Hb by congruence; subst b end.
  apply claimed_schedule_spec in Hclaim as (Hr & Htok & Hgen & _).
  bool_to_prop. injection H8 as _ Hdb.
  assert (w_db w' = set_schedules (update_where (holds_claim c) (advance_schedule c)
    (queue_schedules (w_db x5))) (w_db x5)) as -> by congruence.
  assert (queue_schedules (w_db x5) = queue_schedules (w_db w)
    /\ match queue_schedule_occurrences (w_db w) !! (sr_id r, sc_OccurrenceAt c) with
       | Some e => w_db x5 = w_db w
       | None => occurrence_recorded c r (w_db w) (w_db x5)
           /\ queue_schedule_occurrences (w_db x5)
              = <[(sr_id r, sc_OccurrenceAt c) := sc_EventID c]>
                  (queue_schedule_occurrences (w_db w))
       end) as [Hsch Hcase].
  { unfold record_occurrence in Hrec.
    destruct (queue_schedule_occurrences (w_db w) !! _) as [e|]; simpl in Hrec.
    - run_inv. by rewrite Hw1.
    - apply create_occurrence_records in Hrec as (Ho & Hs & Hocc).
      rewrite Hw1 in Ho, Hs, Hocc. done. }
  exists r. split_and!; [done..| |].
  - cbn -[update_where]. rewrite Hsch. apply advance_one; [apply Hinv|done..].
  - destruct (queue_schedule_occurrences (w_db w) !! _); [by rewrite Hcase|exact Hcase].
Qed.

(** Completing an occurrence. If it fails nothing has changed; if it
    succeeds, the schedule's current claim was the one presented and its next run
    was the occurrence, the schedule has moved on to the given next run with the
    claim released, and the occurrence is recorded: by this call with its event
    and delivery, or, when it was recorded before, without a second delivery. *)
Theorem complete_once c w res w' :
  CompleteQueueSchedule c w = (res, w') -> queue_inv (w_db w) ->
  match res with
  | Err _ => w_db w' = w_db w
  | Ok _ =>
      exists r, queue_schedules (w_db w) !! sc_ScheduleID c = Some r
      /\ sr_claim_token r = Some (sc_ClaimToken c)
      /\ sr_claim_generation r = sc_ClaimGeneration c
      /\ sr_next_run_at r = sc_OccurrenceAt c
      /\ queue_schedules (w_db w') !! sc_ScheduleID c = Some (advance_schedule c r)
      /\ match queue_schedule_occurrences (w_db w) !! (sr_id r, sc_OccurrenceAt c) with
         | Some e => queue_deliveries (w_db w') = queue_deliveries (w_db w)
                     /\ events (w_db w') = events (w_db w)
                     /\ queue_schedule_occurrences (w_db w')
                        = queue_schedule_occurrences (w_db w)
         | None => occurrence_recorded c r (w_db w) (w_db w')
         end
  end.
Proof.
  intros Hrun Hinv. destruct res as [u|e]; [|by apply transaction_err_db in Hrun].
  apply complete_run in Hrun as (r & ? & ? & ? & ? & Hsch & Hcase); [|done].
  exists r. rewrite Hsch, lookup_insert_eq. split_and!; [done..|]. by case_match; destruct_and?.
Qed.

(** The claim a schedule row carries after it has been claimed again. *)
Lemma claim_due_row now until token limit w items w' x :
  ClaimDueQueueSchedules now until token limit w = (Ok items, w') -> schedule_inv (w_db w) ->
  x ∈ items ->
  exists r, queue_schedules (w_db w) !! sch_ID x = Some r
  /\ schedule_due now (w_db w) r = true
  /\ sch_ClaimToken x = token /\ sch_ClaimGeneration x = sr_claim_generation r + 1
  /\ queue_schedules (w_db w') !! sch_ID x = Some (claim_schedule token until now r).
Proof.
  unfold ClaimDueQueueSchedules. intros Hrun Hinv Hx. run_inv. case_match; simplify_eq.
  match goal with Hd : set_schedules _ _ = w_db w' |- _ => rewrite <- Hd end.
  apply list_elem_of_fmap in Hx as (r & -> & Hin). simpl.
  pose proof Hin as Hin'. unfold due_schedules in Hin.
  eapply elem_of_sublist in Hin; [|apply sublist_take].
  apply elem_of_filter_list in Hin as [Hin _].
  rewrite merge_sort_Permutation in Hin. apply elem_of_select in Hin as [Hdue [k Hk]].
  destruct (sch_row _ Hinv _ _ Hk) as [<- _].
  exists r. rewrite lookup_update_where, Hk. simpl.
  rewrite bool_decide_eq_true_2; [done|]. apply list_elem_of_fmap. eauto.
Qed.

(** Claims of a schedule are exclusive. A schedule is claimed only when it is
    due and its previous claim has run out, each claim has a higher generation
    than all before it, and from then on completing the schedule under any other
    claim fails without effect. *)
Theorem claim_supersedes now until token limit w items w' x c w2 res w3 :
  ClaimDueQueueSchedules now until token limit w = (Ok items, w') -> queue_inv (w_db w) ->
  x ∈ items ->
  sc_ScheduleID c = sch_ID x ->
  sc_ClaimToken c <> sch_ClaimToken x \/ sc_ClaimGeneration c <> sch_ClaimGeneration x ->
  w_db w2 = w_db w' -> CompleteQueueSchedule c w2 = (res, w3) ->
  (exists r, queue_schedules (w_db w) !! sch_ID x = Some r
     /\ sch_ClaimGeneration x = sr_claim_generation r + 1
     /\ sr_next_run_at r <= now
     /\ match sr_claim_expires_at r with Some t => t <= now | None => True end)
  /\ (exists e, res = Err e) /\ w_db w3 = w_db w'.
Proof.
  intros Hclaim Hinv Hx Hid Hother Hw2 Hrun.
  destruct (claim_due_row _ _ _ _ _ _ _ _ Hclaim (qi_schedule _ Hinv) Hx)
    as (r & Hr & Hdue & Htok & Hgen & Hr').
  split.
  { exists r. unfold schedule_due, null_le in Hdue. bool_to_prop. destruct_and!.
    split_and!; [done..|]. destruct (sr_claim_expires_at r); [|done]. simpl in *.
    bool_to_prop. naive_solver. }
  destruct res as [u|e].
  2:{ apply transaction_err_db in Hrun. split; [eauto|congruence]. }
  exfalso. unfold CompleteQueueSchedule in Hrun. run_inv.
  match goal with Hc : claimed_schedule _ _ = Some ?y |- _ =>
    destruct y as [r2 retention]; rename Hc into Hcl end.
  apply claimed_schedule_spec in Hcl as (Hr2 & Ht2 & Hg2 & _).
  match goal with Hd : w_db ?a = w_db w2 |- _ => rewrite Hd, Hw2, Hid, Hr' in Hr2 end.
  simplify_eq. simpl in *. destruct Hother; congruence.
Qed.

End schedules.

Section callbacks.
Context `{Postgres} (Decrypt : string -> option string).

(** Claiming a result callback. The row claimed was pending, due, not under a
    live claim and had been attempted fewer than six times; the claim is a new
    attempt with a new generation, and no other row changes. *)
Theorem callback_claim_bounded now until token w r w' :
  ClaimQueueResultCallback Decrypt now until token w = (Ok r, w') -> callback_inv (w_db w) ->
  exists c, queue_result_callbacks (w_db w) !! rc_ID r = Some c
  /\ cb_status c = CbPending /\ cb_available_at c <= now
  /\ match cb_claim_expires_at c with Some t => t <= now | None => True end
  /\ rc_Attempt r = cb_attempts c + 1 /\ 1 <= rc_Attempt r <= 6
  /\ rc_ClaimGeneration r = cb_claim_generation c + 1
  /\ queue_result_callbacks (w_db w')
     = <[rc_ID r := claim_callback now until token c]> (queue_result_callbacks (w_db w)).
Proof.
  intros Hrun Hinv. apply claim_run in Hrun as (c & Hc & Hid & Hat & _ & Hgen & _ & _ & Hdb).
  apply candidate_spec in Hc as [Hc Hcl]; [|done].
  destruct (cbi_check _ Hinv _ _ Hc) as (? & _).
  unfold claimable, null_le in Hcl. bool_to_prop. destruct_and!.
  exists c. rewrite Hid, Hat, Hgen, Hdb. split_and!; try done; try lia.
  destruct (cb_claim_expires_at c); [|done]. simpl in *. bool_to_prop. naive_solver.
Qed.

(** Finishing a result callback is fenced by the claim. A failed call changes
    nothing; a successful one changes the one row whose attempt, token and
    generation it names and which is pending, and the same claim cannot finish it
    a second time. *)
Theorem callback_finish_once t w res w' w2 res2 w3 :
  FinishQueueResultCallback t w = (res, w') -> callback_inv (w_db w) ->
  match res with
  | Err _ => w_db w' = w_db w
  | Ok _ =>
      (exists c, queue_result_callbacks (w_db w) !! tr_CallbackID t = Some c
       /\ cb_status c = CbPending /\ cb_attempts c = tr_Attempt t
       /\ cb_claim_token c = Some (tr_ClaimToken t)
       /\ cb_claim_generation c = tr_ClaimGeneration t
       /\ queue_result_callbacks (w_db w')
          = <[tr_CallbackID t := finish_callback t c]> (queue_result_callbacks (w_db w)))
      /\ (w_db w2 = w_db w' -> FinishQueueResultCallback t w2 = (res2, w3) ->
          exists e, res2 = Err e)
  end.
Proof.
  intros Hrun Hinv. destruct res as [u|e]; [|by apply transaction_err_db in Hrun].
  assert (callback_inv (w_db w')) as Hinv' by (by eapply finish_preserves).
  apply finish_run in Hrun as (c & Hc & Hh & Hdb); [|done]. split.
  - exists c. unfold holds_callback, null_eq in Hh. bool_to_prop. rewrite Hdb. naive_solver.
  - intros Hw2 Hrun2. destruct res2 as [u2|e2]; [|eauto]. exfalso.
    apply finish_run in Hrun2 as (c2 & Hc2 & Hh2 & _); [|by rewrite Hw2].
    rewrite Hw2, Hdb in Hc2. simpl in Hc2. rewrite lookup_insert_eq in Hc2. simplify_eq.
    unfold holds_callback, null_eq in Hh2. simpl in Hh2.
    by rewrite !andb_false_r in Hh2.
Qed.

(** The sixth attempt is never retried by another worker. If the worker that
    claimed a callback for the sixth time disappears, the row stays pending: no
    claim, at any later time, touches it. *)
Theorem callback_sixth_attempt_stays now until token w r w' id c :
  ClaimQueueResultCallback Decrypt now until token w = (Ok r, w') -> callback_inv (w_db w) ->
  queue_result_callbacks (w_db w) !! id = Some c -> cb_attempts c = 6 ->
  rc_ID r <> id /\ queue_result_callbacks (w_db w') !! id = Some c.
Proof.
  intros Hrun Hinv Hc Hsix. apply claim_run in Hrun as (c' & Hc' & Hid & _ & _ & _ & _ & _ & Hdb).
  apply candidate_spec in Hc' as [Hc' Hcl]; [|done].
  assert (cb_id c' <> id) as Hne.
  { intros <-. simplify_eq. unfold claimable in Hcl. rewrite Hsix in Hcl.
    by rewrite andb_false_r in Hcl. }
  rewrite Hid, Hdb. simpl. by rewrite lookup_insert_ne.
Qed.

End callbacks.

(** ** Evaluated instances *)

Definition demo_schedule : Schedule :=
  mkScheduleRow "qsch_1" "app_a" "sub_1" "nightly" true "0 3 * * *" "UTC" "report.due" "{}" None
    0 "{}" (at_second 100) None None None 0 1 (at_second 0) (at_second 0).

Definition demo_callback : Callback :=
  new_callback "qcb_1" "app_a" "sub_1" "qdl_1" "evt_1" 1 CbSuccess "https://a.example/cb"
    (mkPayload "app_a" "sub_1" "qdl_1" "evt_1" 1 CbSuccess 1 "{}") (at_second 5).

Definition with_attempts (n : Z) (c : Callback) : Callback :=
  with_claim c (cb_status c) n (cb_available_at c) None None n (cb_last_reason c)
    (cb_updated_at c).

Definition schedule_db : QueueDB :=
  set_callbacks (list_to_map [("qcb_1", demo_callback);
      ("qcb_2", mkCallback "qcb_2" "app_a" "sub_1" "qdl_2" "evt_2" 1 CbSuccess
        "https://a.example/cb" (cb_payload demo_callback) CbPending 6 (at_second 5) None None 6
        None (at_second 5) (at_second 5))])
    (set_schedules {["qsch_1" := demo_schedule]}
       (mkQueueDB {["app_a"]} {["app_a" := "sealed"]} (events demo_db)
          (queue_subscriptions demo_db) (queue_deliveries demo_db) ∅ ∅ ∅ ∅ ∅ ∅)).

Lemma schedule_db_inv : queue_inv schedule_db.
Proof.
  split.
  - apply delivery_inv_b_sound. vm_compute. reflexivity.
  - split.
    + simpl. intros k r [<- <-]%lookup_singleton_Some. vm_compute. done.
    + intros k k' e. simpl. by rewrite lookup_empty.
  - assert (forall k c, queue_result_callbacks schedule_db !! k = Some c ->
      k = "qcb_1" /\ c = demo_callback \/ k = "qcb_2" /\ cb_id c = "qcb_2"
        /\ cb_delivery_id c = "qdl_2" /\ cb_attempts c = 6 /\ cb_claim_generation c = 6
        /\ cb_claim_token c = None /\ cb_claim_expires_at c = None) as Hrows.
    { simpl. intros k c [[<- <-]|[_ [[<- <-]|[_ Hk]]%lookup_insert_Some]]%lookup_insert_Some;
        [by left|by right|by rewrite lookup_empty in Hk]. }
    split.
    + intros k c [[-> ->]|(-> & ? & _)]%Hrows; done.
    + intros k c [[-> ->]|(-> & _ & _ & Ha & Hg & Ht & He)]%Hrows; [by vm_compute|].
      rewrite Ha, Hg, Ht, He. done.
    + intros k k' c c' [[-> ->]|(-> & _ & Hd & _)]%Hrows [[-> ->]|(-> & _ & Hd' & _)]%Hrows;
        try done; unfold same_result; simpl; rewrite ?Hd, ?Hd'; done.
    + intros id a i. simpl. by rewrite lookup_empty.
Qed.

Definition demo_claimed : World QueueDB :=
  (ClaimDueQueueSchedules (at_second 200) (at_second 215) "tok" 32 (world schedule_db)).2.
Definition demo_claim : QueueSchedule :=
  scanQueueSchedule (claim_schedule "tok" (at_second 215) (at_second 200) demo_schedule).
Definition demo_completion (token : string) : QueueScheduleCompletion :=
  mkCompletion "qsch_1" token "evt_sched_1" "qdl_sched_1" 1 (at_second 100) (at_second 86500)
    (at_second 201).

Lemma demo_claim_run :
  ClaimDueQueueSchedules (at_second 200) (at_second 215) "tok" 32 (world schedule_db)
  = (Ok [demo_claim], demo_claimed).
Proof. vm_compute. reflexivity. Qed.

Lemma demo_claimed_inv : queue_inv (w_db demo_claimed).
Proof.
  change (w_db demo_claimed) with (w_db (ClaimDueQueueSchedules (at_second 200) (at_second 215)
    "tok" 32 (world schedule_db)).2).
  by apply (claim_schedules_keeps _ _ _ _ (world schedule_db)), schedule_db_inv.
Qed.

Definition demo_completed : World QueueDB :=
  (CompleteQueueSchedule (demo_completion "tok") demo_claimed).2.

Lemma demo_complete_run :
  CompleteQueueSchedule (demo_completion "tok") demo_claimed = (Ok tt, demo_completed).
Proof. vm_compute. reflexivity. Qed.

Lemma complete_once_witness :
  exists r, queue_schedules (w_db demo_completed) !! "qsch_1"
            = Some (advance_schedule (demo_completion "tok") r).
Proof.
  destruct (complete_once _ _ _ _ demo_complete_run demo_claimed_inv)
    as (r & _ & _ & _ & _ & Hr & _).
  exists r. exact Hr.
Defined.

Definition demo_stale : World QueueDB :=
  (CompleteQueueSchedule (demo_completion "old") demo_claimed).2.

Lemma demo_stale_run :
  CompleteQueueSchedule (demo_completion "old") demo_claimed = (Err StoreConflict, demo_stale).
Proof. vm_compute. reflexivity. Qed.

Lemma claim_supersedes_witness : w_db demo_stale = w_db demo_claimed.
Proof.
  apply (claim_supersedes _ _ _ _ _ _ _ demo_claim (demo_completion "old") demo_claimed
    (Err StoreConflict) demo_stale demo_claim_run schedule_db_inv).
  - apply list_elem_of_here.
  - reflexivity.
  - left. vm_compute. discriminate.
  - reflexivity.
  - exact demo_stale_run.
Defined.

Definition demo_decrypt (s : string) : option string := Some s.
Definition demo_cb_claimed : World QueueDB :=
  (ClaimQueueResultCallback demo_decrypt (at_second 10) (at_second 25) "t1" (world schedule_db)).2.
Definition demo_cb_claim : QueueResultCallback :=
  mkResultCallback "qcb_1" "app_a" "sub_1" "qdl_1" "evt_1" 1 CbSuccess "https://a.example/cb"
    (cb_payload demo_callback) "sealed" 1 "t1" 1 (at_second 25).

Lemma demo_cb_claim_run :
  ClaimQueueResultCallback demo_decrypt (at_second 10) (at_second 25) "t1" (world schedule_db)
  = (Ok demo_cb_claim, demo_cb_claimed).
Proof. vm_compute. reflexivity. Qed.

Lemma callback_claim_bounded_witness :
  exists c, queue_result_callbacks (w_db demo_cb_claimed)
    = <["qcb_1" := claim_callback (at_second 10) (at_second 25) "t1" c]>
        (queue_result_callbacks (w_db (world schedule_db))).
Proof.
  destruct (callback_claim_bounded _ _ _ _ _ _ _ demo_cb_claim_run (qi_callback _ schedule_db_inv))
    as (c & _ & _ & _ & _ & _ & _ & _ & Hdb).
  exists c. exact Hdb.
Defined.

Definition demo_transition : QueueResultCallbackTransition :=
  worker_transition (fun _ => None) demo_cb_claim (204, "", false) (at_second 11).
Definition demo_cb_finished : World QueueDB :=
  (FinishQueueResultCallback demo_transition demo_cb_claimed).2.

Lemma demo_cb_finish_run :
  FinishQueueResultCallback demo_transition demo_cb_claimed = (Ok tt, demo_cb_finished).
Proof. vm_compute. reflexivity. Qed.

Lemma demo_cb_claimed_inv : callback_inv (w_db demo_cb_claimed).
Proof. eapply claim_preserves; [exact demo_cb_claim_run|apply schedule_db_inv]. Qed.

Lemma callback_finish_once_witness :
  exists e, (FinishQueueResultCallback demo_transition demo_cb_finished).1 = Err e.
Proof.
  destruct (callback_finish_once demo_transition demo_cb_claimed (Ok tt) demo_cb_finished
    demo_cb_finished (FinishQueueResultCallback demo_transition demo_cb_finished).1
    (FinishQueueResultCallback demo_transition demo_cb_finished).2 demo_cb_finish_run
    demo_cb_claimed_inv) as [_ Hagain].
  apply Hagain; [reflexivity|]. apply surjective_pairing.
Defined.

Definition demo_exhausted : Callback :=
  default demo_callback (queue_result_callbacks schedule_db !! "qcb_2").

Lemma callback_sixth_attempt_stays_witness :
  queue_result_callbacks (w_db demo_cb_claimed) !! "qcb_2" = Some demo_exhausted.
Proof.
  apply (callback_sixth_attempt_stays demo_decrypt (at_second 10) (at_second 25) "t1"
    (world schedule_db) demo_cb_claim demo_cb_claimed "qcb_2" demo_exhausted demo_cb_claim_run).
  - apply schedule_db_inv.
  - vm_compute. reflexivity.
  - vm_compute. reflexivity.
Defined.
