(* ===== verification/QueueSystemClaims.v ===== *)
(** * Theorems about the queue as a whole *)

From S2P Require Import Prelude GoLib Crypto Json Domain QueueSchema QueueStore.
From S2P Require Import QueueLifecycle QueuePull QueueSettle QueueScheduler Classify.
From S2P Require Import QueueCallbacks QueueSystem QueueLifecycle QueuePullClaims.

Section claims.
Context `{Postgres} (Decrypt : string -> option string).

(** C7: the invariant. In every database reached from empty tables by any
    sequence of queue operations, with any database failures and any rows locked
    by others, every delivery satisfies the CHECK constraints and its lease ends
    within its bound, has its subscription, application and event, is the only
    one of its subscription and event, has recorded attempts only of earlier
    generations or up to its attempt count, every subscription and schedule
    satisfies its CHECK constraints, and there is one result callback at most per
    delivery, generation and outcome, with at most six attempts. *)
Theorem reachable_invariant db : reachable Decrypt db -> queue_inv db.
Proof. apply reachable_queue_inv. Qed.

(** C8: every operation refines the life cycle. Whatever an operation does to a
    reachable database, a row of [queue_deliveries] that is there before and after keeps
    its identity and takes a sequence of life cycle steps: leased when it waits, with one
    more attempt, extended up to its limit or released when leased, expired when it waits,
    replayed as a new generation when dead, and nothing when done. A new row has taken
    such steps from a fresh one. A row disappears only with its subscription, or as a
    dead letter that was named. *)
Theorem operation_refines_lifecycle op faults locked db id :
  reachable Decrypt db ->
  match queue_deliveries db !! id, queue_deliveries (op_result Decrypt op faults locked db) !! id with
  | Some d, Some d' => same_identity d d' /\ rtc life_step (life_of d) (life_of d')
  | None, Some d' => rtc life_step life_start (life_of d')
  | Some d, None => removes op d
  | None, None => True
  end.
Proof.
  intros Hr%reachable_queue_inv. destruct (run_op_rows Decrypt op (mkWorld db faults locked) Hr) as [_ [[Hold Hnew]|Hgone]]; unfold op_result; cbn [w_db] in *.
  - destruct (queue_deliveries db !! id) as [d|] eqn:Hd.
    + destruct (Hold _ _ Hd) as (d' & -> & Hp). split; [by apply rtc_update_facts|]. apply rtc_update_life; [done|]. by apply (inv_ok _ (qi_delivery _ Hr) _ _ Hd).
    + destruct (queue_deliveries (w_db (run_op Decrypt op (mkWorld db faults locked)).2) !! id) as [d'|] eqn:Hd'; [|done]. destruct (Hnew _ _ Hd Hd') as (d0 & Hf & Hp).
      rewrite <- (fresh_life d0 Hf). apply rtc_update_life; [done|by apply fresh_delivery_ok].
  - specialize (Hgone id). destruct (queue_deliveries (w_db _) !! id) as [d'|]; [rewrite Hgone; split; [reflexivity|apply rtc_refl]|].
    destruct (queue_deliveries db !! id) as [d|]; [by apply Hgone|done].
Qed.

(** ** Draining *)

(** The operations of consumers and of whoever waits for the drain, at times not
    before [t0]. *)
Definition consumer_op (t0 : Z) (op : queue_op) : Prop :=
  match op with
  | OpPull request => t0 <= pr_Now request
  | OpSettle _ _ _ now | OpExtend _ _ _ now | OpGetDrain _ _ now => t0 <= now
  | _ => False
  end.

Inductive consumer_step (t0 : Z) : QueueDB -> QueueDB -> Prop :=
| consumer op faults locked db :
    consumer_op t0 op -> consumer_step t0 db (op_result Decrypt op faults locked db).

(** A draining subscription with a row whose lease has run out. *)
Definition stuck (sub id : string) (t0 : Z) (d : Delivery) (db : QueueDB) : Prop :=
  queue_inv db
  /\ (exists s, queue_subscriptions db !! sub = Some s /\ is_Some (sub_DrainingAt s))
  /\ queue_deliveries db !! id = Some d /\ d_subscription_id d = sub /\ d_status d = InFlight
  /\ null_le (d_lease_expires_at d) t0 = true.

Lemma discard_db {A} (m : M_queue A) w : w_db (discard m w).2 = w_db (m w).2.
Proof. unfold discard, mbind, M_bind. by destruct (m w) as [[]]. Qed.

Lemma stuck_row_pull request w res w' sub id t0 d :
  PullQueueDeliveries request w = (res, w') -> t0 <= pr_Now request ->
  stuck sub id t0 d (w_db w) ->
  queue_deliveries (w_db w') !! id = Some d
  /\ queue_subscriptions (w_db w') = queue_subscriptions (w_db w).
Proof.
  intros Hrun Ht (Hinv & (s & Hs & Hdr) & Hd & Hsub & Hst & Hexp).
  destruct res as [r|e]; [|apply transaction_err_db in Hrun; by rewrite Hrun].
  pose proof (pull_preserves _ _ _ _ Hrun (qi_delivery _ Hinv)) as (_ & _ & Hsubs & _).
  split; [|done].
  apply pull_run in Hrun as (s' & Hget & Hout).
  apply get_subscription_spec in Hget as [Hs' _].
  destruct (decide (pr_SubscriptionID request = sub)) as [Heq|Hne].
  - rewrite Heq in Hs'. simplify_eq. destruct Hdr as [t Hdr].
    inversion Hout; subst; [done|congruence|congruence].
  - eapply pull_outcome_frame in Hout as [? _]; [done|apply Hinv|done| |].
    + apply reclaimed_other. congruence.
    + left. congruence.
Qed.

Lemma expired_not_held app sub hash now t0 d :
  t0 <= now -> null_le (d_lease_expires_at d) t0 = true ->
  holds_lease app sub hash now d = false.
Proof.
  intros Ht Hexp. unfold holds_lease, null_gt, null_le in *.
  destruct (d_lease_expires_at d) as [e|]; [|by rewrite andb_false_r].
  bool_to_prop. right. apply Z.ltb_ge. lia.
Qed.

Lemma get_drain_tables app sub now w res w' :
  GetQueueDrain app sub now w = (res, w') ->
  queue_deliveries (w_db w') = queue_deliveries (w_db w)
  /\ forall k s, queue_subscriptions (w_db w) !! k = Some s -> is_Some (sub_DrainingAt s) ->
     exists s', queue_subscriptions (w_db w') !! k = Some s' /\ is_Some (sub_DrainingAt s').
Proof.
  set (R := fun db db' : QueueDB => queue_deliveries db' = queue_deliveries db
    /\ forall k s, queue_subscriptions db !! k = Some s -> is_Some (sub_DrainingAt s) ->
       exists s', queue_subscriptions db' !! k = Some s' /\ is_Some (sub_DrainingAt s')).
  assert (PreOrder R) as HR.
  { split; [intros db; unfold R; eauto|].
    intros d1 d2 d3 [E1 H1] [E2 H2]. split; [congruence|]. intros k s Hk Hs.
    destruct (H1 _ _ Hk Hs) as (s' & ? & ?). eauto. }
  assert (keeps R (GetQueueDrain app sub now)) as Hkeep.
  { unfold GetQueueDrain. keeps_solve. apply (keeps_exec R). intros lk db n db'.
    unfold update_drain. destruct (get_subscription app sub db) as [s|] eqn:Hg;
      [|by intros; simplify_eq].
    case_match; [|by intros; simplify_eq]. case_match; [|done]. intros. simplify_eq.
    apply get_subscription_spec in Hg as [Hg _]. split; [done|]. simpl. intros k s0 Hk Hs0.
    destruct (decide (k = sub)) as [->|Hne].
    - rewrite lookup_insert_eq. eexists. split; [done|]. simpl. congruence.
    - rewrite lookup_insert_ne by done. eauto. }
  intros Hrun. specialize (Hkeep w). by rewrite Hrun in Hkeep.
Qed.

Lemma stuck_step t0 sub id d db db' :
  consumer_step t0 db db' -> stuck sub id t0 d db -> stuck sub id t0 d db'.
Proof.
  intros [op faults locked db0 Hop] Hst. pose proof Hst as (Hinv & Hdr & Hd & Hsub & Hfl & Hexp).
  assert (queue_inv (op_result Decrypt op faults locked db0)) as Hinv'
    by (by apply (run_op_inv Decrypt op (mkWorld db0 faults locked))).
  assert (queue_deliveries (op_result Decrypt op faults locked db0) !! id = Some d
    /\ exists s, queue_subscriptions (op_result Decrypt op faults locked db0) !! sub = Some s
       /\ is_Some (sub_DrainingAt s)) as [Hd' Hdr']; [|by split_and!].
  clear Hinv'. unfold op_result. destruct op; try done; simpl in Hop; cbn [run_op];
    rewrite discard_db;
    match goal with |- context [w_db (?m ?w).2] => destruct (m w) as [res w'] eqn:Hrun end;
    cbn [snd].
  - eapply stuck_row_pull in Hrun as [? Hsubs]; [|done|exact Hst]. rewrite Hsubs. done.
  - destruct (settle_preserves _ _ _ _ _ _ _ Hrun (qi_delivery _ Hinv)) as (_ & _ & Hsubs & _).
    rewrite Hsubs. split; [|done].
    destruct res as [rs|e]; [|by rewrite (transaction_err_db _ _ _ _ Hrun)].
    apply settle_run in Hrun as (s & _ & Hall).
    rewrite (settled_all_lookup _ _ _ _ _ _ _ _ _ Hall). simpl. rewrite Hd. simpl. f_equal.
    unfold settle_first. destruct (List.find _ _) as [st|] eqn:E; [|done]. exfalso.
    apply List.find_some in E as [_ E]. unfold settles in E.
    by rewrite (expired_not_held _ _ _ now t0), andb_false_r in E.
  - destruct (extend_preserves _ _ _ _ _ _ _ Hrun (qi_delivery _ Hinv)) as (_ & _ & Hsubs & _).
    rewrite Hsubs. split; [|done].
    destruct res as [rs|e]; [|by rewrite (transaction_err_db _ _ _ _ Hrun)].
    apply extend_run in Hrun as (_ & _ & _ & Hlk). rewrite Hlk. simpl. rewrite Hd. simpl. f_equal.
    apply extend_fold_unheld, Forall_forall. intros ext _. by eapply expired_not_held.
  - apply get_drain_tables in Hrun as [Hdel Hsubs]. simpl in *. rewrite Hdel. split; [done|].
    destruct Hdr as (s & Hs & Hdrs). eauto.
Qed.

(** A drain can hang. Once a consumer of a draining subscription lets a lease
    run out, no later pull, settlement, extension or drain query changes that
    row: it stays in flight, and [GetQueueDrain] never reports the subscription
    as drained. *)
Theorem drain_waits_for_expired_lease sub id t0 d db db' app now w' drain :
  stuck sub id t0 d db -> rtc (consumer_step t0) db db' ->
  GetQueueDrain app sub now (mkWorld db' [] ∅) = (Ok drain, w') ->
  queue_deliveries db' !! id = Some d /\ 0 < drain_InFlight drain
  /\ (drain_Status drain = DrainDraining \/ drain_Status drain = DrainTimedOut).
Proof.
  intros Hst Hsteps Hdrain.
  assert (stuck sub id t0 d db') as (Hinv & (s & Hs & Hdr) & Hd & Hsub & Hfl & _).
  { clear Hdrain. induction Hsteps; eauto using stuck_step. }
  split; [done|].
  assert (0 < in_flight_count sub db') as Hpos.
  { unfold in_flight_count. pose proof (count_where_nonneg
      (fun d => in_subscription sub d && is_status InFlight d) (queue_deliveries db')).
    destruct (decide (count_where (fun d => in_subscription sub d && is_status InFlight d)
      (queue_deliveries db') = 0)) as [Hz|]; [|lia].
    rewrite count_where_0 in Hz. specialize (Hz _ _ Hd).
    unfold in_subscription, is_status in Hz. by rewrite !bool_decide_eq_true_2 in Hz. }
  unfold GetQueueDrain, mbind, M_bind, query_row, exec in Hdrain. simpl in Hdrain.
  unfold get_subscription in Hdrain. rewrite Hs in Hdrain.
  destruct (bool_decide _); simpl in Hdrain; [|done].
  destruct (inv_subs _ (qi_delivery _ Hinv) _ _ Hs) as [Hid _]. rewrite Hid in Hdrain.
  destruct Hdr as [t Hdr]. rewrite Hdr in Hdrain. simpl in Hdrain.
  destruct (in_flight_count sub db' =? 0) eqn:Hz; [bool_to_prop; lia|].
  destruct (match sub_DrainDeadlineAt s with Some _ => _ | None => _ end);
    unfold mret, M_ret in Hdrain; simplify_eq; simpl; auto.
Qed.

(** What a replay leaves. *)
Lemma replay_run app sub ids now w n w1 :
  ReplayQueueDeadLetters app sub ids now w = (Ok n, w1) ->
  w_db w1 = set_deliveries (update_where (chosen_dead_letter app sub ids (w_db w))
    (replay_row now) (queue_deliveries (w_db w))) (w_db w).
Proof using Type.
  clear Decrypt. intros Hrun. unfold ReplayQueueDeadLetters in Hrun. run_inv. by simplify_eq.
Qed.

Lemma replay_inv app sub ids now w n w1 :
  ReplayQueueDeadLetters app sub ids now w = (Ok n, w1) -> delivery_inv (w_db w) ->
  delivery_inv (w_db w1).
Proof using Type.
  clear Decrypt. intros ->%replay_run Hinv.
  eapply delivery_inv_moved; [exact Hinv|done|done| |simpl; eauto].
  apply update_where_moved. intros k d _ Hhit. constructor.
  unfold chosen_dead_letter, is_status in Hhit. bool_to_prop. tauto.
Qed.

(** The next pull's first phase buries a replayed row that is past retention. *)
Lemma replayed_expires request s now d :
  d_subscription_id d = pr_SubscriptionID request -> d_expires_at d <= pr_Now request ->
  reclaimed request s (replay_row now d) = expire_row (pr_Now request) (replay_row now d).
Proof using Type.
  clear Decrypt. intros Hds Hle.
  unfold reclaimed, lease_expired, retention_expired, in_subscription, is_status. simpl.
  rewrite andb_false_r. simpl. rewrite Hds, !bool_decide_eq_true_2 by done. simpl.
  by rewrite (proj2 (Z.leb_le _ _) Hle).
Qed.

(** A row the first phase of a pull leaves dead stays dead, and is not returned. *)
Lemma pull_outcome_dead request locked db s r db' id d :
  pull_outcome request locked db s r db' -> sub_DrainingAt s = None -> delivery_inv db ->
  queue_deliveries db !! id = Some d -> d_status (reclaimed request s d) = DeadLetter ->
  queue_deliveries db' !! id = Some (reclaimed request s d) /\ id ∉ (qd_ID <$> r).
Proof using Type.
  clear Decrypt. intros Hout Hdr Hinv Hd Hdead.
  assert (forall db1, reclaim_phase request s db db1 ->
    queue_deliveries db1 !! id = Some (reclaimed request s d)) as Hrow1.
  { intros db1 Hrec. by rewrite (reclaim_phase_lookup _ _ _ _ _ Hrec), Hd. }
  destruct Hout as [Hdr'|db1 _ _ _ Hrec _|db1 limit sel db2 _ _ _ Hrec _ _ -> _ Hl].
  - by rewrite Hdr in Hdr'.
  - split; [by apply Hrow1|apply not_elem_of_nil].
  - specialize (Hrow1 _ Hrec). apply reclaim_phase_inv in Hrec as (Hinv1 & _); [|done].
    assert (id ∉ ((d_id ∘ fst) <$> candidates (pr_SubscriptionID request) (pr_Now request)
              (sub_OrderingMode s) limit locked db1)) as Hni.
    { intros ([d1 e1] & -> & Hin)%list_elem_of_fmap. simpl in *.
      eapply candidates_row in Hin as (Hrow & _ & Hel & _); [|done].
      rewrite Hrow1 in Hrow. simplify_eq. unfold eligible, is_status in Hel.
      rewrite Hdead in Hel. by rewrite !andb_false_r in Hel. }
    split; [by erewrite leases_skip|].
    intros (x & -> & Hin)%list_elem_of_fmap. apply Hni.
    apply list_elem_of_lookup in Hin as [i Hi].
    apply lookup_zip_with_Some in Hi as ([d1 e1] & receipt & -> & Hi & _).
    apply list_elem_of_fmap. exists (d1, e1). split; [done|]. by eapply list_elem_of_lookup_2.
Qed.

(** Replaying a delivery that died of retention does not bring it back. Its
    [expires_at] is kept, so the next pull of the subscription puts it back among
    the dead letters, for the same reason, without returning it. *)
Theorem replay_after_retention app sub ids now w n w1 request r w2 s id d :
  ReplayQueueDeadLetters app sub ids now w = (Ok n, w1) -> delivery_inv (w_db w) ->
  queue_deliveries (w_db w) !! id = Some d ->
  chosen_dead_letter app sub ids (w_db w) d = true -> d_expires_at d <= now ->
  pr_SubscriptionID request = sub -> now <= pr_Now request ->
  get_subscription (pr_AppID request) sub (w_db w) = Some s -> sub_DrainingAt s = None ->
  PullQueueDeliveries request w1 = (Ok r, w2) ->
  exists d', queue_deliveries (w_db w2) !! id = Some d' /\ d_status d' = DeadLetter
    /\ d_last_reason d' = Some "retention_expired" /\ d_generation d' = d_generation d + 1
    /\ id ∉ (qd_ID <$> r).
Proof using Type.
  clear Decrypt. intros Hrep Hinv Hd Hch Hexp Hsub Hle Hget Hdr Hpull.
  pose proof (replay_inv _ _ _ _ _ _ _ Hrep Hinv) as Hinv1. apply replay_run in Hrep.
  assert (queue_deliveries (w_db w1) !! id = Some (replay_row now d)) as Hd1.
  { rewrite Hrep. cbn -[update_where]. rewrite lookup_update_where, Hd. simpl. by rewrite Hch. }
  assert (d_subscription_id d = pr_SubscriptionID request) as Hds.
  { unfold chosen_dead_letter, owned, in_subscription in Hch. bool_to_prop. naive_solver. }
  apply pull_run in Hpull as (s' & Hget' & Hout).
  assert (s' = s) as ->.
  { unfold get_subscription in *. rewrite Hrep, Hsub in Hget'. simpl in Hget'. rewrite Hget in Hget'. congruence. }
  assert (reclaimed request s (replay_row now d)
    = expire_row (pr_Now request) (replay_row now d)) as Hrecl
    by (apply replayed_expires; [done|lia]).
  eapply pull_outcome_dead in Hout as [Hrow Hnot]; [|done..|by rewrite Hrecl].
  rewrite Hrecl in Hrow. by exists (expire_row (pr_Now request) (replay_row now d)).
Qed.

(** ** Sequences of operations *)

Definition run_ops (ops : list queue_op) (db : QueueDB) : QueueDB :=
  foldl (fun db op => op_result Decrypt op [] ∅ db) db ops.

Lemma run_ops_reachable ops db : reachable Decrypt db -> reachable Decrypt (run_ops ops db).
Proof.
  revert db. induction ops as [|op ops IH]; intros db Hr; [done|]. apply IH. by constructor.
Qed.

End claims.

(** ** Evaluated instances *)

Definition no_secret (s : string) : option string := None.
Definition empty_db : QueueDB := mkQueueDB {["app_a"]} ∅ ∅ ∅ ∅ ∅ ∅ ∅ ∅ ∅ ∅.
Definition keyed_event (id : string) (created : Z) : Event :=
  mkEvent id "order.created" "app_s" ["app_a"] "{}" (at_second created)
    (Some (mkQueueEvent zero_time "k" 0 "" "")).
Definition setup_ops : list queue_op :=
  [OpCreateSubscription demo_subscription;
   OpPublish (keyed_event "evt_1" 1) (Hour); OpPublish (keyed_event "evt_2" 2) (Hour)].
Definition setup_db : QueueDB := run_ops no_secret setup_ops empty_db.

Lemma setup_reachable : reachable no_secret setup_db.
Proof. apply run_ops_reachable. constructor. Qed.

Lemma reachable_invariant_witness : queue_inv setup_db.
Proof. apply (reachable_invariant no_secret setup_db setup_reachable). Defined.

Definition first_id : string := fan_out_id "evt_1" "sub_1".
Definition second_id : string := fan_out_id "evt_2" "sub_1".

Lemma isSome_is_Some {A} (o : option A) : isSome o = true -> is_Some o.
Proof. destruct o; [by eexists|done]. Qed.
Lemma setup_first : is_Some (queue_deliveries setup_db !! first_id).
Proof. apply isSome_is_Some. vm_compute. reflexivity. Qed.
Lemma pulled_first : is_Some (queue_deliveries (op_result no_secret (OpPull (demo_request 10 ["r1"])) [] ∅ setup_db) !! first_id).
Proof. apply isSome_is_Some. vm_compute. reflexivity. Qed.
Lemma operation_refines_lifecycle_witness :
  exists d d', queue_deliveries setup_db !! first_id = Some d
  /\ queue_deliveries (op_result no_secret (OpPull (demo_request 10 ["r1"])) [] ∅ setup_db) !! first_id = Some d'
  /\ rtc life_step (life_of d) (life_of d').
Proof.
  pose proof (operation_refines_lifecycle no_secret (OpPull (demo_request 10 ["r1"])) [] ∅ setup_db
           first_id setup_reachable) as Hop.
  destruct setup_first as [d Hd]. destruct pulled_first as [d' Hd']. rewrite Hd, Hd' in Hop.
  exists d, d'. split; [exact Hd|]. split; [exact Hd'|]. exact (proj2 Hop).
Defined.

(** From empty tables: two deliveries of
    one key are published to a subscription ordered by key; the first is leased
    and dead-lettered, the second is leased; the first is replayed and pulled
    again, and both are in flight at the same time. *)
Definition overlap_ops : list queue_op :=
  (setup_ops ++
   [OpPull (mkPullRequest "app_a" "sub_1" 1 0 (at_second 10) ["r1"]);
    OpSettle "app_a" "sub_1" [mkSettlement "r1" QueueToDeadLetter 0 ""] (at_second 11);
    OpPull (mkPullRequest "app_a" "sub_1" 1 0 (at_second 12) ["r2"]);
    OpReplay "app_a" "sub_1" [first_id] (at_second 13);
    OpPull (mkPullRequest "app_a" "sub_1" 1 0 (at_second 14) ["r3"])])%list.
Definition overlap_db : QueueDB := run_ops no_secret overlap_ops empty_db.

(** There is a reachable state of a subscription ordered by key in which two
    deliveries of the same key are in flight at once, both leases running: the
    order of a key does not survive the replay of an earlier delivery while a
    later one is being worked on. *)
Theorem key_overlap_after_replay :
  exists db s d1 d2, reachable no_secret db
  /\ queue_subscriptions db !! "sub_1" = Some s /\ sub_OrderingMode s = QueueOrderingKey
  /\ queue_deliveries db !! first_id = Some d1 /\ queue_deliveries db !! second_id = Some d2
  /\ first_id <> second_id
  /\ d_subscription_id d1 = "sub_1" /\ d_subscription_id d2 = "sub_1"
  /\ d_ordering_key d1 = Some "k" /\ d_ordering_key d2 = Some "k"
  /\ d_status d1 = InFlight /\ d_status d2 = InFlight
  /\ null_gt (d_lease_expires_at d1) (at_second 15) = true
  /\ null_gt (d_lease_expires_at d2) (at_second 15) = true.
Proof.
  exists overlap_db.
  destruct (queue_subscriptions overlap_db !! "sub_1") as [s|] eqn:Hs;
    [|vm_compute in Hs; discriminate Hs].
  destruct (queue_deliveries overlap_db !! first_id) as [d1|] eqn:H1;
    [|vm_compute in H1; discriminate H1].
  destruct (queue_deliveries overlap_db !! second_id) as [d2|] eqn:H2;
    [|vm_compute in H2; discriminate H2].
  exists s, d1, d2. split; [apply run_ops_reachable; constructor|].
  vm_compute in Hs, H1, H2. injection Hs as <-. injection H1 as <-. injection H2 as <-.
  vm_compute. repeat split; discriminate.
Qed.

(** A drain that starts while [qdl_1] is leased until second 70. *)
Definition draining_db : QueueDB :=
  after (BeginQueueDrain "app_a" "sub_1" (at_second 20) (at_second 50)) demo_db2.

Lemma draining_inv : queue_inv draining_db.
Proof.
  split.
  - apply delivery_inv_b_sound. vm_compute. reflexivity.
  - split; intros *; vm_compute; discriminate.
  - split; intros *; vm_compute; discriminate.
Qed.

Lemma draining_stuck : stuck "sub_1" "qdl_1" (at_second 70) demo_leased draining_db.
Proof.
  split; [exact draining_inv|]. split.
  - eexists. split; [vm_compute; reflexivity|]. eexists. vm_compute. reflexivity.
  - vm_compute. repeat split.
Qed.

Definition late_pull : queue_op := OpPull (demo_request 1000 ["r9"]).
Definition late_db : QueueDB := op_result no_secret late_pull [] ∅ draining_db.
Definition late_drain : QueueDrain :=
  match result (GetQueueDrain "app_a" "sub_1" (at_second 1001)) late_db with
  | Ok d => d
  | Err _ => mkDrain "" DrainActive 0 None None None
  end.

Lemma late_drain_run :
  GetQueueDrain "app_a" "sub_1" (at_second 1001) (mkWorld late_db [] ∅)
  = (Ok late_drain, mkWorld late_db [] ∅).
Proof. vm_compute. reflexivity. Qed.

Lemma drain_waits_for_expired_lease_witness :
  drain_Status late_drain = DrainDraining \/ drain_Status late_drain = DrainTimedOut.
Proof.
  apply (drain_waits_for_expired_lease no_secret "sub_1" "qdl_1" (at_second 70) demo_leased
    draining_db late_db "app_a" (at_second 1001) (mkWorld late_db [] ∅) late_drain draining_stuck).
  - apply rtc_once. constructor. vm_compute. discriminate.
  - exact late_drain_run.
Defined.

(** [qdl_1] dead of retention, replayed two thousand seconds later. *)
Definition expired_db : QueueDB :=
  set_deliveries (<["qdl_1" := expire_row (at_second 1500)
    (demo_delivery "qdl_1" "evt_1" (Some "k") 1)]> (queue_deliveries demo_db)) demo_db.
Definition replayed : World QueueDB :=
  (ReplayQueueDeadLetters "app_a" "sub_1" ["qdl_1"] (at_second 2000) (world expired_db)).2.
Definition expired_row : Delivery :=
  expire_row (at_second 1500) (demo_delivery "qdl_1" "evt_1" (Some "k") 1).
Definition next_request : QueuePullRequest := demo_request 2001 ["r1"; "r2"; "r3"].
Definition next_world : World QueueDB := (PullQueueDeliveries next_request replayed).2.

Lemma replayed_run :
  ReplayQueueDeadLetters "app_a" "sub_1" ["qdl_1"] (at_second 2000) (world expired_db)
  = (Ok 1, replayed).
Proof. vm_compute. reflexivity. Qed.

Lemma next_run : PullQueueDeliveries next_request replayed = (Ok [], next_world).
Proof. vm_compute. reflexivity. Qed.

Lemma expired_db_inv : delivery_inv (w_db (world expired_db)).
Proof. apply delivery_inv_b_sound. vm_compute. reflexivity. Qed.

Lemma replay_after_retention_witness :
  exists d', queue_deliveries (w_db next_world) !! "qdl_1" = Some d'
             /\ d_status d' = DeadLetter /\ d_last_reason d' = Some "retention_expired".
Proof.
  destruct (replay_after_retention "app_a" "sub_1" ["qdl_1"] (at_second 2000) (world expired_db)
    1 replayed next_request [] next_world demo_subscription "qdl_1" expired_row
    replayed_run expired_db_inv) as (d' & Hd' & Hst & Hre & _).
  - vm_compute. reflexivity.
  - vm_compute. reflexivity.
  - vm_compute. discriminate.
  - reflexivity.
  - vm_compute. discriminate.
  - vm_compute. reflexivity.
  - reflexivity.
  - exact next_run.
  - exists d'. split; [exact Hd'|]. split; [exact Hst|exact Hre].
Defined.

(** [BeginQueueDrain] is two calls: when the second fails it answers with an error although
    the subscription is draining. *)
Lemma begin_drain_half_done :
  let r := BeginQueueDrain "app_a" "sub_1" (at_second 5) (at_second 50) (mkWorld setup_db [false; true] ∅) in
  r.1 = Err DriverError
  /\ (sub_DrainingAt <$> queue_subscriptions (w_db r.2) !! "sub_1") = Some (Some (at_second 5)).
Proof. vm_compute. split; reflexivity. Qed.
