(* ===== verification/QueueService.v ===== *)
(** * [service/queue.go]: the queue service

    Validation and defaults of subscriptions, the receipts a pull hands out, and
    the operations of [QueueService], written against the interface
    [store.QueueRepository]. *)

From Stdlib Require Import Ascii String.
From S2P Require Import Prelude GoLib Crypto Json Domain QueueSchema QueueStore.
From S2P Require Import QueueScheduler QueueCallbacks.

(** ** The repository interface ([store.QueueRepository], [store.AuditWriter]) *)

Record AuditRecord := mkAuditRecord {
  ar_OccurredAt : Z;
  ar_ActorType : string;
  ar_ActorID : string;
  ar_Action : string;
  ar_ResourceType : string;
  ar_ResourceID : string;
  ar_Outcome : string;
  ar_ChangedFields : list string (* the one member of the metadata object *)
}.

Record QueueRepository (D : Type) := mkRepository {
  repo_CreateQueueSubscription : QueueSubscription -> M D unit;
  repo_ListQueueSubscriptions : string -> M D (list QueueSubscription);
  repo_GetQueueSubscription : string -> string -> M D QueueSubscription;
  repo_UpdateQueueSubscription : QueueSubscription -> Z -> M D QueueSubscription;
  repo_DeleteQueueSubscription : string -> string -> M D unit;
  repo_PullQueueDeliveries : QueuePullRequest -> M D (list QueueDelivery);
  repo_SettleQueueDeliveries :
    string -> string -> list QueueSettlement -> Z -> M D (list QueueSettlementResult);
  repo_ExtendQueueLeases :
    string -> string -> list QueueLeaseExtension -> Z -> M D (list QueueSettlementResult);
  repo_QueueDepth : string -> string -> Z -> M D QueueDepth;
  repo_ListQueueDeadLetters : string -> string -> QueueDeadLetterQuery -> M D (list QueueDeadLetter);
  repo_ReplayQueueDeadLetters : string -> string -> list string -> Z -> M D Z;
  repo_DeleteQueueDeadLetters : string -> string -> list string -> M D Z;
  repo_CreateQueueSchedule : QueueSchedule -> M D unit;
  repo_ListQueueSchedules : string -> string -> M D (list QueueSchedule);
  repo_GetQueueSchedule : string -> string -> string -> M D QueueSchedule;
  repo_UpdateQueueSchedule : QueueSchedule -> Z -> M D QueueSchedule;
  repo_DeleteQueueSchedule : string -> string -> string -> M D unit;
  repo_ClaimDueQueueSchedules : Z -> Z -> string -> Z -> M D (list QueueSchedule);
  repo_CompleteQueueSchedule : QueueScheduleCompletion -> M D unit;
  repo_BeginQueueDrain : string -> string -> Z -> Z -> M D QueueDrain;
  repo_GetQueueDrain : string -> string -> Z -> M D QueueDrain;
  repo_ListQueueResultCallbacks : string -> string -> Z -> M D (list QueueCallbackOutcome);
  repo_Audit : option (AuditRecord -> M D unit)
}.
Arguments mkRepository {D} _ _ _ _ _ _ _ _ _ _ _ _ _ _ _ _ _ _ _ _ _ _ _.
Arguments repo_CreateQueueSubscription {D} _ _.
Arguments repo_ListQueueSubscriptions {D} _ _.
Arguments repo_GetQueueSubscription {D} _ _ _.
Arguments repo_UpdateQueueSubscription {D} _ _ _.
Arguments repo_DeleteQueueSubscription {D} _ _ _.
Arguments repo_PullQueueDeliveries {D} _ _.
Arguments repo_SettleQueueDeliveries {D} _ _ _ _ _.
Arguments repo_ExtendQueueLeases {D} _ _ _ _ _.
Arguments repo_QueueDepth {D} _ _ _ _.
Arguments repo_ListQueueDeadLetters {D} _ _ _ _.
Arguments repo_ReplayQueueDeadLetters {D} _ _ _ _ _.
Arguments repo_DeleteQueueDeadLetters {D} _ _ _ _.
Arguments repo_CreateQueueSchedule {D} _ _.
Arguments repo_ListQueueSchedules {D} _ _ _.
Arguments repo_GetQueueSchedule {D} _ _ _ _.
Arguments repo_UpdateQueueSchedule {D} _ _ _.
Arguments repo_DeleteQueueSchedule {D} _ _ _ _.
Arguments repo_ClaimDueQueueSchedules {D} _ _ _ _ _.
Arguments repo_CompleteQueueSchedule {D} _ _.
Arguments repo_BeginQueueDrain {D} _ _ _ _ _.
Arguments repo_GetQueueDrain {D} _ _ _ _.
Arguments repo_ListQueueResultCallbacks {D} _ _ _ _.
Arguments repo_Audit {D} _.

(** ** [net/url] and [net]

    [url.Parse] and [net.ParseIP] are parameters: the service reads the fields
    below of a parsed URL, and an address in the sixteen-byte form. *)
Record URL := mkURL {
  url_Scheme : string;
  url_Host : string;
  url_Hostname : string;
  url_User : option string;
  url_Fragment : string
}.

Class NetLib := {
  url_Parse : string -> option URL;
  net_ParseIP : string -> option (list Z)
}.

(** [IP.To4] *)
Definition To4 (ip : list Z) : option (list Z) :=
  if bool_decide (length ip = 4%nat) then Some ip
  else if bool_decide (length ip = 16%nat)
          && bool_decide (take 12 ip = (replicate 10 0 ++ [255; 255])%list)
  then Some (drop 12 ip) else None.
Definition IsLoopback (ip : list Z) : bool :=
  match To4 ip with
  | Some ip4 => bool_decide (ip4 !! 0%nat = Some 127)
  | None => bool_decide (ip = (replicate 15 0 ++ [1])%list)
  end.
Definition IsPrivate (ip : list Z) : bool :=
  match To4 ip with
  | Some (a :: b :: _) =>
      (a =? 10) || ((a =? 172) && (Z.land b 240 =? 16)) || ((a =? 192) && (b =? 168))
  | Some _ => false
  | None => bool_decide (length ip = 16%nat)
            && match ip with a :: _ => Z.land a 254 =? 252 | [] => false end
  end.

Definition internalHost `{NetLib} (host : string) : bool :=
  let host := ToLower (default host (CutSuffix host ".")) in
  if bool_decide (host = "localhost") || HasSuffix host ".localhost" || HasSuffix host ".local"
     || HasSuffix host ".internal" then true
  else match net_ParseIP host with Some ip => IsLoopback ip || IsPrivate ip | None => false end.

Definition validCallbackURL `{NetLib} (callbackURL : option string) (allowInsecure : bool) : bool :=
  match callbackURL with
  | None => true
  | Some text =>
      match url_Parse text with
      | None => false
      | Some parsed =>
          if bool_decide (url_Hostname parsed = "") || isSome (url_User parsed)
             || negb (bool_decide (url_Fragment parsed = ""))
             || negb (bool_decide (url_Scheme parsed = "http")
                      || bool_decide (url_Scheme parsed = "https"))
          then false
          else bool_decide (url_Scheme parsed = "https")
               || allowInsecure && internalHost (url_Hostname parsed)
      end
  end.

(** ** [containsSecretField] ([service/realtime_push.go]) *)

(** [json.Unmarshal] into [any] refuses a number that does not fit a float64:
    its absolute value rounds to 2^1024 or more. [number_parts] splits a literal
    into its digits (integer and fraction) and the power of ten. *)
Definition digits_value (l : list ascii) : Z :=
  fold_left (fun n c => 10 * n + (code c - 48)) l 0.
Definition number_parts (lit : string) : Z * Z :=
  let l := match bytes lit with c :: l' => if bool_decide (c = "-"%char) then l' else c :: l'
                              | [] => [] end in
  let (int, r) := span_digits l in
  let (frac, r) := match eat "." r with Some r' => span_digits r' | None => ([], r) end in
  let exp := match r with
             | _ :: r' => match r' with
                          | c :: r'' => if bool_decide (c = "-"%char) then - digits_value r''
                                        else if bool_decide (c = "+"%char) then digits_value r''
                                        else digits_value r'
                          | [] => 0
                          end
             | [] => 0
             end in
  (digits_value (int ++ frac), exp - Z.of_nat (length frac)).
Definition float_bound : Z := 2 ^ 1024 - 2 ^ 970.
Definition float64_overflows (lit : string) : bool :=
  let (m, e) := number_parts lit in
  if m =? 0 then false
  else if 400 <? e then true
  else if 0 <=? e then float_bound <=? m * 10 ^ e
  else float_bound * 10 ^ (- e) <=? m.

Fixpoint unmarshals (v : json) : bool :=
  match v with
  | JNum lit => negb (float64_overflows lit)
  | JArr l => forallb unmarshals l
  | JObj ms => forallb (fun m => unmarshals m.2) ms
  | _ => true
  end.

Definition secret_key (key : string) : bool :=
  let lower := ToLower key in
  Contains lower "secret" || Contains lower "token" || Contains lower "password"
  || Contains lower "authorization".

(** A repeated key keeps its last value in the decoded map. *)
Fixpoint inspect (item : json) : bool :=
  match item with
  | JObj ms =>
      (fix members ms := match ms with
       | [] => false
       | (key, child) :: ms' =>
           secret_key key || (negb (bool_decide (key ∈ ms'.*1)) && inspect child) || members ms'
       end) ms
  | JArr l => existsb inspect l
  | _ => false
  end.

Definition containsSecretField (raw : string) : bool :=
  if bool_decide (raw = "") then false
  else match json_parse raw with
       | Some v => if unmarshals v then inspect v else true
       | None => true
       end.

(** ** Inputs *)

(** [^[A-Za-z][A-Za-z0-9_.-]{0,63}$] *)
Definition queueName (name : string) : bool :=
  match_class (fun c => is_upper c || is_lower c)
    (fun c => is_upper c || is_lower c || is_digit c || is_one_of "_.-" c) 0 63 name.

Record QueueSubscriptionInput := mkSubscriptionInput {
  in_Name : string;
  in_Enabled : option bool;
  in_EventTypes : list string;
  in_MaxAttempts : Z;
  in_DefaultVisibilitySeconds : Z;
  in_MaxVisibilitySeconds : Z;
  in_MaxTotalLeaseSeconds : Z;
  in_RetentionSeconds : Z;
  in_MaxInFlight : Z;
  in_MaxBatchSize : Z;
  in_RetryDelaySeconds : option Z;
  in_OrderingMode : QueueOrderingMode;
  in_DeduplicationSeconds : Z;
  in_MaxDispatchRate : option Z;
  in_SuccessCallbackURL : option string;
  in_FailureCallbackURL : option string;
  in_ResultCallbackMetadata : string
}.

Record QueuePullInput := mkPullInput {
  pi_MaxMessages : Z;
  pi_WaitSeconds : Z;
  pi_VisibilitySeconds : Z
}.

Record QueueSettleItem := mkSettleItem {
  si_Receipt : string;
  si_Disposition : QueueSettlementDisposition;
  si_DelaySeconds : Z;
  si_Reason : string
}.

Record QueueExtendItem := mkExtendItem {
  xi_Receipt : string;
  xi_ExtensionSeconds : Z
}.

(** [if field == 0 { field = n }] *)
Definition or_default (n field : Z) : Z := if field =? 0 then n else field.

(** The zero times are those of a subscription that has no identity yet. *)
Definition subscriptionFromInput (input : QueueSubscriptionInput) : QueueSubscription :=
  mkSubscription "" "" (TrimSpace (in_Name input)) (default true (in_Enabled input))
    None None None None (sort_strings (TrimSpace <$> in_EventTypes input))
    (or_default 10 (in_MaxAttempts input))
    (or_default 60 (in_DefaultVisibilitySeconds input))
    (or_default 300 (in_MaxVisibilitySeconds input))
    (or_default 3600 (in_MaxTotalLeaseSeconds input))
    (or_default 604800 (in_RetentionSeconds input))
    (or_default 100 (in_MaxInFlight input))
    (or_default 20 (in_MaxBatchSize input))
    (default 5 (in_RetryDelaySeconds input))
    (if bool_decide (in_OrderingMode input = QueueOrderingOther "") then QueueOrderingNone
     else in_OrderingMode input)
    (in_DeduplicationSeconds input) (in_MaxDispatchRate input)
    (in_SuccessCallbackURL input) (in_FailureCallbackURL input)
    (if bool_decide (in_ResultCallbackMetadata input = "") then "{}"
     else in_ResultCallbackMetadata input)
    0 zero_time zero_time.

(** [eventType == "" || len(eventType) > 128 || index > 0 && eventType == previous] *)
Fixpoint valid_event_types (previous : option string) (l : list string) : bool :=
  match l with
  | [] => true
  | eventType :: l' =>
      negb (bool_decide (eventType = "") || (128 <? len eventType)
            || bool_decide (previous = Some eventType))
      && valid_event_types (Some eventType) l'
  end.

Definition validQueueSubscription (item : QueueSubscription) : bool :=
  if negb (queueName (sub_Name item)) || (sub_MaxAttempts item <? 1)
     || (100 <? sub_MaxAttempts item) || (sub_DefaultVisibilitySeconds item <? 1)
     || (900 <? sub_DefaultVisibilitySeconds item)
     || (sub_MaxVisibilitySeconds item <? sub_DefaultVisibilitySeconds item)
     || (3600 <? sub_MaxVisibilitySeconds item)
     || (sub_MaxTotalLeaseSeconds item <? sub_MaxVisibilitySeconds item)
     || (86400 <? sub_MaxTotalLeaseSeconds item) || (sub_RetentionSeconds item <? 60)
     || (2592000 <? sub_RetentionSeconds item) || (sub_MaxInFlight item <? 1)
     || (10000 <? sub_MaxInFlight item) || (sub_MaxBatchSize item <? 1)
     || (100 <? sub_MaxBatchSize item) || (sub_RetryDelaySeconds item <? 0)
     || (86400 <? sub_RetryDelaySeconds item)
     || (negb (bool_decide (sub_OrderingMode item = QueueOrderingNone))
         && negb (bool_decide (sub_OrderingMode item = QueueOrderingKey)))
     || (sub_DeduplicationSeconds item <? 0) || (86400 <? sub_DeduplicationSeconds item)
     || (100 <? Z.of_nat (length (sub_EventTypes item)))
     || negb (JSONObject (sub_ResultCallbackMetadata item))
     || (4096 <? len (sub_ResultCallbackMetadata item))
     || containsSecretField (sub_ResultCallbackMetadata item) then false
  else if match sub_MaxDispatchRate item with
          | Some rate => (rate <? 1) || (100000 <? rate)
          | None => false
          end then false
  else valid_event_types None (sub_EventTypes item).

(** ** Receipts *)

(** [io.ReadFull] of 32 bytes, [count] times, from the bytes the random source
    has left. *)
Fixpoint receipts (count : nat) (random : list ascii) : res (list string) :=
  match count with
  | O => Ok []
  | S count' =>
      if bool_decide (length random < 32)%nat then Err RandomError
      else match receipts count' (drop 32 random) with
           | Ok rest => Ok (b64_EncodeToString (of_bytes (take 32 random)) :: rest)
           | Err e => Err e
           end
  end.

Definition validReceipt (receipt : string) : bool :=
  match b64_DecodeString receipt with
  | Some decoded => len decoded =? 32
  | None => false
  end.

(** [seen[id]] after the identifiers already read. *)
Fixpoint valid_ids (seen : gset string) (ids : list string) : bool :=
  match ids with
  | [] => true
  | id :: ids' =>
      if negb (HasPrefix id "qdl_") || (128 <? len id) then false
      else if bool_decide (id ∈ seen) then false
      else valid_ids ({[id]} ∪ seen) ids'
  end.
Definition validDeliveryIDs (appID subscriptionID : string) (ids : list string) : bool :=
  if bool_decide (appID = "") || bool_decide (subscriptionID = "")
     || (Z.of_nat (length ids) <? 1) || (100 <? Z.of_nat (length ids)) then false
  else valid_ids ∅ ids.

(** ** The service *)

(** [svc_repository] is [None] for a nil service or a nil repository. The other
    fields are what the injected functions return during one call: the first
    reading of the clock, the reading that stamps the audit record, and a fresh
    identifier. *)
Record QueueService (D : Type) := mkService {
  svc_repository : option (QueueRepository D);
  svc_AllowInsecureCallbacks : bool;
  svc_Now : Z;
  svc_AuditNow : Z;
  svc_NewID : string
}.
Arguments mkService {D} _ _ _ _ _.
Arguments svc_repository {D} _.
Arguments svc_AllowInsecureCallbacks {D} _.
Arguments svc_Now {D} _.
Arguments svc_AuditNow {D} _.
Arguments svc_NewID {D} _.

Definition mapStoreError (e : error) : error :=
  match e with
  | StoreNotFound => ErrNotFound
  | StoreConflict => ErrConflict
  | _ => e
  end.

Section service.
Context {D : Type} `{NetLib}.
Implicit Types service : QueueService D.

Definition map_store_error {A} (m : M D A) : M D A := on_error m (fun e => fail (mapStoreError e)).
Lemma map_store_ok {A} (m : M D A) w a w' : map_store_error m w = (Ok a, w') <-> m w = (Ok a, w').
Proof. unfold map_store_error, on_error, fail. destruct (m w) as [[?|?] ?]; naive_solver. Qed.

Definition with_repository {A} service (k : QueueRepository D -> M D A) : M D A :=
  match svc_repository service with
  | None => fail ErrInvalidDependency
  | Some repository => k repository
  end.

(** A failing call of the guard's [if] returns before the repository is used. *)
Definition require {A} (ok : bool) (m : M D A) : M D A := if ok then m else fail ErrInvalidInput.

(** The audit writer's error is dropped. *)
Definition audit service (repository : QueueRepository D)
    (appID action resourceType resourceID : string) (changed : list string) : M D unit :=
  match repo_Audit repository with
  | None => mret tt
  | Some append =>
      on_error (append (mkAuditRecord (svc_AuditNow service) "app" appID action resourceType
                          resourceID "success" changed)) (fun _ => mret tt)
  end.

Definition validQueueCallbacks service (item : QueueSubscription) : bool :=
  validCallbackURL (sub_SuccessCallbackURL item) (svc_AllowInsecureCallbacks service)
  && validCallbackURL (sub_FailureCallbackURL item) (svc_AllowInsecureCallbacks service).

(** [item] with identity, version, times and the drain columns set. *)
Definition identify (id appID : string) (version createdAt updatedAt : Z)
    (paused draining deadline drained : option Z) (item : QueueSubscription) : QueueSubscription :=
  mkSubscription id appID (sub_Name item) (sub_Enabled item) paused draining deadline drained
    (sub_EventTypes item) (sub_MaxAttempts item) (sub_DefaultVisibilitySeconds item)
    (sub_MaxVisibilitySeconds item) (sub_MaxTotalLeaseSeconds item) (sub_RetentionSeconds item)
    (sub_MaxInFlight item) (sub_MaxBatchSize item) (sub_RetryDelaySeconds item)
    (sub_OrderingMode item) (sub_DeduplicationSeconds item) (sub_MaxDispatchRate item)
    (sub_SuccessCallbackURL item) (sub_FailureCallbackURL item) (sub_ResultCallbackMetadata item)
    version createdAt updatedAt.

Definition Create service (appID : string) (input : QueueSubscriptionInput)
    : M D QueueSubscription :=
  with_repository service (fun repository =>
    if bool_decide (appID = "") then fail ErrInvalidDependency else
    let now := svc_Now service in
    let item := identify (svc_NewID service) appID 1 now now None None None None
                  (subscriptionFromInput input) in
    require (validQueueSubscription item && validQueueCallbacks service item) (
      map_store_error (repo_CreateQueueSubscription repository item);;
      audit service repository appID "queue.subscription.create" "queue_subscription"
        (sub_ID item) ["created"];;
      mret item)).

Definition List service (appID : string) : M D (list QueueSubscription) :=
  with_repository service (fun repository =>
    if bool_decide (appID = "") then fail ErrInvalidDependency
    else map_store_error (repo_ListQueueSubscriptions repository appID)).

Definition Get service (appID id : string) : M D QueueSubscription :=
  with_repository service (fun repository =>
    require (negb (bool_decide (appID = "") || bool_decide (id = "")))
      (map_store_error (repo_GetQueueSubscription repository appID id))).

Definition updated_item service (current : QueueSubscription) (input : QueueSubscriptionInput)
    : QueueSubscription :=
  let updated := subscriptionFromInput input in
  identify (sub_ID current) (sub_AppID current) (sub_PolicyVersion updated)
    (sub_CreatedAt current) (svc_Now service)
    (if negb (sub_Enabled updated) then None else sub_PausedAt current)
    (sub_DrainingAt current) (sub_DrainDeadlineAt current) (sub_DrainedAt current) updated.

Definition Update service (appID id : string) (expectedVersion : Z)
    (input : QueueSubscriptionInput) : M D QueueSubscription :=
  with_repository service (fun repository =>
    require (negb (bool_decide (appID = "") || bool_decide (id = "") || (expectedVersion <? 1))) (
      current ← map_store_error (repo_GetQueueSubscription repository appID id);
      let updated := updated_item service current input in
      require (validQueueSubscription updated && validQueueCallbacks service updated) (
        stored ← map_store_error (repo_UpdateQueueSubscription repository updated expectedVersion);
        audit service repository appID "queue.subscription.update" "queue_subscription" id
          ["policy"];;
        mret stored))).

Definition BeginDrain service (appID subscriptionID : string) (timeoutSeconds : Z)
    : M D QueueDrain :=
  with_repository service (fun repository =>
    require (negb (bool_decide (appID = "") || bool_decide (subscriptionID = "")
                   || (timeoutSeconds <? 0) || (3600 <? timeoutSeconds))) (
      let timeoutSeconds := or_default 30 timeoutSeconds in
      let now := svc_Now service in
      drain ← map_store_error
        (repo_BeginQueueDrain repository appID subscriptionID now (now + seconds timeoutSeconds));
      audit service repository appID "queue.subscription.drain" "queue_subscription"
        subscriptionID ["draining_at"; "drain_deadline_at"];;
      mret drain)).

Definition DrainStatusOf service (appID subscriptionID : string) : M D QueueDrain :=
  with_repository service (fun repository =>
    require (negb (bool_decide (appID = "") || bool_decide (subscriptionID = "")))
      (map_store_error (repo_GetQueueDrain repository appID subscriptionID (svc_Now service)))).

Definition CallbackOutcomes service (appID subscriptionID : string) (limit : Z)
    : M D (list QueueCallbackOutcome) :=
  with_repository service (fun repository =>
    require (negb (bool_decide (appID = "") || bool_decide (subscriptionID = "")
                   || (limit <? 1) || (100 <? limit)))
      (map_store_error (repo_ListQueueResultCallbacks repository appID subscriptionID limit))).

Definition Pause service (appID id : string) (paused : bool) : M D QueueSubscription :=
  current ← Get service appID id;
  with_repository service (fun repository =>
    if negb (sub_Enabled current) && paused then fail ErrConflict else
    let now := svc_Now service in
    let item := identify (sub_ID current) (sub_AppID current) (sub_PolicyVersion current)
                  (sub_CreatedAt current) now (if paused then Some now else None)
                  (sub_DrainingAt current) (sub_DrainDeadlineAt current) (sub_DrainedAt current)
                  current in
    updated ← map_store_error
      (repo_UpdateQueueSubscription repository item (sub_PolicyVersion current));
    audit service repository appID
      (if paused then "queue.subscription.pause" else "queue.subscription.resume")
      "queue_subscription" id ["paused_at"];;
    mret updated).

Definition Delete service (appID id : string) : M D unit :=
  with_repository service (fun repository =>
    require (negb (bool_decide (appID = "") || bool_decide (id = ""))) (
      map_store_error (repo_DeleteQueueSubscription repository appID id);;
      audit service repository appID "queue.subscription.delete" "queue_subscription" id
        ["deleted"])).

(** *** Pull *)

(** What one turn of the polling loop meets: the random bytes and the clock it
    reads, what other transactions did since the previous turn, whether the poll
    context was already done when the repository was called (the call then fails
    at once), the state of the two contexts after a failing call, and which
    channel the [select] received from; [ctx.Err()] is read after the poll
    context was done. *)
Inductive SelectCase := PollDone (parentDone : bool) | TimerFired.
Record PullRound := mkRound {
  ro_random : list ascii;
  ro_now : Z;
  ro_others : World D -> World D;
  ro_expired : bool;
  ro_pollErr : bool;
  ro_ctxErr : bool;
  ro_select : SelectCase
}.

Definition pull_request (appID subscriptionID : string) (input : QueuePullInput) (now : Z)
    (rs : list string) : QueuePullRequest :=
  mkPullRequest appID subscriptionID (pi_MaxMessages input)
    (seconds (pi_VisibilitySeconds input)) now rs.

(** The repository call of a turn. *)
Definition pull_call (repository : QueueRepository D) (appID subscriptionID : string)
    (input : QueuePullInput) (round : PullRound) (rs : list string) : M D (list QueueDelivery) :=
  if ro_expired round then fail ContextError
  else repo_PullQueueDeliveries repository
         (pull_request appID subscriptionID input (ro_now round) rs).

Inductive Turn := Return (r : res (list QueueDelivery)) | Again.

Definition pull_turn (input : QueuePullInput) (round : PullRound) (r : res (list QueueDelivery))
    : Turn :=
  match r with
  | Err e =>
      if (0 <? pi_WaitSeconds input) && ro_pollErr round && negb (ro_ctxErr round)
      then Return (Ok []) else Return (Err (mapStoreError e))
  | Ok items =>
      if negb (bool_decide (items = [])) || (pi_WaitSeconds input =? 0) then Return (Ok items)
      else match ro_select round with
           | PollDone parentDone =>
               if parentDone then Return (Err ContextError) else Return (Ok [])
           | TimerFired => Again
           end
  end.

(** The loop over the turns of [rounds]; [None] when it is still polling after
    the last of them. *)
Fixpoint pull_loop (repository : QueueRepository D) (appID subscriptionID : string)
    (input : QueuePullInput) (rounds : list PullRound) (w : World D)
    : option (res (list QueueDelivery) * World D) :=
  match rounds with
  | [] => None
  | round :: rounds' =>
      match receipts (Z.to_nat (pi_MaxMessages input)) (ro_random round) with
      | Err e => Some (Err e, ro_others round w)
      | Ok rs =>
          let (r, w') := pull_call repository appID subscriptionID input round rs
                           (ro_others round w) in
          match pull_turn input round r with
          | Return result => Some (result, w')
          | Again => pull_loop repository appID subscriptionID input rounds' w'
          end
      end
  end.

Definition valid_pull (appID subscriptionID : string) (input : QueuePullInput) : bool :=
  negb (bool_decide (appID = "") || bool_decide (subscriptionID = "")
        || (pi_MaxMessages input <? 1) || (100 <? pi_MaxMessages input)
        || (pi_WaitSeconds input <? 0) || (30 <? pi_WaitSeconds input)
        || (pi_VisibilitySeconds input <? 0) || (3600 <? pi_VisibilitySeconds input)).

Definition Pull service (appID subscriptionID : string) (input : QueuePullInput)
    (rounds : list PullRound) (w : World D) : option (res (list QueueDelivery) * World D) :=
  match svc_repository service with
  | None => Some (Err ErrInvalidDependency, w)
  | Some repository =>
      if valid_pull appID subscriptionID input
      then pull_loop repository appID subscriptionID input rounds w
      else Some (Err ErrInvalidInput, w)
  end.

(** *** Settle and Extend *)

Definition settle_item_ok (item : QueueSettleItem) : bool :=
  negb (negb (validReceipt (si_Receipt item)) || (si_DelaySeconds item <? 0)
        || (86400 <? si_DelaySeconds item) || (1024 <? len (si_Reason item))
        || (negb (bool_decide (si_Disposition item = QueueAcknowledge))
            && negb (bool_decide (si_Disposition item = QueueRetry))
            && negb (bool_decide (si_Disposition item = QueueToDeadLetter)))).
Definition settlement_of (item : QueueSettleItem) : QueueSettlement :=
  mkSettlement (si_Receipt item) (si_Disposition item) (seconds (si_DelaySeconds item))
    (TrimSpace (si_Reason item)).

(** The loop that checks the items and builds the settlements. *)
Fixpoint settlements_of (seen : gset string) (items : list QueueSettleItem)
    : option (list QueueSettlement) :=
  match items with
  | [] => Some []
  | item :: items' =>
      if negb (settle_item_ok item) then None
      else if bool_decide (si_Receipt item ∈ seen) then None
      else rest ← settlements_of ({[si_Receipt item]} ∪ seen) items';
           Some (settlement_of item :: rest)
  end.

Definition Settle service (appID subscriptionID : string) (items : list QueueSettleItem)
    : M D (list QueueSettlementResult) :=
  with_repository service (fun repository =>
    require (negb (bool_decide (appID = "") || bool_decide (subscriptionID = "")
                   || (Z.of_nat (length items) <? 1) || (100 <? Z.of_nat (length items))))
      match settlements_of ∅ items with
      | None => fail ErrInvalidInput
      | Some settlements =>
          map_store_error (repo_SettleQueueDeliveries repository appID subscriptionID settlements
                             (svc_Now service))
      end).

Definition extend_item_ok (item : QueueExtendItem) : bool :=
  negb (negb (validReceipt (xi_Receipt item)) || (xi_ExtensionSeconds item <? 1)
        || (3600 <? xi_ExtensionSeconds item)).
Definition extension_of (item : QueueExtendItem) : QueueLeaseExtension :=
  mkExtension (xi_Receipt item) (seconds (xi_ExtensionSeconds item)).

Fixpoint extensions_of (seen : gset string) (items : list QueueExtendItem)
    : option (list QueueLeaseExtension) :=
  match items with
  | [] => Some []
  | item :: items' =>
      if negb (extend_item_ok item) then None
      else if bool_decide (xi_Receipt item ∈ seen) then None
      else rest ← extensions_of ({[xi_Receipt item]} ∪ seen) items';
           Some (extension_of item :: rest)
  end.

Definition Extend service (appID subscriptionID : string) (items : list QueueExtendItem)
    : M D (list QueueSettlementResult) :=
  with_repository service (fun repository =>
    require (negb (bool_decide (appID = "") || bool_decide (subscriptionID = "")
                   || (Z.of_nat (length items) <? 1) || (100 <? Z.of_nat (length items))))
      match extensions_of ∅ items with
      | None => fail ErrInvalidInput
      | Some extensions =>
          map_store_error (repo_ExtendQueueLeases repository appID subscriptionID extensions
                             (svc_Now service))
      end).

(** *** Depth and dead letters *)

Definition Depth service (appID subscriptionID : string) : M D QueueDepth :=
  with_repository service (fun repository =>
    require (negb (bool_decide (appID = "") || bool_decide (subscriptionID = "")))
      (map_store_error (repo_QueueDepth repository appID subscriptionID (svc_Now service)))).

Definition DeadLetters service (appID subscriptionID cursor : string) (limit : Z)
    : M D (list QueueDeadLetter) :=
  with_repository service (fun repository =>
    require (negb (bool_decide (appID = "") || bool_decide (subscriptionID = "")
                   || (limit <? 1) || (100 <? limit) || (128 <? len cursor)))
      (map_store_error (repo_ListQueueDeadLetters repository appID subscriptionID
                          (mkDeadLetterQuery limit cursor)))).

Definition ReplayDeadLetters service (appID subscriptionID : string) (ids : list string) : M D Z :=
  with_repository service (fun repository =>
    require (validDeliveryIDs appID subscriptionID ids) (
      count ← map_store_error (repo_ReplayQueueDeadLetters repository appID subscriptionID ids
                                 (svc_Now service));
      audit service repository appID "queue.dlq.replay" "queue_subscription" subscriptionID
        ["generation"; "status"];;
      mret count)).

Definition DeleteDeadLetters service (appID subscriptionID : string) (ids : list string) : M D Z :=
  with_repository service (fun repository =>
    require (validDeliveryIDs appID subscriptionID ids) (
      count ← map_store_error (repo_DeleteQueueDeadLetters repository appID subscriptionID ids);
      audit service repository appID "queue.dlq.delete" "queue_subscription" subscriptionID
        ["deleted"];;
      mret count)).

End service.
