(* ===== verification/ScheduleService.v ===== *)
(** * [service/queue_schedule.go]: schedules of the queue service and the scheduler

    Cron expressions ([robfig/cron]) and time zones ([time.LoadLocation]) are
    parameters. *)

From Stdlib Require Import Ascii String.
From S2P Require Import Prelude GoLib Crypto Json Domain QueueSchema QueueStore.
From S2P Require Import QueueScheduler QueueCallbacks QueueService.

(** [Next] gives the first activation after an instant, or the zero time when it
    finds none within five years. *)
Class CronLib := {
  Location : Type;
  LoadLocation : string -> option Location;
  CronSchedule : Type;
  cron_Parse : string -> option CronSchedule;
  cron_Next : CronSchedule -> Location -> Z -> Z;
  cron_Next_after spec location t :
    cron_Next spec location t = zero_time \/ t < cron_Next spec location t
}.

Record QueueScheduleInput := mkScheduleInput {
  sin_Name : string;
  sin_Enabled : option bool;
  sin_CronExpression : string;
  sin_Timezone : string;
  sin_EventType : string;
  sin_Data : string;
  sin_OrderingKey : string;
  sin_Priority : Z;
  sin_Metadata : string
}.

(** The identifiers of an occurrence are a function of the schedule and the
    instant, so that a second run of the same occurrence meets the first. *)
Definition scheduleOccurrenceIDs (scheduleID : string) (occurrence : Z) : string * string :=
  let digest := sha256 (scheduleID ++ nul ++ Format_RFC3339Nano occurrence) in
  let suffix := hex_EncodeToString (of_bytes (take 16 (bytes digest))) in
  ("evt_sched_" ++ suffix, "qdl_sched_" ++ suffix).

Definition scheduleQualifies (item : QueueSchedule) : bool :=
  negb (bool_decide (sch_AppID item = "") || bool_decide (sch_SubscriptionID item = "")
        || negb (queueName (sch_Name item)) || bool_decide (sch_EventType item = "")
        || (128 <? len (sch_EventType item)) || (256 <? len (sch_OrderingKey item))
        || (sch_Priority item <? -10) || (10 <? sch_Priority item)
        || negb (JSONObject (sch_Data item)) || negb (JSONObject (sch_Metadata item))
        || (Z.shiftl 1 20 <? len (sch_Data item)) || (4096 <? len (sch_Metadata item))).

(** The item before its first run is known; identity and times are set later. *)
Definition scheduleItem (appID subscriptionID : string) (input : QueueScheduleInput)
    : QueueSchedule :=
  mkSchedule "" appID subscriptionID (TrimSpace (sin_Name input))
    (default true (sin_Enabled input)) (TrimSpace (sin_CronExpression input))
    (TrimSpace (sin_Timezone input)) (TrimSpace (sin_EventType input)) (sin_Data input)
    (TrimSpace (sin_OrderingKey input)) (sin_Priority input)
    (if bool_decide (sin_Metadata input = "") then "{}" else sin_Metadata input)
    zero_time None 0 zero_time zero_time "" 0.

Definition place (id : string) (nextRunAt : Z) (lastRunAt : option Z)
    (version createdAt updatedAt : Z) (item : QueueSchedule) : QueueSchedule :=
  mkSchedule id (sch_AppID item) (sch_SubscriptionID item) (sch_Name item) (sch_Enabled item)
    (sch_CronExpression item) (sch_Timezone item) (sch_EventType item) (sch_Data item)
    (sch_OrderingKey item) (sch_Priority item) (sch_Metadata item) nextRunAt lastRunAt version
    createdAt updatedAt (sch_ClaimToken item) (sch_ClaimGeneration item).

Section schedules.
Context {D : Type} `{NetLib, CronLib}.
Implicit Types service : QueueService D.

Definition scheduleFromInput (appID subscriptionID : string) (input : QueueScheduleInput)
    (from : Z) : res QueueSchedule :=
  let item := scheduleItem appID subscriptionID input in
  if negb (scheduleQualifies item) then Err ErrInvalidInput
  else match LoadLocation (sch_Timezone item) with
  | None => Err ErrInvalidInput
  | Some location =>
      if bool_decide (sch_Timezone item = "Local") then Err ErrInvalidInput
      else match cron_Parse (sch_CronExpression item) with
      | None => Err ErrInvalidInput
      | Some schedule =>
          let first := cron_Next schedule location from in
          let second := cron_Next schedule location first in
          if IsZero first || (second - first <? Minute) then Err ErrInvalidInput
          else Ok (place "" first None 0 zero_time zero_time item)
      end
  end.

Definition lift_res {A} (r : res A) : M D A :=
  match r with Ok a => mret a | Err e => fail e end.

Definition CreateSchedule service (appID subscriptionID : string) (input : QueueScheduleInput)
    : M D QueueSchedule :=
  with_repository service (fun repository =>
    let now := svc_Now service in
    item ← lift_res (scheduleFromInput appID subscriptionID input now);
    let item := place (svc_NewID service) (sch_NextRunAt item) None 1 now now item in
    map_store_error (repo_CreateQueueSchedule repository item);;
    audit service repository appID "queue.schedule.create" "queue_schedule" (sch_ID item)
      ["created"];;
    mret item).

Definition ListSchedules service (appID subscriptionID : string) : M D (list QueueSchedule) :=
  with_repository service (fun repository =>
    require (negb (bool_decide (appID = "") || bool_decide (subscriptionID = "")))
      (map_store_error (repo_ListQueueSchedules repository appID subscriptionID))).

Definition GetSchedule service (appID subscriptionID scheduleID : string) : M D QueueSchedule :=
  with_repository service (fun repository =>
    require (negb (bool_decide (appID = "") || bool_decide (subscriptionID = "")
                   || bool_decide (scheduleID = "")))
      (map_store_error (repo_GetQueueSchedule repository appID subscriptionID scheduleID))).

Definition UpdateSchedule service (appID subscriptionID scheduleID : string)
    (expectedVersion : Z) (input : QueueScheduleInput) : M D QueueSchedule :=
  require (negb ((expectedVersion <? 1) || bool_decide (scheduleID = ""))) (
    current ← GetSchedule service appID subscriptionID scheduleID;
    with_repository service (fun repository =>
      let now := svc_Now service in
      item ← lift_res (scheduleFromInput appID subscriptionID input now);
      let item := place (sch_ID current) (sch_NextRunAt item) (sch_LastRunAt current)
                    (sch_PolicyVersion item) (sch_CreatedAt current) now item in
      stored ← map_store_error (repo_UpdateQueueSchedule repository item expectedVersion);
      audit service repository appID "queue.schedule.update" "queue_schedule" scheduleID
        ["policy"];;
      mret stored)).

Definition DeleteSchedule service (appID subscriptionID scheduleID : string) : M D unit :=
  with_repository service (fun repository =>
    require (negb (bool_decide (appID = "") || bool_decide (subscriptionID = "")
                   || bool_decide (scheduleID = ""))) (
      map_store_error (repo_DeleteQueueSchedule repository appID subscriptionID scheduleID);;
      audit service repository appID "queue.schedule.delete" "queue_schedule" scheduleID
        ["deleted"])).

(** ** The scheduler *)

(** One claimed schedule; an error of the time zone or of the expression, kept in
    the row since it was stored, ends the run. *)
Definition run_item (repository : QueueRepository D) (now : Z) (item : QueueSchedule) : M D unit :=
  match LoadLocation (sch_Timezone item) with
  | None => fail DriverError
  | Some location =>
      match cron_Parse (sch_CronExpression item) with
      | None => fail DriverError
      | Some spec =>
          let next := cron_Next spec location (sch_NextRunAt item) in
          let (eventID, deliveryID) := scheduleOccurrenceIDs (sch_ID item) (sch_NextRunAt item) in
          repo_CompleteQueueSchedule repository
            (mkCompletion (sch_ID item) (sch_ClaimToken item) eventID deliveryID
               (sch_ClaimGeneration item) (sch_NextRunAt item) next now)
      end
  end.

(** [clock] gives the reading of the clock for each completion. *)
Fixpoint run_items (repository : QueueRepository D) (clock : nat -> Z) (items : list QueueSchedule)
    : M D unit :=
  match items with
  | [] => mret tt
  | item :: items' =>
      run_item repository (clock O) item;; run_items repository (clock ∘ S) items'
  end.

Definition runOnce (repository : QueueRepository D) (uuid : string) (now : Z) (clock : nat -> Z)
    : M D unit :=
  items ← repo_ClaimDueQueueSchedules repository now (now + 15 * Second) ("qclaim_" ++ uuid) 32;
  run_items repository clock items.

End schedules.
