(* ===== verification/ServiceClaims.v ===== *)
(** * Theorems about the queue service

    The service's theorems are proved against the laws of its repository
    interface, and the Postgres repository is shown to have them. *)

From Stdlib Require Import Ascii String.
From S2P Require Import Prelude GoLib Crypto Json Domain QueueSchema QueueStore.
From S2P Require Import QueueLifecycle QueuePull QueueSettle QueueScheduler Classify.
From S2P Require Import QueueCallbacks QueueSystem QueueLifecycle QueueService ScheduleService.

(** ** What the service relies on *)

(** A computation that, when it fails, has changed nothing; one that changes
    nothing; and one that does not fail. *)
Definition atomic {D A} (m : M D A) : Prop :=
  forall w e w', m w = (Err e, w') -> w_db w' = w_db w.
Definition reads {D A} (m : M D A) : Prop := forall w, w_db (m w).2 = w_db w.
Definition never_fails {D A} (m : M D A) : Prop := forall w, exists a w', m w = (Ok a, w').

Class RepositoryLaws {D} (repo : QueueRepository D) : Prop := {
  law_pull_receipts request w r w' :
    repo_PullQueueDeliveries repo request w = (Ok r, w') ->
    (qd_Receipt <$> r) `prefix_of` pr_Receipts request;
  law_settle_answers app sub sts now w rs w' :
    repo_SettleQueueDeliveries repo app sub sts now w = (Ok rs, w') ->
    sres_Receipt <$> rs = st_Receipt <$> sts;
  law_extend_answers app sub exts now w rs w' :
    repo_ExtendQueueLeases repo app sub exts now w = (Ok rs, w') ->
    sres_Receipt <$> rs = ext_Receipt <$> exts;
  law_list app : reads (repo_ListQueueSubscriptions repo app);
  law_get app id : reads (repo_GetQueueSubscription repo app id);
  law_depth app sub now : reads (repo_QueueDepth repo app sub now);
  law_dead app sub q : reads (repo_ListQueueDeadLetters repo app sub q);
  law_outcomes app sub n : reads (repo_ListQueueResultCallbacks repo app sub n);
  law_schedules app sub : reads (repo_ListQueueSchedules repo app sub);
  law_schedule app sub id : reads (repo_GetQueueSchedule repo app sub id);
  law_create item : atomic (repo_CreateQueueSubscription repo item);
  law_update item v : atomic (repo_UpdateQueueSubscription repo item v);
  law_delete app id : atomic (repo_DeleteQueueSubscription repo app id);
  law_pull request : atomic (repo_PullQueueDeliveries repo request);
  law_settle app sub sts now : atomic (repo_SettleQueueDeliveries repo app sub sts now);
  law_extend app sub exts now : atomic (repo_ExtendQueueLeases repo app sub exts now);
  law_replay app sub ids now : atomic (repo_ReplayQueueDeadLetters repo app sub ids now);
  law_drop app sub ids : atomic (repo_DeleteQueueDeadLetters repo app sub ids);
  law_create_schedule item : atomic (repo_CreateQueueSchedule repo item);
  law_update_schedule item v : atomic (repo_UpdateQueueSchedule repo item v);
  law_delete_schedule app sub id : atomic (repo_DeleteQueueSchedule repo app sub id);
  law_get_drain app sub now : atomic (repo_GetQueueDrain repo app sub now)
}.

(** ** The Postgres repository *)

Section postgres.
Context `{Postgres}.

Definition postgres_repository (auditWriter : option (AuditRecord -> M_queue unit))
    : QueueRepository QueueDB :=
  mkRepository CreateQueueSubscription ListQueueSubscriptions GetQueueSubscription
    UpdateQueueSubscription DeleteQueueSubscription PullQueueDeliveries SettleQueueDeliveries
    ExtendQueueLeases QueueDepth_ ListQueueDeadLetters ReplayQueueDeadLetters
    DeleteQueueDeadLetters CreateQueueSchedule ListQueueSchedules GetQueueSchedule
    UpdateQueueSchedule DeleteQueueSchedule ClaimDueQueueSchedules CompleteQueueSchedule
    BeginQueueDrain GetQueueDrain ListQueueResultCallbacks auditWriter.

End postgres.

Section combinators.
Context {D : Type}.

Lemma reads_atomic {A} (m : M D A) : reads m -> atomic m.
Proof. intros Hm w e w' Hrun. specialize (Hm w). by rewrite Hrun in Hm. Qed.

Lemma exec_atomic {A} (stmt : gset string -> D -> res (A * D)) : atomic (exec stmt).
Proof. intros w e w'. apply exec_err. Qed.

Lemma exec_reads {A} (stmt : gset string -> D -> res (A * D)) :
  (forall lk d a d', stmt lk d = Ok (a, d') -> d' = d) -> reads (exec stmt).
Proof.
  intros Hs [d fs lk]. unfold exec. simpl.
  destruct fs as [|[] fs]; simpl; [|done|];
    destruct (stmt lk d) as [[a d']|] eqn:E; simpl; eauto.
Qed.

Lemma query_reads {A} (f : D -> A) : reads (query f).
Proof. intros [d fs lk]. unfold query, exec. by destruct fs as [|[]]. Qed.

Lemma query_row_reads {A} e (f : D -> option A) : reads (query_row e f).
Proof.
  intros [d fs lk]. unfold query_row, exec. simpl. by destruct fs as [|[]]; simpl; destruct (f d).
Qed.

Lemma reads_bind {A B} (m : M D A) (k : A -> M D B) :
  reads m -> (forall a, reads (k a)) -> reads (m ≫= k).
Proof.
  intros Hm Hk w. unfold mbind, M_bind. specialize (Hm w).
  destruct (m w) as [[a|] w1]; simpl in *; [|done]. by rewrite Hk.
Qed.

Lemma on_error_reads {A} (m : M D A) h :
  reads m -> (forall e, reads (h e)) -> reads (on_error m h).
Proof.
  intros Hm Hh w. unfold on_error. specialize (Hm w).
  destruct (m w) as [[a|] w1]; simpl in *; [done|]. by rewrite Hh.
Qed.

Lemma atomic_fail {A} e : atomic (fail (D:=D) (A:=A) e).
Proof. intros w e' w' Hrun. unfold fail in Hrun. by simplify_eq. Qed.
Lemma atomic_ret {A} (a : A) : atomic (mret a : M D A).
Proof. intros w e w' Hrun. unfold mret, M_ret in Hrun. by simplify_eq. Qed.
Lemma reads_fail {A} e : reads (fail (D:=D) (A:=A) e).
Proof. done. Qed.

(** A reader before, and something that cannot fail after, an atomic step. *)
Lemma atomic_after_read {A B} (m : M D A) (k : A -> M D B) :
  reads m -> (forall a, atomic (k a)) -> atomic (m ≫= k).
Proof.
  intros Hm Hk w e w'. rewrite bind_err. intros [Hrun|(a & w1 & Hrun & Hrun')].
  - by apply (reads_atomic m) in Hrun.
  - apply Hk in Hrun'. specialize (Hm w). rewrite Hrun in Hm. simpl in Hm. congruence.
Qed.

Lemma atomic_before_total {A B} (m : M D A) (k : A -> M D B) :
  atomic m -> (forall a, never_fails (k a)) -> atomic (m ≫= k).
Proof.
  intros Hm Hk w e w'. rewrite bind_err. intros [Hrun|(a & w1 & Hrun & Hrun')].
  - by apply Hm in Hrun.
  - destruct (Hk a w1) as (b & w2 & Hrun2). congruence.
Qed.

Lemma never_fails_bind {A B} (m : M D A) (k : A -> M D B) :
  never_fails m -> (forall a, never_fails (k a)) -> never_fails (m ≫= k).
Proof.
  intros Hm Hk w. destruct (Hm w) as (a & w1 & Hrun). destruct (Hk a w1) as (b & w2 & Hrun2).
  exists b, w2. apply bind_ok. eauto.
Qed.

Lemma never_fails_ret {A} (a : A) : never_fails (mret a : M D A).
Proof. intros w. by exists a, w. Qed.

Lemma atomic_on_error {A} (m : M D A) h :
  atomic m -> (forall e, reads (h e)) -> atomic (on_error m h).
Proof.
  intros Hm Hh w e w'. unfold on_error. destruct (m w) as [[a|e1] w1] eqn:Hrun; [done|].
  intros Hrun'. apply Hm in Hrun. specialize (Hh e1 w1). rewrite Hrun' in Hh. simpl in Hh.
  congruence.
Qed.

Lemma atomic_transaction {A} (m : M D A) : atomic (transaction m).
Proof. intros w e w'. apply transaction_err_db. Qed.

Lemma atomic_map_store_error {A} (m : M D A) : atomic m -> atomic (map_store_error m).
Proof. intros Hm. by apply atomic_on_error. Qed.
Lemma reads_map_store_error {A} (m : M D A) : reads m -> reads (map_store_error m).
Proof. intros Hm. by apply on_error_reads. Qed.

Lemma atomic_require {A} b (m : M D A) : atomic m -> atomic (require b m).
Proof. destruct b; [done|]. intros _. apply atomic_fail. Qed.
Lemma reads_require {A} b (m : M D A) : reads m -> reads (require b m).
Proof. by destruct b. Qed.

Lemma with_repository_atomic {A} service (k : QueueRepository D -> M D A) :
  (forall repo, svc_repository service = Some repo -> atomic (k repo)) ->
  atomic (with_repository service k).
Proof.
  unfold with_repository. destruct (svc_repository service); [eauto|]. intros _. apply atomic_fail.
Qed.

Lemma audit_never_fails service repo app action kind id changed :
  never_fails (audit (D:=D) service repo app action kind id changed).
Proof.
  unfold audit. destruct (repo_Audit repo) as [append|]; [|apply never_fails_ret].
  intros w. unfold on_error. destruct (append _ w) as [[[]|e] w1]; eauto.
Qed.

End combinators.

Create HintDb atomic.
#[export] Hint Resolve atomic_fail atomic_ret atomic_map_store_error atomic_require reads_fail query_reads
  query_row_reads exec_atomic reads_atomic reads_map_store_error reads_require audit_never_fails
  never_fails_ret never_fails_bind atomic_transaction : atomic.
#[export] Hint Resolve law_list law_get law_depth law_dead law_outcomes law_schedules law_schedule
  law_create law_update law_delete law_pull law_settle law_extend law_replay law_drop
  law_create_schedule law_update_schedule law_delete_schedule law_get_drain : atomic.

(** The receipts a pull hands out are the first of those it was given. *)
Lemma pull_receipts_prefix `{Postgres} request w r w' :
  PullQueueDeliveries request w = (Ok r, w') -> (qd_Receipt <$> r) `prefix_of` pr_Receipts request.
Proof.
  intros Hrun. apply pull_run in Hrun as (s & _ & Hout).
  destruct Hout as [Hdr|db1 ? ? ? ? ?|db1 limit sel db' ? ? ? ? ? ? ? Hlen ?];
    [apply prefix_nil..|].
  exists (drop (length sel) (pr_Receipts request)).
  rewrite <- (take_drop (length sel) (pr_Receipts request)) at 1. f_equal.
  clear -Hlen. revert Hlen. generalize (pr_Receipts request) as rs.
  induction sel as [|[d e] sel IH]; intros [|r rs] Hlen; simpl in *; try (done || lia).
  f_equal. apply IH. lia.
Qed.

Lemma get_drain_atomic app sub now : atomic (GetQueueDrain app sub now).
Proof.
  apply atomic_after_read; [apply query_row_reads|]. intros [s n].
  repeat case_match; try (apply reads_atomic; done).
  apply atomic_before_total; [apply exec_atomic|]. intros. apply never_fails_ret.
Qed.

(** The interface laws hold of the Postgres repository. *)
#[export] Instance postgres_laws `{Postgres} auditWriter :
  RepositoryLaws (postgres_repository auditWriter).
Proof.
  split; simpl; intros; try (apply exec_atomic || apply atomic_transaction || apply query_reads
    || apply query_row_reads || apply get_drain_atomic).
  - by eapply pull_receipts_prefix.
  - match goal with Hr : SettleQueueDeliveries _ _ _ _ _ = _ |- _ =>
      apply settle_run in Hr as (s & _ & Hall) end. by eapply settled_all_receipts.
  - match goal with Hr : ExtendQueueLeases _ _ _ _ _ = _ |- _ =>
      by apply extend_run in Hr as (_ & _ & ? & _) end.
  - apply exec_reads. intros. case_match; by simplify_eq.
  - apply exec_reads. intros. case_match; by simplify_eq.
  - apply atomic_on_error; [apply exec_atomic|]. intros. apply reads_fail.
  - apply atomic_on_error; [apply exec_atomic|]. intros. case_match; [|apply reads_fail].
    apply on_error_reads; [|intros; apply reads_fail].
    apply reads_bind; [apply query_row_reads|]. intros. apply reads_fail.
  - apply atomic_on_error; [apply exec_atomic|]. intros. apply reads_fail.
  - apply atomic_on_error; [apply exec_atomic|]. intros. case_match; [|apply reads_fail].
    apply on_error_reads; [|intros; apply reads_fail].
    apply reads_bind; [apply query_row_reads|]. intros. apply reads_fail.
Qed.

(** ** Failing requests *)

(** The requests of [QueueService] other than [Pull], which polls, and
    [BeginDrain], which changes the row before it reads it back. *)
Inductive service_op :=
| SvcCreate (appID : string) (input : QueueSubscriptionInput)
| SvcList (appID : string)
| SvcGet (appID id : string)
| SvcUpdate (appID id : string) (expectedVersion : Z) (input : QueueSubscriptionInput)
| SvcDrainStatus (appID subscriptionID : string)
| SvcCallbackOutcomes (appID subscriptionID : string) (limit : Z)
| SvcPause (appID id : string) (paused : bool)
| SvcDelete (appID id : string)
| SvcSettle (appID subscriptionID : string) (items : list QueueSettleItem)
| SvcExtend (appID subscriptionID : string) (items : list QueueExtendItem)
| SvcDepth (appID subscriptionID : string)
| SvcDeadLetters (appID subscriptionID cursor : string) (limit : Z)
| SvcReplayDeadLetters (appID subscriptionID : string) (ids : list string)
| SvcDeleteDeadLetters (appID subscriptionID : string) (ids : list string)
| SvcCreateSchedule (appID subscriptionID : string) (input : QueueScheduleInput)
| SvcListSchedules (appID subscriptionID : string)
| SvcGetSchedule (appID subscriptionID scheduleID : string)
| SvcUpdateSchedule (appID subscriptionID scheduleID : string) (expectedVersion : Z)
    (input : QueueScheduleInput)
| SvcDeleteSchedule (appID subscriptionID scheduleID : string).

Section service.
Context {D : Type} `{NetLib, CronLib} (service : QueueService D).
Context (Hlaws : forall repo, svc_repository service = Some repo -> RepositoryLaws repo).

Definition ignore {A} (m : M D A) : M D unit := m;; mret tt.

Definition run_service (op : service_op) : M D unit :=
  match op with
  | SvcCreate appID input => ignore (Create service appID input)
  | SvcList appID => ignore (List service appID)
  | SvcGet appID id => ignore (Get service appID id)
  | SvcUpdate appID id version input => ignore (Update service appID id version input)
  | SvcDrainStatus appID sub => ignore (DrainStatusOf service appID sub)
  | SvcCallbackOutcomes appID sub limit => ignore (CallbackOutcomes service appID sub limit)
  | SvcPause appID id paused => ignore (Pause service appID id paused)
  | SvcDelete appID id => Delete service appID id
  | SvcSettle appID sub items => ignore (Settle service appID sub items)
  | SvcExtend appID sub items => ignore (Extend service appID sub items)
  | SvcDepth appID sub => ignore (Depth service appID sub)
  | SvcDeadLetters appID sub cursor limit => ignore (DeadLetters service appID sub cursor limit)
  | SvcReplayDeadLetters appID sub ids => ignore (ReplayDeadLetters service appID sub ids)
  | SvcDeleteDeadLetters appID sub ids => ignore (DeleteDeadLetters service appID sub ids)
  | SvcCreateSchedule appID sub input => ignore (CreateSchedule service appID sub input)
  | SvcListSchedules appID sub => ignore (ListSchedules service appID sub)
  | SvcGetSchedule appID sub id => ignore (GetSchedule service appID sub id)
  | SvcUpdateSchedule appID sub id version input =>
      ignore (UpdateSchedule service appID sub id version input)
  | SvcDeleteSchedule appID sub id => DeleteSchedule service appID sub id
  end.

Lemma reads_lift {A} (r : res A) : reads (D:=D) (lift_res r).
Proof. by destruct r. Qed.

Lemma reads_with_repository {A} (k : QueueRepository D -> M D A) :
  (forall repo, svc_repository service = Some repo -> reads (k repo)) ->
  reads (with_repository service k).
Proof. unfold with_repository. destruct (svc_repository service); eauto. done. Qed.

Ltac atomic_solve :=
  repeat match goal with
  | |- atomic (with_repository _ _) => apply with_repository_atomic; intros ?repo ?Hrepo;
      pose proof (Hlaws _ Hrepo)
  | |- reads (with_repository _ _) => apply reads_with_repository; intros ?repo ?Hrepo;
      pose proof (Hlaws _ Hrepo)
  | |- atomic (require _ _) => apply atomic_require
  | |- reads (require _ _) => apply reads_require
  | |- atomic (map_store_error _) => apply atomic_map_store_error
  | |- reads (map_store_error _) => apply reads_map_store_error
  | |- atomic (fail _) => apply atomic_fail
  | |- atomic (if ?b then _ else _) => destruct b
  | |- atomic (match ?o with Some _ => _ | None => _ end) => destruct o
  | |- never_fails (_ ≫= _) => apply never_fails_bind; [|intros ?]
  | |- never_fails (mret _) => apply never_fails_ret
  | |- never_fails (audit _ _ _ _ _ _ _) => apply audit_never_fails
  | |- reads (lift_res _) => apply reads_lift
  | |- atomic (_ ≫= _) =>
      (apply atomic_after_read; [solve [atomic_solve_leaf|apply reads_with_repository;
          intros ? Hr; apply Hlaws in Hr; apply reads_require, reads_map_store_error;
          auto with atomic]|intros ?])
      || (apply atomic_before_total; [|intros ?])
  end; auto with atomic
with atomic_solve_leaf := first [apply reads_lift | apply reads_map_store_error; auto with atomic].

(** C9: a request of the service other than a pull or the beginning of a drain that is
    answered with an error has changed nothing, whichever guard, repository call or
    precondition refused it; the audit record of a successful request cannot turn it
    into a failure. The two others may fail after a change: a pull whose loop fails has
    stored its earlier turns, and the beginning of a drain may fail when it reads the
    status back ([begin_drain_half_done] of [QueueSystemClaims]). *)
Theorem service_failure_changes_nothing op w e w' :
  run_service op w = (Err e, w') -> w_db w' = w_db w.
Proof.
  revert w e w'. change (atomic (run_service op)).
  destruct op; cbn [run_service]; unfold ignore;
    unfold Create, List, Get, Update, DrainStatusOf, CallbackOutcomes, Pause, Get, Delete, Settle,
      Extend, Depth, DeadLetters, ReplayDeadLetters, DeleteDeadLetters, CreateSchedule,
      ListSchedules, GetSchedule, UpdateSchedule, DeleteSchedule; atomic_solve.
Qed.

(** ** Receipts *)

Lemma receipts_spec n random rs :
  receipts n random = Ok rs -> length rs = n /\ Forall (fun r => validReceipt r = true) rs.
Proof using Type.
  clear. revert random rs. induction n as [|n IH]; intros random rs; simpl.
  - intros. simplify_eq. done.
  - case_bool_decide as Hlen; [done|]. destruct (receipts n _) as [rest|] eqn:E; [|done].
    intros. simplify_eq. apply IH in E as [Hl Hall]. split; [simpl; lia|]. constructor; [|done].
    unfold validReceipt. rewrite b64_roundtrip, len_bytes, bytes_of_bytes, length_take.
    apply Z.eqb_eq. lia.
Qed.

(** What the loop of [Settle] accepts. *)
Lemma settlements_of_spec seen items l :
  settlements_of seen items = Some l <->
  l = settlement_of <$> items /\ Forall (fun i => settle_item_ok i = true) items
  /\ NoDup (si_Receipt <$> items) /\ Forall (fun i => si_Receipt i ∉ seen) items.
Proof using Type.
  clear. revert seen l. induction items as [|i items IH]; intros seen l; simpl.
  { split; [intros; simplify_eq; repeat constructor|by intros (-> & _)]. }
  rewrite !Forall_cons, NoDup_cons.
  destruct (settle_item_ok i); simpl; [|naive_solver].
  case_bool_decide as Hin; [naive_solver|].
  destruct (settlements_of _ items) as [rest|] eqn:E; simpl.
  - apply IH in E as (-> & Hok & Hnd & Hns).
    assert (si_Receipt i ∉ (si_Receipt <$> items)) as Hni.
    { intros (j & Heq & Hj)%list_elem_of_fmap. rewrite Forall_forall in Hns.
      specialize (Hns j Hj). set_solver. }
    assert (Forall (fun j => si_Receipt j ∉ seen) items) as Hns'
      by (eapply Forall_impl; [exact Hns|]; set_solver).
    naive_solver.
  - split; [done|]. intros (-> & [_ Hok] & [Hni Hnd] & [_ Hns]).
    assert (settlements_of ({[si_Receipt i]} ∪ seen) items = Some (settlement_of <$> items)).
    { apply IH. split_and!; [done..|]. rewrite Forall_forall in Hns |- *. intros j Hj.
      specialize (Hns j Hj). apply not_elem_of_union. split; [|done].
      rewrite elem_of_singleton. intros Heq. apply Hni, list_elem_of_fmap. eauto. }
    congruence.
Qed.

(** A pull that returns deliveries returned those of one repository call. *)
Lemma pull_loop_items (repo : QueueRepository D) app sub input rounds w items w' :
  pull_loop repo app sub input rounds w = Some (Ok items, w') -> items <> [] ->
  exists round rs w1, round ∈ rounds
  /\ receipts (Z.to_nat (pi_MaxMessages input)) (ro_random round) = Ok rs
  /\ repo_PullQueueDeliveries repo (pull_request app sub input (ro_now round) rs) w1
     = (Ok items, w').
Proof using Type.
  clear. intros Hrun Hne. revert w Hrun. induction rounds as [|round rounds IH]; intros w; simpl;
    [done|].
  destruct (receipts _ _) as [rs|e] eqn:Hrs; [|by intros; simplify_eq].
  destruct (pull_call _ _ _ _ _ _ _) as [r w1] eqn:Hcall. unfold pull_turn.
  destruct r as [items1|e]; [|by destruct (_ && _); intros; simplify_eq].
  destruct (_ || _).
  - intros. simplify_eq. unfold pull_call in Hcall. destruct (ro_expired round); [done|].
    exists round, rs, (ro_others round w). split_and!; [apply list_elem_of_here|done..].
  - destruct (ro_select round) as [[]|]; [by intros; simplify_eq..|].
    intros (round' & rs' & w2 & Hin & ? & ?)%IH. exists round', rs', w2.
    split_and!; [by apply list_elem_of_further|done..].
Qed.

(** The receipts a consumer is given are the ones it can settle with. If a
    pull returns deliveries, and the random source repeated no block within a
    turn, then any settlement of all of them, with allowed dispositions, delays
    and reasons, passes the service's checks and reaches the repository as it
    is, one settlement per delivery. *)
Theorem pulled_receipts_settle (repo : QueueRepository D) app sub input rounds w items w' choose w2 :
  svc_repository service = Some repo ->
  Pull service app sub input rounds w = Some (Ok items, w') -> items <> [] ->
  Forall (fun round => forall rs,
    receipts (Z.to_nat (pi_MaxMessages input)) (ro_random round) = Ok rs -> NoDup rs) rounds ->
  (forall d : QueueDelivery, si_Receipt (choose d) = qd_Receipt d
     /\ 0 <= si_DelaySeconds (choose d) <= 86400 /\ len (si_Reason (choose d)) <= 1024
     /\ (si_Disposition (choose d) = QueueAcknowledge \/ si_Disposition (choose d) = QueueRetry
         \/ si_Disposition (choose d) = QueueToDeadLetter)) ->
  Settle service app sub (choose <$> items) w2
  = map_store_error (repo_SettleQueueDeliveries repo app sub
      (settlement_of <$> (choose <$> items)) (svc_Now service)) w2.
Proof using Hlaws.
  intros Hrepo Hpull Hne Hfresh Hchoose. unfold Pull in Hpull. rewrite Hrepo in Hpull.
  destruct (valid_pull app sub input) eqn:Hvalid; [|done].
  apply pull_loop_items in Hpull as (round & rs & w1 & Hin & Hrs & Hcall); [|done].
  rewrite Forall_forall in Hfresh. pose proof (Hfresh _ Hin _ Hrs) as Hnd.
  apply receipts_spec in Hrs as [Hlen Hok].
  destruct (law_pull_receipts (RepositoryLaws := Hlaws _ Hrepo) _ _ _ _ Hcall) as [tail Htail].
  simpl in Htail. subst rs. rewrite length_app, length_fmap in Hlen.
  apply NoDup_app in Hnd as (Hnd & _). apply Forall_app in Hok as [Hok _].
  assert (si_Receipt <$> (choose <$> items) = qd_Receipt <$> items) as Hmap.
  { rewrite <- list_fmap_compose. apply list_fmap_ext. intros i d _. apply Hchoose. }
  assert (settlements_of ∅ (choose <$> items) = Some (settlement_of <$> (choose <$> items))) as Hset.
  { apply settlements_of_spec. rewrite Hmap. split_and!; [done| |done|].
    - rewrite Forall_fmap in Hok. rewrite Forall_fmap. eapply Forall_impl; [exact Hok|].
      intros d Hd. destruct (Hchoose d) as (Hr & Hdelay & Hreason & Hdisp). simpl in *.
      unfold settle_item_ok. rewrite Hr, Hd. destruct Hdisp as [->|[->| ->]]; simpl;
        repeat (rewrite (proj2 (Z.ltb_ge _ _)) by lia); done.
    - apply Forall_true. set_solver. }
  unfold Settle, with_repository, require. rewrite Hrepo, Hset, length_fmap.
  unfold valid_pull in Hvalid. destruct (bool_decide (app = "")), (bool_decide (sub = "")); try done.
  simpl in *. assert (1 <= Z.of_nat (length items) <= 100) as Hbound.
  { destruct items; [done|]. simpl in *. bool_to_prop. destruct_and!. lia. }
  by rewrite !(proj2 (Z.ltb_ge _ _)) by lia.
Qed.

(** ** The polling loop ends *)

(** The turns of a poll that started at [start] and may wait until [deadline]:
    the clock of a turn is at least [earliest], a turn that begins at the deadline
    or later finds the poll context done, and the next turn begins when the
    hundred-millisecond timer has fired. *)
Fixpoint paced (deadline earliest : Z) (rounds : list (PullRound (D:=D))) : Prop :=
  match rounds with
  | [] => True
  | round :: rounds' =>
      earliest <= ro_now round /\ (deadline <= ro_now round -> ro_expired round = true)
      /\ paced deadline (ro_now round + 100 * Millisecond) rounds'
  end.

Lemma pull_loop_ends (repo : QueueRepository D) app sub input deadline rounds earliest w :
  paced deadline earliest rounds ->
  deadline <= earliest + 100 * Millisecond * (Z.of_nat (length rounds) - 1) ->
  (0 < length rounds)%nat ->
  exists r w', pull_loop repo app sub input rounds w = Some (r, w').
Proof using Type.
  clear. revert earliest w. induction rounds as [|round rounds IH]; intros earliest w; simpl; [lia|].
  intros (Hnow & Hexp & Hpaced) Hdeadline _.
  destruct (receipts _ _) as [rs|e]; [|eauto].
  destruct (pull_call _ _ _ _ _ _ _) as [r w1] eqn:Hcall.
  destruct (pull_turn input round r) as [res|] eqn:Hturn; [eauto|].
  destruct (decide (deadline <= ro_now round)) as [Hle|Hgt].
  - unfold pull_call in Hcall. rewrite Hexp in Hcall by done. unfold fail in Hcall. simplify_eq.
    simpl in Hturn. by destruct (_ && _).
  - destruct rounds as [|round' rounds]; [simpl in *; lia|].
    eapply IH; [exact Hpaced| |simpl; lia].
    change (length (round :: round' :: rounds)) with (S (length (round' :: rounds))) in Hdeadline.
    nia.
Qed.

Lemma pull_loop_no_wait (repo : QueueRepository D) app sub input round rounds w :
  pi_WaitSeconds input = 0 ->
  exists r w', pull_loop repo app sub input (round :: rounds) w = Some (r, w').
Proof using Type.
  clear. intros Hwait. simpl. destruct (receipts _ _) as [rs|e]; [|eauto].
  destruct (pull_call _ _ _ _ _ _ _) as [[items|e] w1]; simpl; rewrite Hwait; simpl;
    rewrite ?orb_true_r; eauto.
Qed.

(** A pull ends. With a wait of n seconds the loop returns, a result or an
    error, within 10 n + 1 turns, and without a wait in its first turn. *)
Theorem pull_terminates app sub input rounds start w :
  (0 < pi_WaitSeconds input -> paced (start + seconds (pi_WaitSeconds input)) start rounds) ->
  10 * pi_WaitSeconds input + 1 <= Z.of_nat (length rounds) ->
  exists r w', Pull service app sub input rounds w = Some (r, w').
Proof using Type.
  clear Hlaws. intros Hpaced Hlen. unfold Pull. destruct (svc_repository service); [|eauto].
  destruct (valid_pull app sub input) eqn:Hvalid; [|eauto].
  unfold valid_pull in Hvalid. bool_to_prop. destruct_and!. bool_to_prop.
  destruct (decide (pi_WaitSeconds input = 0)) as [Hz|Hnz].
  - destruct rounds as [|round rounds]; [simpl in *; lia|]. by apply pull_loop_no_wait.
  - eapply pull_loop_ends; [apply Hpaced; lia| |lia].
    rewrite seconds_small by lia. unfold Second, Millisecond, Microsecond. lia.
Qed.

End service.

(** ** Validation and the database *)

(** What the service validates is what the table's CHECK constraints ask. *)
Lemma valid_subscription_check item :
  validQueueSubscription item = true -> 0 < sub_PolicyVersion item ->
  (isNone (sub_PausedAt item) || sub_Enabled item) = true -> drain_order item = true ->
  subscription_check item = true.
Proof.
  unfold validQueueSubscription, subscription_check, between. intros Hv Hver Hpaused Hdrain.
  destruct (_ || containsSecretField _) eqn:Hbig in Hv; [done|].
  destruct (match sub_MaxDispatchRate item with Some _ => _ | None => _ end) eqn:Hrate in Hv; [done|].
  rewrite Hpaused, Hdrain. bool_to_prop. destruct_and!. bool_to_prop.
  assert (match sub_OrderingMode item with QueueOrderingOther _ => false | _ => true end = true)
    as ->.
  { destruct (sub_OrderingMode item); try done. naive_solver. }
  destruct (sub_MaxDispatchRate item); bool_to_prop; split_and!; auto; lia.
Qed.

Section stored.
Context `{Postgres, NetLib}.
Context (auditWriter : option (AuditRecord -> M_queue unit)).
Context (Haudit : forall append, auditWriter = Some append -> forall record, reads (append record)).
Context (service : QueueService QueueDB).
Context (Hservice : svc_repository service = Some (postgres_repository auditWriter)).

Lemma audit_reads app action kind id changed :
  reads (audit service (postgres_repository auditWriter) app action kind id changed).
Proof using Haudit.
  clear Hservice. unfold audit. simpl. destruct auditWriter as [append|] eqn:E; [|done].
  apply on_error_reads; [by apply (Haudit append)|]. done.
Qed.

(** After the repository call, the audit record. *)
Lemma then_audit {A} (a : A) app action kind id changed w :
  exists w', (audit service (postgres_repository auditWriter) app action kind id changed;; mret a) w
             = (Ok a, w') /\ w_db w' = w_db w.
Proof using Haudit.
  clear Hservice. destruct (audit_never_fails service (postgres_repository auditWriter) app action kind id changed w)
    as ([] & w1 & Hrun).
  exists w1. split; [by apply bind_ok; eauto|].
  pose proof (audit_reads app action kind id changed w) as Hdb. by rewrite Hrun in Hdb.
Qed.

Lemma run_then_audit {A B} (m : M_queue A) (f : A -> B) a app action kind id changed w w1 :
  m w = (Ok a, w1) ->
  exists w', (a ← m; audit service (postgres_repository auditWriter) app action kind id changed;;
              mret (f a)) w = (Ok (f a), w') /\ w_db w' = w_db w1.
Proof using Haudit.
  clear Hservice. intros Hrun.
  destruct (then_audit (f a) app action kind id changed w1) as (w' & Haud & Hdb).
  exists w'. split; [|done]. apply bind_ok. eauto.
Qed.

(** The subscription [Create] builds. *)
Definition created_item (appID : string) (input : QueueSubscriptionInput) : QueueSubscription :=
  identify (svc_NewID service) appID 1 (svc_Now service) (svc_Now service) None None None None
    (subscriptionFromInput input).

Lemma metadata_not_empty input : sub_ResultCallbackMetadata (subscriptionFromInput input) <> "".
Proof using Type. clear. simpl. by case_bool_decide. Qed.

(** What the service accepts, the database stores. When the input passes
    validation, the application exists, and neither the fresh identifier nor the
    name is taken, [Create] succeeds (no CHECK constraint of the table can refuse
    the row) and stores exactly the subscription it returns, with its metadata in
    jsonb form. *)
Theorem create_stores appID input w meta :
  appID <> "" ->
  validQueueSubscription (created_item appID input) = true ->
  validQueueCallbacks service (created_item appID input) = true ->
  to_jsonb (sub_ResultCallbackMetadata (created_item appID input)) = Some meta ->
  w_faults w = [] -> appID ∈ applications (w_db w) ->
  queue_subscriptions (w_db w) !! svc_NewID service = None ->
  name_taken (created_item appID input) (queue_subscriptions (w_db w)) = false ->
  exists w', Create service appID input w = (Ok (created_item appID input), w')
  /\ w_db w' = set_subscriptions (<[svc_NewID service :=
       set_metadata meta (created_item appID input)]> (queue_subscriptions (w_db w))) (w_db w).
Proof using Haudit Hservice.
  intros Happ Hvalid Hcb Hmeta Hfaults Hin Hfresh Hname.
  unfold Create, with_repository. rewrite Hservice, bool_decide_eq_false_2 by done.
  change (identify _ _ _ _ _ _ _ _ _ _) with (created_item appID input).
  set (item := created_item appID input) in *. rewrite Hvalid, Hcb. cbn [andb require].
  assert (subscription_check (set_metadata meta item) = true) as Hcheck
    by (apply (valid_subscription_check item); done).
  assert (map_store_error (CreateQueueSubscription item) w = (Ok tt, mkWorld
    (set_subscriptions (<[svc_NewID service := set_metadata meta item]>
       (queue_subscriptions (w_db w))) (w_db w)) [] (w_locked w))) as Hrun.
  { unfold map_store_error, on_error, CreateQueueSubscription, unique_conflict, on_error, exec.
    assert (default_metadata item = item) as ->
      by (unfold default_metadata; by rewrite bool_decide_eq_false_2 by apply metadata_not_empty).
    rewrite Hfaults. unfold insert_subscription. rewrite Hmeta, Hcheck. cbn [negb].
    change (sub_ID (set_metadata meta item)) with (svc_NewID service). rewrite Hfresh.
    change (name_taken (set_metadata meta item)) with (name_taken item). rewrite Hname. cbn [orb isSome isNone negb].
    change (sub_AppID (set_metadata meta item)) with appID. by rewrite bool_decide_eq_true_2. }
  destruct (run_then_audit _ (fun _ => item) _ appID "queue.subscription.create"
    "queue_subscription" (sub_ID item) ["created"] _ _ Hrun) as (w' & Haud & Hdb).
  by exists w'.
Qed.

(** The repository's update of a row that passes the CHECK constraints. *)
Lemma store_update_run item version db locked cur meta :
  let row := updated_subscription cur item meta in
  sub_ResultCallbackMetadata item <> "" ->
  to_jsonb (sub_ResultCallbackMetadata item) = Some meta ->
  get_subscription (sub_AppID item) (sub_ID item) db = Some cur ->
  subscription_check row = true ->
  UpdateQueueSubscription item version (mkWorld db [] locked) =
    if negb (sub_PolicyVersion cur =? version) || name_taken row (queue_subscriptions db)
    then (Err StoreConflict, mkWorld db [] locked)
    else (Ok row, mkWorld (set_subscriptions (<[sub_ID cur := row]> (queue_subscriptions db)) db)
                    [] locked).
Proof using Type.
  clear. intros row Hne Hmeta Hget Hcheck. unfold UpdateQueueSubscription.
  assert (default_metadata item = item) as ->
    by (unfold default_metadata; by rewrite bool_decide_eq_false_2).
  unfold on_error, exec, update_subscription. simpl. rewrite Hmeta, Hget.
  destruct (sub_PolicyVersion cur =? version); simpl.
  - unfold put_subscription. fold row. rewrite Hcheck. simpl.
    by destruct (name_taken row (queue_subscriptions db)).
  - unfold GetQueueSubscription, scanQueueSubscription, query_row, exec, mbind, M_bind. simpl.
    by rewrite Hget.
Qed.

Lemma service_get_run app id db locked :
  map_store_error (GetQueueSubscription app id) (mkWorld db [] locked)
  = (match get_subscription app id db with Some s => Ok s | None => Err ErrNotFound end,
     mkWorld db [] locked).
Proof using Type.
  clear. unfold map_store_error, on_error, GetQueueSubscription, scanQueueSubscription, query_row,
    exec. simpl. by destruct (get_subscription app id db).
Qed.

Lemma updated_row_check cur input meta :
  subscription_check cur = true -> validQueueSubscription (updated_item service cur input) = true ->
  subscription_check (updated_subscription cur (updated_item service cur input) meta) = true.
Proof using Type.
  clear. intros Hcur Hvalid.
  assert (0 < sub_PolicyVersion cur /\ (isNone (sub_PausedAt cur) || sub_Enabled cur) = true
          /\ drain_order cur = true) as (Hver & Hpaused & Hdrain).
  { unfold subscription_check in Hcur.
    apply andb_true_iff in Hcur as [[[_ Hver]%andb_true_iff ?]%andb_true_iff ?].
    split_and!; [by apply Z.ltb_lt|done..]. }
  set (item := updated_item service cur input) in *.
  change (subscription_check (updated_subscription cur item (sub_ResultCallbackMetadata item))
          = true).
  apply valid_subscription_check.
  - exact Hvalid.
  - simpl. lia.
  - simpl. destruct (default true (in_Enabled input)); simpl; [by rewrite orb_true_r|done].
  - exact Hdrain.
Qed.

(** [Update] up to the repository's update. *)
Lemma update_reads_first appID id expectedVersion input db locked :
  appID <> "" -> id <> "" -> 1 <= expectedVersion ->
  Update service appID id expectedVersion input (mkWorld db [] locked) =
    match get_subscription appID id db with
    | None => (Err ErrNotFound, mkWorld db [] locked)
    | Some cur =>
        let item := updated_item service cur input in
        require (validQueueSubscription item && validQueueCallbacks service item) (
          stored ← map_store_error (UpdateQueueSubscription item expectedVersion);
          audit service (postgres_repository auditWriter) appID "queue.subscription.update"
            "queue_subscription" id ["policy"];;
          mret stored) (mkWorld db [] locked)
    end.
Proof using Hservice.
  intros Happ Hid Hver. unfold Update, with_repository. rewrite Hservice.
  rewrite !bool_decide_eq_false_2 by done. rewrite (proj2 (Z.ltb_ge _ _)) by lia.
  cbn [orb negb require]. unfold mbind at 1, M_bind at 1.
  cbn [repo_GetQueueSubscription postgres_repository]. rewrite service_get_run.
  by destruct (get_subscription appID id db).
Qed.

(** [Update], on every branch. In a database that satisfies the invariant,
    with the database up: an unknown subscription is reported as not found, an
    input that does not validate as invalid, a stale version or a taken name as a
    conflict, each without effect; otherwise the row takes the new policy with
    the next version, keeps its identity, creation time and drain columns, and
    stays paused only if it is still enabled. *)
Theorem update_spec appID id expectedVersion input w meta :
  appID <> "" -> id <> "" -> 1 <= expectedVersion ->
  delivery_inv (w_db w) -> w_faults w = [] ->
  to_jsonb (sub_ResultCallbackMetadata (subscriptionFromInput input)) = Some meta ->
  exists w', match get_subscription appID id (w_db w) with
  | None => Update service appID id expectedVersion input w = (Err ErrNotFound, w')
            /\ w_db w' = w_db w
  | Some cur =>
      let item := updated_item service cur input in
      let row := updated_subscription cur item meta in
      if negb (validQueueSubscription item && validQueueCallbacks service item)
      then Update service appID id expectedVersion input w = (Err ErrInvalidInput, w')
           /\ w_db w' = w_db w
      else if negb (sub_PolicyVersion cur =? expectedVersion)
              || name_taken row (queue_subscriptions (w_db w))
      then Update service appID id expectedVersion input w = (Err ErrConflict, w')
           /\ w_db w' = w_db w
      else Update service appID id expectedVersion input w = (Ok row, w')
           /\ w_db w' = set_subscriptions (<[id := row]> (queue_subscriptions (w_db w))) (w_db w)
  end.
Proof using Haudit Hservice.
  intros Happ Hid Hver Hinv Hfaults Hmeta.
  destruct w as [db fs lk]. cbn [w_db w_faults w_locked] in *. subst fs.
  rewrite update_reads_first by done.
  destruct (get_subscription appID id db) as [cur|] eqn:Hget; [|eexists; split; reflexivity].
  pose proof (get_subscription_spec _ _ _ _ Hget) as [Hrow Happid].
  destruct (inv_subs _ Hinv _ _ Hrow) as [Hcid Hcheck].
  set (item := updated_item service cur input) in *. cbv zeta.
  destruct (validQueueSubscription item && validQueueCallbacks service item) eqn:Hv;
    [|eexists; split; reflexivity]. cbn [negb require].
  apply andb_true_iff in Hv as [Hvalid _].
  assert (get_subscription (sub_AppID item) (sub_ID item) db = Some cur) as Hitem
    by (cbn; by rewrite Hcid, Happid).
  pose proof (store_update_run item expectedVersion db lk cur meta (metadata_not_empty input)
    Hmeta Hitem (updated_row_check cur input meta Hcheck Hvalid)) as Hupd. cbv zeta in Hupd.
  destruct (negb _ || _).
  - eexists. unfold mbind at 1, M_bind at 1, map_store_error, on_error. rewrite Hupd.
    split; reflexivity.
  - rewrite Hcid in Hupd. eassert (map_store_error (UpdateQueueSubscription item expectedVersion)
      (mkWorld db [] lk) = (Ok _, _)) as Hrun
      by (unfold map_store_error, on_error; rewrite Hupd; reflexivity).
    destruct (run_then_audit _ (fun x => x) _ appID "queue.subscription.update"
      "queue_subscription" id ["policy"] _ _ Hrun) as (w' & Haud & Hdb). by exists w'.
Qed.

End stored.
