(* ===== verification/ScheduleClaims.v ===== *)
(** * Theorems about the scheduler service

    Schedules that the service accepts, and one run of the scheduler over the
    Postgres repository; then the evaluated instances of the service theorems. *)

From Stdlib Require Import Ascii String.
From S2P Require Import Prelude GoLib Crypto Json Domain QueueSchema QueueStore.
From S2P Require Import QueueLifecycle QueuePull QueueSettle QueueScheduler Classify.
From S2P Require Import QueueCallbacks QueueSystem QueueLifecycle QueueService ScheduleService.
From S2P Require Import ServiceClaims QueueSchedulerClaims.

Section schedules.
Context `{Postgres, NetLib, CronLib}.
Context (auditWriter : option (AuditRecord -> M_queue unit)).
Let repo := postgres_repository auditWriter.

Lemma schedule_from_input_ok app sub input from item :
  scheduleFromInput app sub input from = Ok item ->
  exists location spec,
    LoadLocation (sch_Timezone item) = Some location
    /\ cron_Parse (sch_CronExpression item) = Some spec
    /\ sch_NextRunAt item = cron_Next spec location from /\ from < sch_NextRunAt item
    /\ Minute <= cron_Next spec location (sch_NextRunAt item) - sch_NextRunAt item
    /\ scheduleQualifies (scheduleItem app sub input) = true
    /\ item = place "" (sch_NextRunAt item) None 0 zero_time zero_time
                (scheduleItem app sub input).
Proof using Type.
  clear repo. unfold scheduleFromInput.
  destruct (scheduleQualifies (scheduleItem app sub input)) eqn:Hq; [|done]. cbn [negb].
  destruct (LoadLocation _) as [location|] eqn:Hloc; [|done].
  destruct (bool_decide _); [done|]. destruct (cron_Parse _) as [spec|] eqn:Hspec; [|done].
  destruct (IsZero _ || _) eqn:Hz; [done|]. intros. simplify_eq. exists location, spec.
  apply orb_false_iff in Hz as [Hz Hgap]. unfold IsZero in Hz.
  apply Z.eqb_neq in Hz. apply Z.ltb_ge in Hgap.
  destruct (cron_Next_after spec location from) as [|Hafter]; [done|].
  cbn. split_and!; done.
Qed.

(** A schedule the service accepts is one the table stores and the scheduler
    can run. The first run is after the request, successive runs are a minute
    apart or more, and, when the subscription exists, identifier and name are
    free and the database is up, [CreateSchedule] stores the row (no CHECK
    constraint refuses it) and returns the schedule. *)
Theorem create_schedule_stores service app sub input item w data metadata s :
  svc_repository service = Some repo ->
  (forall append, auditWriter = Some append -> forall record, reads (append record)) ->
  scheduleFromInput app sub input (svc_Now service) = Ok item ->
  w_faults w = [] -> get_subscription app sub (w_db w) = Some s ->
  to_jsonb (sch_Data item) = Some data -> HasPrefix data "{" = true ->
  to_jsonb (sch_Metadata item) = Some metadata ->
  queue_schedules (w_db w) !! svc_NewID service = None ->
  (forall k r, queue_schedules (w_db w) !! k = Some r -> sr_name r <> sch_Name item) ->
  exists w' row, CreateSchedule service app sub input w
    = (Ok (place (svc_NewID service) (sch_NextRunAt item) None 1 (svc_Now service)
             (svc_Now service) item), w')
  /\ queue_schedules (w_db w') = <[svc_NewID service := row]> (queue_schedules (w_db w))
  /\ schedule_check row = true /\ sr_next_run_at row = sch_NextRunAt item
  /\ svc_Now service < sr_next_run_at row /\ sr_claim_token row = None.
Proof using Type.
  intros Hservice Haudit Hitem Hfaults Hsub Hdata Hobj Hmeta Hfresh Hname.
  pose proof (schedule_from_input_ok _ _ _ _ _ Hitem) as (_ & _ & _ & _ & _ & Hnext & _ & Hq & Hdef).
  unfold CreateSchedule, with_repository. rewrite Hservice, Hitem.
  set (item' := place (svc_NewID service) (sch_NextRunAt item) None 1 (svc_Now service)
                  (svc_Now service) item) in *.
  set (row := mkScheduleRow (svc_NewID service) app sub (sch_Name item) (sch_Enabled item)
    (sch_CronExpression item) (sch_Timezone item) (sch_EventType item) data
    (nullif_empty (sch_OrderingKey item)) (sch_Priority item) metadata (sch_NextRunAt item)
    None None None 0 1 (svc_Now service) (svc_Now service)).
  assert (sch_AppID item = app /\ sch_SubscriptionID item = sub) as [Happ Hsubid]
    by (rewrite Hdef; done).
  assert (schedule_check row = true) as Hcheck.
  { unfold schedule_check, between. cbn. rewrite Hobj. cbn.
    assert (-10 <= sch_Priority item <= 10) as Hprio.
    { rewrite Hdef. unfold scheduleQualifies in Hq. bool_to_prop. destruct_and!. cbn in *. lia. }
    rewrite !(proj2 (Z.leb_le _ _)) by lia. done. }
  assert (CreateQueueSchedule item' w = (Ok tt, mkWorld (set_schedules
    (<[svc_NewID service := row]> (queue_schedules (w_db w))) (w_db w)) [] (w_locked w))) as Hrun.
  { unfold CreateQueueSchedule, unique_conflict, on_error, exec. rewrite Hfaults.
    unfold insert_schedule. cbn [sch_Data sch_Metadata sch_AppID sch_SubscriptionID item' place].
    rewrite Hdata, Hmeta, Happ, Hsubid, Hsub. cbv zeta.
    change (mkScheduleRow _ _ _ _ _ _ _ _ _ _ _ _ _ _ _ _ _ _ _ _) with row. rewrite Hcheck.
    cbn [negb sr_id row]. rewrite Hfresh.
    assert (schedule_name_taken row (queue_schedules (w_db w)) = false) as ->; [|done].
    apply not_true_iff_false. intros Ht. apply existsb_exists in Ht as (r & Hin & Hr).
    apply list_elem_of_In, elem_of_rows in Hin as [k Hk]. bool_to_prop. destruct_and!.
    by apply (Hname _ _ Hk). }
  eassert (map_store_error (CreateQueueSchedule item') w = (Ok tt, _)) as Hrun'
    by (unfold map_store_error, on_error; rewrite Hrun; reflexivity).
  destruct (run_then_audit auditWriter Haudit service _ (fun _ => item') _ app
    "queue.schedule.create" "queue_schedule" (sch_ID item') ["created"] _ _ Hrun')
    as (w' & Haud & Hdb).
  exists w', row. split; [exact Haud|]. rewrite Hdb. done.
Qed.

(** ** One run of the scheduler *)

(** The occurrence of [r] that was due has been turned into an event: the row has
    moved to the next activation and released its claim. *)
Definition fired (r : Schedule) (db : QueueDB) : Prop :=
  exists r' location spec, queue_schedules db !! sr_id r = Some r'
  /\ LoadLocation (sr_timezone r) = Some location
  /\ cron_Parse (sr_cron_expression r) = Some spec
  /\ sr_next_run_at r' = cron_Next spec location (sr_next_run_at r)
  /\ sr_last_run_at r' = Some (sr_next_run_at r)
  /\ sr_claim_token r' = None /\ sr_claim_expires_at r' = None
  /\ is_Some (queue_schedule_occurrences db !! (sr_id r, sr_next_run_at r)).

(** The row as the claim left it: due again when the claim runs out. *)
Definition waiting (token : string) (until now : Z) (r : Schedule) (db : QueueDB) : Prop :=
  queue_schedules db !! sr_id r = Some (claim_schedule token until now r).

(** One item of a run. *)
Lemma run_item_ok now item w u w' :
  run_item repo now item w = (Ok u, w') -> queue_inv (w_db w) ->
  exists location spec r, LoadLocation (sch_Timezone item) = Some location
  /\ cron_Parse (sch_CronExpression item) = Some spec
  /\ queue_schedules (w_db w) !! sch_ID item = Some r
  /\ sr_next_run_at r = sch_NextRunAt item
  /\ (exists r', queue_schedules (w_db w') = <[sch_ID item := r']> (queue_schedules (w_db w))
      /\ sr_next_run_at r' = cron_Next spec location (sch_NextRunAt item)
      /\ sr_last_run_at r' = Some (sch_NextRunAt item)
      /\ sr_claim_token r' = None /\ sr_claim_expires_at r' = None)
  /\ queue_schedule_occurrences (w_db w) ⊆ queue_schedule_occurrences (w_db w')
  /\ is_Some (queue_schedule_occurrences (w_db w') !! (sch_ID item, sch_NextRunAt item)).
Proof using Type.
  unfold run_item. destruct (LoadLocation _) as [location|]; [|done].
  destruct (cron_Parse _) as [spec|]; [|done]. cbn. intros Hrun Hinv.
  apply complete_run in Hrun as (r & Hr & _ & _ & Hnext & Hsch & Hocc); [|done]. cbn in *.
  destruct (sch_row _ (qi_schedule _ Hinv) _ _ Hr) as [Hid _].
  exists location, spec, r. rewrite Hid in Hocc.
  split_and!; try done.
  - eexists. split; [exact Hsch|]. done.
  - case_match; [destruct Hocc as (_ & _ & ->); done|]. destruct Hocc as [_ ->].
    by apply insert_subseteq.
  - case_match; [destruct Hocc as (_ & _ & ->); eauto|]. destruct Hocc as [_ ->].
    by rewrite lookup_insert_eq.
Qed.

Lemma run_item_err now item w e w' :
  run_item repo now item w = (Err e, w') -> w_db w' = w_db w.
Proof using Type.
  unfold run_item. destruct (LoadLocation _); [|by intros; unfold fail in *; simplify_eq].
  destruct (cron_Parse _); [|by intros; unfold fail in *; simplify_eq].
  cbn. apply transaction_err_db.
Qed.

Lemma run_item_inv now item w res w' :
  run_item repo now item w = (res, w') -> queue_inv (w_db w) -> queue_inv (w_db w').
Proof using Type.
  unfold run_item. destruct (LoadLocation _); [|by intros; unfold fail in *; simplify_eq].
  destruct (cron_Parse _); [|by intros; unfold fail in *; simplify_eq].
  cbn. intros Hrun Hinv. by apply complete_step in Hrun as [? _].
Qed.

(** Running a list of claimed schedules: each has fired or is left as it was, the
    rows of other schedules are untouched, and if the run succeeds all have
    fired. *)
Lemma run_items_spec token until now clock rs w res w' :
  run_items repo clock (scanQueueSchedule ∘ claim_schedule token until now <$> rs) w = (res, w') ->
  queue_inv (w_db w) -> NoDup (sr_id <$> rs) ->
  Forall (fun r => waiting token until now r (w_db w)) rs ->
  Forall (fun r => fired r (w_db w') \/ waiting token until now r (w_db w')) rs
  /\ (res = Ok tt -> Forall (fun r => fired r (w_db w')) rs)
  /\ (forall k, k ∉ (sr_id <$> rs) ->
      queue_schedules (w_db w') !! k = queue_schedules (w_db w) !! k)
  /\ queue_schedule_occurrences (w_db w) ⊆ queue_schedule_occurrences (w_db w').
Proof using Type.
  revert clock w. induction rs as [|r rs IH]; intros clock w; cbn -[run_item].
  { intros Hrun _ _ _. unfold mret, M_ret in Hrun. simplify_eq. done. }
  intros Hrun Hinv [Hni Hnd]%NoDup_cons [Hr Hrs]%Forall_cons.
  unfold mbind, M_bind in Hrun. destruct (run_item _ _ _ w) as [[u|e] w1] eqn:Hitem.
  - pose proof (run_item_inv _ _ _ _ _ Hitem Hinv) as Hinv1.
    apply run_item_ok in Hitem as (location & spec & r0 & Hloc & Hspec & Hr0 & Hn0
      & (r' & Hsch & Hnext & Hlast & Htok & Hexp) & Hocc & Hrec); [|done]. cbn in *.
    apply IH in Hrun as (Hall & Hok & Hother & Hocc'); [|done..|].
    + assert (fired r (w_db w')) as Hfired.
      { exists r', location, spec. rewrite Hother by done. rewrite Hsch, lookup_insert_eq.
        destruct Hrec as [x Hx]. split_and!; try done. exists x. by eapply lookup_weaken. }
      split_and!; [by constructor; [left|]|intros ->; constructor; auto| |by etrans].
      intros k [Hne Hk]%not_elem_of_cons. rewrite Hother by done. rewrite Hsch.
      by rewrite lookup_insert_ne.
    + rewrite Forall_forall in Hrs |- *. intros r2 Hin. unfold waiting. rewrite Hsch.
      rewrite lookup_insert_ne; [by apply Hrs|]. intros Heq. apply Hni. rewrite Heq.
      apply list_elem_of_fmap. eauto.
  - apply run_item_err in Hitem. simplify_eq. rewrite Hitem.
    split_and!; [|done..]. constructor; [by right|]. eapply Forall_impl; [exact Hrs|]. by right.
Qed.

Lemma due_schedules_NoDup now limit locked db :
  schedule_inv db -> NoDup (sr_id <$> due_schedules now limit locked db).
Proof using Type.
  clear repo auditWriter. intros Hinv. unfold due_schedules.
  eapply sublist_NoDup; [|apply fmap_sublist; etrans; [apply sublist_take|apply filter_sublist]].
  rewrite merge_sort_Permutation. apply select_keys_NoDup. intros k r Hk.
  by destruct (sch_row _ Hinv _ _ Hk).
Qed.

Lemma due_schedules_row now limit locked db r :
  schedule_inv db -> r ∈ due_schedules now limit locked db -> queue_schedules db !! sr_id r = Some r.
Proof using Type.
  clear repo auditWriter. intros Hinv Hin. unfold due_schedules in Hin.
  eapply elem_of_sublist in Hin; [|apply sublist_take].
  apply elem_of_filter_list in Hin as [Hin _]. rewrite merge_sort_Permutation in Hin.
  apply elem_of_select in Hin as [_ [k Hk]]. by destruct (sch_row _ Hinv _ _ Hk) as [-> _].
Qed.

(** The claim of a run. *)
Lemma claim_due_run now until token limit w res w' :
  ClaimDueQueueSchedules now until token limit w = (res, w') -> schedule_inv (w_db w) ->
  match res with
  | Err _ => w_db w' = w_db w
  | Ok items =>
      let due := due_schedules now limit (w_locked w) (w_db w) in
      items = scanQueueSchedule ∘ claim_schedule token until now <$> due
      /\ Forall (fun r => waiting token until now r (w_db w')) due
      /\ forall k, k ∉ (sr_id <$> due) ->
          queue_schedules (w_db w') !! k = queue_schedules (w_db w) !! k
  end.
Proof using Type.
  clear repo auditWriter. intros Hrun Hinv. destruct res as [items|e]; [|by apply exec_err in Hrun].
  unfold ClaimDueQueueSchedules in Hrun. apply exec_ok in Hrun as (Hstmt & _ & _).
  destruct (limit <? 0); [done|]. injection Hstmt as <- Hdb. rewrite <- Hdb.
  split_and!; [done| |].
  - apply Forall_forall. intros r Hr. unfold waiting. cbn -[update_where].
    rewrite lookup_update_where, (due_schedules_row _ _ _ _ _ Hinv Hr). simpl.
    rewrite bool_decide_eq_true_2; [done|]. apply list_elem_of_fmap. eauto.
  - intros k Hk. cbn -[update_where]. rewrite lookup_update_where.
    destruct (queue_schedules (w_db w) !! k) as [r|] eqn:Hr; [|done]. simpl.
    destruct (sch_row _ Hinv _ _ Hr) as [-> _]. by rewrite bool_decide_eq_false_2.
Qed.

(** A schedule that is to fire: enabled, its time come, under no claim that still
    runs, for a subscription of its application that is enabled, not paused and not
    draining. *)
Definition to_fire (now : Z) (db : QueueDB) (r : Schedule) : Prop :=
  sr_enabled r = true /\ sr_next_run_at r <= now
  /\ (forall until, sr_claim_expires_at r = Some until -> until <= now)
  /\ exists s, queue_subscriptions db !! sr_subscription_id r = Some s /\ sub_AppID s = sr_app_id r
     /\ sub_Enabled s = true /\ sub_PausedAt s = None /\ sub_DrainingAt s = None.
Lemma due_to_fire now db r : schedule_due now db r = true -> to_fire now db r.
Proof using Type.
  clear repo auditWriter. unfold schedule_due, to_fire. destruct (queue_subscriptions db !! _) as [s|]; [|by rewrite andb_false_r].
  intros Hd. bool_to_prop. destruct Hd as [[[Hen Hnext] Hclaim] Hsub]. destruct_and!. split_and!; [done|lia| |].
  - intros u Hu. rewrite Hu in Hclaim. cbn in Hclaim. destruct Hclaim as [|Hle]; [done|lia].
  - exists s. by destruct (sub_PausedAt s), (sub_DrainingAt s).
Qed.
Lemma due_schedules_due now limit locked db r :
  r ∈ due_schedules now limit locked db -> to_fire now db r.
Proof using Type.
  clear repo auditWriter. intros Hin. unfold due_schedules in Hin.
  eapply elem_of_sublist in Hin; [|apply sublist_take].
  apply elem_of_filter_list in Hin as [Hin _]. rewrite merge_sort_Permutation in Hin.
  apply elem_of_select in Hin as [Hd _]. by apply due_to_fire.
Qed.

(** The row of [r] still waits for its time, under a claim with this token and end;
    nothing else of it has changed. *)
Definition held_until (token : string) (until now : Z) (r : Schedule) (db : QueueDB) : Prop :=
  queue_schedules db !! sr_id r = Some (mkScheduleRow (sr_id r) (sr_app_id r) (sr_subscription_id r)
    (sr_name r) (sr_enabled r) (sr_cron_expression r) (sr_timezone r) (sr_event_type r) (sr_data r)
    (sr_ordering_key r) (sr_priority r) (sr_metadata r) (sr_next_run_at r) (sr_last_run_at r)
    (Some token) (Some until) (sr_claim_generation r + 1) (sr_policy_version r) (sr_created_at r) now).
Lemma waiting_held token until now r db : waiting token until now r db -> held_until token until now r db.
Proof using Type. done. Qed.

(** C10: one run of the scheduler. Whatever fails, every schedule that was due and
    claimed (at most 32) has either fired, with its occurrence recorded, its next
    activation stored and its claim released, or waits for the same activation under
    this run's claim, which runs out fifteen seconds after the start, to be due again
    then; a run without error has fired them all; no other schedule changes. Due are
    enabled schedules whose time has come, that no claim holds and whose subscription
    takes deliveries. *)
Theorem run_once_spec uuid now clock w res w' :
  runOnce repo uuid now clock w = (res, w') -> queue_inv (w_db w) ->
  let due := due_schedules now 32 (w_locked w) (w_db w) in
  (w_db w' = w_db w /\ exists e, res = Err e)
  \/ (Forall (fun r => fired r (w_db w')
                       \/ held_until ("qclaim_" ++ uuid) (now + 15 * Second) now r (w_db w')) due
      /\ (res = Ok tt -> Forall (fun r => fired r (w_db w')) due)
      /\ (forall k, k ∉ (sr_id <$> due) ->
          queue_schedules (w_db w') !! k = queue_schedules (w_db w) !! k)
      /\ (length due <= 32)%nat /\ Forall (to_fire now (w_db w)) due).
Proof using Type.
  intros Hrun Hinv. unfold runOnce, mbind, M_bind in Hrun. cbn [repo_ClaimDueQueueSchedules repo
    postgres_repository] in Hrun.
  destruct (ClaimDueQueueSchedules _ _ _ _ w) as [res1 w1] eqn:Hclaim.
  assert (queue_inv (w_db w1)) as Hinv1.
  { pose proof (claim_schedules_keeps now (now + 15 * Second) ("qclaim_" ++ uuid) 32 w Hinv)
      as [Hk _]. by rewrite Hclaim in Hk. }
  apply claim_due_run in Hclaim; [|apply Hinv]. destruct res1 as [items|e].
  - destruct Hclaim as (-> & Hwait & Hother). right.
    apply run_items_spec in Hrun as (Hall & Hok & Hrest & _);
      [|done|by apply due_schedules_NoDup, Hinv|done].
    split_and!; [|done| | |].
    + eapply Forall_impl; [exact Hall|]. intros r [Hf|Hw]; [by left|right]. by apply waiting_held.
    + intros k Hk. by rewrite Hrest, Hother.
    + unfold due_schedules. rewrite length_take. lia.
    + apply Forall_forall. intros r. apply due_schedules_due.
  - simplify_eq. left. eauto.
Qed.

End schedules.

(** ** Evaluated instances *)

#[export] Instance demo_net : NetLib := {
  url_Parse text :=
    match CutPrefix text "https://" with
    | Some host => Some (mkURL "https" host host None "")
    | None => None
    end;
  net_ParseIP _ := None
}.

(** Every minute of UTC. *)
Lemma next_minute t : (t `div` Minute + 1) * Minute = zero_time \/ t < (t `div` Minute + 1) * Minute.
Proof. right. pose proof (Z.mul_succ_div_gt t Minute eq_refl). lia. Qed.
#[export] Instance demo_cron : CronLib := {
  Location := unit;
  LoadLocation name := if bool_decide (name = "UTC") then Some tt else None;
  CronSchedule := unit;
  cron_Parse text := if bool_decide (text = "* * * * *") then Some tt else None;
  cron_Next _ _ t := (t `div` Minute + 1) * Minute;
  cron_Next_after _ _ t := next_minute t
}.

Definition demo_service : QueueService QueueDB :=
  mkService (Some (postgres_repository None)) false (at_second 10) (at_second 11) "sub_new".

Lemma demo_laws repo : svc_repository demo_service = Some repo -> RepositoryLaws repo.
Proof. intros [= <-]. apply postgres_laws. Qed.

Definition stale_replay : service_op := SvcReplayDeadLetters "app_a" "sub_1" ["qdl_1"; "qdl_1"].
Definition stale_world : World QueueDB := (run_service demo_service stale_replay (world demo_db)).2.

Lemma stale_replay_run :
  run_service demo_service stale_replay (world demo_db) = (Err ErrInvalidInput, stale_world).
Proof. vm_compute. reflexivity. Qed.

Lemma service_failure_changes_nothing_witness : w_db stale_world = demo_db.
Proof.
  apply (service_failure_changes_nothing demo_service demo_laws stale_replay (world demo_db)
           ErrInvalidInput stale_world stale_replay_run).
Defined.

(** A pull of one delivery with a thirty-two byte random block. *)
Definition demo_random : list ascii := map (fun n => chr (Z.of_nat n)) (seq 0 64).
Definition demo_round (random : list ascii) : PullRound (D:=QueueDB) :=
  mkRound random (at_second 10) (fun w => w) false false false TimerFired.
Definition demo_pull_input : QueuePullInput := mkPullInput 2 0 0.
Definition demo_pulled : option (res (list QueueDelivery) * World QueueDB) :=
  Pull demo_service "app_a" "sub_1" demo_pull_input [demo_round demo_random] (world demo_db).
Definition demo_items : list QueueDelivery :=
  match demo_pulled with Some (Ok items, _) => items | _ => [] end.
Definition demo_after : World QueueDB :=
  match demo_pulled with Some (_, w) => w | None => world demo_db end.

Lemma demo_service_pulled : demo_pulled = Some (Ok demo_items, demo_after) /\ length demo_items = 2%nat.
Proof. vm_compute. split; reflexivity. Qed.

Definition acknowledge (d : QueueDelivery) : QueueSettleItem :=
  mkSettleItem (qd_Receipt d) QueueAcknowledge 0 "".

Lemma demo_fresh :
  Forall (fun round => forall rs,
    receipts (Z.to_nat (pi_MaxMessages demo_pull_input)) (ro_random round) = Ok rs -> NoDup rs)
    [demo_round demo_random].
Proof.
  constructor; [|constructor]. intros rs Hrs. vm_compute in Hrs. injection Hrs as <-.
  apply NoDup_ListNoDup. repeat constructor; simpl; naive_solver.
Qed.

Lemma pulled_receipts_settle_witness :
  Settle demo_service "app_a" "sub_1" (acknowledge <$> demo_items) demo_after
  = map_store_error (SettleQueueDeliveries "app_a" "sub_1"
      (settlement_of <$> (acknowledge <$> demo_items)) (at_second 10)) demo_after.
Proof.
  apply (pulled_receipts_settle demo_service demo_laws (postgres_repository None) "app_a" "sub_1"
    demo_pull_input [demo_round demo_random] (world demo_db) demo_items demo_after acknowledge
    demo_after).
  - reflexivity.
  - apply demo_service_pulled.
  - intros Hnil. pose proof (proj2 demo_service_pulled) as Hlen. rewrite Hnil in Hlen. discriminate.
  - exact demo_fresh.
  - intros d. simpl. split; [reflexivity|]. split; [lia|]. split; [discriminate|]. left. reflexivity.
Defined.

(** Eleven turns, one every hundred milliseconds, of a pull that waits a second. *)
Definition slow_round (i : nat) : PullRound (D:=QueueDB) :=
  mkRound demo_random (at_second 10 + 100 * Millisecond * Z.of_nat i) (fun w => w)
    (10 <=? Z.of_nat i) true false TimerFired.
Definition slow_rounds : list (PullRound (D:=QueueDB)) := slow_round <$> seq 0 11.

Lemma pull_terminates_witness :
  exists r w', Pull demo_service "app_a" "sub_1" (mkPullInput 2 1 0) slow_rounds (world demo_db)
               = Some (r, w').
Proof.
  apply (pull_terminates demo_service "app_a" "sub_1" (mkPullInput 2 1 0) slow_rounds
           (at_second 10) (world demo_db)).
  - intros _. vm_compute. repeat split; try discriminate; intros Hle; exfalso; by apply Hle.
  - vm_compute. discriminate.
Defined.

Definition demo_input (name : string) : QueueSubscriptionInput :=
  mkSubscriptionInput name None ["b"; " a "] 0 0 0 0 0 0 0 None (QueueOrderingOther "") 0 None
    (Some "https://a.example/cb") None "".

Lemma create_stores_witness :
  exists w', Create demo_service "app_a" (demo_input "billing") (world demo_db)
             = (Ok (created_item demo_service "app_a" (demo_input "billing")), w')
  /\ w_db w' = set_subscriptions (<["sub_new" := set_metadata "{}"
       (created_item demo_service "app_a" (demo_input "billing"))]> (queue_subscriptions demo_db))
       demo_db.
Proof.
  apply (create_stores None ltac:(discriminate) demo_service eq_refl "app_a" (demo_input "billing")
           (world demo_db) "{}"); try (vm_compute; reflexivity).
  discriminate.
Defined.

Lemma update_spec_witness :
  exists w', Update demo_service "app_a" "sub_1" 7 (demo_input "orders") (world demo_db)
             = (Err ErrConflict, w') /\ w_db w' = demo_db.
Proof.
  destruct (update_spec None ltac:(discriminate) demo_service eq_refl "app_a" "sub_1" 7
    (demo_input "orders") (world demo_db) "{}") as (w' & Hrun).
  - discriminate.
  - discriminate.
  - lia.
  - exact demo_inv.
  - reflexivity.
  - vm_compute. reflexivity.
  - exists w'. exact Hrun.
Defined.

Definition demo_schedule_input : QueueScheduleInput :=
  mkScheduleInput "every-minute" None "* * * * *" "UTC" "tick" "{}" "" 0 "".
Definition demo_schedule_item : QueueSchedule :=
  match scheduleFromInput "app_a" "sub_1" demo_schedule_input (at_second 10) with
  | Ok item => item
  | Err _ => scheduleItem "app_a" "sub_1" demo_schedule_input
  end.

Lemma create_schedule_stores_witness :
  exists w' row, CreateSchedule demo_service "app_a" "sub_1" demo_schedule_input (world demo_db)
    = (Ok (place (svc_NewID demo_service) (sch_NextRunAt demo_schedule_item) None 1
             (svc_Now demo_service) (svc_Now demo_service) demo_schedule_item), w')
  /\ queue_schedules (w_db w')
     = <[svc_NewID demo_service := row]> (queue_schedules (w_db (world demo_db)))
  /\ schedule_check row = true /\ sr_next_run_at row = sch_NextRunAt demo_schedule_item
  /\ svc_Now demo_service < sr_next_run_at row /\ sr_claim_token row = None.
Proof.
  refine (create_schedule_stores None demo_service "app_a" "sub_1" demo_schedule_input
    demo_schedule_item (world demo_db) "{}" "{}" demo_subscription _ _ _ _ _ _ _ _ _ _).
  - reflexivity.
  - discriminate.
  - vm_compute. reflexivity.
  - reflexivity.
  - vm_compute. reflexivity.
  - vm_compute. reflexivity.
  - vm_compute. reflexivity.
  - vm_compute. reflexivity.
  - vm_compute. reflexivity.
  - intros k r. vm_compute. discriminate.
Defined.

(** A due schedule that runs every minute. *)
Definition minute_schedule : Schedule :=
  mkScheduleRow "qsch_1" "app_a" "sub_1" "every-minute" true "* * * * *" "UTC" "tick" "{}" None
    0 "{}" (at_second 100) None None None 0 1 (at_second 0) (at_second 0).
Definition minute_db : QueueDB := set_schedules {["qsch_1" := minute_schedule]} demo_db.

Lemma minute_inv : queue_inv (w_db (world minute_db)).
Proof.
  split.
  - apply delivery_inv_b_sound. vm_compute. reflexivity.
  - split.
    + simpl. intros k r [<- <-]%lookup_singleton_Some. vm_compute. done.
    + intros k k' e. simpl. by rewrite lookup_empty.
  - split; intros *; simpl; rewrite lookup_empty; discriminate.
Qed.

Definition minute_run : res unit * World QueueDB :=
  runOnce (postgres_repository None) "u1" (at_second 200) (fun _ => at_second 200)
    (world minute_db).

Lemma run_once_spec_witness : Forall (fun r => fired r (w_db minute_run.2)) [minute_schedule].
Proof.
  destruct (run_once_spec None "u1" (at_second 200) (fun _ => at_second 200) (world minute_db)
    minute_run.1 minute_run.2) as [(_ & e & He)|(_ & Hok & _)].
  - unfold minute_run. by destruct (runOnce _ _ _ _ _).
  - exact minute_inv.
  - vm_compute in He. discriminate.
  - assert (due_schedules (at_second 200) 32 ∅ minute_db = [minute_schedule]) as Hdue
      by (vm_compute; reflexivity).
    rewrite <- Hdue. apply Hok. vm_compute. reflexivity.
Defined.
