(* ===== verification/AdminCursor.v ===== *)
(** * Cursors of the administration lists ([adminread/cursor.go])

    A cursor is the position after the last row of a page, with a fingerprint of the
    filters, written as JSON in base 64. *)

From Stdlib Require Import Ascii String.
From S2P Require Import Prelude GoLib Crypto Json JsonEncode.

Definition CursorVersion : Z := 1.
Definition MaxCursorLength : Z := 512.
Definition DefaultPageSize : Z := 25.
Definition MaxPageSize : Z := 100.

Record Cursor := mkCursor {
  cu_Version : Z;
  cu_Timestamp : Z;
  cu_ID : string;
  cu_FilterFingerprint : string
}.
Record cursorEnvelope := mkCursorEnvelope {
  cue_Version : Z;
  cue_AtUS : Z;
  cue_ID : string;
  cue_Filter : string
}.

Definition FilterFingerprint (parts : list string) : string :=
  sha256_hex (foldr (fun part rest => part ++ String (chr 0) rest) "" parts).

(** [Time.UnixMicro] and [time.UnixMicro]. *)
Definition UnixMicro (t : Z) : Z := t `div` Microsecond.
Definition FromUnixMicro (us : Z) : Z := us * Microsecond.

(** An identifier a cursor can hold. *)
Definition cursor_id_ok (id : string) : bool :=
  negb (bool_decide (id = "")) && negb (256 <? len id) && bool_decide (TrimSpace id = id).

Definition EncodeCursor (cursor : Cursor) : res string :=
  if IsZero (cu_Timestamp cursor) || negb (cursor_id_ok (cu_ID cursor))
     || negb (len (cu_FilterFingerprint cursor) =? 64)
  then Err ErrInvalidCursor else
  let raw := json_object [("v", SInt CursorVersion); ("at_us", SInt (UnixMicro (cu_Timestamp cursor)));
                          ("id", SStr (cu_ID cursor)); ("filter", SStr (cu_FilterFingerprint cursor))] in
  let encoded := b64_EncodeToString raw in
  if MaxCursorLength <? len encoded then Err ErrInvalidCursor else Ok encoded.

(** ** Decoding into a struct

    [encoding/json] matches the names of fields without regard to case (U+017F
    folds to s and U+212A to k), leaves a field alone for [null], and keeps the last
    of repeated fields. *)
Fixpoint fold_name (l : list ascii) : list ascii :=
  match l with
  | [] => []
  | a :: l1 =>
      let plain := (if is_upper a then chr (code a + 32) else a) :: fold_name l1 in
      match l1 with
      | b :: l2 =>
          if (code a =? 197) && (code b =? 191) then "s"%char :: fold_name l2
          else match l2 with
          | c :: l3 => if (code a =? 226) && (code b =? 132) && (code c =? 170)
                       then "k"%char :: fold_name l3 else plain
          | [] => plain
          end
      | [] => plain
      end
  end.
Definition names_field (key field : string) : bool :=
  bool_decide (fold_name (bytes key) = bytes field).

(** The value a field takes, [None] for one of another type. *)
Definition into_int (v : json) (old : Z) : option Z :=
  match v with JNum lit => parse_int64 lit | JNull => Some old | _ => None end.
Definition into_string (v : json) (old : string) : option string :=
  match v with JStr s => Some s | JNull => Some old | _ => None end.

(** One member of the object; an unknown name is an error. *)
Definition set_field (e : cursorEnvelope) (m : string * json) : option cursorEnvelope :=
  let (key, v) := m in
  if names_field key "v" then
    (fun z => mkCursorEnvelope z (cue_AtUS e) (cue_ID e) (cue_Filter e)) <$> into_int v (cue_Version e)
  else if names_field key "at_us" then
    (fun z => mkCursorEnvelope (cue_Version e) z (cue_ID e) (cue_Filter e)) <$> into_int v (cue_AtUS e)
  else if names_field key "id" then
    (fun s => mkCursorEnvelope (cue_Version e) (cue_AtUS e) s (cue_Filter e))
      <$> into_string v (cue_ID e)
  else if names_field key "filter" then
    (fun s => mkCursorEnvelope (cue_Version e) (cue_AtUS e) (cue_ID e) s)
      <$> into_string v (cue_Filter e)
  else None.
Definition decode_envelope (v : json) : option cursorEnvelope :=
  let zero := mkCursorEnvelope 0 0 "" "" in
  match v with
  | JObj ms => fold_left (fun o m => e ← o; set_field e m) ms (Some zero)
  | JNull => Some zero
  | _ => None
  end.

(** The decoder reads one value; [ensureJSONEOF] refuses anything after it. *)
Definition DecodeCursor (raw expectedFingerprint : string) : res Cursor :=
  if bool_decide (raw = "") || (MaxCursorLength <? len raw) || negb (len expectedFingerprint =? 64)
  then Err ErrInvalidCursor else
  match b64_DecodeString raw with
  | None => Err ErrInvalidCursor
  | Some decoded =>
      if MaxCursorLength <? len decoded then Err ErrInvalidCursor else
      match json_parse decoded ≫= decode_envelope with
      | None => Err ErrInvalidCursor
      | Some e =>
          if negb (cue_Version e =? CursorVersion) || (cue_AtUS e <=? 0) || negb (cursor_id_ok (cue_ID e))
             || negb (bool_decide (cue_Filter e = expectedFingerprint))
          then Err ErrInvalidCursor
          else Ok (mkCursor (cue_Version e) (FromUnixMicro (cue_AtUS e)) (cue_ID e) (cue_Filter e))
      end
  end.

(** ** What was encoded is decoded *)

Lemma b64_encode_length l : (length l <= length (b64_encode l))%nat.
Proof. induction l using list_ind3; cbn [b64_encode length] in *; lia. Qed.

Lemma coerce_text s : utf8_Valid s = true -> coerce s = s.
Proof. intros H. unfold coerce. by rewrite coerce_valid, of_bytes_bytes. Qed.

Lemma encode_cursor_ok c raw :
  EncodeCursor c = Ok raw ->
  cursor_id_ok (cu_ID c) = true /\ len (cu_FilterFingerprint c) = 64 /\ len raw <= MaxCursorLength
  /\ raw = b64_EncodeToString (json_object
       [("v", SInt CursorVersion); ("at_us", SInt (UnixMicro (cu_Timestamp c)));
        ("id", SStr (cu_ID c)); ("filter", SStr (cu_FilterFingerprint c))]).
Proof.
  unfold EncodeCursor. case_match eqn:Hc; [done|]. case_match eqn:Hl; [done|]. intros [= <-].
  bool_to_prop. destruct_and!. split_and!; try done; lia.
Qed.

Lemma decode_fields version at_us id filter :
  decode_envelope (JObj [("v", JNum version); ("at_us", JNum at_us); ("id", JStr id);
                         ("filter", JStr filter)])
  = v ← parse_int64 version; us ← parse_int64 at_us; Some (mkCursorEnvelope v us id filter).
Proof.
  unfold decode_envelope. cbn [fold_left set_field].
  unfold into_int. destruct (parse_int64 version); [|done]. by destruct (parse_int64 at_us).
Qed.

(** Decoding what was encoded, up to microseconds, under the same filters only. *)
Lemma decode_encode c raw fingerprint :
  EncodeCursor c = Ok raw -> 0 < UnixMicro (cu_Timestamp c) < 2 ^ 63 ->
  utf8_Valid (cu_ID c) = true -> utf8_Valid (cu_FilterFingerprint c) = true ->
  DecodeCursor raw fingerprint
  = if bool_decide (cu_FilterFingerprint c = fingerprint)
    then Ok (mkCursor CursorVersion (FromUnixMicro (UnixMicro (cu_Timestamp c))) (cu_ID c) fingerprint)
    else Err ErrInvalidCursor.
Proof.
  intros Henc Hus Hid Hfilter. apply encode_cursor_ok in Henc as (Hok & Hlen & Hshort & ->).
  set (text := json_object _) in *. unfold DecodeCursor.
  assert (len text <= len (b64_EncodeToString text)) as Hle.
  { rewrite !len_bytes. unfold b64_EncodeToString. rewrite bytes_of_bytes.
    pose proof (b64_encode_length (bytes text)). lia. }
  assert ((MaxCursorLength <? len (b64_EncodeToString text)) = false) as -> by lia.
  rewrite bool_decide_eq_false_2 by (intros Heq; rewrite Heq in Hle; by destruct Hle).
  rewrite b64_roundtrip. assert ((MaxCursorLength <? len text) = false) as -> by lia.
  unfold text. rewrite parse_json_object by (simpl; rewrite andb_true_r; lia).
  assert (in_int64 (UnixMicro (cu_Timestamp c)) = true) as Hr by (unfold in_int64; lia).
  cbn [mbind option_bind]. cbn [fmap list_fmap fst snd scalar_json].
  change (coerce "v") with "v". change (coerce "at_us") with "at_us". change (coerce "id") with "id".
  change (coerce "filter") with "filter". rewrite !coerce_text by done.
  rewrite decode_fields, !parse_decimal by (lia || done). cbn [mbind option_bind].
  cbn [cue_Version cue_AtUS cue_ID cue_Filter]. rewrite Hok, Z.eqb_refl.
  assert ((UnixMicro (cu_Timestamp c) <=? 0) = false) as -> by lia. cbn [negb orb].
  case_bool_decide as Hf; cbn [negb]; [|by destruct (len fingerprint =? 64)].
  rewrite <- Hf, Hlen. done.
Qed.

(** Whatever a client sends, a cursor that is accepted has the form of one that was
    written for these filters. *)
Lemma decode_sound raw fingerprint c :
  DecodeCursor raw fingerprint = Ok c ->
  cu_Version c = CursorVersion /\ 0 < cu_Timestamp c /\ cursor_id_ok (cu_ID c) = true
  /\ cu_FilterFingerprint c = fingerprint.
Proof.
  unfold DecodeCursor. case_match; [done|]. case_match; [|done]. case_match; [done|].
  destruct (json_parse _ ≫= _) as [e|]; [|done]. case_match eqn:Hc; [done|]. intros [= <-].
  bool_to_prop. destruct_and!. simpl. unfold FromUnixMicro, Microsecond. split_and!; try done; lia.
Qed.
