(* ===== verification/Auth.v ===== *)
(** * Request signatures, tokens and passwords ([auth])

    [Signature] is [auth/signature.go], [Token] is [auth/token.go] and [Password] is
    [auth/password.go]. A secret is a byte string; the key derivation of
    [golang.org/x/crypto/pbkdf2] and the randomness are arguments. *)

From Stdlib Require Import Ascii String.
From S2P Require Import Prelude GoLib Crypto Json JsonEncode Domain AdminCursor.

Module Signature.

Inductive AuthenticationErrorKind :=
| AuthenticationMalformed | AuthenticationTimestampExpired | AuthenticationSignatureInvalid.

(** The text that is signed. *)
Definition canonical (timestamp method requestTarget body : string) : string :=
  let nl := String (chr 10) "" in
  timestamp ++ nl ++ method ++ nl ++ requestTarget ++ nl ++ hex_EncodeToString (sha256 body).

Definition Sign (secret timestamp method requestTarget body : string) : string :=
  hex_EncodeToString (hmac_sha256 secret (canonical timestamp method requestTarget body)).

(** The loop ranges over the runes of [value] and writes the byte at the start of
    each; the other bytes of a rune stay zero in the result. *)
Fixpoint lower_from (inside : nat) (l : list ascii) : list ascii :=
  match l with
  | [] => []
  | c :: l' =>
      match inside with
      | S n => chr 0 :: lower_from n l'
      | O => (if is_upper c then chr (code c + 32) else c) :: lower_from (pred (lead l)) l'
      end
  end.
Definition stringLower (value : string) : string := of_bytes (lower_from 0 (bytes value)).

(** [now] and [maxSkew] are nanoseconds; [None] is success. *)
Definition Verify (secret timestamp method requestTarget signature body : string) (now maxSkew : Z)
    : option AuthenticationErrorKind :=
  match parse_int64 timestamp with
  | None => Some AuthenticationMalformed
  | Some unixSeconds =>
      if bool_decide (timestamp = "") || (maxSkew <? 0) then Some AuthenticationMalformed else
      if negb (len signature =? 32 * 2) || negb (bool_decide (signature = stringLower signature))
      then Some AuthenticationMalformed else
      match hex_DecodeString signature with
      | None => Some AuthenticationMalformed
      | Some provided =>
          if negb (len provided =? 32) then Some AuthenticationMalformed else
          let deltaSeconds := wrap64 (now `div` Second - unixSeconds) in
          let maxSkewSeconds := maxSkew `quot` Second in
          if (maxSkewSeconds <? deltaSeconds) || (deltaSeconds <? wrap64 (- maxSkewSeconds))
          then Some AuthenticationTimestampExpired else
          match hex_DecodeString (Sign secret timestamp method requestTarget body) with
          | None => Some AuthenticationMalformed
          | Some expected =>
              if bool_decide (expected = provided) then None else Some AuthenticationSignatureInvalid
          end
      end
  end.

End Signature.

Module Token.

Definition MaxTokenTTL : Z := 15 * Minute.

Inductive token_error := ErrInvalidToken | ErrTokenExpired | ErrMissingScope | ErrInvalidScope | ErrInvalidTTL.

Record Claims := mkClaims {
  cl_Version : Z;
  cl_AppID : string;
  cl_Scopes : list string;
  cl_IssuedAt : Z;
  cl_ExpiresAt : Z;
  cl_ClientID : string;
  cl_Channels : gmap string (list string)
}.

(** The issuer keeps a copy of its secret. *)
Record TokenIssuer := mkIssuer { ti_secret : string }.
Definition NewTokenIssuer (secret : string) : TokenIssuer := mkIssuer secret.

(** ** The payload *)

(** A slice that is filled by the JSON decoder: what has been written into its
    backing array, and how much of it is in use. *)
Record slice := mkSlice { sl_backing : list string; sl_len : nat }.
Definition slice_value (s : slice) : list string := take (sl_len s) (sl_backing s).
Definition nil_slice : slice := mkSlice [] 0.

Record tokenClaims := mkTokenClaims {
  tc_Version : Z;
  tc_AppID : string;
  tc_Scopes : slice;
  tc_IssuedAt : Z;
  tc_ExpiresAt : Z;
  tc_ClientID : string;
  tc_Channels : gmap string (list string)
}.
Definition zero_claims : tokenClaims := mkTokenClaims 0 "" nil_slice 0 0 "" ∅.

(** [json.Marshal]: a nil slice is null, an object lists the keys of a map in
    order, [omitempty] leaves out what is empty. *)
Definition slice_json (l : list string) : json :=
  match l with [] => JNull | _ => JArr (map JStr l) end.
Definition channels_json (channels : gmap string (list string)) : json :=
  JObj ((fun k => (k, slice_json (default [] (channels !! k))))
          <$> sort_strings (map_to_list channels).*1).
Definition claims_json (version : Z) (appID : string) (scopes : list string) (iat exp : Z)
    (clientID : string) (channels : gmap string (list string)) : json :=
  JObj ([("v", JNum (decimal version)); ("app_id", JStr appID); ("scopes", slice_json scopes);
         ("iat", JNum (decimal iat)); ("exp", JNum (decimal exp))]
        ++ (if bool_decide (clientID = "") then [] else [("client_id", JStr clientID)])
        ++ (if bool_decide (channels = ∅) then [] else [("channels", channels_json channels)]))%list.

(** [json.Unmarshal] into a slice of strings: the elements are decoded over what
    the backing array holds, an empty array is a fresh one. *)
Fixpoint into_elems (vs : list json) (old : list string) : option (list string) :=
  match vs with
  | [] => Some old
  | v :: vs' =>
      s ← into_string v (default "" (head old));
      rest ← into_elems vs' (tail old);
      Some (s :: rest)
  end.
Definition into_slice (v : json) (old : slice) : option slice :=
  match v with
  | JNull => Some nil_slice
  | JArr [] => Some nil_slice
  | JArr vs => (fun l => mkSlice l (length vs)) <$> into_elems vs (sl_backing old)
  | _ => None
  end.
(** A map keeps its other keys; a value is decoded into a fresh slice. *)
Definition into_channels (v : json) (old : gmap string (list string)) : option (gmap string (list string)) :=
  match v with
  | JNull => Some ∅
  | JObj ms => fold_left (fun o m => c ← o; s ← into_slice m.2 nil_slice; Some (<[m.1 := slice_value s]> c))
                 ms (Some old)
  | _ => None
  end.

(** One member of the object; unknown names are skipped. *)
Definition set_claim (e : tokenClaims) (m : string * json) : option tokenClaims :=
  let (key, v) := m in
  let '(mkTokenClaims ver app scopes iat exp client channels) := e in
  if names_field key "v" then
    (fun z => mkTokenClaims z app scopes iat exp client channels) <$> into_int v ver
  else if names_field key "app_id" then
    (fun s => mkTokenClaims ver s scopes iat exp client channels) <$> into_string v app
  else if names_field key "scopes" then
    (fun s => mkTokenClaims ver app s iat exp client channels) <$> into_slice v scopes
  else if names_field key "iat" then
    (fun z => mkTokenClaims ver app scopes z exp client channels) <$> into_int v iat
  else if names_field key "exp" then
    (fun z => mkTokenClaims ver app scopes iat z client channels) <$> into_int v exp
  else if names_field key "client_id" then
    (fun s => mkTokenClaims ver app scopes iat exp s channels) <$> into_string v client
  else if names_field key "channels" then
    (fun c => mkTokenClaims ver app scopes iat exp client c) <$> into_channels v channels
  else Some e.
Definition decode_claims (v : json) : option tokenClaims :=
  match v with
  | JObj ms => fold_left (fun o m => e ← o; set_claim e m) ms (Some zero_claims)
  | JNull => Some zero_claims
  | _ => None
  end.

(** ** What may be claimed *)

Definition scope_part (part : string) : bool :=
  match bytes part with
  | [] => false
  | c :: l => is_lower c && forallb (fun c => is_lower c || is_digit c) l
  end.
Definition validScope (scope : string) : bool :=
  let parts := Split scope ":" in
  Nat.eqb (length parts) 2 && forallb scope_part parts.

(** The loop over the scopes with the set of those seen. *)
Fixpoint scopes_from (seen : list string) (scopes : list string) : bool :=
  match scopes with
  | [] => true
  | scope :: rest =>
      validScope scope && negb (bool_decide (scope ∈ seen)) && scopes_from (scope :: seen) rest
  end.
Definition validateScopes (scopes : list string) : bool :=
  negb (bool_decide (scopes = [])) && scopes_from [] scopes.

Definition containsScope (scopes : list string) (required : string) : bool := bool_decide (required ∈ scopes).

Definition validClientID (value : string) : bool :=
  negb (bool_decide (value = "")) && (len value <=? 128)
  && forallb (fun c => is_lower c || is_upper c || is_digit c || is_one_of "_.:-" c) (bytes value).

Definition allowed : list string :=
  ["subscribe"; "publish"; "presence"; "history"; "annotate"; "file.publish"; "push.manage"].
Fixpoint actions_from (seen : list string) (actions : list string) : bool :=
  match actions with
  | [] => true
  | action :: rest =>
      bool_decide (action ∈ allowed) && negb (bool_decide (action ∈ seen)) && actions_from (action :: seen) rest
  end.
Definition validateChannelCapabilities (channels : gmap string (list string)) : bool :=
  (0 <? Z.of_nat (size channels)) && (Z.of_nat (size channels) <=? 100)
  && forallb (fun ca => Channel.ValidRealtimeChannelGrant ca.1 && (0 <? Z.of_nat (length ca.2))
                        && (Z.of_nat (length ca.2) <=? Z.of_nat (length allowed)) && actions_from [] ca.2)
       (map_to_list channels).

(** ** Issuing *)

Definition header : string := json_object [("alg", SStr "HS256"); ("typ", SStr "RHT")].

Definition tokenSignature (issuer : TokenIssuer) (input : string) : string := hmac_sha256 (ti_secret issuer) input.

(** [issuer.now()] is [now], in nanoseconds. *)
Definition issue (issuer : TokenIssuer) (now : Z) (appID : string) (scopes : list string)
    (clientID : string) (channels : gmap string (list string)) (ttl : Z) : string + token_error :=
  if bool_decide (appID = "") then inr ErrInvalidToken else
  if (ttl <=? 0) || (MaxTokenTTL <? ttl) || negb (ttl `rem` Second =? 0) then inr ErrInvalidTTL else
  if negb (validateScopes scopes) then inr ErrInvalidScope else
  let iat := now `div` Second in
  let exp := (iat * Second + ttl) `div` Second in
  let payload := json_Marshal (claims_json 1 appID scopes iat exp clientID channels) in
  let signingInput := b64_EncodeToString header ++ "." ++ b64_EncodeToString payload in
  inl (signingInput ++ "." ++ b64_EncodeToString (tokenSignature issuer signingInput)).

Definition Issue (issuer : TokenIssuer) (now : Z) (appID : string) (scopes : list string) (ttl : Z)
    : string + token_error :=
  issue issuer now appID scopes "" ∅ ttl.

Definition IssueRealtime (issuer : TokenIssuer) (now : Z) (appID clientID : string)
    (channels : gmap string (list string)) (ttl : Z) : string + token_error :=
  if negb (validClientID clientID) || negb (validateChannelCapabilities channels) then inr ErrInvalidToken
  else issue issuer now appID ["ws:connect"] clientID channels ttl.

(** ** Verifying *)

(** The checks on the decoded payload. *)
Definition check_claims (now : Z) (requiredScope : string) (e : tokenClaims) : Claims + token_error :=
  let scopes := slice_value (tc_Scopes e) in
  if negb (tc_Version e =? 1) || bool_decide (tc_AppID e = "") || (tc_ExpiresAt e <=? tc_IssuedAt e)
     || (MaxTokenTTL `quot` Second <? wrap64 (tc_ExpiresAt e - tc_IssuedAt e))
  then inr ErrInvalidToken else
  if negb (validateScopes scopes) then inr ErrInvalidToken else
  if negb (Bool.eqb (bool_decide (tc_ClientID e = "")) (Nat.eqb (size (tc_Channels e)) 0))
     || negb (bool_decide (tc_ClientID e = ""))
        && (negb (validClientID (tc_ClientID e)) || negb (validateChannelCapabilities (tc_Channels e)))
  then inr ErrInvalidToken else
  if tc_ExpiresAt e <=? now `div` Second then inr ErrTokenExpired else
  if negb (bool_decide (requiredScope = "")) && negb (containsScope scopes requiredScope)
  then inr ErrMissingScope else
  inl (mkClaims (tc_Version e) (tc_AppID e) scopes (tc_IssuedAt e * Second) (tc_ExpiresAt e * Second)
         (tc_ClientID e) (tc_Channels e)).

Definition TokenIssuer_Verify (issuer : TokenIssuer) (now : Z) (token requiredScope : string) : Claims + token_error :=
  match Split token "." with
  | [p0; p1; p2] =>
      if bool_decide (p0 = "") || bool_decide (p1 = "") || bool_decide (p2 = "") then inr ErrInvalidToken else
      match b64_DecodeString p2 with
      | None => inr ErrInvalidToken
      | Some provided =>
          if negb (len provided =? 32) then inr ErrInvalidToken else
          if negb (bool_decide (tokenSignature issuer (p0 ++ "." ++ p1) = provided)) then inr ErrInvalidToken else
          match b64_DecodeString p0 with
          | None => inr ErrInvalidToken
          | Some h =>
              if negb (bool_decide (h = header)) then inr ErrInvalidToken else
              match b64_DecodeString p1 ≫= fun payload => json_parse payload ≫= decode_claims with
              | None => inr ErrInvalidToken
              | Some e => check_claims now requiredScope e
              end
          end
      end
  | _ => inr ErrInvalidToken
  end.

End Token.

Module Password.

Definition passwordAlgorithm : string := "pbkdf2-sha256".
Definition passwordIterations : Z := 210000.
Definition passwordSaltBytes : Z := 16.
Definition passwordKeyBytes : Z := 32.

Section password.
(** [pbkdf2.Key password salt iterations keyLen] with SHA-256. *)
Context (pbkdf2 : string -> string -> Z -> Z -> string).

(** [random] is what [io.ReadFull] reads, [None] when it fails. *)
Definition HashPassword (password : string) (random : option string) : option string :=
  if len (TrimSpace password) <? 12 then None else
  match random with
  | None => None
  | Some salt =>
      let key := pbkdf2 password salt passwordIterations passwordKeyBytes in
      Some (passwordAlgorithm ++ "$" ++ decimal passwordIterations ++ "$" ++ b64_EncodeToString salt
            ++ "$" ++ b64_EncodeToString key)
  end.

Definition VerifyPassword (encoded password : string) : bool :=
  match Split encoded "$" with
  | [p0; p1; p2; p3] =>
      if negb (bool_decide (p0 = passwordAlgorithm)) then false else
      match parse_int64 p1 with
      | None => false
      | Some iterations =>
          if (iterations <? 100000) || (1000000 <? iterations) then false else
          match b64_DecodeString p2 with
          | None => false
          | Some salt =>
              if len salt <? passwordSaltBytes then false else
              match b64_DecodeString p3 with
              | None => false
              | Some want =>
                  if negb (len want =? passwordKeyBytes) then false
                  else bool_decide (pbkdf2 password salt iterations (len want) = want)
              end
          end
      end
  | _ => false
  end.
End password.
End Password.

Example sign_ex :
  Signature.Sign "test-secret" "1770000000" "POST" "/api/v1/socket/token?audience=browser"
    (json_Marshal (JObj [("scopes", JArr [JStr "ws:connect"]); ("ttl_seconds", JNum "600")]))
  = "4b6a6ada471e93240169f8878e877be6aa8d8cbf764e48f4a9d1b3c2ffef82ca".
Proof. vm_compute. reflexivity. Qed.
