(* ===== verification/AuthClaims.v ===== *)
(** * What signatures, tokens and passwords guarantee *)

From Stdlib Require Import Ascii String ZifyBool.
From S2P Require Import Prelude GoLib Crypto Json JsonEncode Domain AdminCursor Auth.

(** ** Digests have 32 bytes *)

Lemma sha_round_length st kw : length (sha_round st kw) = length st.
Proof. unfold sha_round. by repeat case_match; subst. Qed.
Lemma sha_rounds_length kws st : length (fold_left sha_round kws st) = length st.
Proof. revert st. induction kws as [|kw kws IH]; intros st; [done|]. simpl. by rewrite IH, sha_round_length. Qed.
Lemma sha_blocks_length blocks st : length (fold_left sha_block blocks st) = length st.
Proof.
  revert st. induction blocks as [|b blocks IH]; intros st; [done|]. simpl. rewrite IH.
  unfold sha_block. rewrite length_zip_with, sha_rounds_length. lia.
Qed.
Lemma sha256_bytes_length l : length (sha256_bytes l) = 32%nat.
Proof.
  unfold sha256_bytes.
  assert (forall ws, length (ws ≫= be_bytes 4) = (4 * length ws)%nat) as ->.
  { induction ws as [|w ws IH]; [done|]. cbn [mbind list_bind length]. rewrite length_app.
    change (length (be_bytes 4 w)) with 4%nat. change (list_bind _ _ _ ws) with (ws ≫= be_bytes 4). lia. }
  by rewrite sha_blocks_length.
Qed.
Lemma hmac_length key msg : len (hmac_sha256 key msg) = 32.
Proof. unfold hmac_sha256. by rewrite len_bytes, bytes_of_bytes, length_map, sha256_bytes_length. Qed.

(** ** Hexadecimal text in lower case *)

Lemma lower_from_ascii l :
  forallb (fun c => code c <? 128) l = true ->
  Signature.lower_from 0 l = map (fun c => if is_upper c then chr (code c + 32) else c) l.
Proof.
  induction l as [|c l IH]; [done|]. intros H. apply andb_true_iff in H as [Hc H].
  cbn [Signature.lower_from map lead]. rewrite Hc. cbn [pred]. by rewrite IH.
Qed.

Definition hex_byte (c : ascii) : bool :=
  match hex_value c with
  | None => true
  | Some x => (code c <? 128) && (0 <=? x) && (x <? 16)
      && (negb (bool_decide ((if is_upper c then chr (code c + 32) else c) = c)) || bool_decide (hex_digit x = c))
  end.
Lemma hex_bytes c : hex_byte c = true.
Proof. apply (byte_cases (fun c => hex_byte c = true)). by vm_compute. Qed.

Lemma hex_value_byte c x :
  hex_value c = Some x -> code c < 128 /\ 0 <= x < 16
    /\ ((if is_upper c then chr (code c + 32) else c) = c -> hex_digit x = c).
Proof.
  intros H. pose proof (hex_bytes c) as Hc. unfold hex_byte in Hc. rewrite H in Hc.
  bool_to_prop. destruct Hc as [[[? ?] ?] Hd]. split_and!; [lia|lia|lia|]. intros Hu.
  destruct Hd as [Hd|Hd]; [by destruct Hd|done].
Qed.

Lemma hex_decode_lower l : forall r,
  hex_decode l = Some r ->
  forallb (fun c => code c <? 128) l = true
  /\ (map (fun c => if is_upper c then chr (code c + 32) else c) l = l -> hex_encode r = l).
Proof.
  induction l as [l IH] using (induction_ltof1 _ (@length ascii)). unfold ltof in IH. intros r.
  destruct l as [|a [|b l]]; [by intros [= <-]|done|]. cbn [hex_decode].
  destruct (hex_value a) as [x|] eqn:Ha; [|done]. destruct (hex_value b) as [y|] eqn:Hb; [|done].
  destruct (hex_decode l) as [r'|] eqn:Hl; [|done]. intros [= <-].
  apply hex_value_byte in Ha as (Ha & Hx & Hua), Hb as (Hb & Hy & Hub).
  destruct (IH l ltac:(simpl; lia) r' Hl) as [Hall Henc]. split.
  - cbn [forallb]. rewrite Hall. lia.
  - cbn [map]. intros [= Hla Hlb Hll]. cbn [hex_encode]. rewrite code_chr by lia.
    rewrite (Henc Hll). assert ((16 * x + y) `div` 16 = x) as -> by (Z.to_euclidean_division_equations; lia).
    assert ((16 * x + y) `mod` 16 = y) as -> by (Z.to_euclidean_division_equations; lia).
    by rewrite (Hua Hla), (Hub Hlb).
Qed.

(** A decoded text in lower case is the one the encoder writes. *)
Lemma hex_lower_canonical s p :
  hex_DecodeString s = Some p -> s = Signature.stringLower s -> s = hex_EncodeToString p.
Proof.
  unfold hex_DecodeString, Signature.stringLower, hex_EncodeToString. intros Hd Hl.
  destruct (hex_decode (bytes s)) as [r|] eqn:Hr; [|done]. injection Hd as <-.
  destruct (hex_decode_lower _ _ Hr) as [Hall Henc]. rewrite bytes_of_bytes.
  rewrite lower_from_ascii in Hl by done. rewrite Henc; [by rewrite of_bytes_bytes|].
  rewrite Hl at 2. by rewrite bytes_of_bytes.
Qed.
Lemma hex_encode_lower p : Signature.stringLower (hex_EncodeToString p) = hex_EncodeToString p.
Proof.
  unfold Signature.stringLower, hex_EncodeToString. rewrite bytes_of_bytes. f_equal.
  assert (forall n, code (hex_digit n) < 128 /\ is_upper (hex_digit n) = false) as Hd.
  { intros n. unfold hex_digit. destruct (nth_in_or_default (Z.to_nat n) hex_alphabet "0"%char) as [H| ->]; [|done].
    revert H. generalize (nth (Z.to_nat n) hex_alphabet "0"%char). apply List.Forall_forall.
    repeat (constructor; [done|]). constructor. }
  induction (bytes p) as [|c l IH]; [done|]. cbn [hex_encode].
  set (a := hex_digit _). set (b := hex_digit _). destruct (Hd (code c `div` 16)) as [Ha Hua].
  destruct (Hd (code c `mod` 16)) as [Hb Hub]. fold a in Ha, Hua. fold b in Hb, Hub.
  cbn [Signature.lower_from lead]. rewrite Hua, Hub.
  assert ((code a <? 128) = true) as -> by lia. assert ((code b <? 128) = true) as -> by lia. cbn [pred].
  by rewrite IH.
Qed.
Lemma hex_encode_len p : len (hex_EncodeToString p) = 2 * len p.
Proof. unfold hex_EncodeToString. rewrite !len_bytes, bytes_of_bytes, hex_encode_length. lia. Qed.

(** ** Signed requests *)

Section signature.
Context (secret timestamp method requestTarget signature body : string) (now maxSkew unixSeconds : Z).

(** C36: a request is accepted exactly when its signature is the one [Sign] computes
    over its timestamp, method, target and body, and its timestamp is within the
    allowed skew of the clock in either direction. The subtraction of the two times
    wraps at 64 bits, and no timestamp passes because of that. *)
Theorem signature_accepts_exactly :
  parse_int64 timestamp = Some unixSeconds -> 0 <= maxSkew < 2 ^ 63 -> 0 <= now < 2 ^ 63 ->
  (Signature.Verify secret timestamp method requestTarget signature body now maxSkew = None
   <-> signature = Signature.Sign secret timestamp method requestTarget body
       /\ - (maxSkew `quot` Second) <= now `div` Second - unixSeconds <= maxSkew `quot` Second).
Proof.
  intros Hts Hskew Hnow. unfold Signature.Verify. rewrite Hts.
  assert (in_int64 unixSeconds = true) as Hin.
  { unfold parse_int64 in Hts. apply bind_Some in Hts as (z & _ & Hz). by case_match; simplify_eq. }
  assert (bool_decide (timestamp = "") = false) as ->.
  { apply bool_decide_eq_false_2. by intros ->. }
  assert ((maxSkew <? 0) = false) as -> by lia. cbn [orb].
  assert (0 <= maxSkew `quot` Second < 2 ^ 62 /\ 0 <= now `div` Second <= 2 ^ 62) as [Hs Hn].
  { change Second with 1000000000. Z.to_euclidean_division_equations. lia. }
  assert (forall sk, 0 <= sk < 2 ^ 62 -> (sk <? wrap64 (now `div` Second - unixSeconds))
    || (wrap64 (now `div` Second - unixSeconds) <? wrap64 (- sk)) = false
    <-> - sk <= now `div` Second - unixSeconds <= sk) as Hdelta.
  { intros sk Hsk. rewrite (wrap64_small (- sk)) by lia. unfold in_int64 in Hin. unfold wrap64.
    rewrite orb_false_iff, !Z.ltb_ge. apply andb_true_iff in Hin as [Hlo%Z.leb_le Hhi%Z.ltb_lt].
    revert Hlo Hhi Hn Hsk. generalize (now `div` Second). clear. intros n.
    change (2 ^ 63) with 9223372036854775808. change (2 ^ 64) with 18446744073709551616.
    change (2 ^ 62) with 4611686018427387904. intros.
    pose proof (Z.mod_pos_bound (n - unixSeconds + 9223372036854775808) 18446744073709551616 ltac:(lia)).
    pose proof (Z.div_mod (n - unixSeconds + 9223372036854775808) 18446744073709551616 ltac:(lia)). lia. }
  specialize (Hdelta _ Hs). unfold Signature.Sign. rewrite hex_roundtrip.
  set (mac := hmac_sha256 _ _). assert (len mac = 32) as Hmac by apply hmac_length.
  destruct (negb (len signature =? 32 * 2) || negb (bool_decide (signature = Signature.stringLower signature)))
    eqn:Hshape.
  { split; [done|]. intros [-> _]. exfalso. rewrite hex_encode_len, hex_encode_lower, Hmac in Hshape.
    by rewrite bool_decide_eq_true_2 in Hshape. }
  bool_to_prop. destruct Hshape as [Hlen Hlow].
  destruct (hex_DecodeString signature) as [provided|] eqn:Hdec.
  2:{ split; [done|]. intros [-> _]. by rewrite hex_roundtrip in Hdec. }
  pose proof (hex_lower_canonical _ _ Hdec Hlow) as Hcanon.
  assert (len provided = 32) as -> by (rewrite Hcanon, hex_encode_len in Hlen; lia). cbn [negb Z.eqb].
  change (32 =? 32) with true. cbn [negb].
  destruct ((_ <? _) || _) eqn:Hd.
  - split; [done|]. intros [_ Hr]. apply Hdelta in Hr. lia.
  - rewrite Hcanon. split.
    + case_bool_decide as Heq; [|done]. intros _. subst provided. split; [done|]. apply Hdelta. lia.
    + intros [Heq _]. apply (f_equal hex_DecodeString) in Heq. rewrite !hex_roundtrip in Heq.
      rewrite bool_decide_eq_true_2 by congruence. done.
Qed.
End signature.

(** ** Encoded parts and their separators *)

Lemma b64_encode_alphabet l c : c ∈ b64_encode l -> c ∈ b64_alphabet.
Proof.
  assert (forall n, b64_digit n ∈ b64_alphabet) as Hd.
  { intros n. unfold b64_digit. destruct (nth_in_or_default (Z.to_nat n) b64_alphabet "A"%char) as [H| ->];
      apply list_elem_of_In; [done|]. by left. }
  induction l as [|a|a b|a b d l IH] using list_ind3; cbn [b64_encode]; rewrite ?elem_of_cons, ?elem_of_nil;
    intros H; destruct_or?; subst; auto; done.
Qed.
Lemma b64_without c s : bool_decide (c ∈ b64_alphabet) = false -> c ∉ bytes (b64_EncodeToString s).
Proof.
  unfold b64_EncodeToString. rewrite bytes_of_bytes. intros Hc H.
  apply b64_encode_alphabet in H. by rewrite bool_decide_eq_true_2 in Hc.
Qed.
Lemma b64_nonempty s : s <> "" -> b64_EncodeToString s <> "".
Proof.
  intros Hs H. apply (f_equal b64_DecodeString) in H. rewrite b64_roundtrip in H. by injection H.
Qed.

Lemma Split_cons c s t : c ∉ bytes s -> Split (s ++ String c t) c = s :: Split t c.
Proof.
  intros H. unfold Split. rewrite bytes_app. change (bytes (String c t)) with (c :: bytes t).
  rewrite split_bytes_app, split_bytes_single by done. simpl. by rewrite of_bytes_bytes.
Qed.
Lemma Split_one c s : c ∉ bytes s -> Split s c = [s].
Proof. intros H. unfold Split. rewrite split_bytes_single by done. simpl. by rewrite of_bytes_bytes. Qed.

(** ** Tokens *)

Module Tokens.
Import Token.

Lemma into_elems_strings ss old :
  into_elems (map JStr ss) old = Some (ss ++ drop (length ss) old)%list.
Proof.
  revert old. induction ss as [|s ss IH]; intros old; [done|]. cbn [map into_elems into_string mbind option_bind].
  rewrite IH. simpl. destruct old; simpl; by rewrite ?drop_nil.
Qed.
Lemma into_slice_json ss : slice_value <$> into_slice (slice_json ss) nil_slice = Some ss.
Proof.
  destruct ss as [|s ss]; [done|].
  change (into_slice (slice_json (s :: ss)) nil_slice)
    with ((fun l => mkSlice l (length (map JStr (s :: ss)))) <$> into_elems (map JStr (s :: ss)) []).
  rewrite into_elems_strings, drop_nil, app_nil_r. cbn [fmap option_fmap option_map].
  unfold slice_value. cbn [sl_len sl_backing]. by rewrite length_map, firstn_all.
Qed.

Lemma into_channels_members (channels : gmap string (list string)) ks (old : gmap string (list string)) :
  fold_left (fun o m => c ← o; s ← into_slice m.2 nil_slice; Some (<[m.1 := slice_value s]> c))
    ((fun k => (k, slice_json (default [] (channels !! k)))) <$> ks) (Some old)
  = Some (fold_left (fun c k => <[k := default [] (channels !! k)]> c) ks old).
Proof.
  revert old. induction ks as [|k ks IH]; intros old; [done|]. cbn [fmap list_fmap fold_left fst snd].
  pose proof (into_slice_json (default [] (channels !! k))) as Hs.
  destruct (into_slice _ nil_slice) as [s|]; [|done]. injection Hs as Hs.
  cbn [mbind option_bind]. rewrite Hs. by rewrite IH.
Qed.
Lemma insert_all_lookup (channels : gmap string (list string)) ks (old : gmap string (list string)) k :
  fold_left (fun c k => <[k := default [] (channels !! k)]> c) ks old !! k
  = if decide (k ∈ ks) then Some (default [] (channels !! k)) else old !! k.
Proof.
  revert old. induction ks as [|x ks IH]; intros old; cbn [fold_left].
  - by rewrite decide_False by apply not_elem_of_nil.
  - rewrite IH. repeat case_decide; try set_solver.
    + assert (k = x) as -> by set_solver. by rewrite lookup_insert_eq.
    + by rewrite lookup_insert_ne by set_solver.
Qed.
(** A map of capabilities is read back. *)
Lemma channels_read_back channels : into_channels (channels_json channels) ∅ = Some channels.
Proof.
  unfold into_channels, channels_json. rewrite into_channels_members. f_equal. apply map_eq. intros k.
  rewrite insert_all_lookup, lookup_empty.
  assert (k ∈ sort_strings (map_to_list channels).*1 <-> is_Some (channels !! k)) as Hk.
  { rewrite sort_strings_perm, list_elem_of_fmap. split.
    - intros ([k' v] & -> & H%elem_of_map_to_list). eauto.
    - intros [v Hv]. exists (k, v). by rewrite elem_of_map_to_list. }
  case_decide as H.
  - apply Hk in H as [v ->]. done.
  - symmetry. apply eq_None_not_Some. by rewrite <- Hk.
Qed.

(** The members the issuer writes reach their fields. *)
Lemma set_claim_fields ver app scopes iat exp client channels v :
  let e := mkTokenClaims ver app scopes iat exp client channels in
  set_claim e ("v", v) = (fun z => mkTokenClaims z app scopes iat exp client channels) <$> into_int v ver
  /\ set_claim e ("app_id", v) = (fun s => mkTokenClaims ver s scopes iat exp client channels) <$> into_string v app
  /\ set_claim e ("scopes", v) = (fun s => mkTokenClaims ver app s iat exp client channels) <$> into_slice v scopes
  /\ set_claim e ("iat", v) = (fun z => mkTokenClaims ver app scopes z exp client channels) <$> into_int v iat
  /\ set_claim e ("exp", v) = (fun z => mkTokenClaims ver app scopes iat z client channels) <$> into_int v exp
  /\ set_claim e ("client_id", v) = (fun s => mkTokenClaims ver app scopes iat exp s channels) <$> into_string v client
  /\ set_claim e ("channels", v) = mkTokenClaims ver app scopes iat exp client <$> into_channels v channels.
Proof. done. Qed.
Ltac set_field H :=
  cbn [app fold_left mbind option_bind];
  match goal with |- context [set_claim (mkTokenClaims ?a ?b ?c ?d ?e ?f ?g) (_, ?v)] =>
    destruct (set_claim_fields a b c d e f g v) as (Hf1 & Hf2 & Hf3 & Hf4 & Hf5 & Hf6 & Hf7);
    first [rewrite Hf1, H | rewrite Hf2, H | rewrite Hf3, H | rewrite Hf4, H | rewrite Hf5, H
          | rewrite Hf6, H | rewrite Hf7, H];
    clear Hf1 Hf2 Hf3 Hf4 Hf5 Hf6 Hf7; cbn [fmap option_fmap option_map]
  end.

Lemma set_claim_all j1 ja js ji je jc jh s ver app iat exp client channels :
  into_int j1 0 = Some ver -> into_string ja "" = Some app -> into_slice js nil_slice = Some s ->
  into_int ji 0 = Some iat -> into_int je 0 = Some exp ->
  (jc = None /\ client = "" \/ exists v, jc = Some v /\ into_string v "" = Some client) ->
  (jh = None /\ channels = ∅ \/ exists v, jh = Some v /\ into_channels v ∅ = Some channels) ->
  decode_claims (JObj ([("v", j1); ("app_id", ja); ("scopes", js); ("iat", ji); ("exp", je)]
    ++ match jc with None => [] | Some v => [("client_id", v)] end
    ++ match jh with None => [] | Some v => [("channels", v)] end)%list)
  = Some (mkTokenClaims ver app s iat exp client channels).
Proof.
  intros H1 Ha Hs Hi He Hc Hh. unfold decode_claims, zero_claims.
  set_field H1. set_field Ha. set_field Hs. set_field Hi. set_field He.
  destruct Hc as [[-> ->]|(vc & -> & Hc)]; [|set_field Hc];
    (destruct Hh as [[-> ->]|(vh & -> & Hh)]; [done|by set_field Hh]).
Qed.

Lemma claims_read_back appID scopes iat exp clientID channels :
  0 <= iat < 2 ^ 63 -> 0 <= exp < 2 ^ 63 ->
  exists s, slice_value s = scopes
    /\ decode_claims (claims_json 1 appID scopes iat exp clientID channels)
       = Some (mkTokenClaims 1 appID s iat exp clientID channels).
Proof.
  intros Hi He. pose proof (into_slice_json scopes) as Hs.
  destruct (into_slice (slice_json scopes) nil_slice) as [s|] eqn:Hsl; [|done]. injection Hs as Hs.
  exists s. split; [done|]. unfold claims_json.
  rewrite <- (set_claim_all (JNum (decimal 1)) (JStr appID) (slice_json scopes) (JNum (decimal iat))
    (JNum (decimal exp)) (if bool_decide (clientID = "") then None else Some (JStr clientID))
    (if bool_decide (channels = ∅) then None else Some (channels_json channels))).
  - by repeat case_bool_decide.
  - done.
  - done.
  - done.
  - apply parse_decimal; unfold in_int64; lia.
  - apply parse_decimal; unfold in_int64; lia.
  - case_bool_decide; [by left|right; eauto].
  - case_bool_decide; [by left|right]. eexists. split; [done|]. apply channels_read_back.
Qed.
(** *** What is claimed is ASCII text *)

Definition ascii_text (s : string) : Prop := forallb (fun c => code c <? 128) (bytes s) = true.

Lemma ascii_coerce s : ascii_text s -> coerce s = s.
Proof.
  intros H. apply coerce_text. unfold utf8_Valid. rewrite <- (app_nil_r (bytes s)).
  by rewrite (transparent_ascii _ H).
Qed.
Lemma split_bytes_cover c l x : x ∈ l -> x = c \/ exists p, p ∈ split_bytes c l /\ x ∈ p.
Proof.
  induction l as [|b l IH]; [by intros H%elem_of_nil|]. rewrite elem_of_cons. cbn [split_bytes]. intros Hx.
  destruct (decide (x = c)) as [->|Hne]; [by left|]. right.
  destruct (decide (b = c)) as [->|Hb].
  - destruct Hx as [?|Hx]; [done|]. destruct (IH Hx) as [?|(p & ? & ?)]; [done|]. exists p. split; [by right|done].
  - pose proof (split_bytes_ne c l) as Hne'. destruct (split_bytes c l) as [|q qs]; [done|].
    destruct Hx as [->|Hx]; [exists (b :: q); split; by left|].
    destruct (IH Hx) as [?|(p & [-> | Hp]%elem_of_cons & ?)]; [done| |];
      [exists (b :: q)|exists p]; (split; [by (left || right)|]); [by right|done].
Qed.
Lemma token_byte_ascii c :
  is_lower c || is_upper c || is_digit c || is_one_of "_.:-" c = true -> (code c <? 128) = true.
Proof.
  apply (byte_cases (fun c => is_lower c || is_upper c || is_digit c || is_one_of "_.:-" c = true
    -> (code c <? 128) = true)). by vm_compute.
Qed.

Lemma scope_ascii s : validScope s = true -> ascii_text s.
Proof.
  unfold validScope, Split, ascii_text. intros [_ H]%andb_true_iff. rewrite forallb_forall in H |- *.
  intros x Hx%list_elem_of_In. destruct (split_bytes_cover ":" _ _ Hx) as [-> | (p & Hp & Hxp)]; [done|].
  specialize (H (of_bytes p)). unfold scope_part in H. rewrite bytes_of_bytes in H.
  assert (forallb (fun c => is_lower c || is_digit c) p = true) as Hall.
  { specialize (H ltac:(apply list_elem_of_In, list_elem_of_fmap; eauto)). destruct p as [|c p]; [done|].
    apply andb_true_iff in H as [Hc Hp']. cbn [forallb]. by rewrite Hc, Hp'. }
  rewrite forallb_forall in Hall. apply list_elem_of_In, Hall in Hxp. apply token_byte_ascii.
  apply orb_true_iff in Hxp as [-> | ->]; by rewrite ?orb_true_r.
Qed.
Lemma client_ascii s : validClientID s = true -> ascii_text s.
Proof. unfold validClientID, ascii_text. intros [_ H]%andb_true_iff. eapply Channel.forallb_impl, H. apply token_byte_ascii. Qed.
Lemma channel_ascii s : Channel.ValidRealtimeChannel s = true -> ascii_text s.
Proof.
  intros [H _]%Channel.valid_channel_bytes. eapply Channel.forallb_impl, H. intros c Hc. apply token_byte_ascii.
  unfold Channel.channel_tail in Hc. bool_to_prop. naive_solver.
Qed.
Lemma grant_ascii s : Channel.ValidRealtimeChannelGrant s = true -> ascii_text s.
Proof.
  unfold Channel.ValidRealtimeChannelGrant. destruct (Channel.ValidRealtimeChannel s && _) eqn:Hv.
  { intros _. apply andb_true_iff in Hv as [? _]. by apply channel_ascii. }
  destruct (negb (HasSuffix s ":*") || _) eqn:Hsfx; [done|]. apply orb_false_iff in Hsfx as [Hsfx _].
  unfold HasSuffix in Hsfx. apply negb_false_iff, bool_decide_eq_true in Hsfx as [p Hp]. rewrite Hp. change (default s (Some p)) with p.
  intros H. apply andb_true_iff in H as [[_ H]%andb_true_iff _]. apply channel_ascii in H.
  apply CutSuffix_Some in Hp as ->. unfold ascii_text in *. by rewrite bytes_app, forallb_app, H.
Qed.

(** *** What was validated *)

Lemma scopes_from_spec seen scopes :
  scopes_from seen scopes = true ->
  NoDup scopes /\ Forall (fun s => validScope s = true /\ s ∉ seen) scopes.
Proof.
  revert seen. induction scopes as [|s scopes IH]; intros seen; [split; constructor|]. cbn [scopes_from].
  intros H. bool_to_prop. destruct H as [[Hs Hn] H]. destruct (IH _ H) as [Hnd Hall]. rewrite Forall_forall in Hall.
  split.
  - constructor; [|done]. intros Hin%Hall. set_solver.
  - constructor; [done|]. rewrite Forall_forall. intros x Hx%Hall. set_solver.
Qed.
Lemma actions_from_spec seen actions :
  actions_from seen actions = true ->
  NoDup actions /\ Forall (fun s => s ∈ allowed /\ s ∉ seen) actions.
Proof.
  revert seen. induction actions as [|s actions IH]; intros seen; [split; constructor|]. cbn [actions_from].
  intros H. bool_to_prop. destruct H as [[Hs Hn] H]. destruct (IH _ H) as [Hnd Hall]. rewrite Forall_forall in Hall.
  split.
  - constructor; [|done]. intros Hin%Hall. set_solver.
  - constructor; [done|]. rewrite Forall_forall. intros x Hx%Hall. set_solver.
Qed.

(** Scopes that may be claimed, and capabilities that may be granted. *)
Definition good_scopes (scopes : list string) : Prop :=
  scopes <> [] /\ NoDup scopes /\ forall s, s ∈ scopes -> validScope s = true.
Definition good_channels (channels : gmap string (list string)) : Prop :=
  (1 <= size channels <= 100)%nat
  /\ forall grant actions, channels !! grant = Some actions ->
       Channel.ValidRealtimeChannelGrant grant = true /\ actions <> [] /\ NoDup actions /\ actions ⊆ allowed.

Lemma validate_scopes_good scopes : validateScopes scopes = true -> good_scopes scopes.
Proof.
  unfold validateScopes. intros [Hne Hs]%andb_true_iff. apply scopes_from_spec in Hs as [Hnd Hall].
  rewrite Forall_forall in Hall. bool_to_prop. split_and!; [done|done|]. naive_solver.
Qed.
Lemma validate_channels_good channels : validateChannelCapabilities channels = true -> good_channels channels.
Proof.
  unfold validateChannelCapabilities. intros [[Hlo Hhi]%andb_true_iff H]%andb_true_iff. split; [lia|].
  intros grant actions Hga. rewrite forallb_forall in H.
  specialize (H (grant, actions) ltac:(by apply list_elem_of_In, elem_of_map_to_list)). cbn [fst snd] in H.
  apply andb_true_iff in H as [[[Hg Hpos]%andb_true_iff _]%andb_true_iff Ha].
  apply actions_from_spec in Ha as [Hnd Hall]. rewrite Forall_forall in Hall.
  split_and!; [done|by intros ->|done|]. intros x Hx%Hall. naive_solver.
Qed.

(** *** Reading back an issued payload *)

Lemma strings_written ss : Forall ascii_text ss -> written (slice_json ss) /\ (nesting (slice_json ss) <= 1)%nat.
Proof.
  intros H. destruct ss as [|s ss]; [split; [done|simpl; lia]|].
  change (slice_json (s :: ss)) with (JArr (map JStr (s :: ss))). cbn [written nesting].
  assert (foldr and True (map written (map JStr (s :: ss)))
    /\ foldr Nat.max 0%nat (map nesting (map JStr (s :: ss))) = 0%nat) as [? ->]; [|split; [done|lia]].
  induction H as [|x l Hx _ [IH1 IH2]]; [done|]. cbn. by rewrite IH2, (ascii_coerce x Hx).
Qed.

Lemma channels_written channels :
  good_channels channels -> written (channels_json channels) /\ (nesting (channels_json channels) <= 2)%nat.
Proof.
  intros [_ Hg]. unfold channels_json. cbn [written nesting].
  assert (forall ks, (forall k, k ∈ ks -> is_Some (channels !! k)) ->
    foldr and True (map (fun m => coerce m.1 = m.1 /\ written m.2)
      ((fun k => (k, slice_json (default [] (channels !! k)))) <$> ks))
    /\ (foldr Nat.max 0 (map (fun m => nesting m.2)
      ((fun k => (k, slice_json (default [] (channels !! k)))) <$> ks)) <= 1)%nat) as Hks.
  { induction ks as [|k ks IH]; intros Hin; [split; [done|simpl; lia]|].
    destruct IH as [IH1 IH2]; [intros; apply Hin; by right|].
    destruct (Hin k ltac:(by left)) as [acts Hk]. destruct (Hg _ _ Hk) as (Hgr & _ & _ & Hal).
    cbn [fmap list_fmap map foldr fst snd]. rewrite Hk. change (default [] (Some acts)) with acts.
    destruct (strings_written acts) as [Hw Hn].
    { rewrite Forall_forall. intros a Ha%Hal. revert a Ha. apply Forall_forall. by repeat constructor. }
    split; [|lia]. split; [|done]. split; [by apply ascii_coerce, grant_ascii|done]. }
  destruct (Hks (sort_strings (map_to_list channels).*1)) as [Hw Hn]; [|split; [done|lia]].
  intros k. rewrite sort_strings_perm, list_elem_of_fmap. intros ([k' v] & -> & H%elem_of_map_to_list). eauto.
Qed.

(** What one of the two public operations asks [issue] to grant. *)
Definition grantable (clientID : string) (channels : gmap string (list string)) : Prop :=
  clientID = "" /\ channels = ∅
  \/ validClientID clientID = true /\ validateChannelCapabilities channels = true.

Lemma claims_written appID scopes iat exp clientID channels :
  utf8_Valid appID = true -> 0 <= iat -> 0 <= exp -> good_scopes scopes -> grantable clientID channels ->
  let v := claims_json 1 appID scopes iat exp clientID channels in
  written v /\ Z.of_nat (nesting v) <= maxNestingDepth.
Proof.
  intros Happ Hi He (_ & _ & Hs) Hg v.
  destruct (strings_written scopes) as [Hsw Hsn].
  { rewrite Forall_forall. intros s H%Hs. by apply scope_ascii. }
  assert (forall z, 0 <= z -> is_decimal (decimal z)) as Hdec by (intros z ?; by exists z).
  assert (clientID = "" \/ coerce clientID = clientID) as Hc.
  { destruct Hg as [[-> _]|[Hc _]]; [by left|right]. by apply ascii_coerce, client_ascii. }
  assert (channels = ∅ \/ written (channels_json channels) /\ (nesting (channels_json channels) <= 2)%nat) as Hch.
  { destruct Hg as [[_ ->]|[_ Hch]]; [by left|right]. by apply channels_written, validate_channels_good. }
  unfold v, claims_json. unfold maxNestingDepth. cbn [written nesting].
  rewrite !map_app, !foldr_app. cbn [map foldr fst snd nesting].
  case_bool_decide as E1; case_bool_decide as E2; cbn [map foldr fst snd nesting];
    (destruct Hc as [?|Hc]; [try done|]); (destruct Hch as [?|[Hw Hn]]; [try done|]);
    (split; [split_and!; eauto; try (by apply Hdec); by apply coerce_text|lia]).
Qed.
(** *** The parts of a token *)

Lemma parsed_nonempty s v : json_parse s = Some v -> s <> "".
Proof. intros H ->. assert (json_parse "" = None) as H0 by done. by rewrite H0 in H. Qed.

Lemma token_parts a b c :
  Split (b64_EncodeToString a ++ "." ++ b64_EncodeToString b ++ "." ++ b64_EncodeToString c) "."
  = [b64_EncodeToString a; b64_EncodeToString b; b64_EncodeToString c].
Proof.
  assert (forall s, "."%char ∉ bytes (b64_EncodeToString s)) as Hdot by (intros s; by apply b64_without).
  change ("." ++ b64_EncodeToString c) with (String "." (b64_EncodeToString c)).
  change ("." ++ b64_EncodeToString b ++ ?t) with (String "." (b64_EncodeToString b ++ t)).
  by rewrite !Split_cons, Split_one by auto.
Qed.

Lemma verify_signed issuer now required payload e :
  payload <> "" -> json_parse payload ≫= decode_claims = Some e ->
  let input := b64_EncodeToString header ++ "." ++ b64_EncodeToString payload in
  TokenIssuer_Verify issuer now (input ++ "." ++ b64_EncodeToString (tokenSignature issuer input)) required
  = check_claims now required e.
Proof.
  intros Hne Hp input. unfold TokenIssuer_Verify.
  assert (input ++ "." ++ b64_EncodeToString (tokenSignature issuer input)
    = b64_EncodeToString header ++ "." ++ b64_EncodeToString payload ++ "."
      ++ b64_EncodeToString (tokenSignature issuer input)) as ->.
  { unfold input. generalize (b64_EncodeToString (tokenSignature issuer
      (b64_EncodeToString header ++ "." ++ b64_EncodeToString payload))). intros sig.
    generalize (b64_EncodeToString header) (b64_EncodeToString payload). intros x y.
    apply bytes_inj. rewrite !bytes_app. by rewrite <- !app_assoc. }
  rewrite token_parts. fold input. set (sig := tokenSignature issuer input).
  assert (len sig = 32) as Hlen by apply hmac_length.
  assert (sig <> "") as Hsig by (intros H; rewrite H in Hlen; by vm_compute in Hlen).
  rewrite !bool_decide_eq_false_2 by (by apply b64_nonempty). cbn [orb].
  rewrite !b64_roundtrip, Hlen. change (negb (32 =? 32)) with false. cbn iota.
  rewrite !bool_decide_eq_true_2 by done. cbn [negb].
  change (Some payload ≫= ?f) with (f payload). cbn beta. by rewrite Hp.
Qed.

(** C37: whoever holds the issuer's secret reads a token that was issued, at a time after
    1970, for an application with an identifier in UTF-8 exactly as it was meant, at any time and for any scope: until it expires the claims that were put
    in, limited by the required scope, and from the second of its expiry on
    [ErrTokenExpired]. *)
Theorem token_issue_verify issuer now appID scopes clientID channels ttl token :
  0 <= now < 2 ^ 63 -> utf8_Valid appID = true -> grantable clientID channels ->
  issue issuer now appID scopes clientID channels ttl = inl token ->
  let iat := now `div` Second in
  let exp := iat + ttl `div` Second in
  forall later required,
    TokenIssuer_Verify issuer later token required
    = if exp <=? later `div` Second then inr ErrTokenExpired
      else if negb (bool_decide (required = "")) && negb (containsScope scopes required) then inr ErrMissingScope
      else inl (mkClaims 1 appID scopes (iat * Second) (exp * Second) clientID channels).
Proof.
  intros Hnow Hutf Hg Hissue iat exp later required. unfold issue in Hissue.
  destruct (bool_decide (appID = "")) eqn:Happ; [done|].
  destruct ((ttl <=? 0) || _ || _) eqn:Httl; [done|].
  destruct (validateScopes scopes) eqn:Hsc; [|done]. cbn [negb] in Hissue. cbv zeta in Hissue. fold iat in Hissue.
  unfold MaxTokenTTL, Minute in Httl.
  assert (0 <= iat < 2 ^ 62 /\ (iat * Second + ttl) `div` Second = exp /\ 1 <= ttl `div` Second <= 900)
    as (Hiat & Hexp & Hlife).
  { apply orb_false_iff in Httl as [[H1 H2]%orb_false_iff H3]. unfold exp, iat. change Second with 1000000000 in *.
    Z.to_euclidean_division_equations. lia. }
  rewrite Hexp in Hissue. clear Httl Hexp. fold exp in Hlife.
  destruct (claims_read_back appID scopes iat exp clientID channels) as (s & Hs & Hread); [lia|lia|].
  destruct (claims_written appID scopes iat exp clientID channels) as [Hw Hn];
    [done|lia|lia|by apply validate_scopes_good|done|].
  pose proof (marshal_parse _ Hw Hn) as Hparse.
  set (payload := json_Marshal _) in *.
  pose proof (parsed_nonempty _ _ Hparse) as Hne.
  injection Hissue as <-.
  rewrite (verify_signed _ _ _ payload (mkTokenClaims 1 appID s iat exp clientID channels) Hne)
    by (by rewrite Hparse).
  unfold check_claims. cbn [tc_Version tc_AppID tc_Scopes tc_IssuedAt tc_ExpiresAt tc_ClientID tc_Channels].
  rewrite Hs, Hsc, Happ. change (negb (1 =? 1)) with false. cbn [orb negb].
  assert ((exp <=? iat) = false) as -> by lia.
  assert ((MaxTokenTTL `quot` Second <? wrap64 (exp - iat)) = false) as ->.
  { rewrite wrap64_small by lia. change (MaxTokenTTL `quot` Second) with 900. lia. }
  cbn [orb].
  assert (negb (Bool.eqb (bool_decide (clientID = "")) (Nat.eqb (size channels) 0))
    || negb (bool_decide (clientID = ""))
       && (negb (validClientID clientID) || negb (validateChannelCapabilities channels)) = false) as ->; [|done].
  destruct Hg as [[-> ->]|[Hc Hch]]; [done|]. rewrite Hc, Hch.
  destruct (validate_channels_good _ Hch) as [Hsize _]. unfold validClientID in Hc.
  destruct (bool_decide (clientID = "")); [done|]. cbn.
  by destruct (size channels); [lia|].
Qed.

Lemma split_three s p0 p1 p2 : Split s "." = [p0; p1; p2] -> s = p0 ++ "." ++ p1 ++ "." ++ p2.
Proof.
  change [p0; p1; p2] with ([p0; p1] ++ [p2])%list. intros (q & -> & _ & Hq)%Channel.Split_snoc_inv; [|done].
  change [p0; p1] with ([p0] ++ [p1])%list in Hq. apply Channel.Split_snoc_inv in Hq as (q' & -> & _ & Hq'); [|done].
  assert (q' = p0) as ->.
  { unfold Split in Hq'. destruct (split_bytes "." (bytes q')) as [|l []] eqn:Hl; try done.
    injection Hq' as <-. rewrite <- (of_bytes_bytes q'). f_equal.
    by rewrite <- (Channel.join_split "." (bytes q')), Hl. }
  apply bytes_inj. rewrite !bytes_app. change (bytes (String "." ?s)) with ("."%char :: bytes s).
  change (bytes ".") with ["."%char]. by rewrite <- !app_assoc.
Qed.

Definition good_claims (now : Z) (required : string) (claims : Claims) : Prop :=
  cl_Version claims = 1 /\ cl_AppID claims <> ""
  /\ good_scopes (cl_Scopes claims) /\ (required = "" \/ required ∈ cl_Scopes claims)
  /\ now < cl_ExpiresAt claims /\ cl_IssuedAt claims < cl_ExpiresAt claims
  /\ (cl_ExpiresAt claims - cl_IssuedAt claims <= MaxTokenTTL
      \/ 2 ^ 63 * Second <= cl_ExpiresAt claims - cl_IssuedAt claims)
  /\ (cl_ClientID claims = "" /\ cl_Channels claims = ∅
      \/ validClientID (cl_ClientID claims) = true /\ good_channels (cl_Channels claims)).

Lemma check_claims_sound now required e claims :
  check_claims now required e = inl claims -> good_claims now required claims.
Proof.
  unfold check_claims. case_match eqn:H1; [done|]. case_match eqn:H2; [done|]. case_match eqn:H3; [done|].
  case_match eqn:H4; [done|]. case_match eqn:H5; [done|]. intros [= <-].
  apply negb_false_iff in H2. apply validate_scopes_good in H2.
  apply orb_false_iff in H1 as [[[H1 Happ]%orb_false_iff Hord]%orb_false_iff Hlife].
  unfold good_claims. cbn [cl_Version cl_AppID cl_Scopes cl_IssuedAt cl_ExpiresAt cl_ClientID cl_Channels].
  change (MaxTokenTTL `quot` Second) with 900 in Hlife. change MaxTokenTTL with (900 * Second).
  split_and!; [lia|by apply bool_decide_eq_false in Happ|done| | | | |].
  - apply andb_false_iff in H5 as [H5|H5]; apply negb_false_iff in H5; [left|right];
      by apply bool_decide_eq_true in H5.
  - change Second with 1000000000 in *. clear -H4. Z.to_euclidean_division_equations. lia.
  - change Second with 1000000000. lia.
  - unfold wrap64 in Hlife. change Second with 1000000000.
    change (2 ^ 63) with 9223372036854775808 in *. change (2 ^ 64) with 18446744073709551616 in *.
    clear -Hlife Hord. destruct (Z_lt_le_dec (tc_ExpiresAt e - tc_IssuedAt e) 9223372036854775808) as [Hlt|]; [left|right; lia].
    rewrite Z.mod_small in Hlife by lia. lia.
  - apply orb_false_iff in H3 as [Heq Hgr]. apply negb_false_iff, eqb_prop in Heq.
    destruct (bool_decide (tc_ClientID e = "")) eqn:Hc; cbn [negb andb] in Hgr.
    + left. apply bool_decide_eq_true in Hc. split; [done|]. symmetry in Heq. apply Nat.eqb_eq in Heq.
      by apply map_size_empty_inv in Heq.
    + right. apply orb_false_iff in Hgr as [Hv Hch]. apply negb_false_iff in Hv, Hch.
      split; [done|]. by apply validate_channels_good.
Qed.

(** C38: a token that is accepted carries, in its last part, the HMAC of the two
    others under the issuer's secret, has not expired, and claims no more than may
    be claimed: version 1, an application, distinct well-formed scopes with the
    required one among them, and either no client or a named one with valid grants.
    Its lifetime is positive and at most [MaxTokenTTL], except where the difference
    of its two times overflows, which no token of [issue] does. *)
Theorem token_verify_sound issuer now token required claims :
  TokenIssuer_Verify issuer now token required = inl claims ->
  (exists p0 p1 p2, token = p0 ++ "." ++ p1 ++ "." ++ p2
     /\ b64_DecodeString p2 = Some (hmac_sha256 (ti_secret issuer) (p0 ++ "." ++ p1)))
  /\ good_claims now required claims.
Proof.
  unfold TokenIssuer_Verify. destruct (Split token ".") as [|p0 [|p1 [|p2 [|? ?]]]] eqn:Hsplit; try discriminate.
  case_match; [discriminate|]. destruct (b64_DecodeString p2) as [provided|] eqn:H2; [|discriminate].
  case_match; [discriminate|]. case_match eqn:Hsig; [discriminate|].
  case_match; [|discriminate]. case_match; [discriminate|]. case_match; [|discriminate].
  apply negb_false_iff, bool_decide_eq_true in Hsig. subst provided.
  intros Hcheck. split; [|by eapply check_claims_sound].
  exists p0, p1, p2. split; [by apply split_three|done].
Qed.
End Tokens.

(** ** Passwords *)

Section password.
Context (pbkdf2 : string -> string -> Z -> Z -> string).
(** [pbkdf2.Key] returns as many bytes as it is asked for. *)
Hypothesis pbkdf2_length : forall password salt iterations n, 0 <= n -> len (pbkdf2 password salt iterations n) = n.

(** A hash verifies exactly those passwords that derive the same key under the
    salt it was made with; in particular its own. *)
Theorem password_hash_verifies password salt encoded :
  len salt = 16 -> Password.HashPassword pbkdf2 password (Some salt) = Some encoded ->
  forall attempt, Password.VerifyPassword pbkdf2 encoded attempt = true
    <-> pbkdf2 attempt salt 210000 32 = pbkdf2 password salt 210000 32.
Proof.
  intros Hsalt Hhash attempt. unfold Password.HashPassword in Hhash.
  destruct (len (TrimSpace password) <? 12); [done|].
  apply (inj Some) in Hhash. rewrite <- Hhash. clear Hhash. set (key := pbkdf2 password salt Password.passwordIterations Password.passwordKeyBytes).
  assert (len key = 32) as Hkey by (by apply pbkdf2_length).
  unfold Password.VerifyPassword.
  assert (Split (Password.passwordAlgorithm ++ "$" ++ decimal Password.passwordIterations ++ "$"
    ++ b64_EncodeToString salt ++ "$" ++ b64_EncodeToString key) "$"
    = [Password.passwordAlgorithm; decimal Password.passwordIterations; b64_EncodeToString salt;
       b64_EncodeToString key]) as ->.
  { assert (forall s, "$"%char ∉ bytes (b64_EncodeToString s)) as Hd by (intros s; by apply b64_without).
    assert ("$"%char ∉ bytes Password.passwordAlgorithm)
      by (apply (bool_decide_eq_true_1 _); by vm_compute).
    assert ("$"%char ∉ bytes (decimal Password.passwordIterations))
      by (apply (bool_decide_eq_true_1 _); by vm_compute).
    change ("$" ++ b64_EncodeToString key) with (String "$" (b64_EncodeToString key)).
    change ("$" ++ b64_EncodeToString salt ++ ?t) with (String "$" (b64_EncodeToString salt ++ t)).
    change ("$" ++ decimal ?z ++ ?t) with (String "$" (decimal z ++ t)).
    by rewrite !Split_cons, Split_one by auto. }
  rewrite bool_decide_eq_true_2 by done. cbn [negb].
  change (parse_int64 (decimal Password.passwordIterations)) with (Some 210000). cbn iota.
  change ((210000 <? 100000) || (1000000 <? 210000)) with false. cbn iota.
  rewrite !b64_roundtrip, Hsalt, Hkey. change (16 <? Password.passwordSaltBytes) with false.
  change (negb (32 =? Password.passwordKeyBytes)) with false. cbn iota. by rewrite bool_decide_eq_true.
Qed.
End password.

(** ** Instances *)

Lemma signature_accepts_exactly_witness :
  Signature.Verify "test-secret" "1770000000" "GET" "/api/v1/queues"
    (Signature.Sign "test-secret" "1770000000" "GET" "/api/v1/queues" "") "" (1770000290 * Second) (300 * Second)
  = None.
Proof.
  apply (signature_accepts_exactly "test-secret" "1770000000" "GET" "/api/v1/queues" _ ""
    (1770000290 * Second) (300 * Second) 1770000000).
  - vm_compute. reflexivity.
  - split; [discriminate|reflexivity].
  - split; [discriminate|reflexivity].
  - split; [reflexivity|split; discriminate].
Defined.

Definition demo_issuer : Token.TokenIssuer := Token.NewTokenIssuer "issuer-secret".
Definition demo_channels : gmap string (list string) :=
  {["orders:*" := ["subscribe"; "history"]; "private:alice" := ["publish"]]}.
Definition demo_token : string :=
  match Token.IssueRealtime demo_issuer (1770000000 * Second + 5) "shop" "alice" demo_channels (600 * Second) with
  | inl token => token
  | inr _ => ""
  end.

Lemma token_issue_verify_witness :
  Token.TokenIssuer_Verify demo_issuer (1770000599 * Second) demo_token "ws:connect"
  = inl (Token.mkClaims 1 "shop" ["ws:connect"] (1770000000 * Second) (1770000600 * Second) "alice" demo_channels)
  /\ Token.TokenIssuer_Verify demo_issuer (1770000600 * Second) demo_token "ws:connect" = inr Token.ErrTokenExpired.
Proof.
  assert (Token.issue demo_issuer (1770000000 * Second + 5) "shop" ["ws:connect"] "alice" demo_channels (600 * Second)
    = inl demo_token) as Hissue by (vm_compute; reflexivity).
  assert (Tokens.grantable "alice" demo_channels) as Hg by (right; split; vm_compute; reflexivity).
  pose proof (Tokens.token_issue_verify demo_issuer (1770000000 * Second + 5) "shop" ["ws:connect"] "alice"
    demo_channels (600 * Second) demo_token ltac:(split; [discriminate|reflexivity]) eq_refl Hg Hissue) as Hv.
  split; [rewrite (Hv (1770000599 * Second) "ws:connect")|rewrite (Hv (1770000600 * Second) "ws:connect")];
    vm_compute; reflexivity.
Defined.

Lemma token_verify_sound_witness :
  Tokens.good_claims (1770000599 * Second) "ws:connect"
    (Token.mkClaims 1 "shop" ["ws:connect"] (1770000000 * Second) (1770000600 * Second) "alice" demo_channels).
Proof.
  apply (Tokens.token_verify_sound demo_issuer (1770000599 * Second) demo_token "ws:connect").
  vm_compute. reflexivity.
Defined.

(** Two signed times so far apart that their difference wraps pass the check on the
    lifetime. *)
Lemma wrapped_lifetime_passes :
  Token.check_claims 0 "" (Token.mkTokenClaims 1 "shop" (Token.mkSlice ["ws:connect"] 1) (- 2 ^ 63) (2 ^ 63 - 1) "" ∅)
  = inl (Token.mkClaims 1 "shop" ["ws:connect"] (- 2 ^ 63 * Second) ((2 ^ 63 - 1) * Second) "" ∅).
Proof. vm_compute. reflexivity. Qed.

(** Some function with the length [pbkdf2] promises. *)
Definition stretch (password salt : string) (iterations n : Z) : string :=
  of_bytes (take (Z.to_nat n) (bytes (hmac_sha256 password salt) ++ replicate (Z.to_nat n) "0"%char)).
Lemma stretch_length password salt iterations n : 0 <= n -> len (stretch password salt iterations n) = n.
Proof.
  intros Hn. unfold stretch. rewrite len_bytes, bytes_of_bytes, length_take, length_app, length_replicate. lia.
Qed.

Lemma password_hash_verifies_witness :
  exists encoded, Password.HashPassword stretch "correct horse battery" (Some "0123456789abcdef") = Some encoded
    /\ Password.VerifyPassword stretch encoded "correct horse battery" = true.
Proof.
  eexists. split; [vm_compute; reflexivity|].
  apply (password_hash_verifies stretch stretch_length "correct horse battery" "0123456789abcdef");
    [reflexivity|vm_compute; reflexivity|reflexivity].
Defined.
