(* ===== verification/AppStore.v ===== *)
(** * Applications and their credentials ([store/postgres/apps.go], [crypto/secrets.go])

    The tables [applications], [application_credentials] and [callback_endpoints] of
    migrations 001 and 003, the sealing of secrets, and the statements and
    transactions of the store. *)

From Stdlib Require Import Ascii String.
From S2P Require Import Prelude GoLib Crypto Domain QueueSchema.

(** ** Sealed secrets *)

(** [cipher.AEAD], that is AES-GCM under the configured key. *)
Class AEAD := {
  aead_Seal : string -> string -> string -> string; (* nonce, plaintext, additional data *)
  aead_Open : string -> string -> string -> option string
}.
Definition NonceSize : Z := 12.
Definition Overhead : Z := 16.

Definition secretCipherPrefix : string := "rhsec:v1:".

Section cipher.
Context `{AEAD}.

(** [nonce] is what [io.ReadFull] reads, [None] when it fails. *)
Definition Encrypt (plain : string) (nonce : option string) : res string :=
  match nonce with
  | None => Err RandomError
  | Some nonce =>
      let sealed := nonce ++ aead_Seal nonce plain secretCipherPrefix in
      Ok (secretCipherPrefix ++ b64_EncodeToString sealed)
  end.

Definition Decrypt (encoded : string) : option string :=
  match CutPrefix encoded secretCipherPrefix with
  | None => None
  | Some text =>
      match b64_DecodeString text with
      | None => None
      | Some sealed =>
          if len sealed <? NonceSize + Overhead then None
          else aead_Open (of_bytes (take 12 (bytes sealed))) (of_bytes (drop 12 (bytes sealed))) secretCipherPrefix
      end
  end.
End cipher.

(** ** Rows *)

Record ApplicationRow := mkApplicationRow {
  ar_name : string;
  ar_callback_url : option string;
  ar_delivery_mode : DeliveryMode;
  ar_enabled : bool;
  ar_created_at : Z;
  ar_updated_at : Z
}.
(** [application_credentials], by application and version. *)
Record CredentialRow := mkCredentialRow {
  cr_api_key_hash : string;
  cr_encrypted_hmac_secret : string;
  cr_created_at : Z;
  cr_rotated_at : Z;
  cr_revoked_at : option Z
}.
Record EndpointRow := mkEndpointRow {
  ep_url : string;
  ep_enabled : bool;
  ep_created_at : Z;
  ep_updated_at : Z
}.
Record AppDB := mkAppDB {
  applications_t : gmap string ApplicationRow;
  credentials_t : gmap (string * Z) CredentialRow;
  endpoints_t : gmap string EndpointRow
}.
Abbreviation M_app := (M AppDB).

#[export] Instance DeliveryMode_eq_dec : EqDecision DeliveryMode.
Proof. solve_decision. Defined.

Definition with_applications (t : gmap string ApplicationRow) (db : AppDB) : AppDB :=
  mkAppDB t (credentials_t db) (endpoints_t db).
Definition with_credentials (t : gmap (string * Z) CredentialRow) (db : AppDB) : AppDB :=
  mkAppDB (applications_t db) t (endpoints_t db).
Definition with_endpoints (t : gmap string EndpointRow) (db : AppDB) : AppDB :=
  mkAppDB (applications_t db) (credentials_t db) t.

(** [store.AppCredential] *)
Record AppCredential := mkAppCredential {
  ac_AppID : string;
  ac_APIKeyHash : string;
  ac_HMACSecret : string;
  ac_Version : Z;
  ac_RevokedAt : option Z
}.

Definition scanApplication (id : string) (r : ApplicationRow) : App :=
  mkApp id (ar_name r) (ar_callback_url r) (ar_delivery_mode r) (ar_enabled r)
    (ar_created_at r) (ar_updated_at r).

Definition active (c : CredentialRow) : bool := negb (isSome (cr_revoked_at c)).

(** ** Statements *)

Definition insert_application (app : App) (db : AppDB) : res (unit * AppDB) :=
  if isSome (applications_t db !! App_ID app) then Err UniqueViolation
  else Ok (tt, with_applications (<[App_ID app := mkApplicationRow (App_Name app) (App_CallbackURL app)
     (App_DeliveryMode app) (App_Enabled app) (App_CreatedAt app) (App_UpdatedAt app)]> (applications_t db)) db).

(** The primary key, the unique hash, one active credential per application, and
    the reference to the application. *)
Definition insert_credential (appID : string) (version : Z) (row : CredentialRow) (db : AppDB) : res (unit * AppDB) :=
  if negb (isSome (applications_t db !! appID)) then Err DriverError else
  if isSome (credentials_t db !! (appID, version))
     || existsb (fun kc => bool_decide (cr_api_key_hash kc.2 = cr_api_key_hash row)) (map_to_list (credentials_t db))
     || active row && existsb (fun kc => bool_decide (kc.1.1 = appID) && active kc.2) (map_to_list (credentials_t db))
  then Err UniqueViolation
  else Ok (tt, with_credentials (<[(appID, version) := row]> (credentials_t db)) db).

Definition insert_endpoint (appID : string) (row : EndpointRow) (db : AppDB) : res (unit * AppDB) :=
  if isSome (endpoints_t db !! appID) then Err UniqueViolation
  else Ok (tt, with_endpoints (<[appID := row]> (endpoints_t db)) db).

(** [UPDATE applications SET name,callback_url,delivery_mode,updated_at ...
    RETURNING]; [expected] adds the comparison. *)
Definition update_application (expected : option App) (app : App) (db : AppDB) : option App * AppDB :=
  match applications_t db !! App_ID app with
  | Some r =>
      if match expected with
         | None => true
         | Some e => bool_decide (ar_name r = App_Name e) && bool_decide (ar_callback_url r = App_CallbackURL e)
                     && bool_decide (ar_delivery_mode r = App_DeliveryMode e)
         end
      then let r' := mkApplicationRow (App_Name app) (App_CallbackURL app) (App_DeliveryMode app) (ar_enabled r)
                       (ar_created_at r) (Z.max (ar_updated_at r) (App_UpdatedAt app)) in
           (Some (scanApplication (App_ID app) r'), with_applications (<[App_ID app := r']> (applications_t db)) db)
      else (None, db)
  | None => (None, db)
  end.

Definition disable_application (appID : string) (updatedAt : Z) (db : AppDB) : option App * AppDB :=
  match applications_t db !! appID with
  | Some r =>
      let r' := mkApplicationRow (ar_name r) (ar_callback_url r) (ar_delivery_mode r) false
                  (ar_created_at r) (Z.max (ar_updated_at r) updatedAt) in
      (Some (scanApplication appID r'), with_applications (<[appID := r']> (applications_t db)) db)
  | None => (None, db)
  end.
Definition disable_endpoint (appID : string) (updatedAt : Z) (db : AppDB) : unit * AppDB :=
  (tt, with_endpoints (alter (fun e => mkEndpointRow (ep_url e) false (ep_created_at e)
                                         (Z.max (ep_updated_at e) updatedAt)) appID (endpoints_t db)) db).

Definition syncCallback (app : App) : M_app unit :=
  match App_CallbackURL app with
  | None => update (fun db => (tt, with_endpoints (delete (App_ID app) (endpoints_t db)) db))
  | Some url => update (fun db => (tt, with_endpoints
      (<[App_ID app := match endpoints_t db !! App_ID app with
         | Some e => mkEndpointRow url (App_Enabled app) (ep_created_at e)
                       (Z.max (ep_updated_at e) (App_UpdatedAt app))
         | None => mkEndpointRow url (App_Enabled app) (App_CreatedAt app) (App_UpdatedAt app)
         end]> (endpoints_t db)) db))
  end.

(** ** The store *)

Definition conflict_error (e : error) : error :=
  if bool_decide (e = UniqueViolation) then StoreConflict else e.

Section store.
Context `{AEAD}.

Definition sealed {A} (plain : string) (nonce : option string) (k : string -> M_app A) : M_app A :=
  match Encrypt plain nonce with Ok text => k text | Err e => fail e end.

Definition CreateApplication (nonce : option string) (app : App) (credential : AppCredential) : M_app unit :=
  if negb (bool_decide (ac_AppID credential = App_ID app)) then fail StoreConflict else
  sealed (ac_HMACSecret credential) nonce (fun encrypted =>
  transaction (
    _ ← begin;
    _ ← on_error (
      _ ← exec (fun _ => insert_application app);
      _ ← exec (fun _ => insert_credential (App_ID app) 1
            (mkCredentialRow (ac_APIKeyHash credential) encrypted (App_CreatedAt app) (App_CreatedAt app) None));
      match App_CallbackURL app with
      | None => mret tt
      | Some url => exec (fun _ => insert_endpoint (App_ID app)
            (mkEndpointRow url (App_Enabled app) (App_CreatedAt app) (App_UpdatedAt app)))
      end) (fun e => fail (conflict_error e));
    commit)).

(** The order of the collation is that of the argument. *)
Definition ListApplications (text_le : string -> string -> bool) : M_app (list App) :=
  query (fun db => merge_sort (fun a b => App_CreatedAt a < App_CreatedAt b
                      \/ App_CreatedAt a = App_CreatedAt b /\ text_le (App_ID a) (App_ID b) = true)
    ((fun ir => scanApplication ir.1 ir.2) <$> map_to_list (applications_t db))).

Definition GetApplication (appID : string) : M_app App :=
  query_row StoreNotFound (fun db => scanApplication appID <$> applications_t db !! appID).

Definition updateApplication (expected : App) (app : App) (compare : bool) : M_app App :=
  transaction (
    _ ← begin;
    updated ← update (update_application (if compare then Some expected else None) app);
    match updated with
    | None =>
        exists_ ← query (fun db => isSome (applications_t db !! App_ID app));
        if exists_ && compare then fail StoreConflict else fail StoreNotFound
    | Some updated =>
        _ ← syncCallback updated;
        _ ← commit;
        mret updated
    end).
Definition UpdateApplication (app : App) : M_app App :=
  updateApplication (mkApp "" "" None (DeliveryOther "") false 0 0) app false.
Definition CompareAndSwapApplication (expected app : App) : M_app App :=
  if negb (bool_decide (App_ID expected = App_ID app)) then fail StoreConflict
  else updateApplication expected app true.

Definition DisableApplication (appID : string) (updatedAt : Z) : M_app App :=
  transaction (
    _ ← begin;
    app ← update (disable_application appID updatedAt);
    match app with
    | None => fail StoreNotFound
    | Some app =>
        _ ← update (disable_endpoint appID updatedAt);
        _ ← commit;
        mret app
    end).

(** The row of an active credential. *)
Definition find_active (P : string * Z -> CredentialRow -> bool) (db : AppDB) : option (string * Z * CredentialRow) :=
  find (fun kc => P kc.1 kc.2 && active kc.2) (map_to_list (credentials_t db)).
Definition read_credential (e : error) (P : string * Z -> CredentialRow -> bool) : M_app AppCredential :=
  row ← query_row e (find_active P);
  let '(k, c) := row in
  match Decrypt (cr_encrypted_hmac_secret c) with
  | None => fail DriverError
  | Some secret => mret (mkAppCredential k.1 (cr_api_key_hash c) secret k.2 (cr_revoked_at c))
  end.
Definition FindCredentialByAPIKeyHash (apiKeyHash : string) : M_app AppCredential :=
  read_credential StoreNotFound (fun _ c => bool_decide (cr_api_key_hash c = apiKeyHash)).
Definition CurrentCredential (appID : string) : M_app AppCredential :=
  read_credential StoreNotFound (fun k _ => bool_decide (k.1 = appID)).

(** [COALESCE(MAX(version),0)+1], and the creation time of the first version. *)
Definition versions_of (appID : string) (db : AppDB) : list (Z * CredentialRow) :=
  (fun kc => (kc.1.2, kc.2)) <$> filter (fun kc => kc.1.1 = appID) (map_to_list (credentials_t db)).
Definition next_version (appID : string) (db : AppDB) : Z :=
  match (versions_of appID db).*1 with
  | [] => 1
  | v :: vs => foldr Z.max v vs + 1
  end.
Definition by_version (a b : Z * CredentialRow) : Prop := a.1 <= b.1.
#[global] Instance by_version_dec a b : Decision (by_version a b).
Proof. unfold by_version. apply _. Defined.
Definition first_created (appID : string) (db : AppDB) : option Z :=
  match merge_sort by_version (versions_of appID db) with
  | [] => None
  | (_, c) :: _ => Some (cr_created_at c)
  end.
Definition revoke (appID : string) (updatedAt : Z) (db : AppDB) : Z * AppDB :=
  let hit k c := bool_decide (k.1 = appID) && active c in
  (Z.of_nat (length (filter (fun kc => hit kc.1 kc.2 = true) (map_to_list (credentials_t db)))),
   with_credentials (map_imap (fun (k : string * Z) c => Some (if hit k c
     then mkCredentialRow (cr_api_key_hash c) (cr_encrypted_hmac_secret c) (cr_created_at c) (cr_rotated_at c)
            (Some updatedAt)
     else c)) (credentials_t db)) db).
(** [INSERT ... SELECT ... LIMIT 1] inserts nothing when nothing is selected. *)
Definition insert_rotated (appID hash encrypted : string) (updatedAt version : Z) (db : AppDB) : res (unit * AppDB) :=
  match first_created appID db with
  | None => Ok (tt, db)
  | Some created => insert_credential appID version (mkCredentialRow hash encrypted created updatedAt None) db
  end.
Definition touch_application (appID : string) (updatedAt : Z) (db : AppDB) : unit * AppDB :=
  (tt, with_applications (alter (fun r => mkApplicationRow (ar_name r) (ar_callback_url r) (ar_delivery_mode r)
         (ar_enabled r) (ar_created_at r) (Z.max (ar_updated_at r) updatedAt)) appID (applications_t db)) db).

Definition RotateApplicationCredential (nonce : option string) (appID : string) (credential : AppCredential)
    (updatedAt : Z) : M_app unit :=
  if negb (bool_decide (ac_AppID credential = appID)) then fail StoreConflict else
  sealed (ac_HMACSecret credential) nonce (fun encrypted =>
  transaction (
    _ ← begin;
    _ ← query_row StoreNotFound (fun db => applications_t db !! appID);
    nextVersion ← query (next_version appID);
    revoked ← on_error (update (revoke appID updatedAt)) (fun e => fail (conflict_error e));
    if revoked =? 0 then fail StoreNotFound else
    _ ← on_error (exec (fun _ => insert_rotated appID (ac_APIKeyHash credential) encrypted updatedAt nextVersion))
          (fun e => fail (conflict_error e));
    _ ← update (touch_application appID updatedAt);
    commit)).
End store.
