(* ===== verification/AppService.v ===== *)
(** * The application service ([service/apps.go])

    Creating, updating, disabling applications, rotating their credentials and
    authenticating their keys, over the interface [ApplicationStore]. What other
    transactions commit between two calls of the store is an argument. *)

From Stdlib Require Import Ascii String.
From S2P Require Import Prelude GoLib Crypto Domain QueueSchema QueueService AppStore.

(** [store.ApplicationStore]; the first argument of the operations that seal a
    secret is the nonce. *)
Record ApplicationStore (D : Type) := mkApplicationStore {
  as_Create : option string -> App -> AppCredential -> M D unit;
  as_List : M D (list App);
  as_Get : string -> M D App;
  as_CompareAndSwap : App -> App -> M D App;
  as_Disable : string -> Z -> M D App;
  as_FindByHash : string -> M D AppCredential;
  as_Rotate : option string -> string -> AppCredential -> Z -> M D unit
}.
Arguments mkApplicationStore {D} _ _ _ _ _ _ _.
Arguments as_Create {D} _ _ _ _.
Arguments as_List {D} _.
Arguments as_Get {D} _ _.
Arguments as_CompareAndSwap {D} _ _ _.
Arguments as_Disable {D} _ _ _.
Arguments as_FindByHash {D} _ _.
Arguments as_Rotate {D} _ _ _ _ _.

Definition postgres_applications `{AEAD} (text_le : string -> string -> bool) : ApplicationStore AppDB :=
  mkApplicationStore CreateApplication (ListApplications text_le) GetApplication CompareAndSwapApplication
    DisableApplication FindCredentialByAPIKeyHash RotateApplicationCredential.

Record CreateApp := mkCreateApp {
  ca_Name : string;
  ca_CallbackURL : option string;
  ca_DeliveryMode : DeliveryMode
}.
(** [ua_CallbackURL] is [Some] when [OptionalString.Set]. *)
Record UpdateApp := mkUpdateApp {
  ua_Name : option string;
  ua_CallbackURL : option (option string);
  ua_DeliveryMode : option DeliveryMode
}.
Record AppCredentials := mkAppCredentials {
  acs_AppID : string;
  acs_APIKey : string;
  acs_HMACSecret : string
}.
Record AuthenticatedApp := mkAuthenticatedApp {
  aa_App : App;
  aa_HMACSecret : string
}.

(** [random] is what [io.ReadFull] reads. *)
Definition randomValue (prefix : string) (random : option string) : res string :=
  match random with
  | None => Err RandomError
  | Some bytes => Ok (prefix ++ b64_EncodeToString bytes)
  end.
Definition hashAPIKey (apiKey : string) : string := sha256_hex apiKey.

Module Apps.
Section service.
Context {D : Type} `{NetLib} (store : ApplicationStore D) (allowInsecureCallbacks : bool).

Definition lift {A} (r : res A) : M D A := fun w => (r, w).
Definition mapped {A} (m : M D A) : M D A := on_error m (fun e => fail (mapStoreError e)).

Definition validate (name : string) (callbackURL : option string) (mode : DeliveryMode) : bool :=
  if bool_decide (name = "") || (128 <? len name) || negb (DeliveryMode_Valid mode) then false else
  match callbackURL with
  | None => negb (bool_decide (mode = DeliveryCallback) || bool_decide (mode = DeliveryAll))
  | Some _ => validCallbackURL callbackURL allowInsecureCallbacks
  end.

(** The three values read from the random source, in order. *)
Record AppRandom := mkAppRandom {
  rnd_id : option string;
  rnd_key : option string;
  rnd_secret : option string;
  rnd_nonce : option string
}.

Definition Create (now : Z) (random : AppRandom) (input : CreateApp) : M D (App * AppCredentials) :=
  let name := TrimSpace (ca_Name input) in
  if negb (validate name (ca_CallbackURL input) (ca_DeliveryMode input)) then fail ErrInvalidInput else
  appID ← lift (randomValue "app_" (rnd_id random));
  apiKey ← lift (randomValue "rhk_" (rnd_key random));
  hmacSecret ← lift (randomValue "rhs_" (rnd_secret random));
  let app := mkApp appID name (ca_CallbackURL input) (ca_DeliveryMode input) true now now in
  _ ← mapped (as_Create store (rnd_nonce random) app
                (mkAppCredential appID (hashAPIKey apiKey) hmacSecret 0 None));
  mret (app, mkAppCredentials appID apiKey hmacSecret).

(** The order of [sort.Slice]: creation, then identifier as bytes. *)
Definition created_before (a b : App) : Prop :=
  App_CreatedAt a < App_CreatedAt b \/ App_CreatedAt a = App_CreatedAt b /\ String.le (App_ID a) (App_ID b).
#[global] Instance created_before_dec a b : Decision (created_before a b).
Proof. unfold created_before. apply _. Defined.
Definition List : M D (list App) :=
  apps ← mapped (as_List store);
  mret (merge_sort created_before apps).

Definition Get (appID : string) : M D App := mapped (as_Get store appID).

(** What an attempt to update meets: whether the context has ended, the clock,
    and what others commit between its read and its write. *)
Record UpdateAttempt := mkUpdateAttempt {
  up_cancelled : bool;
  up_now : Z;
  up_others : D -> D
}.
Definition others_commit (f : D -> D) : M D unit := fun w => (Ok tt, set_db (f (w_db w)) w).

Definition merge_update (input : UpdateApp) (app : App) : App :=
  mkApp (App_ID app)
    (match ua_Name input with Some name => TrimSpace name | None => App_Name app end)
    (match ua_CallbackURL input with Some url => url | None => App_CallbackURL app end)
    (match ua_DeliveryMode input with Some mode => mode | None => App_DeliveryMode app end)
    (App_Enabled app) (App_CreatedAt app) (App_UpdatedAt app).
Definition set_UpdatedAt (now : Z) (app : App) : App :=
  mkApp (App_ID app) (App_Name app) (App_CallbackURL app) (App_DeliveryMode app) (App_Enabled app)
    (App_CreatedAt app) now.

(** One turn of the loop; [None] is [continue]. *)
Definition update_attempt (env : UpdateAttempt) (appID : string) (input : UpdateApp) : M D (option App) :=
  if up_cancelled env then fail ContextError else
  expected ← Get appID;
  let app := merge_update input expected in
  if negb (validate (App_Name app) (App_CallbackURL app) (App_DeliveryMode app)) then fail ErrInvalidInput else
  _ ← others_commit (up_others env);
  on_error (updated ← as_CompareAndSwap store expected (set_UpdatedAt (up_now env) app); mret (Some updated))
    (fun e => if bool_decide (e = StoreConflict) then mret None else fail (mapStoreError e)).
Fixpoint update_loop (turns : nat) (envs : nat -> UpdateAttempt) (appID : string) (input : UpdateApp) : M D App :=
  match turns with
  | O => fail ErrConflict
  | S left_ =>
      result ← update_attempt (envs left_) appID input;
      match result with
      | Some updated => mret updated
      | None => update_loop left_ envs appID input
      end
  end.
(** [envs n] is what the attempt with [n] more to follow meets. *)
Definition Update (envs : nat -> UpdateAttempt) (appID : string) (input : UpdateApp) : M D App :=
  match ua_Name input, ua_CallbackURL input, ua_DeliveryMode input with
  | None, None, None => fail ErrInvalidInput
  | _, _, _ => update_loop 16 envs appID input
  end.

Definition Disable (now : Z) (appID : string) : M D App := mapped (as_Disable store appID now).

Definition RotateSecret (now : Z) (random : AppRandom) (appID : string) : M D AppCredentials :=
  apiKey ← lift (randomValue "rhk_" (rnd_key random));
  hmacSecret ← lift (randomValue "rhs_" (rnd_secret random));
  _ ← mapped (as_Rotate store (rnd_nonce random) appID
                (mkAppCredential appID (hashAPIKey apiKey) hmacSecret 0 None) now);
  mret (mkAppCredentials appID apiKey hmacSecret).

(** [others] is what is committed between the two reads. *)
Definition AuthenticateAPIKey (others : D -> D) (apiKey : string) : M D AuthenticatedApp :=
  if bool_decide (apiKey = "") then fail ErrUnauthorized else
  credential ← on_error (as_FindByHash store (hashAPIKey apiKey)) (fun _ => fail ErrUnauthorized);
  _ ← others_commit others;
  app ← on_error (as_Get store (ac_AppID credential)) (fun _ => fail ErrUnauthorized);
  if negb (App_Enabled app) then fail ErrUnauthorized else
  mret (mkAuthenticatedApp app (ac_HMACSecret credential)).

End service.
End Apps.
