(* ===== verification/AppEffects.v ===== *)
(** * What the operations on applications do

    The effect of each transaction of [AppStore] on the tables, the invariant they
    keep and the way rows may evolve. *)

From Stdlib Require Import Ascii String.
From S2P Require Import Prelude GoLib Crypto Domain QueueSchema QueueService AppStore AppService.

(** ** Sealed secrets are read back *)

Class AEADLaws `{AEAD} := {
  open_seal : forall nonce plain ad, aead_Open nonce (aead_Seal nonce plain ad) ad = Some plain;
  seal_length : forall nonce plain ad, len (aead_Seal nonce plain ad) = len plain + Overhead
}.

Lemma decrypt_encrypt `{AEADLaws} plain nonce text :
  len nonce = NonceSize -> Encrypt plain (Some nonce) = Ok text -> Decrypt text = Some plain.
Proof.
  intros Hn [= <-]. unfold Decrypt.
  destruct (CutPrefix _ secretCipherPrefix) as [r|] eqn:Hcut.
  2:{ exfalso. apply eq_None_not_Some in Hcut. apply Hcut. eexists. by apply CutPrefix_Some. }
  apply CutPrefix_Some in Hcut.
  assert (b64_EncodeToString (nonce ++ aead_Seal nonce plain secretCipherPrefix) = r) as <-.
  { apply (f_equal bytes) in Hcut. rewrite !bytes_app in Hcut. apply app_inv_head in Hcut. by apply bytes_inj. }
  rewrite b64_roundtrip.
  assert (length (bytes nonce) = 12%nat) as Hlen by (rewrite len_bytes in Hn; unfold NonceSize in Hn; lia).
  assert ((len (nonce ++ aead_Seal nonce plain secretCipherPrefix) <? NonceSize + Overhead) = false) as ->.
  { rewrite len_bytes, bytes_app, length_app, Nat2Z.inj_add, <- !len_bytes, seal_length, Hn.
    pose proof (Zle_0_nat (String.length plain)). unfold len. lia. }
  rewrite bytes_app. rewrite <- Hlen at 1 2. rewrite take_app_length, drop_app_length, !of_bytes_bytes. apply open_seal.
Qed.

(** ** The invariant *)

Record app_inv (db : AppDB) : Prop := mkAppInv {
  inv_owner : forall k c, credentials_t db !! k = Some c -> is_Some (applications_t db !! k.1);
  inv_hash : forall k1 k2 c1 c2, credentials_t db !! k1 = Some c1 -> credentials_t db !! k2 = Some c2 ->
    cr_api_key_hash c1 = cr_api_key_hash c2 -> k1 = k2;
  inv_one : forall a v1 v2 c1 c2, credentials_t db !! (a, v1) = Some c1 -> credentials_t db !! (a, v2) = Some c2 ->
    active c1 = true -> active c2 = true -> v1 = v2;
  inv_some : forall a, is_Some (applications_t db !! a) ->
    exists v c, credentials_t db !! (a, v) = Some c /\ active c = true;
  inv_endpoint : forall a r, applications_t db !! a = Some r ->
    (fun e => (ep_url e, ep_enabled e)) <$> endpoints_t db !! a = (fun url => (url, ar_enabled r)) <$> ar_callback_url r;
  inv_endpoint_owner : forall a, is_Some (endpoints_t db !! a) -> is_Some (applications_t db !! a)
}.

(** How rows evolve: applications stay, keep their creation time, move forward in
    time and are not enabled again; credentials stay and are not revived. *)
Record app_le (db db' : AppDB) : Prop := mkAppLe {
  le_app : forall a r, applications_t db !! a = Some r -> exists r', applications_t db' !! a = Some r'
    /\ ar_created_at r' = ar_created_at r /\ ar_updated_at r <= ar_updated_at r'
    /\ (ar_enabled r = false -> ar_enabled r' = false);
  le_cred : forall k c, credentials_t db !! k = Some c -> exists c', credentials_t db' !! k = Some c'
    /\ cr_api_key_hash c' = cr_api_key_hash c /\ cr_encrypted_hmac_secret c' = cr_encrypted_hmac_secret c
    /\ (active c = false -> c' = c)
}.
#[export] Instance app_le_preorder : PreOrder app_le.
Proof.
  split.
  - intros db. split; [intros a r Hr; exists r|intros k c Hc; exists c]; split_and!; done || lia.
  - intros d1 d2 d3 [Ha Hc] [Ha' Hc']. split.
    + intros a r Hr. destruct (Ha _ _ Hr) as (r2 & Hr2 & E1 & E2 & E3).
      destruct (Ha' _ _ Hr2) as (r3 & Hr3 & F1 & F2 & F3). exists r3. split_and!; [done|congruence|lia|auto].
    + intros k c Hk. destruct (Hc _ _ Hk) as (c2 & Hc2 & E1 & E2 & E3).
      destruct (Hc' _ _ Hc2) as (c3 & Hc3 & F1 & F2 & F3). exists c3. split_and!; [done|congruence|congruence|].
      intros Hi. pose proof (E3 Hi) as ->. auto.
Qed.

Definition good_change (db db' : AppDB) : Prop := (app_inv db -> app_inv db') /\ app_le db db'.
#[export] Instance good_change_preorder : PreOrder good_change.
Proof.
  split; [intros db; split; [done|reflexivity]|].
  intros d1 d2 d3 [H1 L1] [H2 L2]. split; [auto|by transitivity d2].
Qed.

(** A transaction is good when its effect is good whenever it succeeds. *)
Lemma keeps_transaction_ok {A} (R : AppDB -> AppDB -> Prop) `{!PreOrder R} (body : M_app A) :
  (forall w a w', body w = (Ok a, w') -> R (w_db w) (w_db w')) -> keeps R (transaction body).
Proof.
  intros H w. unfold transaction. destruct (body w) as [[a|e] w'] eqn:Hb; cbn [fst snd].
  - by apply (H w a w').
  - unfold set_db. simpl. reflexivity.
Qed.

Lemma on_error_ok {A} (m : M_app A) h w a w' :
  on_error m (fun e => fail (h e)) w = (Ok a, w') <-> m w = (Ok a, w').
Proof. unfold on_error, fail. destruct (m w) as [[]]; naive_solver. Qed.

Lemma existsb_map_false {K V} `{Countable K} (P : K * V -> bool) (m : gmap K V) :
  existsb P (map_to_list m) = false -> forall k v, m !! k = Some v -> P (k, v) = false.
Proof.
  intros Hf k v Hk. destruct (P (k, v)) eqn:HP; [|done]. exfalso. apply not_true_iff_false in Hf. apply Hf.
  apply existsb_exists. exists (k, v). split; [|done]. by apply list_elem_of_In, elem_of_map_to_list.
Qed.

(** The first call of a transaction, which changes nothing. *)
Ltac begun Hrun w1 Hdb :=
  apply bind_ok in Hrun as (? & w1 & Hdb & Hrun); apply query_ok in Hdb as (_ & Hdb & _).

(** ** Inserting a credential *)

Lemma insert_credential_ok a v row db x db' :
  insert_credential a v row db = Ok (x, db') ->
  is_Some (applications_t db !! a) /\ credentials_t db !! (a, v) = None
  /\ (forall k c, credentials_t db !! k = Some c -> cr_api_key_hash c <> cr_api_key_hash row)
  /\ (active row = true -> forall v' c, credentials_t db !! (a, v') = Some c -> active c = false)
  /\ db' = with_credentials (<[(a, v) := row]> (credentials_t db)) db.
Proof.
  unfold insert_credential. case_match eqn:Ha; [done|]. case_match eqn:Hc; [done|]. intros [= _ <-].
  apply negb_false_iff in Ha. apply orb_false_iff in Hc as [[Hkey Hhash]%orb_false_iff Hact]. split_and!.
  - unfold isSome, isNone in Ha. destruct (applications_t db !! a); [eauto|done].
  - unfold isSome, isNone in Hkey. by destruct (credentials_t db !! (a, v)).
  - intros k c Hk. eapply existsb_map_false in Hhash; [|done]. by apply bool_decide_eq_false in Hhash.
  - intros Hrow v' c Hk. rewrite Hrow in Hact. cbn [andb] in Hact. eapply existsb_map_false in Hact; [|done].
    cbn [fst snd] in Hact. by rewrite bool_decide_eq_true_2 in Hact.
  - done.
Qed.

(** ** Creating *)

Definition created (app : App) (hash encrypted : string) (db : AppDB) : AppDB :=
  mkAppDB
    (<[App_ID app := mkApplicationRow (App_Name app) (App_CallbackURL app) (App_DeliveryMode app)
         (App_Enabled app) (App_CreatedAt app) (App_UpdatedAt app)]> (applications_t db))
    (<[(App_ID app, 1) := mkCredentialRow hash encrypted (App_CreatedAt app) (App_CreatedAt app) None]>
       (credentials_t db))
    (match App_CallbackURL app with
     | None => endpoints_t db
     | Some url => <[App_ID app := mkEndpointRow url (App_Enabled app) (App_CreatedAt app) (App_UpdatedAt app)]>
                     (endpoints_t db)
     end).
Definition creatable (app : App) (hash : string) (db : AppDB) : Prop :=
  applications_t db !! App_ID app = None /\ credentials_t db !! (App_ID app, 1) = None
  /\ (forall k c, credentials_t db !! k = Some c -> cr_api_key_hash c <> hash).

Lemma create_effect `{AEAD} nonce app credential w x w' :
  CreateApplication nonce app credential w = (Ok x, w') ->
  ac_AppID credential = App_ID app /\ exists encrypted, Encrypt (ac_HMACSecret credential) nonce = Ok encrypted
    /\ creatable app (ac_APIKeyHash credential) (w_db w)
    /\ w_db w' = created app (ac_APIKeyHash credential) encrypted (w_db w).
Proof.
  unfold CreateApplication. case_match eqn:Hid; [done|]. apply negb_false_iff, bool_decide_eq_true in Hid.
  unfold sealed. destruct (Encrypt (ac_HMACSecret credential) nonce) as [enc|] eqn:Henc; [|done].
  intros Hrun. split; [done|]. exists enc. split; [done|].
  rewrite transaction_ok in Hrun. begun Hrun w0 H0. apply bind_ok in Hrun as (? & w3 & Hins & Hrun).
  apply query_ok in Hrun as (_ & Hend & _). rewrite on_error_ok in Hins.
  apply bind_ok in Hins as (? & w1 & Happ & Hins). apply bind_ok in Hins as (? & w2 & Hcred & Hep).
  apply exec_ok in Happ as (Happ & _), Hcred as (Hcred & _).
  unfold insert_application in Happ. destruct (applications_t (w_db _) !! App_ID app) eqn:Hnone; [done|].
  cbn [isSome isNone negb] in Happ. injection Happ as _ Happ.
  apply insert_credential_ok in Hcred as (_ & Hkey & Hhash & _ & Hcred).
  rewrite <- Happ in Hkey, Hhash, Hcred. cbn [credentials_t with_applications] in Hkey, Hhash.
  assert (w_db w3 = created app (ac_APIKeyHash credential) enc (w_db w)) as Hdb.
  { unfold created. destruct (App_CallbackURL app) as [url|].
    - apply exec_ok in Hep as (Hep & _). unfold insert_endpoint in Hep. case_match; [done|]. injection Hep as _ <-.
      by rewrite Hcred, H0.
    - apply ret_ok in Hep as [_ <-]. by rewrite Hcred, H0. }
  rewrite <- H0. split; [split; [done|split; [done|]]|].
  - intros k c Hk. by apply (Hhash k c).
  - congruence.
Qed.

Lemma created_good app hash encrypted db :
  creatable app hash db -> good_change db (created app hash encrypted db).
Proof.
  intros (Hnone & Hkey & Hhash). split.
  2:{ split; cbn [created applications_t credentials_t].
    - intros a r Hr. rewrite lookup_insert_ne by congruence. exists r. split_and!; done || lia.
    - intros k c Hk. rewrite lookup_insert_ne by congruence. by exists c. }
  intros [Ho Hh Hone Hs He Heo].
  assert (forall v c, credentials_t db !! (App_ID app, v) = Some c -> False) as Hfresh.
  { intros v c Hc. apply Ho in Hc as [r Hr]. cbn in Hr. congruence. }
  assert (endpoints_t db !! App_ID app = None) as Hep.
  { apply eq_None_not_Some. intros Hx. apply Heo in Hx as [r Hr]. congruence. }
  split; cbn [created applications_t credentials_t endpoints_t].
  - intros k c. rewrite lookup_insert_Some. intros [[<- _]|[_ Hc]]; cbn [fst].
    + rewrite lookup_insert_eq. eauto.
    + destruct (decide (App_ID app = k.1)) as [<-|Hne]; [rewrite lookup_insert_eq; eauto|].
      rewrite lookup_insert_ne by done. by eapply Ho.
  - intros k1 k2 c1 c2. rewrite !lookup_insert_Some.
    intros [[<- <-]|[_ H1]] [[<- <-]|[_ H2]] Heq; cbn [cr_api_key_hash] in Heq; eauto;
      exfalso; by eapply Hhash.
  - intros a v1 v2 c1 c2. rewrite !lookup_insert_Some.
    intros [[E1 <-]|[_ H1]] [[E2 <-]|[_ H2]]; simplify_eq; eauto; intros; exfalso; by eapply Hfresh.
  - intros a [r Hr]. apply lookup_insert_Some in Hr as [[<- _]|[Hne Hr]].
    + exists 1. rewrite lookup_insert_eq. eauto.
    + destruct (Hs a) as (v & c & Hc & Hact); [eauto|]. exists v, c. rewrite lookup_insert_ne by congruence. done.
  - intros a r. rewrite lookup_insert_Some. intros [[<- <-]|[Hne Hr]]; cbn [ar_callback_url ar_enabled].
    + destruct (App_CallbackURL app); [by rewrite lookup_insert_eq|by rewrite Hep].
    + rewrite <- (He a r Hr). by destruct (App_CallbackURL app); [rewrite lookup_insert_ne|].
  - intros a Ha. destruct (decide (App_ID app = a)) as [<-|Hne]; [rewrite lookup_insert_eq; eauto|].
    rewrite lookup_insert_ne by done. apply Heo. by destruct (App_CallbackURL app); [rewrite lookup_insert_ne in Ha|].
Qed.

(** ** Changing an application and its endpoint together *)

(** A row of an application replaced, and its endpoint brought in line. *)
Lemma replace_good db db' a r r' :
  applications_t db !! a = Some r -> applications_t db' = <[a := r']> (applications_t db) ->
  credentials_t db' = credentials_t db ->
  (forall b, b <> a -> endpoints_t db' !! b = endpoints_t db !! b) ->
  (app_inv db -> (fun e => (ep_url e, ep_enabled e)) <$> endpoints_t db' !! a
     = (fun url => (url, ar_enabled r')) <$> ar_callback_url r') ->
  ar_created_at r' = ar_created_at r -> ar_updated_at r <= ar_updated_at r' ->
  (ar_enabled r = false -> ar_enabled r' = false) ->
  good_change db db'.
Proof.
  intros Hr Happ Hcred Hother Hep Hc Hu Hen. split.
  2:{ split; [|rewrite Hcred; intros k c Hk; by exists c].
    intros b rb Hb. rewrite Happ. destruct (decide (a = b)) as [<-|Hne].
    - rewrite lookup_insert_eq. exists r'. assert (rb = r) as -> by congruence. by split_and!.
    - rewrite lookup_insert_ne by done. exists rb. split_and!; done || lia. }
  intros Hinv. specialize (Hep Hinv). destruct Hinv as [Ho Hh Hone Hs He Heo].
  assert (forall b, is_Some (applications_t db' !! b) <-> is_Some (applications_t db !! b)) as Hdom.
  { intros b. rewrite Happ. destruct (decide (a = b)) as [<-|Hne]; [rewrite lookup_insert_eq, Hr; naive_solver|].
    by rewrite lookup_insert_ne by done. }
  split; rewrite ?Hcred; eauto.
  - intros k c Hk. apply Hdom. eauto.
  - intros b Hb%Hdom. eauto.
  - intros b rb. rewrite Happ, lookup_insert_Some. intros [[<- <-]|[Hne Hb]]; [done|].
    rewrite Hother by done. eauto.
  - intros b Hb. apply Hdom. destruct (decide (b = a)) as [->|Hne]; [eauto|]. apply Heo. by rewrite <- Hother.
Qed.

Lemma sync_effect app w x w' :
  syncCallback app w = (Ok x, w') ->
  applications_t (w_db w') = applications_t (w_db w) /\ credentials_t (w_db w') = credentials_t (w_db w)
  /\ (forall b, b <> App_ID app -> endpoints_t (w_db w') !! b = endpoints_t (w_db w) !! b)
  /\ (fun e => (ep_url e, ep_enabled e)) <$> endpoints_t (w_db w') !! App_ID app
     = (fun url => (url, App_Enabled app)) <$> App_CallbackURL app.
Proof.
  unfold syncCallback. destruct (App_CallbackURL app) as [url|]; intros (Hdb & _)%update_ok;
    injection Hdb as _ <-; cbn [with_endpoints applications_t credentials_t endpoints_t]; split_and!; try done.
  - intros b Hb. by rewrite lookup_insert_ne.
  - rewrite lookup_insert_eq. by destruct (endpoints_t (w_db w) !! App_ID app).
  - intros b Hb. by rewrite lookup_delete_ne.
  - by rewrite lookup_delete_eq.
Qed.

Definition replaced (app : App) (r : ApplicationRow) : ApplicationRow :=
  mkApplicationRow (App_Name app) (App_CallbackURL app) (App_DeliveryMode app) (ar_enabled r)
    (ar_created_at r) (Z.max (ar_updated_at r) (App_UpdatedAt app)).

Lemma update_effect expected app compare w result w' :
  updateApplication expected app compare w = (Ok result, w') ->
  exists r, applications_t (w_db w) !! App_ID app = Some r
    /\ (compare = true -> ar_name r = App_Name expected /\ ar_callback_url r = App_CallbackURL expected
         /\ ar_delivery_mode r = App_DeliveryMode expected)
    /\ result = scanApplication (App_ID app) (replaced app r)
    /\ applications_t (w_db w') = <[App_ID app := replaced app r]> (applications_t (w_db w))
    /\ credentials_t (w_db w') = credentials_t (w_db w)
    /\ good_change (w_db w) (w_db w').
Proof.
  unfold updateApplication. intros Hrun. rewrite transaction_ok in Hrun. begun Hrun w0 H0.
  apply bind_ok in Hrun as (updated & w1 & Hup & Hrun). apply update_ok in Hup as (Hup & _). rewrite H0 in Hup.
  unfold update_application in Hup.
  destruct (applications_t (w_db w) !! App_ID app) as [r|] eqn:Hr.
  2:{ injection Hup as <- _. run_inv. by case_match. }
  match type of Hup with (if ?b then _ else _) = _ => destruct b eqn:Hcmp end.
  2:{ injection Hup as <- _. run_inv. by case_match. }
  injection Hup as <- Hw1. fold (replaced app r) in *. apply bind_ok in Hrun as (? & w2 & Hsync & Hrun).
  begun Hrun w3 Hdb. apply ret_ok in Hrun as [<- <-].
  apply sync_effect in Hsync as (Ha & Hc & Hother & Hep). rewrite <- Hw1 in Ha, Hc, Hother. rewrite Hdb.
  cbn [with_applications applications_t credentials_t endpoints_t scanApplication App_ID] in *.
  exists r. split_and!; try done.
  - intros ->. bool_to_prop. by destruct_and!.
  - eapply (replace_good _ _ (App_ID app) r (replaced app r)); try done. cbn [replaced ar_updated_at]. lia.
Qed.

Lemma disable_effect appID updatedAt w result w' :
  DisableApplication appID updatedAt w = (Ok result, w') ->
  exists r r', applications_t (w_db w) !! appID = Some r /\ result = scanApplication appID r'
    /\ ar_enabled r' = false /\ applications_t (w_db w') = <[appID := r']> (applications_t (w_db w))
    /\ credentials_t (w_db w') = credentials_t (w_db w)
    /\ good_change (w_db w) (w_db w').
Proof.
  unfold DisableApplication. intros Hrun. rewrite transaction_ok in Hrun. begun Hrun w0 H0.
  apply bind_ok in Hrun as (app & w1 & Hup & Hrun). apply update_ok in Hup as (Hup & _). rewrite H0 in Hup.
  unfold disable_application in Hup. destruct (applications_t (w_db w) !! appID) as [r|] eqn:Hr.
  2:{ by injection Hup as <- _; run_inv. }
  injection Hup as <- Hw1. apply bind_ok in Hrun as (? & w2 & Hep & Hrun). apply update_ok in Hep as (Hep & _).
  injection Hep as _ Hep. rewrite <- Hw1 in Hep. begun Hrun w3 Hdb. apply ret_ok in Hrun as [<- <-]. rewrite Hdb.
  exists r. eexists. split_and!; [done|reflexivity|done|by rewrite <- Hep|by rewrite <- Hep|].
  eapply (replace_good _ _ appID r); rewrite <- ?Hep; cbn [with_endpoints with_applications applications_t
    credentials_t endpoints_t]; try done.
  - intros b Hb. by rewrite lookup_alter_ne.
  - intros Hinv. rewrite lookup_alter_eq. pose proof (inv_endpoint _ Hinv _ _ Hr) as He.
    cbn [ar_callback_url ar_enabled].
    destruct (endpoints_t (w_db w) !! appID), (ar_callback_url r); by simplify_eq/=.
  - cbn [ar_updated_at]. lia.
Qed.

(** ** Rotating *)

Definition revoked_at (t : Z) (c : CredentialRow) : CredentialRow :=
  mkCredentialRow (cr_api_key_hash c) (cr_encrypted_hmac_secret c) (cr_created_at c) (cr_rotated_at c) (Some t).
(** What a rotation of [a] leaves of an older credential. *)
Definition after_revoke (a : string) (t : Z) (k : string * Z) (c : CredentialRow) : CredentialRow :=
  if bool_decide (k.1 = a) && active c then revoked_at t c else c.

Lemma revoke_lookup a t db k :
  credentials_t (revoke a t db).2 !! k = after_revoke a t k <$> credentials_t db !! k.
Proof.
  unfold revoke. cbn [snd with_credentials credentials_t]. rewrite map_lookup_imap.
  by destruct (credentials_t db !! k).
Qed.
Lemma after_revoke_same a t k c :
  cr_api_key_hash (after_revoke a t k c) = cr_api_key_hash c
  /\ cr_encrypted_hmac_secret (after_revoke a t k c) = cr_encrypted_hmac_secret c
  /\ (active c = false -> after_revoke a t k c = c)
  /\ (k.1 = a -> active (after_revoke a t k c) = false)
  /\ (k.1 <> a -> after_revoke a t k c = c).
Proof.
  unfold after_revoke. split_and!; try by repeat case_match.
  - intros ->. by rewrite andb_false_r.
  - intros ->. rewrite bool_decide_eq_true_2 by done. cbn [andb]. by destruct (active c) eqn:?.
  - intros Hk. by rewrite bool_decide_eq_false_2.
Qed.
Lemma revoke_some a t db :
  (revoke a t db).1 <> 0 -> first_created a (revoke a t db).2 <> None.
Proof.
  unfold revoke at 1. cbn [fst]. intros Hn.
  destruct (filter _ _) as [|[k c] l] eqn:Hf; [done|].
  assert ((k, c) ∈ (k, c) :: l) as Hin by left. rewrite <- Hf in Hin.
  apply list_elem_of_filter in Hin as [Hhit Hin%elem_of_map_to_list]. cbn [fst snd] in Hhit.
  apply andb_true_iff in Hhit as [Hk%bool_decide_eq_true _].
  unfold first_created. destruct (merge_sort by_version _) as [|[? ?] ?] eqn:Hs; [|done].
  assert (versions_of a (revoke a t db).2 = []) as Hnil.
  { apply Permutation_nil. rewrite <- Hs. apply merge_sort_Permutation. }
  exfalso. assert ((k.2, after_revoke a t k c) ∈ versions_of a (revoke a t db).2) as Hx; [|rewrite Hnil in Hx; set_solver].
  unfold versions_of. apply list_elem_of_fmap. exists (k, after_revoke a t k c). split; [done|].
  apply list_elem_of_filter. split; [done|]. apply elem_of_map_to_list. by rewrite revoke_lookup, Hin.
Qed.

(** The tables after a rotation. *)
Record rotated (a hash encrypted : string) (t : Z) (db db' : AppDB) : Prop := mkRotated {
  ro_app : is_Some (applications_t db !! a);
  ro_active : exists v c, credentials_t db !! (a, v) = Some c /\ active c = true;
  ro_fresh : forall k c, credentials_t db !! k = Some c -> cr_api_key_hash c <> hash;
  ro_new : exists v row, credentials_t db !! (a, v) = None /\ active row = true
    /\ cr_api_key_hash row = hash /\ cr_encrypted_hmac_secret row = encrypted
    /\ forall k, credentials_t db' !! k
         = if decide (k = (a, v)) then Some row else after_revoke a t k <$> credentials_t db !! k;
  ro_apps : forall b, applications_t db' !! b = applications_t db !! b
    \/ exists r r', applications_t db !! b = Some r /\ applications_t db' !! b = Some r'
        /\ ar_callback_url r' = ar_callback_url r /\ ar_enabled r' = ar_enabled r
        /\ ar_created_at r' = ar_created_at r /\ ar_updated_at r <= ar_updated_at r';
  ro_endpoints : endpoints_t db' = endpoints_t db
}.

Lemma rotate_effect `{AEAD} nonce a credential t w x w' :
  RotateApplicationCredential nonce a credential t w = (Ok x, w') ->
  ac_AppID credential = a /\ exists encrypted, Encrypt (ac_HMACSecret credential) nonce = Ok encrypted
    /\ rotated a (ac_APIKeyHash credential) encrypted t (w_db w) (w_db w').
Proof.
  unfold RotateApplicationCredential. case_match eqn:Hid; [done|]. apply negb_false_iff, bool_decide_eq_true in Hid.
  unfold sealed. destruct (Encrypt (ac_HMACSecret credential) nonce) as [enc|] eqn:Henc; [|done].
  intros Hrun. split; [done|]. exists enc. split; [done|]. rewrite transaction_ok in Hrun. begun Hrun w0 H0.
  apply bind_ok in Hrun as (r & w1 & Hr & Hrun). apply query_row_ok in Hr as (Hr & H1 & _).
  apply bind_ok in Hrun as (next & w2 & Hn & Hrun). apply query_ok in Hn as (_ & H2 & _).
  apply bind_ok in Hrun as (n & w3 & Hrev & Hrun). rewrite on_error_ok in Hrev. apply update_ok in Hrev as (Hrev & _).
  rewrite H2, H1, H0 in Hrev. rewrite H0 in Hr.
  destruct (n =? 0) eqn:Hn0; [by run_inv|]. apply bind_ok in Hrun as (? & w4 & Hins & Hrun).
  rewrite on_error_ok in Hins. apply exec_ok in Hins as (Hins & _).
  apply bind_ok in Hrun as (? & w5 & Ht & Hrun). apply update_ok in Ht as (Ht & _).
  apply query_ok in Hrun as (_ & Hend & _). injection Ht as _ Ht. rewrite Hend, <- Ht. clear Hend Ht w5 w'.
  assert ((revoke a t (w_db w)).1 = n /\ (revoke a t (w_db w)).2 = w_db w3) as [Hn1 Hw3] by (by rewrite Hrev).
  unfold insert_rotated in Hins. destruct (first_created a (w_db w3)) as [created_|] eqn:Hfc.
  2:{ exfalso. apply (revoke_some a t (w_db w)); [lia|by rewrite Hw3]. }
  apply insert_credential_ok in Hins as (_ & Hkey & Hhash & Hact & Hw4). rewrite Hw4. rewrite <- Hw3 in *.
  split; cbn [touch_application with_applications with_credentials applications_t credentials_t endpoints_t snd].
  - by exists r.
  - unfold revoke in Hn1. cbn [fst] in Hn1. destruct (filter _ _) as [|[k c] l] eqn:Hf; [cbn in Hn1; lia|].
    assert ((k, c) ∈ (k, c) :: l) as Hin by left. rewrite <- Hf in Hin.
    apply list_elem_of_filter in Hin as [Hhit Hin%elem_of_map_to_list]. cbn [fst snd] in Hhit.
    apply andb_true_iff in Hhit as [Hk%bool_decide_eq_true Hc]. destruct k as [a' v]. cbn in Hk. subst a'. eauto.
  - intros k c Hk. specialize (Hhash k (after_revoke a t k c)). rewrite revoke_lookup, Hk in Hhash.
    destruct (after_revoke_same a t k c) as [Hsame _]. rewrite Hsame in Hhash. by apply Hhash.
  - exists next, (mkCredentialRow (ac_APIKeyHash credential) enc created_ t None). split_and!; [|done|done|done|].
    + rewrite revoke_lookup in Hkey. by destruct (credentials_t (w_db w) !! (a, next)).
    + intros k. cbn [revoke snd with_credentials credentials_t] in *. case_decide as Hk.
      * subst k. by rewrite lookup_insert_eq.
      * rewrite lookup_insert_ne by congruence. apply revoke_lookup.
  - intros b. destruct (decide (b = a)) as [->|Hne].
    + right. exists r. rewrite lookup_alter_eq. change (applications_t (revoke a t (w_db w)).2) with (applications_t (w_db w)).
      rewrite Hr. eexists. split; [done|]. split; [reflexivity|]. cbn. split_and!; done || lia.
    + left. by rewrite lookup_alter_ne.
  - done.
Qed.

Lemma rotated_good a hash encrypted t db db' : rotated a hash encrypted t db db' -> good_change db db'.
Proof.
  intros [Happ Hact Hfresh (v & row & Hv & Hrow & Hrh & _ & Hlook) Happs Heps].
  assert (forall b, is_Some (applications_t db' !! b) <-> is_Some (applications_t db !! b)) as Hdom.
  { intros b. destruct (Happs b) as [-> | (r & r' & -> & -> & _)]; naive_solver. }
  assert (forall k c', credentials_t db' !! k = Some c' -> k = (a, v) /\ c' = row
    \/ k <> (a, v) /\ exists c, credentials_t db !! k = Some c /\ c' = after_revoke a t k c) as Hinv'.
  { intros k c'. rewrite Hlook. case_decide; [intros [= <-]; by left|].
    destruct (credentials_t db !! k) as [c|]; [|done]. intros [= <-]. right. eauto. }
  split.
  2:{ split.
    - intros b r Hr. destruct (Happs b) as [-> | (r0 & r' & Hr0 & -> & ? & ? & ? & ?)].
      + exists r. split_and!; done || lia.
      + exists r'. assert (r0 = r) as -> by congruence. split_and!; [done|done|done|congruence].
    - intros k c Hk. rewrite Hlook, decide_False by congruence. rewrite Hk. eexists. split; [done|].
      destruct (after_revoke_same a t k c) as (? & ? & ? & _). done. }
  intros [Ho Hh Hone Hs He Heo]. split; rewrite ?Heps.
  - intros k c [[-> _]|(_ & c0 & Hc & _)]%Hinv'; apply Hdom; eauto.
  - intros k1 k2 c1 c2 [[-> ->]|(_ & d1 & H1 & ->)]%Hinv' [[-> ->]|(_ & d2 & H2 & ->)]%Hinv';
      rewrite ?(proj1 (after_revoke_same _ _ _ _)); [done| | |eauto]; intros Heq; exfalso;
      eapply Hfresh; eauto; congruence.
  - intros b v1 v2 c1 c2 [[E1 ->]|(_ & d1 & H1 & ->)]%Hinv' [[E2 ->]|(_ & d2 & H2 & ->)]%Hinv' A1 A2;
      simplify_eq; try done;
      try (destruct (after_revoke_same a t (a, v2) d2) as (_ & _ & _ & Hz & _); cbn in Hz; rewrite Hz in A2; done);
      try (destruct (after_revoke_same a t (a, v1) d1) as (_ & _ & _ & Hz & _); cbn in Hz; rewrite Hz in A1; done).
    destruct (decide (b = a)) as [->|Hne].
    + destruct (after_revoke_same a t (a, v1) d1) as (_ & _ & _ & Hz & _). cbn in Hz. by rewrite Hz in A1.
    + destruct (after_revoke_same a t (b, v1) d1) as (_ & _ & _ & _ & Z1).
      destruct (after_revoke_same a t (b, v2) d2) as (_ & _ & _ & _ & Z2).
      rewrite Z1 in A1 by done. rewrite Z2 in A2 by done. eauto.
  - intros b Hb%Hdom. destruct (decide (b = a)) as [->|Hne].
    + exists v, row. by rewrite Hlook, decide_True.
    + destruct (Hs b Hb) as (v' & c & Hc & Ha). exists v', c. rewrite Hlook, decide_False by congruence.
      rewrite Hc. cbn. destruct (after_revoke_same a t (b, v') c) as (_ & _ & _ & _ & Hz). by rewrite Hz.
  - intros b r Hr. destruct (Happs b) as [Hsame | (r0 & r' & Hr0 & Hr' & Hu & Hen & _)].
    + rewrite Hsame in Hr. eauto.
    + assert (r' = r) as <- by congruence. rewrite Hu, Hen. eauto.
  - intros b Hb%Heo. by apply Hdom.
Qed.
