(* ===== verification/AppClaims.v ===== *)
(** * What the service of applications guarantees

    The transactions of the store, in any order and with any failures, keep the
    tables consistent; a key that was revoked stays revoked; an issued key opens its
    application exactly as long as it should; and an update changes only what it was
    asked to change, whatever others commit between its read and its write. *)

From Stdlib Require Import Ascii String ZifyBool.
From Stdlib Require Import Ascii String.
From S2P Require Import Prelude GoLib Crypto Domain QueueSchema QueueService AppStore AppService AppEffects.
Import Apps.

Section claims.
Context `{AEAD, NetLib} (text_le : string -> string -> bool) (insecure : bool).

Definition store_of := postgres_applications text_le.

(** ** The transactions as steps *)

(** One transaction, with any calls failing. *)
Inductive app_step (db : AppDB) : AppDB -> Prop :=
| step_create nonce app credential faults locked :
    app_step db (w_db (CreateApplication nonce app credential (mkWorld db faults locked)).2)
| step_update app faults locked :
    app_step db (w_db (UpdateApplication app (mkWorld db faults locked)).2)
| step_swap expected app faults locked :
    app_step db (w_db (CompareAndSwapApplication expected app (mkWorld db faults locked)).2)
| step_disable appID now faults locked :
    app_step db (w_db (DisableApplication appID now (mkWorld db faults locked)).2)
| step_rotate nonce appID credential now faults locked :
    app_step db (w_db (RotateApplicationCredential nonce appID credential now (mkWorld db faults locked)).2).

(** An operation that fails has changed nothing, so its successes decide. *)
Lemma good_of_success {A} (m : M_app A) w :
  (forall e w', m w = (Err e, w') -> w_db w' = w_db w) ->
  (forall a w', m w = (Ok a, w') -> good_change (w_db w) (w_db w')) ->
  good_change (w_db w) (w_db (m w).2).
Proof.
  intros Herr Hok. destruct (m w) as [[a|e] w'] eqn:Hm; cbn [snd].
  - eauto.
  - rewrite (Herr e w' eq_refl). reflexivity.
Qed.
Lemma sealed_err {A} plain nonce (body : string -> M_app A) w e w' :
  sealed plain nonce (fun text => transaction (body text)) w = (Err e, w') -> w_db w' = w_db w.
Proof.
  unfold sealed. destruct (Encrypt plain nonce); [apply transaction_err_db|]. unfold fail. by intros [= _ <-].
Qed.

Lemma app_step_good db db' : app_step db db' -> good_change db db'.
Proof.
  intros []; match goal with |- good_change db (w_db (?m ?w).2) => apply (good_of_success m w) end.
  - intros e w'. unfold CreateApplication. case_match; [by intros [= _ <-]|]. apply sealed_err.
  - intros x w' (_ & enc & _ & Hc & ->)%create_effect. by apply created_good.
  - intros e w'. apply transaction_err_db.
  - by intros x w' (r & _ & _ & _ & _ & _ & Hg)%update_effect.
  - intros e w'. unfold CompareAndSwapApplication. case_match; [by intros [= _ <-]|]. apply transaction_err_db.
  - intros x w'. unfold CompareAndSwapApplication. case_match; [done|].
    by intros (r & _ & _ & _ & _ & _ & Hg)%update_effect.
  - intros e w'. apply transaction_err_db.
  - by intros x w' (r & r' & _ & _ & _ & _ & _ & Hg)%disable_effect.
  - intros e w'. unfold RotateApplicationCredential. case_match; [by intros [= _ <-]|]. apply sealed_err.
  - intros x w' (_ & enc & _ & Hr)%rotate_effect. by eapply rotated_good.
Qed.
Lemma app_steps_good db db' : rtc app_step db db' -> good_change db db'.
Proof. induction 1 as [|d1 d2 d3 H1 _ IH]; [reflexivity|]. transitivity d2; [by apply app_step_good|done]. Qed.

Definition empty_apps : AppDB := mkAppDB ∅ ∅ ∅.

Lemma empty_apps_inv : app_inv empty_apps.
Proof.
  split; cbn; try (intros; by rewrite lookup_empty in *); intros a Ha; rewrite lookup_empty in Ha; by destruct Ha.
Qed.

(** C39: in every reachable database each credential belongs to an application, no
    two share a hash of a key, every application has exactly one active credential,
    and its callback endpoint exists exactly when it has a callback address, with
    that address and enabled exactly when the application is. *)
Theorem app_store_invariant db : rtc app_step empty_apps db -> app_inv db.
Proof. intros Hsteps. exact (proj1 (app_steps_good _ _ Hsteps) empty_apps_inv). Qed.

(** ** Authentication *)

Lemma find_active_some P db k c :
  find_active P db = Some (k, c) -> credentials_t db !! k = Some c /\ P k c = true /\ active c = true.
Proof.
  unfold find_active. intros Hf. apply find_some in Hf as [Hin Hp]. cbn [fst snd] in Hp.
  apply andb_true_iff in Hp. by apply list_elem_of_In, elem_of_map_to_list in Hin.
Qed.
Lemma find_active_hash db k c h :
  app_inv db -> credentials_t db !! k = Some c -> cr_api_key_hash c = h ->
  find_active (fun _ c => bool_decide (cr_api_key_hash c = h)) db = if active c then Some (k, c) else None.
Proof.
  intros Hinv Hk Hh. destruct (find_active _ db) as [[k' c']|] eqn:Hf.
  - apply find_active_some in Hf as (Hk' & Hh' & Ha). apply bool_decide_eq_true in Hh'.
    assert (k' = k) as -> by (eapply inv_hash; eauto; congruence).
    assert (c' = c) as -> by congruence. by rewrite Ha.
  - destruct (active c) eqn:Ha; [|done]. unfold find_active in Hf.
    apply (find_none _ _ ) with (x := (k, c)) in Hf; [|by apply list_elem_of_In, elem_of_map_to_list].
    cbn [fst snd] in Hf. by rewrite Ha, bool_decide_eq_true_2 in Hf.
Qed.

(** A key that is refused is refused as unauthorized. *)
Lemma authenticate_refusal others key w e w' :
  AuthenticateAPIKey store_of others key w = (Err e, w') -> e = ErrUnauthorized.
Proof.
  unfold AuthenticateAPIKey. case_match; [by intros [= <- _]|].
  unfold mbind, M_bind, on_error, fail, others_commit.
  repeat (case_match; simplify_eq/=; try (by intros [= <- _]); try done).
Qed.
Lemma authenticate_ok others key w aa w' :
  AuthenticateAPIKey store_of others key w = (Ok aa, w') ->
  exists v c r, credentials_t (w_db w) !! (App_ID (aa_App aa), v) = Some c /\ active c = true
    /\ cr_api_key_hash c = hashAPIKey key
    /\ applications_t (others (w_db w)) !! App_ID (aa_App aa) = Some r /\ ar_enabled r = true
    /\ aa_App aa = scanApplication (App_ID (aa_App aa)) r.
Proof.
  unfold AuthenticateAPIKey. case_match; [done|]. intros Hrun.
  apply bind_ok in Hrun as (cred & w1 & Hcred & Hrun). rewrite on_error_ok in Hcred.
  cbn [as_FindByHash store_of postgres_applications] in Hcred. unfold FindCredentialByAPIKeyHash, read_credential in Hcred.
  apply bind_ok in Hcred as ([k c] & w2 & Hrow & Hcred). apply query_row_ok in Hrow as (Hrow & Hw2 & _).
  destruct (Decrypt (cr_encrypted_hmac_secret c)) as [secret|]; [|by run_inv]. apply ret_ok in Hcred as [<- <-].
  cbn [ac_AppID ac_HMACSecret] in Hrun. apply bind_ok in Hrun as (? & w3 & Ho & Hrun). injection Ho as _ <-.
  apply bind_ok in Hrun as (app & w4 & Happ & Hrun). rewrite on_error_ok in Happ.
  apply query_row_ok in Happ as (Happ & _). cbn [w_db set_db] in Happ. rewrite Hw2 in Happ.
  apply find_active_some in Hrow as (Hk & Hh & Ha). apply bool_decide_eq_true in Hh. destruct k as [a v].
  cbn [fst] in Happ. destruct (applications_t (others (w_db w)) !! a) as [r|] eqn:Hr; [|done]. injection Happ as <-.
  destruct (App_Enabled (scanApplication a r)) eqn:Hen; [|by run_inv]. apply ret_ok in Hrun as [<- _].
  exists v, c, r. by split_and!.
Qed.

Lemma revoked_refused key k c db others w :
  app_inv db -> credentials_t db !! k = Some c -> cr_api_key_hash c = hashAPIKey key ->
  (active c = false \/ exists r, applications_t db !! k.1 = Some r /\ ar_enabled r = false) ->
  rtc app_step db (w_db w) -> rtc app_step (w_db w) (others (w_db w)) ->
  (AuthenticateAPIKey store_of others key w).1 = Err ErrUnauthorized.
Proof.
  intros Hinv Hk Hh Hoff Hsteps Hothers.
  destruct (AuthenticateAPIKey store_of others key w) as [[aa|e] w'] eqn:Hauth; cbn [fst].
  2:{ by apply authenticate_refusal in Hauth as ->. }
  exfalso. apply authenticate_ok in Hauth as (v & c2 & r2 & Hc2 & Ha2 & Hh2 & Hr2 & Hen & _).
  destruct (app_steps_good _ _ Hsteps) as [Hinv' Hle]. destruct (app_steps_good _ _ Hothers) as [_ Hle'].
  specialize (Hinv' Hinv). destruct (le_cred _ _ Hle _ _ Hk) as (c1 & Hc1 & Hh1 & _ & Hrev).
  assert (k = (App_ID (aa_App aa), v)) as -> by (eapply inv_hash; eauto; congruence).
  destruct Hoff as [Hoff|(r & Hr & Hoff)].
  - assert (c2 = c) as -> by (rewrite (Hrev Hoff) in *; congruence). congruence.
  - cbn [fst] in Hr. destruct (le_app _ _ Hle _ _ Hr) as (r1 & Hr1 & _ & _ & H1).
    destruct (le_app _ _ Hle' _ _ Hr1) as (r3 & Hr3 & _ & _ & H3).
    assert (r3 = r2) as -> by congruence. rewrite (H3 (H1 Hoff)) in Hen. done.
Qed.

(** Disabling an application takes effect for good: the row and its callback
    endpoint are disabled, and every key it ever had is refused from then on,
    whatever transactions follow and whatever is committed while a key is checked. *)
Theorem disabled_app_refused now appID w app w' :
  app_inv (w_db w) -> Disable store_of now appID w = (Ok app, w') ->
  App_ID app = appID /\ App_Enabled app = false
  /\ (forall e, endpoints_t (w_db w') !! appID = Some e -> ep_enabled e = false)
  /\ forall v c key later others, credentials_t (w_db w) !! (appID, v) = Some c ->
       cr_api_key_hash c = hashAPIKey key -> rtc app_step (w_db w') (w_db later) ->
       rtc app_step (w_db later) (others (w_db later)) ->
       (AuthenticateAPIKey store_of others key later).1 = Err ErrUnauthorized.
Proof.
  intros Hinv Hrun. unfold Disable, mapped in Hrun. rewrite on_error_ok in Hrun.
  apply disable_effect in Hrun as (r & r' & Hr & -> & Hoff & Happ & Hcred & Hinv' & _). specialize (Hinv' Hinv).
  assert (applications_t (w_db w') !! appID = Some r') as Hr' by (by rewrite Happ, lookup_insert_eq).
  split_and!; [done|done| |].
  - intros e He. pose proof (inv_endpoint _ Hinv' _ _ Hr') as Hep. rewrite He in Hep. cbn in Hep.
    destruct (ar_callback_url r'); [|done]. injection Hep as _ ->. done.
  - intros v c key later others Hc Hh Hsteps Hothers. rewrite <- Hcred in Hc.
    eapply (revoked_refused key (appID, v) c (w_db w')); eauto.
Qed.

(** The credential with this hash opens the application while both are on. *)
Lemma authenticate_issued key a v c r secret w :
  app_inv (w_db w) -> w_faults w = [] -> key <> "" ->
  credentials_t (w_db w) !! (a, v) = Some c -> cr_api_key_hash c = hashAPIKey key ->
  Decrypt (cr_encrypted_hmac_secret c) = Some secret -> applications_t (w_db w) !! a = Some r ->
  (AuthenticateAPIKey store_of id key w).1
  = if active c && ar_enabled r then Ok (mkAuthenticatedApp (scanApplication a r) secret) else Err ErrUnauthorized.
Proof.
  intros Hinv Hf Hkey Hc Hh Hdec Hr. unfold AuthenticateAPIKey. rewrite bool_decide_eq_false_2 by done.
  pose proof (find_active_hash _ _ _ _ Hinv Hc Hh) as Hfind.
  unfold mbind, M_bind, on_error. cbn [as_FindByHash store_of postgres_applications as_Get].
  unfold FindCredentialByAPIKeyHash, read_credential, mbind, M_bind, query_row at 1, exec at 1. rewrite Hf, Hfind.
  destruct (active c); [|done]. cbn [andb]. rewrite Hdec. cbn [mret M_ret ac_AppID ac_HMACSecret fst].
  unfold others_commit, GetApplication, query_row, exec. cbn [set_db w_db w_faults w_locked].
  unfold id. rewrite Hr. cbn [fmap option_fmap option_map scanApplication App_Enabled]. by destruct (ar_enabled r).
Qed.

(** ** Updating *)

(** The row an update leaves of [r]: the fields it was given replaced, everything
    else kept. *)
Definition updated_row (now : Z) (input : UpdateApp) (a : string) (r : ApplicationRow) : ApplicationRow :=
  replaced (set_UpdatedAt now (merge_update input (scanApplication a r))) r.

(** The fields the store compares. *)
Definition editable (r : ApplicationRow) : string * option string * DeliveryMode :=
  (ar_name r, ar_callback_url r, ar_delivery_mode r).

Lemma exec_error {A} (stmt : gset string -> AppDB -> res (A * AppDB)) w e w' :
  exec stmt w = (Err e, w') -> e = DriverError \/ stmt (w_locked w) (w_db w) = Err e.
Proof. unfold exec. destruct (w_faults w) as [|[] ?]; intros; repeat case_match; simplify_eq; eauto. Qed.

(** Why an update in the store fails. *)
Lemma update_body_err expected app compare w e w' :
  updateApplication expected app compare w = (Err e, w') ->
  e = DriverError
  \/ (e = StoreConflict \/ e = StoreNotFound)
     /\ (update_application (if compare then Some expected else None) app (w_db w)).1 = None
     /\ (e = StoreConflict -> compare = true).
Proof.
  intros Hup. apply transaction_err in Hup as (w4 & Hbody).
  apply bind_err in Hbody as [Hb%exec_error|(? & w5 & Hb & Hbody)]; [by destruct Hb; [left|]|].
  apply query_ok in Hb as (_ & Hw5 & _).
  apply bind_err in Hbody as [Hb%exec_error|(u & w6 & Hb & Hbody)]; [by destruct Hb; [left|]|].
  apply update_ok in Hb as (Hb & _). rewrite Hw5 in Hb. destruct u as [u|].
  - left. apply bind_err in Hbody as [Hb'|(? & w7 & _ & Hbody)].
    { unfold syncCallback in Hb'. case_match; apply exec_error in Hb'; by destruct Hb'. }
    apply bind_err in Hbody as [Hb'%exec_error|(? & w8 & _ & Hbody)]; [by destruct Hb'|done].
  - apply bind_err in Hbody as [Hb'%exec_error|(found & w7 & _ & Hbody)]; [by destruct Hb'; [left|]|].
    right. unfold fail in Hbody. split_and!; [|by rewrite Hb|];
      (destruct (found && compare) eqn:Hx; injection Hbody as <- _; [apply andb_true_iff in Hx as [_ ->]|]; naive_solver).
Qed.

(** One attempt, with what it read, and what it found when it wrote. *)
Lemma update_attempt_ok env a input w result w' :
  update_attempt store_of insecure env a input w = (Ok result, w') ->
  let db := up_others env (w_db w) in
  exists r0, applications_t (w_db w) !! a = Some r0
    /\ match result with
       | Some app => exists r, applications_t db !! a = Some r /\ editable r = editable r0
           /\ app = scanApplication a (updated_row (up_now env) input a r)
           /\ applications_t (w_db w') = <[a := updated_row (up_now env) input a r]> (applications_t db)
           /\ credentials_t (w_db w') = credentials_t db
           /\ validate insecure (App_Name app) (App_CallbackURL app) (App_DeliveryMode app) = true
       | None => w_db w' = db /\ forall r, applications_t db !! a = Some r -> editable r <> editable r0
       end.
Proof.
  intros Hrun db. unfold update_attempt in Hrun. case_match; [done|].
  apply bind_ok in Hrun as (expected & w1 & Hget & Hrun). unfold Get, mapped in Hget. rewrite on_error_ok in Hget.
  apply query_row_ok in Hget as (Hget & Hw1 & _).
  destruct (applications_t (w_db w) !! a) as [r0|] eqn:Hr0; [|done]. injection Hget as <-. exists r0. split; [done|].
  destruct (validate insecure _ _ _) eqn:Hval; [|by run_inv]. cbn [negb] in Hrun.
  apply bind_ok in Hrun as (? & w2 & Ho & Hrun). injection Ho as _ <-. rewrite Hw1 in Hrun. fold db in Hrun.
  unfold on_error in Hrun. cbn [as_CompareAndSwap store_of postgres_applications] in Hrun.
  unfold mbind at 1, M_bind at 1 in Hrun. unfold CompareAndSwapApplication in Hrun.
  rewrite bool_decide_eq_true_2 in Hrun by done. cbn [negb] in Hrun.
  destruct (updateApplication _ _ true _) as [[app|e] w3] eqn:Hup.
  - injection Hrun as <- <-. apply update_effect in Hup as (r & Hr & Hcmp & -> & Happ & Hcred & _).
    cbn [w_db set_db] in *. destruct (Hcmp eq_refl) as (Hn & Hu & Hm).
    cbn [scanApplication App_Name App_CallbackURL App_DeliveryMode] in Hn, Hu, Hm.
    assert (updated_row (up_now env) input a r
      = replaced (set_UpdatedAt (up_now env) (merge_update input (scanApplication a r0))) r) as Hrow.
    { unfold updated_row, merge_update, replaced, set_UpdatedAt, scanApplication. cbn. by rewrite Hn, Hu, Hm. }
    exists r. rewrite Hrow. split_and!; try done. unfold editable. congruence.
  - case_bool_decide as He; [|by run_inv]. subst e. injection Hrun as <- <-.
    split; [by apply transaction_err_db in Hup|]. intros r Hr Heq. unfold editable in Heq. injection Heq as Hn Hu Hm.
    apply update_body_err in Hup as [?|(_ & Hbody & _)]; [done|]. cbn [w_db set_db] in Hbody.
    unfold update_application in Hbody.
    cbn [set_UpdatedAt merge_update scanApplication App_ID App_Name App_CallbackURL App_DeliveryMode] in Hbody.
    by rewrite Hr, Hn, Hu, Hm, !bool_decide_eq_true_2 in Hbody by done.
Qed.

Lemma update_attempt_no_conflict env a input w w' :
  update_attempt store_of insecure env a input w <> (Err ErrConflict, w').
Proof.
  unfold update_attempt. case_match; [done|]. intros Hrun.
  apply bind_err in Hrun as [Hget|(expected & w1 & _ & Hrun)].
  { unfold Get, mapped, on_error in Hget. cbn [as_Get store_of postgres_applications] in Hget.
    unfold GetApplication, query_row, exec, fail in Hget. by repeat case_match; simplify_eq/=. }
  case_match; [done|]. apply bind_err in Hrun as [Ho|(? & w2 & _ & Hrun)]; [done|].
  unfold on_error, mbind at 1, M_bind at 1 in Hrun. cbn [as_CompareAndSwap store_of postgres_applications] in Hrun.
  unfold CompareAndSwapApplication in Hrun.
  rewrite bool_decide_eq_true_2 in Hrun by done. cbn [negb] in Hrun.
  destruct (updateApplication _ _ true w2) as [[?|e] w3] eqn:Hup; [done|].
  case_bool_decide; [done|]. unfold fail in Hrun. injection Hrun as He _.
  apply update_body_err in Hup as [-> |([-> | ->] & _)]; done.
Qed.

(** An update that succeeds changes, in the row as it is at the moment of the
    write, exactly the fields it was given: the other fields keep what others may
    have committed meanwhile, as do the credentials and whether the application is
    enabled, and the merged configuration is valid. *)
Theorem update_merges envs a input w app w' :
  Update store_of insecure envs a input w = (Ok app, w') ->
  exists n before r, (n < 16)%nat /\ let db := up_others (envs n) before in
    applications_t db !! a = Some r
    /\ app = scanApplication a (updated_row (up_now (envs n)) input a r)
    /\ applications_t (w_db w') = <[a := updated_row (up_now (envs n)) input a r]> (applications_t db)
    /\ credentials_t (w_db w') = credentials_t db
    /\ ar_enabled (updated_row (up_now (envs n)) input a r) = ar_enabled r
    /\ validate insecure (App_Name app) (App_CallbackURL app) (App_DeliveryMode app) = true.
Proof.
  intros Hrun. assert (update_loop store_of insecure 16 envs a input w = (Ok app, w')) as Hloop.
  { unfold Update in Hrun. by repeat case_match. }
  clear Hrun. revert w Hloop. generalize 16%nat. intros turns. induction turns as [|turns IH]; [done|].
  intros w Hloop. cbn [update_loop] in Hloop. apply bind_ok in Hloop as (result & w1 & Hatt & Hloop).
  apply update_attempt_ok in Hatt as (r0 & Hr0 & Hatt). destruct result as [app'|].
  - apply ret_ok in Hloop as [<- <-]. destruct Hatt as (r & Hr & _ & -> & Happ & Hcred & Hval).
    exists turns, (w_db w), r. split; [lia|]. by split_and!.
  - destruct (IH w1 Hloop) as (n & before & r & Hn & Hres). exists n, before, r. split; [lia|done].
Qed.

(** An update gives up with a conflict only when at every one of its sixteen
    attempts others changed one of the compared fields between its read and its
    write. *)
Theorem update_conflict_contended envs a input w w' :
  Update store_of insecure envs a input w = (Err ErrConflict, w') ->
  forall n, (n < 16)%nat -> exists before r0, applications_t before !! a = Some r0
    /\ forall r, applications_t (up_others (envs n) before) !! a = Some r -> editable r <> editable r0.
Proof.
  intros Hrun. assert (update_loop store_of insecure 16 envs a input w = (Err ErrConflict, w')) as Hloop.
  { unfold Update in Hrun. by repeat case_match. }
  clear Hrun. revert w Hloop. generalize 16%nat. intros turns. induction turns as [|turns IH]; [lia|].
  intros w Hloop n Hn. cbn [update_loop] in Hloop. apply bind_err in Hloop as [Herr|(result & w1 & Hatt & Hloop)].
  - exfalso. by apply update_attempt_no_conflict in Herr.
  - apply update_attempt_ok in Hatt as (r0 & Hr0 & Hatt). destruct result as [app'|]; [done|].
    destruct Hatt as [_ Hdiff]. destruct (decide (n = turns)) as [->|Hne]; [by exists (w_db w), r0|].
    apply (IH w1 Hloop). lia.
Qed.

Context {laws : AEADLaws}.

(** What is promised about a pair of credentials from the moment they are issued:
    they are stored and not revoked, and at any later time they open the application
    with the secret that came with them, unless this credential has been revoked since
    or the application is disabled. *)
Definition opens (issued : AppCredentials) (db : AppDB) : Prop :=
  exists v, (exists c, credentials_t db !! (acs_AppID issued, v) = Some c /\ cr_revoked_at c = None)
  /\ forall w, rtc app_step db (w_db w) -> w_faults w = [] ->
    exists r c, applications_t (w_db w) !! acs_AppID issued = Some r
      /\ credentials_t (w_db w) !! (acs_AppID issued, v) = Some c
      /\ (AuthenticateAPIKey store_of id (acs_APIKey issued) w).1
         = if bool_decide (cr_revoked_at c = None) && ar_enabled r
           then Ok (mkAuthenticatedApp (scanApplication (acs_AppID issued) r) (acs_HMACSecret issued))
           else Err ErrUnauthorized.

Lemma active_unrevoked c : active c = bool_decide (cr_revoked_at c = None).
Proof using Type. unfold active. by destruct (cr_revoked_at c). Qed.
Lemma opens_from db a v c r key secret nonce :
  app_inv db -> credentials_t db !! (a, v) = Some c -> applications_t db !! a = Some r ->
  cr_api_key_hash c = hashAPIKey key -> cr_revoked_at c = None -> key <> "" -> len nonce = NonceSize ->
  Encrypt secret (Some nonce) = Ok (cr_encrypted_hmac_secret c) ->
  opens (mkAppCredentials a key secret) db.
Proof using Type* laws.
  intros Hinv Hc Hr Hh Hact Hkey Hn Henc. exists v. cbn [acs_AppID acs_APIKey acs_HMACSecret]. split; [by exists c|].
  intros w Hsteps Hf.
  destruct (app_steps_good _ _ Hsteps) as [Hinv' Hle]. specialize (Hinv' Hinv).
  destruct (le_cred _ _ Hle _ _ Hc) as (c' & Hc' & Hh' & He' & _).
  destruct (le_app _ _ Hle _ _ Hr) as (r' & Hr' & _). exists r', c'. split_and!; [done|done|].
  rewrite <- active_unrevoked. eapply authenticate_issued; eauto; [congruence|]. rewrite He'. by eapply decrypt_encrypt.
Qed.
(** So they open it at once, if it is enabled. *)
Lemma opens_now issued w r :
  opens issued (w_db w) -> w_faults w = [] -> applications_t (w_db w) !! acs_AppID issued = Some r -> ar_enabled r = true ->
  (AuthenticateAPIKey store_of id (acs_APIKey issued) w).1
  = Ok (mkAuthenticatedApp (scanApplication (acs_AppID issued) r) (acs_HMACSecret issued)).
Proof using Type.
  intros (v & (c & Hc & Hact) & Hlater) Hf Hr Hen. destruct (Hlater w (rtc_refl _ _) Hf) as (r' & c' & Hr' & Hc' & ->).
  assert (c' = c) as -> by congruence. assert (r' = r) as -> by congruence. by rewrite bool_decide_true, Hen.
Qed.

(** Creating an application stores it enabled and returns credentials that open
    it, until it is disabled or they are rotated away. *)
Theorem created_app_opens now random nonce input w app issued w' :
  app_inv (w_db w) -> rnd_nonce random = Some nonce -> len nonce = NonceSize ->
  Create store_of insecure now random input w = (Ok (app, issued), w') ->
  applications_t (w_db w) !! App_ID app = None
  /\ applications_t (w_db w') !! App_ID app
     = Some (mkApplicationRow (TrimSpace (ca_Name input)) (ca_CallbackURL input) (ca_DeliveryMode input) true now now)
  /\ validate insecure (TrimSpace (ca_Name input)) (ca_CallbackURL input) (ca_DeliveryMode input) = true
  /\ acs_AppID issued = App_ID app /\ opens issued (w_db w').
Proof using Type* laws.
  intros Hinv Hnonce Hlen. unfold Create. case_match eqn:Hval; [done|]. apply negb_false_iff in Hval. intros Hrun.
  unfold lift, randomValue in Hrun.
  destruct (rnd_id random) as [rid|]; [|done]. destruct (rnd_key random) as [rkey|]; [|done].
  destruct (rnd_secret random) as [rsec|]; [|done]. unfold mbind, M_bind in Hrun.
  destruct (mapped _ w) as [[u|e] w1] eqn:Hm; [|done]. injection Hrun as <- <- <-.
  unfold mapped in Hm. rewrite on_error_ok in Hm. apply create_effect in Hm as (_ & enc & Henc & Hcr & Hdb).
  cbn [ac_APIKeyHash ac_HMACSecret] in *. rewrite Hnonce in Henc.
  pose proof (created_good _ _ enc _ Hcr) as [Hinv' _]. specialize (Hinv' Hinv). rewrite <- Hdb in Hinv'.
  cbn [App_ID acs_AppID]. split_and!; [apply Hcr| |done|done|].
  - rewrite Hdb. unfold created. cbn [applications_t App_ID]. by rewrite lookup_insert_eq.
  - eapply opens_from with (v := 1); [done|rewrite Hdb; apply lookup_insert_eq|rewrite Hdb; apply lookup_insert_eq
      |done|done|done|done|done].
Qed.

(** C40: rotating the secret of an application returns credentials that are stored
    unrevoked and open it at once when it is enabled, and later as long as they are not
    revoked and it is enabled; and every key it had before is refused from then on,
    whatever transactions follow. *)
Theorem rotation_replaces_key now random nonce appID w issued w' :
  app_inv (w_db w) -> rnd_nonce random = Some nonce -> len nonce = NonceSize ->
  RotateSecret store_of now random appID w = (Ok issued, w') ->
  acs_AppID issued = appID /\ opens issued (w_db w')
  /\ (forall r lk, applications_t (w_db w') !! appID = Some r -> ar_enabled r = true ->
        (AuthenticateAPIKey store_of id (acs_APIKey issued) (mkWorld (w_db w') [] lk)).1
        = Ok (mkAuthenticatedApp (scanApplication appID r) (acs_HMACSecret issued)))
  /\ forall v c key later others, credentials_t (w_db w) !! (appID, v) = Some c ->
       cr_api_key_hash c = hashAPIKey key -> rtc app_step (w_db w') (w_db later) ->
       rtc app_step (w_db later) (others (w_db later)) ->
       (AuthenticateAPIKey store_of others key later).1 = Err ErrUnauthorized.
Proof using Type* laws.
  intros Hinv Hnonce Hlen Hrun. unfold RotateSecret, lift, randomValue in Hrun.
  destruct (rnd_key random) as [rkey|]; [|done]. destruct (rnd_secret random) as [rsec|]; [|done].
  unfold mbind, M_bind in Hrun. destruct (mapped _ w) as [[u|e] w1] eqn:Hm; [|done]. injection Hrun as <- <-.
  unfold mapped in Hm. rewrite on_error_ok in Hm. apply rotate_effect in Hm as (_ & enc & Henc & Hrot).
  cbn [ac_APIKeyHash ac_HMACSecret acs_AppID] in *. rewrite Hnonce in Henc.
  pose proof (rotated_good _ _ _ _ _ _ Hrot) as [Hinv' Hle]. specialize (Hinv' Hinv).
  destruct Hrot as [[r Hr] _ _ (v & row & Hv & Hact & Hhash & Hencr & Hlook) _ _].
  destruct (le_app _ _ Hle _ _ Hr) as (r' & Hr' & _).
  assert (opens (mkAppCredentials appID ("rhk_" ++ b64_EncodeToString rkey) ("rhs_" ++ b64_EncodeToString rsec)) (w_db w1)) as Hopens.
  { eapply (opens_from _ appID v row r' _ _ nonce); [done| |done|done| |done|done|by rewrite Hencr].
    - by rewrite Hlook, decide_True.
    - rewrite active_unrevoked in Hact. by apply bool_decide_eq_true in Hact. }
  split_and!; [done|done| |].
  - intros r0 lk Hr0 Hen. by apply (opens_now _ (mkWorld (w_db w1) [] lk) r0 Hopens).
  - intros v' c key later others Hc Hh Hsteps Hothers.
    destruct (after_revoke_same appID now (appID, v') c) as (Hh' & _ & _ & Hoff & _).
    eapply (revoked_refused key (appID, v') (after_revoke appID now (appID, v') c) (w_db w1)); eauto.
    + rewrite Hlook, decide_False by congruence. by rewrite Hc.
    + congruence.
Qed.
End claims.

(** * Applications: instances *)

(** A seal that appends sixteen bytes, and a network library that knows one address. *)
Definition seal_tag : string := "0123456789abcdef".
#[export] Instance tag_aead : AEAD := {
  aead_Seal _ plain _ := (plain ++ seal_tag)%string;
  aead_Open _ text _ := CutSuffix text seal_tag
}.
#[export] Instance tag_laws : AEADLaws.
Proof.
  split.
  - intros nonce plain ad. apply (proj2 (CutSuffix_Some (plain ++ seal_tag) seal_tag plain)). done.
  - intros nonce plain ad. cbn [aead_Seal tag_aead]. rewrite !len_bytes, bytes_app, length_app. change (length (bytes seal_tag)) with 16%nat.
    unfold Overhead. lia.
Qed.
#[export] Instance hooks_net : NetLib := {
  url_Parse text := if bool_decide (text = "https://hooks.example.com/relay")
                    then Some (mkURL "https" "hooks.example.com" "hooks.example.com" None "") else None;
  net_ParseIP _ := None
}.

Lemma pair_result {A B} (p : A * B) a : p.1 = a -> p = (a, p.2).
Proof. destruct p. by intros <-. Qed.

Definition bytewise (a b : string) : bool := bool_decide (String.le a b).
Abbreviation the_store := (store_of bytewise).

Definition quiet_world (db : AppDB) : World AppDB := mkWorld db [] ∅.
Definition shop_random (n : string) : AppRandom :=
  mkAppRandom (Some ("id" ++ n)) (Some ("key" ++ n)) (Some ("secret" ++ n)) (Some "nonce-123456").
Definition shop : CreateApp :=
  mkCreateApp " Shop " (Some "https://hooks.example.com/relay") DeliveryAll.

Definition shop_created := Create the_store false 1000 (shop_random "1") shop (quiet_world empty_apps).
Definition shop_result : App * AppCredentials :=
  match shop_created.1 with
  | Ok result => result
  | Err _ => (mkApp "" "" None DeliveryQueue false 0 0, mkAppCredentials "" "" "")
  end.
Definition shop_app : App := shop_result.1.
Definition shop_keys : AppCredentials := shop_result.2.
Definition shop_db : AppDB := w_db shop_created.2.

Lemma shop_created_ok : shop_created = (Ok (shop_app, shop_keys), quiet_world shop_db).
Proof. vm_compute. reflexivity. Qed.

Lemma created_app_opens_witness :
  App_Name shop_app = "Shop" /\ opens bytewise shop_keys shop_db.
Proof.
  split; [vm_compute; reflexivity|].
  apply (created_app_opens bytewise false 1000 (shop_random "1") "nonce-123456" shop (quiet_world empty_apps)
    shop_app shop_keys (quiet_world shop_db)).
  - exact empty_apps_inv.
  - reflexivity.
  - reflexivity.
  - exact shop_created_ok.
Defined.

Lemma app_store_invariant_witness : app_inv shop_db.
Proof.
  apply app_store_invariant. apply rtc_once.
  replace shop_db with (w_db (CreateApplication (Some "nonce-123456") shop_app
    (mkAppCredential (acs_AppID shop_keys) (hashAPIKey (acs_APIKey shop_keys)) (acs_HMACSecret shop_keys) 0 None)
    (mkWorld empty_apps [] ∅)).2) by (vm_compute; reflexivity).
  apply step_create.
Defined.

Lemma shop_db_inv : app_inv shop_db.
Proof.
  replace shop_db with (w_db (CreateApplication (Some "nonce-123456") shop_app
    (mkAppCredential (acs_AppID shop_keys) (hashAPIKey (acs_APIKey shop_keys)) (acs_HMACSecret shop_keys) 0 None)
    (mkWorld empty_apps [] ∅)).2) by (vm_compute; reflexivity).
  apply (app_step_good empty_apps); [apply step_create|apply empty_apps_inv].
Qed.

(** The hash of the first key, as it is stored. *)
Definition shop_credential : CredentialRow :=
  default (mkCredentialRow "" "" 0 0 None) (credentials_t shop_db !! (App_ID shop_app, 1)).

Definition shop_disabled := Disable the_store 2000 (App_ID shop_app) (quiet_world shop_db).
Lemma shop_disabled_ok : Disable the_store 2000 (App_ID shop_app) (quiet_world shop_db) = (Ok (mkApp (App_ID shop_app) "Shop" (Some "https://hooks.example.com/relay") DeliveryAll false 1000 2000), shop_disabled.2).
Proof. apply (pair_result shop_disabled). vm_compute. reflexivity. Qed.
Lemma disabled_app_refused_witness :
  (AuthenticateAPIKey the_store id (acs_APIKey shop_keys) shop_disabled.2).1 = Err ErrUnauthorized.
Proof.
  destruct (disabled_app_refused bytewise 2000 (App_ID shop_app) (quiet_world shop_db)
    (mkApp (App_ID shop_app) "Shop" (Some "https://hooks.example.com/relay") DeliveryAll false 1000 2000)
    shop_disabled.2 shop_db_inv shop_disabled_ok) as (_ & _ & _ & Hrefused).
  apply (Hrefused 1 shop_credential).
  - vm_compute. reflexivity.
  - vm_compute. reflexivity.
  - apply rtc_refl.
  - apply rtc_refl.
Defined.

Definition shop_rotated := RotateSecret the_store 3000 (shop_random "2") (App_ID shop_app) (quiet_world shop_db).
Definition new_keys : AppCredentials :=
  match shop_rotated.1 with Ok keys => keys | Err _ => mkAppCredentials "" "" "" end.
Lemma shop_rotated_ok : RotateSecret the_store 3000 (shop_random "2") (App_ID shop_app) (quiet_world shop_db) = (Ok new_keys, shop_rotated.2).
Proof. apply (pair_result shop_rotated). vm_compute. reflexivity. Qed.
Lemma rotation_replaces_key_witness :
  opens bytewise new_keys (w_db shop_rotated.2)
  /\ (exists app, (AuthenticateAPIKey the_store id (acs_APIKey new_keys) (quiet_world (w_db shop_rotated.2))).1
        = Ok (mkAuthenticatedApp app (acs_HMACSecret new_keys)))
  /\ (AuthenticateAPIKey the_store id (acs_APIKey shop_keys) shop_rotated.2).1 = Err ErrUnauthorized.
Proof.
  destruct (rotation_replaces_key bytewise 3000 (shop_random "2") "nonce-123456" (App_ID shop_app)
    (quiet_world shop_db) new_keys shop_rotated.2 shop_db_inv eq_refl eq_refl
    shop_rotated_ok)
    as (_ & Hopens & Hnow & Hrefused).
  split; [exact Hopens|]. split.
  { destruct (applications_t (w_db shop_rotated.2) !! App_ID shop_app) as [r|] eqn:Hr; [|vm_compute in Hr; discriminate].
    eexists. apply (Hnow r ∅ eq_refl). vm_compute in Hr. injection Hr as <-. reflexivity. }
  apply (Hrefused 1 shop_credential).
  - vm_compute. reflexivity.
  - vm_compute. reflexivity.
  - apply rtc_refl.
  - apply rtc_refl.
Defined.

(** Someone else renames the application between the read and the write. *)
Definition renamed (db : AppDB) : AppDB :=
  with_applications (alter (fun r => mkApplicationRow (ar_name r ++ "!") (ar_callback_url r) (ar_delivery_mode r)
    (ar_enabled r) (ar_created_at r) (ar_updated_at r)) (App_ID shop_app) (applications_t db)) db.
Definition contended (from : nat) (n : nat) : UpdateAttempt :=
  mkUpdateAttempt false 4000 (if (from <=? n)%nat then renamed else id).
Definition to_queue : UpdateApp := mkUpdateApp None (Some None) (Some DeliveryQueue).

(** Two attempts lose, the third writes. *)
Definition shop_updated := Update the_store false (contended 14) (App_ID shop_app) to_queue (quiet_world shop_db).
Lemma shop_updated_ok : Update the_store false (contended 14) (App_ID shop_app) to_queue (quiet_world shop_db) = (Ok (mkApp (App_ID shop_app) "Shop!!" None DeliveryQueue true 1000 4000), shop_updated.2).
Proof. apply (pair_result shop_updated). vm_compute. reflexivity. Qed.
Lemma update_merges_witness :
  exists n before r, (n < 16)%nat
    /\ applications_t (up_others (contended 14 n) before) !! App_ID shop_app = Some r
    /\ applications_t (w_db shop_updated.2)
       = <[App_ID shop_app := updated_row 4000 to_queue (App_ID shop_app) r]>
           (applications_t (up_others (contended 14 n) before)).
Proof.
  destruct (update_merges bytewise false (contended 14) (App_ID shop_app) to_queue (quiet_world shop_db)
    (mkApp (App_ID shop_app) "Shop!!" None DeliveryQueue true 1000 4000) shop_updated.2
    shop_updated_ok) as (n & before & r & Hn & Hr & _ & Happ & _).
  exists n, before, r. split; [exact Hn|]. split; [exact Hr|]. exact Happ.
Defined.

(** All sixteen lose. *)
Definition shop_contended := Update the_store false (contended 0) (App_ID shop_app) to_queue (quiet_world shop_db).
Lemma shop_contended_ok : Update the_store false (contended 0) (App_ID shop_app) to_queue (quiet_world shop_db) = (Err ErrConflict, shop_contended.2).
Proof. apply (pair_result shop_contended). vm_compute. reflexivity. Qed.
Lemma update_conflict_contended_witness :
  exists before r0, applications_t before !! App_ID shop_app = Some r0
    /\ forall r, applications_t (renamed before) !! App_ID shop_app = Some r -> editable r <> editable r0.
Proof.
  apply (update_conflict_contended bytewise false (contended 0) (App_ID shop_app) to_queue (quiet_world shop_db)
    shop_contended.2 shop_contended_ok 7%nat). repeat constructor.
Defined.
