(* ===== verification/DeliverySchema.v ===== *)
(** * The event delivery tables

    The rows of migrations 005 to 014: applications with their credential, the
    idempotency records of publications, deliveries, callback attempts, the
    delivery time line and the outbox. The events table is that of the queue
    database, which is a part of this one. *)

From Stdlib Require Import Ascii String.
From S2P Require Import Prelude GoLib Crypto Json JsonEncode Domain QueueSchema.

(** ** JSON forms

    Publications and outbox payloads are stored as JSON. [encoding/json] writes
    invalid UTF-8 as U+FFFD, drops the field tagged ["-"] and compacts raw
    messages; [wire_event] is what decoding gives back. *)

(** [appendCompact] with HTML escaping, over valid JSON: [inside] says that the
    scanner is within a string, [escaped] that the last byte was a backslash. *)
Fixpoint compact_bytes (inside escaped : bool) (l : list ascii) : list ascii :=
  match l with
  | [] => []
  | c :: l' =>
      let inside' :=
        if escaped then inside
        else if bool_decide (c = chr 34) then negb inside else inside in
      let escaped' := inside && negb escaped && bool_decide (c = "\"%char) in
      let rest := compact_bytes inside' escaped' l' in
      if is_one_of "<>&" c then (hex_escape c ++ rest)%list
      else match l' with
      | b1 :: b2 :: l2 =>
          if (code c =? 226) && (code b1 =? 128) && ((code b2 =? 168) || (code b2 =? 169))
          then (bytes "\u202" ++ hex_digit (code b2 mod 16) :: compact_bytes inside' false l2)%list
          else if negb inside && is_space c then rest else c :: rest
      | _ => if negb inside && is_space c then rest else c :: rest
      end
  end.
Definition compact (raw : string) : string := of_bytes (compact_bytes false false (bytes raw)).

Definition wire_queue (q : QueueEvent) : QueueEvent :=
  mkQueueEvent (qe_AvailableAt q) (coerce (qe_OrderingKey q)) (qe_Priority q)
    (compact (qe_Metadata q)) "".
Definition wire_event (e : Event) : Event :=
  mkEvent (coerce (ev_ID e)) (coerce (ev_Type e)) (coerce (ev_SourceAppID e))
    (coerce <$> ev_TargetAppIDs e) (compact (ev_Data e)) (ev_CreatedAt e)
    (wire_queue <$> ev_Queue e).

(** ** Jobs and publications ([domain/job.go], [store/store.go]) *)

Record Job := mkJob {
  job_Callback : bool;
  job_CallbackAttempts : Z;
  job_CallbackGeneration : Z;
  job_RetryAt : option Z;
  job_LastReason : string;
  job_ID : string;
  job_EventID : string;
  job_SourceAppID : string;
  job_TargetAppID : string;
  job_Status : JobStatus;
  job_Attempts : Z;
  job_LeaseUntil : option Z;
  job_CreatedAt : Z;
  job_UpdatedAt : Z
}.

Record Publication := mkPublication {
  pub_Event : Event;
  pub_Jobs : list Job
}.

Definition wire_job (j : Job) : Job :=
  mkJob (job_Callback j) (job_CallbackAttempts j) (job_CallbackGeneration j) (job_RetryAt j)
    (coerce (job_LastReason j)) (coerce (job_ID j)) (coerce (job_EventID j))
    (coerce (job_SourceAppID j)) (coerce (job_TargetAppID j)) (job_Status j) (job_Attempts j)
    (job_LeaseUntil j) (job_CreatedAt j) (job_UpdatedAt j).
Definition wire_publication (p : Publication) : Publication :=
  mkPublication (wire_event (pub_Event p)) (wire_job <$> pub_Jobs p).

Record EventRetention := mkRetention {
  ret_Event : Z;
  ret_Job : Z;
  ret_Idempotency : Z
}.

(** ** Rows *)

(** [applications] with its unrevoked credential, if any. *)
Record AppRow := mkAppRow {
  app_Name : string;
  app_CallbackURL : option string;
  app_DeliveryMode : DeliveryMode;
  app_Enabled : bool;
  app_CreatedAt : Z;
  app_UpdatedAt : Z;
  app_credential : option (string * Z) (* encrypted_hmac_secret, version *)
}.

Inductive Sink := SinkStream | SinkCallback.
Inductive DeliveryState := DPending | DDispatched | DRetrying | DDelivered | DAcked | DDeadLetter.

#[export] Instance Sink_eq_dec : EqDecision Sink.
Proof. solve_decision. Defined.
#[export] Instance DeliveryState_eq_dec : EqDecision DeliveryState.
Proof. solve_decision. Defined.

(** The assignment columns of migrations 006 and 009. *)
Record Assignment := mkAssignment {
  as_connection_id : option string;
  as_token : option string;
  as_started_at : option Z;
  as_expires_at : option Z;
  as_max_expires_at : option Z
}.
Definition no_assignment : Assignment := mkAssignment None None None None None.

(** The callback columns of migration 007. *)
Record CallbackColumns := mkCallbackColumns {
  cc_token : option string;
  cc_expires_at : option Z;
  cc_retry_at : option Z;
  cc_url : option string;
  cc_credential_version : option Z;
  cc_reason : option string;
  cc_dlq_published_at : option Z
}.
Definition no_callback : CallbackColumns := mkCallbackColumns None None None None None None None.

(** [deliveries] *)
Record StreamRow := mkRow {
  dr_id : string;
  dr_public_job_id : string;
  dr_event_id : string;
  dr_source_app_id : string;
  dr_target_app_id : string;
  dr_sink : Sink;
  dr_status : DeliveryState;
  dr_attempts : Z;
  dr_generation : Z;
  dr_created_at : Z;
  dr_updated_at : Z;
  dr_assignment : Assignment;
  dr_callback : CallbackColumns
}.

(** [deliveries_assignment_complete], [deliveries_callback_lease_complete] and the
    CHECKs on attempts and generation. *)
Definition assignment_complete (a : Assignment) : bool :=
  match a with
  | mkAssignment None None None None None => true
  | mkAssignment (Some _) (Some _) (Some started) (Some expires) (Some max) =>
      (started <=? expires) && (expires <=? max)
  | _ => false
  end.
Definition row_check (r : StreamRow) : bool :=
  assignment_complete (dr_assignment r)
  && Bool.eqb (isNone (cc_token (dr_callback r))) (isNone (cc_expires_at (dr_callback r)))
  && (0 <=? dr_attempts r) && (0 <? dr_generation r).

(** [delivery_attempts], UNIQUE (delivery_id, generation, attempt) *)
Inductive AttemptOutcome := AoStarted | AoStatus (status : DeliveryState).
#[export] Instance AttemptOutcome_eq_dec : EqDecision AttemptOutcome.
Proof. solve_decision. Defined.
Record AttemptRow := mkAttemptRow {
  da_outcome : AttemptOutcome;
  da_reason : option string;
  da_created_at : Z;
  da_updated_at : Z;
  da_callback_token : option string
}.

(** [delivery_lifecycle]: the rows in the order of their identity column. *)
Inductive LifecycleType :=
| LDeliveryCreated | LOutboxDispatched | LStreamAssigned | LStreamAcked | LStreamNacked
| LCallbackStarted | LCallbackRetrying | LCallbackDelivered | LDeadLettered | LOperatorReplayed.
Record LifecycleRow := mkLifecycle {
  lc_delivery_id : string;
  lc_generation : Z;
  lc_type : LifecycleType;
  lc_outcome : string;
  lc_reason : option string;
  lc_attempt : option Z;
  lc_actor_id : option string;
  lc_occurred_at : Z
}.

(** The payload of an outbox message ([outboxEnvelope]). *)
Record Envelope := mkEnvelope {
  env_DeliveryID : string;
  env_Generation : Z;
  env_Event : Event
}.

(** [outbox] *)
Record OutboxRow := mkOutbox {
  ob_id : string;
  ob_event_id : string;
  ob_delivery_id : string;
  ob_subject : string;
  ob_payload : Envelope;
  ob_message_id : string;
  ob_generation : Z;
  ob_attempts : Z;
  ob_available_at : Z;
  ob_claimed_at : option Z;
  ob_claim_token : option string;
  ob_dispatched_at : option Z;
  ob_failed_at : option Z;
  ob_last_error : option string;
  ob_created_at : Z;
  ob_updated_at : Z
}.

(** [event_idempotency], keyed by (source_app_id, key_hash) *)
Record IdempotencyRow := mkIdempotency {
  ik_event_id : string;
  ik_publication : Publication;
  ik_created_at : Z;
  ik_expires_at : Z
}.

(** [admin_replay_requests], keyed by the hash of the idempotency key; [rq_result]
    is the stored JSON, decoded. *)
Record ReplayItem := mkReplayItem {
  rpi_DeliveryID : string;
  rpi_EventID : string;
  rpi_JobID : string;
  rpi_FromGeneration : Z;
  rpi_Generation : Z;
  rpi_Status : string
}.
Record ReplayRequestRow := mkReplayRequest {
  rq_request_fingerprint : string;
  rq_result : list ReplayItem;
  rq_actor_id : string;
  rq_created_at : Z;
  rq_expires_at : Z
}.

(** [delivery_replays], UNIQUE (delivery_id, generation) *)
Record ReplayRow := mkReplayRow {
  rp_from_generation : Z;
  rp_key_hash : string;
  rp_actor_id : string;
  rp_occurred_at : Z
}.

(** [audit_log], keyed by its identity column *)
Record AuditRow := mkAuditRow {
  au_occurred_at : Z;
  au_actor_type : string;
  au_actor_id : option string;
  au_action : string;
  au_resource_type : string;
  au_resource_id : option string;
  au_outcome : string;
  au_metadata : string
}.

(** ** The database *)

Record RelayDB := mkRelayDB {
  queue_db : QueueDB;
  app_rows : gmap string AppRow;
  event_idempotency : gmap (string * string) IdempotencyRow;
  deliveries : gmap string StreamRow;
  delivery_attempts : gmap (string * Z * Z) AttemptRow;
  delivery_lifecycle : list LifecycleRow;
  outbox : gmap string OutboxRow;
  routing_rules : gmap string RoutingRule;
  admin_replay_requests : gmap string ReplayRequestRow;
  delivery_replays : gmap (string * Z) ReplayRow;
  audit_log : gmap Z AuditRow
}.

Definition M_relay (A : Type) : Type := M RelayDB A.

Definition set_queue_db (q : QueueDB) (db : RelayDB) : RelayDB :=
  mkRelayDB q (app_rows db) (event_idempotency db) (deliveries db) (delivery_attempts db)
    (delivery_lifecycle db) (outbox db) (routing_rules db) (admin_replay_requests db)
    (delivery_replays db) (audit_log db).
Definition set_idempotency (t : gmap (string * string) IdempotencyRow) (db : RelayDB) : RelayDB :=
  mkRelayDB (queue_db db) (app_rows db) t (deliveries db) (delivery_attempts db)
    (delivery_lifecycle db) (outbox db) (routing_rules db) (admin_replay_requests db)
    (delivery_replays db) (audit_log db).
Definition set_rows (t : gmap string StreamRow) (db : RelayDB) : RelayDB :=
  mkRelayDB (queue_db db) (app_rows db) (event_idempotency db) t (delivery_attempts db)
    (delivery_lifecycle db) (outbox db) (routing_rules db) (admin_replay_requests db)
    (delivery_replays db) (audit_log db).
Definition set_row_attempts (t : gmap (string * Z * Z) AttemptRow) (db : RelayDB) : RelayDB :=
  mkRelayDB (queue_db db) (app_rows db) (event_idempotency db) (deliveries db) t
    (delivery_lifecycle db) (outbox db) (routing_rules db) (admin_replay_requests db)
    (delivery_replays db) (audit_log db).
Definition set_outbox (t : gmap string OutboxRow) (db : RelayDB) : RelayDB :=
  mkRelayDB (queue_db db) (app_rows db) (event_idempotency db) (deliveries db)
    (delivery_attempts db) (delivery_lifecycle db) t (routing_rules db) (admin_replay_requests db)
    (delivery_replays db) (audit_log db).
Definition set_rules (t : gmap string RoutingRule) (db : RelayDB) : RelayDB :=
  mkRelayDB (queue_db db) (app_rows db) (event_idempotency db) (deliveries db)
    (delivery_attempts db) (delivery_lifecycle db) (outbox db) t (admin_replay_requests db)
    (delivery_replays db) (audit_log db).
Definition set_replay_requests (t : gmap string ReplayRequestRow) (db : RelayDB) : RelayDB :=
  mkRelayDB (queue_db db) (app_rows db) (event_idempotency db) (deliveries db)
    (delivery_attempts db) (delivery_lifecycle db) (outbox db) (routing_rules db) t
    (delivery_replays db) (audit_log db).
Definition set_replays (t : gmap (string * Z) ReplayRow) (db : RelayDB) : RelayDB :=
  mkRelayDB (queue_db db) (app_rows db) (event_idempotency db) (deliveries db)
    (delivery_attempts db) (delivery_lifecycle db) (outbox db) (routing_rules db)
    (admin_replay_requests db) t (audit_log db).
Definition set_audit (t : gmap Z AuditRow) (db : RelayDB) : RelayDB :=
  mkRelayDB (queue_db db) (app_rows db) (event_idempotency db) (deliveries db)
    (delivery_attempts db) (delivery_lifecycle db) (outbox db) (routing_rules db)
    (admin_replay_requests db) (delivery_replays db) t.
Definition append_lifecycle (l : LifecycleRow) (db : RelayDB) : RelayDB :=
  mkRelayDB (queue_db db) (app_rows db) (event_idempotency db) (deliveries db)
    (delivery_attempts db) (delivery_lifecycle db ++ [l])%list (outbox db) (routing_rules db) (admin_replay_requests db)
    (delivery_replays db) (audit_log db).

(** A statement on the queue tables, run in the larger database. *)
Definition on_queue {A} (m : M_queue A) : M_relay A := fun w =>
  let (r, w') := m (mkWorld (queue_db (w_db w)) (w_faults w) (w_locked w)) in
  (r, mkWorld (set_queue_db (w_db w') (w_db w)) (w_faults w') (w_locked w')).

(** A row with status, attempts, assignment and callback columns replaced;
    [GREATEST(updated_at, now)]. *)
Definition with_state (status : DeliveryState) (attempts : Z) (a : Assignment)
    (c : CallbackColumns) (updated_at : Z) (r : StreamRow) : StreamRow :=
  mkRow (dr_id r) (dr_public_job_id r) (dr_event_id r) (dr_source_app_id r) (dr_target_app_id r)
    (dr_sink r) status attempts (dr_generation r) (dr_created_at r) updated_at a c.
Definition touched (now : Z) (r : StreamRow) : Z := Z.max (dr_updated_at r) now.

Definition is_final (s : DeliveryState) : bool :=
  bool_decide (s = DAcked) || bool_decide (s = DDeadLetter).

(** [UPDATE deliveries SET f WHERE id=$1 AND p]: the row count, or the refusal of
    a CHECK constraint. *)
Definition update_row (id : string) (p : StreamRow -> bool) (f : StreamRow -> StreamRow)
    (db : RelayDB) : res (Z * RelayDB) :=
  match deliveries db !! id with
  | Some r =>
      if p r then
        if row_check (f r) then Ok (1, set_rows (<[id := f r]> (deliveries db)) db)
        else Err DriverError
      else Ok (0, db)
  | None => Ok (0, db)
  end.

(** [INSERT INTO delivery_lifecycle ... VALUES]; [attempt > 0] is a CHECK. *)
Definition insert_lifecycle (l : LifecycleRow) : M_relay unit :=
  exec (fun _ db => if match lc_attempt l with Some a => 0 <? a | None => true end
                    then Ok (tt, append_lifecycle l db) else Err DriverError).

(** [INSERT INTO delivery_lifecycle ... SELECT ... FROM deliveries WHERE id=$1] *)
Definition insert_lifecycle_of (id : string) (f : StreamRow -> LifecycleRow) : M_relay unit :=
  update (fun db => match deliveries db !! id with
                    | Some r => (tt, append_lifecycle (f r) db)
                    | None => (tt, db)
                    end).
