(* ===== verification/DeliveryStore.v ===== *)
(** * Stream assignments and the outbox
    ([store/postgres/delivery_assignments.go], [store/postgres/outbox.go]) *)

From Stdlib Require Import Ascii String.
From S2P Require Import Prelude GoLib Crypto Json Domain QueueSchema DeliverySchema.

(** ** Stream assignments *)

Inductive DeliveryAssignmentDisposition :=
| DeliveryAssigned | DeliveryAlreadyAssigned | DeliveryAlreadyComplete.

Record DeliveryAssignment := mkDeliveryAssignment {
  asg_DeliveryID : string;
  asg_TargetAppID : string;
  asg_ConnectionID : string;
  asg_Token : string;
  asg_Attempt : Z;
  asg_Generation : Z;
  asg_ExpiresAt : Z
}.
Definition empty_assignment : DeliveryAssignment := mkDeliveryAssignment "" "" "" "" 0 0 zero_time.

Definition stream_row (target : string) (r : StreamRow) : bool :=
  bool_decide (dr_target_app_id r = target) && bool_decide (dr_sink r = SinkStream).

Definition assign_row (connectionID token : string) (now expiresAt maxExpiresAt attempts : Z)
    (r : StreamRow) : StreamRow :=
  with_state (dr_status r) attempts
    (mkAssignment (Some connectionID) (Some token) (Some now) (Some expiresAt) (Some maxExpiresAt))
    (dr_callback r) (touched now r) r.

Definition AssignStreamDelivery (deliveryID targetAppID connectionID token : string)
    (generation now lease maxProcessing : Z)
    : M_relay (DeliveryAssignment * DeliveryAssignmentDisposition) :=
  if bool_decide (deliveryID = "") || bool_decide (targetAppID = "")
     || bool_decide (connectionID = "") || bool_decide (token = "") || (generation <? 1)
     || (lease <=? 0) || (maxProcessing <? lease) then fail StoreConflict else
  transaction (
    begin;;
    row ← query_row StoreNotFound (fun db => deliveries db !! deliveryID);
    if negb (stream_row targetAppID row) then fail StoreNotFound
    else if negb (dr_generation row =? generation) then fail StoreConflict
    else if is_final (dr_status row)
    then commit;; mret (empty_assignment, DeliveryAlreadyComplete)
    else if null_gt (as_expires_at (dr_assignment row)) now
    then commit;; mret (empty_assignment, DeliveryAlreadyAssigned)
    else
      let expiresAt := now + lease in
      let attempts := dr_attempts row + 1 in
      exec (fun _ => update_row deliveryID (fun r => dr_generation r =? generation)
        (assign_row connectionID token now expiresAt (now + maxProcessing) attempts));;
      insert_lifecycle (mkLifecycle deliveryID generation LStreamAssigned "assigned" None
                          (Some attempts) None now);;
      commit;;
      mret (mkDeliveryAssignment deliveryID targetAppID connectionID token attempts generation
              expiresAt, DeliveryAssigned)).

(** The rows the assignee may act on: its own unexpired assignment of this
    generation, not yet final. *)
Definition holds_assignment (targetAppID connectionID token : string) (generation now : Z)
    (r : StreamRow) : bool :=
  stream_row targetAppID r && null_eq (as_connection_id (dr_assignment r)) connectionID
  && null_eq (as_token (dr_assignment r)) token && (dr_generation r =? generation)
  && null_gt (as_expires_at (dr_assignment r)) now && negb (is_final (dr_status r)).

(** [WITH changed AS (UPDATE deliveries ... RETURNING id,generation,attempts)
    INSERT INTO delivery_lifecycle ... SELECT ... FROM changed]: one statement. *)
Definition update_with_lifecycle (id : string) (p : StreamRow -> bool)
    (f : StreamRow -> StreamRow) (l : StreamRow -> LifecycleRow) (db : RelayDB)
    : res (Z * RelayDB) :=
  match deliveries db !! id with
  | Some r =>
      match update_row id p f db with
      | Ok (n, db') =>
          if n =? 0 then Ok (0, db')
          else if match lc_attempt (l (f r)) with Some a => 0 <? a | None => true end
          then Ok (n, append_lifecycle (l (f r)) db') else Err DriverError
      | Err e => Err e
      end
  | None => Ok (0, db)
  end.

Definition ack_row (now : Z) (r : StreamRow) : StreamRow :=
  with_state DAcked (dr_attempts r) (dr_assignment r) (dr_callback r) (touched now r) r.

Definition AcknowledgeStreamDelivery (deliveryID targetAppID connectionID token : string)
    (generation now : Z) : M_relay unit :=
  affected ← exec (fun _ => update_with_lifecycle deliveryID
    (holds_assignment targetAppID connectionID token generation now) (ack_row now)
    (fun r => mkLifecycle (dr_id r) (dr_generation r) LStreamAcked "acked" None
                (Some (dr_attempts r)) None now));
  if affected =? 1 then mret tt else
  row ← query_row StoreNotFound (fun db : RelayDB => deliveries db !! deliveryID);
  if negb (stream_row targetAppID row) then fail StoreNotFound
  else if bool_decide (dr_status row = DAcked) && (dr_generation row =? generation)
          && null_eq (as_connection_id (dr_assignment row)) connectionID
          && null_eq (as_token (dr_assignment row)) token
  then mret tt else fail StoreConflict.

Definition streamAssignmentError (deliveryID targetAppID : string) : M_relay unit :=
  row ← query_row StoreNotFound (fun db : RelayDB => deliveries db !! deliveryID);
  if negb (stream_row targetAppID row) then fail StoreNotFound else fail StoreConflict.

Definition release_assignment (now : Z) (r : StreamRow) : StreamRow :=
  with_state DRetrying (dr_attempts r) no_assignment (dr_callback r) (touched now r) r.

Definition ReleaseStreamDelivery (deliveryID targetAppID connectionID token : string)
    (generation now : Z) : M_relay unit :=
  affected ← exec (fun _ => update_with_lifecycle deliveryID
    (holds_assignment targetAppID connectionID token generation now) (release_assignment now)
    (fun r => mkLifecycle (dr_id r) (dr_generation r) LStreamNacked "retrying" None
                (Some (dr_attempts r)) None now));
  if affected =? 1 then mret tt else streamAssignmentError deliveryID targetAppID.

Definition least (x : Z) (y : option Z) : option Z :=
  Some (match y with Some y => Z.min x y | None => x end).
Definition progress_row (now until : Z) (r : StreamRow) : StreamRow :=
  let a := dr_assignment r in
  with_state (dr_status r) (dr_attempts r)
    (mkAssignment (as_connection_id a) (as_token a) (as_started_at a)
       (least until (as_max_expires_at a)) (as_max_expires_at a))
    (dr_callback r) (touched now r) r.

Definition ProgressStreamDelivery (deliveryID targetAppID connectionID token : string)
    (generation now lease : Z) : M_relay unit :=
  if lease <=? 0 then fail StoreConflict else
  affected ← exec (fun _ => update_row deliveryID
    (fun r => holds_assignment targetAppID connectionID token generation now r
              && null_gt (as_max_expires_at (dr_assignment r)) now)
    (progress_row now (now + lease)));
  if affected =? 1 then mret tt else streamAssignmentError deliveryID targetAppID.

(** ** The outbox *)

Record OutboxMessage := mkMessage {
  om_ID : string;
  om_EventID : string;
  om_DeliveryID : string;
  om_Subject : string;
  om_Payload : Envelope;
  om_MessageID : string;
  om_ClaimToken : string;
  om_Attempts : Z;
  om_Reclaimed : bool;
  om_CreatedAt : Z
}.
Record OutboxPublishStart := mkPublishStart {
  ps_Attempt : Z;
  ps_Exhausted : bool
}.
Record OutboxStats := mkStats {
  stats_Pending : Z;
  stats_Claimed : Z;
  stats_Failed : Z;
  stats_OldestPendingAt : option Z
}.

Definition with_outbox (attempts available_at : Z) (claimed_at : option Z)
    (claim_token : option string) (dispatched_at failed_at : option Z)
    (last_error : option string) (updated_at : Z) (o : OutboxRow) : OutboxRow :=
  mkOutbox (ob_id o) (ob_event_id o) (ob_delivery_id o) (ob_subject o) (ob_payload o)
    (ob_message_id o) (ob_generation o) attempts available_at claimed_at claim_token
    dispatched_at failed_at last_error (ob_created_at o) updated_at.

Definition open_outbox (o : OutboxRow) : bool :=
  isNone (ob_dispatched_at o) && isNone (ob_failed_at o).

Section outbox.
Context `{Postgres}.

(** [ORDER BY available_at,created_at,id FOR UPDATE SKIP LOCKED LIMIT $3] *)
Definition outbox_candidate (now staleBefore : Z) (o : OutboxRow) : bool :=
  open_outbox o && (ob_available_at o <=? now)
  && (isNone (ob_claimed_at o) || null_le (ob_claimed_at o) staleBefore).
Definition outbox_before (a b : OutboxRow) : Prop :=
  ob_available_at a < ob_available_at b
  \/ ob_available_at a = ob_available_at b
     /\ (ob_created_at a < ob_created_at b
         \/ ob_created_at a = ob_created_at b /\ text_le (ob_id a) (ob_id b)).
#[global] Instance outbox_before_dec : RelDecision outbox_before.
Proof. unfold outbox_before, RelDecision. apply _. Defined.
Definition outbox_candidates (now staleBefore limit : Z) (locked : gset string) (db : RelayDB)
    : list OutboxRow :=
  take (Z.to_nat limit) (List.filter (fun o => negb (bool_decide (ob_id o ∈ locked)))
    (merge_sort outbox_before (select_where (outbox_candidate now staleBefore) (outbox db)))).

Definition claim_outbox_row (now : Z) (token : string) (o : OutboxRow) : OutboxRow :=
  with_outbox (ob_attempts o) (ob_available_at o) (Some now) (Some token) (ob_dispatched_at o)
    (ob_failed_at o) (ob_last_error o) now o.
Definition message_of (token : string) (o : OutboxRow) : OutboxMessage :=
  mkMessage (ob_id o) (ob_event_id o) (ob_delivery_id o) (ob_subject o) (ob_payload o)
    (ob_message_id o) token (ob_attempts o) (isSome (ob_claimed_at o)) (ob_created_at o).

Definition ClaimOutbox (now staleBefore : Z) (claimToken : string) (limit : Z)
    : M_relay (list OutboxMessage) :=
  if bool_decide (claimToken = "") || (limit <? 1) || (1000 <? limit) || (now <? staleBefore)
  then fail DriverError else
  exec (fun locked db =>
    let sel := outbox_candidates now staleBefore limit locked db in
    Ok (message_of claimToken <$> sel,
        set_outbox (update_where (fun o => bool_decide (ob_id o ∈ (ob_id <$> sel)))
                      (claim_outbox_row now claimToken) (outbox db)) db)).

End outbox.

(** [WHERE id=$1 AND claim_token=$2 AND dispatched_at IS NULL AND failed_at IS NULL] *)
Definition claimed_outbox (outboxID claimToken : string) (db : RelayDB) : option OutboxRow :=
  match outbox db !! outboxID with
  | Some o => if null_eq (ob_claim_token o) claimToken && open_outbox o then Some o else None
  | None => None
  end.

(** An update of the outbox row by its key. *)
Definition update_outbox (outboxID : string) (f : OutboxRow -> OutboxRow) : M_relay unit :=
  update (fun db => (tt, set_outbox (alter f outboxID (outbox db)) db)).

(** [UPDATE outbox SET f WHERE id=$1 AND claim_token=$2 AND ... RETURNING delivery_id] *)
Definition release_outbox (outboxID claimToken : string) (f : OutboxRow -> OutboxRow)
    : M_relay (option string) :=
  update (fun db => match claimed_outbox outboxID claimToken db with
                    | Some o => (Some (ob_delivery_id o),
                                 set_outbox (<[outboxID := f o]> (outbox db)) db)
                    | None => (None, db)
                    end).

Definition fail_outbox_row (now : Z) (reason : string) (o : OutboxRow) : OutboxRow :=
  with_outbox (ob_attempts o) (ob_available_at o) None None (ob_dispatched_at o) (Some now)
    (Some reason) now o.

(** [SET status='dead_letter',assigned_connection_id=NULL,assignment_token=NULL,
    assignment_expires_at=NULL]: the other two assignment columns keep their value. *)
Definition dead_letter_row (now : Z) (r : StreamRow) : StreamRow :=
  with_state DDeadLetter (dr_attempts r)
    (mkAssignment None None (as_started_at (dr_assignment r)) None
       (as_max_expires_at (dr_assignment r)))
    (dr_callback r) (touched now r) r.
Definition dead_letter_delivery (deliveryID : string) (now : Z) (reason : string) : M_relay unit :=
  exec (fun _ => update_row deliveryID (fun r => negb (bool_decide (dr_status r = DAcked)))
    (dead_letter_row now));;
  insert_lifecycle_of deliveryID (fun r => mkLifecycle (dr_id r) (dr_generation r) LDeadLettered
    "dead_letter" (Some reason) None None now).

Definition BeginOutboxPublish (outboxID claimToken : string) (now maxAttempts : Z)
    : M_relay OutboxPublishStart :=
  if bool_decide (outboxID = "") || bool_decide (claimToken = "") || (maxAttempts <? 1)
  then fail StoreConflict else
  transaction (
    begin;;
    o ← query_row StoreConflict (claimed_outbox outboxID claimToken);
    if maxAttempts <=? ob_attempts o then
      update_outbox outboxID (fail_outbox_row now "max_attempts");;
      dead_letter_delivery (ob_delivery_id o) now "max_attempts";;
      commit;;
      mret (mkPublishStart (ob_attempts o) true)
    else
      let attempts := ob_attempts o + 1 in
      update_outbox outboxID (fun o =>
        with_outbox attempts (ob_available_at o) (ob_claimed_at o) (ob_claim_token o)
          (ob_dispatched_at o) (ob_failed_at o) (ob_last_error o) (Z.max (ob_updated_at o) now) o);;
      commit;;
      mret (mkPublishStart attempts false)).

Definition dispatch_row (status : DeliveryState) (now : Z) (r : StreamRow) : StreamRow :=
  with_state status (dr_attempts r) (dr_assignment r) (dr_callback r) now r.

Definition MarkOutboxDispatched (outboxID claimToken : string) (now : Z) : M_relay unit :=
  if bool_decide (outboxID = "") || bool_decide (claimToken = "") then fail StoreConflict else
  transaction (
    begin;;
    found ← release_outbox outboxID claimToken (fun o =>
      with_outbox (ob_attempts o) (ob_available_at o) None None (Some now) (ob_failed_at o) None
        now o);
    match found with
    | None =>
        dispatched ← query_row StoreNotFound (fun db : RelayDB =>
          (fun o => isSome (ob_dispatched_at o)) <$> outbox db !! outboxID);
        if (dispatched : bool) then commit else fail StoreConflict
    | Some deliveryID =>
        exec (fun _ => update_row deliveryID (fun r => negb (is_final (dr_status r)))
          (fun r => dispatch_row DDispatched (touched now r) r));;
        insert_lifecycle_of deliveryID (fun r => mkLifecycle (dr_id r) (dr_generation r)
          LOutboxDispatched "dispatched" None None None now);;
        commit
    end).

Definition safeOutboxReason (reason : string) : string :=
  let reason := ToLower (TrimSpace reason) in
  if bool_decide (reason ∈ (["broker_unavailable"; "publish_timeout"; "publish_rejected";
                             "store_error"] : list string))
  then reason else "publish_error".

(** [clock] is the instant that [clock_timestamp()] gives. *)
Definition RetryOutbox (clock : Z) (outboxID claimToken : string) (availableAt : Z)
    (reason : string) : M_relay unit :=
  if bool_decide (outboxID = "") || bool_decide (claimToken = "") then fail StoreConflict else
  let reason := safeOutboxReason reason in
  transaction (
    begin;;
    found ← release_outbox outboxID claimToken (fun o =>
      with_outbox (ob_attempts o) availableAt None None (ob_dispatched_at o) (ob_failed_at o)
        (Some reason) clock o);
    match found with
    | None => fail StoreConflict
    | Some deliveryID =>
        exec (fun _ => update_row deliveryID (fun r => negb (is_final (dr_status r)))
          (dispatch_row DRetrying clock));;
        commit
    end).

Definition FailOutbox (outboxID claimToken : string) (now : Z) (reason : string) : M_relay unit :=
  if bool_decide (outboxID = "") || bool_decide (claimToken = "") then fail StoreConflict else
  let reason := safeOutboxReason reason in
  transaction (
    begin;;
    found ← release_outbox outboxID claimToken (fail_outbox_row now reason);
    match found with
    | None => fail StoreConflict
    | Some deliveryID => dead_letter_delivery deliveryID now reason;; commit
    end).

Definition min_opt (x : Z) (acc : option Z) : option Z :=
  Some (match acc with Some y => Z.min x y | None => x end).
Definition OutboxStats_ : M_relay OutboxStats :=
  query (fun db =>
    let undispatched p :=
      select_where (fun o => isNone (ob_dispatched_at o) && p o) (outbox db) in
    let pending := undispatched (fun o => isNone (ob_failed_at o)) in
    mkStats (Z.of_nat (length pending))
      (Z.of_nat (length (undispatched (fun o => isNone (ob_failed_at o) && isSome (ob_claimed_at o)))))
      (Z.of_nat (length (undispatched (fun o => isSome (ob_failed_at o)))))
      (foldr min_opt None (ob_created_at <$> pending))).
