(* ===== verification/DeliveryEffects.v ===== *)
(** * What the delivery operations do to the tables

    The effect of every successful run of the stream and outbox operations, as an
    equation on the database. The theorems about deliveries follow from these. *)

From Stdlib Require Import Ascii String.
From S2P Require Import Prelude GoLib Crypto Json Domain QueueSchema DeliverySchema.
From S2P Require Import DeliveryStore.

(** A row replaced by its key. *)
Definition put_row (r : StreamRow) (db : RelayDB) : RelayDB :=
  set_rows (<[dr_id r := r]> (deliveries db)) db.
Definition put_outbox (o : OutboxRow) (db : RelayDB) : RelayDB :=
  set_outbox (<[ob_id o := o]> (outbox db)) db.

(** Rows are stored under their primary key. *)
Definition keyed (db : RelayDB) : Prop :=
  (forall k r, deliveries db !! k = Some r -> dr_id r = k)
  /\ (forall k o, outbox db !! k = Some o -> ob_id o = k).

(** Databases that differ in the delivery time line only. *)
Definition with_log (log : list LifecycleRow) (db : RelayDB) : RelayDB :=
  mkRelayDB (queue_db db) (app_rows db) (event_idempotency db) (deliveries db)
    (delivery_attempts db) log (outbox db) (routing_rules db) (admin_replay_requests db)
    (delivery_replays db) (audit_log db).
Definition same_tables (db db' : RelayDB) : Prop := with_log [] db = with_log [] db'.
Infix "≃" := same_tables (at level 70) : stdpp_scope.

#[export] Instance same_tables_equiv : Equivalence same_tables.
Proof. unfold same_tables. split; congruence. Qed.
#[export] Instance deliveries_proper : Proper (same_tables ==> eq) deliveries.
Proof. intros ?? H. exact (f_equal deliveries H). Qed.
#[export] Instance outbox_proper : Proper (same_tables ==> eq) outbox.
Proof. intros ?? H. exact (f_equal outbox H). Qed.
#[export] Instance attempts_proper : Proper (same_tables ==> eq) delivery_attempts.
Proof. intros ?? H. exact (f_equal delivery_attempts H). Qed.
#[export] Instance idempotency_proper : Proper (same_tables ==> eq) event_idempotency.
Proof. intros ?? H. exact (f_equal event_idempotency H). Qed.
#[export] Instance queue_db_proper : Proper (same_tables ==> eq) queue_db.
Proof. intros ?? H. exact (f_equal queue_db H). Qed.
#[export] Instance app_rows_proper : Proper (same_tables ==> eq) app_rows.
Proof. intros ?? H. exact (f_equal app_rows H). Qed.
#[export] Instance set_rows_proper t : Proper (same_tables ==> same_tables) (set_rows t).
Proof. intros ?? H. exact (f_equal (set_rows t) H). Qed.
#[export] Instance set_outbox_proper t : Proper (same_tables ==> same_tables) (set_outbox t).
Proof. intros ?? H. exact (f_equal (set_outbox t) H). Qed.
Lemma append_same l db : append_lifecycle l db ≃ db.
Proof. done. Qed.
#[export] Hint Rewrite append_same : relay_db.

(** Computes a run without faults. *)
Ltac run_free := cbv [mbind M_bind mret M_ret transaction begin commit query query_row update exec
  fail on_error set_db w_db w_faults w_locked fst snd].

(** Replaces the databases of the later worlds by what they are known to be. *)
Ltac chase_db :=
  repeat match goal with H : w_db ?x = _ |- _ => is_var x; rewrite H in *; clear H end.

(** ** Statements *)

Lemma update_row_inv id p f db n db' :
  update_row id p f db = Ok (n, db') ->
  (n = 0 /\ db' = db /\ forall r, deliveries db !! id = Some r -> p r = false)
  \/ (n = 1 /\ exists r, deliveries db !! id = Some r /\ p r = true /\ row_check (f r) = true
                 /\ db' = set_rows (<[id := f r]> (deliveries db)) db).
Proof.
  unfold update_row. destruct (deliveries db !! id) as [r|] eqn:Hr.
  - destruct (p r) eqn:Hp; [destruct (row_check (f r)) eqn:Hc|]; intros; simplify_eq.
    + right. eauto 10.
    + left. split_and!; [done..|]. intros. by simplify_eq.
  - intros. simplify_eq. left. done.
Qed.

Lemma update_with_lifecycle_inv id p f l db n db' :
  update_with_lifecycle id p f l db = Ok (n, db') ->
  (n = 0 /\ db' = db /\ forall r, deliveries db !! id = Some r -> p r = false)
  \/ (n = 1 /\ exists r, deliveries db !! id = Some r /\ p r = true /\ row_check (f r) = true
                 /\ db' = append_lifecycle (l (f r)) (set_rows (<[id := f r]> (deliveries db)) db)).
Proof.
  unfold update_with_lifecycle. destruct (deliveries db !! id) as [r|] eqn:Hr.
  2:{ intros. simplify_eq. left. done. }
  destruct (update_row id p f db) as [[m db1]|e] eqn:Hu; [|done].
  apply update_row_inv in Hu as [(-> & -> & Hno)|(-> & r' & Hr' & Hp & Hc & ->)]; simpl.
  - intros. simplify_eq. left. split_and!; [done..|]. intros. simplify_eq. auto.
  - simplify_eq. destruct (match lc_attempt _ with Some a => 0 <? a | None => true end);
      intros; simplify_eq. right. eauto 10.
Qed.

Lemma insert_lifecycle_inv l w a w' :
  insert_lifecycle l w = (Ok a, w') ->
  w_db w' = append_lifecycle l (w_db w) /\ after_call w w' /\ hd false (w_faults w) = false.
Proof.
  unfold insert_lifecycle. intros (Hs & ? & ?)%exec_ok. repeat case_match;
    simplify_eq; done.
Qed.

Lemma claimed_outbox_inv id token db o :
  claimed_outbox id token db = Some o ->
  outbox db !! id = Some o /\ ob_claim_token o = Some token
  /\ ob_dispatched_at o = None /\ ob_failed_at o = None.
Proof.
  unfold claimed_outbox. destruct (outbox db !! id) as [o'|]; [|done].
  destruct (null_eq _ _ && open_outbox o') eqn:E; [|done]. intros. simplify_eq.
  unfold open_outbox, null_eq, isNone in E. bool_to_prop. destruct_and!.
  repeat case_match; naive_solver.
Qed.

(** ** Stream assignments *)

Section assignments.
Context (id target connection token : string) (generation now : Z).

Lemma assign_effect lease most w a disposition w' :
  AssignStreamDelivery id target connection token generation now lease most w
    = (Ok (a, disposition), w') ->
  exists r, deliveries (w_db w) !! id = Some r /\ stream_row target r = true
    /\ dr_generation r = generation /\ 0 < lease <= most /\ 1 <= generation
    /\ match disposition with
       | DeliveryAlreadyComplete => is_final (dr_status r) = true /\ w_db w' = w_db w
       | DeliveryAlreadyAssigned =>
           is_final (dr_status r) = false
           /\ null_gt (as_expires_at (dr_assignment r)) now = true /\ w_db w' = w_db w
       | DeliveryAssigned =>
           is_final (dr_status r) = false
           /\ null_gt (as_expires_at (dr_assignment r)) now = false
           /\ exists l, w_db w' = append_lifecycle l (set_rows (<[id :=
                assign_row connection token now (now + lease) (now + most) (dr_attempts r + 1) r]>
                (deliveries (w_db w))) (w_db w))
       end.
Proof.
  unfold AssignStreamDelivery. case_match eqn:Hargs; [intros; by run_inv|]. bool_to_prop.
  destruct_and!. intros H. run_inv. chase_db. rename x1 into r. exists r.
  destruct (stream_row target r) eqn:Hs; simpl in H; [|by run_inv].
  destruct (dr_generation r =? generation) eqn:Hg; simpl in H; [|by run_inv].
  split_and!; [done|done|by apply Z.eqb_eq|lia..|].
  destruct (is_final (dr_status r)) eqn:Hf; [run_inv; chase_db; by simplify_eq|].
  destruct (null_gt _ now) eqn:Hl; [run_inv; chase_db; by simplify_eq|].
  run_inv. simplify_eq. chase_db.
  match goal with Hx : update_row _ _ _ _ = _ |- _ => apply update_row_inv in Hx as
    [(_ & _ & Hno)|(_ & r' & Hr' & _ & _ & Hdb)] end.
  { assert ((dr_generation r =? generation) = false) by auto. congruence. }
  match goal with Hx : insert_lifecycle _ _ = _ |- _ => apply insert_lifecycle_inv in Hx as (Hl' & _) end.
  split_and!; [done|done|]. eexists. simplify_eq. rewrite Hl', Hdb. done.
Qed.

(** The rows on which the three operations of an assignee act. *)
Definition assigned_row (db : RelayDB) (r : StreamRow) : Prop :=
  deliveries db !! id = Some r
  /\ holds_assignment target connection token generation now r = true.

Lemma ack_effect w r w' :
  AcknowledgeStreamDelivery id target connection token generation now w = (r, w') ->
  (r = Ok tt /\ exists d l, assigned_row (w_db w) d
     /\ w_db w' = append_lifecycle l (set_rows (<[id := ack_row now d]> (deliveries (w_db w)))
                                        (w_db w)))
  \/ (r = Ok tt /\ w_db w' = w_db w /\ exists d, deliveries (w_db w) !! id = Some d
        /\ stream_row target d = true /\ dr_status d = DAcked /\ dr_generation d = generation
        /\ as_connection_id (dr_assignment d) = Some connection
        /\ as_token (dr_assignment d) = Some token)
  \/ (exists e, r = Err e) /\ w_db w' = w_db w.
Proof.
  unfold AcknowledgeStreamDelivery. destruct r as [[]|e]; intros H.
  - run_inv. destruct (x =? 1) eqn:Hx; bool_to_prop.
    + run_inv. left. split; [done|].
      match goal with Hu : update_with_lifecycle _ _ _ _ _ = _ |- _ =>
        apply update_with_lifecycle_inv in Hu as [(? & _)|(_ & d & Hd & Hp & _ & Hdb)]; [done|] end.
      exists d. eexists. done.
    + run_inv. right; left. split; [done|].
      match goal with Hu : update_with_lifecycle _ _ _ _ _ = _ |- _ =>
        apply update_with_lifecycle_inv in Hu as [(? & Hdb & _)|(? & _)]; [|done] end.
      chase_db. destruct (stream_row target _) eqn:Hs; simpl in H; [|by run_inv].
      destruct (bool_decide _ && _ && _ && _) eqn:Hb; [|by run_inv]. run_inv.
      unfold null_eq in Hb. bool_to_prop. destruct_and!. chase_db. eauto 10.
  - right; right. split; [eauto|]. apply bind_err in H as [H|(n & w1 & H1 & H)].
    + by apply exec_err in H.
    + run_inv. destruct (n =? 1) eqn:Hn; [done|]. bool_to_prop.
      match goal with Hu : update_with_lifecycle _ _ _ _ _ = _ |- _ =>
        apply update_with_lifecycle_inv in Hu as [(_ & Hdb & _)|(? & _)]; [|done] end.
      rewrite <- Hdb. assert (keeps eq (
        row ← query_row StoreNotFound (fun db : RelayDB => deliveries db !! id);
        if negb (stream_row target row) then fail StoreNotFound
        else if bool_decide (dr_status row = DAcked) && (dr_generation row =? generation)
          && null_eq (as_connection_id (dr_assignment row)) connection
          && null_eq (as_token (dr_assignment row)) token
        then mret tt else fail StoreConflict)) as Hk by keeps_solve.
      specialize (Hk w1). by rewrite H in Hk.
Qed.

(** A fenced update and its error. *)
Lemma fenced_effect (stmt : gset string -> RelayDB -> res (Z * RelayDB)) w r w' :
  (n ← exec stmt; if n =? 1 then mret tt else streamAssignmentError id target) w = (r, w') ->
  (r = Ok tt /\ stmt (w_locked w) (w_db w) = Ok (1, w_db w'))
  \/ (exists e, r = Err e)
     /\ (w_db w' = w_db w
         \/ exists n, n <> 1 /\ stmt (w_locked w) (w_db w) = Ok (n, w_db w')).
Proof using Type.
  destruct r as [[]|e]; intros H.
  - apply bind_ok in H as (n & w1 & (H1 & _)%exec_ok & H). destruct (n =? 1) eqn:Hn; bool_to_prop.
    + run_inv. left. by subst.
    + unfold streamAssignmentError in H. run_inv. destruct (negb _); by run_inv.
  - right. split; [eauto|]. apply bind_err in H as [H|(n & w1 & (H1 & _)%exec_ok & H)].
    { left. by apply exec_err in H. }
    destruct (n =? 1) eqn:Hn; [done|]. bool_to_prop. right. exists n. split; [done|].
    assert (keeps eq (streamAssignmentError id target)) as Hk
      by (unfold streamAssignmentError; keeps_solve).
    specialize (Hk w1). rewrite H in Hk. simpl in Hk. by rewrite <- Hk.
Qed.

Lemma release_effect w r w' :
  ReleaseStreamDelivery id target connection token generation now w = (r, w') ->
  (r = Ok tt /\ exists d l, assigned_row (w_db w) d
     /\ w_db w' = append_lifecycle l (set_rows (<[id := release_assignment now d]>
                                        (deliveries (w_db w))) (w_db w)))
  \/ (exists e, r = Err e) /\ w_db w' = w_db w.
Proof.
  intros [(-> & Hu)|(He & [Hdb|(n & Hn & Hu)])]%fenced_effect; [left|by right|right].
  - apply update_with_lifecycle_inv in Hu as [(? & _)|(_ & d & Hd & Hp & _ & Hdb)]; [done|].
    split; [done|]. exists d. eexists. done.
  - apply update_with_lifecycle_inv in Hu as [(_ & Hdb & _)|(? & _)]; done.
Qed.

Lemma progress_effect lease w r w' :
  ProgressStreamDelivery id target connection token generation now lease w = (r, w') ->
  (r = Ok tt /\ 0 < lease /\ exists d, assigned_row (w_db w) d
     /\ null_gt (as_max_expires_at (dr_assignment d)) now = true
     /\ row_check (progress_row now (now + lease) d) = true
     /\ w_db w' = set_rows (<[id := progress_row now (now + lease) d]> (deliveries (w_db w)))
                    (w_db w))
  \/ (exists e, r = Err e) /\ w_db w' = w_db w.
Proof.
  unfold ProgressStreamDelivery. destruct (lease <=? 0) eqn:Hl.
  { intros H. injection H as <- <-. eauto. }
  intros [(-> & Hu)|(He & [Hdb|(n & Hn & Hu)])]%fenced_effect; [left|by right|right].
  - apply update_row_inv in Hu as [(? & _)|(_ & d & Hd & Hp & Hc & Hdb)]; [done|].
    apply andb_true_iff in Hp as []. split; [done|]. split; [lia|]. by exists d.
  - apply update_row_inv in Hu as [(_ & Hdb & _)|(? & _)]; done.
Qed.

End assignments.

(** ** The outbox *)

(** A transaction that fails has changed nothing. *)
Lemma transaction_effect {A} (body : M_relay A) (P : A -> RelayDB -> RelayDB -> Prop) :
  (forall w a w', body w = (Ok a, w') -> P a (w_db w) (w_db w')) ->
  forall w r w', transaction body w = (r, w') ->
    match r with Ok a => P a (w_db w) (w_db w') | Err _ => w_db w' = w_db w end.
Proof.
  intros Hb w [a|e] w' H; [|by eapply transaction_err_db].
  apply (proj1 (transaction_ok _ _ _ _)) in H. eauto.
Qed.

Lemma release_outbox_inv id token f w found w' :
  release_outbox id token f w = (Ok found, w') ->
  match found with
  | Some delivery => exists o, claimed_outbox id token (w_db w) = Some o
      /\ delivery = ob_delivery_id o
      /\ w_db w' = set_outbox (<[id := f o]> (outbox (w_db w))) (w_db w)
  | None => w_db w' = w_db w /\ claimed_outbox id token (w_db w) = None
  end.
Proof.
  unfold release_outbox. intros H. run_inv.
  destruct (claimed_outbox id token (w_db w)) as [o|]; simplify_eq; eauto.
Qed.

Lemma lifecycle_of_inv id f w a w' :
  insert_lifecycle_of id f w = (Ok a, w') -> w_db w' ≃ w_db w.
Proof.
  unfold insert_lifecycle_of. intros H. run_inv. case_match; simplify_eq.
  - match goal with Hx : append_lifecycle _ _ = _ |- _ => by rewrite <- Hx, append_same end.
  - match goal with Hx : w_db w = _ |- _ => by rewrite <- Hx end.
Qed.

(** The table of deliveries once a message of this delivery is given up: an
    acknowledged delivery stays, any other is dead-lettered if the constraints of
    the table allow it. *)
Definition gives_up (id : string) (now : Z) (rows rows' : gmap string StreamRow) : Prop :=
  match rows !! id with
  | Some d =>
      if bool_decide (dr_status d = DAcked) then rows' = rows
      else row_check (dead_letter_row now d) = true /\ rows' = <[id := dead_letter_row now d]> rows
  | None => rows' = rows
  end.

Lemma dead_letter_delivery_inv id now reason w a w' :
  dead_letter_delivery id now reason w = (Ok a, w') ->
  exists rows', gives_up id now (deliveries (w_db w)) rows' /\ w_db w' ≃ set_rows rows' (w_db w).
Proof.
  unfold dead_letter_delivery, gives_up. intros H. run_inv. apply lifecycle_of_inv in H.
  match goal with Hu : update_row _ _ _ _ = _ |- _ =>
    apply update_row_inv in Hu as [(_ & Hdb & Hno)|(_ & d & Hd & Hp & Hc & Hdb)] end.
  - exists (deliveries (w_db w)). rewrite H, Hdb. split; [|done].
    destruct (deliveries (w_db w) !! id) as [d|]; [|done]. specialize (Hno d eq_refl).
    bool_to_prop. by rewrite bool_decide_eq_true_2.
  - eexists. rewrite H, Hdb, Hd. bool_to_prop. by rewrite bool_decide_eq_false_2.
Qed.

(** *** Claiming *)

Section claim.
Context `{Postgres}.

Lemma claim_effect now stale token limit w messages w' :
  ClaimOutbox now stale token limit w = (Ok messages, w') ->
  token <> "" /\ 1 <= limit <= 1000 /\ stale <= now /\
  let sel := outbox_candidates now stale limit (w_locked w) (w_db w) in
  messages = message_of token <$> sel
  /\ w_db w' = set_outbox (update_where (fun o => bool_decide (ob_id o ∈ (ob_id <$> sel)))
       (claim_outbox_row now token) (outbox (w_db w))) (w_db w)
  /\ w_faults w' = tail (w_faults w).
Proof.
  unfold ClaimOutbox. case_match eqn:Hargs; [intros; by run_inv|]. intros Hrun.
  bool_to_prop. destruct_and!. run_inv. simplify_eq.
  split_and!; try done; try lia. unfold after_call in *. naive_solver.
Qed.

Lemma claim_err now stale token limit w e w' :
  ClaimOutbox now stale token limit w = (Err e, w') -> w_db w' = w_db w.
Proof.
  unfold ClaimOutbox. case_match; [by intros [= _ <-]|]. apply exec_err.
Qed.

End claim.

(** *** Publishing a claimed message *)

Section publish.
Context (id token : string).

Lemma set_outbox_id db : set_outbox (outbox db) db = db.
Proof. by destruct db. Qed.

Definition attempt_outbox (now attempts : Z) (o : OutboxRow) : OutboxRow :=
  with_outbox attempts (ob_available_at o) (ob_claimed_at o) (ob_claim_token o)
    (ob_dispatched_at o) (ob_failed_at o) (ob_last_error o) (Z.max (ob_updated_at o) now) o.

(** What [BeginOutboxPublish] leaves: the next attempt counted, or the message
    and its delivery given up. *)
Definition begun (now most : Z) (started : OutboxPublishStart) (db db' : RelayDB) : Prop :=
  exists o, claimed_outbox id token db = Some o
  /\ if ps_Exhausted started
     then most <= ob_attempts o
          /\ exists rows', gives_up (ob_delivery_id o) now (deliveries db) rows'
             /\ db' ≃ set_rows rows' (set_outbox (<[id := fail_outbox_row now "max_attempts" o]>
                                        (outbox db)) db)
     else ob_attempts o < most /\ ps_Attempt started = ob_attempts o + 1
          /\ db' = set_outbox (<[id := attempt_outbox now (ob_attempts o + 1) o]> (outbox db)) db.

Lemma begin_effect now most w r w' :
  BeginOutboxPublish id token now most w = (r, w') ->
  match r with
  | Err _ => w_db w' = w_db w
  | Ok started => begun now most started (w_db w) (w_db w')
  end.
Proof.
  unfold BeginOutboxPublish. case_match; [by intros [= <- <-]|].
  apply transaction_effect. clear. intros w started w' Hrun. run_inv. chase_db. rename x1 into o.
  assert (outbox (w_db w) !! id = Some o) as Ho
    by (match goal with Hc : claimed_outbox _ _ _ = _ |- _ => by apply claimed_outbox_inv in Hc as [] end).
  exists o. split; [done|].
  destruct (most <=? ob_attempts o) eqn:Hm; bool_to_prop; run_inv; chase_db; simpl.
  - match goal with Hd : dead_letter_delivery _ _ _ _ = _ |- _ =>
      apply dead_letter_delivery_inv in Hd as (rows' & Hg & Hdb) end.
    split; [done|]. unfold update_outbox in *. run_inv. simplify_eq. chase_db.
    exists rows'. match goal with Hs : set_outbox _ _ = _ |- _ => rewrite <- Hs in * end.
    erewrite alter_insert_Some in * by done. done.
  - unfold update_outbox in *. run_inv. simplify_eq. split_and!; [done..|].
    match goal with Hs : set_outbox _ _ = _ |- _ => rewrite <- Hs end. chase_db.
    by erewrite alter_insert_Some.
Qed.

(** [MarkOutboxDispatched] records the dispatch, or finds it already recorded. *)
Definition dispatched_row (now : Z) (o : OutboxRow) : OutboxRow :=
  with_outbox (ob_attempts o) (ob_available_at o) None None (Some now) (ob_failed_at o) None now o.
Definition moves (delivery : string) (f : StreamRow -> StreamRow)
    (rows rows' : gmap string StreamRow) : Prop :=
  match rows !! delivery with
  | Some d => if is_final (dr_status d) then rows' = rows
              else row_check (f d) = true /\ rows' = <[delivery := f d]> rows
  | None => rows' = rows
  end.

Lemma moves_inv delivery f db n db' :
  update_row delivery (fun r => negb (is_final (dr_status r))) f db = Ok (n, db') ->
  exists rows', moves delivery f (deliveries db) rows' /\ db' = set_rows rows' db.
Proof using Type.
  unfold moves. intros [(_ & -> & Hno)|(_ & d & Hd & Hp & Hc & ->)]%update_row_inv.
  - exists (deliveries db). split; [|by destruct db].
    destruct (deliveries db !! delivery) as [d|]; [|done]. specialize (Hno d eq_refl).
    bool_to_prop. by rewrite Hno.
  - rewrite Hd. bool_to_prop. rewrite Hp. eauto.
Qed.

Definition dispatched (now : Z) (db db' : RelayDB) : Prop :=
  (exists o rows', claimed_outbox id token db = Some o
     /\ moves (ob_delivery_id o) (fun r => dispatch_row DDispatched (touched now r) r)
          (deliveries db) rows'
     /\ db' ≃ set_rows rows' (set_outbox (<[id := dispatched_row now o]> (outbox db)) db))
  \/ (db' = db /\ claimed_outbox id token db = None
      /\ exists o, outbox db !! id = Some o /\ is_Some (ob_dispatched_at o)).

Lemma mark_effect now w r w' :
  MarkOutboxDispatched id token now w = (r, w') ->
  match r with Err _ => w_db w' = w_db w | Ok _ => dispatched now (w_db w) (w_db w') end.
Proof.
  unfold MarkOutboxDispatched. case_match; [by intros [= <- <-]|].
  apply (transaction_effect _ (fun _ => dispatched now)). clear. intros w [] w' Hrun.
  apply bind_ok in Hrun as ([] & w0 & Hb & Hrun). apply bind_ok in Hrun as (found & w1 & Hr & Hrun).
  run_inv. apply release_outbox_inv in Hr. destruct found as [delivery|].
  - left. destruct Hr as (o & Ho & -> & Hdb). run_inv. chase_db.
    match goal with Hu : update_row _ _ _ _ = _ |- _ => apply moves_inv in Hu as (rows' & Hm & Hx) end.
    match goal with Hl : insert_lifecycle_of _ _ _ = _ |- _ => apply lifecycle_of_inv in Hl end.
    exists o, rows'. chase_db. done.
  - right. destruct Hr as (Hdb & Ho). run_inv. chase_db.
    destruct (outbox (w_db w) !! id) as [o|] eqn:Hid; simplify_eq/=.
    destruct (ob_dispatched_at o) eqn:Hd; simpl in *; [|by run_inv]. run_inv. chase_db.
    split_and!; [done|done|]. exists o. rewrite Hd. eauto.
Qed.

(** [RetryOutbox] schedules the next attempt. *)
Definition retried_row (clock available : Z) (reason : string) (o : OutboxRow) : OutboxRow :=
  with_outbox (ob_attempts o) available None None (ob_dispatched_at o) (ob_failed_at o)
    (Some reason) clock o.

Lemma retry_effect clock available reason w r w' :
  RetryOutbox clock id token available reason w = (r, w') ->
  match r with
  | Err _ => w_db w' = w_db w
  | Ok _ => exists o rows', claimed_outbox id token (w_db w) = Some o
      /\ moves (ob_delivery_id o) (dispatch_row DRetrying clock) (deliveries (w_db w)) rows'
      /\ w_db w' = set_rows rows' (set_outbox (<[id :=
           retried_row clock available (safeOutboxReason reason) o]> (outbox (w_db w))) (w_db w))
  end.
Proof.
  unfold RetryOutbox. case_match; [by intros [= <- <-]|].
  apply (transaction_effect _ (fun _ db db' => exists o rows', claimed_outbox id token db = Some o
      /\ moves (ob_delivery_id o) (dispatch_row DRetrying clock) (deliveries db) rows'
      /\ db' = set_rows rows' (set_outbox (<[id :=
           retried_row clock available (safeOutboxReason reason) o]> (outbox db)) db))).
  clear. intros w [] w' Hrun. apply bind_ok in Hrun as ([] & w0 & Hb & Hrun).
  apply bind_ok in Hrun as (found & w1 & Hr & Hrun).
  run_inv. apply release_outbox_inv in Hr. destruct found as [delivery|]; [|by run_inv].
  destruct Hr as (o & Ho & -> & Hdb). run_inv. chase_db.
  match goal with Hu : update_row _ _ _ _ = _ |- _ => apply moves_inv in Hu as (rows' & Hm & Hx) end.
  exists o, rows'. done.
Qed.

Lemma fail_effect now reason w r w' :
  FailOutbox id token now reason w = (r, w') ->
  match r with
  | Err _ => w_db w' = w_db w
  | Ok _ => exists o rows', claimed_outbox id token (w_db w) = Some o
      /\ gives_up (ob_delivery_id o) now (deliveries (w_db w)) rows'
      /\ w_db w' ≃ set_rows rows' (set_outbox (<[id :=
           fail_outbox_row now (safeOutboxReason reason) o]> (outbox (w_db w))) (w_db w))
  end.
Proof.
  unfold FailOutbox. case_match; [by intros [= <- <-]|].
  apply (transaction_effect _ (fun _ db db' => exists o rows', claimed_outbox id token db = Some o
      /\ gives_up (ob_delivery_id o) now (deliveries db) rows'
      /\ db' ≃ set_rows rows' (set_outbox (<[id :=
           fail_outbox_row now (safeOutboxReason reason) o]> (outbox db)) db))).
  clear. intros w [] w' Hrun. apply bind_ok in Hrun as ([] & w0 & Hb & Hrun).
  apply bind_ok in Hrun as (found & w1 & Hr & Hrun).
  run_inv. apply release_outbox_inv in Hr. destruct found as [delivery|]; [|by run_inv].
  destruct Hr as (o & Ho & -> & Hdb). run_inv. chase_db.
  match goal with Hu : dead_letter_delivery _ _ _ _ = _ |- _ =>
    apply dead_letter_delivery_inv in Hu as (rows' & Hm & Hx) end.
  exists o, rows'. chase_db. done.
Qed.

End publish.
