(* ===== verification/CallbackStore.v ===== *)
(** * Event callbacks ([store/postgres/callbacks.go], [store/callbacks.go])

    The token-fenced attempts to deliver an event to an application's callback. *)

From Stdlib Require Import Ascii String.
From S2P Require Import Prelude GoLib Crypto Json Domain QueueSchema DeliverySchema.
From S2P Require Import DeliveryStore.

Definition CallbackFinishMargin : Z := Second.

(** The empty disposition is what the code returns beside an unexpected row count. *)
Inductive CallbackDispatchDisposition :=
| CallbackDispatchReady | CallbackDispatchBusy | CallbackDispatchComplete
| CallbackDispatchDeadLetter | CallbackDispatchNone.

(** [Body] is the JSON text of [cd_Event]. *)
Record CallbackDispatch := mkDispatch {
  cd_DeliveryID : string;
  cd_PublicJobID : string;
  cd_TargetAppID : string;
  cd_Token : string;
  cd_Attempt : Z;
  cd_CredentialVersion : Z;
  cd_Generation : Z;
  cd_LeaseExpiresAt : Z;
  cd_RetryAt : Z;
  cd_App : AppRow;
  cd_Event : Event;
  cd_Secret : string;
  cd_Reason : string;
  cd_DLQPublished : bool
}.

Record CallbackAttemptTransition := mkCallbackTransition {
  ct_Status : JobStatus;
  ct_Now : Z;
  ct_RetryAt : Z;
  ct_Reason : string
}.

(** [Truncate(time.Microsecond)] *)
Definition postgresTime (t : Z) : Z := (t `div` Microsecond) * Microsecond.
Definition nullableTime (t : Z) : option Z := if IsZero t then None else Some t.
Definition stringValue (value : option string) : string := default "" value.
Definition sameOptionalTime (value : option Z) (expected : Z) : bool :=
  match value with
  | None => IsZero expected
  | Some v => v =? postgresTime expected
  end.

(** The join of the delivery with its application, event and outbox row. *)
Definition callback_join (deliveryID : string) (db : RelayDB)
    : option (StreamRow * AppRow * EventRow * OutboxRow) :=
  match deliveries db !! deliveryID with
  | None => None
  | Some d =>
      if negb (bool_decide (dr_sink d = SinkCallback)) then None else
      match app_rows db !! dr_target_app_id d, events (queue_db db) !! dr_event_id d,
            select_where (fun o => bool_decide (ob_delivery_id o = dr_id d)) (outbox db) with
      | Some a, Some e, o :: _ => Some (d, a, e, o)
      | _, _, _ => None
      end
  end.

(** The dispatch as the row has it, before an attempt is started. *)
Definition dispatch_of (d : StreamRow) (a : AppRow) (o : OutboxRow) : CallbackDispatch :=
  let c := dr_callback d in
  mkDispatch (dr_id d) (dr_public_job_id d) (dr_target_app_id d) (stringValue (cc_token c))
    (dr_attempts d) 0 (dr_generation d) (default zero_time (cc_expires_at c))
    (default zero_time (cc_retry_at c)) a (env_Event (ob_payload o)) ""
    (stringValue (cc_reason c)) (isSome (cc_dlq_published_at c)).
Definition set_dispatch (r : CallbackDispatch) (token : string) (attempt version lease retry : Z)
    (secret reason : string) : CallbackDispatch :=
  mkDispatch (cd_DeliveryID r) (cd_PublicJobID r) (cd_TargetAppID r) token attempt version
    (cd_Generation r) lease retry (cd_App r) (cd_Event r) secret reason (cd_DLQPublished r).
Definition with_reason (r : CallbackDispatch) (reason : string) : CallbackDispatch :=
  set_dispatch r (cd_Token r) (cd_Attempt r) (cd_CredentialVersion r) (cd_LeaseExpiresAt r)
    (cd_RetryAt r) (cd_Secret r) reason.
Definition with_retry (r : CallbackDispatch) (retry : Z) : CallbackDispatch :=
  set_dispatch r (cd_Token r) (cd_Attempt r) (cd_CredentialVersion r) (cd_LeaseExpiresAt r)
    retry (cd_Secret r) (cd_Reason r).

Definition nullif_zero (n : Z) : option Z := if n =? 0 then None else Some n.

(** [SET status='dead_letter',callback_reason=$2,callback_token=NULL,callback_expires_at=NULL] *)
Definition callback_dead_row (now : Z) (reason : string) (r : StreamRow) : StreamRow :=
  let c := dr_callback r in
  with_state DDeadLetter (dr_attempts r) (dr_assignment r)
    (mkCallbackColumns None None (cc_retry_at c) (cc_url c) (cc_credential_version c)
       (Some reason) (cc_dlq_published_at c)) now r.
Definition callback_dead_letter (deliveryID reason : string) (now : Z) : M_relay unit :=
  exec (fun _ => update_with_lifecycle deliveryID (fun _ => true) (callback_dead_row now reason)
    (fun r => mkLifecycle (dr_id r) (dr_generation r) LDeadLettered "dead_letter" (Some reason)
                (nullif_zero (dr_attempts r)) None now));;
  mret tt.

Definition start_row (attempt : Z) (token : string) (expires : Z) (url : string) (version now : Z)
    (r : StreamRow) : StreamRow :=
  with_state DDispatched attempt (dr_assignment r)
    (mkCallbackColumns (Some token) (Some expires) None (Some url) (Some version) None
       (cc_dlq_published_at (dr_callback r))) now r.

(** [INSERT INTO delivery_attempts ... ON CONFLICT DO NOTHING] *)
Definition insert_started (k : string * Z * Z) (now : Z) (token : string) (db : RelayDB)
    : RelayDB :=
  match delivery_attempts db !! k with
  | Some _ => db
  | None => set_row_attempts (<[k := mkAttemptRow AoStarted None now now (Some token)]>
                                (delivery_attempts db)) db
  end.

Definition callback_mode (mode : DeliveryMode) : bool :=
  match mode with DeliveryCallback | DeliveryAll => true | _ => false end.

Section attempts.
Context (Decrypt : string -> option string).

(** The attempt itself: [url], [secret] and [version] come from the application. *)
Definition start_attempt (deliveryID : string) (result : CallbackDispatch) (token url : string)
    (encrypted : string) (version now lease : Z)
    : M_relay (CallbackDispatch * CallbackDispatchDisposition) :=
  match Decrypt encrypted with
  | None => fail DriverError
  | Some secret =>
      let attempt := cd_Attempt result + 1 in
      let expires := postgresTime (now + lease) in
      let result := set_dispatch result token attempt version expires zero_time secret
                      (cd_Reason result) in
      affected ← exec (fun _ => update_row deliveryID (fun _ => true)
                         (start_row attempt token expires url version now));
      if negb (affected =? 1) then mret (result, CallbackDispatchNone) else
      update (fun db => (tt, insert_started (deliveryID, cd_Generation result, attempt) now token
                               db));;
      insert_lifecycle (mkLifecycle deliveryID (cd_Generation result) LCallbackStarted "started"
                          None (Some attempt) None now);;
      commit;;
      mret (result, CallbackDispatchReady)
  end.

Definition BeginCallbackAttempt (deliveryID : string) (generation : Z) (token : string)
    (now lease : Z) : M_relay (CallbackDispatch * CallbackDispatchDisposition) :=
  if bool_decide (deliveryID = "") || (generation <? 1) || bool_decide (token = "")
     || (lease <=? CallbackFinishMargin) then fail StoreConflict else
  let now := postgresTime now in
  transaction (
    begin;;
    row ← query_row StoreNotFound (callback_join deliveryID);
    let '(d, a, e, o) := row in
    if negb (dr_generation d =? generation) || negb (ob_generation o =? generation)
    then fail StoreConflict else
    let result := dispatch_of d a o in
    if bool_decide (dr_status d = DAcked) || bool_decide (dr_status d = DDelivered)
    then commit;; mret (result, CallbackDispatchComplete)
    else if bool_decide (dr_status d = DDeadLetter)
    then commit;; mret (result, CallbackDispatchDeadLetter)
    else if negb (IsZero (cd_RetryAt result)) && (now <? cd_RetryAt result)
    then commit;; mret (result, CallbackDispatchBusy)
    else if negb (bool_decide (cd_Token result = "")) && (now <? cd_LeaseExpiresAt result)
    then commit;; mret (with_retry result (cd_LeaseExpiresAt result), CallbackDispatchBusy)
    else if negb (now <? er_expires_at e) || (6 <=? cd_Attempt result) then
      let reason := if 6 <=? cd_Attempt result then "attempts_exhausted" else "event_expired" in
      callback_dead_letter deliveryID reason now;;
      commit;;
      mret (with_reason result reason, CallbackDispatchDeadLetter)
    else match app_CallbackURL a, app_credential a with
    | Some url, Some (encrypted, version) =>
        if app_Enabled a && negb (bool_decide (url = "")) && callback_mode (app_DeliveryMode a)
        then start_attempt deliveryID result token url encrypted version now lease
        else callback_dead_letter deliveryID "callback_disabled" now;;
             commit;;
             mret (with_reason result "callback_disabled", CallbackDispatchDeadLetter)
    | _, _ =>
        callback_dead_letter deliveryID "callback_disabled" now;;
        commit;;
        mret (with_reason result "callback_disabled", CallbackDispatchDeadLetter)
    end).

End attempts.

(** The stored status of a transition. *)
Definition transition_status (s : JobStatus) : DeliveryState :=
  match s with JobPending => DRetrying | JobDeadLetter => DDeadLetter | _ => DDelivered end.

Definition holds_attempt (generation : Z) (token : string) (attempt now : Z) (r : StreamRow) : bool :=
  bool_decide (dr_sink r = SinkCallback) && (dr_generation r =? generation)
  && null_eq (cc_token (dr_callback r)) token && (dr_attempts r =? attempt)
  && null_gt (cc_expires_at (dr_callback r)) now.
Definition finish_row (status : DeliveryState) (retry : option Z) (reason : string) (now : Z)
    (r : StreamRow) : StreamRow :=
  let c := dr_callback r in
  with_state status (dr_attempts r) (dr_assignment r)
    (mkCallbackColumns None None retry (cc_url c) (cc_credential_version c) (Some reason)
       (cc_dlq_published_at c)) now r.

(** The outcome already recorded for this attempt: finishing again is harmless. *)
Definition already_finished (deliveryID : string) (generation : Z) (token : string) (attempt : Z)
    (status : DeliveryState) (t : CallbackAttemptTransition) (db : RelayDB) : bool :=
  match deliveries db !! deliveryID, delivery_attempts db !! (deliveryID, generation, attempt) with
  | Some d, Some a =>
      (dr_generation d =? generation) && (dr_attempts d =? attempt)
      && bool_decide (dr_status d = status) && bool_decide (da_outcome a = AoStatus status)
      && null_eq (da_callback_token a) token
      && bool_decide (stringValue (da_reason a) = ct_Reason t)
      && sameOptionalTime (cc_retry_at (dr_callback d)) (ct_RetryAt t)
  | _, _ => false
  end.

Definition finish_attempt_row (status : DeliveryState) (reason : string) (now : Z)
    (a : AttemptRow) : AttemptRow :=
  mkAttemptRow (AoStatus status) (Some reason) (da_created_at a) now (da_callback_token a).

Definition lifecycle_type (status : DeliveryState) : LifecycleType :=
  match status with
  | DRetrying => LCallbackRetrying
  | DDeadLetter => LDeadLettered
  | _ => LCallbackDelivered
  end.
Definition status_text (status : DeliveryState) : string :=
  match status with
  | DPending => "pending" | DDispatched => "dispatched" | DRetrying => "retrying"
  | DDelivered => "delivered" | DAcked => "acked" | DDeadLetter => "dead_letter"
  end.

Definition truncate_transition (t : CallbackAttemptTransition) : CallbackAttemptTransition :=
  mkCallbackTransition (ct_Status t) (postgresTime (ct_Now t))
    (if IsZero (ct_RetryAt t) then ct_RetryAt t else postgresTime (ct_RetryAt t)) (ct_Reason t).

Definition FinishCallbackAttempt (deliveryID : string) (generation : Z) (token : string)
    (attempt : Z) (transition : CallbackAttemptTransition) : M_relay unit :=
  if negb (bool_decide (ct_Status transition = JobDelivered)
           || bool_decide (ct_Status transition = JobPending)
           || bool_decide (ct_Status transition = JobDeadLetter)) then fail StoreConflict
  else if bool_decide (ct_Status transition = JobPending) && IsZero (ct_RetryAt transition)
  then fail StoreConflict else
  let t := truncate_transition transition in
  let status := transition_status (ct_Status t) in
  transaction (
    begin;;
    affected ← exec (fun _ => update_row deliveryID (holds_attempt generation token attempt (ct_Now t))
      (finish_row status (nullableTime (ct_RetryAt t)) (ct_Reason t) (ct_Now t)));
    if negb (affected =? 1) then
      same ← on_error (query (already_finished deliveryID generation token attempt status t))
               (fun _ => fail StoreConflict);
      if (same : bool) then commit else fail StoreConflict
    else
      found ← update (fun db =>
        match delivery_attempts db !! (deliveryID, generation, attempt) with
        | Some a => (1, set_row_attempts (<[(deliveryID, generation, attempt) :=
                           finish_attempt_row status (ct_Reason t) (ct_Now t) a]>
                           (delivery_attempts db)) db)
        | None => (0, db)
        end);
      if negb (found =? 1) then fail StoreConflict else
      insert_lifecycle (mkLifecycle deliveryID generation (lifecycle_type status)
        (status_text status) (Some (ct_Reason t)) (Some attempt) None (ct_Now t));;
      commit).

Definition dlq_row (now : Z) (r : StreamRow) : StreamRow :=
  let c := dr_callback r in
  with_state (dr_status r) (dr_attempts r) (dr_assignment r)
    (mkCallbackColumns (cc_token c) (cc_expires_at c) (cc_retry_at c) (cc_url c)
       (cc_credential_version c) (cc_reason c)
       (Some (default now (cc_dlq_published_at c)))) (touched now r) r.

Definition MarkCallbackDLQPublished (deliveryID : string) (generation now : Z) : M_relay unit :=
  let now := postgresTime now in
  affected ← exec (fun _ => update_row deliveryID
    (fun r => (dr_generation r =? generation) && bool_decide (dr_sink r = SinkCallback)
              && bool_decide (dr_status r = DDeadLetter)) (dlq_row now));
  if negb (affected =? 1) then fail StoreConflict else mret tt.
