(* ===== verification/CallbackEffects.v ===== *)
(** * What the callback operations do to the tables *)

From Stdlib Require Import Ascii String.
From S2P Require Import Prelude GoLib Crypto Json Domain QueueSchema DeliverySchema.
From S2P Require Import DeliveryStore DeliveryEffects CallbackStore.

Lemma callback_join_inv id db d a e o :
  callback_join id db = Some (d, a, e, o) ->
  deliveries db !! id = Some d /\ dr_sink d = SinkCallback
  /\ app_rows db !! dr_target_app_id d = Some a /\ events (queue_db db) !! dr_event_id d = Some e
  /\ ob_delivery_id o = dr_id d /\ exists k, outbox db !! k = Some o.
Proof.
  unfold callback_join. destruct (deliveries db !! id) as [d'|]; [|done].
  destruct (bool_decide _) eqn:Hs; simpl; [|done].
  destruct (app_rows db !! _) eqn:Ha; [|done]. destruct (events _ !! _) eqn:He; [|done].
  destruct (select_where _ _) as [|o' l] eqn:Ho; [done|]. intros [= -> -> -> ->].
  assert (o ∈ select_where (fun o => bool_decide (ob_delivery_id o = dr_id d)) (outbox db))
    as Hin by (rewrite Ho; apply list_elem_of_here).
  apply elem_of_select in Hin as [Hk Hin]. bool_to_prop. done.
Qed.

(** A callback is done with, from the worker's point of view. *)
Definition complete (s : DeliveryState) : bool :=
  bool_decide (s = DAcked) || bool_decide (s = DDelivered).
(** A retry is scheduled, or another worker holds an unexpired attempt. *)
Definition busy (now : Z) (d : StreamRow) : bool :=
  let c := dr_callback d in
  negb (IsZero (default zero_time (cc_retry_at c))) && (now <? default zero_time (cc_retry_at c))
  || negb (bool_decide (stringValue (cc_token c) = "")) && (now <? default zero_time (cc_expires_at c)).

Lemma callback_dead_letter_inv id reason now w a w' d :
  callback_dead_letter id reason now w = (Ok a, w') -> deliveries (w_db w) !! id = Some d ->
  row_check (callback_dead_row now reason d) = true
  /\ w_db w' ≃ set_rows (<[id := callback_dead_row now reason d]> (deliveries (w_db w))) (w_db w).
Proof.
  unfold callback_dead_letter. intros H Hd. run_inv.
  match goal with Hu : update_with_lifecycle _ _ _ _ _ = _ |- _ =>
    apply update_with_lifecycle_inv in Hu as [(_ & _ & Hno)|(_ & d' & Hd' & _ & Hc & Hdb)] end.
  { specialize (Hno d Hd). done. }
  simplify_eq. by rewrite Hdb.
Qed.

Section effects.
Context (Decrypt : string -> option string).
Context (id : string) (generation : Z) (token : string).

(** The database once an attempt has been started. *)
Definition started_db (attempt expires : Z) (url : string) (version now : Z) (d : StreamRow)
    (db : RelayDB) : RelayDB :=
  insert_started (id, generation, attempt) now token
    (set_rows (<[id := start_row attempt token expires url version now d]> (deliveries db)) db).

Lemma insert_started_proper k now t db db' :
  db ≃ db' -> insert_started k now t db ≃ insert_started k now t db'.
Proof.
  intros H. unfold insert_started. rewrite (attempts_proper _ _ H).
  destruct (delivery_attempts db' !! k); [done|].
  exact (f_equal (set_row_attempts _) H).
Qed.

Lemma start_attempt_inv result url encrypted version now lease w r disposition w' d :
  start_attempt Decrypt id result token url encrypted version now lease w
    = (Ok (r, disposition), w') ->
  deliveries (w_db w) !! id = Some d -> cd_Generation result = generation ->
  disposition = CallbackDispatchReady
  /\ (exists secret, Decrypt encrypted = Some secret
      /\ r = set_dispatch result token (cd_Attempt result + 1) version (postgresTime (now + lease))
               zero_time secret (cd_Reason result))
  /\ row_check (start_row (cd_Attempt result + 1) token (postgresTime (now + lease)) url version
                  now d) = true
  /\ w_db w' ≃ started_db (cd_Attempt result + 1) (postgresTime (now + lease)) url version now d
                 (w_db w).
Proof.
  unfold start_attempt. destruct (Decrypt encrypted) as [secret|]; [|intros; by run_inv].
  intros H Hd Hg. run_inv.
  match goal with Hu : update_row _ _ _ _ = _ |- _ =>
    apply update_row_inv in Hu as [(_ & _ & Hno)|(-> & d' & Hd' & _ & Hc & Hdb)] end.
  { specialize (Hno d Hd). done. }
  simplify_eq. cbn [negb Z.eqb Pos.eqb] in H. run_inv. simplify_eq.
  match goal with Hl : insert_lifecycle _ _ = _ |- _ => apply insert_lifecycle_inv in Hl as (Hl & _) end.
  split_and!; [done|eauto|done|]. chase_db. rewrite append_same. unfold started_db. simpl in *.
  match goal with Hi : insert_started _ _ _ _ = _ |- _ => by rewrite <- Hg, Hi end.
Qed.

(** What [BeginCallbackAttempt] found and did, by the disposition it returned. *)
Definition begun_as (now lease : Z) (d : StreamRow) (a : AppRow) (e : EventRow) (o : OutboxRow)
    (result : CallbackDispatch * CallbackDispatchDisposition) (db db' : RelayDB) : Prop :=
  let base := dispatch_of d a o in
  match result.2 with
  | CallbackDispatchComplete => complete (dr_status d) = true /\ result.1 = base /\ db' = db
  | CallbackDispatchDeadLetter =>
      (dr_status d = DDeadLetter /\ result.1 = base /\ db' = db)
      \/ exists reason, complete (dr_status d) = false /\ dr_status d <> DDeadLetter
           /\ busy now d = false /\ result.1 = with_reason base reason
           /\ row_check (callback_dead_row now reason d) = true
           /\ db' ≃ set_rows (<[id := callback_dead_row now reason d]> (deliveries db)) db
  | CallbackDispatchBusy =>
      complete (dr_status d) = false /\ dr_status d <> DDeadLetter /\ busy now d = true /\ db' = db
  | CallbackDispatchReady =>
      complete (dr_status d) = false /\ dr_status d <> DDeadLetter /\ busy now d = false
      /\ dr_attempts d < 6 /\ now < er_expires_at e
      /\ exists url encrypted version secret,
           app_CallbackURL a = Some url /\ app_credential a = Some (encrypted, version)
           /\ app_Enabled a = true /\ callback_mode (app_DeliveryMode a) = true
           /\ Decrypt encrypted = Some secret
           /\ result.1 = set_dispatch base token (dr_attempts d + 1) version
                           (postgresTime (now + lease)) zero_time secret (cd_Reason base)
           /\ row_check (start_row (dr_attempts d + 1) token (postgresTime (now + lease)) url
                           version now d) = true
           /\ db' ≃ started_db (dr_attempts d + 1) (postgresTime (now + lease)) url version now d db
  | CallbackDispatchNone => False
  end.

Definition callback_begun (now lease : Z) (result : CallbackDispatch * CallbackDispatchDisposition)
    (db db' : RelayDB) : Prop :=
  exists d a e o, callback_join id db = Some (d, a, e, o) /\ dr_generation d = generation
    /\ ob_generation o = generation /\ begun_as now lease d a e o result db db'.

(** The branches that dead-letter the delivery. *)
Lemma dead_path now lease reason d a e o w r w' :
  (callback_dead_letter id reason now;; commit;;
   mret (with_reason (dispatch_of d a o) reason, CallbackDispatchDeadLetter)) w = (Ok r, w') ->
  deliveries (w_db w) !! id = Some d -> complete (dr_status d) = false ->
  dr_status d <> DDeadLetter -> busy now d = false ->
  begun_as now lease d a e o r (w_db w) (w_db w').
Proof.
  intros Hrun Hd Hcomp Hdead Hbusy. run_inv.
  match goal with Hx : callback_dead_letter _ _ _ _ = _ |- _ =>
    eapply callback_dead_letter_inv in Hx as [Hc Hdb]; [|done] end.
  right. exists reason. chase_db. done.
Qed.

Lemma begin_callback_effect now lease w r w' :
  BeginCallbackAttempt Decrypt id generation token now lease w = (r, w') ->
  match r with
  | Err _ => w_db w' = w_db w
  | Ok result => id <> "" /\ token <> "" /\ CallbackFinishMargin < lease
      /\ callback_begun (postgresTime now) lease result (w_db w) (w_db w')
  end.
Proof.
  unfold BeginCallbackAttempt. case_match eqn:Hargs; [by intros [= <- <-]|].
  bool_to_prop. destruct_and!.
  intros Hrun. cut (match r with
    | Ok result => callback_begun (postgresTime now) lease result (w_db w) (w_db w')
    | Err _ => w_db w' = w_db w end); [destruct r; naive_solver|].
  revert Hrun. apply (transaction_effect _ (callback_begun (postgresTime now) lease)).
  clear w r w'. generalize (postgresTime now) as t. intros t w [r disposition] w' Hrun.
  run_inv. chase_db. destruct x1 as [[[d a] e] o]. exists d, a, e, o.
  destruct (dr_generation d =? generation) eqn:Hg; [|by run_inv]. bool_to_prop.
  destruct (ob_generation o =? generation) eqn:Hg'; [|by run_inv]. cbn [negb orb] in Hrun.
  apply Z.eqb_eq in Hg'.
  match goal with Hj : callback_join _ _ = _ |- _ => pose proof (callback_join_inv _ _ _ _ _ _ Hj)
    as (Hd & Hsink & _) end.
  split_and!; [done..|]. fold (complete (dr_status d)) in Hrun.
  destruct (complete (dr_status d)) eqn:Hcomp; [run_inv; chase_db; by simplify_eq|].
  destruct (bool_decide (dr_status d = DDeadLetter)) eqn:Hdead; bool_to_prop.
  { run_inv; chase_db; simplify_eq. by left. }
  match goal with Hx : w_db ?x = w_db w |- _ => rewrite <- Hx; rewrite <- Hx in Hd end.
  destruct (negb (IsZero (cd_RetryAt _)) && _) eqn:Hb1; simpl in Hb1.
  { run_inv; simplify_eq. split_and!; [done..|by (unfold busy; rewrite Hb1)|done]. }
  destruct (negb (bool_decide (cd_Token _ = "")) && _) eqn:Hb2; simpl in Hb2.
  { run_inv; simplify_eq. split_and!; [done..|by (unfold busy; rewrite Hb2, orb_true_r)|done]. }
  assert (busy t d = false) as Hbusy by (unfold busy; by rewrite Hb1, Hb2).
  destruct (negb (t <? er_expires_at e) || _) eqn:Hexp.
  { by eapply dead_path. }
  destruct (app_CallbackURL a) as [url|] eqn:Hurl; [|by eapply dead_path].
  destruct (app_credential a) as [[encrypted version]|] eqn:Hcred;
    [|by eapply dead_path].
  destruct (app_Enabled a && _ && _) eqn:Hen; [|by eapply dead_path].
  apply start_attempt_inv with (d := d) in Hrun as (-> & (secret & Hs & ->) & Hc & Hdb);
    [|congruence|done].
  simpl in Hexp. bool_to_prop. destruct_and!. split_and!; try done; try lia.
  exists url, encrypted, version, secret. done.
Qed.

(** What [FinishCallbackAttempt] does: the holder of the unexpired attempt records
    its outcome, or the same outcome is found recorded already. *)
Definition finished_db (attempt : Z) (status : DeliveryState) (t : CallbackAttemptTransition)
    (d : StreamRow) (i : AttemptRow) (db : RelayDB) : RelayDB :=
  set_row_attempts (<[(id, generation, attempt) :=
      finish_attempt_row status (ct_Reason t) (ct_Now t) i]> (delivery_attempts db))
    (set_rows (<[id := finish_row status (nullableTime (ct_RetryAt t)) (ct_Reason t) (ct_Now t) d]>
       (deliveries db)) db).
Definition callback_finished (attempt : Z) (t : CallbackAttemptTransition) (db db' : RelayDB)
    : Prop :=
  let status := transition_status (ct_Status t) in
  (exists d i, deliveries db !! id = Some d
     /\ holds_attempt generation token attempt (ct_Now t) d = true
     /\ row_check (finish_row status (nullableTime (ct_RetryAt t)) (ct_Reason t) (ct_Now t) d) = true
     /\ delivery_attempts db !! (id, generation, attempt) = Some i
     /\ db' ≃ finished_db attempt status t d i db)
  \/ (db' = db /\ already_finished id generation token attempt status t db = true).

Lemma finish_callback_effect attempt transition w r w' :
  FinishCallbackAttempt id generation token attempt transition w = (r, w') ->
  match r with
  | Err _ => w_db w' = w_db w
  | Ok _ => callback_finished attempt (truncate_transition transition) (w_db w) (w_db w')
  end.
Proof.
  unfold FinishCallbackAttempt. case_match; [by intros [= <- <-]|].
  case_match; [by intros [= <- <-]|].
  apply (transaction_effect _ (fun _ => callback_finished attempt (truncate_transition transition))).
  generalize (truncate_transition transition) as t. clear.
  intros t w [] w' Hrun. run_inv. chase_db.
  match goal with Hu : update_row _ _ _ _ = _ |- _ =>
    apply update_row_inv in Hu as [(-> & Hdb & Hno)|(-> & d & Hd & Hp & Hc & Hdb)] end;
    cbn [negb Z.eqb Pos.eqb] in Hrun.
  - right. apply bind_ok in Hrun as (same & w1 & Hsame & Hrun). unfold on_error in Hsame.
    destruct (query _ _) as [[b|e] w2] eqn:Hq; [|by run_inv]. simplify_eq. run_inv.
    destruct same; run_inv. chase_db. done.
  - left. apply bind_ok in Hrun as (n & w1 & Hn & Hrun). run_inv. chase_db.
    destruct (delivery_attempts _ !! _) as [i|] eqn:Hi; simplify_eq/=; run_inv.
    match goal with Hl : insert_lifecycle _ _ = _ |- _ =>
      apply insert_lifecycle_inv in Hl as (Hl & _) end.
    chase_db. exists d, i. simpl in Hi.
    split_and!; try done. rewrite append_same.
    match goal with Hx : set_row_attempts _ _ = _ |- _ => by rewrite <- Hx end.
Qed.

Lemma dlq_effect now w r w' :
  MarkCallbackDLQPublished id generation now w = (r, w') ->
  match r with
  | Err _ => w_db w' = w_db w
  | Ok _ => exists d, deliveries (w_db w) !! id = Some d /\ dr_generation d = generation
      /\ dr_sink d = SinkCallback /\ dr_status d = DDeadLetter
      /\ row_check (dlq_row (postgresTime now) d) = true
      /\ w_db w' = set_rows (<[id := dlq_row (postgresTime now) d]> (deliveries (w_db w))) (w_db w)
  end.
Proof.
  unfold MarkCallbackDLQPublished. generalize (postgresTime now) as t. intros t. destruct r as [[]|e].
  - intros Hrun. run_inv. match goal with Hu : update_row _ _ _ _ = _ |- _ =>
      apply update_row_inv in Hu as [(-> & _)|(-> & d & Hd & Hp & Hc & Hdb)] end;
      cbn [negb Z.eqb Pos.eqb] in Hrun; run_inv.
    bool_to_prop. destruct_and!. exists d. chase_db. done.
  - intros [H|(n & w1 & (Hu & _)%exec_ok & H)]%bind_err; [by apply exec_err in H|].
    apply update_row_inv in Hu as [(-> & Hdb & _)|(-> & _)]; cbn [negb Z.eqb Pos.eqb] in H; [|done].
    injection H as _ <-. done.
Qed.

End effects.
