(* ===== verification/DeliverySystem.v ===== *)
(** * The deliveries as a state machine

    The invariant of the delivery tables and the transitions a delivery may make,
    for every operation of the stream gateway, the outbox dispatcher and the
    callback worker. *)

From Stdlib Require Import Ascii String.
From S2P Require Import Prelude GoLib Crypto Json Domain QueueSchema DeliverySchema.
From S2P Require Import DeliveryStore DeliveryEffects CallbackStore CallbackEffects.

(** ** One delivery *)

(** A stream delivery has no callback attempt, a callback delivery no assignment
    and at most six attempts; both satisfy the constraints of the table. *)
Record row_ok (r : StreamRow) : Prop := {
  ro_check : row_check r = true;
  ro_stream : dr_sink r = SinkStream -> cc_token (dr_callback r) = None;
  ro_callback : dr_sink r = SinkCallback ->
    dr_assignment r = no_assignment /\ dr_attempts r <= 6
}.

(** Nothing will be done any more: acknowledged or given up, with no callback
    attempt running. *)
Definition settled (r : StreamRow) : bool :=
  is_final (dr_status r) && isNone (cc_token (dr_callback r)).

(** What may happen to a delivery within a generation: its identity stays, attempts
    only grow, it never becomes pending again, once settled it stays in the state
    it has, and the record that its dead letter was published stays. *)
Record row_move (r r' : StreamRow) : Prop := {
  rst_identity : dr_id r' = dr_id r /\ dr_public_job_id r' = dr_public_job_id r
    /\ dr_event_id r' = dr_event_id r /\ dr_source_app_id r' = dr_source_app_id r
    /\ dr_target_app_id r' = dr_target_app_id r /\ dr_sink r' = dr_sink r
    /\ dr_generation r' = dr_generation r /\ dr_created_at r' = dr_created_at r;
  rst_attempts : dr_attempts r <= dr_attempts r';
  rst_pending : dr_status r' = DPending -> dr_status r = DPending;
  rst_settled : settled r = true -> settled r' = true /\ dr_status r' = dr_status r;
  rst_dlq : is_Some (cc_dlq_published_at (dr_callback r)) ->
    is_Some (cc_dlq_published_at (dr_callback r'))
}.

#[export] Instance row_move_preorder : PreOrder row_move.
Proof.
  split.
  - intros r. by split.
  - intros r1 r2 r3 [I1 A1 P1 S1 D1] [I2 A2 P2 S2 D2]. split.
    + destruct_and!. split_and!; congruence.
    + lia.
    + auto.
    + intros H. destruct (S1 H) as [H2 E2]. destruct (S2 H2) as [H3 E3]. split; congruence.
    + auto.
Qed.

(** What may happen to a delivery: an operator may put it back under a higher
    generation, but not once it is acknowledged. *)
Record row_step (r r' : StreamRow) : Prop := {
  rs_identity : dr_id r' = dr_id r /\ dr_event_id r' = dr_event_id r
    /\ dr_target_app_id r' = dr_target_app_id r /\ dr_sink r' = dr_sink r;
  rs_generation : dr_generation r <= dr_generation r';
  rs_move : dr_generation r' = dr_generation r -> row_move r r';
  rs_acked : settled r = true -> dr_status r = DAcked -> dr_generation r' = dr_generation r
}.
Lemma move_step r r' : row_move r r' -> row_step r r'.
Proof. intros Hm. pose proof (rst_identity _ _ Hm). destruct_and!. split; try done. lia. Qed.
#[export] Instance row_step_preorder : PreOrder row_step.
Proof.
  split; [intros r; apply move_step; reflexivity|].
  intros r1 r2 r3 [I1 G1 M1 A1] [I2 G2 M2 A2]. split; [|lia| |].
  - destruct_and!. split_and!; congruence.
  - intros Hg. etransitivity; [apply M1|apply M2]; lia.
  - intros Hs Ha. pose proof (A1 Hs Ha) as Hg. destruct (rst_settled _ _ (M1 Hg) Hs) as [Hs2 Ha2].
    rewrite (A2 Hs2); [done|congruence].
Qed.

(** ** The tables *)

Record outbox_ok (o : OutboxRow) : Prop := {
  oo_claim : isNone (ob_claim_token o) = isNone (ob_claimed_at o);
  oo_closed : open_outbox o = false -> ob_claim_token o = None;
  oo_once : is_Some (ob_dispatched_at o) -> ob_failed_at o = None;
  oo_attempts : 0 <= ob_attempts o
}.

Record relay_inv (db : RelayDB) : Prop := {
  ri_row_key : forall k r, deliveries db !! k = Some r -> dr_id r = k;
  ri_row : forall k r, deliveries db !! k = Some r -> row_ok r;
  ri_outbox_key : forall k o, outbox db !! k = Some o -> ob_id o = k;
  ri_outbox : forall k o, outbox db !! k = Some o -> outbox_ok o;
  ri_outbox_row : forall k o, outbox db !! k = Some o -> is_Some (deliveries db !! ob_delivery_id o);
  ri_outbox_unique : forall k k' o o', outbox db !! k = Some o -> outbox db !! k' = Some o' ->
    ob_delivery_id o = ob_delivery_id o' -> k = k';
  ri_generation : forall k o r, outbox db !! k = Some o -> deliveries db !! ob_delivery_id o = Some r ->
    ob_generation o = dr_generation r;
  (* no delivery is without its message *)
  ri_has_outbox : forall id r, deliveries db !! id = Some r ->
    exists k o, outbox db !! k = Some o /\ ob_delivery_id o = id;
  ri_attempts : forall id g a i, delivery_attempts db !! (id, g, a) = Some i ->
    exists r, deliveries db !! id = Some r /\ g <= dr_generation r
              /\ (g = dr_generation r -> a <= dr_attempts r)
}.

(** Within a generation an outbox row only moves forward: the message stays,
    attempts grow, and a message that was dispatched or given up stays so. *)
Record outbox_move (o o' : OutboxRow) : Prop := {
  os_identity : ob_id o' = ob_id o /\ ob_delivery_id o' = ob_delivery_id o
    /\ ob_subject o' = ob_subject o /\ ob_payload o' = ob_payload o
    /\ ob_message_id o' = ob_message_id o /\ ob_generation o' = ob_generation o;
  os_attempts : ob_attempts o <= ob_attempts o';
  os_closed : open_outbox o = false ->
    ob_dispatched_at o' = ob_dispatched_at o /\ ob_failed_at o' = ob_failed_at o
}.
#[export] Instance outbox_move_preorder : PreOrder outbox_move.
Proof.
  split.
  - intros o. by split.
  - intros o1 o2 o3 [I1 A1 C1] [I2 A2 C2]. split; [|lia|].
    + destruct_and!. split_and!; congruence.
    + intros H. destruct (C1 H) as [D1 F1]. destruct C2 as [D2 F2];
        [unfold open_outbox in *; congruence|]. split; congruence.
Qed.

(** An operator may replace the message by one of a higher generation. *)
Record outbox_step (o o' : OutboxRow) : Prop := {
  ot_identity : ob_id o' = ob_id o /\ ob_delivery_id o' = ob_delivery_id o
    /\ ob_subject o' = ob_subject o;
  ot_generation : ob_generation o <= ob_generation o';
  ot_move : ob_generation o' = ob_generation o -> outbox_move o o'
}.
Lemma outbox_move_step o o' : outbox_move o o' -> outbox_step o o'.
Proof. intros Hm. pose proof (os_identity _ _ Hm). destruct_and!. split; try done. lia. Qed.
#[export] Instance outbox_step_preorder : PreOrder outbox_step.
Proof.
  split; [intros o; apply outbox_move_step; reflexivity|].
  intros o1 o2 o3 [I1 G1 M1] [I2 G2 M2]. split; [|lia|].
  - destruct_and!. split_and!; congruence.
  - intros Hg. etransitivity; [apply M1|apply M2]; lia.
Qed.

(** Every row of a table is still there, moved by [R]. *)
Definition all_step {A} (R : A -> A -> Prop) (t t' : gmap string A) : Prop :=
  forall k r, t !! k = Some r -> exists r', t' !! k = Some r' /\ R r r'.
#[export] Instance all_step_preorder {A} (R : A -> A -> Prop) `{!PreOrder R} :
  PreOrder (all_step R).
Proof.
  split.
  - intros t k r Hk. exists r. split; [done|reflexivity].
  - intros t1 t2 t3 H12 H23 k r Hk. destruct (H12 k r Hk) as (r2 & Hk2 & H2).
    destruct (H23 k r2 Hk2) as (r3 & Hk3 & H3). exists r3. split; [done|by etransitivity].
Qed.

(** What an operation guarantees when it starts in a good database. *)
Definition relay_step (db db' : RelayDB) : Prop :=
  relay_inv db ->
  relay_inv db' /\ all_step row_step (deliveries db) (deliveries db')
  /\ all_step outbox_step (outbox db) (outbox db').

#[export] Instance relay_step_preorder : PreOrder relay_step.
Proof.
  split.
  - intros db H. split_and!; [done|reflexivity..].
  - intros db1 db2 db3 H12 H23 H1. destruct (H12 H1) as (H2 & R12 & O12).
    destruct (H23 H2) as (H3 & R23 & O23). split_and!; [done|by etransitivity..].
Qed.

(** The time line plays no part. *)
Lemma relay_inv_same db db' : db ≃ db' -> relay_inv db -> relay_inv db'.
Proof.
  intros H [???????? Ha]. split; rewrite <- ?(deliveries_proper _ _ H), <- ?(outbox_proper _ _ H),
    <- ?(attempts_proper _ _ H); done.
Qed.
Lemma relay_step_same db db' db'' : relay_step db db' -> db'' ≃ db' -> relay_step db db''.
Proof.
  intros H Hs Hinv. destruct (H Hinv) as (Hi & Hr & Ho). split_and!.
  - eapply relay_inv_same; [symmetry; exact Hs|done].
  - by rewrite (deliveries_proper _ _ Hs).
  - by rewrite (outbox_proper _ _ Hs).
Qed.

(** ** One statement *)

Lemma row_update_step db id r r' :
  deliveries db !! id = Some r -> (row_ok r -> row_move r r' /\ row_ok r') ->
  relay_step db (set_rows (<[id := r']> (deliveries db)) db).
Proof.
  intros Hid Hstep Hinv. pose proof (ri_row _ Hinv _ _ Hid) as Hok.
  destruct (Hstep Hok) as [Hs Hok']. pose proof (rst_identity _ _ Hs) as Hident. destruct_and!.
  assert (forall k x, <[id := r']> (deliveries db) !! k = Some x ->
    (k = id /\ x = r') \/ deliveries db !! k = Some x) as Hlk.
  { intros k x [[-> ->]|[_ ?]]%lookup_insert_Some; auto. }
  split_and!; [split; simpl|simpl|reflexivity].
  - intros k x [[-> ->]|Hk]%Hlk; [|by apply (ri_row_key _ Hinv)].
    rewrite <- (ri_row_key _ Hinv _ _ Hid). done.
  - intros k x [[-> ->]|Hk]%Hlk; [done|by eapply ri_row].
  - apply (ri_outbox_key _ Hinv).
  - apply (ri_outbox _ Hinv).
  - intros k o Ho. apply (ri_outbox_row _ Hinv) in Ho. rewrite lookup_insert_is_Some'. auto.
  - apply (ri_outbox_unique _ Hinv).
  - intros k o x Ho [[Hk ->]|Hx]%Hlk; [|by eapply ri_generation].
    transitivity (dr_generation r); [|done]. eapply (ri_generation _ Hinv); [done|congruence].
  - intros k x [[-> _]|Hk]%Hlk; [by eapply ri_has_outbox|by eapply ri_has_outbox].
  - intros k g a i Hi. destruct (ri_attempts _ Hinv _ _ _ _ Hi) as (x & Hx & Hg & Ha).
    destruct (decide (k = id)) as [->|Hne].
    + exists r'. rewrite lookup_insert_eq. simplify_eq. pose proof (rst_attempts _ _ Hs).
      split_and!; [done|lia|intros; lia].
    + exists x. by rewrite lookup_insert_ne.
  - intros k x Hk. destruct (decide (k = id)) as [->|Hne].
    + exists r'. rewrite lookup_insert_eq. simplify_eq. split; [done|by apply move_step].
    + exists x. rewrite lookup_insert_ne by done. split; [done|reflexivity].
Qed.

Lemma outbox_update_step db id o o' :
  outbox db !! id = Some o -> (outbox_ok o -> outbox_move o o' /\ outbox_ok o') ->
  relay_step db (set_outbox (<[id := o']> (outbox db)) db).
Proof.
  intros Hid Hstep Hinv. pose proof (ri_outbox _ Hinv _ _ Hid) as Hok.
  destruct (Hstep Hok) as [Hs Hok']. pose proof (os_identity _ _ Hs) as Hident. destruct_and!.
  assert (forall k x, <[id := o']> (outbox db) !! k = Some x ->
    exists y, outbox db !! k = Some y /\ ob_delivery_id x = ob_delivery_id y
      /\ ob_id x = ob_id y /\ outbox_ok x /\ ob_generation x = ob_generation y) as Hlk.
  { intros k x [[<- <-]|[_ Hk]]%lookup_insert_Some; [exists o; by split_and!|].
    exists x. split_and!; try done. by eapply ri_outbox. }
  split_and!; [split; simpl|reflexivity|simpl].
  - apply (ri_row_key _ Hinv).
  - apply (ri_row _ Hinv).
  - intros k x (y & Hy & _ & -> & _)%Hlk. by apply (ri_outbox_key _ Hinv).
  - intros k x (y & _ & _ & _ & ? & _)%Hlk. done.
  - intros k x (y & Hy & -> & _)%Hlk. by eapply ri_outbox_row.
  - intros k k' x x' (y & Hy & -> & _)%Hlk (y' & Hy' & -> & _)%Hlk. by eapply ri_outbox_unique.
  - intros k x r (y & Hy & -> & _ & _ & ->)%Hlk Hr. by eapply ri_generation.
  - intros k r (k' & x & Hx & Hk)%(ri_has_outbox _ Hinv). destruct (decide (k' = id)) as [->|Hne].
    + exists id, o'. rewrite lookup_insert_eq. simplify_eq. split; [done|congruence].
    + exists k', x. by rewrite lookup_insert_ne.
  - apply (ri_attempts _ Hinv).
  - intros k x Hk. destruct (decide (k = id)) as [->|Hne].
    + exists o'. rewrite lookup_insert_eq. simplify_eq. split; [done|by apply outbox_move_step].
    + exists x. rewrite lookup_insert_ne by done. split; [done|reflexivity].
Qed.

(** A record of an attempt that the delivery has made. *)
Lemma attempt_update_step db id g a i r :
  deliveries db !! id = Some r -> g <= dr_generation r ->
  (g = dr_generation r -> a <= dr_attempts r) ->
  relay_step db (set_row_attempts (<[(id, g, a) := i]> (delivery_attempts db)) db).
Proof.
  intros Hr Hg Ha Hinv. split_and!; [|reflexivity..]. destruct Hinv as [???????? Hatt].
  split; simpl; try done. intros id' g' a' i' [[[= <- <- <-] _]|[_ Hi]]%lookup_insert_Some; eauto.
Qed.

(** ** The transitions of the source *)

Lemma assign_row_step c t now e m r :
  dr_sink r = SinkStream -> is_final (dr_status r) = false -> now <= e <= m ->
  row_ok r -> row_move r (assign_row c t now e m (dr_attempts r + 1) r)
              /\ row_ok (assign_row c t now e m (dr_attempts r + 1) r).
Proof.
  intros Hs Hf Hle [Hcheck Hstream Hcallback]. split.
  { split; [done|simpl; lia|done| |done]. unfold settled. by rewrite Hf. }
  split; simpl; [|done|].
  - unfold row_check in *. simpl. bool_to_prop. destruct_and!. split_and!; try done; lia.
  - intros Hc. congruence.
Qed.

(** Rows whose status changes while they are not final. *)
Lemma with_state_step status n a c now r :
  is_final (dr_status r) = false -> (status = DPending -> dr_status r = DPending) ->
  dr_attempts r <= n ->
  row_check (with_state status n a c now r) = true ->
  (dr_sink r = SinkStream -> cc_token c = None) ->
  (dr_sink r = SinkCallback -> a = no_assignment /\ n <= 6) ->
  (is_Some (cc_dlq_published_at (dr_callback r)) -> is_Some (cc_dlq_published_at c)) ->
  row_move r (with_state status n a c now r) /\ row_ok (with_state status n a c now r).
Proof.
  intros Hf Hp Hn Hc Hs Hcb Hdlq. split; [|by split]. split; [done|done|done| |done].
  unfold settled. by rewrite Hf.
Qed.

Lemma dead_letter_row_step now r :
  dr_status r <> DAcked -> row_check (dead_letter_row now r) = true ->
  row_ok r -> row_move r (dead_letter_row now r) /\ row_ok (dead_letter_row now r).
Proof.
  intros Ha Hc [Hcheck Hstream Hcallback]. split; [split|split]; simpl; try done.
  - unfold settled, is_final. simpl. intros [Hf Ht]%andb_true_iff. rewrite Ht.
    split; [done|]. bool_to_prop. by destruct Hf.
  - intros Hs. destruct (Hcallback Hs) as [-> Hn]. done.
Qed.

Lemma dlq_row_step now r :
  row_check (dlq_row now r) = true -> row_ok r ->
  row_move r (dlq_row now r) /\ row_ok (dlq_row now r).
Proof. intros Hc [Hcheck Hstream Hcallback]. split; [split|split]; simpl; try done; eauto. Qed.

Lemma gives_up_step db id now rows' :
  gives_up id now (deliveries db) rows' -> relay_step db (set_rows rows' db).
Proof.
  unfold gives_up. destruct (deliveries db !! id) as [d|] eqn:Hd.
  2:{ intros ->. by destruct db. }
  case_bool_decide as Ha; [intros ->; by destruct db|].
  intros [Hc ->]. eapply row_update_step; [done|]. by apply dead_letter_row_step.
Qed.

Lemma moves_step db id f rows' :
  (forall r, is_final (dr_status r) = false -> row_check (f r) = true -> row_ok r ->
     row_move r (f r) /\ row_ok (f r)) ->
  moves id f (deliveries db) rows' -> relay_step db (set_rows rows' db).
Proof.
  intros Hf. unfold moves. destruct (deliveries db !! id) as [d|] eqn:Hd.
  2:{ intros ->. by destruct db. }
  destruct (is_final (dr_status d)) eqn:E; [intros ->; by destruct db|].
  intros [Hc ->]. eapply row_update_step; [done|]. auto.
Qed.

Lemma dispatch_row_step status now r :
  status <> DPending -> is_final (dr_status r) = false ->
  row_check (dispatch_row status now r) = true -> row_ok r ->
  row_move r (dispatch_row status now r) /\ row_ok (dispatch_row status now r).
Proof. intros Hs Hf Hc [Hcheck Hstream Hcallback]. apply with_state_step; try done. Qed.

(** A message that is still open. *)
Lemma open_step o o' :
  open_outbox o = true -> ob_id o' = ob_id o -> ob_delivery_id o' = ob_delivery_id o ->
  ob_subject o' = ob_subject o -> ob_payload o' = ob_payload o -> ob_message_id o' = ob_message_id o ->
  ob_generation o' = ob_generation o -> ob_attempts o <= ob_attempts o' -> outbox_move o o'.
Proof. intros Ho. intros. split; [by split_and!|done|]. rewrite Ho. done. Qed.

(** ** Every operation *)

Abbreviation keeps_step := (keeps relay_step).

Lemma holds_assignment_inv target c t g now r :
  holds_assignment target c t g now r = true ->
  dr_target_app_id r = target /\ dr_sink r = SinkStream /\ is_final (dr_status r) = false
  /\ dr_generation r = g /\ as_connection_id (dr_assignment r) = Some c
  /\ as_token (dr_assignment r) = Some t
  /\ exists e, as_expires_at (dr_assignment r) = Some e /\ now < e.
Proof.
  unfold holds_assignment, stream_row, null_eq, null_gt. intros H. bool_to_prop. destruct_and!.
  split_and!; try done. destruct (as_expires_at _) as [e|]; [|done]. exists e. bool_to_prop. done.
Qed.

Lemma assign_keeps id target c t g now lease most :
  keeps_step (AssignStreamDelivery id target c t g now lease most).
Proof.
  apply keeps_run. intros w [[a disposition]|e] w' Hrun.
  - apply assign_effect in Hrun as (r & Hr & Hs & Hg & Hl & _ & Hd). destruct disposition.
    + destruct Hd as (Hf & _ & l & ->). eapply relay_step_same; [|apply append_same].
      eapply row_update_step; [done|]. apply assign_row_step; [|done|lia].
      unfold stream_row in Hs. bool_to_prop. by destruct Hs.
    + destruct Hd as (_ & _ & ->). reflexivity.
    + destruct Hd as (_ & ->). reflexivity.
  - unfold AssignStreamDelivery in Hrun. case_match; [by injection Hrun as _ <-|].
    apply transaction_err_db in Hrun as ->. reflexivity.
Qed.

Lemma row_check_same_rest r r' :
  assignment_complete (dr_assignment r') = true -> dr_callback r' = dr_callback r ->
  dr_attempts r' = dr_attempts r -> dr_generation r' = dr_generation r ->
  row_check r = true -> row_check r' = true.
Proof.
  unfold row_check. intros -> -> -> ->. intros H. bool_to_prop. destruct_and!. by split_and!.
Qed.

Lemma ack_keeps id target c t g now : keeps_step (AcknowledgeStreamDelivery id target c t g now).
Proof.
  apply keeps_run. intros w r w' [(_ & d & l & (Hd & Hh) & ->)|[(_ & -> & _)|(_ & ->)]]%ack_effect;
    [|reflexivity..].
  apply holds_assignment_inv in Hh as (_ & Hs & Hf & _).
  eapply relay_step_same; [|apply append_same]. eapply row_update_step; [done|].
  intros [Hcheck Hstream Hcallback]. by apply with_state_step.
Qed.

Lemma release_keeps id target c t g now : keeps_step (ReleaseStreamDelivery id target c t g now).
Proof.
  apply keeps_run. intros w r w' [(_ & d & l & (Hd & Hh) & ->)|(_ & ->)]%release_effect;
    [|reflexivity].
  apply holds_assignment_inv in Hh as (_ & Hs & Hf & _).
  eapply relay_step_same; [|apply append_same]. eapply row_update_step; [done|].
  intros [Hcheck Hstream Hcallback]. apply with_state_step; try done.
  - by eapply row_check_same_rest, Hcheck.
  - intros. congruence.
Qed.

Lemma progress_keeps id target c t g now lease :
  keeps_step (ProgressStreamDelivery id target c t g now lease).
Proof.
  apply keeps_run. intros w r w' [(_ & Hl & d & (Hd & Hh) & Hm & Hc & ->)|(_ & ->)]%progress_effect;
    [|reflexivity].
  eapply row_update_step; [done|]. intros [Hcheck Hstream Hcallback].
  apply holds_assignment_inv in Hh as (_ & Hs & Hf & _).
  apply with_state_step; try done. intros. congruence.
Qed.

(** The candidates are open messages of the table, under their key. *)
Lemma outbox_candidate_inv `{Postgres} now stale limit locked db o :
  o ∈ outbox_candidates now stale limit locked db ->
  outbox_candidate now stale o = true /\ (ob_id o ∉ locked) /\ exists k, outbox db !! k = Some o.
Proof.
  unfold outbox_candidates. intros Hin.
  apply (subseteq_take (Z.to_nat limit)) in Hin. apply elem_of_filter_list in Hin as [Hin Hl]. rewrite merge_sort_Permutation in Hin.
  apply elem_of_select in Hin. bool_to_prop. naive_solver.
Qed.

Lemma outbox_where_step db p f :
  (forall k o, relay_inv db -> outbox db !! k = Some o -> p o = true -> outbox_ok o ->
     outbox_move o (f o) /\ outbox_ok (f o)) ->
  relay_step db (set_outbox (update_where p f (outbox db)) db).
Proof.
  intros Hf Hinv.
  assert (forall k o, outbox db !! k = Some o -> let o' := if p o then f o else o in
    outbox_move o o' /\ outbox_ok o') as Hstep.
  { intros k o Hk. destruct (p o) eqn:Hp; simpl; [by eapply Hf, (ri_outbox _ Hinv)|].
    split; [reflexivity|by eapply ri_outbox]. }
  assert (forall k x, update_where p f (outbox db) !! k = Some x -> exists o,
    outbox db !! k = Some o /\ outbox_move o x /\ outbox_ok x) as Hlk.
  { intros k x. rewrite lookup_update_where. intros (o & Ho & ->)%fmap_Some.
    exists o. split; [done|]. by apply Hstep in Ho. }
  split_and!; [split; simpl|reflexivity|simpl].
  - apply (ri_row_key _ Hinv).
  - apply (ri_row _ Hinv).
  - intros k x (o & Ho & [Hid _ _] & _)%Hlk. destruct_and!. apply (ri_outbox_key _ Hinv) in Ho. congruence.
  - intros k x (o & _ & _ & ?)%Hlk. done.
  - intros k x (o & Ho & [Hid _ _] & _)%Hlk. destruct_and!. apply (ri_outbox_row _ Hinv) in Ho. congruence.
  - intros k k' x x' (o & Ho & [Hid _ _] & _)%Hlk (o' & Ho' & [Hid' _ _] & _)%Hlk Heq. destruct_and!.
    eapply (ri_outbox_unique _ Hinv); [done..|congruence].
  - intros k x r (o & Ho & [Hid _ _] & _)%Hlk Hr. destruct_and!.
    transitivity (ob_generation o); [done|]. eapply (ri_generation _ Hinv); [done|congruence].
  - intros k r (k' & o & Ho & Hk)%(ri_has_outbox _ Hinv). exists k', (if p o then f o else o).
    rewrite lookup_update_where, Ho. split; [done|]. destruct (Hstep _ _ Ho) as [[Hid _ _] _].
    destruct_and!. congruence.
  - apply (ri_attempts _ Hinv).
  - intros k o Ho. exists (if p o then f o else o). rewrite lookup_update_where, Ho.
    split; [done|]. apply Hstep in Ho as []. by apply outbox_move_step.
Qed.

Lemma claim_keeps `{Postgres} now stale token limit :
  keeps_step (ClaimOutbox now stale token limit).
Proof.
  apply keeps_run. intros w [messages|e] w' Hrun; [|by rewrite (claim_err _ _ _ _ _ _ _ Hrun)].
  apply claim_effect in Hrun as (_ & _ & _ & _ & -> & _).
  apply outbox_where_step. intros k o Hinv Ho Hin [Hc Hcl Hon Hat].
  apply bool_decide_eq_true, list_elem_of_fmap in Hin as (o' & Hid & Hin).
  apply outbox_candidate_inv in Hin as (Hcand & _ & k' & Ho').
  assert (o' = o) as ->.
  { rewrite (ri_outbox_key _ Hinv _ _ Ho), (ri_outbox_key _ Hinv _ _ Ho') in Hid. congruence. }
  unfold outbox_candidate in Hcand. bool_to_prop. destruct_and!.
  assert (open_outbox o = true) as Hopen by done.
  split; [by apply open_step|]. split; simpl; try done.
  unfold open_outbox in *. simpl. congruence.
Qed.

Lemma begin_keeps id token now most : keeps_step (BeginOutboxPublish id token now most).
Proof.
  apply keeps_run. intros w [started|e] w' Hrun%begin_effect; [|by rewrite Hrun].
  destruct Hrun as (o & (Ho & Ht & Hd & Hf)%claimed_outbox_inv & Hrun).
  assert (open_outbox o = true) as Hopen by (unfold open_outbox; by rewrite Hd, Hf).
  destruct (ps_Exhausted started).
  - destruct Hrun as (Hm & rows' & Hg & Hdb). eapply relay_step_same; [|exact Hdb].
    etransitivity; [|apply (gives_up_step (set_outbox _ _) _ _ _ Hg)].
    eapply outbox_update_step; [done|]. intros [Hc Hcl Hon Hat]. split; [by apply open_step|].
    split; simpl; try done. rewrite Hd. by intros [].
  - destruct Hrun as (Hm & _ & ->). eapply outbox_update_step; [done|]. intros [Hc Hcl Hon Hat].
    split; [apply open_step; try done; simpl; lia|]. split; simpl; try done; lia.
Qed.

Lemma mark_keeps id token now : keeps_step (MarkOutboxDispatched id token now).
Proof.
  apply keeps_run. intros w [[]|e] w' Hrun%mark_effect; [|by rewrite Hrun].
  destruct Hrun as [(o & rows' & (Ho & Ht & Hd & Hf)%claimed_outbox_inv & Hm & Hdb)|(-> & _)];
    [|reflexivity].
  eapply relay_step_same; [|exact Hdb].
  etransitivity; [|eapply (moves_step (set_outbox _ _)); [|exact Hm]].
  - eapply outbox_update_step; [done|]. intros [Hc Hcl Hon Hat].
    split; [apply open_step; try done; unfold open_outbox; by rewrite Hd, Hf|]. by split.
  - intros. by apply dispatch_row_step.
Qed.

Lemma retry_keeps clock id token available reason :
  keeps_step (RetryOutbox clock id token available reason).
Proof.
  apply keeps_run. intros w [[]|e] w' Hrun%retry_effect; [|by rewrite Hrun].
  destruct Hrun as (o & rows' & (Ho & Ht & Hd & Hf)%claimed_outbox_inv & Hm & ->).
  etransitivity; [|eapply (moves_step (set_outbox _ _)); [|exact Hm]].
  - eapply outbox_update_step; [done|]. intros [Hc Hcl Hon Hat].
    split; [apply open_step; try done; unfold open_outbox; by rewrite Hd, Hf|]. by split.
  - intros. by apply dispatch_row_step.
Qed.

Lemma fail_keeps id token now reason : keeps_step (FailOutbox id token now reason).
Proof.
  apply keeps_run. intros w [[]|e] w' Hrun%fail_effect; [|by rewrite Hrun].
  destruct Hrun as (o & rows' & (Ho & Ht & Hd & Hf)%claimed_outbox_inv & Hg & Hdb).
  eapply relay_step_same; [|exact Hdb].
  etransitivity; [|apply (gives_up_step (set_outbox _ _) _ _ _ Hg)].
  eapply outbox_update_step; [done|]. intros [Hc Hcl Hon Hat].
  split; [apply open_step; try done; unfold open_outbox; by rewrite Hd, Hf|].
  split; simpl; try done. rewrite Hd. by intros [].
Qed.

Lemma not_final s : complete s = false -> s <> DDeadLetter -> is_final s = false.
Proof. destruct s; done. Qed.

Lemma insert_started_step db id g a now token r :
  deliveries db !! id = Some r -> g <= dr_generation r ->
  (g = dr_generation r -> a <= dr_attempts r) ->
  relay_step db (insert_started (id, g, a) now token db).
Proof.
  intros. unfold insert_started. destruct (delivery_attempts db !! _); [reflexivity|].
  by eapply attempt_update_step.
Qed.

Lemma begin_callback_keeps Decrypt id g token now lease :
  keeps_step (BeginCallbackAttempt Decrypt id g token now lease).
Proof.
  apply keeps_run. intros w [[result disposition]|e] w' Hrun%begin_callback_effect; [|by rewrite Hrun].
  destruct Hrun as (_ & _ & _ & d & a & e & o & Hj & Hg & _ & Hrun).
  apply callback_join_inv in Hj as (Hd & Hsink & _).
  unfold begun_as in Hrun. destruct disposition; simpl in Hrun.
  - destruct Hrun as (Hcomp & Hdead & _ & Hlt & _ & url & enc & ver & secret & Hrun).
    destruct_and!. eapply relay_step_same; [|done].
    etransitivity; [eapply row_update_step; [exact Hd|]|eapply insert_started_step].
    + intros [Hcheck Hstream Hcallback]. apply with_state_step; try done; try lia.
      * by apply not_final.
      * congruence.
      * intros. destruct (Hcallback Hsink) as [-> _]. split; [done|lia].
    + simpl. apply lookup_insert_eq.
    + simpl. lia.
    + simpl. lia.
  - destruct Hrun as (_ & _ & _ & ->). reflexivity.
  - destruct Hrun as (_ & _ & ->). reflexivity.
  - destruct Hrun as [(_ & _ & ->)|(reason & Hcomp & Hdead & _ & _ & Hc & Hdb)]; [reflexivity|].
    eapply relay_step_same; [|exact Hdb]. eapply row_update_step; [exact Hd|].
    intros [Hcheck Hstream Hcallback]. apply with_state_step; try done. by apply not_final.
  - done.
Qed.

Lemma holds_attempt_inv g token attempt now r :
  holds_attempt g token attempt now r = true ->
  dr_sink r = SinkCallback /\ dr_generation r = g /\ cc_token (dr_callback r) = Some token
  /\ dr_attempts r = attempt /\ exists e, cc_expires_at (dr_callback r) = Some e /\ now < e.
Proof.
  unfold holds_attempt, null_eq, null_gt. intros H. bool_to_prop. destruct_and!.
  split_and!; try done. destruct (cc_expires_at _) as [e|]; [|done]. exists e. bool_to_prop. done.
Qed.

Lemma finish_callback_keeps id g token attempt t :
  keeps_step (FinishCallbackAttempt id g token attempt t).
Proof.
  apply keeps_run. intros w [[]|e] w' Hrun%finish_callback_effect; [|by rewrite Hrun].
  destruct Hrun as [(d & i & Hd & Hh & Hc & Hi & Hdb)|(-> & _)]; [|reflexivity].
  apply holds_attempt_inv in Hh as (Hsink & Hg & Ht & Ha & _).
  eapply relay_step_same; [|exact Hdb]. unfold finished_db.
  etransitivity; [eapply row_update_step; [exact Hd|]|eapply (attempt_update_step (set_rows _ _))].
  - intros [Hcheck Hstream Hcallback]. split; [|split; [done|done|exact Hcallback]].
    split; [done|simpl; lia| |unfold settled; by rewrite Ht, andb_false_r|done].
    simpl. by destruct (ct_Status _).
  - simpl. apply lookup_insert_eq.
  - simpl. lia.
  - simpl. lia.
Qed.

Lemma dlq_keeps id g now : keeps_step (MarkCallbackDLQPublished id g now).
Proof.
  apply keeps_run. intros w [[]|e] w' Hrun%dlq_effect; [|by rewrite Hrun].
  destruct Hrun as (d & Hd & _ & _ & _ & Hc & ->). eapply row_update_step; [done|].
  by apply dlq_row_step.
Qed.
