(* ===== verification/PublishStore.v ===== *)
(** * Publishing events ([store/postgres/events.go], [broker/nats/subjects.go])

    One transaction stores the event, its queue deliveries, one delivery and one
    outbox message per target and sink, and the idempotency record. *)

From Stdlib Require Import Ascii String.
From S2P Require Import Prelude GoLib Crypto Json JsonEncode Domain QueueSchema QueueStore.
From S2P Require Import QueueScheduler DeliverySchema DeliveryStore.

(** ** Subjects *)

Definition b32_alphabet : list ascii := bytes "abcdefghijklmnopqrstuvwxyz234567".
Definition b32_digit (n : Z) : ascii := nth (Z.to_nat n) b32_alphabet "a"%char.
(** Base32 without padding, in lower case, of groups of five bytes. *)
Fixpoint b32_groups (l : list ascii) : list ascii :=
  match l with
  | a :: b :: c :: d :: e :: l' =>
      let n := ((((code a * 256) + code b) * 256 + code c) * 256 + code d) * 256 + code e in
      (map (fun i => b32_digit (Z.land (Z.shiftr n (5 * i)) 31)) [7; 6; 5; 4; 3; 2; 1; 0]
       ++ b32_groups l')%list
  | _ => []
  end.

Definition AppToken (appID : string) : res string :=
  if bool_decide (appID = "") || negb (bool_decide (appID = TrimSpace appID)) || (256 <? len appID)
     || negb (utf8_Valid appID) || ContainsByte appID (chr 0)
  then Err ErrInvalidApplicationID
  else Ok (of_bytes (b32_groups (take 20 (bytes (sha256 appID))))).

Record AppSubjects := mkSubjects {
  subj_Deliveries : string;
  subj_DeadLetters : string;
  subj_Realtime : string
}.
Definition SubjectsForApp (appID : string) : res AppSubjects :=
  match AppToken appID with
  | Ok token => Ok (mkSubjects ("rh.v1.delivery." ++ token) ("rh.v1.dlq." ++ token)
                      ("rh.v1.realtime." ++ token))
  | Err e => Err e
  end.

Definition CallbackSubject (shard : Z) : res string :=
  if (shard <? 0) || (1023 <? shard) then Err DriverError
  else Ok ("rh.v1.callback." ++ padded 3 shard).

Definition deliverySubject (appID : string) (sink : Sink) : res string :=
  match sink with
  | SinkStream =>
      match SubjectsForApp appID with
      | Ok subjects => Ok (subj_Deliveries subjects)
      | Err e => Err e
      end
  | SinkCallback =>
      match bytes (sha256 appID) with
      | a :: b :: _ => CallbackSubject ((code a * 256 + code b) mod 64)
      | _ => Err DriverError
      end
  end.

Definition FunctionSubject (appID functionID : string) : res string :=
  match AppToken appID with
  | Err e => Err e
  | Ok appToken =>
      match AppToken functionID with
      | Err e => Err e
      | Ok functionToken => Ok ("rh.v1.rpc." ++ appToken ++ "." ++ functionToken)
      end
  end.
Definition ReplySubject (instanceID : string) : res string :=
  match AppToken instanceID with
  | Ok token => Ok ("rh.v1.rpc.reply." ++ token)
  | Err e => Err e
  end.

(** ** Identifiers *)

Definition derivedCallbackDeliveryID (jobID : string) : string :=
  "dlv_cb_" ++ hex_EncodeToString (of_bytes (take 16 (bytes (sha256 ("callback" ++ nul ++ jobID))))).
Definition outboxIdentities (deliveryID : string) : string * string :=
  let encoded := sha256_hex ("outbox" ++ nul ++ deliveryID) in
  ("obx_" ++ of_bytes (take 32 (bytes encoded)), "rh-v1-" ++ encoded).
Definition idempotencyHash (source key : string) : string := sha256_hex (source ++ nul ++ key).

(** ** Policies *)

Definition callbackEnabled (a : AppRow) : bool :=
  match app_CallbackURL a with
  | Some url => negb (bool_decide (TrimSpace url = ""))
                && match app_DeliveryMode a with DeliveryCallback | DeliveryAll => true | _ => false end
  | None => false
  end.
Definition enabledSinks (a : AppRow) : list Sink :=
  (match app_DeliveryMode a with
   | DeliveryQueue | DeliveryWebSocket | DeliveryAll => [SinkStream]
   | _ => []
   end ++ (if callbackEnabled a then [SinkCallback] else []))%list.

(** The policies of the targets, in the order of the sorted identifiers; [None]
    when a target is missing, disabled or has no sink. *)
Fixpoint target_policies (ids : list string) (db : RelayDB) : option (list (string * AppRow)) :=
  match ids with
  | [] => Some []
  | id :: ids' =>
      match app_rows db !! id with
      | Some a =>
          if app_Enabled a && negb (bool_decide (enabledSinks a = []))
          then rest ← target_policies ids' db; Some ((id, a) :: rest)
          else None
      | None => None
      end
  end.
Definition lockTargetPolicies (targetIDs : list string) : M_relay (list (string * AppRow)) :=
  query_row StoreInvalidTarget (target_policies (sort_strings targetIDs)).
Definition policy_of (policies : list (string * AppRow)) (id : string) : option AppRow :=
  snd <$> List.find (fun p => bool_decide (p.1 = id)) policies.

(** ** Validation *)

Fixpoint valid_jobs (event : Event) (seen : list string) (jobs : list Job) : bool :=
  match jobs with
  | [] => true
  | job :: jobs' =>
      negb (bool_decide (job_ID job = "")) && bool_decide (job_EventID job = ev_ID event)
      && bool_decide (job_SourceAppID job = ev_SourceAppID event)
      && bool_decide (job_TargetAppID job ∈ ev_TargetAppIDs event)
      && negb (bool_decide (job_TargetAppID job ∈ seen))
      && valid_jobs event (job_TargetAppID job :: seen) jobs'
  end.
Definition validatePublication (p : Publication) (key : string) (retention : EventRetention) : bool :=
  let event := pub_Event p in
  negb (bool_decide (TrimSpace key = "") || bool_decide (ev_ID event = "")
        || bool_decide (ev_Type event = "") || bool_decide (ev_SourceAppID event = "")
        || bool_decide (ev_TargetAppIDs event = []) || negb (JSONObject (ev_Data event))
        || (ret_Event retention <=? 0) || (ret_Idempotency retention <=? 0)
        || negb (bool_decide (length (pub_Jobs p) = length (ev_TargetAppIDs event))))
  && negb (bool_decide ("" ∈ ev_TargetAppIDs event)) && bool_decide (NoDup (ev_TargetAppIDs event))
  && valid_jobs event [] (pub_Jobs p).

(** ** Deliveries and outbox messages *)

Definition new_row (event : Event) (job : Job) (deliveryID : string) (sink : Sink) : StreamRow :=
  mkRow deliveryID (job_ID job) (ev_ID event) (ev_SourceAppID event) (job_TargetAppID job) sink
    DPending 0 1 (ev_CreatedAt event) (ev_CreatedAt event) no_assignment no_callback.

(** PRIMARY KEY, UNIQUE (event_id, target_app_id, sink) and the foreign keys. *)
Definition same_target (r r' : StreamRow) : bool :=
  bool_decide (dr_event_id r = dr_event_id r')
  && bool_decide (dr_target_app_id r = dr_target_app_id r') && bool_decide (dr_sink r = dr_sink r').
Definition insert_row (r : StreamRow) (db : RelayDB) : res (unit * RelayDB) :=
  if isSome (deliveries db !! dr_id r) || existsb (same_target r) (rows (deliveries db))
  then Err StoreConflict
  else if isNone (events (queue_db db) !! dr_event_id r)
          || isNone (app_rows db !! dr_target_app_id r) || isNone (app_rows db !! dr_source_app_id r)
  then Err DriverError
  else Ok (tt, set_rows (<[dr_id r := r]> (deliveries db)) db).

Definition new_outbox (event : Event) (deliveryID subject : string) : OutboxRow :=
  let (outboxID, messageID) := outboxIdentities deliveryID in
  mkOutbox outboxID (ev_ID event) deliveryID subject
    (mkEnvelope (coerce deliveryID) 1 (wire_event event)) messageID 1 0 (ev_CreatedAt event) None
    None None None None (ev_CreatedAt event) (ev_CreatedAt event).
(** PRIMARY KEY, UNIQUE (delivery_id), UNIQUE (message_id) and the foreign keys. *)
Definition insert_outbox (o : OutboxRow) (db : RelayDB) : res (unit * RelayDB) :=
  if isSome (outbox db !! ob_id o)
     || existsb (fun x => bool_decide (ob_delivery_id x = ob_delivery_id o)
                          || bool_decide (ob_message_id x = ob_message_id o)) (rows (outbox db))
  then Err StoreConflict
  else if isNone (events (queue_db db) !! ob_event_id o)
          || isNone (deliveries db !! ob_delivery_id o) then Err DriverError
  else Ok (tt, set_outbox (<[ob_id o := o]> (outbox db)) db).

Definition insertDeliveryAndOutbox (event : Event) (job : Job) (deliveryID : string) (sink : Sink)
    : M_relay unit :=
  exec (fun _ => insert_row (new_row event job deliveryID sink));;
  insert_lifecycle (mkLifecycle deliveryID 1 LDeliveryCreated "pending" None None None
                      (ev_CreatedAt event));;
  match deliverySubject (job_TargetAppID job) sink with
  | Err e => fail e
  | Ok subject => exec (fun _ => insert_outbox (new_outbox event deliveryID subject))
  end.

(** The sinks of a job: the first under the job's identifier, the second derived. *)
Definition job_deliveries (job : Job) (sinks : list Sink) : list (string * Sink) :=
  imap (fun i sink => (match i with O => job_ID job | S _ => derivedCallbackDeliveryID (job_ID job) end,
                       sink)) sinks.
Definition publish_job (event : Event) (policies : list (string * AppRow)) (job : Job)
    : M_relay unit :=
  let sinks := match policy_of policies (job_TargetAppID job) with
               | Some a => enabledSinks a
               | None => []
               end in
  mapM_ (fun ds : string * Sink => insertDeliveryAndOutbox event job ds.1 ds.2)
    (job_deliveries job sinks);;
  mret tt.

(** ** PublishEvent *)

Definition with_callback (callback : bool) (j : Job) : Job :=
  mkJob callback (job_CallbackAttempts j) (job_CallbackGeneration j) (job_RetryAt j)
    (job_LastReason j) (job_ID j) (job_EventID j) (job_SourceAppID j) (job_TargetAppID j)
    (job_Status j) (job_Attempts j) (job_LeaseUntil j) (job_CreatedAt j) (job_UpdatedAt j).
Definition mark_callback (policies : list (string * AppRow)) (j : Job) : Job :=
  with_callback (match policy_of policies (job_TargetAppID j) with
                 | Some a => callbackEnabled a
                 | None => false
                 end) j.

Section publish.
Context `{Postgres}.

(** Refused by the primary key or the foreign keys. *)
Definition insert_idempotency (k : string * string) (i : IdempotencyRow) (db : RelayDB)
    : res (unit * RelayDB) :=
  match event_idempotency db !! k with
  | Some _ => Err UniqueViolation
  | None =>
      if isNone (events (queue_db db) !! ik_event_id i) || isNone (app_rows db !! k.1)
      then Err DriverError
      else Ok (tt, set_idempotency (<[k := i]> (event_idempotency db)) db)
  end.

(** The part of the transaction after the idempotency record was not found. *)
Definition publish_new (publication : Publication) (k : string * string)
    (retention : EventRetention) : M_relay (Publication * bool) :=
  let event := pub_Event publication in
  policies ← lockTargetPolicies (ev_TargetAppIDs event);
  let publication := mkPublication event (mark_callback policies <$> pub_Jobs publication) in
  on_queue (publish_to_queues event (ret_Event retention));;
  mapM_ (publish_job event policies) (pub_Jobs publication);;
  exec (fun _ => insert_idempotency k (mkIdempotency (ev_ID event) (wire_publication publication)
    (ev_CreatedAt event) (ev_CreatedAt event + ret_Idempotency retention)));;
  commit;;
  mret (publication, false).

(** [clock] is the instant that [clock_timestamp()] gives. The advisory lock keeps
    other publications of the same key out until the transaction ends. *)
Definition PublishEvent (clock : Z) (publication : Publication) (key : string)
    (retention : EventRetention) : M_relay (Publication * bool) :=
  if negb (validatePublication publication key retention) then fail StoreConflict else
  transaction (
    begin;;
    let source := ev_SourceAppID (pub_Event publication) in
    let k := (source, idempotencyHash source key) in
    query (fun _ => tt);; (* pg_advisory_xact_lock *)
    update (fun db => (tt, match event_idempotency db !! k with
                           | Some i => if ik_expires_at i <=? clock
                                       then set_idempotency (delete k (event_idempotency db)) db
                                       else db
                           | None => db
                           end));;
    previous ← query (fun db => event_idempotency db !! k);
    match previous with
    | Some i => commit;; mret (ik_publication i, true)
    | None => publish_new publication k retention
    end).

Definition FindPublication (clock : Z) (source key : string) : M_relay Publication :=
  query_row StoreNotFound (fun db =>
    match event_idempotency db !! (source, idempotencyHash source key) with
    | Some i => if clock <? ik_expires_at i then Some (ik_publication i) else None
    | None => None
    end).

(** ** Reading *)

(** [queue_available_at IS NOT NULL] says that the event carries queue options. *)
Definition read_event (e : EventRow) : Event :=
  mkEvent (er_id e) (er_type e) (er_source_app_id e) (er_target_app_ids e) (er_data e)
    (er_created_at e)
    ((fun at_ => mkQueueEvent at_ (queueStringValue (er_queue_ordering_key e))
                   (er_queue_priority e) (er_queue_metadata e) "") <$> er_queue_available_at e).
Definition GetEvent (eventID : string) : M_relay Event :=
  query_row StoreNotFound (fun db => read_event <$> events (queue_db db) !! eventID).

Definition publicJobStatus (status : DeliveryState) : JobStatus :=
  match status with
  | DDelivered => JobDelivered
  | DAcked => JobAcked
  | DDeadLetter => JobDeadLetter
  | _ => JobPending
  end.

(** [ORDER BY CASE sink WHEN 'stream' THEN 0 ELSE 1 END LIMIT 1] over the rows of a
    job: its stream delivery if it has one. *)
Definition of_job (jobID : string) (sink : Sink) (db : RelayDB) : list StreamRow :=
  select_where (fun r => bool_decide (dr_public_job_id r = jobID) && bool_decide (dr_sink r = sink))
    (deliveries db).
Definition read_job (jobID : string) (db : RelayDB) : option Job :=
  let callbacks := of_job jobID SinkCallback db in
  (fun d => mkJob (negb (bool_decide (callbacks = [])))
              (match callbacks with c :: _ => dr_attempts c | [] => 0 end) 0 None ""
              (dr_public_job_id d) (dr_event_id d) (dr_source_app_id d) (dr_target_app_id d)
              (publicJobStatus (dr_status d)) (dr_attempts d) None (dr_created_at d) (dr_updated_at d))
  <$> head (of_job jobID SinkStream db ++ callbacks)%list.
Definition GetJob (jobID : string) : M_relay Job := query_row StoreNotFound (read_job jobID).

End publish.
