(* ===== verification/AdminStore.v ===== *)
(** * Operator replay ([store/postgres/admin_lifecycle.go], [adminread/models.go],
    [service/admin_lifecycle.go])

    An operator puts dead letters back under a new generation. One transaction moves
    every selected delivery and its message, and records the request under its
    idempotency key. *)

From Stdlib Require Import Ascii String.
From S2P Require Import Prelude GoLib Crypto Json JsonEncode Domain QueueSchema.
From S2P Require Import DeliverySchema DeliveryStore QueueStore PublishStore.

(** ** Commands *)

Definition MaxReplayBatch : nat := 100.
Definition adminReplayRetention : Z := 24 * Hour.

Record ReplayCommand := mkReplayCommand {
  rc_DeliveryIDs : list string;
  rc_IdempotencyKeyHash : string;
  rc_RequestFingerprint : string;
  rc_ActorID : string;
  rc_Now : Z
}.

Definition isHexDigest (value : string) : bool :=
  (len value =? 64) && forallb (fun c => is_digit c || in_range "a" "f" c) (bytes value).
Definition validLifecycleValue (value : string) : bool :=
  negb (bool_decide (value = "")) && (len value <=? 256) && bool_decide (TrimSpace value = value).
Definition ReplayCommand_Validate (c : ReplayCommand) : bool :=
  negb ((length (rc_DeliveryIDs c) <? 1)%nat || (MaxReplayBatch <? length (rc_DeliveryIDs c))%nat
        || negb (isHexDigest (rc_IdempotencyKeyHash c)) || negb (isHexDigest (rc_RequestFingerprint c))
        || IsZero (rc_Now c) || negb (validLifecycleValue (rc_ActorID c)))
  && forallb validLifecycleValue (rc_DeliveryIDs c) && bool_decide (NoDup (rc_DeliveryIDs c)).

(** ** Statements *)

(** [SELECT ... FROM deliveries d JOIN outbox o ON o.delivery_id=d.id
    WHERE d.id=ANY($1) AND d.status='dead_letter' ORDER BY d.id FOR UPDATE OF d,o] *)
Section select.
Context `{Postgres}.
Definition row_by_id (a b : StreamRow) : Prop := text_le (dr_id a) (dr_id b).
#[global] Instance row_by_id_dec : RelDecision row_by_id.
Proof. unfold row_by_id, RelDecision. apply _. Defined.
Definition replay_rows (ids : list string) (db : RelayDB) : list (StreamRow * OutboxRow) :=
  d ← merge_sort row_by_id
        (select_where (fun r => bool_decide (dr_id r ∈ ids) && bool_decide (dr_status r = DDeadLetter))
           (deliveries db));
  (fun o => (d, o)) <$> select_where (fun o => bool_decide (ob_delivery_id o = dr_id d)) (outbox db).
End select.

(** [UPDATE deliveries SET generation=$2,status='pending',attempts=0, ...] *)
Definition replayed_delivery (generation now : Z) (r : StreamRow) : StreamRow :=
  mkRow (dr_id r) (dr_public_job_id r) (dr_event_id r) (dr_source_app_id r) (dr_target_app_id r)
    (dr_sink r) DPending 0 generation (dr_created_at r) now no_assignment no_callback.

(** [UPDATE outbox SET generation=$2,payload=$3,message_id=$4,attempts=0, ...] *)
Definition replayed_outbox (generation : Z) (payload : Envelope) (message_id : string) (now : Z)
    (o : OutboxRow) : OutboxRow :=
  mkOutbox (ob_id o) (ob_event_id o) (ob_delivery_id o) (ob_subject o) payload message_id generation
    0 now None None None None None (ob_created_at o) now.
Definition update_replayed_outbox (id : string) (from generation : Z) (payload : Envelope)
    (message_id : string) (now : Z) (db : RelayDB) : res (Z * RelayDB) :=
  match outbox db !! id with
  | Some o =>
      if ob_generation o =? from then
        if existsb (fun x => bool_decide (ob_message_id x = message_id) && negb (bool_decide (ob_id x = id)))
             (rows (outbox db))
        then Err UniqueViolation
        else Ok (1, set_outbox (<[id := replayed_outbox generation payload message_id now o]>
                                  (outbox db)) db)
      else Ok (0, db)
  | None => Ok (0, db)
  end.

Definition replay_message_id (deliveryID : string) (generation : Z) : string :=
  (outboxIdentities deliveryID).2 ++ "-g" ++ decimal generation.

(** One selected delivery. *)
Definition replay_one (now : Z) (row : StreamRow * OutboxRow) : M_relay ReplayItem :=
  let (d, o) := row in
  let generation := dr_generation d + 1 in
  let envelope := ob_payload o in
  if negb (bool_decide (env_DeliveryID envelope = dr_id d))
     || negb (bool_decide (ev_ID (env_Event envelope) = dr_event_id d))
  then fail StoreConflict else
  let payload := mkEnvelope (coerce (env_DeliveryID envelope)) generation
                   (wire_event (env_Event envelope)) in
  affected ← exec (fun _ => update_row (dr_id d)
    (fun r => (dr_generation r =? dr_generation d) && bool_decide (dr_status r = DDeadLetter))
    (replayed_delivery generation now));
  if negb (affected =? 1) then fail StoreConflict else
  affected ← exec (fun _ => update_replayed_outbox (ob_id o) (dr_generation d) generation payload
                              (replay_message_id (dr_id d) generation) now);
  if negb (affected =? 1) then fail StoreConflict else
  mret (mkReplayItem (dr_id d) (dr_event_id d) (dr_public_job_id d) (dr_generation d) generation
          "pending").

(** The JSON text of a result, and what decoding it gives. *)
Definition replay_item_text (i : ReplayItem) : string :=
  json_object [("delivery_id", SStr (rpi_DeliveryID i)); ("event_id", SStr (rpi_EventID i));
               ("job_id", SStr (rpi_JobID i)); ("from_generation", SInt (rpi_FromGeneration i));
               ("generation", SInt (rpi_Generation i)); ("status", SStr (rpi_Status i))].
Definition replay_result_text (items : list ReplayItem) : string :=
  "{" ++ json_quote "items" ++ ":[" ++ comma_separated (replay_item_text <$> items) ++ "]}".
Definition wire_item (i : ReplayItem) : ReplayItem :=
  mkReplayItem (coerce (rpi_DeliveryID i)) (coerce (rpi_EventID i)) (coerce (rpi_JobID i))
    (rpi_FromGeneration i) (rpi_Generation i) (coerce (rpi_Status i)).

(** [INSERT INTO admin_replay_requests] with its constraints. *)
Definition insert_replay_request (key : string) (r : ReplayRequestRow) (db : RelayDB)
    : res (unit * RelayDB) :=
  if isSome (admin_replay_requests db !! key) then Err UniqueViolation
  else if (len key =? 64) && (len (rq_request_fingerprint r) =? 64)
          && (rq_created_at r <? rq_expires_at r)
  then Ok (tt, set_replay_requests (<[key := r]> (admin_replay_requests db)) db)
  else Err DriverError.

(** [INSERT INTO delivery_replays] with its constraints. *)
Definition insert_replay (i : ReplayItem) (r : ReplayRow) (db : RelayDB) : res (unit * RelayDB) :=
  if isSome (delivery_replays db !! (rpi_DeliveryID i, rpi_Generation i)) then Err UniqueViolation
  else if (0 <? rp_from_generation r) && (rpi_Generation i =? rp_from_generation r + 1)
          && isSome (deliveries db !! rpi_DeliveryID i)
  then Ok (tt, set_replays (<[(rpi_DeliveryID i, rpi_Generation i) := r]> (delivery_replays db)) db)
  else Err DriverError.

(** The identity column gives a number above all others. *)
Definition next_audit_id (db : RelayDB) : Z := foldr Z.max 0 (fst <$> map_to_list (audit_log db)) + 1.
Definition insert_audit (r : AuditRow) : M_relay unit :=
  update (fun db => (tt, set_audit (<[next_audit_id db := r]> (audit_log db)) db)).

(** The record of one replayed delivery. *)
Definition record_replay (command : ReplayCommand) (i : ReplayItem) : M_relay unit :=
  exec (fun _ => insert_replay i (mkReplayRow (rpi_FromGeneration i) (rc_IdempotencyKeyHash command)
                                    (rc_ActorID command) (rc_Now command)));;
  insert_audit (mkAuditRow (rc_Now command) "admin" (Some (rc_ActorID command)) "delivery.replay"
    "delivery" (Some (rpi_DeliveryID i)) "success"
    (json_object [("new_state", SStr "pending"); ("previous_state", SStr "dead_letter")]));;
  insert_lifecycle (mkLifecycle (rpi_DeliveryID i) (rpi_Generation i) LOperatorReplayed "pending" None
                      None (Some (rc_ActorID command)) (rc_Now command)).

(** ** ReplayAdminDeadLetters *)

Section replay.
Context `{Postgres}.

(** The part after the idempotency record was not found. *)
Definition replay_new (command : ReplayCommand) : M_relay (list ReplayItem * bool) :=
  let ids := sort_strings (rc_DeliveryIDs command) in
  locked ← query (replay_rows ids);
  if negb (bool_decide (length locked = length ids)) then fail StoreConflict else
  items ← mapM_ (replay_one (rc_Now command)) locked;
  if 65536 <? len (replay_result_text items) then fail DriverError else
  exec (fun _ => insert_replay_request (rc_IdempotencyKeyHash command)
    (mkReplayRequest (rc_RequestFingerprint command) (wire_item <$> items) (rc_ActorID command)
       (rc_Now command) (rc_Now command + adminReplayRetention)));;
  mapM_ (record_replay command) items;;
  commit;;
  mret (items, false).

(** [clock] is the instant that [clock_timestamp()] gives. *)
Definition ReplayAdminDeadLetters (clock : Z) (command : ReplayCommand)
    : M_relay (list ReplayItem * bool) :=
  if negb (ReplayCommand_Validate command) then fail ErrInvalidArgument else
  transaction (
    begin;;
    query (fun _ => tt);; (* pg_advisory_xact_lock *)
    update (fun db => (tt, set_replay_requests
      (filter (fun kv => clock < rq_expires_at kv.2) (admin_replay_requests db)) db));;
    stored ← query (fun db => admin_replay_requests db !! rc_IdempotencyKeyHash command);
    match stored with
    | Some r =>
        if bool_decide (rq_request_fingerprint r = rc_RequestFingerprint command)
        then commit;; mret (rq_result r, true)
        else fail StoreConflict
    | None => replay_new command
    end).

(** ** The service *)

Definition adminLifecycleError {A} (r : res A) : res A :=
  match r with
  | Ok a => Ok a
  | Err e =>
      Err (match e with
           | ErrInvalidArgument | ErrInvalidCursor => ErrInvalidInput
           | StoreNotFound => ErrNotFound
           | StoreConflict => ErrConflict
           | e => e
           end)
  end.

(** [json.Marshal] of a slice of strings; a nil slice is [null]. *)
Definition strings_text (l : list string) : string :=
  match l with [] => "null" | _ => "[" ++ comma_separated (json_quote <$> l) ++ "]" end.

Definition replay_command (deliveryIDs : list string) (idempotencyKey actorID : string) (now : Z)
    : ReplayCommand :=
  let canonicalIDs := sort_strings deliveryIDs in
  mkReplayCommand canonicalIDs (sha256_hex idempotencyKey)
    (sha256_hex ("relayhub:admin-replay:v1:" ++ strings_text canonicalIDs)) actorID now.

Definition Replay (clock : Z) (deliveryIDs : list string) (idempotencyKey actorID : string) (now : Z)
    : M_relay (list ReplayItem * bool) :=
  if negb (validLifecycleValue idempotencyKey) || negb (validLifecycleValue actorID)
  then fail ErrInvalidInput else
  let command := replay_command deliveryIDs idempotencyKey actorID now in
  if negb (ReplayCommand_Validate command) then fail ErrInvalidInput else
  fun w => let (r, w') := ReplayAdminDeadLetters clock command w in (adminLifecycleError r, w').

End replay.
