(* ===== verification/AdminEffects.v ===== *)
(** * What an operator replay does to the tables *)

From Stdlib Require Import Ascii String.
From S2P Require Import Prelude GoLib Crypto Json JsonEncode Domain QueueSchema.
From S2P Require Import DeliverySchema DeliveryStore DeliveryEffects CallbackStore CallbackEffects.
From S2P Require Import DeliverySystem QueueStore PublishStore AdminStore.

(** ** One delivery *)

Definition replay_item (d : StreamRow) : ReplayItem :=
  mkReplayItem (dr_id d) (dr_event_id d) (dr_public_job_id d) (dr_generation d)
    (dr_generation d + 1) "pending".
Definition replay_payload (d : StreamRow) (o : OutboxRow) : Envelope :=
  mkEnvelope (coerce (env_DeliveryID (ob_payload o))) (dr_generation d + 1)
    (wire_event (env_Event (ob_payload o))).
Definition replay_outbox_row (now : Z) (d : StreamRow) (o : OutboxRow) : OutboxRow :=
  replayed_outbox (dr_generation d + 1) (replay_payload d o)
    (replay_message_id (dr_id d) (dr_generation d + 1)) now o.
Definition apply_replay (now : Z) (db : RelayDB) (row : StreamRow * OutboxRow) : RelayDB :=
  let (d, o) := row in
  set_outbox (<[ob_id o := replay_outbox_row now d o]> (outbox db))
    (set_rows (<[dr_id d := replayed_delivery (dr_generation d + 1) now d]> (deliveries db)) db).

(** The row of a dead letter and of its message, as they are stored. *)
Definition replayable (db : RelayDB) (row : StreamRow * OutboxRow) : Prop :=
  deliveries db !! dr_id row.1 = Some row.1 /\ outbox db !! ob_id row.2 = Some row.2
  /\ ob_delivery_id row.2 = dr_id row.1 /\ dr_status row.1 = DDeadLetter.

Lemma replay_one_ok now d o w item w' :
  replayable (w_db w) (d, o) -> replay_one now (d, o) w = (Ok item, w') ->
  item = replay_item d /\ ob_generation o = dr_generation d /\ w_db w' = apply_replay now (w_db w) (d, o).
Proof.
  intros (Hd & Ho & _ & Hs) Hrun. unfold replay_one in Hrun. simpl in *.
  case_match; [by apply fail_ok in Hrun|].
  apply bind_ok in Hrun as (n & w1 & H1 & Hrun). apply exec_ok in H1 as (H1 & _).
  apply update_row_inv in H1 as [(-> & _)|(-> & r & Hr & _ & _ & Hw1)]; [by apply fail_ok in Hrun|].
  simpl in Hrun. apply bind_ok in Hrun as (n & w2 & H2 & Hrun). apply exec_ok in H2 as (H2 & _).
  unfold update_replayed_outbox in H2. rewrite Hw1 in H2. simpl in H2. rewrite Ho in H2.
  destruct (ob_generation o =? dr_generation d) eqn:Hg; simplify_eq/=.
  destruct (existsb _ _); simplify_eq/=. apply ret_ok in Hrun as [Hitem ->].
  split_and!; [done|lia|done].
Qed.

Lemma apply_replay_step now db d o :
  replayable db (d, o) -> ob_generation o = dr_generation d -> 0 < dr_generation d ->
  relay_step db (apply_replay now db (d, o)).
Proof.
  intros (Hd & Ho & Hod & Hs) Hg Hpos Hinv. simpl in *.
  set (d' := replayed_delivery (dr_generation d + 1) now d).
  set (o' := replay_outbox_row now d o).
  assert (forall k x, <[dr_id d := d']> (deliveries db) !! k = Some x ->
    (k = dr_id d /\ x = d') \/ (k <> dr_id d /\ deliveries db !! k = Some x)) as Hrow.
  { intros k x [[-> ->]|[? ?]]%lookup_insert_Some; [by left|right]. by split. }
  assert (forall k x, <[ob_id o := o']> (outbox db) !! k = Some x ->
    exists y, outbox db !! k = Some y /\ ob_delivery_id x = ob_delivery_id y /\ ob_id x = ob_id y) as Hout.
  { intros k x [[<- <-]|[_ ?]]%lookup_insert_Some; [by exists o|by exists x]. }
  assert (row_ok d') as Hok.
  { split; [|done|by split; [done|simpl; lia]]. unfold row_check. simpl. lia. }
  assert (outbox_ok o') as Hok' by by split.
  split_and!; [split; simpl|simpl|simpl].
  - intros k x [[-> ->]|[_ ?]]%Hrow; [done|by apply (ri_row_key _ Hinv)].
  - intros k x [[-> ->]|[_ ?]]%Hrow; [done|by eapply ri_row].
  - intros k x (y & Hy & _ & ->)%Hout. by apply (ri_outbox_key _ Hinv).
  - intros k x [[<- <-]|[_ ?]]%lookup_insert_Some; [done|by eapply ri_outbox].
  - intros k x (y & Hy & -> & _)%Hout. apply (ri_outbox_row _ Hinv) in Hy.
    rewrite lookup_insert_is_Some'. auto.
  - intros k k' x x' (y & Hy & -> & _)%Hout (y' & Hy' & -> & _)%Hout. by eapply ri_outbox_unique.
  - intros k x r [[<- <-]|[Hne Hx]]%lookup_insert_Some [[Hk ->]|[Hk Hr]]%Hrow; [done|done| |].
    + exfalso. apply Hne. eapply (ri_outbox_unique _ Hinv); [exact Ho|exact Hx|congruence].
    + by eapply ri_generation.
  - intros k r [[-> _]|[_ Hr]]%Hrow.
    + exists (ob_id o), o'. rewrite lookup_insert_eq. done.
    + destruct (ri_has_outbox _ Hinv _ _ Hr) as (k' & x & Hx & Hk).
      destruct (decide (k' = ob_id o)) as [->|Hne].
      * exists (ob_id o), o'. rewrite lookup_insert_eq. simplify_eq. by split.
      * exists k', x. by rewrite lookup_insert_ne.
  - intros k g a i Hi. destruct (ri_attempts _ Hinv _ _ _ _ Hi) as (x & Hx & Hgx & Ha).
    destruct (decide (k = dr_id d)) as [->|Hne].
    + exists d'. rewrite lookup_insert_eq. simplify_eq. simpl. split_and!; [done|lia|lia].
    + exists x. by rewrite lookup_insert_ne.
  - intros k x Hk. destruct (decide (k = dr_id d)) as [->|Hne].
    + exists d'. rewrite lookup_insert_eq. simplify_eq. split; [done|].
      split; simpl; [done|lia|lia|congruence].
    + exists x. rewrite lookup_insert_ne by done. split; [done|reflexivity].
  - intros k x Hk. destruct (decide (k = ob_id o)) as [->|Hne].
    + exists o'. rewrite lookup_insert_eq. simplify_eq. split; [done|].
      split; simpl; [done|lia|lia].
    + exists x. rewrite lookup_insert_ne by done. split; [done|reflexivity].
Qed.

(** ** The batch *)

Lemma replayable_other now db row row' :
  replayable db row -> replayable db row' -> dr_id row.1 <> dr_id row'.1 ->
  replayable (apply_replay now db row') row.
Proof.
  destruct row as [d o], row' as [d' o']. intros (Hd & Ho & Hod & Hs) (_ & Ho' & Hod' & _) Hne. simpl in *.
  split_and!; simpl; try done.
  - by rewrite lookup_insert_ne.
  - rewrite lookup_insert_ne; [done|]. intros Heq. congruence.
Qed.

Lemma replay_all_ok now locked w items w' :
  Forall (replayable (w_db w)) locked -> NoDup ((fun row => dr_id row.1) <$> locked) ->
  mapM_ (replay_one now) locked w = (Ok items, w') ->
  items = (fun row => replay_item row.1) <$> locked
  /\ Forall (fun row => ob_generation row.2 = dr_generation row.1) locked
  /\ w_db w' = foldl (apply_replay now) (w_db w) locked.
Proof.
  revert w items. induction locked as [|[d o] locked IH]; intros w items Hall Hnd Hrun; simpl in *.
  - apply ret_ok in Hrun as [<- ->]. done.
  - apply Forall_cons in Hall as [Hrow Hall]. apply NoDup_cons in Hnd as [Hfresh Hnd].
    apply bind_ok in Hrun as (item & w1 & H1 & Hrun).
    apply bind_ok in Hrun as (rest & w2 & H2 & Hrun). apply ret_ok in Hrun as [<- ->].
    apply replay_one_ok in H1 as (-> & Hg & Hw1); [|done].
    apply IH in H2 as (-> & Hgs & Hw2); [| |done].
    + rewrite Hw2, Hw1. split_and!; [done|by constructor|done].
    + rewrite Hw1. apply Forall_forall. intros row Hin. rewrite Forall_forall in Hall.
      apply replayable_other; [by apply Hall|done|]. simpl. intros Heq. apply Hfresh.
      rewrite <- Heq. by apply (list_elem_of_fmap_2 (fun row => dr_id row.1)).
Qed.

Lemma replay_fold_step now locked db :
  Forall (replayable db) locked -> NoDup ((fun row => dr_id row.1) <$> locked) ->
  Forall (fun row => ob_generation row.2 = dr_generation row.1) locked ->
  relay_step db (foldl (apply_replay now) db locked).
Proof.
  revert db. induction locked as [|[d o] locked IH]; intros db Hall Hnd Hg; cbn [foldl]; [reflexivity|].
  apply Forall_cons in Hall as [Hrow Hall]. cbn [fmap list_fmap] in Hnd.
  apply NoDup_cons in Hnd as [Hfresh Hnd]. apply Forall_cons in Hg as [Hgo Hg]. intros Hinv.
  assert (0 < dr_generation d) as Hpos.
  { destruct Hrow as [Hd _]. pose proof (ro_check _ (ri_row _ Hinv _ _ Hd)) as Hc.
    unfold row_check in Hc. apply andb_true_iff in Hc as [_ Hc]. simpl in Hc. lia. }
  revert Hinv. change (relay_step db (foldl (apply_replay now) (apply_replay now db (d, o)) locked)).
  etransitivity; [by apply apply_replay_step|]. apply IH; [|done|done].
  apply Forall_forall. intros row Hin. rewrite Forall_forall in Hall.
  apply replayable_other; [by apply Hall|done|]. simpl. intros Heq. apply Hfresh.
  simpl. rewrite <- Heq. by apply (list_elem_of_fmap_2 (fun row => dr_id row.1)).
Qed.

(** The tables after the batch, key by key. *)
Lemma replay_fold_other now locked db :
  (forall k, k ∉ ((fun row => dr_id row.1) <$> locked) ->
     deliveries (foldl (apply_replay now) db locked) !! k = deliveries db !! k)
  /\ (forall k, k ∉ ((fun row => ob_id row.2) <$> locked) ->
     outbox (foldl (apply_replay now) db locked) !! k = outbox db !! k).
Proof.
  revert db. induction locked as [|[d o] locked IH]; intros db; [done|].
  destruct (IH (apply_replay now db (d, o))) as [IH1 IH2]. cbn [foldl fmap list_fmap].
  split; intros k; rewrite not_elem_of_cons; intros [Hne Hk].
  - rewrite IH1 by done. simpl in *. by rewrite lookup_insert_ne.
  - rewrite IH2 by done. simpl in *. by rewrite lookup_insert_ne.
Qed.

Lemma replay_fold_row now locked db d o :
  NoDup ((fun row => dr_id row.1) <$> locked) -> NoDup ((fun row => ob_id row.2) <$> locked) ->
  (d, o) ∈ locked ->
  deliveries (foldl (apply_replay now) db locked) !! dr_id d
    = Some (replayed_delivery (dr_generation d + 1) now d)
  /\ outbox (foldl (apply_replay now) db locked) !! ob_id o = Some (replay_outbox_row now d o).
Proof.
  revert db. induction locked as [|[d' o'] locked IH]; intros db Hd Ho Hin; [by apply elem_of_nil in Hin|].
  cbn [fmap list_fmap] in Hd, Ho. apply NoDup_cons in Hd as [Hd1 Hd]. apply NoDup_cons in Ho as [Ho1 Ho].
  apply elem_of_cons in Hin as [[= <- <-]|Hin]; [|by apply IH]. cbn [foldl].
  destruct (replay_fold_other now locked (apply_replay now db (d, o))) as [H1 H2].
  rewrite H1, H2 by done. simpl. by rewrite !lookup_insert_eq.
Qed.

(** ** The selection *)

Lemma NoDup_finer {A B C} (f : A -> B) (g : A -> C) l :
  NoDup (f <$> l) -> (forall x y, x ∈ l -> y ∈ l -> g x = g y -> f x = f y) -> NoDup (g <$> l).
Proof.
  induction l as [|a l IH]; intros Hnd Hinj; [constructor|]. cbn [fmap list_fmap] in *.
  apply NoDup_cons in Hnd as [Ha Hnd]. constructor.
  - intros (y & Heq & Hy)%list_elem_of_fmap. apply Ha.
    rewrite (Hinj a y); [by apply list_elem_of_fmap_2|by left|by right|done].
  - apply IH; [done|]. intros x y Hx Hy. apply Hinj; by right.
Qed.

(** A list whose entries share a key that is unique. *)
Lemma same_key_short {A B} (key : A -> B) l :
  NoDup (key <$> l) -> (forall a b, a ∈ l -> b ∈ l -> key a = key b) -> (length l <= 1)%nat.
Proof.
  intros Hnd Hk. destruct l as [|a [|b l]]; simpl; [lia|lia|]. exfalso.
  cbn [fmap list_fmap] in Hnd. apply NoDup_cons in Hnd as [Hnot _]. apply Hnot.
  rewrite (Hk a b); [by left|by left|by right; left].
Qed.

Lemma bind_keys_sublist {A B C} (f : A -> list B) (g : A -> C) (h : B -> C) l :
  (forall a b, b ∈ f a -> h b = g a) -> (forall a, a ∈ l -> length (f a) <= 1)%nat ->
  (h <$> (l ≫= f)) `sublist_of` (g <$> l).
Proof.
  intros Hh. induction l as [|a l IH]; intros Hlen; [done|]. cbn [mbind list_bind].
  rewrite fmap_app. specialize (IH (fun x Hx => Hlen x (list_elem_of_further _ _ _ Hx))).
  pose proof (Hlen a (list_elem_of_here _ _)) as Ha. pose proof (Hh a) as Hb. cbn [fmap list_fmap].
  destruct (f a) as [|b [|c t]]; simpl in Ha |- *; [by constructor| |lia].
  rewrite (Hb b) by (by left). by constructor.
Qed.

Section selection.
Context `{Postgres}.

Lemma elem_of_replay_rows ids db d o :
  relay_inv db -> (d, o) ∈ replay_rows ids db -> replayable db (d, o) /\ dr_id d ∈ ids.
Proof.
  intros Hinv Hin. unfold replay_rows in Hin. apply list_elem_of_bind in Hin as (d' & Ho & Hd).
  apply list_elem_of_fmap in Ho as (o' & [= -> ->] & Ho). rewrite merge_sort_Permutation in Hd.
  apply elem_of_select in Hd as (Hp & k & Hk). apply elem_of_select in Ho as (Hq & k' & Hk').
  bool_to_prop. destruct Hp as [Hid Hs].
  pose proof (ri_row_key _ Hinv _ _ Hk) as <-. pose proof (ri_outbox_key _ Hinv _ _ Hk') as <-.
  by split_and!.
Qed.

Lemma replay_rows_NoDup ids db :
  relay_inv db -> NoDup ((fun row => dr_id row.1) <$> replay_rows ids db)
                  /\ NoDup ((fun row => ob_id row.2) <$> replay_rows ids db).
Proof.
  intros Hinv. assert (NoDup ((fun row => dr_id row.1) <$> replay_rows ids db)) as Hnd.
  { unfold replay_rows. eapply sublist_NoDup; [|apply (bind_keys_sublist _ dr_id)].
    - rewrite merge_sort_Permutation. apply select_keys_NoDup, (ri_row_key _ Hinv).
    - intros d [d' o] (o' & [= -> ->] & _)%list_elem_of_fmap. done.
    - intros d _. rewrite length_fmap.
      eapply (same_key_short ob_id); [by apply select_keys_NoDup, (ri_outbox_key _ Hinv)|].
      intros o o' (Ho & k & Hk)%elem_of_select (Ho' & k' & Hk')%elem_of_select. bool_to_prop.
      rewrite (ri_outbox_key _ Hinv _ _ Hk), (ri_outbox_key _ Hinv _ _ Hk').
      eapply (ri_outbox_unique _ Hinv); [done..|congruence]. }
  split; [done|]. eapply NoDup_finer; [exact Hnd|]. intros [d o] [d' o'] H1 H2 Heq. simpl in *.
  apply elem_of_replay_rows in H1 as [(_ & Ho & Hod & _) _]; [|done].
  apply elem_of_replay_rows in H2 as [(_ & Ho' & Hod' & _) _]; [|done]. simpl in *. congruence.
Qed.
End selection.

(** ** The transaction *)

(** Only the records of replays, the audit log and the time line differ. *)
Definition recorded (db db' : RelayDB) : Prop :=
  deliveries db' = deliveries db /\ outbox db' = outbox db
  /\ delivery_attempts db' = delivery_attempts db
  /\ admin_replay_requests db' = admin_replay_requests db.
#[export] Instance recorded_preorder : PreOrder recorded.
Proof. split; [by intros db|]. unfold recorded. intros ???. intuition congruence. Qed.

Lemma recorded_step db db' :
  deliveries db' = deliveries db -> outbox db' = outbox db ->
  delivery_attempts db' = delivery_attempts db -> relay_step db db'.
Proof.
  intros Hd Ho Ha Hinv. split_and!; [|by rewrite Hd|by rewrite Ho].
  destruct Hinv. split; rewrite ?Hd, ?Ho, ?Ha; done.
Qed.

Lemma insert_lifecycle_recorded l : keeps recorded (insert_lifecycle l).
Proof. apply (keeps_exec recorded). intros lk db [] db'. case_match; intros; by simplify_eq. Qed.
Lemma record_replay_recorded command i : keeps recorded (record_replay command i).
Proof.
  unfold record_replay, insert_audit. apply (keeps_bind recorded).
  { apply (keeps_exec recorded). intros lk db [] db'. unfold insert_replay.
    repeat case_match; intros; by simplify_eq. }
  intros _. apply (keeps_bind recorded); [|intros _; apply insert_lifecycle_recorded].
  by apply (keeps_update recorded).
Qed.

Section transaction.
Context `{Postgres}.

(** A new replay moves exactly the selected rows and stores its result. *)
Definition replayed (clock : Z) (command : ReplayCommand) (items : list ReplayItem)
    (db db' : RelayDB) : Prop :=
  let locked := replay_rows (sort_strings (rc_DeliveryIDs command)) db in
  length locked = length (rc_DeliveryIDs command)
  /\ items = (fun row => replay_item row.1) <$> locked
  /\ Forall (fun row => ob_generation row.2 = dr_generation row.1) locked
  /\ deliveries db' = deliveries (foldl (apply_replay (rc_Now command)) db locked)
  /\ outbox db' = outbox (foldl (apply_replay (rc_Now command)) db locked)
  /\ delivery_attempts db' = delivery_attempts db
  /\ admin_replay_requests db' !! rc_IdempotencyKeyHash command
     = Some (mkReplayRequest (rc_RequestFingerprint command) (wire_item <$> items)
               (rc_ActorID command) (rc_Now command) (rc_Now command + adminReplayRetention)).

Lemma replay_fold_admin now locked db :
  delivery_attempts (foldl (apply_replay now) db locked) = delivery_attempts db
  /\ admin_replay_requests (foldl (apply_replay now) db locked) = admin_replay_requests db.
Proof.
  revert db. induction locked as [|[d o] locked IH]; intros db; [done|]. cbn [foldl].
  by destruct (IH (apply_replay now db (d, o))) as [-> ->].
Qed.

Lemma replay_new_ok clock command w items replay w' :
  relay_inv (w_db w) -> replay_new command w = (Ok (items, replay), w') ->
  replay = false /\ replayed clock command items (w_db w) (w_db w').
Proof.
  intros Hinv Hrun. unfold replay_new in Hrun.
  apply bind_ok in Hrun as (locked & w1 & Hq & Hrun). apply query_ok in Hq as (-> & Hw1 & _).
  set (locked := replay_rows _ _) in *. case_bool_decide as Hlen; [|by apply fail_ok in Hrun].
  cbn [negb] in Hrun. apply bind_ok in Hrun as (items' & w2 & H2 & Hrun).
  destruct (replay_rows_NoDup (sort_strings (rc_DeliveryIDs command)) (w_db w) Hinv) as [Hnd _].
  apply replay_all_ok in H2 as (-> & Hg & Hw2); [| |exact Hnd].
  2:{ rewrite Hw1. apply Forall_forall. intros [d o] Hin. by apply elem_of_replay_rows in Hin as [? _]. }
  case_match; [by apply fail_ok in Hrun|].
  apply bind_ok in Hrun as ([] & w3 & H3 & Hrun). apply exec_ok in H3 as (H3 & _).
  unfold insert_replay_request in H3. case_match; [done|]. case_match; [|done]. injection H3 as Hw3.
  apply bind_ok in Hrun as (us & w4 & H4 & Hrun).
  pose proof (keeps_mapM recorded (record_replay command)
    ((fun row => replay_item row.1) <$> locked) (record_replay_recorded command) w3) as Hrec.
  rewrite H4 in Hrec. cbn [snd] in Hrec.
  apply bind_ok in Hrun as ([] & w5 & H5 & Hrun). apply query_ok in H5 as (_ & Hw5 & _).
  apply ret_ok in Hrun as [[= <- <-] ->]. split; [done|]. rewrite Hw5.
  destruct Hrec as (Hd & Ho & Ha & Hr). rewrite <- Hw3 in *. rewrite Hw2, Hw1 in *.
  destruct (replay_fold_admin (rc_Now command) locked (w_db w)) as [Hfa _].
  unfold replayed. fold locked. rewrite Hd, Ho, Ha, Hr. simpl. rewrite Hfa, lookup_insert_eq.
  split_and!; try done. unfold sort_strings in Hlen. by rewrite merge_sort_Permutation in Hlen.
Qed.

Definition purge (clock : Z) (db : RelayDB) : RelayDB :=
  set_replay_requests (filter (fun kv => clock < rq_expires_at kv.2) (admin_replay_requests db)) db.

Lemma replay_effect clock command w r w' :
  relay_inv (w_db w) -> ReplayAdminDeadLetters clock command w = (r, w') ->
  match r with
  | Err _ => w_db w' = w_db w
  | Ok (items, true) => w_db w' = purge clock (w_db w)
      /\ exists row, admin_replay_requests (purge clock (w_db w)) !! rc_IdempotencyKeyHash command = Some row
         /\ rq_request_fingerprint row = rc_RequestFingerprint command /\ items = rq_result row
  | Ok (items, false) => replayed clock command items (purge clock (w_db w)) (w_db w')
  end.
Proof.
  intros Hinv Hrun. unfold ReplayAdminDeadLetters in Hrun.
  destruct (negb _); [by injection Hrun as <- <-|]. destruct r as [[items replay]|e];
    [|by apply transaction_err_db in Hrun].
  rewrite transaction_ok in Hrun.
  apply bind_ok in Hrun as ([] & w1 & H1 & Hrun). apply query_ok in H1 as (_ & Hw1 & _).
  apply bind_ok in Hrun as ([] & w2 & H2 & Hrun). apply query_ok in H2 as (_ & Hw2 & _).
  apply bind_ok in Hrun as ([] & w3 & H3 & Hrun). apply update_ok in H3 as (H3 & _).
  assert (w_db w3 = purge clock (w_db w)) as Hw3 by (injection H3 as <-; by rewrite Hw2, Hw1).
  apply bind_ok in Hrun as (stored & w4 & H4 & Hrun). apply query_ok in H4 as (-> & Hw4 & _).
  rewrite Hw3 in Hrun. destruct (admin_replay_requests (purge clock (w_db w)) !! _) as [row|] eqn:Hrow.
  - case_bool_decide as Hf; [|by apply fail_ok in Hrun].
    apply bind_ok in Hrun as ([] & w5 & H5 & Hrun). apply query_ok in H5 as (_ & Hw5 & _).
    apply ret_ok in Hrun as [[= <- <-] ->]. rewrite Hw5, Hw4, Hw3. eauto.
  - apply (replay_new_ok clock) in Hrun as [-> Hrun]; rewrite Hw4, Hw3 in *; [done|].
    by apply (recorded_step (w_db w)).
Qed.

Lemma admin_replay_keeps clock command : keeps relay_step (ReplayAdminDeadLetters clock command).
Proof.
  apply (keeps_run relay_step). intros w r w' Hrun.
  cut (relay_inv (w_db w) -> relay_step (w_db w) (w_db w')); [intros Hc Hinv; exact (Hc Hinv Hinv)|].
  intros Hinv.
  apply replay_effect in Hrun; [|done]. destruct r as [[items [|]]|e]; [| |by rewrite Hrun].
  - destruct Hrun as [-> _]. by apply recorded_step.
  - destruct Hrun as (_ & _ & Hg & Hd & Ho & Ha & _). set (db1 := purge clock (w_db w)) in *.
    assert (relay_inv db1) as Hinv1 by (by apply (recorded_step (w_db w))).
    etransitivity; [by apply (recorded_step (w_db w) db1)|].
    set (ids := sort_strings (rc_DeliveryIDs command)) in *.
    etransitivity; [apply (replay_fold_step (rc_Now command));
                    [|apply (replay_rows_NoDup ids db1 Hinv1)|exact Hg]|].
    + apply Forall_forall. intros [d o] Hin. by apply elem_of_replay_rows in Hin as [? _].
    + apply recorded_step; [done|done|]. rewrite Ha.
      by rewrite (proj1 (replay_fold_admin (rc_Now command) _ db1)).
Qed.
End transaction.
