(* ===== verification/PublishEffects.v ===== *)
(** * What publishing does to the tables

    The deliveries and outbox messages that a publication plans, the database
    once they are stored, and the effect of [PublishEvent]. *)

From Stdlib Require Import Ascii String.
From S2P Require Import Prelude GoLib Crypto Json Domain QueueSchema QueueStore.
From S2P Require Import QueueScheduler DeliverySchema DeliveryStore DeliveryEffects.
From S2P Require Import CallbackStore CallbackEffects DeliverySystem PublishStore.

(** ** The event *)

Section event.
Context `{Postgres}.

(** The row that [INSERT INTO events] writes. *)
Definition event_row (event : Event) (retention : Z) : option EventRow :=
  let '(availableAt, orderingKey, priority, metadata, _) := queue_columns event in
  (fun metadata => mkEventRow (ev_ID event) (ev_Type event) (ev_SourceAppID event)
     (ev_TargetAppIDs event) (ev_Data event) (ev_CreatedAt event) (ev_CreatedAt event + retention)
     availableAt orderingKey priority metadata) <$> to_jsonb metadata.

Definition same_events (d d' : QueueDB) : Prop := events d' = events d.
#[local] Instance same_events_preorder : PreOrder same_events.
Proof. unfold same_events. split; congruence. Qed.

Lemma insert_deliveries_events ds db db' : insert_deliveries ds db = Ok db' -> same_events db db'.
Proof.
  revert db. induction ds as [|d ds IH]; simpl; intros db Hi; [by simplify_eq|].
  destruct (insert_delivery d db) as [db1|] eqn:H1; [|done]. apply IH in Hi.
  unfold insert_delivery in H1. repeat case_match; simplify_eq; done.
Qed.

Lemma publish_to_queues_effect event retention w w' :
  publish_to_queues event retention w = (Ok tt, w') ->
  exists row, event_row event retention = Some row /\ events (w_db w) !! ev_ID event = None
    /\ events (w_db w') = <[ev_ID event := row]> (events (w_db w)).
Proof.
  unfold publish_to_queues, event_row.
  destruct (queue_columns event) as [[[[av key] prio] meta] hash] eqn:Hcols.
  intros ([] & w1 & Hins & Hrest)%bind_ok.
  assert (keeps same_events (query (fun _ => tt);;
    (if bool_decide (hash = "") then mret tt
     else update (fun db => (tt, drop_expired_keys (ev_TargetAppIDs event) (ev_CreatedAt event) db)));;
    exec (fun _ => fan_out event retention);;
    (if bool_decide (hash = "") then mret tt
     else update (fun db => (tt, insert_keys event hash db))))) as Hk.
  { keeps_solve.
    - by apply (keeps_update same_events).
    - apply (keeps_exec same_events). intros lk db u db'. unfold fan_out. rewrite Hcols.
      destruct (to_jsonb meta); [|done]. destruct (insert_deliveries _ _) eqn:Hi; [|done].
      intros. simplify_eq. by eapply insert_deliveries_events.
    - by apply (keeps_update same_events). }
  specialize (Hk w1). rewrite Hrest in Hk. unfold same_events in Hk. simpl in Hk. rewrite Hk.
  unfold unique_conflict, on_error in Hins.
  destruct (exec _ _) as [[[]|e] w2] eqn:He; [|by run_inv]. simplify_eq.
  apply exec_ok in He as (He & _). unfold insert_event in He. rewrite Hcols in He.
  destruct (to_jsonb meta) as [meta'|]; [|done]. destruct (negb _); [done|].
  destruct (events (w_db w) !! ev_ID event) eqn:Hev; [done|].
  injection He as <-. eexists. done.
Qed.

End event.

(** ** Deliveries and messages *)

(** One delivery of a job through a sink. *)
Record Planned := mkPlanned {
  pl_job : Job;
  pl_id : string;
  pl_sink : Sink
}.
Definition planned_row (event : Event) (p : Planned) : StreamRow :=
  new_row event (pl_job p) (pl_id p) (pl_sink p).
Definition planned_outbox (event : Event) (p : Planned) (subject : string) : OutboxRow :=
  new_outbox event (pl_id p) subject.

(** The deliveries of a list of jobs under the policies of their targets. *)
Definition job_plan (policies : list (string * AppRow)) (job : Job) : list Planned :=
  (fun ds : string * Sink => mkPlanned job ds.1 ds.2) <$>
    job_deliveries job (match policy_of policies (job_TargetAppID job) with
                        | Some a => enabledSinks a
                        | None => []
                        end).
Definition plan (policies : list (string * AppRow)) (jobs : list Job) : list Planned :=
  List.concat (job_plan policies <$> jobs).

Definition add_planned (event : Event) (p : Planned) (subject : string) (db : RelayDB) : RelayDB :=
  put_outbox (planned_outbox event p subject) (put_row (planned_row event p) db).

(** A delivery and its message stored, each under a key not used before. *)
Definition addable (event : Event) (p : Planned) (subject : string) (db : RelayDB) : Prop :=
  deliveries db !! pl_id p = None
  /\ outbox db !! ob_id (planned_outbox event p subject) = None
  /\ (forall k o, outbox db !! k = Some o -> ob_delivery_id o <> pl_id p)
  /\ deliverySubject (job_TargetAppID (pl_job p)) (pl_sink p) = Ok subject
  /\ is_Some (app_rows db !! job_TargetAppID (pl_job p)).

Inductive stored (event : Event) : list Planned -> RelayDB -> RelayDB -> Prop :=
| stored_nil db db' : db' ≃ db -> stored event [] db db'
| stored_cons p l subject db db' :
    addable event p subject db -> stored event l (add_planned event p subject db) db' ->
    stored event (p :: l) db db'.

Lemma stored_same event l db1 db2 db' : stored event l db2 db' -> db1 ≃ db2 -> stored event l db1 db'.
Proof.
  intros Hs. revert db1. induction Hs as [db db' Hdb|p l subject db db' Ha Hs IH]; intros db1 H1.
  - constructor. by rewrite Hdb.
  - econstructor; [|apply IH].
    + unfold addable in *. by rewrite (deliveries_proper _ _ H1), (outbox_proper _ _ H1),
        (app_rows_proper _ _ H1).
    + unfold add_planned, put_outbox, put_row. simpl.
      rewrite (deliveries_proper _ _ H1), (outbox_proper _ _ H1). by do 2 f_equiv.
Qed.

Lemma stored_app event l l' db db1 db' :
  stored event l db db1 -> stored event l' db1 db' -> stored event (l ++ l')%list db db'.
Proof.
  induction 1 as [db db1 Hdb|p l subject db db1 Ha Hs IH]; intros H'; simpl.
  - eapply stored_same; [done|]. by symmetry.
  - econstructor; [done|auto].
Qed.

Lemma insert_row_inv r db u db' :
  insert_row r db = Ok (u, db') ->
  deliveries db !! dr_id r = None /\ is_Some (app_rows db !! dr_target_app_id r)
  /\ db' = put_row r db.
Proof.
  unfold insert_row. destruct (deliveries db !! dr_id r); [done|]. cbn [isSome isNone negb orb].
  destruct (existsb _ _); [done|]. destruct (app_rows db !! dr_target_app_id r); [|by rewrite orb_true_r].
  destruct (_ || _); [done|]. intros. simplify_eq. eauto.
Qed.

Lemma insert_outbox_inv o db u db' :
  insert_outbox o db = Ok (u, db') ->
  outbox db !! ob_id o = None
  /\ (forall k x, outbox db !! k = Some x -> ob_delivery_id x <> ob_delivery_id o)
  /\ db' = put_outbox o db.
Proof.
  unfold insert_outbox. destruct (outbox db !! ob_id o); [done|]. cbn [isSome isNone negb orb].
  destruct (existsb _ _) eqn:Hex; [done|]. destruct (_ || _); [done|]. intros. simplify_eq.
  split_and!; [done| |done]. intros k x Hk Heq.
  assert (x ∈ rows (outbox db)) as Hin%list_elem_of_In by (rewrite elem_of_rows; eauto).
  apply not_true_iff_false in Hex. apply Hex, existsb_exists. exists x. split; [done|].
  by rewrite bool_decide_eq_true_2.
Qed.

Lemma new_outbox_delivery event id subject : ob_delivery_id (new_outbox event id subject) = id.
Proof. done. Qed.

Lemma insert_delivery_effect event job id sink w w' :
  insertDeliveryAndOutbox event job id sink w = (Ok tt, w') ->
  exists subject, let p := mkPlanned job id sink in
    addable event p subject (w_db w) /\ w_db w' ≃ add_planned event p subject (w_db w).
Proof.
  unfold insertDeliveryAndOutbox. intros H. run_inv.
  match goal with Hl : insert_lifecycle _ _ = _ |- _ => apply insert_lifecycle_inv in Hl as (Hl & _) end.
  destruct (deliverySubject _ sink) as [subject|] eqn:Hsub; [|by run_inv]. run_inv. chase_db.
  match goal with Hr : insert_row _ _ = _ |- _ => apply insert_row_inv in Hr as (Hid & Happ & Hr) end.
  chase_db. apply insert_outbox_inv in H as (Hob & Hdup & ->).
  exists subject. split.
  - split_and!; [exact Hid|exact Hob| |exact Hsub|exact Happ].
    intros k o Hk. apply (Hdup k o Hk).
  - unfold add_planned, put_outbox. by f_equiv.
Qed.

Lemma publish_job_effect event policies job w w' :
  publish_job event policies job w = (Ok tt, w') ->
  stored event (job_plan policies job) (w_db w) (w_db w').
Proof.
  unfold publish_job, job_plan. intros H. run_inv.
  match goal with Hm : mapM_ _ ?l ?w0 = (Ok _, ?w1) |- _ => rename Hm into Hrun; revert w w1 x Hrun;
    generalize l as ds; clear end.
  induction ds as [|[id sink] ds IH]; intros w w' us Hrun; simpl in *; run_inv.
  - by constructor.
  - destruct x. apply insert_delivery_effect in H as (subject & Ha & Hdb).
    econstructor; [exact Ha|]. eapply stored_same; [by eapply IH|]. by symmetry.
Qed.

Lemma publish_jobs_effect event policies jobs w us w' :
  mapM_ (publish_job event policies) jobs w = (Ok us, w') ->
  stored event (plan policies jobs) (w_db w) (w_db w').
Proof.
  unfold plan. revert w us. induction jobs as [|job jobs IH]; intros w us Hrun; simpl in *; run_inv.
  - by constructor.
  - destruct x. eapply stored_app; [by apply publish_job_effect|]. by eapply IH.
Qed.

(** *** What is stored *)

Lemma planned_row_ok event p : row_ok (planned_row event p).
Proof. split; [done|done|]. by intros. Qed.
Lemma planned_outbox_ok event p subject : outbox_ok (planned_outbox event p subject).
Proof. split; [done|done|done|]. apply Z.le_refl. Qed.

Lemma add_planned_rows event p subject db :
  deliveries (add_planned event p subject db) = <[pl_id p := planned_row event p]> (deliveries db).
Proof. done. Qed.
Lemma add_planned_outbox event p subject db :
  outbox (add_planned event p subject db)
  = <[ob_id (planned_outbox event p subject) := planned_outbox event p subject]> (outbox db).
Proof. done. Qed.
Lemma planned_outbox_id event p s s' :
  ob_id (planned_outbox event p s) = ob_id (planned_outbox event p s').
Proof. done. Qed.
#[local] Opaque planned_outbox.

Lemma add_planned_step event p subject db :
  addable event p subject db -> relay_step db (add_planned event p subject db).
Proof.
  intros (Hd & Ho & Hdup & _) Hinv.
  set (o := planned_outbox event p subject) in *.
  assert (ob_delivery_id o = pl_id p) as Hod by done.
  split_and!; [split; rewrite ?add_planned_rows, ?add_planned_outbox; fold o|
               rewrite add_planned_rows|rewrite add_planned_outbox; fold o].
  - intros k r [[<- <-]|[_ Hk]]%lookup_insert_Some; [done|by eapply ri_row_key].
  - intros k r [[<- <-]|[_ Hk]]%lookup_insert_Some; [apply planned_row_ok|by eapply ri_row].
  - intros k x [[<- <-]|[_ Hk]]%lookup_insert_Some; [done|by eapply ri_outbox_key].
  - intros k x [[<- <-]|[_ Hk]]%lookup_insert_Some; [apply planned_outbox_ok|by eapply ri_outbox].
  - intros k x [[<- <-]|[_ Hk]]%lookup_insert_Some; rewrite lookup_insert_is_Some'.
    + left. by rewrite Hod.
    + right. by eapply ri_outbox_row.
  - intros k k' x x' [[<- <-]|[_ Hk]]%lookup_insert_Some [[<- <-]|[_ Hk']]%lookup_insert_Some Heq.
    + done.
    + apply Hdup in Hk'. congruence.
    + apply Hdup in Hk. congruence.
    + by eapply ri_outbox_unique.
  - intros k x r [[<- <-]|[_ Hk]]%lookup_insert_Some [[Hid <-]|[Hne Hr]]%lookup_insert_Some.
    + done.
    + by destruct Hne.
    + apply Hdup in Hk. congruence.
    + by eapply ri_generation.
  - intros id r [[<- <-]|[_ Hk]]%lookup_insert_Some.
    + exists (ob_id o), o. by rewrite lookup_insert_eq.
    + destruct (ri_has_outbox _ Hinv _ _ Hk) as (k & x & Hx & Hid). exists k, x.
      rewrite lookup_insert_ne; [done|]. intros <-. congruence.
  - intros id g a i Hi. destruct (ri_attempts _ Hinv _ _ _ _ Hi) as (r & Hr & Hg & Ha).
    exists r. rewrite lookup_insert_ne; [done|]. intros <-. congruence.
  - intros k r Hk. exists r. rewrite lookup_insert_ne; [split; [done|reflexivity]|].
    intros <-. congruence.
  - intros k x Hk. exists x. rewrite lookup_insert_ne; [split; [done|reflexivity]|].
    intros <-. congruence.
Qed.

Lemma stored_step event l db db' : stored event l db db' -> relay_step db db'.
Proof.
  induction 1 as [db db' Hdb|p l subject db db' Ha Hs IH].
  - eapply relay_step_same; [reflexivity|done].
  - etransitivity; [by apply add_planned_step|done].
Qed.

(** Rows that were there are unchanged. *)
Lemma stored_old event l db db' :
  stored event l db db' ->
  deliveries db ⊆ deliveries db' /\ outbox db ⊆ outbox db'.
Proof.
  induction 1 as [db db' Hdb|p l subject db db' (Hd & Ho & _) Hs [IHd IHo]].
  - by rewrite (deliveries_proper _ _ Hdb), (outbox_proper _ _ Hdb).
  - rewrite add_planned_rows in IHd. rewrite add_planned_outbox in IHo.
    split; (etransitivity; [|done]); by apply insert_subseteq.
Qed.

(** Everything planned is there. *)
Lemma stored_planned event l db db' p :
  stored event l db db' -> p ∈ l ->
  deliveries db' !! pl_id p = Some (planned_row event p)
  /\ exists subject, deliverySubject (job_TargetAppID (pl_job p)) (pl_sink p) = Ok subject
     /\ outbox db' !! ob_id (planned_outbox event p subject) = Some (planned_outbox event p subject).
Proof.
  induction 1 as [db db' Hdb|q l subject db db' (Hd & Ho & _ & Hsub & _) Hs IH]; [by intros ?%elem_of_nil|].
  intros [->|Hin]%elem_of_cons; [|auto]. apply stored_old in Hs as [Hd' Ho'].
  rewrite add_planned_rows in Hd'. rewrite add_planned_outbox in Ho'. split.
  - eapply lookup_weaken; [|done]. apply lookup_insert_eq.
  - exists subject. split; [done|]. eapply lookup_weaken; [|done]. apply lookup_insert_eq.
Qed.

(** Nothing else is there. *)
Lemma stored_only event l db db' :
  stored event l db db' ->
  (forall k r, deliveries db' !! k = Some r ->
     deliveries db !! k = Some r \/ exists p, p ∈ l /\ k = pl_id p /\ r = planned_row event p)
  /\ (forall k o, outbox db' !! k = Some o -> outbox db !! k = Some o
        \/ exists p subject, p ∈ l
             /\ deliverySubject (job_TargetAppID (pl_job p)) (pl_sink p) = Ok subject
             /\ k = ob_id o /\ o = planned_outbox event p subject).
Proof.
  induction 1 as [db db' Hdb|p l subject db db' (_ & _ & _ & Hsub & _) Hs [IHd IHo]].
  - rewrite (deliveries_proper _ _ Hdb), (outbox_proper _ _ Hdb). auto.
  - split.
    + intros k r [Hk|(q & Hq & -> & ->)]%IHd; [|right; exists q; set_solver].
      rewrite add_planned_rows in Hk. apply lookup_insert_Some in Hk as [[<- <-]|[_ Hk]]; [|auto].
      right. exists p. set_solver.
    + intros k o [Hk|(q & s & Hq & Hrest)]%IHo; [|right; exists q, s; set_solver].
      rewrite add_planned_outbox in Hk. apply lookup_insert_Some in Hk as [[<- <-]|[_ Hk]]; [|auto].
      right. exists p, subject. set_solver.
Qed.

(** The other tables are not touched. *)
Lemma stored_rest event l db db' :
  stored event l db db' ->
  queue_db db' = queue_db db /\ event_idempotency db' = event_idempotency db
  /\ app_rows db' = app_rows db /\ delivery_attempts db' = delivery_attempts db.
Proof.
  induction 1 as [db db' Hdb|p l subject db db' Ha Hs IH]; [|done].
  rewrite (queue_db_proper _ _ Hdb), (idempotency_proper _ _ Hdb), (app_rows_proper _ _ Hdb),
    (attempts_proper _ _ Hdb). done.
Qed.

(** ** [PublishEvent] *)

Section publish.
Context `{Postgres}.

Definition publication_key (publication : Publication) (key : string) : string * string :=
  (ev_SourceAppID (pub_Event publication), idempotencyHash (ev_SourceAppID (pub_Event publication)) key).

Definition idempotency_row (p : Publication) (retention : EventRetention) : IdempotencyRow :=
  mkIdempotency (ev_ID (pub_Event p)) (wire_publication p) (ev_CreatedAt (pub_Event p))
    (ev_CreatedAt (pub_Event p) + ret_Idempotency retention).

(** A new publication [p], stored together with its deliveries. *)
Definition newly_published (publication : Publication) (k : string * string)
    (retention : EventRetention) (p : Publication) (db db' : RelayDB) : Prop :=
  let event := pub_Event publication in
  exists policies row db1 db2,
    target_policies (sort_strings (ev_TargetAppIDs event)) db = Some policies
    /\ p = mkPublication event (mark_callback policies <$> pub_Jobs publication)
    /\ event_row event (ret_Event retention) = Some row
    /\ events (queue_db db) !! ev_ID event = None
    /\ events (queue_db db1) = <[ev_ID event := row]> (events (queue_db db))
    /\ deliveries db1 = deliveries db /\ outbox db1 = outbox db
    /\ delivery_attempts db1 = delivery_attempts db /\ app_rows db1 = app_rows db
    /\ event_idempotency db1 = event_idempotency db
    /\ stored event (plan policies (pub_Jobs p)) db1 db2
    /\ event_idempotency db !! k = None
    /\ db' = set_idempotency (<[k := idempotency_row p retention]> (event_idempotency db2)) db2.

Lemma on_queue_ok {A} (m : M_queue A) w a w' :
  on_queue m w = (Ok a, w') ->
  exists q, m (mkWorld (queue_db (w_db w)) (w_faults w) (w_locked w))
            = (Ok a, mkWorld q (w_faults w') (w_locked w'))
            /\ w_db w' = set_queue_db q (w_db w).
Proof using Type.
  unfold on_queue. destruct (m _) as [r [q fs lk]]. intros [= -> <-]. simpl. eauto.
Qed.

Lemma insert_idempotency_inv k i db u db' :
  insert_idempotency k i db = Ok (u, db') ->
  event_idempotency db !! k = None
  /\ db' = set_idempotency (<[k := i]> (event_idempotency db)) db.
Proof using Type.
  unfold insert_idempotency. destruct (event_idempotency db !! k); [done|].
  destruct (_ || _); [done|]. intros. by simplify_eq.
Qed.

Lemma publish_new_effect publication k retention w p replay w' :
  publish_new publication k retention w = (Ok (p, replay), w') ->
  replay = false /\ newly_published publication k retention p (w_db w) (w_db w').
Proof.
  unfold publish_new, newly_published. set (event := pub_Event publication).
  intros (policies & w1 & Hpol & Hrun)%bind_ok. unfold lockTargetPolicies in Hpol. run_inv. chase_db.
  match goal with Hx : on_queue _ _ = _ |- _ => apply on_queue_ok in Hx as (q & Hq & Hdb) end.
  destruct x. apply publish_to_queues_effect in Hq as (row & Hrow & Hnone & Hev). simpl in Hnone, Hev.
  match goal with Hm : mapM_ _ _ _ = _ |- _ => apply publish_jobs_effect in Hm end.
  match goal with Hi : insert_idempotency _ _ _ = _ |- _ =>
    apply insert_idempotency_inv in Hi as [Hk Hput] end.
  match goal with Hp : (_, _) = (p, replay) |- _ => injection Hp as <- <- end. chase_db.
  match goal with Hm : stored _ _ _ ?db2 |- _ =>
    pose proof (stored_rest _ _ _ _ Hm) as (_ & Hidem & _);
    split; [done|]; exists policies, row, (set_queue_db q (w_db w)), db2 end.
  rewrite Hidem in Hk. split_and!; done.
Qed.

Definition published (clock : Z) (publication : Publication) (key : string)
    (retention : EventRetention) (result : Publication * bool) (db db' : RelayDB) : Prop :=
  let k := publication_key publication key in
  if result.2 then
    exists i, event_idempotency db !! k = Some i /\ clock < ik_expires_at i
      /\ result.1 = ik_publication i /\ db' = db
  else (forall i, event_idempotency db !! k = Some i -> ik_expires_at i <= clock)
       /\ newly_published publication k retention result.1
            (set_idempotency (delete k (event_idempotency db)) db) db'.

Lemma publish_effect clock publication key retention w r w' :
  PublishEvent clock publication key retention w = (r, w') ->
  match r with
  | Err _ => w_db w' = w_db w
  | Ok result => validatePublication publication key retention = true
                 /\ published clock publication key retention result (w_db w) (w_db w')
  end.
Proof.
  unfold PublishEvent. destruct (validatePublication _ _ _); [|by intros [= <- <-]]. intros Hrun.
  cut (match r with Ok result => published clock publication key retention result (w_db w) (w_db w')
       | Err _ => w_db w' = w_db w end); [destruct r; naive_solver|]. revert Hrun.
  apply (transaction_effect _ (published clock publication key retention)).
  clear w r w'. intros w [p replay] w' Hrun. unfold published.
  set (k := publication_key publication key).
  fold (publication_key publication key) in Hrun. fold k in Hrun. run_inv. chase_db.
  simplify_eq.
  destruct (event_idempotency (w_db w) !! k) as [i|] eqn:Hi.
  - destruct (ik_expires_at i <=? clock) eqn:Hexp; bool_to_prop.
    + match goal with Hx : set_idempotency _ _ = w_db ?x |- _ => rewrite <- Hx in * end.
      simpl in Hrun. rewrite lookup_delete_eq in Hrun. apply publish_new_effect in Hrun as [-> Hnew]. chase_db.
      split; [|done]. intros. by simplify_eq.
    + match goal with Hx : w_db w = w_db ?x |- _ => rewrite <- Hx in * end.
      rewrite Hi in Hrun. run_inv. chase_db. simplify_eq. exists i. done.
  - match goal with Hx : w_db w = w_db ?x |- _ => rewrite <- Hx in * end. rewrite Hi in Hrun.
    apply publish_new_effect in Hrun as [-> Hnew]. chase_db. split; [done|].
    rewrite delete_id by done.
    match goal with Hn : newly_published _ _ _ _ ?d _ |- _ =>
      replace (set_idempotency _ _) with d by (by destruct d) end. done.
Qed.

(** The tables of deliveries after publishing. *)
Lemma publish_event_keeps clock publication key retention :
  keeps relay_step (PublishEvent clock publication key retention).
Proof.
  apply keeps_run. intros w [[p replay]|e] w' Hrun%publish_effect; [|by rewrite Hrun].
  destruct Hrun as [_ Hrun]. unfold published in Hrun. destruct replay; simpl in Hrun.
  { destruct Hrun as (i & _ & _ & _ & ->). reflexivity. }
  destruct Hrun as (_ & policies & row & db1 & db2 & _ & _ & _ & _ & _ & Hd & Ho & Ha & _ & _ & Hs & _ & ->).
  intros Hinv. simpl in Hd, Ho, Ha.
  assert (relay_inv db1) as Hinv1 by (destruct Hinv; split; rewrite ?Hd, ?Ho, ?Ha; done).
  apply stored_step in Hs. destruct (Hs Hinv1) as (Hinv2 & Hr & Hob). rewrite Hd in Hr. rewrite Ho in Hob.
  split_and!; [|done|done]. by destruct Hinv2.
Qed.

End publish.
