(* ===== verification/PublishClaims.v ===== *)
(** * Publishing: theorems

    What a new publication stores, that nothing else is touched, and that a
    repeated key gives back the stored publication. *)

From Stdlib Require Import Ascii String.
From S2P Require Import Prelude GoLib Crypto Json JsonEncode Domain QueueSchema QueueStore.
From S2P Require Import QueueScheduler DeliverySchema DeliveryStore DeliveryEffects.
From S2P Require Import CallbackStore CallbackEffects DeliverySystem PublishStore PublishEffects.

(** ** Policies *)

Lemma target_policies_spec ids db policies id :
  target_policies ids db = Some policies -> id ∈ ids ->
  exists a, policy_of policies id = Some a /\ app_rows db !! id = Some a
    /\ app_Enabled a = true /\ enabledSinks a <> [].
Proof.
  revert policies. induction ids as [|x ids IH]; intros policies Hp Hin; [by apply elem_of_nil in Hin|].
  simpl in Hp. destruct (app_rows db !! x) as [a|] eqn:Ha; [|done].
  destruct (app_Enabled a) eqn:He; simpl in Hp; [|done].
  case_bool_decide as Hs; simpl in Hp; [done|].
  destruct (target_policies ids db) as [rest|] eqn:Hr; simplify_eq/=.
  unfold policy_of. simpl. case_bool_decide as Hx.
  - subst. exists a. done.
  - apply elem_of_cons in Hin as [->|Hin]; [done|].
    destruct (IH rest eq_refl Hin) as (b & Hb & Hrest). by exists b.
Qed.

Lemma target_policies_ext ids db db' :
  app_rows db = app_rows db' -> target_policies ids db = target_policies ids db'.
Proof. intros Heq. induction ids as [|id ids IH]; simpl; [done|]. by rewrite Heq, IH. Qed.

Lemma elem_of_sort l (id : string) : id ∈ sort_strings l <-> id ∈ l.
Proof. unfold sort_strings. by rewrite merge_sort_Permutation. Qed.

Lemma valid_jobs_spec event jobs seen job :
  valid_jobs event seen jobs = true -> job ∈ jobs ->
  job_TargetAppID job ∈ ev_TargetAppIDs event /\ job_EventID job = ev_ID event
  /\ job_ID job <> "".
Proof.
  revert seen. induction jobs as [|j jobs IH]; intros seen Hv Hin; [by apply elem_of_nil in Hin|].
  cbn [valid_jobs] in Hv. bool_to_prop. destruct_and!.
  apply elem_of_cons in Hin as [->|Hin]; [done|by eapply IH].
Qed.

Lemma validate_jobs publication key retention job :
  validatePublication publication key retention = true -> job ∈ pub_Jobs publication ->
  job_TargetAppID job ∈ ev_TargetAppIDs (pub_Event publication)
  /\ job_EventID job = ev_ID (pub_Event publication) /\ job_ID job <> "".
Proof.
  unfold validatePublication. intros [_ Hv]%andb_true_iff. by eapply valid_jobs_spec.
Qed.

(** ** The identifier of the delivery of a job through the i-th sink of its target *)

Definition delivery_id (job : Job) (i : nat) : string :=
  match i with O => job_ID job | S _ => derivedCallbackDeliveryID (job_ID job) end.

Lemma elem_of_job_plan policies job a i sink :
  policy_of policies (job_TargetAppID job) = Some a -> enabledSinks a !! i = Some sink ->
  mkPlanned job (delivery_id job i) sink ∈ job_plan policies job.
Proof.
  intros Hp Hs. unfold job_plan. rewrite Hp. apply list_elem_of_fmap.
  exists (delivery_id job i, sink). split; [done|]. unfold job_deliveries.
  apply list_elem_of_lookup. exists i. rewrite list_lookup_imap, Hs. done.
Qed.

Lemma job_plan_inv policies job p :
  p ∈ job_plan policies job ->
  exists a i, policy_of policies (job_TargetAppID job) = Some a /\ pl_job p = job
    /\ enabledSinks a !! i = Some (pl_sink p) /\ pl_id p = delivery_id job i.
Proof.
  unfold job_plan. intros ([id sink] & -> & Hin)%list_elem_of_fmap.
  destruct (policy_of policies _) as [a|].
  - apply list_elem_of_lookup in Hin as [i Hi]. unfold job_deliveries in Hi.
    rewrite list_lookup_imap in Hi. apply fmap_Some in Hi as (s & Hs & [= -> ->]). by exists a, i.
  - by apply elem_of_nil in Hin.
Qed.

Lemma elem_of_plan policies jobs p :
  p ∈ plan policies jobs <-> exists job, job ∈ jobs /\ p ∈ job_plan policies job.
Proof.
  unfold plan. rewrite list_elem_of_In, in_concat. split.
  - intros (l & Hl & Hp). apply list_elem_of_In, list_elem_of_fmap in Hl as (job & -> & Hj).
    exists job. split; [done|by apply list_elem_of_In].
  - intros (job & Hj & Hp). exists (job_plan policies job). split.
    + apply list_elem_of_In, list_elem_of_fmap. eauto.
    + by apply list_elem_of_In.
Qed.

(** ** What a publication is to store, from the modes of the applications *)

(** A target is served by a stream unless it asks for callbacks only, and by
    callbacks when it asks for them and has an address. *)
Definition served_by (a : AppRow) (sink : Sink) : Prop :=
  match sink with
  | SinkStream => app_DeliveryMode a = DeliveryQueue \/ app_DeliveryMode a = DeliveryWebSocket
                  \/ app_DeliveryMode a = DeliveryAll
  | SinkCallback => (app_DeliveryMode a = DeliveryCallback \/ app_DeliveryMode a = DeliveryAll)
                    /\ exists url, app_CallbackURL a = Some url /\ TrimSpace url <> ""
  end.

(** The first delivery of a job has the identifier of the job; the callback of a
    target that has a stream as well has one derived from it. *)
Definition sink_id (a : AppRow) (job : Job) (sink : Sink) : string :=
  match sink, app_DeliveryMode a with
  | SinkCallback, DeliveryAll => derivedCallbackDeliveryID (job_ID job)
  | _, _ => job_ID job
  end.

Lemma callback_served a : callbackEnabled a = true <-> served_by a SinkCallback.
Proof.
  unfold callbackEnabled, served_by. destruct (app_CallbackURL a) as [url|]; [|naive_solver].
  rewrite andb_true_iff, negb_true_iff, bool_decide_eq_false. destruct (app_DeliveryMode a); naive_solver.
Qed.

Lemma enabled_served a sink :
  served_by a sink <-> exists i, enabledSinks a !! i = Some sink.
Proof.
  rewrite <- list_elem_of_lookup. unfold enabledSinks. pose proof (callback_served a) as Hcb.
  rewrite elem_of_app. destruct sink.
  - unfold served_by. destruct (app_DeliveryMode a), (callbackEnabled a); set_solver.
  - rewrite <- Hcb. destruct (app_DeliveryMode a), (callbackEnabled a); set_solver.
Qed.

Lemma sink_id_index a job i sink :
  enabledSinks a !! i = Some sink -> delivery_id job i = sink_id a job sink.
Proof.
  unfold enabledSinks, delivery_id, sink_id. pose proof (callback_served a) as Hcb.
  unfold served_by in Hcb.
  destruct (app_DeliveryMode a), (callbackEnabled a), i as [|[|i]], sink; try done;
    by destruct (proj1 Hcb eq_refl) as [[] _].
Qed.

Lemma plan_spec policies jobs q :
  q ∈ plan policies jobs <->
  pl_job q ∈ jobs /\ exists a, policy_of policies (job_TargetAppID (pl_job q)) = Some a
    /\ served_by a (pl_sink q) /\ pl_id q = sink_id a (pl_job q) (pl_sink q).
Proof.
  rewrite elem_of_plan. split.
  - intros (job & Hj & (a & i & Ha & <- & Hi & Hid)%job_plan_inv). split; [done|]. exists a.
    rewrite Hid, <- (sink_id_index _ _ _ _ Hi), enabled_served. eauto.
  - intros (Hj & a & Ha & [i Hi]%enabled_served & Hid). exists (pl_job q). split; [done|].
    rewrite <- (sink_id_index _ _ _ _ Hi) in Hid. destruct q as [job id sink]. simpl in *. subst id.
    by eapply elem_of_job_plan.
Qed.

(** [job] of a publication has a delivery [id] through [sink]: its target is
    enabled and served by the sink. *)
Definition delivers (db : RelayDB) (p : Publication) (job : Job) (sink : Sink) (id : string) : Prop :=
  job ∈ pub_Jobs p /\ exists a, app_rows db !! job_TargetAppID job = Some a
    /\ app_Enabled a = true /\ served_by a sink /\ id = sink_id a job sink.

(** A delivery nobody has worked on, and its message. *)
Definition fresh_delivery (event : Event) (job : Job) (id : string) (sink : Sink) : StreamRow :=
  mkRow id (job_ID job) (ev_ID event) (ev_SourceAppID event) (job_TargetAppID job) sink
    DPending 0 1 (ev_CreatedAt event) (ev_CreatedAt event) no_assignment no_callback.
Definition fresh_message (event : Event) (id subject : string) : OutboxRow :=
  mkOutbox (outboxIdentities id).1 (ev_ID event) id subject
    (mkEnvelope (coerce id) 1 (wire_event event)) (outboxIdentities id).2 1 0
    (ev_CreatedAt event) None None None None None (ev_CreatedAt event) (ev_CreatedAt event).

Section claims.
Context `{Postgres}.

Lemma publish_policies publication key retention policies db job :
  validatePublication publication key retention = true ->
  target_policies (sort_strings (ev_TargetAppIDs (pub_Event publication))) db = Some policies ->
  job ∈ mark_callback policies <$> pub_Jobs publication ->
  exists a, policy_of policies (job_TargetAppID job) = Some a
    /\ app_rows db !! job_TargetAppID job = Some a /\ app_Enabled a = true
    /\ (exists sink, served_by a sink) /\ (job_Callback job = true <-> served_by a SinkCallback).
Proof using Type.
  intros Hvalid Hpol (j & -> & Hj)%list_elem_of_fmap.
  destruct (validate_jobs _ _ _ _ Hvalid Hj) as [Hin _]. apply elem_of_sort in Hin.
  destruct (target_policies_spec _ _ _ _ Hpol Hin) as (a & Ha & Happ & Hen & Hne). exists a. simpl.
  rewrite Ha. split_and!; [done|done|done| |apply callback_served].
  destruct (enabledSinks a) as [|sink l] eqn:Hs; [done|]. exists sink. apply enabled_served.
  exists 0%nat. by rewrite Hs.
Qed.

(** C15: a new publication is stored as a whole. It keeps the jobs it came with,
    marked with whether they have a callback, each for an enabled target that some
    sink serves. The deliveries are those that were there and, for every job and
    every sink that serves its target, one that is pending, without attempts, under
    the identifier derived from the job; the outbox messages are those that were
    there and one for each of these deliveries, open, unattempted, on the subject of
    the target and sink; the event is added to the events and the publication is
    recorded under its key until the retention of keys is over. Deliveries, outbox,
    events, idempotency records, applications and attempts hold nothing else new. *)
Theorem publish_stores clock publication key retention w p w' :
  PublishEvent clock publication key retention w = (Ok (p, false), w') ->
  let event := pub_Event publication in
  pub_Event p = event
  /\ Forall2 (fun job job' => job' = with_callback (job_Callback job') job)
       (pub_Jobs publication) (pub_Jobs p)
  /\ (forall job, job ∈ pub_Jobs p -> exists a,
        app_rows (w_db w) !! job_TargetAppID job = Some a /\ app_Enabled a = true
        /\ (exists sink, served_by a sink)
        /\ (job_Callback job = true <-> served_by a SinkCallback))
  /\ (forall k r, deliveries (w_db w') !! k = Some r <->
        deliveries (w_db w) !! k = Some r
        \/ exists job sink, delivers (w_db w) p job sink k /\ r = fresh_delivery event job k sink)
  /\ (forall k o, outbox (w_db w') !! k = Some o <->
        outbox (w_db w) !! k = Some o
        \/ exists job sink id subject, delivers (w_db w) p job sink id
             /\ deliverySubject (job_TargetAppID job) sink = Ok subject
             /\ k = (outboxIdentities id).1 /\ o = fresh_message event id subject)
  /\ (exists row, event_row event (ret_Event retention) = Some row
        /\ events (queue_db (w_db w)) !! ev_ID event = None
        /\ events (queue_db (w_db w')) = <[ev_ID event := row]> (events (queue_db (w_db w))))
  /\ event_idempotency (w_db w')
     = <[publication_key publication key
         := mkIdempotency (ev_ID event) (wire_publication p) (ev_CreatedAt event)
              (ev_CreatedAt event + ret_Idempotency retention)]> (event_idempotency (w_db w))
  /\ app_rows (w_db w') = app_rows (w_db w)
  /\ delivery_attempts (w_db w') = delivery_attempts (w_db w).
Proof.
  intros [Hvalid Hrun]%publish_effect event. unfold published in Hrun. simpl in Hrun.
  destruct Hrun as (Hexp & policies & row & db1 & db2 & Hpol & Hp & Hrow & Hnone & Hev & Hd & Ho & Hat
    & Happ & Hid & Hs & _ & Hdb).
  rewrite (target_policies_ext _ _ (w_db w)) in Hpol by done.
  pose proof (fun job => publish_policies _ _ _ _ _ job Hvalid Hpol) as Hjobs.
  assert (pub_Jobs p = mark_callback policies <$> pub_Jobs publication) as Hpj by by subst p.
  assert (forall job sink id, mkPlanned job id sink ∈ plan policies (pub_Jobs p)
    <-> delivers (w_db w) p job sink id) as Hplan.
  { intros job sink id. rewrite plan_spec. unfold delivers. simpl. rewrite Hpj.
    split; intros (Hj & a & Ha & Hrest); (split; [done|]); exists a;
      destruct (Hjobs _ Hj) as (b & Hb & Hb' & Hrest'); naive_solver. }
  pose proof (stored_old _ _ _ _ Hs) as [Hold1 Hold2]. rewrite Hd in Hold1. rewrite Ho in Hold2.
  pose proof (stored_rest _ _ _ _ Hs) as (Hq & Hi & Ha & Hatt).
  pose proof (stored_only _ _ _ _ Hs) as [Hnew1 Hnew2]. rewrite Hd in Hnew1. rewrite Ho in Hnew2.
  simpl in *. rewrite Hdb. simpl. split_and!.
  - by subst p.
  - rewrite Hpj. apply Forall2_fmap_r, Forall_Forall2_diag, Forall_forall. done.
  - intros job Hj. rewrite Hpj in Hj. destruct (Hjobs job Hj) as (a & _ & Hrest). by exists a.
  - intros k r. split.
    + intros [Hk|([job id sink] & Hq' & -> & ->)]%Hnew1; [by left|right].
      exists job, sink. split; [by apply Hplan|done].
    + intros [Hk|(job & sink & Hdel%Hplan & ->)]; [by eapply lookup_weaken|].
      exact (proj1 (stored_planned _ _ _ _ _ Hs Hdel)).
  - intros k o. split.
    + intros [Hk|([job id sink] & subject & Hq' & Hsub & -> & ->)]%Hnew2; [by left|right].
      exists job, sink, id, subject. split; [by apply Hplan|done].
    + intros [Hk|(job & sink & id & subject & Hdel%Hplan & Hsub & -> & ->)];
        [by eapply lookup_weaken|].
      destruct (stored_planned _ _ _ _ _ Hs Hdel) as (_ & s & Hs' & Hout). simpl in Hs'.
      assert (s = subject) as -> by congruence. exact Hout.
  - exists row. rewrite Hq. done.
  - rewrite Hi, Hid, insert_delete_eq. by subst p.
  - congruence.
  - congruence.
Qed.

(** Publishing is idempotent. While the key of a publication is retained,
    publishing under it again, whatever the new publication says, returns the stored
    publication as a replay and changes nothing, and so does looking it up. *)
Theorem publish_idempotent clock publication key retention w p w' clock2 publication2 retention2 lk :
  PublishEvent clock publication key retention w = (Ok (p, false), w') ->
  clock2 < ev_CreatedAt (pub_Event publication) + ret_Idempotency retention ->
  validatePublication publication2 key retention2 = true ->
  ev_SourceAppID (pub_Event publication2) = ev_SourceAppID (pub_Event publication) ->
  PublishEvent clock2 publication2 key retention2 (mkWorld (w_db w') [] lk)
    = (Ok (wire_publication p, true), mkWorld (w_db w') [] lk)
  /\ FindPublication clock2 (ev_SourceAppID (pub_Event publication)) key (mkWorld (w_db w') [] lk)
    = (Ok (wire_publication p), mkWorld (w_db w') [] lk).
Proof.
  intros [_ Hrun]%publish_effect Hclock Hvalid2 Hsrc. unfold published in Hrun. simpl in Hrun.
  destruct Hrun as (_ & policies & row & db1 & db2 & _ & Hp & _ & _ & _ & _ & _ & _ & _ & _
    & _ & _ & Hdb).
  assert (event_idempotency (w_db w') !! publication_key publication key
          = Some (idempotency_row p retention)) as Hk by (rewrite Hdb; apply lookup_insert_eq).
  assert (pub_Event p = pub_Event publication) as Hev by by subst p.
  unfold publication_key in Hk. clear Hdb. destruct w' as [db fs lk']. simpl in *.
  assert ((ev_CreatedAt (pub_Event publication) + ret_Idempotency retention <=? clock2) = false) as Hlt by lia.
  assert ((clock2 <? ev_CreatedAt (pub_Event publication) + ret_Idempotency retention) = true) as Hlt' by lia.
  split.
  - unfold PublishEvent. rewrite Hvalid2. cbn [negb]. run_free. rewrite Hsrc, Hk.
    cbn [ik_expires_at idempotency_row]. rewrite Hev, Hlt, Hk. reflexivity.
  - unfold FindPublication. run_free. rewrite Hk. cbn [ik_expires_at ik_publication idempotency_row].
    rewrite Hev, Hlt'. reflexivity.
Qed.

End claims.
