(* ===== verification/DeliveryClaims.v ===== *)
(** * Deliveries: theorems

    The state machine of deliveries over every operation, exclusive assignments,
    and what the acknowledgement of a consumer means. *)

From Stdlib Require Import Ascii String.
From S2P Require Import Prelude GoLib Crypto Json Domain QueueSchema DeliverySchema.
From S2P Require Import DeliveryStore DeliveryEffects CallbackStore CallbackEffects DeliverySystem.
From S2P Require Import PublishStore PublishEffects AdminStore AdminEffects.

(** ** The system *)

Section system.
Context `{Postgres} (Decrypt : string -> option string).

(** The operations that write deliveries, outbox messages and attempts. *)
Inductive RelayOp :=
| OpPublish (clock : Z) (publication : Publication) (key : string) (retention : EventRetention)
| OpAssign (id target connection token : string) (generation now lease maxProcessing : Z)
| OpAck (id target connection token : string) (generation now : Z)
| OpRelease (id target connection token : string) (generation now : Z)
| OpProgress (id target connection token : string) (generation now lease : Z)
| OpClaim (now staleBefore : Z) (token : string) (limit : Z)
| OpBegin (id token : string) (now maxAttempts : Z)
| OpMark (id token : string) (now : Z)
| OpRetry (clock : Z) (id token : string) (availableAt : Z) (reason : string)
| OpFail (id token : string) (now : Z) (reason : string)
| OpBeginCallback (id : string) (generation : Z) (token : string) (now lease : Z)
| OpFinishCallback (id : string) (generation : Z) (token : string) (attempt : Z)
    (transition : CallbackAttemptTransition)
| OpDLQ (id : string) (generation now : Z)
| OpReplay (clock : Z) (command : ReplayCommand).

Definition discard {A} (m : M_relay A) : M_relay unit := m;; mret tt.
Definition run_op (op : RelayOp) : M_relay unit :=
  match op with
  | OpPublish clock p key retention => discard (PublishEvent clock p key retention)
  | OpAssign id target c t g now lease most =>
      discard (AssignStreamDelivery id target c t g now lease most)
  | OpAck id target c t g now => AcknowledgeStreamDelivery id target c t g now
  | OpRelease id target c t g now => ReleaseStreamDelivery id target c t g now
  | OpProgress id target c t g now lease => ProgressStreamDelivery id target c t g now lease
  | OpClaim now stale token limit => discard (ClaimOutbox now stale token limit)
  | OpBegin id token now most => discard (BeginOutboxPublish id token now most)
  | OpMark id token now => MarkOutboxDispatched id token now
  | OpRetry clock id token at_ reason => RetryOutbox clock id token at_ reason
  | OpFail id token now reason => FailOutbox id token now reason
  | OpBeginCallback id g token now lease =>
      discard (BeginCallbackAttempt Decrypt id g token now lease)
  | OpFinishCallback id g token attempt t => FinishCallbackAttempt id g token attempt t
  | OpDLQ id g now => MarkCallbackDLQPublished id g now
  | OpReplay clock command => discard (ReplayAdminDeadLetters clock command)
  end.

(** One operation, whatever calls of it fail and whatever rows others hold, or a
    change of the tables that the operations only read. *)
Inductive relay_trans (db : RelayDB) : RelayDB -> Prop :=
| trans_op op faults locked : relay_trans db (w_db (run_op op (mkWorld db faults locked)).2)
| trans_other db' :
    deliveries db' = deliveries db -> outbox db' = outbox db ->
    delivery_attempts db' = delivery_attempts db -> relay_trans db db'.

Definition relay_initial (db : RelayDB) : Prop :=
  deliveries db = ∅ /\ outbox db = ∅ /\ delivery_attempts db = ∅.
Definition relay_reachable (db : RelayDB) : Prop :=
  exists db0, relay_initial db0 /\ rtc relay_trans db0 db.

Lemma initial_inv db : relay_initial db -> relay_inv db.
Proof.
  intros (Hd & Ho & Ha). split; rewrite ?Hd, ?Ho, ?Ha; intros; simplify_map_eq.
Qed.

Lemma relay_discard_keeps {A} (m : M_relay A) : keeps relay_step m -> keeps relay_step (discard m).
Proof. intros Hm. unfold discard. keeps_solve. done. Qed.

Lemma relay_op_keeps op : keeps relay_step (run_op op).
Proof.
  destruct op; simpl; try apply relay_discard_keeps;
    auto using publish_event_keeps, assign_keeps, ack_keeps, release_keeps, progress_keeps,
      claim_keeps, begin_keeps, mark_keeps, retry_keeps, fail_keeps, begin_callback_keeps,
      finish_callback_keeps, dlq_keeps, admin_replay_keeps.
Qed.

Lemma trans_step db db' : relay_trans db db' -> relay_step db db'.
Proof.
  intros [op faults locked|db1 Hd Ho Ha].
  - exact (relay_op_keeps op (mkWorld db faults locked)).
  - by apply recorded_step.
Qed.

Lemma reaches_step db db' : rtc relay_trans db db' -> relay_step db db'.
Proof. induction 1; [reflexivity|]. etransitivity; [by apply trans_step|done]. Qed.

Lemma reachable_inv db : relay_reachable db -> relay_inv db.
Proof. intros (db0 & Hi%initial_inv & Hr%reaches_step). by apply Hr. Qed.

(** C11: whatever operations run, in whatever order, whichever of their calls
    fail, every reachable database satisfies the invariant of the delivery tables
    (each row meets the constraints of the schema, a stream delivery has no
    callback attempt and a callback delivery no assignment and at most six
    attempts, each delivery has exactly one outbox message, of its generation), and
    from there a delivery or message is never removed and keeps its identity.
    Within a generation attempts do not fall, nothing becomes pending again, a
    settled delivery (acknowledged or a dead letter, with no callback attempt
    running) keeps its state, and a message that was dispatched or given up stays
    so. Generations do not fall (an operator's replay starts one), and a settled
    acknowledged delivery keeps its generation. A delivery that is not settled may
    go back: the mark of the dispatcher takes a delivered one to dispatched. *)
Theorem delivery_invariant db db' :
  relay_reachable db -> rtc relay_trans db db' ->
  relay_inv db' /\ all_step row_step (deliveries db) (deliveries db')
  /\ all_step outbox_step (outbox db) (outbox db').
Proof. intros Hinv%reachable_inv Hr%reaches_step. by apply Hr. Qed.

End system.

(** ** Assignments are exclusive *)

Lemma assign_quiet id target c t g now lease most :
  quiet (AssignStreamDelivery id target c t g now lease most).
Proof. unfold AssignStreamDelivery, insert_lifecycle. quiet_solve. Qed.

(** The row that an assignment leaves. *)
Lemma assigned_row_spec id target c t g now lease most db lk a w' :
  AssignStreamDelivery id target c t g now lease most (mkWorld db [] lk)
    = (Ok (a, DeliveryAssigned), w') ->
  relay_inv db ->
  exists r db', w' = mkWorld db' [] lk /\ relay_inv db' /\ deliveries db' !! id = Some r
    /\ stream_row target r = true /\ dr_generation r = g /\ is_final (dr_status r) = false
    /\ 0 < dr_attempts r /\ row_ok r
    /\ dr_assignment r
       = mkAssignment (Some c) (Some t) (Some now) (Some (now + lease)) (Some (now + most)).
Proof.
  intros Hrun Hinv. pose proof (quiet_world _ _ _ _ _ (assign_quiet _ _ _ _ _ _ _ _) Hrun) as Hw.
  pose proof (assign_keeps id target c t g now lease most (mkWorld db [] lk)) as Hk.
  rewrite Hrun in Hk. destruct (Hk Hinv) as (Hinv' & _). simpl in Hinv'.
  apply assign_effect in Hrun as (r & Hr & Hs & Hg & Hl & _ & Hf & _ & l & Hdb).
  simpl in Hr, Hdb. eexists _, _. split; [exact Hw|]. split; [done|].
  rewrite Hdb. simpl. rewrite lookup_insert_eq. split; [done|].
  pose proof (ri_row _ Hinv _ _ Hr) as Hok. pose proof (ro_check _ Hok) as Hc.
  unfold row_check in Hc. apply andb_true_iff in Hc as [[[_ _]%andb_true_iff Hc]%andb_true_iff _].
  bool_to_prop. split_and!; try done.
  - simpl. lia.
  - eapply ri_row; [exact Hinv'|]. rewrite Hdb. simpl. apply lookup_insert_eq.
Qed.

Section holder.
Context (id target : string) (g : Z) (db : RelayDB) (lk : gset string) (r : StreamRow).
Hypothesis Hr : deliveries db !! id = Some r.
Hypothesis Hstream : stream_row target r = true.

(** Whoever does not hold the assignment is refused. *)
Lemma ack_refused c t now :
  null_eq (as_connection_id (dr_assignment r)) c && null_eq (as_token (dr_assignment r)) t = false ->
  AcknowledgeStreamDelivery id target c t g now (mkWorld db [] lk)
    = (Err StoreConflict, mkWorld db [] lk).
Proof.
  intros Hno. unfold AcknowledgeStreamDelivery, update_with_lifecycle, update_row. run_free.
  rewrite Hr. unfold holds_assignment. rewrite Hstream. cbn [andb].
  rewrite <- !andb_assoc, (andb_assoc (null_eq _ c)), Hno. cbn [andb Z.eqb]. rewrite Hr.
  rewrite Hstream. cbn [negb]. rewrite <- !andb_assoc, Hno, !andb_false_r. done.
Qed.

Lemma holds_other c t now :
  null_eq (as_connection_id (dr_assignment r)) c && null_eq (as_token (dr_assignment r)) t = false ->
  holds_assignment target c t g now r = false.
Proof.
  intros Hno. unfold holds_assignment. rewrite Hstream. cbn [andb].
  by rewrite <- !andb_assoc, (andb_assoc (null_eq _ c)), Hno.
Qed.

Lemma release_refused c t now :
  null_eq (as_connection_id (dr_assignment r)) c && null_eq (as_token (dr_assignment r)) t = false ->
  ReleaseStreamDelivery id target c t g now (mkWorld db [] lk)
    = (Err StoreConflict, mkWorld db [] lk).
Proof.
  intros Hno. unfold ReleaseStreamDelivery, streamAssignmentError, update_with_lifecycle, update_row.
  run_free. rewrite Hr, holds_other by done. cbn [Z.eqb]. by rewrite Hr, Hstream.
Qed.

Lemma progress_refused c t now lease :
  0 < lease ->
  null_eq (as_connection_id (dr_assignment r)) c && null_eq (as_token (dr_assignment r)) t = false ->
  ProgressStreamDelivery id target c t g now lease (mkWorld db [] lk)
    = (Err StoreConflict, mkWorld db [] lk).
Proof.
  intros Hl Hno. unfold ProgressStreamDelivery, streamAssignmentError, update_row.
  destruct (lease <=? 0) eqn:E; [bool_to_prop; lia|]. run_free.
  rewrite Hr, holds_other by done. cbn [Z.eqb andb]. by rewrite Hr, Hstream.
Qed.

(** The holder of an unexpired assignment acknowledges. *)
Lemma ack_accepted c t now :
  holds_assignment target c t g now r = true -> row_ok r -> 0 < dr_attempts r ->
  exists l, AcknowledgeStreamDelivery id target c t g now (mkWorld db [] lk)
    = (Ok tt, mkWorld (append_lifecycle l (set_rows (<[id := ack_row now r]> (deliveries db)) db))
                [] lk).
Proof using Hr.
  clear Hstream. intros Hh Hok Ha. eexists. unfold AcknowledgeStreamDelivery, update_with_lifecycle, update_row.
  run_free. rewrite Hr, Hh.
  assert (row_check (ack_row now r) = true) as -> by exact (ro_check _ Hok).
  cbn [Z.eqb lc_attempt ack_row with_state dr_attempts].
  assert ((0 <? dr_attempts r) = true) as -> by lia. done.
Qed.

(** An unexpired assignment keeps the delivery from being assigned again. *)
Lemma assign_refused c t now lease most :
  id <> "" -> target <> "" -> c <> "" -> t <> "" -> 1 <= g -> 0 < lease <= most ->
  dr_generation r = g -> is_final (dr_status r) = false ->
  null_gt (as_expires_at (dr_assignment r)) now = true ->
  AssignStreamDelivery id target c t g now lease most (mkWorld db [] lk)
    = (Ok (empty_assignment, DeliveryAlreadyAssigned), mkWorld db [] lk).
Proof.
  intros Hid Ht Hc Htok Hg Hl Hgen Hf He. unfold AssignStreamDelivery.
  rewrite !bool_decide_eq_false_2 by done.
  assert ((g <? 1) = false) as -> by lia. assert ((lease <=? 0) = false) as -> by lia.
  assert ((most <? lease) = false) as -> by lia. cbn [orb]. run_free. rewrite Hr, Hstream. cbn [negb].
  rewrite Hgen, Z.eqb_refl, Hf, He. done.
Qed.
End holder.

(** C12: in the state that the assignment of a stream delivery to a connection leaves,
    at every time before that assignment expires nobody else is given it and the holder
    can acknowledge it, and at any time no other connection or token can acknowledge,
    release or prolong it. *)
Theorem assignment_exclusive id target c t g now lease most db lk a w' :
  relay_inv db ->
  AssignStreamDelivery id target c t g now lease most (mkWorld db [] lk)
    = (Ok (a, DeliveryAssigned), w') ->
  (forall c2 t2 now2 lease2 most2,
     id <> "" -> target <> "" -> c2 <> "" -> t2 <> "" -> 1 <= g -> 0 < lease2 <= most2 ->
     now2 < now + lease ->
     AssignStreamDelivery id target c2 t2 g now2 lease2 most2 w'
       = (Ok (empty_assignment, DeliveryAlreadyAssigned), w'))
  /\ (forall c2 t2 now2 lease2, (c2, t2) <> (c, t) -> 0 < lease2 ->
       AcknowledgeStreamDelivery id target c2 t2 g now2 w' = (Err StoreConflict, w')
       /\ ReleaseStreamDelivery id target c2 t2 g now2 w' = (Err StoreConflict, w')
       /\ ProgressStreamDelivery id target c2 t2 g now2 lease2 w' = (Err StoreConflict, w'))
  /\ (forall now2, now2 < now + lease -> exists w2 r2,
       AcknowledgeStreamDelivery id target c t g now2 w' = (Ok tt, w2)
       /\ deliveries (w_db w2) !! id = Some r2 /\ dr_status r2 = DAcked).
Proof.
  intros Hinv Hrun. eapply assigned_row_spec in Hrun
    as (r & db' & -> & Hinv' & Hr & Hs & Hg & Hf & Ha & Hok & Has); [|done].
  split_and!.
  - intros. eapply assign_refused; try done. rewrite Has. simpl. lia.
  - intros c2 t2 now2 lease2 Hne Hl.
    assert (null_eq (as_connection_id (dr_assignment r)) c2
            && null_eq (as_token (dr_assignment r)) t2 = false) as Hno.
    { rewrite Has. unfold null_eq. simpl. apply andb_false_iff.
      destruct (decide (c2 = c)) as [->|]; [right|left]; apply bool_decide_eq_false; naive_solver. }
    split_and!; [by eapply ack_refused|by eapply release_refused|by eapply progress_refused].
  - intros now2 Hlt.
    destruct (ack_accepted id target g db' lk r Hr c t now2) as [l Hack]; [|done|done|].
    + unfold holds_assignment. rewrite Hs, Has, Hg, Hf, Z.eqb_refl. simpl. unfold null_eq.
      rewrite !bool_decide_eq_true_2 by done. simpl. bool_to_prop. split; [lia|done].
    + exists (mkWorld (append_lifecycle l (set_rows (<[id := ack_row now2 r]> (deliveries db')) db'))
                [] lk), (ack_row now2 r). split; [done|]. simpl. by rewrite lookup_insert_eq.
Qed.

(** Only the delivery itself has changed, to [r']. *)
Definition only_row (id : string) (r' : StreamRow) (db db' : RelayDB) : Prop :=
  db' ≃ set_rows (<[id := r']> (deliveries db)) db.

(** An operation of a consumer that fails has changed nothing. One that
    succeeds was made by the connection and token the delivery was assigned to,
    under its current generation, and changed nothing but that delivery:
    acknowledging leaves it acknowledged (once more when it already was),
    releasing frees it for another assignment, and prolonging moves the expiry
    into the future but never past the limit set when it was assigned. *)
Theorem assignee_operations id target c t g now lease w :
  (forall r w', AcknowledgeStreamDelivery id target c t g now w = (r, w') ->
     match r with
     | Err _ => w_db w' = w_db w
     | Ok _ => exists d, deliveries (w_db w) !! id = Some d /\ dr_generation d = g
         /\ as_connection_id (dr_assignment d) = Some c /\ as_token (dr_assignment d) = Some t
         /\ (dr_status d = DAcked /\ w_db w' = w_db w
             \/ is_final (dr_status d) = false /\ null_gt (as_expires_at (dr_assignment d)) now = true
                /\ only_row id (ack_row now d) (w_db w) (w_db w'))
     end)
  /\ (forall r w', ReleaseStreamDelivery id target c t g now w = (r, w') ->
     match r with
     | Err _ => w_db w' = w_db w
     | Ok _ => exists d d', deliveries (w_db w) !! id = Some d /\ dr_generation d = g
         /\ as_connection_id (dr_assignment d) = Some c /\ as_token (dr_assignment d) = Some t
         /\ null_gt (as_expires_at (dr_assignment d)) now = true
         /\ only_row id d' (w_db w) (w_db w') /\ dr_status d' = DRetrying
         /\ dr_assignment d' = no_assignment
     end)
  /\ (forall r w', ProgressStreamDelivery id target c t g now lease w = (r, w') ->
     match r with
     | Err _ => w_db w' = w_db w
     | Ok _ => exists d d' e max, deliveries (w_db w) !! id = Some d /\ dr_generation d = g
         /\ as_connection_id (dr_assignment d) = Some c /\ as_token (dr_assignment d) = Some t
         /\ only_row id d' (w_db w) (w_db w') /\ dr_status d' = dr_status d
         /\ as_max_expires_at (dr_assignment d) = Some max
         /\ as_max_expires_at (dr_assignment d') = Some max
         /\ as_expires_at (dr_assignment d') = Some e /\ now < e <= max /\ e <= now + lease
     end).
Proof.
  split_and!; intros r w' Hrun.
  - apply ack_effect in Hrun as [(-> & d & l & (Hd & Hh) & Hdb)|[(-> & Hdb & d & Hrest)|([e ->] & Hdb)]];
      [| |done].
    + apply holds_assignment_inv in Hh as (_ & _ & Hf & Hg & Hc & Ht & e & He & Hlt).
      exists d. split_and!; try done. right. rewrite He. simpl. split_and!; [done|lia|].
      unfold only_row. by rewrite Hdb, append_same.
    + destruct_and!. exists d. split_and!; try done. by left.
  - apply release_effect in Hrun as [(-> & d & l & (Hd & Hh) & Hdb)|([e ->] & Hdb)]; [|done].
    apply holds_assignment_inv in Hh as (_ & _ & Hf & Hg & Hc & Ht & e & He & Hlt).
    exists d, (release_assignment now d). rewrite He. simpl. split_and!; try done; [lia|].
    unfold only_row. by rewrite Hdb, append_same.
  - apply progress_effect in Hrun as [(-> & Hl & d & (Hd & Hh) & Hm & _ & Hdb)|([e ->] & Hdb)]; [|done].
    apply holds_assignment_inv in Hh as (_ & _ & Hf & Hg & Hc & Ht & e & He & Hlt).
    destruct (as_max_expires_at (dr_assignment d)) as [max|] eqn:Hmax; simpl in Hm; [|done].
    bool_to_prop. exists d, (progress_row now (now + lease) d), (Z.min (now + lease) max), max.
    simpl. rewrite Hmax. split_and!; try done; try lia.
    unfold only_row. by rewrite Hdb.
Qed.

(** ** The outbox *)

Section claims.
Context `{Postgres}.

#[local] Instance outbox_before_trans : Transitive outbox_before.
Proof.
  intros a b c. unfold outbox_before. intros Hab Hbc.
  destruct Hab as [?|[? [?|[? ?]]]], Hbc as [?|[? [?|[? ?]]]]; try (left; lia);
    right; (split; [lia|]); try (left; lia). right. split; [lia|]. by etransitivity.
Qed.
#[local] Instance outbox_before_total : Total outbox_before.
Proof.
  intros a b. unfold outbox_before.
  destruct (Z.lt_trichotomy (ob_available_at a) (ob_available_at b)) as [?|[?|?]]; [by left; left| |by right; left].
  destruct (Z.lt_trichotomy (ob_created_at a) (ob_created_at b)) as [?|[?|?]];
    [by left; right; auto| |right; right; auto].
  destruct (total text_le (ob_id a) (ob_id b)); [left|right]; right; auto.
Qed.

(** The messages offered to a claim, best first. *)
Definition offered (now stale : Z) (locked : gset string) (db : RelayDB) : list OutboxRow :=
  List.filter (fun o => negb (bool_decide (ob_id o ∈ locked)))
    (merge_sort outbox_before (select_where (outbox_candidate now stale) (outbox db))).

Lemma offered_sorted now stale locked db : StronglySorted outbox_before (offered now stale locked db).
Proof.
  unfold offered. eapply sorted_sublist; [apply filter_sublist|].
  apply (StronglySorted_merge_sort outbox_before).
Qed.

Lemma elem_of_offered now stale locked db o :
  o ∈ offered now stale locked db <->
  outbox_candidate now stale o = true /\ (ob_id o ∉ locked) /\ exists k, outbox db !! k = Some o.
Proof.
  unfold offered. rewrite elem_of_filter_list, merge_sort_Permutation, elem_of_select.
  bool_to_prop. naive_solver.
Qed.

Lemma offered_NoDup now stale locked db :
  relay_inv db -> NoDup (ob_id <$> offered now stale locked db).
Proof.
  intros Hinv. unfold offered. eapply sublist_NoDup; [|apply fmap_sublist, filter_sublist].
  rewrite merge_sort_Permutation. apply select_keys_NoDup. apply (ri_outbox_key _ Hinv).
Qed.

(** A message that a claim may take: neither dispatched nor given up, due, and not
    claimed, or claimed no later than the deadline for stale claims. *)
Definition ready_to_claim (now stale : Z) (o : OutboxRow) : Prop :=
  ob_dispatched_at o = None /\ ob_failed_at o = None /\ ob_available_at o <= now
  /\ forall at_, ob_claimed_at o = Some at_ -> at_ <= stale.
Lemma candidate_ready now stale o : outbox_candidate now stale o = true <-> ready_to_claim now stale o.
Proof.
  unfold outbox_candidate, open_outbox, ready_to_claim.
  destruct (ob_dispatched_at o), (ob_failed_at o), (ob_claimed_at o) as [c|]; simpl;
    bool_to_prop; naive_solver lia.
Qed.

(** The order of the claims: longest due first, then oldest, then by identifier. *)
Definition not_after (a b : OutboxRow) : Prop :=
  ob_available_at a <= ob_available_at b
  /\ (ob_available_at a = ob_available_at b -> ob_created_at a <= ob_created_at b
      /\ (ob_created_at a = ob_created_at b -> text_le (ob_id a) (ob_id b))).
Lemma before_not_after a b : outbox_before a b -> not_after a b.
Proof. unfold outbox_before, not_after. naive_solver lia. Qed.

(** The row [o] under the claim of [token], nothing else changed. *)
Definition claimed_by (now : Z) (token : string) (o : OutboxRow) : OutboxRow :=
  mkOutbox (ob_id o) (ob_event_id o) (ob_delivery_id o) (ob_subject o) (ob_payload o)
    (ob_message_id o) (ob_generation o) (ob_attempts o) (ob_available_at o)
    (Some now) (Some token) None None (ob_last_error o) (ob_created_at o) now.

(** C13: claiming. A claim takes at most as many messages as asked for, each once,
    only messages that are due, neither dispatched nor given up, and free or held
    past the deadline for stale claims; no such message that it left out, and that
    nobody held locked, has been due for longer, or as long and is older, and it
    leaves none out when it returns fewer than asked for; it returns what the rows
    hold and changes only their claim. A second claim whose deadline
    for stale claims lies before the first one takes none of the messages that the
    first has taken. *)
Theorem claim_exclusive now stale token limit w messages w' :
  relay_inv (w_db w) ->
  ClaimOutbox now stale token limit w = (Ok messages, w') ->
  Z.of_nat (length messages) <= limit /\ NoDup (om_ID <$> messages)
  /\ (forall m, m ∈ messages -> exists o, outbox (w_db w) !! om_ID m = Some o
        /\ ready_to_claim now stale o
        /\ outbox (w_db w') !! om_ID m = Some (claimed_by now token o)
        /\ m = mkMessage (ob_id o) (ob_event_id o) (ob_delivery_id o) (ob_subject o)
                 (ob_payload o) (ob_message_id o) token (ob_attempts o)
                 (isSome (ob_claimed_at o)) (ob_created_at o)
        /\ (forall k o', outbox (w_db w) !! k = Some o' -> ready_to_claim now stale o' ->
              k ∉ w_locked w -> k ∉ (om_ID <$> messages) -> not_after o o'))
  /\ (Z.of_nat (length messages) < limit -> forall k o, outbox (w_db w) !! k = Some o ->
        ready_to_claim now stale o -> k ∉ w_locked w -> k ∈ (om_ID <$> messages))
  /\ (forall k, k ∉ (om_ID <$> messages) -> outbox (w_db w') !! k = outbox (w_db w) !! k)
  /\ deliveries (w_db w') = deliveries (w_db w)
  /\ (forall now2 stale2 token2 limit2 messages2 w2,
        stale2 < now -> ClaimOutbox now2 stale2 token2 limit2 w' = (Ok messages2, w2) ->
        forall m, m ∈ messages -> om_ID m ∉ (om_ID <$> messages2)).
Proof.
  intros Hinv Hrun. apply claim_effect in Hrun as (_ & Hlim & _ & -> & Hdb & _).
  set (sel := outbox_candidates now stale limit (w_locked w) (w_db w)) in *.
  assert (om_ID <$> (message_of token <$> sel) = ob_id <$> sel) as Hids
    by (rewrite <- list_fmap_compose; done).
  assert (sel = take (Z.to_nat limit) (offered now stale (w_locked w) (w_db w))) as Hsel by done.
  assert (forall o, o ∈ sel -> outbox (w_db w) !! ob_id o = Some o
    /\ outbox_candidate now stale o = true) as Hin.
  { intros o (Hc & _ & k & Hk)%outbox_candidate_inv. by rewrite (ri_outbox_key _ Hinv _ _ Hk). }
  assert (forall k, outbox (w_db w') !! k = (fun o => if bool_decide (ob_id o ∈ (ob_id <$> sel))
    then claim_outbox_row now token o else o) <$> outbox (w_db w) !! k) as Hlk.
  { intros k. rewrite Hdb. simpl. apply lookup_update_where. }
  rewrite Hids. split_and!.
  - rewrite length_fmap, Hsel, length_take. lia.
  - rewrite Hsel, fmap_take. eapply sublist_NoDup; [by apply offered_NoDup|apply sublist_take].
  - intros m (o & -> & Ho)%list_elem_of_fmap. destruct (Hin o Ho) as [Hk Hc]. exists o.
    apply candidate_ready in Hc as Hcl. split_and!; try done.
    + simpl. rewrite Hlk, Hk. simpl. rewrite bool_decide_eq_true_2 by by apply list_elem_of_fmap_2.
      unfold claim_outbox_row, with_outbox, claimed_by. by destruct Hcl as (-> & -> & _).
    + intros k o' Hk' Hc'%candidate_ready Hl Hni. apply before_not_after. pose proof (ri_outbox_key _ Hinv _ _ Hk') as Hid.
      rewrite Hsel in Ho. eapply sorted_take_drop; [apply (offered_sorted now stale)|exact Ho|].
      assert (o' ∈ offered now stale (w_locked w) (w_db w)) as Hof
        by (apply elem_of_offered; rewrite Hid; eauto).
      rewrite <- (take_drop (Z.to_nat limit) (offered _ _ _ _)), <- Hsel in Hof.
      apply elem_of_app in Hof as [Hof|Hof]; [|done]. destruct Hni. rewrite <- Hid.
      by apply list_elem_of_fmap_2.
  - rewrite length_fmap, Hsel, length_take. intros Hlt k o Hk Hc%candidate_ready Hl.
    rewrite take_ge by lia. pose proof (ri_outbox_key _ Hinv _ _ Hk) as <-.
    apply list_elem_of_fmap_2, elem_of_offered. eauto.
  - intros k Hni. rewrite Hlk. destruct (outbox (w_db w) !! k) as [o|] eqn:Hk; [|done]. simpl.
    rewrite bool_decide_eq_false_2; [done|]. by rewrite (ri_outbox_key _ Hinv _ _ Hk).
  - by rewrite Hdb.
  - intros now2 stale2 token2 limit2 messages2 w2 Hst Hrun2 m (o & -> & Ho)%list_elem_of_fmap.
    apply claim_effect in Hrun2 as (_ & _ & _ & -> & _).
    rewrite <- list_fmap_compose. intros (o2 & Hid & Ho2)%list_elem_of_fmap. simpl in Hid.
    apply outbox_candidate_inv in Ho2 as (Hc2 & _ & k & Hk).
    rewrite Hlk in Hk. apply fmap_Some in Hk as (o1 & Hk & ->).
    assert (ob_id (if bool_decide (ob_id o1 ∈ (ob_id <$> sel)) then claim_outbox_row now token o1
                   else o1) = ob_id o1) as Hid1 by by case_bool_decide.
    rewrite Hid1 in Hid. rewrite bool_decide_eq_true_2 in Hc2
      by (rewrite <- Hid; by apply list_elem_of_fmap_2).
    unfold outbox_candidate in Hc2. simpl in Hc2. bool_to_prop. naive_solver lia.
Qed.

End claims.
