(* ===== verification/Dispatcher.v ===== *)
(** * The outbox dispatcher ([outbox/dispatcher.go])

    Its loop, and what it promises: no accepted message is lost, a healthy dispatcher delivers what it claims, and
    the delay between retries doubles up to its bound. *)

From Stdlib Require Import Ascii String.
From S2P Require Import Prelude GoLib Crypto Json Domain QueueSchema DeliverySchema DeliveryStore Classify DeliveryEffects CallbackStore CallbackEffects DeliverySystem DeliveryClaims.

(** ** The dispatcher *)

Record Options := mkOptions {
  opt_BatchSize : Z;
  opt_ClaimTTL : Z;
  opt_BaseRetry : Z;
  opt_MaxRetry : Z;
  opt_MaxAttempts : Z;
  opt_MaxPendingAge : Z
}.

(** The configurations [NewDispatcher] accepts. *)
Definition validOptions (o : Options) : bool :=
  negb ((opt_BatchSize o <? 1) || (1000 <? opt_BatchSize o) || (opt_ClaimTTL o <=? 0)
        || (opt_BaseRetry o <=? 0) || (opt_MaxRetry o <? opt_BaseRetry o)
        || (opt_MaxAttempts o <? 1) || (opt_MaxPendingAge o <=? 0)).

(** The loop of [retryDelay]; [n] is the number of steps left, [delay *= 2] wraps
    as an [int64] does. *)
Fixpoint retry_steps (max : Z) (n : nat) (delay : Z) : Z :=
  match n with
  | O => if max <? delay then max else delay
  | S n' =>
      if negb (delay <? max) then (if max <? delay then max else delay)
      else if Z.quot max 2 <? delay then max
      else retry_steps max n' (wrap64 (delay * 2))
  end.
Definition retryDelay (o : Options) (attempt : Z) : Z :=
  retry_steps (opt_MaxRetry o) (Z.to_nat (attempt - 1)) (opt_BaseRetry o).

(** ** One run *)

Inductive RunError := RunOk | ErrStoreUnavailable | ErrPublishUnavailable.

(** The broker's answer to a message ([Some duplicate], or [None] for an error)
    and what other transactions commit between the call and the next statement. *)
Record Broker := mkBroker {
  br_publish : OutboxMessage -> option bool;
  br_others : OutboxMessage -> RelayDB -> RelayDB
}.

Section run.
Context `{Postgres} (options : Options) (broker : Broker) (clock : Z).

Definition meanwhile (message : OutboxMessage) (w : World RelayDB) : World RelayDB :=
  set_db (br_others broker message (w_db w)) w.

(** What is written after the broker has answered; [true] for a published message. *)
Definition after_publish (now : Z) (message : OutboxMessage) (attempt : Z) : M_relay bool :=
  match br_publish broker message with
  | None =>
      (if opt_MaxAttempts options <=? attempt
       then FailOutbox (om_ID message) (om_ClaimToken message) now "broker_unavailable"
       else RetryOutbox clock (om_ID message) (om_ClaimToken message)
              (now + retryDelay options attempt) "broker_unavailable");;
      mret false
  | Some _ => MarkOutboxDispatched (om_ID message) (om_ClaimToken message) now;; mret true
  end.

(** One message of the batch. *)
Definition dispatch_one (now : Z) (message : OutboxMessage) : M_relay bool :=
  started ← BeginOutboxPublish (om_ID message) (om_ClaimToken message) now
              (opt_MaxAttempts options);
  if ps_Exhausted started then mret false
  else fun w => after_publish now message (ps_Attempt started) (meanwhile message w).

(** The batch stops at the first failure of the store. *)
Fixpoint dispatch_all (now : Z) (messages : list OutboxMessage) (completed : Z) (failed : bool)
    (w : World RelayDB) : (Z * RunError) * World RelayDB :=
  match messages with
  | [] => ((completed, if failed then ErrPublishUnavailable else RunOk), w)
  | message :: messages' =>
      match dispatch_one now message w with
      | (Err _, w') => ((completed, ErrStoreUnavailable), w')
      | (Ok true, w') => dispatch_all now messages' (completed + 1) failed w'
      | (Ok false, w') => dispatch_all now messages' completed true w'
      end
  end.

(** [token] is what [NewToken] returned, [None] for its error. *)
Definition RunOnce (token : option string) (now : Z) (w : World RelayDB)
    : (Z * RunError) * World RelayDB :=
  match token with
  | None => ((0, ErrStoreUnavailable), w)
  | Some token =>
      if bool_decide (token = "") then ((0, ErrStoreUnavailable), w)
      else match ClaimOutbox now (now - opt_ClaimTTL options) token (opt_BatchSize options) w with
           | (Err _, w') => ((0, ErrStoreUnavailable), w')
           | (Ok messages, w') => dispatch_all now messages 0 false w'
           end
  end.

End run.

(** ** Readiness *)

Inductive PingResult := PingOk | PingStoreUnavailable | PingOutboxTerminal | PingOutboxLag.
Definition ping_stats (options : Options) (now : Z) (stats : OutboxStats) : PingResult :=
  if 0 <? stats_Failed stats then PingOutboxTerminal
  else match stats_OldestPendingAt stats with
       | Some oldest => if opt_MaxPendingAge options <? Classifier.time_Sub now oldest then PingOutboxLag else PingOk
       | None => PingOk
       end.
Definition Ping (options : Options) (now : Z) (w : World RelayDB) : PingResult :=
  match OutboxStats_ w with
  | (Ok stats, _) => ping_stats options now stats
  | (Err _, _) => PingStoreUnavailable
  end.

(** ** The delay between retries *)

(** Doubling from the base, bounded by the maximum, without overflow. *)
Lemma retry_steps_spec max n delay :
  0 < delay <= max -> max < 2 ^ 63 ->
  retry_steps max n delay = Z.min max (delay * 2 ^ Z.of_nat n).
Proof.
  intros Hd Hmax. revert delay Hd. induction n as [|n IH]; intros delay Hd; simpl retry_steps.
  - rewrite Z.mul_1_r. case_match; bool_to_prop; lia.
  - assert (0 < 2 ^ Z.of_nat n) as Hpos by (apply Z.pow_pos_nonneg; lia).
    assert (delay * 2 ^ Z.of_nat (S n) = delay * 2 * 2 ^ Z.of_nat n) as Hpow
      by (rewrite Nat2Z.inj_succ, Z.pow_succ_r by lia; ring).
    destruct (delay <? max) eqn:Hlt; simpl; bool_to_prop.
    2:{ assert (delay = max) as -> by lia. rewrite Z.ltb_irrefl, Hpow, Z.min_l; [done|nia]. }
    destruct (Z.quot max 2 <? delay) eqn:Hhalf; bool_to_prop.
    + rewrite Z.quot_div_nonneg in Hhalf by lia. rewrite Hpow, Z.min_l; [done|].
      pose proof (Z.mod_pos_bound max 2 ltac:(lia)). pose proof (Z.div_mod max 2 ltac:(lia)). nia.
    + rewrite Z.quot_div_nonneg in Hhalf by lia.
      pose proof (Z.mod_pos_bound max 2 ltac:(lia)). pose proof (Z.div_mod max 2 ltac:(lia)).
      rewrite wrap64_small by lia. rewrite IH by lia. by rewrite Hpow.
Qed.

(** ** Messages are kept *)

Section kept.
(** The identifiers of the messages that the broker took, and the bound on attempts. *)
Context (accepted : string -> Prop) (most : Z).

(** What may become of a message that is neither dispatched nor given up, unless an
    operator replaces it by one of a higher generation. *)
Record kept (o o' : OutboxRow) : Prop := {
  kept_step : outbox_step o o';
  kept_open : open_outbox o = true -> ob_generation o' = ob_generation o ->
    open_outbox o' = true
    \/ is_Some (ob_dispatched_at o') /\ accepted (ob_id o)
    \/ is_Some (ob_failed_at o') /\ most <= ob_attempts o'
}.

#[global] Instance kept_preorder : PreOrder kept.
Proof.
  split.
  - intros o. split; [reflexivity|auto].
  - intros o1 o2 o3 [S1 O1] [S2 O2]. split; [by etransitivity|]. intros H1 Hg.
    pose proof (ot_generation _ _ S1). pose proof (ot_generation _ _ S2).
    assert (ob_generation o2 = ob_generation o1 /\ ob_generation o3 = ob_generation o2) as [G1 G2] by lia.
    assert (ob_id o2 = ob_id o1) as Hid by apply (ot_identity _ _ S1).
    pose proof (ot_move _ _ S2 G2) as M2. pose proof (os_attempts _ _ M2).
    destruct (open_outbox o2) eqn:E2.
    + rewrite <- Hid. by apply O2.
    + destruct (os_closed _ _ M2 E2) as [-> ->].
      destruct (O1 H1 G1) as [?|[?|[? ?]]]; [congruence|auto|].
      right; right. split; [done|lia].
Qed.

Definition keeps_messages (db db' : RelayDB) : Prop :=
  relay_inv db -> relay_inv db' /\ all_step kept (outbox db) (outbox db').
#[global] Instance keeps_messages_preorder : PreOrder keeps_messages.
Proof.
  split.
  - intros db H. split; [done|reflexivity].
  - intros db1 db2 db3 H12 H23 H1. destruct (H12 H1) as [H2 S2]. destruct (H23 H2) as [H3 S3].
    split; [done|by etransitivity].
Qed.

Lemma all_step_insert {A} (R : A -> A -> Prop) `{!PreOrder R} (t : gmap string A) k a b :
  t !! k = Some a -> R a b -> all_step R t (<[k := b]> t).
Proof using Type.
  intros Hk Hab k' x Hx. destruct (decide (k' = k)) as [->|Hne].
  - exists b. rewrite lookup_insert_eq. split; [done|congruence].
  - exists x. rewrite lookup_insert_ne by done. split; [done|reflexivity].
Qed.

(** Replacing a claimed message, while its delivery may change too. *)
Lemma keeps_message db db' id token o o' :
  claimed_outbox id token db = Some o -> relay_step db db' ->
  outbox db' = <[id := o']> (outbox db) ->
  ob_id o' = ob_id o -> ob_delivery_id o' = ob_delivery_id o -> ob_subject o' = ob_subject o ->
  ob_payload o' = ob_payload o -> ob_message_id o' = ob_message_id o ->
  ob_generation o' = ob_generation o -> ob_attempts o <= ob_attempts o' ->
  (open_outbox o' = true \/ is_Some (ob_dispatched_at o') /\ accepted id
   \/ is_Some (ob_failed_at o') /\ most <= ob_attempts o') ->
  keeps_messages db db'.
Proof using Type.
  intros (Ho & _ & Hd & Hf)%claimed_outbox_inv Hstep Hout ? ? ? ? ? ? ? Hcase Hinv.
  pose proof (ri_outbox_key _ Hinv _ _ Ho) as Hid.
  destruct (Hstep Hinv) as (Hinv' & _). split; [done|]. rewrite Hout.
  eapply all_step_insert; [apply _|done|].
  assert (open_outbox o = true) as Hop by (unfold open_outbox; by rewrite Hd, Hf).
  split; [by apply outbox_move_step, open_step|]. intros _ _. by rewrite Hid.
Qed.

Lemma claim_messages `{Postgres} now stale token limit :
  keeps keeps_messages (ClaimOutbox now stale token limit).
Proof using Type.
  apply (keeps_run keeps_messages). intros w [messages|e] w' Hrun;
    [|by rewrite (claim_err _ _ _ _ _ _ _ Hrun)].
  intros Hinv. pose proof (claim_keeps now stale token limit w) as Hk. rewrite Hrun in Hk.
  destruct (Hk Hinv) as (Hinv' & _ & Hout). split; [done|].
  apply claim_effect in Hrun as (_ & _ & _ & _ & Hdb & _). simpl in Hout. rewrite Hdb in *.
  simpl in *. intros k o Ho. destruct (Hout k o Ho) as (o' & Ho' & Hs). exists o'. split; [done|].
  split; [done|]. rewrite lookup_update_where, Ho in Ho'. simplify_eq/=. case_match; by left.
Qed.

Lemma begin_messages id token now : keeps keeps_messages (BeginOutboxPublish id token now most).
Proof using Type.
  apply (keeps_run keeps_messages). intros w r w' Hrun.
  pose proof (begin_keeps id token now most w) as Hk. rewrite Hrun in Hk. simpl in Hk.
  destruct r as [started|e]; apply begin_effect in Hrun; [|by rewrite Hrun].
  destruct Hrun as (o & Ho & Hrun).
  pose proof (claimed_outbox_inv _ _ _ _ Ho) as (_ & _ & Hd & Hf).
  destruct (ps_Exhausted started).
  - destruct Hrun as (Hm & rows' & _ & Hdb).
    eapply keeps_message; [exact Ho|exact Hk|by rewrite (outbox_proper _ _ Hdb)|try done..].
    right; right. by split.
  - destruct Hrun as (Hm & _ & Hdb).
    eapply keeps_message; [exact Ho|exact Hk|by rewrite Hdb|try done..]; simpl; [lia|].
    left. unfold open_outbox. simpl. by rewrite Hd, Hf.
Qed.

Lemma mark_messages id token now :
  accepted id -> keeps keeps_messages (MarkOutboxDispatched id token now).
Proof using Type.
  intros Hacc. apply (keeps_run keeps_messages). intros w r w' Hrun.
  pose proof (mark_keeps id token now w) as Hk. rewrite Hrun in Hk. simpl in Hk.
  destruct r as [[]|e]; apply mark_effect in Hrun; [|by rewrite Hrun].
  destruct Hrun as [(o & rows' & Ho & _ & Hdb)|(-> & _)]; [|reflexivity].
  eapply keeps_message; [exact Ho|exact Hk|by rewrite (outbox_proper _ _ Hdb)|try done..].
  right; left. by split.
Qed.

Lemma retry_messages clock id token available reason :
  keeps keeps_messages (RetryOutbox clock id token available reason).
Proof using Type.
  apply (keeps_run keeps_messages). intros w r w' Hrun.
  pose proof (retry_keeps clock id token available reason w) as Hk. rewrite Hrun in Hk. simpl in Hk.
  destruct r as [[]|e]; apply retry_effect in Hrun; [|by rewrite Hrun].
  destruct Hrun as (o & rows' & Ho & _ & Hdb).
  pose proof (claimed_outbox_inv _ _ _ _ Ho) as (_ & _ & Hd & Hf).
  eapply keeps_message; [exact Ho|exact Hk|by rewrite Hdb|try done..].
  left. unfold open_outbox. simpl. by rewrite Hd, Hf.
Qed.

(** Giving up is for messages that have used up their attempts. *)
Lemma fail_messages id token now reason w :
  (forall o, outbox (w_db w) !! id = Some o -> most <= ob_attempts o) ->
  keeps_messages (w_db w) (w_db (FailOutbox id token now reason w).2).
Proof using Type.
  intros Hmost. pose proof (fail_keeps id token now reason w) as Hk.
  destruct (FailOutbox id token now reason w) as [r w'] eqn:Hrun. simpl in Hk |- *.
  destruct r as [[]|e]; apply fail_effect in Hrun; [|by rewrite Hrun].
  destruct Hrun as (o & rows' & Ho & _ & Hdb).
  eapply keeps_message; [exact Ho|exact Hk|by rewrite (outbox_proper _ _ Hdb)|try done..].
  right; right. split; [done|]. apply claimed_outbox_inv in Ho as [Ho _]. simpl. auto.
Qed.

(** What happens to a message that an operator has replaced meanwhile is no matter. *)
Lemma keeps_replaced db1 db2 db3 id o x :
  keeps_messages db1 db2 -> relay_step db2 db3 ->
  (forall k, k <> id -> outbox db3 !! k = outbox db2 !! k) ->
  outbox db1 !! id = Some o -> outbox db2 !! id = Some x -> ob_generation o < ob_generation x ->
  keeps_messages db1 db3.
Proof using Type.
  intros H12 H23 Hother Ho Hx Hlt Hinv1. destruct (H12 Hinv1) as [Hinv2 Hk12].
  destruct (H23 Hinv2) as (Hinv3 & _ & Hk23). split; [done|]. intros k o1 Hk.
  destruct (Hk12 k o1 Hk) as (o2 & Hk2 & Hkept). destruct (decide (k = id)) as [->|Hne].
  - destruct (Hk23 id o2 Hk2) as (o3 & Hk3 & Hs). exists o3. split; [done|]. simplify_eq.
    split; [etransitivity; [apply Hkept|done]|]. intros _ Hg. pose proof (ot_generation _ _ Hs). lia.
  - exists o2. rewrite Hother by done. done.
Qed.

Lemma fail_other id token now reason w k :
  k <> id -> outbox (w_db (FailOutbox id token now reason w).2) !! k = outbox (w_db w) !! k.
Proof using Type.
  intros Hne. destruct (FailOutbox id token now reason w) as [r w'] eqn:Hrun. simpl.
  destruct r as [[]|e]; apply fail_effect in Hrun; [|by rewrite Hrun].
  destruct Hrun as (o & rows' & _ & _ & Hdb). rewrite (outbox_proper _ _ Hdb). simpl.
  by rewrite lookup_insert_ne.
Qed.

End kept.

(** ** One run of the dispatcher *)

Section run.
Context `{Postgres} (options : Options) (broker : Broker) (clock : Z).

(** The broker took a message with this identifier. *)
Definition accepted (id : string) : Prop :=
  exists m, om_ID m = id /\ is_Some (br_publish broker m).
Abbreviation safe := (keeps_messages accepted (opt_MaxAttempts options)).

(** Other transactions run by the same rules. *)
Hypothesis others_safe : forall m db, safe db (br_others broker m db).

Lemma then_ret_db {A B} (m : M_relay A) (b : B) w : w_db ((m;; mret b) w).2 = w_db (m w).2.
Proof using Type. unfold mbind, M_bind. by destruct (m w) as [[]]. Qed.

Lemma dispatch_one_safe now message : keeps safe (dispatch_one options broker clock now message).
Proof using others_safe.
  intros w. unfold dispatch_one, mbind, M_bind.
  pose proof (begin_messages accepted (opt_MaxAttempts options) (om_ID message)
    (om_ClaimToken message) now w) as Hb.
  destruct (BeginOutboxPublish _ _ _ _ w) as [[started|e] w1] eqn:Hrun; simpl in Hb; [|done].
  etransitivity; [exact Hb|]. apply begin_effect in Hrun as (o & Ho & Hrun).
  destruct (ps_Exhausted started); [reflexivity|]. destruct Hrun as (Hlt & Hat & Hdb).
  set (w2 := meanwhile broker message w1).
  assert (safe (w_db w1) (w_db w2)) as Hw2 by apply others_safe.
  intros Hinv1. destruct (Hw2 Hinv1) as [Hinv2 Hkept]. revert Hinv1.
  change (safe (w_db w1) (w_db (after_publish options broker clock now message (ps_Attempt started) w2).2)).
  unfold after_publish. destruct (br_publish broker message) as [duplicate|] eqn:Hbr.
  { etransitivity; [exact Hw2|]. apply (keeps_bind safe); [|intros ?; apply (keeps_ret safe)].
    apply mark_messages. exists message. rewrite Hbr. eauto. }
  rewrite then_ret_db. destruct (opt_MaxAttempts options <=? ps_Attempt started) eqn:Hm.
  - bool_to_prop. set (o1 := attempt_outbox now (ob_attempts o + 1) o) in *.
    assert (outbox (w_db w1) !! om_ID message = Some o1) as Ho1 by (rewrite Hdb; apply lookup_insert_eq).
    destruct (Hkept _ _ Ho1) as (x & Hx & [Hst _]).
    destruct (decide (ob_generation x = ob_generation o1)) as [Hg|Hg].
    + etransitivity; [exact Hw2|]. apply fail_messages. intros y Hy. simplify_eq.
      pose proof (os_attempts _ _ (ot_move _ _ Hst Hg)) as Hle. simpl in Hle. lia.
    + eapply (keeps_replaced _ _ _ _ _ (om_ID message));
        [exact Hw2|apply fail_keeps|intros k; apply fail_other|exact Ho1|exact Hx|].
      pose proof (ot_generation _ _ Hst). lia.
  - etransitivity; [exact Hw2|].
    apply (retry_messages accepted (opt_MaxAttempts options)).
Qed.

Lemma dispatch_all_safe now messages completed failed w :
  safe (w_db w) (w_db (dispatch_all options broker clock now messages completed failed w).2).
Proof using others_safe.
  revert completed failed w. induction messages as [|m l IH]; intros completed failed w; simpl;
    [reflexivity|].
  pose proof (dispatch_one_safe now m w) as Hone.
  destruct (dispatch_one options broker clock now m w) as [[[]|e] w1]; simpl in *;
    [etransitivity; [exact Hone|apply IH]..|done].
Qed.

(** C14: no accepted message is lost. Whatever fails during a run of the
    dispatcher (calls to the database, the broker), and whatever the other
    transactions do in between by the same rules, every message of the outbox is
    still there afterwards; one that was waiting is still waiting, or was taken by
    the broker and is marked as dispatched, or has used up its attempts and is
    marked as given up. *)
Theorem run_once_keeps token now w result w' :
  relay_inv (w_db w) ->
  RunOnce options broker clock token now w = (result, w') ->
  relay_inv (w_db w')
  /\ all_step (kept accepted (opt_MaxAttempts options)) (outbox (w_db w)) (outbox (w_db w')).
Proof using others_safe.
  intros Hinv Hrun. cut (safe (w_db w) (w_db w')); [auto|]. clear Hinv.
  unfold RunOnce in Hrun. destruct token as [token|]; [|by simplify_eq].
  case_bool_decide; [by simplify_eq|].
  pose proof (claim_messages accepted (opt_MaxAttempts options) now (now - opt_ClaimTTL options)
    token (opt_BatchSize options) w) as Hc.
  destruct (ClaimOutbox _ _ _ _ w) as [[messages|e] w1]; simpl in Hc; [|by simplify_eq].
  etransitivity; [exact Hc|].
  pose proof (dispatch_all_safe now messages 0 false w1) as Hd. by rewrite Hrun in Hd.
Qed.

End run.

(** ** A healthy dispatcher *)

Section healthy.
Context `{Postgres} (options : Options) (broker : Broker) (clock : Z).
Hypothesis accepts : forall m, is_Some (br_publish broker m).
Hypothesis alone : forall m db, br_others broker m db = db.

(** A claimed message that has attempts left. *)
Definition due (message : OutboxMessage) (db : RelayDB) : Prop :=
  om_ID message <> "" /\ om_ClaimToken message <> ""
  /\ exists o, claimed_outbox (om_ID message) (om_ClaimToken message) db = Some o
     /\ ob_attempts o < opt_MaxAttempts options.

Lemma begin_run id token now most db lk o :
  id <> "" -> token <> "" -> 1 <= most -> claimed_outbox id token db = Some o ->
  ob_attempts o < most ->
  BeginOutboxPublish id token now most (mkWorld db [] lk)
    = (Ok (mkPublishStart (ob_attempts o + 1) false),
       mkWorld (set_outbox (<[id := attempt_outbox now (ob_attempts o + 1) o]> (outbox db)) db) [] lk).
Proof using Type.
  intros Hid Ht Hm Ho Hlt. pose proof (claimed_outbox_inv _ _ _ _ Ho) as [Hk _].
  unfold BeginOutboxPublish. rewrite !bool_decide_eq_false_2 by done.
  assert ((most <? 1) = false) as -> by lia. cbn [orb]. unfold update_outbox. run_free.
  rewrite Ho. assert ((most <=? ob_attempts o) = false) as -> by lia.
  by erewrite alter_insert_Some.
Qed.

Lemma dispatch_row_ok now r :
  row_ok r -> row_check (dispatch_row DDispatched (touched now r) r) = true.
Proof using Type. intros Hok. exact (ro_check _ Hok). Qed.

Lemma mark_run id token now db lk o :
  id <> "" -> token <> "" -> relay_inv db -> claimed_outbox id token db = Some o ->
  exists db', MarkOutboxDispatched id token now (mkWorld db [] lk) = (Ok tt, mkWorld db' [] lk)
    /\ outbox db' = <[id := dispatched_row now o]> (outbox db).
Proof using Type.
  intros Hid Ht Hinv Ho. pose proof (claimed_outbox_inv _ _ _ _ Ho) as [Hk _].
  destruct (ri_outbox_row _ Hinv _ _ Hk) as [r Hr]. pose proof (ri_row _ Hinv _ _ Hr) as Hok.
  unfold MarkOutboxDispatched. rewrite !bool_decide_eq_false_2 by done. cbn [orb].
  unfold release_outbox, insert_lifecycle_of. run_free. rewrite Ho. cbn [fst snd].
  unfold update_row. cbn [deliveries set_outbox]. rewrite Hr.
  destruct (is_final (dr_status r)); cbn [negb].
  - cbn [deliveries set_outbox]. rewrite Hr. eexists. split; [reflexivity|done].
  - rewrite (dispatch_row_ok now r Hok). cbn [deliveries set_outbox set_rows].
    rewrite lookup_insert_eq. eexists. split; [reflexivity|done].
Qed.

Lemma dispatch_one_run now message db lk :
  1 <= opt_MaxAttempts options -> relay_inv db -> due message db ->
  exists o' db', dispatch_one options broker clock now message (mkWorld db [] lk)
    = (Ok true, mkWorld db' [] lk)
    /\ relay_inv db' /\ outbox db' = <[om_ID message := o']> (outbox db)
    /\ ob_dispatched_at o' = Some now.
Proof using accepts alone.
  intros Hmost Hinv (Hid & Ht & o & Ho & Hlt).
  pose proof (claimed_outbox_inv _ _ _ _ Ho) as (Hk & Htok & Hd & Hf).
  set (o1 := attempt_outbox now (ob_attempts o + 1) o).
  set (db1 := set_outbox (<[om_ID message := o1]> (outbox db)) db).
  pose proof (begin_run (om_ID message) (om_ClaimToken message) now _ db lk o Hid Ht Hmost Ho Hlt) as Hb.
  pose proof (begin_keeps (om_ID message) (om_ClaimToken message) now (opt_MaxAttempts options)
    (mkWorld db [] lk)) as Hkeep. rewrite Hb in Hkeep. destruct (Hkeep Hinv) as (Hinv1 & _).
  assert (claimed_outbox (om_ID message) (om_ClaimToken message) db1 = Some o1) as Ho1.
  { unfold claimed_outbox. simpl. rewrite lookup_insert_eq. unfold null_eq, open_outbox. simpl.
    by rewrite Htok, Hd, Hf, bool_decide_eq_true_2. }
  destruct (mark_run _ _ now db1 lk o1 Hid Ht Hinv1 Ho1) as (db2 & Hm & Hout).
  pose proof (mark_keeps (om_ID message) (om_ClaimToken message) now (mkWorld db1 [] lk)) as Hkeep2.
  rewrite Hm in Hkeep2. destruct (Hkeep2 Hinv1) as (Hinv2 & _).
  exists (dispatched_row now o1), db2. split_and!; [|done| |done].
  - unfold dispatch_one, mbind, M_bind. rewrite Hb. cbn [ps_Exhausted ps_Attempt].
    unfold meanwhile, set_db. cbn [w_db w_faults w_locked]. rewrite alone.
    unfold after_publish. destruct (accepts message) as [dup ->]. unfold mbind, M_bind.
    change (set_outbox _ db) with db1. by rewrite Hm.
  - rewrite Hout. simpl. by rewrite insert_insert_eq.
Qed.

Lemma dispatch_all_run now messages completed failed db lk :
  1 <= opt_MaxAttempts options -> relay_inv db -> NoDup (om_ID <$> messages) ->
  (forall m, m ∈ messages -> due m db) ->
  exists db', dispatch_all options broker clock now messages completed failed (mkWorld db [] lk)
    = ((completed + Z.of_nat (length messages), if failed then ErrPublishUnavailable else RunOk),
       mkWorld db' [] lk)
    /\ (forall m, m ∈ messages -> exists o, outbox db' !! om_ID m = Some o
          /\ ob_dispatched_at o = Some now)
    /\ (forall k, k ∉ (om_ID <$> messages) -> outbox db' !! k = outbox db !! k).
Proof using accepts alone.
  intros Hmost. revert completed db. induction messages as [|m l IH];
    intros completed db Hinv Hnd Hdue; simpl.
  - exists db. rewrite Z.add_0_r. split_and!; [done| |done]. intros m Hm. by apply elem_of_nil in Hm.
  - apply NoDup_cons in Hnd as [Hm Hnd].
    destruct (dispatch_one_run now m db lk Hmost Hinv (Hdue m (list_elem_of_here _ _)))
      as (o1 & db1 & Hone & Hinv1 & Hout & Hdisp). rewrite Hone.
    destruct (IH (completed + 1) db1 Hinv1 Hnd) as (db2 & Hrun & Hall & Hrest).
    { intros m' Hm'. destruct (Hdue m' (list_elem_of_further _ _ _ Hm')) as (? & ? & o & Ho & ?).
      split_and!; [done..|]. exists o. split; [|done]. unfold claimed_outbox in *. rewrite Hout.
      rewrite lookup_insert_ne; [done|]. intros Heq. apply Hm. rewrite Heq.
      by apply list_elem_of_fmap_2. }
    exists db2. rewrite Hrun. split_and!.
    + f_equal. f_equal. lia.
    + intros m' [->|Hm']%elem_of_cons; [|auto]. exists o1.
      rewrite Hrest by done. rewrite Hout, lookup_insert_eq. done.
    + intros k Hk. rewrite not_elem_of_cons in Hk. destruct Hk as [Hne Hk].
      rewrite Hrest, Hout, lookup_insert_ne by done. done.
Qed.

Lemma claim_batch now token limit ttl db lk :
  1 <= limit <= 1000 -> 0 <= ttl -> token <> "" ->
  let batch := outbox_candidates now (now - ttl) limit lk db in
  ClaimOutbox now (now - ttl) token limit (mkWorld db [] lk)
    = (Ok (message_of token <$> batch),
       mkWorld (set_outbox (update_where (fun o => bool_decide (ob_id o ∈ (ob_id <$> batch)))
                  (claim_outbox_row now token) (outbox db)) db) [] lk).
Proof using Type.
  intros Hlim Httl Htok batch. unfold ClaimOutbox. rewrite bool_decide_eq_false_2 by done.
  assert ((limit <? 1) = false) as -> by lia. assert ((1000 <? limit) = false) as -> by lia.
  assert ((now <? now - ttl) = false) as -> by lia. done.
Qed.

Lemma batch_NoDup now stale limit lk db :
  relay_inv db -> NoDup (ob_id <$> outbox_candidates now stale limit lk db).
Proof using Type.
  intros Hinv. unfold outbox_candidates. rewrite fmap_take.
  eapply sublist_NoDup; [by apply (offered_NoDup now stale lk)|apply sublist_take].
Qed.

(** Progress. When the database answers, the broker takes the messages and
    nobody interferes, a run that finds messages with attempts left claims a batch,
    reports as many completions as it claimed, and leaves every message of the
    batch dispatched. *)
Theorem run_once_dispatches token now db lk :
  validOptions options = true -> token <> "" -> relay_inv db -> outbox db !! "" = None ->
  (forall k o, outbox db !! k = Some o -> ob_attempts o < opt_MaxAttempts options) ->
  let batch := outbox_candidates now (now - opt_ClaimTTL options) (opt_BatchSize options) lk db in
  exists db', RunOnce options broker clock (Some token) now (mkWorld db [] lk)
    = ((Z.of_nat (length batch), RunOk), mkWorld db' [] lk)
    /\ (forall o, o ∈ batch -> exists o', outbox db' !! ob_id o = Some o'
          /\ ob_dispatched_at o' = Some now)
    /\ (forall k, k ∉ (ob_id <$> batch) -> outbox db' !! k = outbox db !! k).
Proof using accepts alone.
  intros Hopt Htok Hinv Hempty Hleft batch. unfold validOptions in Hopt. bool_to_prop. destruct_and!.
  unfold RunOnce. rewrite bool_decide_eq_false_2 by done.
  destruct (ClaimOutbox now (now - opt_ClaimTTL options) token (opt_BatchSize options)
    (mkWorld db [] lk)) as [r w1] eqn:Hclaim.
  pose proof (claim_keeps now (now - opt_ClaimTTL options) token (opt_BatchSize options)
    (mkWorld db [] lk)) as Hk. rewrite Hclaim in Hk. destruct (Hk Hinv) as (Hinv1 & _). simpl in Hinv1.
  pose proof (claim_batch now token (opt_BatchSize options) (opt_ClaimTTL options) db lk
    ltac:(lia) ltac:(lia) Htok) as Hc.
  rewrite Hc in Hclaim. simplify_eq. fold batch in Hinv1 |- *. simpl in Hinv1.
  set (db1 := set_outbox _ db) in *.
  assert (forall o, o ∈ batch -> outbox db !! ob_id o = Some o) as Hin.
  { intros o (_ & _ & k & Ho)%outbox_candidate_inv. by rewrite (ri_outbox_key _ Hinv _ _ Ho). }
  destruct (dispatch_all_run now (message_of token <$> batch) 0 false db1 lk) as (db2 & Hrun & Hall & Hrest);
    [lia|done| | |].
  - rewrite <- list_fmap_compose. by apply batch_NoDup.
  - intros m (o & -> & Ho)%list_elem_of_fmap. pose proof (Hin o Ho) as Hk'.
    split_and!; [intros Heq; simpl in Heq; congruence|done|].
    exists (claim_outbox_row now token o). split; [|by apply (Hleft _ _ Hk')].
    unfold claimed_outbox. simpl. rewrite lookup_update_where, Hk'. simpl.
    rewrite bool_decide_eq_true_2 by (by apply list_elem_of_fmap_2).
    apply outbox_candidate_inv in Ho as (Hcand & _). unfold outbox_candidate in Hcand.
    apply andb_true_iff in Hcand as [[Hopen _]%andb_true_iff _].
    unfold null_eq. simpl. rewrite bool_decide_eq_true_2 by done.
    unfold open_outbox in *. simpl. by rewrite Hopen.
  - exists db2. rewrite Hrun, length_fmap. split_and!; [done| |].
    + intros o Ho. apply (Hall (message_of token o)). by apply list_elem_of_fmap_2.
    + intros k Hk'. rewrite Hrest by (by rewrite <- list_fmap_compose). simpl.
      rewrite lookup_update_where. destruct (outbox db !! k) as [o|] eqn:Ho; [|done]. simpl.
      by rewrite bool_decide_eq_false_2 by (by rewrite (ri_outbox_key _ Hinv _ _ Ho)).
Qed.

End healthy.

(** ** The delay between retries *)

(** The delay before the next attempt is the base doubled once per earlier
    attempt, bounded by the maximum; it is positive and no multiplication
    overflows, for every number of attempts. *)
Theorem retry_delay_spec options attempt :
  validOptions options = true -> opt_MaxRetry options < 2 ^ 63 -> 1 <= attempt ->
  retryDelay options attempt
    = Z.min (opt_MaxRetry options) (opt_BaseRetry options * 2 ^ (attempt - 1))
  /\ 0 < retryDelay options attempt <= opt_MaxRetry options.
Proof.
  intros Hopt Hmax Ha. unfold validOptions in Hopt. bool_to_prop. destruct_and!.
  unfold retryDelay. rewrite retry_steps_spec by lia. rewrite Z2Nat.id by lia.
  split; [done|]. assert (0 < 2 ^ (attempt - 1)) by (apply Z.pow_pos_nonneg; lia). nia.
Qed.

(** ** Two behaviours of the statements that close a message *)

(** Giving up a message whose delivery is assigned clears three of the five
    assignment columns, which the table refuses: the call fails and will fail
    again. *)
Theorem exhausted_assignment_blocks id token now most db lk o r :
  id <> "" -> token <> "" -> 1 <= most -> claimed_outbox id token db = Some o ->
  most <= ob_attempts o -> deliveries db !! ob_delivery_id o = Some r -> dr_status r <> DAcked ->
  is_Some (as_started_at (dr_assignment r)) ->
  BeginOutboxPublish id token now most (mkWorld db [] lk) = (Err DriverError, mkWorld db [] lk).
Proof.
  intros Hid Ht Hm Ho Hle Hr Hs [s Hst]. pose proof (claimed_outbox_inv _ _ _ _ Ho) as [Hk _].
  unfold BeginOutboxPublish. rewrite !bool_decide_eq_false_2 by done.
  assert ((most <? 1) = false) as -> by lia. cbn [orb].
  unfold update_outbox, dead_letter_delivery. run_free. rewrite Ho.
  assert ((most <=? ob_attempts o) = true) as -> by lia.
  unfold update_row. cbn [deliveries set_outbox]. rewrite Hr, bool_decide_eq_false_2 by done.
  cbn [negb]. assert (row_check (dead_letter_row now r) = false) as ->; [|done].
  unfold row_check, dead_letter_row. cbn [dr_assignment with_state]. rewrite Hst. done.
Qed.

(** The dispatch of a message is recorded on a delivery that the callback worker
    has already delivered: it is then attempted again. *)
Theorem dispatch_reopens_delivered id token now db lk o r :
  id <> "" -> token <> "" -> relay_inv db -> claimed_outbox id token db = Some o ->
  deliveries db !! ob_delivery_id o = Some r -> dr_status r = DDelivered ->
  exists db' r', MarkOutboxDispatched id token now (mkWorld db [] lk) = (Ok tt, mkWorld db' [] lk)
    /\ deliveries db' !! ob_delivery_id o = Some r' /\ dr_status r' = DDispatched.
Proof.
  intros Hid Ht Hinv Ho Hr Hs.
  destruct (mark_run id token now db lk o Hid Ht Hinv Ho) as (db' & Hrun & _).
  pose proof Hrun as Heff%mark_effect. simpl in Heff.
  destruct Heff as [(o' & rows' & Ho' & Hm & Hdb)|(_ & Hno & _)]; [|congruence].
  simplify_eq. unfold moves in Hm. rewrite Hr, Hs in Hm. cbn in Hm. destruct Hm as [_ ->].
  exists db'. eexists. split; [done|]. rewrite (deliveries_proper _ _ Hdb). cbn.
  by rewrite lookup_insert_eq.
Qed.
