(* ===== verification/Routing.v ===== *)
(** * Routing rules ([store/postgres/routing.go], [service/routing.go])

    A rule sends the events of a type, from one source or from any, to a target
    application and possibly to a realtime channel. *)

From Stdlib Require Import Ascii String.
From S2P Require Import Prelude GoLib Crypto Json Domain QueueSchema QueueService.
From S2P Require Import DeliverySchema.

(** ** The table *)

(** [text = btrim(text) AND text <> ''] *)
Definition btrimmed (text : string) : bool :=
  match bytes text with
  | [] => false
  | c :: l => negb (bool_decide (c = " "%char))
              && negb (bool_decide (List.last l c = " "%char))
  end.
(** The CHECK constraints of migration 010. *)
Definition rule_check (r : RoutingRule) : bool :=
  btrimmed (rule_EventType r) && btrimmed (rule_TargetAppID r)
  && match rule_RealtimeChannel r with Some channel => btrimmed channel | None => true end.
(** The foreign keys to [applications]. *)
Definition rule_references (r : RoutingRule) (db : RelayDB) : bool :=
  isSome (app_rows db !! rule_TargetAppID r)
  && match rule_SourceAppID r with Some id => isSome (app_rows db !! id) | None => true end.

Definition CreateRoutingRule (rule : RoutingRule) : M_relay unit :=
  exec (fun _ db =>
    if negb (rule_check rule) then Err DriverError
    else if isSome (routing_rules db !! rule_ID rule) then Err StoreConflict
    else if negb (rule_references rule db) then Err StoreInvalidTarget
    else Ok (tt, set_rules (<[rule_ID rule := mkRule (rule_ID rule) (rule_SourceAppID rule)
           (rule_EventType rule) (rule_TargetAppID rule) (rule_RealtimeChannel rule)
           (rule_Enabled rule) (rule_CreatedAt rule) (rule_UpdatedAt rule) None]>
           (routing_rules db)) db)).

Definition live_rule (r : RoutingRule) : bool := isNone (rule_DeletedAt r).
Definition get_rule (id : string) (db : RelayDB) : option RoutingRule :=
  match routing_rules db !! id with
  | Some r => if live_rule r then Some r else None
  | None => None
  end.
Definition GetRoutingRule (id : string) : M_relay RoutingRule :=
  query_row StoreNotFound (get_rule id).

Definition update_rule_row (rule r : RoutingRule) : RoutingRule :=
  mkRule (rule_ID r) (rule_SourceAppID rule) (rule_EventType rule) (rule_TargetAppID rule)
    (rule_RealtimeChannel rule) (rule_Enabled rule) (rule_CreatedAt r)
    (Z.max (rule_UpdatedAt r) (rule_UpdatedAt rule)) (rule_DeletedAt r).
Definition UpdateRoutingRule (rule : RoutingRule) : M_relay RoutingRule :=
  exec (fun _ db =>
    match get_rule (rule_ID rule) db with
    | None => Err StoreNotFound
    | Some r =>
        let r' := update_rule_row rule r in
        if negb (rule_check r') then Err DriverError
        else if negb (rule_references r' db) then Err StoreInvalidTarget
        else Ok (r', set_rules (<[rule_ID rule := r']> (routing_rules db)) db)
    end).

Definition delete_rule_row (now : Z) (r : RoutingRule) : RoutingRule :=
  mkRule (rule_ID r) (rule_SourceAppID r) (rule_EventType r) (rule_TargetAppID r)
    (rule_RealtimeChannel r) (rule_Enabled r) (rule_CreatedAt r) (Z.max (rule_UpdatedAt r) now)
    (Some now).
Definition DeleteRoutingRule (id : string) (now : Z) : M_relay unit :=
  exec (fun _ db =>
    match get_rule id db with
    | None => Err StoreNotFound
    | Some r => Ok (tt, set_rules (<[id := delete_rule_row now r]> (routing_rules db)) db)
    end).

Section ordered.
Context `{Postgres}.

(** [ORDER BY created_at,id] *)
Definition rule_by_created (a b : RoutingRule) : Prop :=
  rule_CreatedAt a < rule_CreatedAt b
  \/ rule_CreatedAt a = rule_CreatedAt b /\ text_le (rule_ID a) (rule_ID b).
#[global] Instance rule_by_created_dec : RelDecision rule_by_created.
Proof. unfold rule_by_created, RelDecision. apply _. Defined.
(** [ORDER BY source_app_id NULLS LAST, created_at, id] *)
Definition rule_by_source (a b : RoutingRule) : Prop :=
  match rule_SourceAppID a, rule_SourceAppID b with
  | Some x, Some y => if bool_decide (x = y) then rule_by_created a b else text_le x y
  | Some _, None => True
  | None, Some _ => False
  | None, None => rule_by_created a b
  end.
#[global] Instance rule_by_source_dec : RelDecision rule_by_source.
Proof.
  intros a b. unfold rule_by_source. destruct (rule_SourceAppID a), (rule_SourceAppID b);
    [destruct (bool_decide _)|..]; apply _.
Defined.

Definition ListRoutingRules : M_relay (list RoutingRule) :=
  query (fun db => merge_sort rule_by_created (select_where live_rule (routing_rules db))).

Definition resolves (sourceAppID eventType : string) (r : RoutingRule) : bool :=
  live_rule r && rule_Enabled r && bool_decide (rule_EventType r = eventType)
  && match rule_SourceAppID r with Some id => bool_decide (id = sourceAppID) | None => true end.
Definition ResolveRoutingRules (sourceAppID eventType : string) : M_relay (list RoutingRule) :=
  query (fun db => merge_sort rule_by_source
                     (select_where (resolves sourceAppID eventType) (routing_rules db))).

End ordered.

(** [GetApplication] of [store/postgres/apps.go] *)
Definition app_of (id : string) (a : AppRow) : App :=
  mkApp id (app_Name a) (app_CallbackURL a) (app_DeliveryMode a) (app_Enabled a)
    (app_CreatedAt a) (app_UpdatedAt a).
Definition GetApplication (appID : string) : M_relay App :=
  query_row StoreNotFound (fun db => app_of appID <$> app_rows db !! appID).

(** ** The service *)

(** [store.RoutingRuleStore] and [store.ApplicationReader] *)
Record RoutingRuleStore (D : Type) := mkRuleStore {
  rs_Create : RoutingRule -> M D unit;
  rs_List : M D (list RoutingRule);
  rs_Get : string -> M D RoutingRule;
  rs_Update : RoutingRule -> M D RoutingRule;
  rs_Delete : string -> Z -> M D unit;
  rs_Resolve : string -> string -> M D (list RoutingRule)
}.
Arguments mkRuleStore {D} _ _ _ _ _ _.
Arguments rs_Create {D} _ _.
Arguments rs_List {D} _.
Arguments rs_Get {D} _ _.
Arguments rs_Update {D} _ _.
Arguments rs_Delete {D} _ _ _.
Arguments rs_Resolve {D} _ _ _.
Definition ApplicationReader (D : Type) : Type := string -> M D App.

Definition postgres_rules `{Postgres} : RoutingRuleStore RelayDB :=
  mkRuleStore CreateRoutingRule ListRoutingRules GetRoutingRule UpdateRoutingRule
    DeleteRoutingRule ResolveRoutingRules.

Record CreateRule := mkCreateRule {
  cr_SourceAppID : option string;
  cr_EventType : string;
  cr_TargetAppID : string;
  cr_RealtimeChannel : option string;
  cr_Enabled : option bool
}.
(** [OptionalString] is [None] when not set. *)
Record UpdateRule := mkUpdateRule {
  up_SourceAppID : option (option string);
  up_EventType : option string;
  up_TargetAppID : option string;
  up_RealtimeChannel : option (option string);
  up_Enabled : option bool
}.

(** Dependencies are [None] when nil; [rt_Now] and [rt_NewID] are what the injected
    functions return during the call. *)
Record RoutingService (D : Type) := mkRoutingService {
  rt_store : option (RoutingRuleStore D);
  rt_apps : option (ApplicationReader D);
  rt_Now : Z;
  rt_NewID : string -> res string
}.
Arguments mkRoutingService {D} _ _ _ _.
Arguments rt_store {D} _.
Arguments rt_apps {D} _.
Arguments rt_Now {D} _.
Arguments rt_NewID {D} _ _.

Definition normalizeStringPointer (value : option string) : option string :=
  match value with
  | None => None
  | Some v => let trimmed := TrimSpace v in
              if bool_decide (trimmed = "") then None else Some trimmed
  end.

Section routing.
Context {D : Type}.
Implicit Types service : RoutingService D.

(** [GetApplication] and the checks that follow each call of it. *)
Definition enabled_app (apps : ApplicationReader D) (id : string) : M D App :=
  app ← on_error (apps id) (fun e =>
    if bool_decide (e = StoreNotFound) then fail ErrInvalidInput else fail (mapStoreError e));
  if App_Enabled app then mret app else fail ErrInvalidInput.

Definition validateRule (apps : ApplicationReader D) (rule : RoutingRule) : M D unit :=
  if bool_decide (TrimSpace (rule_ID rule) = "") || bool_decide (TrimSpace (rule_EventType rule) = "")
     || bool_decide (TrimSpace (rule_TargetAppID rule) = "") then fail ErrInvalidInput else
  match rule_SourceAppID rule with
  | Some source => enabled_app apps source;; mret tt
  | None => mret tt
  end;;
  enabled_app apps (rule_TargetAppID rule);;
  match rule_RealtimeChannel rule with
  | Some channel => if Channel.ValidRealtimeChannel channel then mret tt else fail ErrInvalidInput
  | None => mret tt
  end.

Definition new_rule (id : string) (now : Z) (input : CreateRule) : RoutingRule :=
  mkRule id (normalizeStringPointer (cr_SourceAppID input)) (TrimSpace (cr_EventType input))
    (TrimSpace (cr_TargetAppID input)) (normalizeStringPointer (cr_RealtimeChannel input))
    (default true (cr_Enabled input)) now now None.
Definition newRule service (apps : ApplicationReader D) (input : CreateRule) : M D RoutingRule :=
  match rt_NewID service "route_" with
  | Err e => fail e
  | Ok id =>
      let rule := new_rule id (rt_Now service) input in
      validateRule apps rule;;
      mret rule
  end.

Definition CreateRoute service (input : CreateRule) : M D RoutingRule :=
  match rt_store service, rt_apps service with
  | Some store, Some apps =>
      rule ← newRule service apps input;
      map_store_error (rs_Create store rule);;
      mret rule
  | _, _ => fail ErrInvalidDependency
  end.

Definition ListRoutes service : M D (list RoutingRule) :=
  match rt_store service with
  | Some store => map_store_error (rs_List store)
  | None => fail ErrInvalidDependency
  end.

Definition apply_update (now : Z) (input : UpdateRule) (current : RoutingRule) : RoutingRule :=
  mkRule (rule_ID current)
    (match up_SourceAppID input with
     | Some value => normalizeStringPointer value
     | None => rule_SourceAppID current
     end)
    (match up_EventType input with Some t => TrimSpace t | None => rule_EventType current end)
    (match up_TargetAppID input with Some t => TrimSpace t | None => rule_TargetAppID current end)
    (match up_RealtimeChannel input with
     | Some value => normalizeStringPointer value
     | None => rule_RealtimeChannel current
     end)
    (default (rule_Enabled current) (up_Enabled input)) (rule_CreatedAt current) now
    (rule_DeletedAt current).
Definition UpdateRoute service (id : string) (input : UpdateRule) : M D RoutingRule :=
  match rt_store service, rt_apps service with
  | Some store, Some apps =>
      if bool_decide (TrimSpace id = "") then fail ErrInvalidInput else
      current ← map_store_error (rs_Get store id);
      let current := apply_update (rt_Now service) input current in
      validateRule apps current;;
      map_store_error (rs_Update store current)
  | _, _ => fail ErrInvalidDependency
  end.

Definition DeleteRoute service (id : string) : M D unit :=
  match rt_store service with
  | Some store =>
      if bool_decide (TrimSpace id = "") then fail ErrInvalidInput
      else map_store_error (rs_Delete store id (rt_Now service))
  | None => fail ErrInvalidDependency
  end.

Definition Resolve service (sourceAppID eventType : string) : M D (list RoutingRule) :=
  match rt_store service with
  | Some store => map_store_error (rs_Resolve store sourceAppID eventType)
  | None => fail ErrInvalidDependency
  end.

End routing.
