(* ===== verification/EventService.v ===== *)
(** * The event service ([service/events.go])

    Validation and routing of a publication, the hints sent after the store has
    accepted it, and the reading and delivery operations of applications. *)

From Stdlib Require Import Ascii String.
From S2P Require Import Prelude GoLib Crypto Json Domain QueueSchema QueueService.
From S2P Require Import DeliverySchema PublishStore Routing.

(** ** Interfaces *)

Record QueuePublish := mkQueuePublish {
  qp_AvailableAt : option Z;
  qp_DelaySeconds : option Z;
  qp_OrderingKey : string;
  qp_Priority : Z;
  qp_DeduplicationKey : string;
  qp_Metadata : string
}.
Record PublishInput := mkPublishInput {
  pe_Type : string;
  pe_TargetAppIDs : list string;
  pe_Data : string;
  pe_Queue : option QueuePublish
}.
Record LeasedEvent := mkLeased {
  le_Event : Event;
  le_Job : Job
}.

Record EventPublisher (D : Type) := mkPublisher {
  ep_FindPublication : string -> string -> M D Publication;
  ep_PublishEvent : Publication -> string -> EventRetention -> M D (Publication * bool)
}.
Arguments mkPublisher {D} _ _.
Arguments ep_FindPublication {D} _ _ _.
Arguments ep_PublishEvent {D} _ _ _ _.
Record EventReader (D : Type) := mkReader {
  rd_GetEvent : string -> M D Event;
  rd_GetJob : string -> M D Job
}.
Arguments mkReader {D} _ _.
Arguments rd_GetEvent {D} _ _.
Arguments rd_GetJob {D} _ _.
(** [dm_GetEventJob] is [None] when the store is not an [EventJobReader]. *)
Record DeliveryManager (D : Type) := mkManager {
  dm_LeaseJobs : string -> Z -> Z -> Z -> M D (list LeasedEvent);
  dm_AckEvent : string -> string -> Z -> Z -> M D unit;
  dm_TransitionJob : string -> JobStatus -> Z -> Z -> M D Job;
  dm_GetEventJob : option (string -> string -> M D Job)
}.
Arguments mkManager {D} _ _ _ _.
Arguments dm_LeaseJobs {D} _ _ _ _ _.
Arguments dm_AckEvent {D} _ _ _ _ _.
Arguments dm_TransitionJob {D} _ _ _ _ _.
Arguments dm_GetEventJob {D} _.

(** The options after [normalizeEventOptions]; the notifier and the realtime
    publisher only receive values, so a flag says whether they are set. *)
Record EventOptions (D : Type) := mkEventOptions {
  eo_Notifier : bool;
  eo_Router : option (string -> string -> M D (list RoutingRule));
  eo_Realtime : bool;
  eo_Retention : EventRetention;
  eo_LeaseDuration : Z
}.
Arguments mkEventOptions {D} _ _ _ _ _.
Arguments eo_Notifier {D} _.
Arguments eo_Router {D} _.
Arguments eo_Realtime {D} _.
Arguments eo_Retention {D} _.
Arguments eo_LeaseDuration {D} _.

Definition normalizeEventOptions {D} (o : EventOptions D) : EventOptions D :=
  let positive n fallback := if n <=? 0 then fallback else n in
  let r := eo_Retention o in
  mkEventOptions (eo_Notifier o) (eo_Router o) (eo_Realtime o)
    (mkRetention (positive (ret_Event r) (7 * 24 * Hour)) (positive (ret_Job r) (7 * 24 * Hour))
       (positive (ret_Idempotency r) (24 * Hour)))
    (positive (eo_LeaseDuration o) (60 * Second)).

Record EventService (D : Type) := mkEventService {
  es_publisher : option (EventPublisher D);
  es_reader : option (EventReader D);
  es_deliveries : option (DeliveryManager D);
  es_apps : option (ApplicationReader D);
  es_options : EventOptions D
}.
Arguments mkEventService {D} _ _ _ _ _.
Arguments es_publisher {D} _.
Arguments es_reader {D} _.
Arguments es_deliveries {D} _.
Arguments es_apps {D} _.
Arguments es_options {D} _.

Definition NewEventServiceWithStores {D} (publisher : option (EventPublisher D))
    (reader : option (EventReader D)) (deliveries : option (DeliveryManager D))
    (apps : option (ApplicationReader D)) (options : EventOptions D) : res (EventService D) :=
  match publisher, apps with
  | Some _, Some _ =>
      Ok (mkEventService publisher reader deliveries apps (normalizeEventOptions options))
  | _, _ => Err ErrInvalidDependency
  end.

(** What leaves the service after durable state succeeded. *)
Inductive Hint :=
| HintEvent (event : Event)
| HintJob (job : Job)
| HintChannel (message : ChannelMessage).

(** ** Publishing *)

Definition validQueuePublish (input : option QueuePublish) : bool :=
  match input with
  | None => true
  | Some q =>
      if isSome (qp_AvailableAt q) && isSome (qp_DelaySeconds q) then false
      else if match qp_DelaySeconds q with Some d => (d <? 0) || (2592000 <? d) | None => false end
      then false
      else if (128 <? len (TrimSpace (qp_OrderingKey q))) || (qp_Priority q <? -10)
              || (10 <? qp_Priority q) || (256 <? len (qp_DeduplicationKey q)) then false
      else let metadata := TrimSpace (qp_Metadata q) in
           (len metadata =? 0) || (len metadata <=? 16 * 1024) && JSONObject metadata
  end.

(** The targets of the resolved rules, without repetition. *)
Fixpoint rule_targets (seen : gset string) (rules : list RoutingRule) : list string :=
  match rules with
  | [] => []
  | rule :: rules' =>
      if rule_Enabled rule && negb (bool_decide (rule_TargetAppID rule ∈ seen))
      then rule_TargetAppID rule :: rule_targets ({[rule_TargetAppID rule]} ∪ seen) rules'
      else rule_targets seen rules'
  end.

(** The trimmed targets; [None] for an empty or repeated one. *)
Fixpoint trim_targets (seen : gset string) (targets : list string) : option (list string) :=
  match targets with
  | [] => Some []
  | target :: targets' =>
      let id := TrimSpace target in
      if bool_decide (id = "") || bool_decide (id ∈ seen) then None
      else rest ← trim_targets ({[id]} ∪ seen) targets'; Some (id :: rest)
  end.

(** The queue part of the event; [None] when it lies more than 30 days ahead. *)
Definition queue_event (now : Z) (q : QueuePublish) : option QueueEvent :=
  let availableAt := match qp_DelaySeconds q with
                     | Some d => now + seconds d
                     | None => default now (qp_AvailableAt q)
                     end in
  if now + 30 * 24 * Hour <? availableAt then None
  else
    let metadata := TrimSpace (qp_Metadata q) in
    Some (mkQueueEvent availableAt (TrimSpace (qp_OrderingKey q)) (qp_Priority q)
            (if len metadata =? 0 then "{}" else metadata)
            (if bool_decide (qp_DeduplicationKey q = "") then ""
             else sha256_hex (qp_DeduplicationKey q))).

Definition app_callback (app : App) : bool :=
  match App_CallbackURL app with
  | Some url => negb (bool_decide (TrimSpace url = ""))
                && match App_DeliveryMode app with
                   | DeliveryCallback | DeliveryAll => true
                   | _ => false
                   end
  | None => false
  end.

Definition new_job (event : Event) (target id : string) (callback : bool) (now : Z) : Job :=
  mkJob callback 0 0 None "" id (ev_ID event) (ev_SourceAppID event) target JobPending 0 None now
    now.

Section publish.
Context {D : Type} (service : EventService D).
(** The clock of the request and the results of its successive calls of [NewID]. *)
Context (now : Z) (newID : nat -> string -> res string).

Definition resolve_targets (source : string) (input : PublishInput)
    : M D (list string * list RoutingRule) :=
  if negb (bool_decide (pe_TargetAppIDs input = [])) then mret (pe_TargetAppIDs input, []) else
  match eo_Router (es_options service) with
  | None => fail ErrInvalidInput
  | Some resolve =>
      resolved ← map_store_error (resolve source (TrimSpace (pe_Type input)));
      let targets := rule_targets ∅ resolved in
      if bool_decide (targets = []) then fail ErrInvalidInput
      else mret (targets, List.filter rule_Enabled resolved)
  end.

Fixpoint new_jobs (i : nat) (event : Event) (targets : list (string * App)) : res (list Job) :=
  match targets with
  | [] => Ok []
  | (target, app) :: targets' =>
      match newID i "job_" with
      | Err e => Err e
      | Ok id =>
          match new_jobs (S i) event targets' with
          | Err e => Err e
          | Ok jobs => Ok (new_job event target id (app_callback app) now :: jobs)
          end
      end
  end.

(** The event and its jobs, built for the sorted targets. *)
Definition new_publication (source : string) (input : PublishInput) (apps : list (string * App))
    : res Publication :=
  let targets := sort_strings (fst <$> apps) in
  match newID 0 "evt_" with
  | Err e => Err e
  | Ok id =>
      let queue := match pe_Queue input with
                   | None => Some None
                   | Some q => Some <$> queue_event now q
                   end in
      match queue with
      | None => Err ErrInvalidInput
      | Some queue =>
          let event := mkEvent id (TrimSpace (pe_Type input)) source targets
                         (TrimSpace (pe_Data input)) now queue in
          let with_app target := (fun app => (target, app)) <$>
            (snd <$> List.find (fun p : string * App => bool_decide (p.1 = target)) apps) in
          match new_jobs 1 event (omap with_app targets) with
          | Err e => Err e
          | Ok jobs => Ok (mkPublication event jobs)
          end
      end
  end.

Definition channel_hints (source raw : string) (rules : list RoutingRule) : list Hint :=
  omap (fun rule => (fun channel => HintChannel (mkChannelMessage channel source raw))
                    <$> rule_RealtimeChannel rule) rules.
Definition publish_hints (source raw : string) (rules : list RoutingRule) (p : Publication)
    (replay : bool) : list Hint :=
  if replay then []
  else ((if eo_Notifier (es_options service)
         then HintEvent (pub_Event p) :: (HintJob <$> pub_Jobs p) else [])
        ++ (if eo_Realtime (es_options service) then channel_hints source raw rules else []))%list.

(** [targets] are the trimmed targets. *)
Definition publish_to (publisher : EventPublisher D) (apps : ApplicationReader D)
    (source key : string) (input : PublishInput) (targets : list string)
    (rules : list RoutingRule) : M D (Publication * bool * list Hint) :=
  found ← mapM_ (fun id => app ← enabled_app apps id; mret (id, app)) targets;
  match new_publication source input found with
  | Err e => fail e
  | Ok publication =>
      result ← on_error (ep_PublishEvent publisher publication key
                           (eo_Retention (es_options service)))
        (fun e => if bool_decide (e = StoreInvalidTarget) then fail ErrInvalidInput
                  else fail (mapStoreError e));
      let '(p, replay) := result in
      mret (p, replay, publish_hints source (TrimSpace (pe_Data input)) rules p replay)
  end.

(** The first guard of [publish]. *)
Definition valid_publish (source key : string) (input : PublishInput) : bool :=
  negb (bool_decide (source = "") || bool_decide (TrimSpace key = "")
        || bool_decide (TrimSpace (pe_Type input) = "")
        || (100 <? Z.of_nat (length (pe_TargetAppIDs input)))
        || negb (JSONObject (TrimSpace (pe_Data input))) || negb (validQueuePublish (pe_Queue input))).

(** The stored publication of the key, if there is one. *)
Definition find_previous (publisher : EventPublisher D) (source key : string)
    : M D (option Publication) :=
  on_error (previous ← ep_FindPublication publisher source key; mret (Some previous))
    (fun e => if bool_decide (e = StoreNotFound) then mret None else fail (mapStoreError e)).

Definition publish (publisher : EventPublisher D) (apps : ApplicationReader D)
    (source : string) (input : PublishInput) (key : string)
    : M D (Publication * bool * list Hint) :=
  if negb (valid_publish source key input) then fail ErrInvalidInput else
  routed ← resolve_targets source input;
  let '(targets, rules) := routed in
  match trim_targets ∅ targets with
  | None => fail ErrInvalidInput
  | Some targets =>
      previous ← find_previous publisher source key;
      match previous with
      | Some previous => mret (previous, true, [])
      | None => publish_to publisher apps source key input targets rules
      end
  end.

Definition Publish (source : string) (input : PublishInput) (key : string)
    : M D (Publication * bool * list Hint) :=
  match es_publisher service, es_apps service with
  | Some publisher, Some apps => publish publisher apps source input key
  | _, _ => fail ErrInvalidDependency
  end.

(** The label given to [observability.EventOutcome]. *)
Definition event_outcome (r : res (Publication * bool * list Hint)) : string :=
  match r with
  | Err e => if bool_decide (e = ErrInvalidInput) then "rejected" else "store_error"
  | Ok (_, replay, _) => if replay then "replayed" else "published"
  end.

End publish.

(** ** Reading and delivering *)

Section operations.
Context {D : Type} (service : EventService D) (now : Z).

Definition job_hints (jobs : list Job) : list Hint :=
  if eo_Notifier (es_options service) then HintJob <$> jobs else [].

Definition SupportsQueue : bool := isSome (es_deliveries service).

Definition GetEvent (actor id : string) : M D Event :=
  match es_reader service with
  | None => fail ErrInvalidDependency
  | Some reader =>
      e ← map_store_error (rd_GetEvent reader id);
      if CanRead e actor then mret e else fail ErrNotFound
  end.

Definition GetJob (actor id : string) : M D Job :=
  match es_reader service with
  | None => fail ErrInvalidDependency
  | Some reader =>
      j ← map_store_error (rd_GetJob reader id);
      if bool_decide (actor = job_SourceAppID j) || bool_decide (actor = job_TargetAppID j)
      then mret j else fail ErrNotFound
  end.

(** A failure to read the job for the hint is reported aside and dropped. *)
Definition Ack (target event : string) : M D (list Hint) :=
  match es_deliveries service with
  | None => fail ErrInvalidDependency
  | Some deliveries =>
      map_store_error (dm_AckEvent deliveries target event now
                         (ret_Job (eo_Retention (es_options service))));;
      if negb (eo_Notifier (es_options service)) then mret [] else
      match dm_GetEventJob deliveries with
      | None => mret []
      | Some read => on_error (j ← read target event; mret [HintJob j]) (fun _ => mret [])
      end
  end.

Definition transition_job (id : string) (status : JobStatus) : M D (Job * list Hint) :=
  match es_deliveries service with
  | None => fail ErrInvalidDependency
  | Some deliveries =>
      j ← map_store_error (dm_TransitionJob deliveries id status now
                             (ret_Job (eo_Retention (es_options service))));
      mret (j, job_hints [j])
  end.
Definition RequeueJob (id : string) : M D (Job * list Hint) := transition_job id JobPending.
Definition DeadLetterJob (id : string) : M D (Job * list Hint) := transition_job id JobDeadLetter.

(** What one turn of the polling loop of [Lease] meets: the clock, what others did
    since the turn before, whether the request was cancelled before and after the
    store was called, whether the attempt ran into its own deadline, whether the
    poll context was done, and what the [select] received. *)
Record LeaseRound := mkLeaseRound {
  lr_now : Z;
  lr_others : World D -> World D;
  lr_ctxBefore : bool;
  lr_ctxAfter : bool;
  lr_attemptExpired : bool;
  lr_pollDone : bool;
  lr_select : SelectCase
}.

Inductive LeaseTurn := LeaseReturn (r : res (list LeasedEvent)) | LeaseAgain.

(** From the [select] on. *)
Definition lease_wait (wait : Z) (round : LeaseRound) : LeaseTurn :=
  if wait =? 0 then LeaseReturn (Ok [])
  else match lr_select round with
       | PollDone parentDone => LeaseReturn (if parentDone then Err ContextError else Ok [])
       | TimerFired => LeaseAgain
       end.
Definition lease_turn (wait : Z) (round : LeaseRound) (r : res (list LeasedEvent)) : LeaseTurn :=
  if lr_ctxAfter round then LeaseReturn (Err ContextError)
  else match r with
  | Err e =>
      if (0 <? wait) && lr_pollDone round then LeaseReturn (Ok [])
      else if (wait =? 0) || negb (lr_attemptExpired round) then LeaseReturn (Err (mapStoreError e))
      else lease_wait wait round
  | Ok items =>
      if negb (Nat.eqb (length items) 0) then LeaseReturn (Ok items) else lease_wait wait round
  end.

Fixpoint lease_loop (deliveries : DeliveryManager D) (target : string) (limit wait : Z)
    (rounds : list LeaseRound) (w : World D)
    : option (res (list LeasedEvent) * World D) :=
  match rounds with
  | [] => None
  | round :: rounds' =>
      let w := lr_others round w in
      if lr_ctxBefore round then Some (Err ContextError, w) else
      let (r, w') := dm_LeaseJobs deliveries target limit (lr_now round)
                       (eo_LeaseDuration (es_options service)) w in
      match lease_turn wait round r with
      | LeaseReturn result => Some (result, w')
      | LeaseAgain => lease_loop deliveries target limit wait rounds' w'
      end
  end.

Definition Lease (target : string) (limit wait : Z) (rounds : list LeaseRound) (w : World D)
    : option (res (list LeasedEvent) * World D) :=
  match es_deliveries service with
  | None => Some (Err ErrInvalidDependency, w)
  | Some deliveries =>
      if bool_decide (target = "") || (limit <? 1) || (100 <? limit) || (wait <? 0)
         || (30 * Second <? wait) then Some (Err ErrInvalidInput, w)
      else lease_loop deliveries target limit wait rounds w
  end.

End operations.

(** The service as [cmd/relayhub] wires it: PostgreSQL stores, no delivery manager. *)
Definition postgres_publisher `{Postgres} (clock : Z) : EventPublisher RelayDB :=
  mkPublisher (FindPublication clock) (PublishEvent clock).
Definition postgres_reader `{Postgres} : EventReader RelayDB :=
  mkReader PublishStore.GetEvent PublishStore.GetJob.
