(* ===== verification/CallbackWorker.v ===== *)
(** * The callback worker ([worker/jetstream.go])

    Takes callback messages from the broker, runs one token-fenced attempt per
    message and tells the broker what to do with it. *)

From Stdlib Require Import Ascii String.
From S2P Require Import Prelude GoLib Crypto Json Domain QueueSchema DeliverySchema.
From S2P Require Import DeliveryStore CallbackStore PublishStore Classify.

(** ** Options *)

Record JetStreamOptions := mkJetStream {
  js_Concurrency : Z;
  js_AttemptTimeout : Z;
  js_LeaseDuration : Z;
  js_ShutdownTimeout : Z
}.
(** The defaults of [NewJetStream]. *)
Definition NewJetStream (o : JetStreamOptions) : JetStreamOptions :=
  let concurrency := if js_Concurrency o <=? 0 then 8 else js_Concurrency o in
  let attempt := if js_AttemptTimeout o <=? 0 then 10 * Second else js_AttemptTimeout o in
  let lease := if js_LeaseDuration o <? attempt + 5 * Second then attempt + 20 * Second
               else js_LeaseDuration o in
  let shutdown := if js_ShutdownTimeout o <=? 0 then 10 * Second else js_ShutdownTimeout o in
  mkJetStream concurrency attempt lease shutdown.

(** ** Admission *)

(** [stopping], and the number of slots in use. *)
Record WorkerState := mkWorkerState {
  ws_stopping : bool;
  ws_running : Z
}.

(** What the broker is told: acknowledge, redeliver after a delay, or nothing
    (it redelivers when its own timer runs out). *)
Inductive Reply := Acked | Nacked (delay : Z) | Silent.

(** [None]: the message is being processed and holds a slot. *)
Definition handle (o : JetStreamOptions) (s : WorkerState) : WorkerState * option Reply :=
  if ws_stopping s then (s, Some (Nacked 0))
  else if ws_running s <? js_Concurrency o
  then (mkWorkerState (ws_stopping s) (ws_running s + 1), None)
  else (s, Some (Nacked (100 * Millisecond))).
Definition processed (s : WorkerState) : WorkerState :=
  mkWorkerState (ws_stopping s) (ws_running s - 1).
Definition stop (s : WorkerState) : WorkerState := mkWorkerState true (ws_running s).

(** ** One message *)

(** A message on the dead-letter subject of the application. *)
Record DLQMessage := mkDLQMessage {
  dlq_Subject : string;
  dlq_DeliveryID : string;
  dlq_Generation : Z;
  dlq_Event : Event;
  dlq_Reason : string;
  dlq_MessageID : string
}.

Record Processed := mkProcessed {
  pr_reply : Reply;
  pr_observed : option string;
  pr_dlq : list DLQMessage
}.

(** What the outside contributes to one message: the readings of the clock, the
    fresh token, the HTTP exchange, what other transactions commit while it runs,
    whether the request context was cancelled by then, and whether the broker
    takes the dead letter ([None] without a publisher). *)
Record Turn := mkTurn {
  tn_now : Z;
  tn_token : string;
  tn_deliver : CallbackDispatch -> Z * string * bool;
  tn_others : RelayDB -> RelayDB;
  tn_cancelled : bool;
  tn_later : Z;
  tn_publish : option (DLQMessage -> bool);
  tn_dlqNow : Z
}.

Section process.
Context (Decrypt : string -> option string) (ParseTime : string -> option Z).
Context (o : JetStreamOptions) (turn : Turn).

Definition dlq_message (subjects : AppSubjects) (d : CallbackDispatch) : DLQMessage :=
  mkDLQMessage (subj_DeadLetters subjects) (cd_DeliveryID d) (cd_Generation d) (cd_Event d)
    (cd_Reason d)
    ("rh-v1-callback-dlq-" ++ cd_DeliveryID d ++ "-g" ++ decimal (cd_Generation d)).

Definition publishDLQ (observed : option string) (d : CallbackDispatch) (w : World RelayDB)
    : Processed * World RelayDB :=
  if cd_DLQPublished d then (mkProcessed Acked observed [], w) else
  match tn_publish turn with
  | None => (mkProcessed Silent (Some "broker_error") [], w)
  | Some publish =>
      match SubjectsForApp (cd_TargetAppID d) with
      | Err _ => (mkProcessed Silent (Some "store_error") [], w)
      | Ok subjects =>
          let message := dlq_message subjects d in
          if negb (publish message) then (mkProcessed Silent (Some "broker_error") [], w) else
          match MarkCallbackDLQPublished (cd_DeliveryID d) (cd_Generation d) (tn_dlqNow turn) w with
          | (Err _, w') => (mkProcessed Silent (Some "store_error") [message], w')
          | (Ok _, w') => (mkProcessed Acked observed [message], w')
          end
      end
  end.

Definition transition_of (d : CallbackDispatch) (now : Z) : CallbackAttemptTransition :=
  let '(status, retryAfter, err) := tn_deliver turn d in
  let outcome := Classifier.Classify ParseTime status retryAfter err (cd_Attempt d) now in
  mkCallbackTransition
    (match Classifier.oc_Kind outcome with
     | Classifier.Delivered => JobDelivered
     | Classifier.Retry => JobPending
     | Classifier.DeadLetter => JobDeadLetter
     end) now (default zero_time (Classifier.oc_RetryAt outcome)) (Classifier.oc_Reason outcome).

Definition job_status_text (s : JobStatus) : string :=
  match s with
  | JobPending => "pending" | JobLeased => "leased" | JobDelivered => "delivered"
  | JobAcked => "acked" | JobDeadLetter => "dead_letter"
  end.

(** From the answer of the endpoint on. *)
Definition finish_turn (d : CallbackDispatch) (w : World RelayDB) : Processed * World RelayDB :=
  let now := tn_later turn in
  let t := transition_of d now in
  match FinishCallbackAttempt (cd_DeliveryID d) (cd_Generation d) (cd_Token d) (cd_Attempt d) t w with
  | (Err _, w') => (mkProcessed Silent (Some "store_error") [], w')
  | (Ok _, w') =>
      let observed := Some (job_status_text (ct_Status t)) in
      match ct_Status t with
      | JobDelivered => (mkProcessed Acked observed [], w')
      | JobPending =>
          (mkProcessed (Nacked (Z.max 0 (Classifier.time_Sub (ct_RetryAt t) now))) observed [], w')
      | _ => publishDLQ observed (with_reason d (ct_Reason t)) w'
      end
  end.

(** The message after decoding, [None] when it is not an envelope. *)
Definition process (message : option Envelope) (w : World RelayDB) : Processed * World RelayDB :=
  let invalid := mkProcessed Acked (Some "invalid_message") [] in
  match message with
  | None => (invalid, w)
  | Some envelope =>
      if bool_decide (env_DeliveryID envelope = "") || bool_decide (ev_ID (env_Event envelope) = "")
      then (invalid, w) else
      let generation := if env_Generation envelope =? 0 then 1 else env_Generation envelope in
      match BeginCallbackAttempt Decrypt (env_DeliveryID envelope) generation (tn_token turn)
              (tn_now turn) (js_LeaseDuration o) w with
      | (Err e, w') =>
          if bool_decide (e = StoreNotFound) || bool_decide (e = StoreConflict) then (invalid, w')
          else (mkProcessed (Nacked Second) (Some "store_error") [], w')
      | (Ok (d, disposition), w') =>
          match disposition with
          | CallbackDispatchBusy =>
              (mkProcessed (Nacked (Z.max 0 (Classifier.time_Sub (cd_RetryAt d) (tn_now turn))))
                 None [], w')
          | CallbackDispatchComplete => (mkProcessed Acked None [], w')
          | CallbackDispatchDeadLetter => publishDLQ None d w'
          | CallbackDispatchReady =>
              let w' := set_db (tn_others turn (w_db w')) w' in
              if tn_cancelled turn then (mkProcessed Silent None [], w') else finish_turn d w'
          | CallbackDispatchNone => (mkProcessed Silent (Some "store_error") [], w')
          end
      end
  end.

End process.
