(* ===== verification/CallbackClaims.v ===== *)
(** * Event callbacks: theorems

    A started attempt excludes every other, and the worker acknowledges a message
    only when the delivery is settled. *)

From Stdlib Require Import Ascii String.
From S2P Require Import Prelude GoLib Crypto Json Domain QueueSchema DeliverySchema.
From S2P Require Import DeliveryStore DeliveryEffects CallbackStore CallbackEffects DeliverySystem.
From S2P Require Import PublishStore Classify CallbackWorker.

(** ** Attempts are exclusive *)

Lemma started_tables id g token attempt expires url version now d db :
  let db' := started_db id g token attempt expires url version now d db in
  deliveries db' = <[id := start_row attempt token expires url version now d]> (deliveries db)
  /\ outbox db' = outbox db /\ app_rows db' = app_rows db /\ queue_db db' = queue_db db
  /\ exists i, delivery_attempts db' !! (id, g, attempt) = Some i.
Proof.
  simpl. unfold started_db, insert_started. case_match eqn:Hi; split_and!; try done; eauto.
  eexists. apply lookup_insert_eq.
Qed.

Section exclusive.
Context (Decrypt : string -> option string).
Context (id : string) (g : Z) (token : string).

Lemma begin_callback_quiet now lease : quiet (BeginCallbackAttempt Decrypt id g token now lease).
Proof.
  unfold BeginCallbackAttempt, start_attempt, callback_dead_letter, insert_lifecycle. quiet_solve.
  all: repeat (match goal with |- quiet (match ?x with _ => _ end) => destruct x end; quiet_solve).
Qed.

(** The delivery after an attempt was started. *)
Lemma started_row now lease db lk d w' :
  relay_inv db ->
  BeginCallbackAttempt Decrypt id g token now lease (mkWorld db [] lk)
    = (Ok (d, CallbackDispatchReady), w') ->
  exists r a e o db', w' = mkWorld db' [] lk /\ relay_inv db'
    /\ callback_join id db' = Some (r, a, e, o) /\ dr_generation r = g /\ ob_generation o = g
    /\ dr_status r = DDispatched /\ dr_attempts r = cd_Attempt d /\ 1 <= cd_Attempt d <= 6
    /\ cc_token (dr_callback r) = Some token /\ cd_Token d = token
    /\ cc_expires_at (dr_callback r) = Some (cd_LeaseExpiresAt d)
    /\ cc_retry_at (dr_callback r) = None
    /\ cd_DeliveryID d = id /\ cd_Generation d = g
    /\ exists i, delivery_attempts db' !! (id, g, cd_Attempt d) = Some i.
Proof.
  intros Hinv Hrun. pose proof (quiet_world _ _ _ _ _ (begin_callback_quiet now lease) Hrun) as Hw.
  pose proof (begin_callback_keeps Decrypt id g token now lease (mkWorld db [] lk)) as Hk.
  rewrite Hrun in Hk. destruct (Hk Hinv) as (Hinv' & _). simpl in Hinv'.
  apply begin_callback_effect in Hrun as (_ & _ & _ & r & a & e & o & Hj & Hg & Hgo & Hb).
  destruct Hb as (_ & _ & _ & Hlt & _ & url & enc & version & secret & Hb). destruct_and!.
  match goal with Hx : w_db w' ≃ _ |- _ => rename Hx into Hdb; cbn [w_db] in Hdb end.
  match goal with Hx : (d, _).1 = _ |- _ => simpl in Hx; subst d end.
  pose proof (callback_join_inv _ _ _ _ _ _ Hj) as (Hd & Hsink & Happ & Hev & Hod & _).
  pose proof (ri_row_key _ Hinv _ _ Hd) as Hid. simpl in Hd.
  pose proof (ro_check _ (ri_row _ Hinv _ _ Hd)) as Hc. unfold row_check in Hc.
  apply andb_true_iff in Hc as [[_ Hc]%andb_true_iff _]. bool_to_prop.
  set (expires := postgresTime (postgresTime now + lease)) in *.
  set (r' := start_row (dr_attempts r + 1) token expires url version (postgresTime now) r) in *.
  exists r', a, e, o, (w_db w'). split; [done|]. split; [done|].
  destruct (started_tables id g token (dr_attempts r + 1) expires url version (postgresTime now) r db)
    as (Hrows & Hout & Happs & Hq & i & Hi).
  rewrite <- (deliveries_proper _ _ Hdb) in Hrows. rewrite <- (outbox_proper _ _ Hdb) in Hout.
  rewrite <- (app_rows_proper _ _ Hdb) in Happs. rewrite <- (queue_db_proper _ _ Hdb) in Hq.
  fold r' in Hrows. split.
  { unfold callback_join in *. rewrite Hrows, lookup_insert_eq, Hout, Happs, Hq.
    cbn [w_db] in Hj. rewrite Hd, Hsink in Hj. cbn [dr_sink r' start_row with_state]. rewrite Hsink.
    change (dr_target_app_id r') with (dr_target_app_id r). change (dr_event_id r') with (dr_event_id r).
    change (dr_id r') with (dr_id r). cbn [w_db] in Happ, Hev. rewrite Happ, Hev in *.
    rewrite bool_decide_eq_true_2 in * by done. cbn [negb] in *.
    destruct (select_where _ _); [done|]. by simplify_eq. }
  split_and!; try done; simpl; try lia.
  exists i. by rewrite (attempts_proper _ _ Hdb).
Qed.

Lemma finish_status t : transition_status t <> DDispatched.
Proof. by destruct t. Qed.

(** The transitions that the worker makes. *)
Definition valid_transition (t : CallbackAttemptTransition) : bool :=
  (bool_decide (ct_Status t = JobDelivered) || bool_decide (ct_Status t = JobPending)
   || bool_decide (ct_Status t = JobDeadLetter))
  && negb (bool_decide (ct_Status t = JobPending) && IsZero (ct_RetryAt t)).

Section finish.
Context (db : RelayDB) (lk : gset string) (r : StreamRow).
Hypothesis Hr : deliveries db !! id = Some r.

Lemma finish_refused t2 attempt t :
  valid_transition t = true -> dr_status r = DDispatched ->
  holds_attempt g t2 attempt (postgresTime (ct_Now t)) r = false ->
  FinishCallbackAttempt id g t2 attempt t (mkWorld db [] lk) = (Err StoreConflict, mkWorld db [] lk).
Proof using Hr.
  unfold valid_transition. intros [Hv1 Hv2]%andb_true_iff Hs Hh. apply negb_true_iff in Hv2.
  unfold FinishCallbackAttempt. rewrite Hv1, Hv2. cbn [negb]. unfold update_row. run_free.
  rewrite Hr. cbn [ct_Now truncate_transition]. rewrite Hh. cbn [negb Z.eqb].
  assert (forall u, already_finished id g t2 attempt (transition_status u) (truncate_transition t) db
                    = false) as ->; [|done].
  intros u. unfold already_finished. rewrite Hr, Hs. destruct (delivery_attempts db !! _); [|done].
  assert (bool_decide (DDispatched = transition_status u) = false) as ->
    by (apply bool_decide_eq_false; intros Heq; by apply (finish_status u)).
  by rewrite !andb_false_r.
Qed.

Lemma finish_accepted attempt t i :
  valid_transition t = true -> holds_attempt g token attempt (postgresTime (ct_Now t)) r = true ->
  row_ok r -> delivery_attempts db !! (id, g, attempt) = Some i -> 0 < attempt ->
  exists w2 r2, FinishCallbackAttempt id g token attempt t (mkWorld db [] lk) = (Ok tt, w2)
    /\ deliveries (w_db w2) !! id = Some r2
    /\ dr_status r2 = transition_status (ct_Status t) /\ cc_token (dr_callback r2) = None.
Proof using Hr.
  unfold valid_transition. intros [Hv1 Hv2]%andb_true_iff Hh Hok Hi Ha. apply negb_true_iff in Hv2.
  unfold FinishCallbackAttempt. rewrite Hv1, Hv2. cbn [negb].
  unfold update_row, insert_lifecycle. run_free. rewrite Hr. cbn [ct_Now ct_Status truncate_transition].
  rewrite Hh.
  assert (forall s rt re n, row_check (finish_row s rt re n r) = true) as ->.
  { intros. pose proof (ro_check _ Hok) as Hc. unfold row_check in *. cbn.
    apply andb_true_iff in Hc as [[[Hc1 _]%andb_true_iff Hc2]%andb_true_iff Hc3].
    by rewrite Hc1, Hc2, Hc3. }
  cbn [negb Z.eqb Pos.eqb delivery_attempts set_rows]. rewrite Hi. cbn [negb Z.eqb Pos.eqb lc_attempt].
  assert ((0 <? attempt) = true) as -> by lia. eexists _, _. split; [reflexivity|]. cbn.
  rewrite lookup_insert_eq. done.
Qed.
End finish.

(** Once an attempt is started, it is one of at most six, and until its
    lease ends no other worker starts one, no other token or attempt number can
    record an outcome, and its holder can: the delivery then has the status of the
    outcome and is free again. *)
Theorem callback_attempt_exclusive now lease db lk d w' :
  relay_inv db ->
  BeginCallbackAttempt Decrypt id g token now lease (mkWorld db [] lk)
    = (Ok (d, CallbackDispatchReady), w') ->
  1 <= cd_Attempt d <= 6
  /\ (forall t2 now2 lease2, id <> "" -> 1 <= g -> t2 <> "" -> CallbackFinishMargin < lease2 ->
        token <> "" -> postgresTime now2 < cd_LeaseExpiresAt d ->
        exists d2, BeginCallbackAttempt Decrypt id g t2 now2 lease2 w'
                   = (Ok (d2, CallbackDispatchBusy), w'))
  /\ (forall t2 attempt2 t, valid_transition t = true -> (t2, attempt2) <> (token, cd_Attempt d) ->
        FinishCallbackAttempt id g t2 attempt2 t w' = (Err StoreConflict, w'))
  /\ (forall t, valid_transition t = true -> postgresTime (ct_Now t) < cd_LeaseExpiresAt d ->
        exists w2 r2, FinishCallbackAttempt id g token (cd_Attempt d) t w' = (Ok tt, w2)
          /\ deliveries (w_db w2) !! id = Some r2
          /\ dr_status r2 = transition_status (ct_Status t) /\ cc_token (dr_callback r2) = None).
Proof.
  intros Hinv Hrun. eapply started_row in Hrun as (r & a & e & o & db' & -> & Hinv' & Hj & Hg & Hgo
    & Hs & Ha & Hle & Ht & _ & He & Hre & _ & _ & i & Hi); [|done].
  pose proof (callback_join_inv _ _ _ _ _ _ Hj) as (Hd & Hsink & _).
  split_and!; [lia|lia|..].
  - intros t2 now2 lease2 Hid Hg1 Ht2 Hl Htok Hlt. eexists.
    unfold BeginCallbackAttempt. rewrite !bool_decide_eq_false_2 by done.
    assert ((g <? 1) = false) as -> by lia. assert ((lease2 <=? CallbackFinishMargin) = false) as -> by lia.
    cbn [orb]. run_free. rewrite Hj, Hg, Hgo, Z.eqb_refl, Hs. cbn [negb orb].
    rewrite !bool_decide_eq_false_2 by done. cbn [orb].
    assert (negb (IsZero (cd_RetryAt (dispatch_of r a o)))
            && (postgresTime now2 <? cd_RetryAt (dispatch_of r a o)) = false) as ->
      by (cbn [cd_RetryAt dispatch_of]; by rewrite Hre).
    assert (negb (bool_decide (cd_Token (dispatch_of r a o) = ""))
            && (postgresTime now2 <? cd_LeaseExpiresAt (dispatch_of r a o)) = true) as ->.
    { apply andb_true_iff. split.
      - apply negb_true_iff, bool_decide_eq_false. cbn [cd_Token dispatch_of]. by rewrite Ht.
      - cbn [cd_LeaseExpiresAt dispatch_of]. rewrite He. by apply Z.ltb_lt. }
    reflexivity.
  - intros t2 attempt2 t Hv Hne. apply finish_refused with (r := r); try done.
    unfold holds_attempt, null_eq. rewrite Ht, Ha. apply andb_false_iff. left.
    rewrite <- !andb_assoc, !andb_false_iff. right; right.
    destruct (decide (t2 = token)) as [->|]; [right; apply Z.eqb_neq; naive_solver|left].
    apply bool_decide_eq_false. naive_solver.
  - intros t Hv Hlt. apply finish_accepted with (r := r) (i := i); try done; [|by eapply ri_row|lia].
    unfold holds_attempt, null_eq. rewrite Hsink, Hg, Ht, Ha, He, !Z.eqb_refl.
    rewrite !bool_decide_eq_true_2 by done. simpl. by apply Z.ltb_lt.
Qed.

End exclusive.

(** ** What an acknowledged message means *)

(** Computations that can only fail in the database. *)
Definition driver_only {A} (m : M_relay A) : Prop :=
  forall w e w', m w = (Err e, w') -> e = DriverError.

Lemma driver_ret {A} (a : A) : driver_only (mret a).
Proof. by intros w e w'. Qed.
Lemma driver_fail {A} : driver_only (fail (A:=A) DriverError).
Proof. by intros w e w' [= <- _]. Qed.
Lemma driver_exec {A} (stmt : gset string -> RelayDB -> res (A * RelayDB)) :
  (forall lk db e, stmt lk db = Err e -> e = DriverError) -> driver_only (exec stmt).
Proof.
  intros Hs [db fs lk] e w'. unfold exec. simpl.
  destruct fs as [|[] fs]; [|naive_solver|]; destruct (stmt lk db) as [[a d]|e'] eqn:E;
    naive_solver.
Qed.
Lemma driver_query {A} (f : RelayDB -> A) : driver_only (query f).
Proof. by apply driver_exec. Qed.
Lemma driver_update {A} (f : RelayDB -> A * RelayDB) : driver_only (update f).
Proof. by apply driver_exec. Qed.
Lemma driver_bind {A B} (m : M_relay A) (k : A -> M_relay B) :
  driver_only m -> (forall a, driver_only (k a)) -> driver_only (m ≫= k).
Proof. intros Hm Hk w e w' [H|(a & w1 & _ & H)]%bind_err; [by eapply Hm|by eapply Hk]. Qed.

Lemma update_row_driver id p f db e : update_row id p f db = Err e -> e = DriverError.
Proof. unfold update_row. repeat case_match; naive_solver. Qed.
Lemma insert_lifecycle_driver l : driver_only (insert_lifecycle l).
Proof. apply driver_exec. intros lk db e. repeat case_match; naive_solver. Qed.
Lemma update_with_lifecycle_driver id p f l db e :
  update_with_lifecycle id p f l db = Err e -> e = DriverError.
Proof.
  unfold update_with_lifecycle. destruct (deliveries db !! id); [|done].
  destruct (update_row id p f db) as [[]|] eqn:Hu; [repeat case_match; naive_solver|].
  intros [= ->]. by eapply update_row_driver.
Qed.

Ltac driver_solve :=
  repeat match goal with
  | |- driver_only (mret _) => apply driver_ret
  | |- driver_only (fail DriverError) => apply driver_fail
  | |- driver_only begin => apply driver_query
  | |- driver_only commit => apply driver_query
  | |- driver_only (query _) => apply driver_query
  | |- driver_only (update _) => apply driver_update
  | |- driver_only (insert_lifecycle _) => apply insert_lifecycle_driver
  | |- driver_only (exec (fun _ => update_row _ _ _)) =>
      apply driver_exec; intros ? ? ?; apply update_row_driver
  | |- driver_only (exec (fun _ => update_with_lifecycle _ _ _ _)) =>
      apply driver_exec; intros ? ? ?; apply update_with_lifecycle_driver
  | |- driver_only (_ ≫= _) => apply driver_bind; [|intros ?]
  | |- driver_only (if ?b then _ else _) => destruct b
  | |- driver_only (match ?o with Some _ => _ | None => _ end) => destruct o
  | |- driver_only (match ?p with (_, _) => _ end) => destruct p
  end.

Section worker.
Context (Decrypt : string -> option string) (ParseTime : string -> option Z).

(** There is no callback delivery of this generation. *)
Definition no_callback_delivery (id : string) (g : Z) (db : RelayDB) : Prop :=
  forall d a e o, callback_join id db = Some (d, a, e, o) ->
    dr_generation d <> g \/ ob_generation o <> g.

Lemma begin_callback_error id g token now lease w e w' :
  id <> "" -> 1 <= g -> token <> "" -> CallbackFinishMargin < lease ->
  BeginCallbackAttempt Decrypt id g token now lease w = (Err e, w') ->
  e = DriverError \/ no_callback_delivery id g (w_db w).
Proof using Type.
  clear ParseTime. intros Hid Hg Ht Hl Hrun.
  destruct (callback_join id (w_db w)) as [[[[d a] ev] o]|] eqn:Hj.
  2:{ right. intros ? ? ? ? ?. congruence. }
  destruct (decide (dr_generation d = g)) as [Hdg|]; [|right; intros ? ? ? ? ?; simplify_eq; auto].
  destruct (decide (ob_generation o = g)) as [Hog|]; [|right; intros ? ? ? ? ?; simplify_eq; auto].
  left. unfold BeginCallbackAttempt in Hrun. rewrite !bool_decide_eq_false_2 in Hrun by done.
  assert ((g <? 1) = false) as E1 by lia. assert ((lease <=? CallbackFinishMargin) = false) as E2 by lia.
  rewrite E1, E2 in Hrun. cbn [orb] in Hrun.
  apply transaction_err in Hrun as [w1 Hbody].
  apply bind_err in Hbody as [Hb|([] & w0 & Hb & Hbody)]; [by apply driver_query in Hb|].
  apply query_ok in Hb as (_ & Hdb0 & _).
  apply bind_err in Hbody as [Hq|(row & w2 & Hq & Hbody)].
  { unfold query_row, exec in Hq. rewrite Hdb0, Hj in Hq. destruct (w_faults w0) as [|[]]; naive_solver. }
  apply query_row_ok in Hq as (Hq & _). rewrite Hdb0, Hj in Hq. injection Hq as <-.
  rewrite Hdg, Hog, Z.eqb_refl in Hbody. cbn [negb orb] in Hbody. revert Hbody.
  match goal with |- ?m w2 = _ -> _ => assert (driver_only m) as Hd end; [|apply Hd].
  unfold start_attempt, callback_dead_letter. driver_solve.
Qed.

(** A callback delivery that needs no further message: delivered (or acknowledged),
    or given up with its dead letter published. *)
Definition closed (r : StreamRow) : Prop :=
  complete (dr_status r) = true
  \/ dr_status r = DDeadLetter /\ is_Some (cc_dlq_published_at (dr_callback r)).

Definition closed_at (id : string) (g : Z) (db : RelayDB) : Prop :=
  exists r, deliveries db !! id = Some r /\ dr_generation r = g /\ closed r.

Section turn.
Context (o : JetStreamOptions) (turn : Turn).

(** The dead letter of a delivery that is given up. *)
Lemma publish_dlq_acked observed d w p w' :
  publishDLQ turn observed d w = (p, w') -> pr_reply p = Acked ->
  (cd_DLQPublished d = true -> closed_at (cd_DeliveryID d) (cd_Generation d) (w_db w)) ->
  closed_at (cd_DeliveryID d) (cd_Generation d) (w_db w').
Proof using Type.
  unfold publishDLQ. intros Hrun Hack Hpub. destruct (cd_DLQPublished d).
  { simplify_eq. auto. }
  destruct (tn_publish turn) as [publish|]; [|by simplify_eq].
  destruct (SubjectsForApp _); [|by simplify_eq]. destruct (negb _); [by simplify_eq|].
  destruct (MarkCallbackDLQPublished _ _ _ w) as [[[]|e] w1] eqn:Hm; simplify_eq/=.
  apply dlq_effect in Hm as (r & Hr & Hg & _ & Hs & _ & ->). eexists. simpl.
  rewrite lookup_insert_eq. split_and!; [done|done|]. right. split; [done|]. simpl. eauto.
Qed.

Lemma finished_row id g token attempt t db db' :
  callback_finished id g token attempt t db db' ->
  exists r, deliveries db' !! id = Some r /\ dr_generation r = g
    /\ dr_status r = transition_status (ct_Status t)
    /\ (forall r0, deliveries db !! id = Some r0 -> dr_generation r0 = g
          /\ (is_Some (cc_dlq_published_at (dr_callback r0)) ->
              is_Some (cc_dlq_published_at (dr_callback r)))).
Proof using Type.
  intros [(d & i & Hd & Hh & _ & _ & Hdb)|(-> & Hsame)].
  - apply holds_attempt_inv in Hh as (_ & Hg & _). eexists.
    rewrite (deliveries_proper _ _ Hdb). simpl. rewrite lookup_insert_eq.
    split_and!; [done|done|done|]. intros. by simplify_eq.
  - unfold already_finished in Hsame. destruct (deliveries db !! id) as [d|] eqn:Hd; [|done].
    destruct (delivery_attempts db !! _); [|done]. bool_to_prop. destruct_and!. exists d.
    split_and!; try done. intros. by simplify_eq.
Qed.

(** Other transactions run by the rules of the state machine. *)
Hypothesis others_step : forall db, all_step row_step (deliveries db) (deliveries (tn_others turn db)).

Lemma finish_turn_acked d w p w' :
  finish_turn ParseTime turn d w = (p, w') -> pr_reply p = Acked ->
  (cd_DLQPublished d = true -> exists r, deliveries (w_db w) !! cd_DeliveryID d = Some r
     /\ (dr_generation r = cd_Generation d -> is_Some (cc_dlq_published_at (dr_callback r)))) ->
  closed_at (cd_DeliveryID d) (cd_Generation d) (w_db w').
Proof using Type.
  unfold finish_turn. set (t := transition_of _ _ _ _). intros Hrun Hack Hpub.
  destruct (FinishCallbackAttempt _ _ _ _ t w) as [[[]|e] w1] eqn:Hf; [|by simplify_eq].
  apply finish_callback_effect, finished_row in Hf as (r & Hr & Hg & Hs & Hdlq).
  cbn [ct_Status truncate_transition] in Hs.
  assert (ct_Status t = JobDelivered \/ ct_Status t = JobPending \/ ct_Status t = JobDeadLetter)
    as Hcases.
  { unfold t, transition_of. destruct (tn_deliver turn d) as [[? ?] ?].
    destruct (Classifier.oc_Kind _); simpl; auto. }
  destruct Hcases as [Hst|[Hst|Hst]]; rewrite Hst in Hrun, Hs; simpl in Hs.
  - simplify_eq. exists r. split_and!; [done..|]. left. by rewrite Hs.
  - by simplify_eq.
  - eapply (publish_dlq_acked _ (with_reason d (ct_Reason t))) in Hrun; [done|done|].
    intros Hp. destruct (Hpub Hp) as (r0 & Hr0 & Hd0). exists r. split_and!; [done..|].
    right. split; [done|]. destruct (Hdlq r0 Hr0) as [Hg0 Hd1]. by apply Hd1, Hd0.
Qed.

Lemma dispatch_published d a ob :
  cd_DLQPublished (dispatch_of d a ob) = true -> is_Some (cc_dlq_published_at (dr_callback d)).
Proof using Type. simpl. destruct (cc_dlq_published_at _); [eauto|done]. Qed.

(** C16: the worker acknowledges a message to the broker only when nothing is left
    to do for it: the message is not an envelope, there is no callback delivery of
    its generation, or that delivery is delivered, or given up with its dead letter
    published. So a crash or a failure at any point leaves the message with the
    broker. *)
Theorem worker_ack_settled message w p w' :
  relay_inv (w_db w) -> tn_token turn <> "" ->
  (forall env, message = Some env -> 0 <= env_Generation env) ->
  process Decrypt ParseTime (NewJetStream o) turn message w = (p, w') -> pr_reply p = Acked ->
  (forall env, message = Some env ->
     env_DeliveryID env <> "" -> ev_ID (env_Event env) <> "" ->
     let g := if env_Generation env =? 0 then 1 else env_Generation env in
     no_callback_delivery (env_DeliveryID env) g (w_db w)
     \/ closed_at (env_DeliveryID env) g (w_db w')).
Proof using others_step.
  intros Hinv Htok Hgen Hrun Hack env -> Hid Hev g. specialize (Hgen env eq_refl).
  unfold process in Hrun. rewrite !bool_decide_eq_false_2 in Hrun by done. cbn [orb] in Hrun.
  fold g in Hrun. assert (1 <= g) as Hg by (unfold g; destruct (env_Generation env =? 0) eqn:E; lia).
  assert (CallbackFinishMargin < js_LeaseDuration (NewJetStream o)) as Hlease.
  { unfold NewJetStream, CallbackFinishMargin. cbn [js_LeaseDuration].
    set (timeout := if js_AttemptTimeout o <=? 0 then _ else _).
    assert (0 < timeout) by 
      (unfold timeout, Second, Millisecond, Microsecond; destruct (_ <=? 0) eqn:E; lia).
    destruct (_ <? timeout + _) eqn:E; bool_to_prop; unfold Second, Millisecond, Microsecond in *; lia. }
  destruct (BeginCallbackAttempt _ _ _ _ _ _ w) as [[[d disposition]|e] w1] eqn:Hb.
  2:{ left. apply begin_callback_error in Hb as [->|Hno]; try done.
      rewrite !bool_decide_eq_false_2 in Hrun by done. by simplify_eq/=. }
  right. apply begin_callback_effect in Hb as (_ & _ & _ & r & a & e & ob & Hj & Hgr & _ & Hb).
  apply callback_join_inv in Hj as (Hr & _). pose proof (ri_row_key _ Hinv _ _ Hr) as Hkey.
  unfold begun_as in Hb. destruct disposition; cbn [fst snd] in Hb.
  - destruct (tn_cancelled turn); [by simplify_eq|].
    destruct Hb as (_ & _ & _ & _ & _ & url & enc & version & secret & _ & _ & _ & _ & _ & -> & _ & Hdb).
    assert (closed_at (dr_id r) (dr_generation r) (w_db w')) as Hc; [|by rewrite Hkey, Hgr in Hc].
    refine (finish_turn_acked _ _ _ _ Hrun Hack _). intros Hp%(dispatch_published r a ob).
    destruct (started_tables (env_DeliveryID env) g (tn_token turn) (dr_attempts r + 1)
      (postgresTime (postgresTime (tn_now turn) + js_LeaseDuration (NewJetStream o))) url version
      (postgresTime (tn_now turn)) r (w_db w)) as (Hrows & _).
    rewrite <- (deliveries_proper _ _ Hdb) in Hrows.
    destruct (others_step (w_db w1) (env_DeliveryID env) (start_row (dr_attempts r + 1) (tn_token turn)
      (postgresTime (postgresTime (tn_now turn) + js_LeaseDuration (NewJetStream o))) url version
      (postgresTime (tn_now turn)) r)) as (r2 & Hr2 & Hs2); [rewrite Hrows; apply lookup_insert_eq|].
    exists r2. split; [simpl; by rewrite Hkey|]. intros Hg2.
    by apply (rst_dlq _ _ (rs_move _ _ Hs2 Hg2)).
  - by simplify_eq.
  - destruct Hb as (Hcomp & _ & Hdb). simplify_eq. exists r. rewrite Hdb. split_and!; [done..|]. by left.
  - assert (closed_at (dr_id r) (dr_generation r) (w_db w')) as Hc; [|by rewrite Hkey, Hgr in Hc].
    destruct Hb as [(Hs & -> & Hdb)|(reason & _ & _ & _ & -> & _ & Hdb)].
    + refine (publish_dlq_acked _ _ _ _ _ Hrun Hack _). intros Hp%(dispatch_published r a ob).
      exists r. simpl. rewrite Hkey, Hdb. split_and!; [done..|]. by right.
    + refine (publish_dlq_acked _ _ _ _ _ Hrun Hack _). intros Hp%(dispatch_published r a ob).
      eexists. simpl. rewrite (deliveries_proper _ _ Hdb), Hkey. simpl. rewrite lookup_insert_eq.
      split_and!; [done..|]. right. by split.
  - done.
Qed.

End turn.

End worker.
