(* ===== verification/StreamProtocol.v ===== *)
(** * The stream protocol ([streamprotocol/protocol.go])

    Frames are JSON objects without repeated keys. Both directions are checked
    field by field, and every refusal carries one of a fixed set of codes. *)

From Stdlib Require Import Ascii String.
From S2P Require Import Prelude GoLib Crypto Json JsonEncode Domain.

Definition Version : Z := 1.
Definition DefaultConsumer : string := "default".
Definition MaxMessageBytes : Z := 64 * 1024.

Definition CloseProtocolViolation : Z := 4400.
Definition CloseUnsupportedVersion : Z := 4406.
Definition CloseBackpressure : Z := 4429.
Definition CloseDependencyUnavailable : Z := 4503.

Definition stableErrors : list string :=
  ["invalid_utf8"; "frame_too_large"; "invalid_json"; "duplicate_key"; "invalid_frame"; "unknown_type";
   "unsupported_version"; "delivery_not_assigned"; "stale_delivery"; "consumer_already_started";
   "consumer_unavailable"; "backpressure"; "function_not_assigned"; "internal_error"].

Record ProtocolError := mkProtocolError {
  pe_Code : string;
  pe_Message : string;
  pe_Retryable : bool
}.
Definition StableErrorCode (c : string) : bool := bool_decide (c ∈ stableErrors).

Definition CloseCodeFor (err : option ProtocolError) : Z :=
  match err with
  | None => 1000
  | Some e =>
      if bool_decide (pe_Code e = "frame_too_large") then 1009
      else if bool_decide (pe_Code e = "unsupported_version") then CloseUnsupportedVersion
      else if bool_decide (pe_Code e = "backpressure") then CloseBackpressure
      else if bool_decide (pe_Code e = "consumer_unavailable") || bool_decide (pe_Code e = "internal_error")
      then CloseDependencyUnavailable
      else CloseProtocolViolation
  end.

Definition invalidFrame : ProtocolError :=
  mkProtocolError "invalid_frame" "Frame fields are invalid." false.
Definition unsupportedVersion : ProtocolError :=
  mkProtocolError "unsupported_version" "Protocol version is not supported." false.
Definition unknownType : ProtocolError :=
  mkProtocolError "unknown_type" "Frame type is not supported." false.
Definition invalidJSON : ProtocolError :=
  mkProtocolError "invalid_json" "Frame must contain exactly one JSON object." false.

(** ** Objects *)

Abbreviation object := (list (string * json)).

(** [inspectValue] walks the tokens without a bound on the nesting and stops at a
    repeated key; [json.Unmarshal] then reads the text again. *)
Definition inspectValue (raw : string) : presult json :=
  let l := bytes raw in parse_value true (len raw + 1) (parse_fuel l) 0 l.
Definition decodeObject (raw : string) : object + ProtocolError :=
  if MaxMessageBytes <? len raw
  then inr (mkProtocolError "frame_too_large" "Frame exceeds the 64 KiB limit." false)
  else if negb (utf8_Valid raw)
  then inr (mkProtocolError "invalid_utf8" "Frame must contain valid UTF-8." false)
  else match inspectValue raw with
       | PDup => inr (mkProtocolError "duplicate_key" "Frame contains a duplicate JSON object key." false)
       | POk (JObj _) rest =>
           match skip_space rest, json_parse raw with
           | [], Some (JObj ms) => inl ms
           | _, _ => inr invalidJSON
           end
       | _ => inr invalidJSON
       end.

(** A field of an object; [null] leaves the zero value, without an error. *)
Definition stringField (o : object) (name : string) : option string :=
  match obj_lookup name o with
  | Some (JStr s) => Some s
  | Some JNull => Some ""
  | _ => None
  end.
Definition boolField (o : object) (name : string) : option bool :=
  match obj_lookup name o with
  | Some (JBool b) => Some b
  | Some JNull => Some false
  | _ => None
  end.
Definition intField (o : object) (name : string) : option Z :=
  match obj_lookup name o with
  | Some (JNum lit) => parse_int64 lit
  | Some JNull => Some 0
  | _ => None
  end.
Definition only (o : object) (fields : list string) : bool :=
  forallb (fun m => bool_decide (m.1 ∈ fields)) o.
Definition bounded (value : string) (max : Z) : bool :=
  negb (bool_decide (value = "")) && (len value <=? max).
Definition jsonObject (v : option json) : bool := match v with Some (JObj _) => true | _ => false end.

(** A field that has to be there and to satisfy [p]. *)
Definition field_is {A} (value : option A) (p : A -> bool) : bool :=
  match value with Some a => p a | None => false end.

Definition validHandlerError (v : json) : bool :=
  match v with
  | JObj e =>
      only e ["code"; "message"] && (length e =? 2)%nat
      && field_is (stringField e "code") ValidFunctionName
      && field_is (stringField e "message") (fun m => bounded m 1024)
  | _ => false
  end.

(** ** [time.Parse(time.RFC3339, value)]

    The hour may have one digit, a fraction of a second may follow the seconds, and an
    offset may be 24:60. *)

Definition digit_value (c : ascii) : option Z := if is_digit c then Some (code c - 48) else None.
Definition two_digits (l : list ascii) : option (Z * list ascii) :=
  match l with
  | a :: b :: rest => x ← digit_value a; y ← digit_value b; Some (10 * x + y, rest)
  | _ => None
  end.
Definition one_or_two_digits (l : list ascii) : option (Z * list ascii) :=
  match two_digits l with
  | Some r => Some r
  | None => match l with a :: rest => x ← digit_value a; Some (x, rest) | [] => None end
  end.
Definition four_digits (l : list ascii) : option (Z * list ascii) :=
  '(x, r) ← two_digits l; '(y, r) ← two_digits r; Some (100 * x + y, r).
Definition skip_fraction (l : list ascii) : list ascii :=
  match l with
  | c :: d :: rest =>
      if (bool_decide (c = "."%char) || bool_decide (c = ","%char)) && is_digit d
      then (span_digits (d :: rest)).2 else l
  | _ => l
  end.
Definition isLeap (year : Z) : bool :=
  (year `mod` 4 =? 0) && (negb (year `mod` 100 =? 0) || (year `mod` 400 =? 0)).
Definition daysIn (month year : Z) : Z :=
  if month =? 2 then if isLeap year then 29 else 28
  else if (month =? 4) || (month =? 6) || (month =? 9) || (month =? 11) then 30 else 31.
Definition zone_ok (l : list ascii) : bool :=
  match l with
  | ["Z"%char] => true
  | sign :: rest =>
      match
        '(hour, r) ← two_digits rest; r ← eat ":" r; '(minute, r) ← two_digits r; Some (hour, minute, r)
      with
      | Some (hour, minute, []) =>
          (hour <=? 24) && (minute <=? 60)
          && (bool_decide (sign = "+"%char) || bool_decide (sign = "-"%char))
      | _ => false
      end
  | [] => false
  end.
Definition validTime (value : string) : bool :=
  match
    '(year, r) ← four_digits (bytes value); r ← eat "-" r;
    '(month, r) ← two_digits r; r ← eat "-" r;
    '(day, r) ← two_digits r; r ← eat "T" r;
    '(hour, r) ← one_or_two_digits r; r ← eat ":" r;
    '(minute, r) ← two_digits r; r ← eat ":" r;
    '(second, r) ← two_digits r;
    Some (year, month, day, (hour, minute, second), skip_fraction r)
  with
  | Some (year, month, day, (hour, minute, second), zone) =>
      (1 <=? month) && (month <=? 12) && (1 <=? day) && (day <=? daysIn month year)
      && (hour <? 24) && (minute <? 60) && (second <? 60) && zone_ok zone
  | None => false
  end.

(** ** Frames of the client *)

Record ClientFrame := mkClientFrame {
  cf_Type : string;
  cf_ProtocolVersion : Z;
  cf_Consumer : string;
  cf_Topics : list string;
  cf_MaxInFlight : Z;
  cf_DeliveryID : string;
  cf_DelayMS : Z;
  cf_InvocationID : string;
  cf_OK : option bool;
  cf_Result : option json;
  cf_Error : option json
}.
Definition frame_of_type (t : string) : ClientFrame := mkClientFrame t 0 "" [] 0 "" 0 "" None None None.

Definition decode_start (o : object) : ClientFrame + ProtocolError :=
  if negb (only o ["type"; "protocol_version"; "consumer"; "max_in_flight"]) then inr invalidFrame else
  match intField o "protocol_version", stringField o "consumer", intField o "max_in_flight" with
  | version, consumer, max =>
      if field_is version (fun v => negb (v =? Version)) then inr unsupportedVersion else
      match version, consumer, max with
      | Some v, Some c, Some m =>
          if negb (bool_decide (c = DefaultConsumer)) || (m <? 1) || (256 <? m) then inr invalidFrame
          else inl (mkClientFrame "consumer.start" v c [] m "" 0 "" None None None)
      | _, _, _ => inr invalidFrame
      end
  end.
Definition decode_settle (t : string) (o : object) : ClientFrame + ProtocolError :=
  if negb (only o ["type"; "delivery_id"]) then inr invalidFrame else
  match stringField o "delivery_id" with
  | Some id => if negb (bounded id 128) then inr invalidFrame
               else inl (mkClientFrame t 0 "" [] 0 id 0 "" None None None)
  | None => inr invalidFrame
  end.
Definition decode_nack (o : object) : ClientFrame + ProtocolError :=
  if negb (only o ["type"; "delivery_id"; "delay_ms"]) then inr invalidFrame else
  match stringField o "delivery_id", intField o "delay_ms" with
  | Some id, Some delay =>
      if negb (bounded id 128) || (delay <? 0) || (300000 <? delay) then inr invalidFrame
      else inl (mkClientFrame "delivery.nack" 0 "" [] 0 id delay "" None None None)
  | _, _ => inr invalidFrame
  end.
Definition decode_result (o : object) : ClientFrame + ProtocolError :=
  if negb (only o ["type"; "invocation_id"; "ok"; "result"; "error"]) then inr invalidFrame else
  match stringField o "invocation_id", boolField o "ok" with
  | Some id, Some ok =>
      if negb (bounded id 128) then inr invalidFrame else
      match ok, obj_lookup "result" o, obj_lookup "error" o with
      | true, Some result, None =>
          inl (mkClientFrame "function.result" 0 "" [] 0 "" 0 id (Some true) (Some result) None)
      | false, None, Some e =>
          if negb (validHandlerError e) then inr invalidFrame
          else inl (mkClientFrame "function.result" 0 "" [] 0 "" 0 id (Some false) None (Some e))
      | _, _, _ => inr invalidFrame
      end
  | _, _ => inr invalidFrame
  end.

Definition DecodeClientFrame (raw : string) : ClientFrame + ProtocolError :=
  match decodeObject raw with
  | inr e => inr e
  | inl o =>
      match stringField o "type" with
      | None => inr invalidFrame
      | Some t =>
          if bool_decide (t = "") then inr invalidFrame
          else if bool_decide (t = "consumer.start") then decode_start o
          else if bool_decide (t = "delivery.ack") || bool_decide (t = "delivery.progress")
          then decode_settle t o
          else if bool_decide (t = "delivery.nack") then decode_nack o
          else if bool_decide (t = "function.result") then decode_result o
          else if bool_decide (t = "ping")
          then if only o ["type"] then inl (frame_of_type t) else inr invalidFrame
          else inr unknownType
      end
  end.

(** ** Assignments named by a frame *)

Record ClientAssignment := mkClientAssignment { ca_AppID : string; ca_ConnectionID : string }.
Definition notAssigned : ProtocolError :=
  mkProtocolError "delivery_not_assigned" "Delivery is not assigned to this connection." false.
Definition functionNotAssigned : ProtocolError :=
  mkProtocolError "function_not_assigned" "Function invocation is not assigned to this connection." false.

Definition ValidateAssignment (f : ClientFrame) (appID connectionID : string)
    (assignments : gmap string ClientAssignment) : option ProtocolError :=
  if bool_decide (cf_DeliveryID f = "") then Some invalidFrame else
  match assignments !! cf_DeliveryID f with
  | None => Some notAssigned
  | Some a =>
      if negb (bool_decide (ca_AppID a = appID)) then Some notAssigned
      else if negb (bool_decide (ca_ConnectionID a = connectionID))
      then Some (mkProtocolError "stale_delivery" "Delivery assignment is no longer current." true)
      else None
  end.
Definition ValidateInvocationAssignment (f : ClientFrame) (appID connectionID : string)
    (assignments : gmap string ClientAssignment) : option ProtocolError :=
  if bool_decide (cf_InvocationID f = "") then Some invalidFrame else
  match assignments !! cf_InvocationID f with
  | None => Some functionNotAssigned
  | Some a =>
      if negb (bool_decide (ca_AppID a = appID)) || negb (bool_decide (ca_ConnectionID a = connectionID))
      then Some functionNotAssigned else None
  end.

(** ** Frames of the server *)

Definition target_names (v : option json) : option (list string) :=
  match v with
  | Some (JArr l) => mapM (fun x => match x with JStr s => Some s | JNull => Some "" | _ => None end) l
  | Some JNull => Some []
  | _ => None
  end.
Definition validEvent (v : option json) : bool :=
  match v with
  | Some (JObj e) =>
      only e ["id"; "type"; "source_app_id"; "target_app_ids"; "data"; "created_at"]
      && (length e =? 6)%nat
      && field_is (target_names (obj_lookup "target_app_ids" e)) (fun targets =>
           negb ((length targets <? 1)%nat || (100 <? length targets)%nat)
           && forallb (fun t => bounded t 128) targets && bool_decide (NoDup targets))
      && field_is (stringField e "id") (fun id => bounded id 128)
      && field_is (stringField e "type") (fun t => negb (bool_decide (t = "")))
      && field_is (stringField e "source_app_id") (fun s => bounded s 128)
      && jsonObject (obj_lookup "data" e) && field_is (stringField e "created_at") validTime
  | _ => false
  end.

Definition in_bounds (lo hi : Z) (z : Z) : bool := negb ((z <? lo) || (hi <? z)).

(** The fields of each type of frame: the names it may have and the test it passes. *)
Definition server_fields (t : string) (o : object) : option (list string * bool) :=
  if bool_decide (t = "ready") then
    Some (["type"; "protocol_version"; "app_id"; "connection_id"; "heartbeat_interval_ms";
           "max_in_flight_limit"],
          field_is (intField o "protocol_version") (fun v => v =? Version)
          && field_is (stringField o "app_id") (fun a => bounded a 128)
          && field_is (stringField o "connection_id") (fun c => bounded c 128)
          && field_is (intField o "heartbeat_interval_ms") (in_bounds 1000 120000)
          && field_is (intField o "max_in_flight_limit") (in_bounds 1 256))
  else if bool_decide (t = "consumer.started") then
    Some (["type"; "consumer"; "max_in_flight"],
          field_is (stringField o "consumer") (fun c => bool_decide (c = DefaultConsumer))
          && field_is (intField o "max_in_flight") (in_bounds 1 256))
  else if bool_decide (t = "event.delivery") then
    Some (["type"; "delivery_id"; "attempt"; "event"],
          field_is (stringField o "delivery_id") (fun id => bounded id 128)
          && field_is (intField o "attempt") (fun a => 1 <=? a) && validEvent (obj_lookup "event" o))
  else if bool_decide (t = "delivery.accepted") then
    Some (["type"; "delivery_id"; "state"],
          field_is (stringField o "delivery_id") (fun id => bounded id 128)
          && field_is (stringField o "state") (fun s => bool_decide (s = "acked")
               || bool_decide (s = "retrying") || bool_decide (s = "progress")))
  else if bool_decide (t = "function.invoke") then
    Some (["type"; "invocation_id"; "function"; "input"; "deadline"],
          field_is (stringField o "invocation_id") (fun id => bounded id 128)
          && field_is (stringField o "function") ValidFunctionName && jsonObject (obj_lookup "input" o)
          && field_is (stringField o "deadline") validTime)
  else if bool_decide (t = "error") then
    Some (["type"; "code"; "message"; "retryable"],
          field_is (stringField o "code") StableErrorCode
          && field_is (stringField o "message") (fun m => bounded m 1024)
          && field_is (boolField o "retryable") (fun _ => true))
  else if bool_decide (t = "pong") then Some (["type"], true)
  else None.
Definition ValidateServerFrame (raw : string) : option ProtocolError :=
  match decodeObject raw with
  | inr e => Some e
  | inl o =>
      match stringField o "type" with
      | None => Some invalidFrame
      | Some t =>
          match server_fields t o with
          | None => Some unknownType
          | Some (fields, ok) => if only o fields && ok then None else Some invalidFrame
          end
      end
  end.
