(* ===== verification/StreamFrames.v ===== *)
(** * Frames of the stream protocol: theorems *)

From Stdlib Require Import Ascii String.
From S2P Require Import Prelude GoLib Crypto Json JsonEncode Domain StreamProtocol.

(** ** The two passes over a frame *)

(** The pass that looks for repeated keys and the one that decodes read the same
    value. *)
Definition agrees {A} (p q : presult A) : Prop :=
  forall a r b r', p = POk a r -> q = POk b r' -> a = b /\ r = r'.

Section passes.
Context (limit limit' : Z).

Lemma passes_agree fuel :
  (forall d d' l, agrees (parse_value true limit fuel d l) (parse_value false limit' fuel d' l))
  /\ (forall d d' first l, agrees (parse_elems true limit fuel d first l) (parse_elems false limit' fuel d' first l))
  /\ (forall d d' first seen seen' l, agrees (parse_members true limit fuel d first seen l)
        (parse_members false limit' fuel d' first seen' l)).
Proof.
  induction fuel as [|f (IHv & IHe & IHm)]; [by split_and!|]. split_and!.
  - intros d d' l a r b r'. simpl. intros Hp Hq.
    destruct (skip_space l) as [|c l']; [done|]. destruct (decide (c = "{"%char)).
    { destruct (d <? limit); [|done]. destruct (d' <? limit'); [|done].
      destruct (parse_members true _ _ _ _ _ _) eqn:E1; try done.
      destruct (parse_members false _ _ _ _ _ _) eqn:E2; try done.
      destruct (IHm _ _ _ _ _ _ _ _ _ _ E1 E2). by simplify_eq. }
    destruct (decide (c = "["%char)).
    { destruct (d <? limit); [|done]. destruct (d' <? limit'); [|done].
      destruct (parse_elems true _ _ _ _ _) eqn:E1; try done.
      destruct (parse_elems false _ _ _ _ _) eqn:E2; try done.
      destruct (IHe _ _ _ _ _ _ _ _ E1 E2). by simplify_eq. }
    rewrite Hp in Hq. by simplify_eq.
  - intros d d' first l a r b r'. simpl. intros Hp Hq.
    destruct (eat "]" (skip_space l)); [by simplify_eq|].
    destruct (if first then Some (skip_space l) else eat "," (skip_space l)) as [l1|]; [|done].
    destruct (parse_value true _ _ _ _) as [v l2| | |] eqn:E1; try done.
    destruct (parse_value false _ _ _ _) as [v' l2'| | |] eqn:E2; try done.
    destruct (IHv _ _ _ _ _ _ _ E1 E2) as [<- <-].
    destruct (parse_elems true _ _ _ _ _) eqn:E3; try done.
    destruct (parse_elems false _ _ _ _ _) eqn:E4; try done.
    destruct (IHe _ _ _ _ _ _ _ _ E3 E4). by simplify_eq.
  - intros d d' first seen seen' l a r b r'. simpl. intros Hp Hq.
    destruct (eat "}" (skip_space l)); [by simplify_eq|].
    destruct (if first then Some (skip_space l) else eat "," (skip_space l)) as [l1|]; [|done].
    destruct (eat (chr 34) (skip_space l1)) as [l2|]; [|done].
    destruct (scan_string l2) as [[k l3]|]; [|done]. cbn [andb] in Hp, Hq.
    destruct (bool_decide (of_bytes (coerce_utf8 k) ∈ seen)); [done|].
    destruct (eat ":" (skip_space l3)) as [l4|]; [|done].
    destruct (parse_value true _ _ _ _) as [v l5| | |] eqn:E1; try done.
    destruct (parse_value false _ _ _ _) as [v' l5'| | |] eqn:E2; try done.
    destruct (IHv _ _ _ _ _ _ _ E1 E2) as [<- <-].
    destruct (parse_members true _ _ _ _ _ _) eqn:E3; try done.
    destruct (parse_members false _ _ _ _ _ _) eqn:E4; try done.
    destruct (IHm _ _ _ _ _ _ _ _ _ _ E3 E4). by simplify_eq.
Qed.

Lemma strict_members fuel d first seen l ms r :
  parse_members true limit fuel d first seen l = POk ms r ->
  NoDup ms.*1 /\ forall k, k ∈ ms.*1 -> k ∉ seen.
Proof.
  revert first seen l ms. induction fuel as [|f IH]; intros first seen l ms; [done|]. simpl.
  destruct (eat "}" (skip_space l)).
  { intros; simplify_eq. split; [constructor|]. by intros k Hk%elem_of_nil. }
  destruct (if first then Some (skip_space l) else eat "," (skip_space l)) as [l1|]; [|done].
  destruct (eat (chr 34) (skip_space l1)) as [l2|]; [|done].
  destruct (scan_string l2) as [[k l3]|]; [|done]. cbn [andb]. case_bool_decide as Hnew; [done|].
  destruct (eat ":" (skip_space l3)) as [l4|]; [|done].
  destruct (parse_value true _ _ _ _) as [v l5| | |]; try done.
  destruct (parse_members true _ _ _ _ _ _) as [ms' r'| | |] eqn:E; try done. intros. simplify_eq.
  apply IH in E as [Hnd Hseen]. cbn [fmap list_fmap fst]. split.
  - constructor; [|done]. intros Hin. apply (Hseen _ Hin). by left.
  - intros k' [-> | Hk]%elem_of_cons; [done|]. intros Hin. apply (Hseen k' Hk). by right.
Qed.
End passes.

(** An accepted frame is one JSON object without a repeated key. *)
Lemma decode_object_ok raw ms :
  decodeObject raw = inl ms ->
  len raw <= MaxMessageBytes /\ utf8_Valid raw = true /\ json_parse raw = Some (JObj ms) /\ NoDup ms.*1.
Proof.
  unfold decodeObject. destruct (MaxMessageBytes <? len raw) eqn:Hlen; [done|].
  destruct (utf8_Valid raw) eqn:Hutf; [|done]. cbn [negb].
  destruct (inspectValue raw) as [[| | | | |ms'] rest| | |] eqn:Hi; try done.
  destruct (skip_space rest) eqn:Hr; [|done].
  destruct (json_parse raw) as [[| | | | |ms0]|] eqn:Hj; try done. intros [= ->].
  split_and!; [lia|done|done|]. unfold inspectValue in Hi. unfold json_parse in Hj.
  destruct (parse_value false _ _ _ _) as [v r| | |] eqn:Hp; try done. destruct (skip_space r); [|done].
  injection Hj as ->. destruct (proj1 (passes_agree _ _ _) _ _ _ _ _ _ _ Hi Hp) as [Heq _].
  injection Heq as ->. unfold parse_fuel in Hi. rewrite Nat.add_1_r in Hi. simpl in Hi.
  destruct (skip_space (bytes raw)) as [|c l]; [done|]. destruct (decide (c = "{"%char)).
  - destruct (0 <? len raw + 1); [|done]. destruct (parse_members true _ _ _ _ _ _) eqn:E; try done.
    injection Hi as <- <-. by apply strict_members in E as [? _].
  - destruct (decide (c = "["%char)).
    { destruct (0 <? len raw + 1); [|done]. by destruct (parse_elems true _ _ _ _ _). }
    repeat case_match; simplify_eq.
Qed.

(** ** Frames of the client *)

(** A frame of each type has its fields in their ranges, and no others set. *)
Inductive well_formed : ClientFrame -> Prop :=
| wf_start max : 1 <= max <= 256 ->
    well_formed (mkClientFrame "consumer.start" Version DefaultConsumer [] max "" 0 "" None None None)
| wf_settle t id : t = "delivery.ack" \/ t = "delivery.progress" -> id <> "" -> len id <= 128 ->
    well_formed (mkClientFrame t 0 "" [] 0 id 0 "" None None None)
| wf_nack id delay : id <> "" -> len id <= 128 -> 0 <= delay <= 300000 ->
    well_formed (mkClientFrame "delivery.nack" 0 "" [] 0 id delay "" None None None)
| wf_result id result : id <> "" -> len id <= 128 ->
    well_formed (mkClientFrame "function.result" 0 "" [] 0 "" 0 id (Some true) (Some result) None)
| wf_error id e : id <> "" -> len id <= 128 -> validHandlerError e = true ->
    well_formed (mkClientFrame "function.result" 0 "" [] 0 "" 0 id (Some false) None (Some e))
| wf_ping : well_formed (frame_of_type "ping").

Lemma bounded_ok value max : bounded value max = true -> value <> "" /\ len value <= max.
Proof. unfold bounded. intros H. bool_to_prop. destruct_and!. split; [done|lia]. Qed.

Definition frame_answer (r : ClientFrame + ProtocolError) : Prop :=
  match r with
  | inl f => well_formed f
  | inr e => StableErrorCode (pe_Code e) = true /\ pe_Retryable e = false
  end.
Lemma decode_start_answer ms : frame_answer (decode_start ms).
Proof.
  unfold decode_start. destruct (negb _); [done|].
  destruct (field_is _ _) eqn:Hv; [done|]. destruct (intField ms "protocol_version") as [v|]; [|done].
  destruct (stringField ms "consumer") as [c|]; [|done]. destruct (intField ms "max_in_flight") as [m|]; [|done].
  destruct (negb (bool_decide (c = DefaultConsumer)) || (m <? 1) || (256 <? m)) eqn:Hb; [done|].
  simpl in Hv. bool_to_prop. destruct_and!. simpl. subst c. assert (v = Version) as -> by lia.
  constructor. lia.
Qed.
Lemma decode_settle_answer t ms :
  t = "delivery.ack" \/ t = "delivery.progress" -> frame_answer (decode_settle t ms).
Proof.
  intros Ht. unfold decode_settle. destruct (negb _); [done|].
  destruct (stringField ms "delivery_id") as [id|]; [|done].
  destruct (bounded id 128) eqn:Hb; [|done]. apply bounded_ok in Hb as [? ?]. by constructor.
Qed.
Lemma decode_nack_answer ms : frame_answer (decode_nack ms).
Proof.
  unfold decode_nack. destruct (negb (only _ _)); [done|].
  destruct (stringField ms "delivery_id") as [id|]; [|done]. destruct (intField ms "delay_ms") as [d|]; [|done].
  destruct (bounded id 128) eqn:Hb; [|done]. apply bounded_ok in Hb as [? ?]. cbn [negb orb].
  destruct ((d <? 0) || (300000 <? d)) eqn:Hd; [done|]. constructor; [done|done|lia].
Qed.
Lemma decode_result_answer ms : frame_answer (decode_result ms).
Proof.
  unfold decode_result. destruct (negb (only _ _)); [done|].
  destruct (stringField ms "invocation_id") as [id|]; [|done]. destruct (boolField ms "ok") as [ok|]; [|done].
  destruct (bounded id 128) eqn:Hb; [|done]. apply bounded_ok in Hb as [? ?]. cbn [negb].
  destruct ok, (obj_lookup "result" ms) as [res|], (obj_lookup "error" ms) as [e|]; try done.
  - by constructor.
  - destruct (validHandlerError e) eqn:He; [|done]. by constructor.
Qed.

(** C19: decoding. A frame of the client is accepted only when it is at most 64 KiB of
    UTF-8 that hold one JSON object without a repeated key of its own, and what it is decoded
    to is well formed: every field is in the range its type allows. Anything else
    is refused with one of the stable codes, as not worth a retry. *)
Theorem client_frames_typed raw :
  match DecodeClientFrame raw with
  | inl f =>
      well_formed f /\ len raw <= MaxMessageBytes /\ utf8_Valid raw = true
      /\ exists ms, json_parse raw = Some (JObj ms) /\ NoDup ms.*1
           /\ stringField ms "type" = Some (cf_Type f)
  | inr e => StableErrorCode (pe_Code e) = true /\ pe_Retryable e = false
  end.
Proof.
  assert (match DecodeClientFrame raw with
          | inl f => well_formed f /\ exists ms, decodeObject raw = inl ms
                       /\ stringField ms "type" = Some (cf_Type f)
          | inr e => StableErrorCode (pe_Code e) = true /\ pe_Retryable e = false
          end) as H.
  2:{ destruct (DecodeClientFrame raw) as [f|e]; [|done]. destruct H as (Hf & ms & Hms & Ht).
      apply decode_object_ok in Hms as (? & ? & ? & ?). eauto 10. }
  unfold DecodeClientFrame. destruct (decodeObject raw) as [ms|e] eqn:Ho.
  2:{ unfold decodeObject in Ho. repeat case_match; by simplify_eq. }
  destruct (stringField ms "type") as [t|] eqn:Ht; [|done]. case_bool_decide; [done|].
  assert (forall r, frame_answer r -> (forall f, r = inl f -> cf_Type f = t) ->
    match r with
    | inl f => well_formed f /\ exists ms0, (inl ms : object + ProtocolError) = inl ms0 /\ stringField ms0 "type" = Some (cf_Type f)
    | inr e => StableErrorCode (pe_Code e) = true /\ pe_Retryable e = false
    end) as Hgo.
  { intros [f|e] Ha Hr; [|done]. split; [done|]. exists ms. rewrite (Hr f eq_refl). done. }
  destruct (bool_decide (t = "consumer.start")) eqn:E1; [|destruct (_ || _) eqn:E2;
    [|destruct (bool_decide (t = "delivery.nack")) eqn:E3;
    [|destruct (bool_decide (t = "function.result")) eqn:E4;
    [|destruct (bool_decide (t = "ping")) eqn:E5; [|done]]]]]; bool_to_prop.
  - apply Hgo; [apply decode_start_answer|]. subst t. unfold decode_start.
    intros f. repeat case_match; intros; by simplify_eq.
  - apply Hgo; [by apply decode_settle_answer|]. unfold decode_settle.
    intros f. repeat case_match; intros; by simplify_eq.
  - apply Hgo; [apply decode_nack_answer|]. subst t. unfold decode_nack.
    intros f. repeat case_match; intros; by simplify_eq.
  - apply Hgo; [apply decode_result_answer|]. subst t. unfold decode_result.
    intros f. repeat case_match; intros; by simplify_eq.
  - subst t. apply Hgo; [|by case_match; intros; simplify_eq]. destruct (only ms ["type"]); [apply wf_ping|done].
Qed.

(** ** Frames as a client writes them *)

Definition client_fields (f : ClientFrame) : list (string * scalar) :=
  ("type", SStr (cf_Type f))
  :: (if bool_decide (cf_Type f = "consumer.start")
      then [("protocol_version", SInt (cf_ProtocolVersion f)); ("consumer", SStr (cf_Consumer f));
            ("max_in_flight", SInt (cf_MaxInFlight f))]
      else if bool_decide (cf_Type f = "delivery.nack")
      then [("delivery_id", SStr (cf_DeliveryID f)); ("delay_ms", SInt (cf_DelayMS f))]
      else if bool_decide (cf_Type f = "ping") then [] else [("delivery_id", SStr (cf_DeliveryID f))]).
Definition client_text (f : ClientFrame) : string := json_object (client_fields f).

Lemma decode_json_object ms :
  forallb (fun m => scalar_ok m.2) ms = true -> NoDup ((fun m => coerce m.1) <$> ms) ->
  len (json_object ms) <= MaxMessageBytes ->
  decodeObject (json_object ms) = inl ((fun m => (coerce m.1, scalar_json m.2)) <$> ms).
Proof.
  intros Hok Hnd Hlen. unfold decodeObject.
  assert ((MaxMessageBytes <? len (json_object ms)) = false) as -> by lia.
  rewrite json_object_utf8 by done. cbn [negb].
  assert (inspectValue (json_object ms) = POk (JObj ((fun m => (coerce m.1, scalar_json m.2)) <$> ms)) []) as ->.
  { unfold inspectValue, json_object at 2 3. rewrite bytes_of_bytes. pose proof (members_length true ms).
    unfold parse_fuel. cbn [length]. rewrite Nat.add_1_r, parse_brace.
    2:{ rewrite len_bytes. lia. }
    rewrite parse_object_members; [done|lia|done|]. right. split; [done|]. intros m _. apply not_elem_of_nil. }
  cbn [skip_space]. by rewrite parse_json_object.
Qed.

Lemma digits_value_ge acc ds :
  0 <= acc -> forallb is_digit ds = true -> acc * 10 ^ Z.of_nat (length ds) <= digits_value acc ds.
Proof.
  revert acc. induction ds as [|c ds IH]; intros acc Hacc Hd; [simpl; lia|]. cbn [forallb] in Hd.
  apply andb_true_iff in Hd as [Hc Hd]. unfold digits_value in *. cbn [fold_left length].
  assert (48 <= code c) as Hlo by (unfold is_digit, in_range in Hc; change (code "0") with 48 in Hc; lia).
  etransitivity; [|apply IH; [lia|done]]. rewrite Nat2Z.inj_succ, Z.pow_succ_r by lia.
  pose proof (Z.pow_pos_nonneg 10 (Z.of_nat (length ds))). nia.
Qed.
Lemma decimal_small z : 0 <= z < 1000000 -> len (decimal z) <= 6.
Proof.
  intros Hz. destruct (decimal_digits z) as (c & ds & Hb & Hd & Hv & H0); [lia|].
  rewrite len_bytes, Hb. cbn [length]. destruct (decide (c = "0"%char)) as [Heq|Hne].
  { rewrite (H0 Heq). simpl. lia. }
  cbn [forallb] in Hd. apply andb_true_iff in Hd as [Hc Hd].
  assert (1 <= code c - 48) as Hlead.
  { assert (code c <> 48) by (intros Heq; apply Hne; by rewrite <- (chr_code c), Heq).
    unfold is_digit, in_range in Hc. change (code "0") with 48 in Hc. lia. }
  assert (10 ^ Z.of_nat (length ds) <= z) as Hge.
  { rewrite <- Hv. unfold digits_value. cbn [fold_left]. fold (digits_value (10 * 0 + (code c - 48)) ds).
    etransitivity; [|by apply digits_value_ge; [lia|]].
    pose proof (Z.pow_pos_nonneg 10 (Z.of_nat (length ds))). nia. }
  destruct (decide (length ds <= 5)%nat) as [|Hlong]; [lia|].
  assert (10 ^ 6 <= 10 ^ Z.of_nat (length ds)) by (apply Z.pow_le_mono_r; lia). lia.
Qed.

(** What a member takes at most. *)
Definition member_cost (m : string * scalar) : Z :=
  6 * len m.1 + 4 + match m.2 with SInt _ => 6 | SStr s => 6 * len s + 2 end.
Definition small_scalar (v : scalar) : bool :=
  match v with SInt z => (0 <=? z) && (z <? 1000000) | SStr _ => true end.
Lemma json_quote_length s : Z.of_nat (length (bytes (json_quote s))) <= 6 * len s + 2.
Proof.
  unfold json_quote. rewrite bytes_of_bytes. cbn [length]. rewrite length_app, len_bytes.
  pose proof (quote_length (bytes s)). simpl. lia.
Qed.
Lemma members_cost first ms :
  forallb (fun m => small_scalar m.2) ms = true ->
  Z.of_nat (length (members_bytes first ms)) <= 1 + foldr (fun m z => member_cost m + z) 0 ms.
Proof.
  revert first. induction ms as [|[k v] ms IH]; intros first Hok; [simpl; lia|]. cbn [forallb snd] in Hok.
  apply andb_true_iff in Hok as [Hv Hok]. specialize (IH false Hok). cbn [members_bytes foldr].
  rewrite !length_app. unfold member_bytes, member_cost at 1. cbn [fst snd]. rewrite length_app. cbn [length].
  pose proof (json_quote_length k) as Hk.
  assert (Z.of_nat (length (scalar_bytes v))
          <= match v with SInt _ => 6 | SStr s => 6 * len s + 2 end) as Hs.
  { destruct v as [z|s]; cbn [scalar_bytes]; [|apply json_quote_length].
    rewrite <- len_bytes. apply decimal_small. simpl in Hv. lia. }
  set (cost := match v with SInt _ => 6 | SStr s => 6 * len s + 2 end) in *.
  assert (length (if first then [] else [","%char]) <= 1)%nat by (destruct first; simpl; lia). lia.
Qed.
Lemma small_ok ms :
  forallb (fun m => small_scalar m.2) ms = true -> forallb (fun m : string * scalar => scalar_ok m.2) ms = true.
Proof.
  rewrite !forallb_forall. intros Hs m Hm. specialize (Hs m Hm). destruct (m.2); simpl in *; [lia|done].
Qed.

Lemma client_object f :
  forallb (fun m => small_scalar m.2) (client_fields f) = true ->
  len (cf_Type f) <= 128 -> len (cf_Consumer f) <= 128 -> len (cf_DeliveryID f) <= 128 ->
  decodeObject (client_text f) = inl ((fun m => (coerce m.1, scalar_json m.2)) <$> client_fields f).
Proof.
  intros Hs Ht Hc Hd. apply decode_json_object; [by apply small_ok| |].
  - apply (bool_decide_eq_true_1 _). unfold client_fields.
    destruct (bool_decide (cf_Type f = "consumer.start")), (bool_decide (cf_Type f = "delivery.nack")),
      (bool_decide (cf_Type f = "ping")); vm_compute; reflexivity.
  - unfold client_text, json_object. rewrite len_bytes, bytes_of_bytes. cbn [length].
    pose proof (members_cost true (client_fields f) Hs) as Hm.
    assert (foldr (fun m z => member_cost m + z) 0 (client_fields f) <= 4000) as Hsum.
    { unfold client_fields. destruct (bool_decide (cf_Type f = "consumer.start")),
        (bool_decide (cf_Type f = "delivery.nack")), (bool_decide (cf_Type f = "ping"));
      cbn [foldr]; unfold member_cost; cbn [fst snd];
      change (len "type") with 4; change (len "protocol_version") with 16; change (len "consumer") with 8;
      change (len "max_in_flight") with 13; change (len "delivery_id") with 11; change (len "delay_ms") with 8;
      lia. }
    unfold MaxMessageBytes. lia.
Qed.

(** Each form of frame, with the text of its number abstracted. *)
Lemma start_object max lit :
  parse_int64 lit = Some max -> 1 <= max <= 256 ->
  decode_start [("type", JStr "consumer.start"); ("protocol_version", JNum "1"); ("consumer", JStr "default");
                ("max_in_flight", JNum lit)]
  = inl (mkClientFrame "consumer.start" Version DefaultConsumer [] max "" 0 "" None None None).
Proof.
  intros Hlit Hmax. unfold decode_start.
  set (ms := [("type", _); _; _; _]). change (only ms _) with true.
  change (intField ms "protocol_version") with (Some 1).
  change (stringField ms "consumer") with (Some "default").
  change (intField ms "max_in_flight") with (parse_int64 lit). rewrite Hlit.
  change (field_is (Some 1) _) with false. change (bool_decide ("default" = DefaultConsumer)) with true.
  cbn [negb orb]. by assert ((max <? 1) || (256 <? max) = false) as -> by lia.
Qed.
Lemma settle_object t id :
  id <> "" -> len id <= 128 ->
  decode_settle t [("type", JStr t); ("delivery_id", JStr id)]
  = inl (mkClientFrame t 0 "" [] 0 id 0 "" None None None).
Proof.
  intros Hne Hlen. unfold decode_settle. set (ms := [("type", _); _]). change (only ms _) with true.
  change (stringField ms "delivery_id") with (Some id). unfold bounded.
  rewrite bool_decide_eq_false_2 by done. by assert ((len id <=? 128) = true) as -> by lia.
Qed.
Lemma nack_object id delay lit :
  parse_int64 lit = Some delay -> 0 <= delay <= 300000 -> id <> "" -> len id <= 128 ->
  decode_nack [("type", JStr "delivery.nack"); ("delivery_id", JStr id); ("delay_ms", JNum lit)]
  = inl (mkClientFrame "delivery.nack" 0 "" [] 0 id delay "" None None None).
Proof.
  intros Hlit Hd Hne Hlen. unfold decode_nack. set (ms := [("type", _); _; _]). change (only ms _) with true.
  change (stringField ms "delivery_id") with (Some id). change (intField ms "delay_ms") with (parse_int64 lit).
  rewrite Hlit. unfold bounded. rewrite bool_decide_eq_false_2 by done.
  by assert ((len id <=? 128) = true /\ ((delay <? 0) = false) /\ (300000 <? delay) = false)
    as (-> & -> & ->) by lia.
Qed.

(** C20: the protocol of the client round-trips. A well-formed frame that is not the
    result of a function, with its identifier in UTF-8, written as JSON, is decoded
    to the frame it was. *)
Theorem client_frames_roundtrip f :
  well_formed f -> cf_OK f = None -> utf8_Valid (cf_DeliveryID f) = true ->
  DecodeClientFrame (client_text f) = inl f.
Proof.
  intros Hf Hok Hutf. assert (coerce (cf_DeliveryID f) = cf_DeliveryID f) as Hid
    by (unfold coerce; by rewrite coerce_valid, of_bytes_bytes).
  assert (forall z, 0 <= z <= 300000 -> parse_int64 (decimal z) = Some z) as Hint
    by (intros z Hz; apply parse_decimal; [lia|unfold in_int64; lia]).
  unfold DecodeClientFrame.
  destruct Hf as [max Hmax|t id Ht Hne Hlen|id delay Hne Hlen Hdelay| | |]; try done.
  - set (f := mkClientFrame _ _ _ _ _ _ _ _ _ _ _).
    assert (decodeObject (client_text f) = inl [("type", JStr "consumer.start");
      ("protocol_version", JNum "1"); ("consumer", JStr "default"); ("max_in_flight", JNum (decimal max))]) as ->
      by (rewrite client_object; [reflexivity|simpl; lia|done|done|done]).
    apply start_object; [apply Hint; lia|done].
  - assert (client_fields (mkClientFrame t 0 "" [] 0 id 0 "" None None None)
            = [("type", SStr t); ("delivery_id", SStr id)]) as Hfields by (by destruct Ht as [-> | ->]).
    rewrite client_object, Hfields; [|by rewrite Hfields|by destruct Ht as [-> | ->]|done|done].
    cbn [fmap list_fmap fst snd scalar_json cf_DeliveryID] in *. rewrite Hid.
    assert (coerce t = t) as -> by (by destruct Ht as [-> | ->]).
    change (coerce "type") with "type". change (coerce "delivery_id") with "delivery_id".
    pose proof (settle_object t id Hne Hlen) as Hset. by destruct Ht as [-> | ->].
  - set (f := mkClientFrame _ _ _ _ _ _ _ _ _ _ _) in *.
    assert (decodeObject (client_text f) = inl [("type", JStr "delivery.nack"); ("delivery_id", JStr id);
      ("delay_ms", JNum (decimal delay))]) as ->.
    { assert (client_fields f = [("type", SStr "delivery.nack"); ("delivery_id", SStr id);
        ("delay_ms", SInt delay)]) as Hfields by reflexivity.
      rewrite client_object, Hfields; [|rewrite Hfields; simpl; lia|done|done|done].
      cbn [fmap list_fmap fst snd scalar_json]. change (cf_DeliveryID f) with id in Hid. by rewrite Hid. }
    apply nack_object; [apply Hint; lia|done..].
Qed.
