(* ===== verification/StreamSession.v ===== *)
(** * The stream gateway ([streamgateway/gateway.go], [streamgateway/session.go])

    A session hands broker messages to one connected consumer under fenced
    assignments. Each definition below is one critical section, or one call of the
    database, of the methods of [Session]; [StreamSystem] interleaves them. *)

From Stdlib Require Import Ascii String.
From S2P Require Import Prelude GoLib Crypto Json JsonEncode Domain QueueSchema DeliverySchema.
From S2P Require Import DeliveryStore PublishStore StreamProtocol.

(** ** Options *)

Record GatewayOptions := mkGatewayOptions {
  go_AssignmentLease : Z;
  go_MaxProcessing : Z;
  go_DrainTimeout : Z;
  go_MaxInFlight : Z;
  go_MaxInFlightBytes : Z;
  go_OutboundQueue : Z;
  go_RetryDelay : Z;
  go_PongWait : Z
}.
Definition positive_or (value default : Z) : Z := if value <=? 0 then default else value.
Definition New (o : GatewayOptions) : option GatewayOptions :=
  let lease := positive_or (go_AssignmentLease o) (60 * Second) in
  let processing := positive_or (go_MaxProcessing o) (15 * Minute) in
  if processing <? lease then None else
  let in_flight := positive_or (go_MaxInFlight o) 256 in
  if 256 <? in_flight then None else
  Some (mkGatewayOptions lease processing (positive_or (go_DrainTimeout o) (10 * Second)) in_flight
          (positive_or (go_MaxInFlightBytes o) (16 * 2 ^ 20))
          (positive_or (go_OutboundQueue o) (in_flight + 16)) (positive_or (go_RetryDelay o) Second)
          (positive_or (go_PongWait o) (60 * Second))).

(** ** State *)

(** A message of the broker is known by a number. *)
Record inflightDelivery := mkInflight {
  if_assignment : DeliveryAssignment;
  if_message : nat;
  if_bytes : Z
}.
Record Session := mkSession {
  se_appID : string;
  se_connectionID : string;
  se_started : bool;
  se_maxInFlight : Z;
  se_subscription : bool;
  se_inflight : gmap string inflightDelivery;
  se_inflightBytes : Z;
  se_reserved : Z;
  se_reservedBytes : Z;
  se_closing : bool;
  se_done : bool;
  se_frames : list string
}.

Definition with_start (started : bool) (max : Z) (s : Session) : Session :=
  mkSession (se_appID s) (se_connectionID s) started max (se_subscription s) (se_inflight s)
    (se_inflightBytes s) (se_reserved s) (se_reservedBytes s) (se_closing s) (se_done s) (se_frames s).
Definition with_subscription (s : Session) : Session :=
  mkSession (se_appID s) (se_connectionID s) (se_started s) (se_maxInFlight s) true (se_inflight s)
    (se_inflightBytes s) (se_reserved s) (se_reservedBytes s) (se_closing s) (se_done s) (se_frames s).
Definition with_inflight (m : gmap string inflightDelivery) (size : Z) (s : Session) : Session :=
  mkSession (se_appID s) (se_connectionID s) (se_started s) (se_maxInFlight s) (se_subscription s) m
    size (se_reserved s) (se_reservedBytes s) (se_closing s) (se_done s) (se_frames s).
Definition with_reserved (count size : Z) (s : Session) : Session :=
  mkSession (se_appID s) (se_connectionID s) (se_started s) (se_maxInFlight s) (se_subscription s)
    (se_inflight s) (se_inflightBytes s) count size (se_closing s) (se_done s) (se_frames s).
Definition with_closing (closing done_ : bool) (s : Session) : Session :=
  mkSession (se_appID s) (se_connectionID s) (se_started s) (se_maxInFlight s) (se_subscription s)
    (se_inflight s) (se_inflightBytes s) (se_reserved s) (se_reservedBytes s) closing done_ (se_frames s).
Definition with_frames (frames : list string) (s : Session) : Session :=
  mkSession (se_appID s) (se_connectionID s) (se_started s) (se_maxInFlight s) (se_subscription s)
    (se_inflight s) (se_inflightBytes s) (se_reserved s) (se_reservedBytes s) (se_closing s) (se_done s)
    frames.

(** ** Frames *)

(** [MarshalJSON] of a time refuses years of more than four digits. *)
Definition time_text (t : Z) : option string :=
  let '(y, _, _) := civil_from_days (t `div` (24 * Hour)) in
  if (0 <=? y) && (y <=? 9999) then Some (json_quote (Format_RFC3339Nano t)) else None.
Definition raw_text (raw : string) : option string :=
  if json_Valid raw then Some (compact raw) else None.
Definition strings_array (l : list string) : string :=
  match l with [] => "null" | _ => array_text (json_quote <$> l) end.

Definition queue_fields (q : QueueEvent) : option (list (string * string)) :=
  available ← time_text (qe_AvailableAt q);
  metadata ← (if bool_decide (qe_Metadata q = "") then Some [] else
              (fun text => [("metadata", text)]) <$> raw_text (qe_Metadata q));
  Some ([("available_at", available)]
        ++ (if bool_decide (qe_OrderingKey q = "") then []
            else [("ordering_key", json_quote (qe_OrderingKey q))])
        ++ (if qe_Priority q =? 0 then [] else [("priority", decimal (qe_Priority q))])
        ++ metadata)%list.
Definition event_text (e : Event) : option string :=
  data ← raw_text (ev_Data e);
  created ← time_text (ev_CreatedAt e);
  queue ← match ev_Queue e with
          | None => Some []
          | Some q => (fun fields => [("queue", object_text fields)]) <$> queue_fields q
          end;
  Some (object_text ([("id", json_quote (ev_ID e)); ("type", json_quote (ev_Type e));
                      ("source_app_id", json_quote (ev_SourceAppID e));
                      ("target_app_ids", strings_array (ev_TargetAppIDs e)); ("data", data);
                      ("created_at", created)] ++ queue)%list).
(** [json.Marshal] of a map writes its keys in order. *)
Definition delivery_frame (deliveryID : string) (attempt : Z) (e : Event) : option string :=
  (fun event => object_text [("attempt", decimal attempt); ("delivery_id", json_quote deliveryID);
                             ("event", event); ("type", json_quote "event.delivery")])
  <$> event_text e.
Definition pong_frame : string := object_text [("type", json_quote "pong")].
Definition started_frame (max : Z) : string :=
  object_text [("consumer", json_quote "default"); ("max_in_flight", decimal max);
               ("type", json_quote "consumer.started")].
Definition accepted_frame (deliveryID state : string) : string :=
  object_text [("delivery_id", json_quote deliveryID); ("state", json_quote state);
               ("type", json_quote "delivery.accepted")].
Definition ready_frame (o : GatewayOptions) (appID connectionID : string) : string :=
  object_text [("app_id", json_quote appID); ("connection_id", json_quote connectionID);
               ("heartbeat_interval_ms", decimal 25000); ("max_in_flight_limit", decimal (go_MaxInFlight o));
               ("protocol_version", decimal 1); ("type", json_quote "ready")].

(** The channel holds [OutboundQueue] frames; a full one refuses. *)
Definition enqueueRaw (o : GatewayOptions) (raw : string) (s : Session) : bool * Session :=
  if se_done s then (false, s)
  else if Z.of_nat (length (se_frames s)) <? go_OutboundQueue o
  then (true, with_frames (se_frames s ++ [raw])%list s) else (false, s).
Definition closedLocked (s : Session) : bool := se_closing s || se_done s.

(** ** The registry of the gateway *)

Record Gateway := mkGateway { gw_sessions : gset string; gw_draining : bool }.
Definition new_session (appID connectionID : string) : Session :=
  mkSession appID connectionID false 0 false ∅ 0 0 0 false false [].
(** [connectionID] is what [NewID] gives. *)
Definition open (o : GatewayOptions) (appID : string) (connectionID : option string) (g : Gateway)
    : option Session * Gateway :=
  if bool_decide (appID = "") then (None, g) else
  match connectionID with
  | None => (None, g)
  | Some c =>
      if bool_decide (c = "") || gw_draining g then (None, g) else
      let (sent, s) := enqueueRaw o (ready_frame o appID c) (new_session appID c) in
      if sent then (Some s, mkGateway (gw_sessions g ∪ {[c]}) (gw_draining g)) else (None, g)
  end.
Definition unregister (connectionID : string) (g : Gateway) : Gateway :=
  mkGateway (gw_sessions g ∖ {[connectionID]}) (gw_draining g).
(** The sessions [Drain] closes. *)
Definition drain_begin (g : Gateway) : list string * Gateway :=
  (elements (gw_sessions g), mkGateway (gw_sessions g) true).

(** ** Delivering a message *)

Definition validEnvelope (e : Envelope) (appID : string) : bool :=
  negb (bool_decide (env_DeliveryID e = "") || bool_decide (ev_ID (env_Event e) = "")
        || bool_decide (ev_Type (env_Event e) = "") || bool_decide (ev_SourceAppID (env_Event e) = "")
        || bool_decide (ev_TargetAppIDs (env_Event e) = []) || negb (JSONObject (ev_Data (env_Event e))))
  && bool_decide (appID ∈ ev_TargetAppIDs (env_Event e)).

(** A frame that a consumer may be sent. *)
Definition sendable (wire : string) : bool :=
  (len wire <=? MaxMessageBytes) && isNone (ValidateServerFrame wire).

(** The envelope, with its generation, and the frame of a message; [None] is a
    message that is put back. [data] is what decoding the message gives. *)
Definition deliver_check (data : option Envelope) (appID : string) : option (Envelope * string) :=
  e ← data;
  if negb (validEnvelope e appID) then None else
  let e := if env_Generation e =? 0 then mkEnvelope (env_DeliveryID e) 1 (env_Event e) else e in
  wire ← delivery_frame (env_DeliveryID e) 1 (env_Event e);
  if sendable wire then Some (e, wire) else None.

(** Room for one more delivery is set aside. *)
Definition reserve (o : GatewayOptions) (size : Z) (s : Session) : option Session :=
  if closedLocked s || (se_maxInFlight s <=? Z.of_nat (base.size (se_inflight s)) + se_reserved s)
     || (go_MaxInFlightBytes o <? se_inflightBytes s + se_reservedBytes s + size)
  then None else Some (with_reserved (se_reserved s + 1) (se_reservedBytes s + size) s).
Definition releaseReservation (size : Z) (s : Session) : Session :=
  with_reserved (se_reserved s - 1) (se_reservedBytes s - size) s.

(** [token] is what [NewID] gives. *)
Definition assign_message (o : GatewayOptions) (s : Session) (e : Envelope) (token : option string) (now : Z)
    : M_relay (DeliveryAssignment * DeliveryAssignmentDisposition) :=
  match token with
  | None => fail DriverError
  | Some t => AssignStreamDelivery (env_DeliveryID e) (se_appID s) (se_connectionID s) t (env_Generation e)
                now (go_AssignmentLease o) (go_MaxProcessing o)
  end.

(** What the answer of the database leads to. *)
Inductive Verdict :=
| Finish (acknowledge : bool)      (* answer the message *)
| Abandon (a : DeliveryAssignment) (* give the assignment back, then the message *)
| Send (wire : string).            (* in flight, the frame is to be sent *)
Definition after_assign (h : nat) (e : Envelope) (size : Z)
    (r : res (DeliveryAssignment * DeliveryAssignmentDisposition)) (s : Session) : Verdict * Session :=
  let s := releaseReservation size s in
  match r with
  | Err _ | Ok (_, DeliveryAlreadyAssigned) => (Finish false, s)
  | Ok (_, DeliveryAlreadyComplete) => (Finish true, s)
  | Ok (a, DeliveryAssigned) =>
      if closedLocked s then (Abandon a, s) else
      match delivery_frame (env_DeliveryID e) (asg_Attempt a) (env_Event e) with
      | Some wire =>
          if MaxMessageBytes <? len wire then (Abandon a, s)
          else (Send wire,
                with_inflight (<[env_DeliveryID e := mkInflight a h (len wire)]> (se_inflight s))
                  (se_inflightBytes s + len wire) s)
      | None => (Abandon a, s)
      end
  end.

(** [remove], and the first half of [release]. *)
Definition take_back (id : string) (s : Session) : option inflightDelivery * Session :=
  match se_inflight s !! id with
  | Some active =>
      (Some active, with_inflight (delete id (se_inflight s)) (se_inflightBytes s - if_bytes active) s)
  | None => (None, s)
  end.

(** ** Frames of the consumer *)

(** [start] up to [Consume]. *)
Definition start (o : GatewayOptions) (f : ClientFrame) (s : Session) : option ProtocolError * Session :=
  if se_started s
  then (Some (mkProtocolError "consumer_already_started" "Consumer is already started." false), s)
  else (None, with_start true (Z.min (cf_MaxInFlight f) (go_MaxInFlight o)) s).
Definition resetStarted (s : Session) : Session := with_start false (se_maxInFlight s) s.
Definition backpressure : ProtocolError :=
  mkProtocolError "backpressure" "Session output is full." true.
Definition send_reply (o : GatewayOptions) (raw : string) (s : Session) : option ProtocolError * Session :=
  let (sent, s) := enqueueRaw o raw s in (if sent then None else Some backpressure, s).

Inductive Settlement := SAck | SNack | SProgress.
Definition control_kind (t : string) : option Settlement :=
  if bool_decide (t = "delivery.ack") then Some SAck
  else if bool_decide (t = "delivery.nack") then Some SNack
  else if bool_decide (t = "delivery.progress") then Some SProgress else None.
Definition state_text (k : Settlement) : string :=
  match k with SAck => "acked" | SNack => "retrying" | SProgress => "progress" end.
(** The database call of [control]. *)
Definition settle_assignment (o : GatewayOptions) (s : Session) (k : Settlement) (id : string)
    (a : DeliveryAssignment) (now : Z) : M_relay unit :=
  match k with
  | SAck => AcknowledgeStreamDelivery id (se_appID s) (se_connectionID s) (asg_Token a) (asg_Generation a)
              now
  | SNack => ReleaseStreamDelivery id (se_appID s) (se_connectionID s) (asg_Token a) (asg_Generation a) now
  | SProgress => ProgressStreamDelivery id (se_appID s) (se_connectionID s) (asg_Token a)
                   (asg_Generation a) now (go_AssignmentLease o)
  end.
Definition control_error (e : error) : ProtocolError :=
  match e with
  | StoreNotFound | StoreConflict => notAssigned
  | _ => mkProtocolError "internal_error" "Delivery state could not be updated." true
  end.
Definition release_assignment_of (s : Session) (id : string) (a : DeliveryAssignment) (now : Z)
    : M_relay unit :=
  ReleaseStreamDelivery id (se_appID s) (se_connectionID s) (asg_Token a) (asg_Generation a) now.
