(* ===== verification/StreamSystem.v ===== *)
(** * A session and its goroutines

    One goroutine per broker message runs [deliver], one reads frames of the client and
    runs [Handle], one writes frames out and one runs [Close]. An action is one
    critical section or one call of the database of one of them; other clients of
    the database may act in between. Answers to the broker are recorded in order. *)

From Stdlib Require Import Ascii String.
From S2P Require Import Prelude GoLib Crypto Json JsonEncode Domain QueueSchema DeliverySchema.
From S2P Require Import DeliveryStore DeliverySystem PublishStore StreamProtocol StreamSession.

Inductive Answer := Ack | Nack (delay : Z) | Progress.

(** Where [deliver] stands. *)
Inductive Thread :=
| Reserved (e : Envelope) (size : Z)
| Answered (e : Envelope) (size : Z) (r : res (DeliveryAssignment * DeliveryAssignmentDisposition))
| Abandoning (e : Envelope) (a : DeliveryAssignment)
| Sending (id wire : string)
| Unsent (id : string)
| Releasing (id : string) (active : inflightDelivery).

(** Where [Handle] and the loop around it stand. *)
Inductive Handler :=
| HIdle
| HStarting
| HSubscribed
| HControl (k : Settlement) (f : ClientFrame) (active : inflightDelivery)
| HSettled (k : Settlement) (id : string)
| HReply (raw : string)
| HFailed (e : ProtocolError)
| HEnded.

(** Where [Close] stands. *)
Inductive Closer :=
| COpen
| CWaiting
| CReleasing (ids : list string)
| CGiving (id : string) (active : inflightDelivery) (ids : list string)
| CClosed.

Record System := mkSystem {
  sy_session : Session;
  sy_db : RelayDB;
  sy_messages : gmap nat (option Envelope);
  sy_answers : list (nat * Answer);
  sy_threads : gmap nat Thread;
  sy_handler : Handler;
  sy_closer : Closer;
  sy_consuming : bool
}.
Definition set_session (s : Session) (y : System) : System :=
  mkSystem s (sy_db y) (sy_messages y) (sy_answers y) (sy_threads y) (sy_handler y) (sy_closer y)
    (sy_consuming y).
Definition set_database (db : RelayDB) (y : System) : System :=
  mkSystem (sy_session y) db (sy_messages y) (sy_answers y) (sy_threads y) (sy_handler y) (sy_closer y)
    (sy_consuming y).
Definition hand_over (h : nat) (data : option Envelope) (y : System) : System :=
  mkSystem (sy_session y) (sy_db y) (<[h := data]> (sy_messages y)) (sy_answers y) (sy_threads y)
    (sy_handler y) (sy_closer y) (sy_consuming y).
Definition answer (h : nat) (a : Answer) (y : System) : System :=
  mkSystem (sy_session y) (sy_db y) (sy_messages y) (sy_answers y ++ [(h, a)])%list (sy_threads y)
    (sy_handler y) (sy_closer y) (sy_consuming y).
Definition set_threads (t : gmap nat Thread) (y : System) : System :=
  mkSystem (sy_session y) (sy_db y) (sy_messages y) (sy_answers y) t (sy_handler y) (sy_closer y)
    (sy_consuming y).
Definition continue (h : nat) (t : Thread) (y : System) : System := set_threads (<[h := t]> (sy_threads y)) y.
Definition finish (h : nat) (y : System) : System := set_threads (delete h (sy_threads y)) y.
Definition set_handler (k : Handler) (y : System) : System :=
  mkSystem (sy_session y) (sy_db y) (sy_messages y) (sy_answers y) (sy_threads y) k (sy_closer y)
    (sy_consuming y).
Definition set_closer (c : Closer) (y : System) : System :=
  mkSystem (sy_session y) (sy_db y) (sy_messages y) (sy_answers y) (sy_threads y) (sy_handler y) c
    (sy_consuming y).
Definition set_consuming (y : System) : System :=
  mkSystem (sy_session y) (sy_db y) (sy_messages y) (sy_answers y) (sy_threads y) (sy_handler y)
    (sy_closer y) true.

(** What a database call depends on. *)
Record Call := mkCall { ca_now : Z; ca_faults : list bool; ca_locked : gset string }.
Definition call {A} (c : Call) (m : M_relay A) (y : System) : res A * System :=
  let (r, w) := m (mkWorld (sy_db y) (ca_faults c) (ca_locked c)) in (r, set_database (w_db w) y).

Section actions.
Context (o : GatewayOptions).

(** ** deliver *)

Definition deliver_begin (h : nat) (data : option Envelope) (y : System) : System :=
  let y := hand_over h data y in
  match deliver_check data (se_appID (sy_session y)) with
  | None => answer h (Nack (go_RetryDelay o)) y
  | Some (e, wire) =>
      match reserve o (len wire) (sy_session y) with
      | None => answer h (Nack (go_RetryDelay o)) y
      | Some s => continue h (Reserved e (len wire)) (set_session s y)
      end
  end.
Definition deliver_assign (h : nat) (e : Envelope) (size : Z) (token : option string) (c : Call)
    (y : System) : System :=
  let (r, y) := call c (assign_message o (sy_session y) e token (ca_now c)) y in
  continue h (Answered e size r) y.
Definition deliver_answered (h : nat) (e : Envelope) (size : Z)
    (r : res (DeliveryAssignment * DeliveryAssignmentDisposition)) (y : System) : System :=
  let (v, s) := after_assign h e size r (sy_session y) in
  let y := set_session s y in
  match v with
  | Finish true => finish h (answer h Ack y)
  | Finish false => finish h (answer h (Nack (go_RetryDelay o)) y)
  | Abandon a => continue h (Abandoning e a) y
  | Send wire => continue h (Sending (env_DeliveryID e) wire) y
  end.
Definition deliver_abandon (h : nat) (e : Envelope) (a : DeliveryAssignment) (c : Call) (y : System)
    : System :=
  let (_, y) := call c (release_assignment_of (sy_session y) (env_DeliveryID e) a (ca_now c)) y in
  finish h (answer h (Nack (go_RetryDelay o)) y).
Definition deliver_send (h : nat) (id wire : string) (y : System) : System :=
  let (sent, s) := enqueueRaw o wire (sy_session y) in
  let y := set_session s y in
  if sent then finish h y else continue h (Unsent id) y.
Definition deliver_unsent (h : nat) (id : string) (y : System) : System :=
  let (active, s) := take_back id (sy_session y) in
  let y := set_session s y in
  match active with Some a => continue h (Releasing id a) y | None => finish h y end.
(** The second half of [release]. *)
Definition release_call (id : string) (active : inflightDelivery) (c : Call) (y : System) : System :=
  let (_, y) := call c (release_assignment_of (sy_session y) id (if_assignment active) (ca_now c)) y in
  answer (if_message active) (Nack 0) y.

(** The next step of the goroutine of a message. *)
Definition thread_step (h : nat) (token : option string) (c : Call) (y : System) : option System :=
  match sy_threads y !! h with
  | Some (Reserved e size) => Some (deliver_assign h e size token c y)
  | Some (Answered e size r) => Some (deliver_answered h e size r y)
  | Some (Abandoning e a) => Some (deliver_abandon h e a c y)
  | Some (Sending id wire) => Some (deliver_send h id wire y)
  | Some (Unsent id) => Some (deliver_unsent h id y)
  | Some (Releasing id active) => Some (finish h (release_call id active c y))
  | None => None
  end.

(** ** Handle *)

Definition control (k : Settlement) (f : ClientFrame) (y : System) : System :=
  match se_inflight (sy_session y) !! cf_DeliveryID f with
  | None => set_handler (HFailed notAssigned) y
  | Some active => set_handler (HControl k f active) y
  end.
Definition Handle (raw : string) (y : System) : System :=
  match DecodeClientFrame raw with
  | inr e => set_handler (HFailed e) y
  | inl f =>
      if bool_decide (cf_Type f = "consumer.start") then
        let (e, s) := start o f (sy_session y) in
        set_handler (match e with Some e => HFailed e | None => HStarting end) (set_session s y)
      else match control_kind (cf_Type f) with
      | Some k => control k f y
      | None =>
          if bool_decide (cf_Type f = "function.result") then set_handler (HFailed functionNotAssigned) y
          else if bool_decide (cf_Type f = "ping") then set_handler (HReply pong_frame) y
          else y
      end
  end.

(** [consumed] is what [Consume] returned; an application without subjects has none. *)
Definition start_consume (consumed : bool) (y : System) : System :=
  match SubjectsForApp (se_appID (sy_session y)) with
  | Err _ =>
      set_handler (HFailed (mkProtocolError "internal_error" "Consumer could not start." true))
        (set_session (resetStarted (sy_session y)) y)
  | Ok _ =>
      if consumed then set_handler HSubscribed (set_consuming y)
      else set_handler (HFailed (mkProtocolError "consumer_unavailable"
                                   "Consumer is temporarily unavailable." true))
             (set_session (resetStarted (sy_session y)) y)
  end.
Definition start_subscribed (y : System) : System :=
  let s := with_subscription (sy_session y) in
  set_handler (HReply (started_frame (se_maxInFlight s))) (set_session s y).

Definition answer_of (k : Settlement) (f : ClientFrame) : Answer :=
  match k with SAck => Ack | SNack => Nack (cf_DelayMS f * Millisecond) | SProgress => Progress end.
(** [answered] says whether the broker took the answer. *)
Definition control_settle (k : Settlement) (f : ClientFrame) (active : inflightDelivery) (answered : bool)
    (c : Call) (y : System) : System :=
  let (r, y) := call c (settle_assignment o (sy_session y) k (cf_DeliveryID f) (if_assignment active)
                          (ca_now c)) y in
  match r with
  | Err e => set_handler (HFailed (control_error e)) y
  | Ok _ =>
      let y := answer (if_message active) (answer_of k f) y in
      set_handler (if answered then HSettled k (cf_DeliveryID f) else HFailed (control_error DriverError)) y
  end.
Definition control_remove (k : Settlement) (id : string) (y : System) : System :=
  let s := match k with SProgress => sy_session y | _ => (take_back id (sy_session y)).2 end in
  set_handler (HReply (accepted_frame id (state_text k))) (set_session s y).
Definition handle_reply (raw : string) (y : System) : System :=
  let (e, s) := send_reply o raw (sy_session y) in
  set_handler (match e with Some e => HFailed e | None => HIdle end) (set_session s y).

(** The loop of [Serve] reports an error and ends when it cannot, or when the frame
    was too large. *)
Definition error_frame (e : ProtocolError) : string :=
  object_text [("code", json_quote (pe_Code e)); ("message", json_quote (pe_Message e));
               ("retryable", bool_text (pe_Retryable e)); ("type", json_quote "error")].
Definition handle_failed (e : ProtocolError) (y : System) : System :=
  let (sent, s) := enqueueRaw o (error_frame e) (sy_session y) in
  set_handler (if sent && negb (bool_decide (pe_Code e = "frame_too_large")) then HIdle else HEnded)
    (set_session s y).

(** ** Close *)

Definition close_begin (y : System) : System :=
  set_closer CWaiting (set_session (with_closing true (se_done (sy_session y)) (sy_session y)) y).
(** Once the goroutines that deliver have ended, or the context of [Close] has. *)
Definition close_waited (y : System) : System :=
  set_closer (CReleasing (map_to_list (se_inflight (sy_session y))).*1) y.
Definition close_take (id : string) (ids : list string) (y : System) : System :=
  let (active, s) := take_back id (sy_session y) in
  set_closer (match active with Some a => CGiving id a ids | None => CReleasing ids end) (set_session s y).
Definition close_done (y : System) : System :=
  set_closer CClosed (set_session (with_closing (se_closing (sy_session y)) true (sy_session y)) y).

(** ** Actions *)

Inductive Action :=
| ADeliver (h : nat) (data : option Envelope)
| AThread (h : nat) (token : option string) (c : Call)
| AFrame (raw : string)
| AHandler (outcome : bool) (c : Call)
| AWrite
| AClose (timeout : bool) (c : Call).

Definition act (a : Action) (y : System) : option System :=
  match a with
  | ADeliver h data =>
      if sy_consuming y && isNone (sy_messages y !! h) then Some (deliver_begin h data y) else None
  | AThread h token c => thread_step h token c y
  | AFrame raw => match sy_handler y with HIdle => Some (Handle raw y) | _ => None end
  | AHandler outcome c =>
      match sy_handler y with
      | HIdle | HEnded => None
      | HStarting => Some (start_consume outcome y)
      | HSubscribed => Some (start_subscribed y)
      | HControl k f active => Some (control_settle k f active outcome c y)
      | HSettled k id => Some (control_remove k id y)
      | HReply raw => Some (handle_reply raw y)
      | HFailed e => Some (handle_failed e y)
      end
  | AWrite => Some (set_session (with_frames (tail (se_frames (sy_session y))) (sy_session y)) y)
  | AClose timeout c =>
      match sy_closer y with
      | COpen => Some (close_begin y)
      | CWaiting => if timeout || bool_decide (sy_threads y = ∅) then Some (close_waited y) else None
      | CReleasing (id :: ids) => Some (close_take id ids y)
      | CReleasing [] => Some (close_done y)
      | CGiving id active ids => Some (set_closer (CReleasing ids) (release_call id active c y))
      | CClosed => None
      end
  end.
Definition run (actions : list Action) (y : System) : option System :=
  foldl (fun oy a => oy ≫= act a) (Some y) actions.

(** Another client of the database. *)
Inductive step (y : System) : System -> Prop :=
| step_act a y' : act a y = Some y' -> step y y'
| step_other db' : relay_step (sy_db y) db' -> step y (set_database db' y).

Definition initial (s : Session) (db : RelayDB) : System := mkSystem s db ∅ [] ∅ HIdle COpen false.
End actions.
