(* ===== verification/StreamInvariant.v ===== *)
(** * Invariants of a session

    What holds of a session and its goroutines after every action: the books of the
    flow control are right, an acknowledged message is settled, and no message is
    forgotten. *)

From Stdlib Require Import Ascii String.
From S2P Require Import Prelude GoLib Crypto Json JsonEncode Domain QueueSchema DeliverySchema.
From S2P Require Import DeliveryStore DeliveryEffects DeliverySystem PublishStore StreamProtocol.
From S2P Require Import StreamSession StreamSystem.

(** ** Flow control *)

(** The room a goroutine has set aside. *)
Definition slot (t : Thread) : Z := match t with Reserved _ _ | Answered _ _ _ => 1 | _ => 0 end.
Definition slot_bytes (t : Thread) : Z := match t with Reserved _ n | Answered _ n _ => n | _ => 0 end.

Section counted.
Context (o : GatewayOptions).

Record session_counted (s : Session) (threads : gmap nat Thread) : Prop := {
  sc_reserved : se_reserved s = msum slot threads;
  sc_reserved_bytes : se_reservedBytes s = msum slot_bytes threads;
  sc_bytes : msum if_bytes (se_inflight s) <= se_inflightBytes s;
  sc_sizes : forall id x, se_inflight s !! id = Some x -> 0 <= if_bytes x;
  sc_capacity : Z.of_nat (size (se_inflight s)) + se_reserved s <= se_maxInFlight s;
  sc_limit : 0 <= se_maxInFlight s <= go_MaxInFlight o;
  sc_frames : Z.of_nat (length (se_frames s)) <= go_OutboundQueue o
}.
Record counted (y : System) : Prop := {
  ct_session : session_counted (sy_session y) (sy_threads y);
  ct_threads : forall h, is_Some (sy_threads y !! h) -> is_Some (sy_messages y !! h);
  ct_idle : sy_consuming y = false -> se_inflight (sy_session y) = ∅ /\ sy_threads y = ∅;
  ct_started : sy_consuming y = true -> se_started (sy_session y) = true /\ sy_handler y <> HStarting;
  ct_starting : sy_handler y = HStarting -> se_started (sy_session y) = true
}.

Ltac books := constructor; simpl in *; try done; try lia.

(** *** Sections of the session *)

Lemma slot_nonneg t : 0 <= slot t.
Proof. destruct t; simpl; lia. Qed.

Lemma reserve_counted h e n s s' threads :
  reserve o n s = Some s' -> threads !! h = None ->
  session_counted s threads -> session_counted s' (<[h := Reserved e n]> threads).
Proof.
  unfold reserve. case_match eqn:Hc; [done|]. intros [= <-] Hh [H1 H2 H3 H4 H5 H6 H7].
  bool_to_prop. destruct_and!. books; rewrite ?msum_insert by done; simpl; lia.
Qed.

Lemma thread_counted h t t' s threads :
  threads !! h = Some t -> slot t = slot t' -> slot_bytes t = slot_bytes t' ->
  session_counted s threads -> session_counted s (<[h := t']> threads).
Proof. intros Hh H1 H2 []. books; rewrite (msum_replace _ _ _ t) by done; lia. Qed.
Lemma finish_counted h t s threads :
  threads !! h = Some t -> slot t = 0 -> slot_bytes t = 0 ->
  session_counted s threads -> session_counted s (delete h threads).
Proof. intros Hh H1 H2 []. books; rewrite (msum_delete _ _ _ t) by done; lia. Qed.

Lemma released_counted h t s threads :
  threads !! h = Some t -> slot t = 1 ->
  session_counted s threads -> session_counted (releaseReservation (slot_bytes t) s) (delete h threads).
Proof. intros Hh H1 []. books; rewrite ?(msum_delete _ _ _ t) by done; lia. Qed.
Lemma idle_thread_counted h t s threads :
  threads !! h = None -> slot t = 0 -> slot_bytes t = 0 ->
  session_counted s threads -> session_counted s (<[h := t]> threads).
Proof. intros Hh H1 H2 []. books; rewrite msum_insert by done; lia. Qed.

Lemma take_back_counted id s threads :
  session_counted s threads -> session_counted (take_back id s).2 threads.
Proof.
  intros [H1 H2 H3 H4 H5 H6 H7]. unfold take_back. destruct (se_inflight s !! id) as [x|] eqn:Hx; [|done].
  books.
  - rewrite (msum_delete _ _ _ x) by done. lia.
  - intros k y [_ Hy]%lookup_delete_Some. eauto.
  - rewrite map_size_delete_Some by eauto. lia.
Qed.

Lemma enqueue_counted raw s threads :
  session_counted s threads -> session_counted (enqueueRaw o raw s).2 threads.
Proof.
  intros Hs. unfold enqueueRaw. case_match; [done|]. case_match; [|done].
  destruct Hs. books. rewrite length_app. simpl. lia.
Qed.

(** The answer of the database: the reservation becomes an entry, or is given up. *)
Lemma after_assign_counted h e n r s threads v s' :
  threads !! h = Some (Answered e n r) -> after_assign h e n r s = (v, s') ->
  session_counted s threads -> session_counted s' (delete h threads).
Proof.
  intros Hh Hv Hs. pose proof (released_counted h _ s threads Hh eq_refl Hs) as Hr. simpl in Hr.
  assert (s' = releaseReservation n s \/ exists a wire, s' =
    with_inflight (<[env_DeliveryID e := mkInflight a h (len wire)]> (se_inflight s))
      (se_inflightBytes s + len wire) (releaseReservation n s)) as [-> | (a & wire & ->)]; [|done|].
  { unfold after_assign in Hv. repeat case_match; simplify_eq; eauto. }
  pose proof (sc_capacity _ _ Hs) as Hcap. destruct Hr as [H1 H2 H3 H4 H5 H6 H7]. simpl in *.
  assert (0 <= len wire) by (rewrite len_bytes; lia). books.
  - etransitivity; [by apply msum_insert_le|]. simpl. lia.
  - intros id x [[<- <-]|[_ Hx]]%lookup_insert_Some; [done|eauto].
  - rewrite map_size_insert. case_match; unfold id; lia.
Qed.

(** *** Actions *)

Lemma frames_counted frames s threads :
  Z.of_nat (length frames) <= Z.of_nat (length (se_frames s)) ->
  session_counted s threads -> session_counted (with_frames frames s) threads.
Proof. intros Hle []. books. Qed.

(** What leaves the goroutines alone, and may only take entries out. *)
Lemma session_action y y' :
  sy_threads y' = sy_threads y -> sy_messages y' = sy_messages y -> sy_consuming y' = sy_consuming y ->
  sy_handler y' <> HStarting -> se_started (sy_session y') = se_started (sy_session y) ->
  (se_inflight (sy_session y) = ∅ -> se_inflight (sy_session y') = ∅) ->
  (session_counted (sy_session y) (sy_threads y) -> session_counted (sy_session y') (sy_threads y)) ->
  counted y -> counted y'.
Proof.
  intros Ht Hm Hc Hh Hst Hi Hs [Hcs Hth Hid Hs' Hsg]. split; rewrite ?Ht, ?Hm, ?Hc, ?Hst; auto.
  - intros H. destruct (Hid H). auto.
  - intros H. by destruct (Hs' H).
Qed.

Lemma take_back_same id s :
  let s' := (take_back id s).2 in
  se_started s' = se_started s /\ (se_inflight s = ∅ -> se_inflight s' = ∅).
Proof.
  unfold take_back. simpl. destruct (se_inflight s !! id) eqn:Hx; [|done]. simpl. split; [done|].
  intros H0. by rewrite H0 in *.
Qed.
Lemma enqueue_same raw s :
  let s' := (enqueueRaw o raw s).2 in
  se_started s' = se_started s /\ se_inflight s' = se_inflight s.
Proof. unfold enqueueRaw. simpl. by repeat case_match. Qed.

Lemma call_same {A} c (m : M_relay A) y r y' :
  call c m y = (r, y') -> exists db, y' = set_database db y.
Proof. unfold call. destruct (m _) as [r' w']. intros [= <- <-]. by eexists. Qed.

(** A step of the goroutine of [h]. *)
Lemma thread_action h y y' :
  is_Some (sy_threads y !! h) -> sy_messages y' = sy_messages y -> sy_consuming y' = sy_consuming y ->
  sy_handler y' = sy_handler y -> se_started (sy_session y') = se_started (sy_session y) ->
  (sy_threads y' = delete h (sy_threads y) \/ exists t, sy_threads y' = <[h := t]> (sy_threads y)) ->
  session_counted (sy_session y') (sy_threads y') ->
  counted y -> counted y'.
Proof.
  intros Hh Hm Hc Hhd Hst Ht Hs [Hcs Hth Hid Hs' Hsg]. split; rewrite ?Hm, ?Hc, ?Hst, ?Hhd; auto.
  - intros k Hk. destruct (decide (k = h)) as [-> | Hne]; [auto|]. apply Hth.
    destruct Ht as [Ht | [t Ht]]; rewrite Ht in Hk;
      [by rewrite lookup_delete_ne in Hk|by rewrite lookup_insert_ne in Hk].
  - intros H. destruct (Hid H) as [_ He]. rewrite He in Hh. by apply is_Some_None in Hh.
Qed.

Lemma thread_step_counted h token c y y' :
  thread_step o h token c y = Some y' -> counted y -> counted y'.
Proof.
  unfold thread_step. destruct (sy_threads y !! h) as [t|] eqn:Hh; [|done]. intros Hy Hc.
  pose proof (ct_session _ Hc) as Hs. pose proof (mk_is_Some _ _ Hh) as Hsome.
  destruct t as [e n|e n r|e a|id wire|id|id active]; injection Hy as <-.
  - unfold deliver_assign. destruct (call _ _ _) as [r y1] eqn:Hcall. apply call_same in Hcall as [db ->].
    eapply (thread_action h y); try done; simpl; [eauto|]. by eapply thread_counted.
  - unfold deliver_answered. destruct (after_assign _ _ _ _ _) as [v s'] eqn:Hv.
    pose proof (after_assign_counted _ _ _ _ _ _ _ _ Hh Hv Hs) as Hs'.
    assert (se_started s' = se_started (sy_session y)) as Hst
      by (unfold after_assign in Hv; repeat case_match; by simplify_eq).
    destruct v as [[]|a|wire]; (eapply (thread_action h y); try done; simpl; [eauto|..]);
      rewrite <- insert_delete_eq; apply idle_thread_counted; try done; apply lookup_delete_eq.
  - unfold deliver_abandon. destruct (call _ _ _) as [r y1] eqn:Hcall. apply call_same in Hcall as [db ->].
    eapply (thread_action h y); try done; simpl; [eauto|]. by eapply finish_counted.
  - unfold deliver_send. pose proof (enqueue_same wire (sy_session y)) as [Hst _].
    pose proof (enqueue_counted wire _ _ Hs) as Hs'.
    destruct (enqueueRaw o wire (sy_session y)) as [[] s'];
      (eapply (thread_action h y); try done; simpl; [eauto|]).
    + by eapply finish_counted.
    + by eapply thread_counted.
  - unfold deliver_unsent. pose proof (take_back_same id (sy_session y)) as [Hst _].
    pose proof (take_back_counted id _ _ Hs) as Hs'.
    destruct (take_back id (sy_session y)) as [[active|] s'];
      (eapply (thread_action h y); try done; simpl; [eauto|]).
    + by eapply thread_counted.
    + by eapply finish_counted.
  - unfold release_call. destruct (call _ _ _) as [r y1] eqn:Hcall. apply call_same in Hcall as [db ->].
    eapply (thread_action h y); try done; simpl; [eauto|]. by eapply finish_counted.
Qed.

Lemma deliver_begin_counted h data y :
  sy_messages y !! h = None -> sy_consuming y = true -> counted y -> counted (deliver_begin o h data y).
Proof.
  intros Hm Hcons Hc. pose proof Hc as [Hs Hth Hid Hst Hsg].
  assert (forall k, is_Some (sy_threads y !! k) -> is_Some (<[h := data]> (sy_messages y) !! k)) as Hth'.
  { intros k Hk. apply lookup_insert_is_Some'. auto. }
  assert (sy_threads y !! h = None) as Hnew.
  { destruct (sy_threads y !! h) eqn:Ht; [|done]. destruct (Hth h) as [? ?]; [by eexists|]. congruence. }
  unfold deliver_begin. simpl. destruct (deliver_check _ _) as [[e wire]|]; [|by split].
  destruct (reserve o (len wire) (sy_session y)) as [s'|] eqn:Hr; [|by split].
  assert (se_started s' = se_started (sy_session y)) as Hst'
    by (unfold reserve in Hr; case_match; by simplify_eq).
  split; simpl; [by eapply reserve_counted| |by rewrite Hcons|by rewrite Hst'|by rewrite Hst'].
  intros k [<- | Hk]%lookup_insert_is_Some'; [by rewrite lookup_insert_eq|auto].
Qed.

(** A valid start frame asks for at least one delivery. *)
Lemma start_frame_positive raw f :
  DecodeClientFrame raw = inl f -> cf_Type f = "consumer.start" -> 1 <= cf_MaxInFlight f <= 256.
Proof.
  unfold DecodeClientFrame, decode_start, decode_settle, decode_nack, decode_result. intros Hd Ht.
  repeat (case_match; simplify_eq/=; try done); bool_to_prop; destruct_and?; simplify_eq/=; try done; lia.
Qed.

Hypothesis max_positive : 0 < go_MaxInFlight o.

Lemma handle_counted raw y : sy_handler y = HIdle -> counted y -> counted (Handle o raw y).
Proof using max_positive.
  intros Hidle Hc. unfold Handle. destruct (DecodeClientFrame raw) as [f|e] eqn:Hf.
  2:{ by apply (session_action y). }
  case_bool_decide as Ht.
  { unfold start. destruct (se_started (sy_session y)) eqn:Hst; [by apply (session_action y)|].
    pose proof (start_frame_positive raw f Hf Ht) as Hmax.
    assert (sy_consuming y = false) as Hcons.
    { destruct (sy_consuming y) eqn:Hcy; [|done]. destruct (ct_started _ Hc Hcy). congruence. }
    pose proof Hc as [[H1 H2 H3 H4 H5 H6 H7] Hth Hid _ _]. destruct (Hid Hcons) as [Hi Hts].
    rewrite Hts, msum_empty in H1, H2. rewrite Hi, msum_empty in H3.
    split; simpl; [|done|done|by rewrite Hcons|done].
    rewrite Hts. split; simpl; rewrite ?Hi, ?msum_empty; try done; rewrite ?H1, ?map_size_empty; lia. }
  destruct (control_kind (cf_Type f)) as [k|].
  - unfold control. destruct (se_inflight (sy_session y) !! cf_DeliveryID f); by apply (session_action y).
  - case_bool_decide; [by apply (session_action y)|]. case_bool_decide; [by apply (session_action y)|done].
Qed.

Lemma handler_counted outcome c y y' :
  act o (AHandler outcome c) y = Some y' -> counted y -> counted y'.
Proof using Type.
  clear max_positive. simpl. intros Hy Hc. destruct (sy_handler y) eqn:Hh; try done; injection Hy as <-.
  - assert (sy_consuming y = false) as Hcons.
    { destruct (sy_consuming y) eqn:Hcy; [|done]. by destruct (ct_started _ Hc Hcy). }
    pose proof Hc as [Hs Hth Hid Hst Hsg]. destruct (Hid Hcons) as [Hi Hts]. pose proof (Hsg Hh).
    unfold start_consume. destruct (SubjectsForApp _); [destruct outcome|].
    + by split.
    + split; simpl; [destruct Hs; by split|done|done|by rewrite Hcons|done].
    + split; simpl; [destruct Hs; by split|done|done|by rewrite Hcons|done].
  - apply (session_action y); try done. intros []. by split.
  - unfold control_settle. destruct (call _ _ _) as [r y1] eqn:Hcall. apply call_same in Hcall as [db ->].
    destruct r; [destruct outcome|]; by apply (session_action y).
  - unfold control_remove. pose proof (take_back_same id (sy_session y)) as [Hst Hi].
    destruct k; apply (session_action y); try done; apply take_back_counted.
  - unfold handle_reply, send_reply. pose proof (enqueue_same raw (sy_session y)) as [Hst Hi].
    pose proof (enqueue_counted raw (sy_session y) (sy_threads y)) as He.
    destruct (enqueueRaw o raw (sy_session y)) as [[] s']; apply (session_action y); simpl in *;
      try done; by rewrite Hi.
  - unfold handle_failed. pose proof (enqueue_same (error_frame e) (sy_session y)) as [Hst Hi].
    pose proof (enqueue_counted (error_frame e) (sy_session y) (sy_threads y)) as He.
    destruct (enqueueRaw o _ (sy_session y)) as [sent s']; apply (session_action y); simpl in *;
      try done; [by case_match|by rewrite Hi].
Qed.

Lemma closer_counted timeout c y y' :
  act o (AClose timeout c) y = Some y' -> counted y -> counted y'.
Proof using Type.
  clear max_positive. simpl. intros Hy Hc.
  assert (forall y1, counted y1 -> forall k, counted (set_closer k y1)) as Hclose by (by intros ? []).
  assert (forall a b, counted (set_session (with_closing a b (sy_session y)) y)) as Hflags.
  { intros a b. destruct Hc as [[] ? ? ? ?]. by split. }
  destruct (sy_closer y) as [| |[|id ids]|id active ids|] eqn:Hcl; try done.
  - injection Hy as <-. apply Hclose, Hflags.
  - case_match; [|done]. injection Hy as <-. by apply Hclose.
  - injection Hy as <-. apply Hclose, Hflags.
  - injection Hy as <-. unfold close_take. pose proof (take_back_same id (sy_session y)) as [Hst Hi].
    pose proof (take_back_counted id (sy_session y) (sy_threads y)) as Ht.
    destruct (take_back id (sy_session y)) as [act' s']. apply Hclose. destruct Hc as [Hs Hth Hid Hsd Hsg].
    simpl in *. split; simpl; rewrite ?Hst; auto. intros Hcons. destruct (Hid Hcons). auto.
  - injection Hy as <-. apply Hclose. unfold release_call. destruct (call _ _ _) as [r y1] eqn:Hcall.
    apply call_same in Hcall as [db ->]. by destruct Hc.
Qed.

Lemma step_counted y y' : step o y y' -> counted y -> counted y'.
Proof using max_positive.
  intros [a y1 Ha|db' _] Hc; [|by destruct Hc]. destruct a as [h data|h token c|raw|outcome c| |timeout c].
  - simpl in Ha. destruct (sy_consuming y) eqn:Hcons; [|done].
    destruct (sy_messages y !! h) eqn:Hm; [done|]. simpl in Ha. injection Ha as <-.
    by apply deliver_begin_counted.
  - by eapply thread_step_counted.
  - simpl in Ha. destruct (sy_handler y) eqn:Hh; try done. injection Ha as <-. by apply handle_counted.
  - by eapply handler_counted.
  - simpl in Ha. injection Ha as <-. destruct Hc. split; simpl; try done. apply frames_counted; [|done].
    destruct (se_frames (sy_session y)); simpl; lia.
  - by eapply closer_counted.
Qed.
End counted.

(** ** Acknowledged messages *)

(** The delivery is settled in this generation, or has a later one. *)
Definition done_at (id : string) (g : Z) (db : RelayDB) : Prop :=
  exists r, deliveries db !! id = Some r /\ g <= dr_generation r
    /\ (dr_generation r = g -> settled r = true).

Lemma done_at_step id g db db' : relay_step db db' -> relay_inv db -> done_at id g db -> done_at id g db'.
Proof.
  intros Hstep Hinv (r & Hr & Hg & Hs). destruct (Hstep Hinv) as (_ & Hrows & _).
  destruct (Hrows _ _ Hr) as (r' & Hr' & Hrow). exists r'. pose proof (rs_generation _ _ Hrow).
  split_and!; [done|lia|]. intros Hg'. assert (dr_generation r' = dr_generation r) as Heq by lia.
  apply (rst_settled _ _ (rs_move _ _ Hrow Heq)), Hs. lia.
Qed.

Lemma stream_final_settled db id target r :
  relay_inv db -> deliveries db !! id = Some r -> stream_row target r = true ->
  is_final (dr_status r) = true -> settled r = true.
Proof.
  intros Hinv Hr Hs Hf. unfold settled. rewrite Hf. unfold stream_row in Hs. bool_to_prop.
  destruct Hs as [_ Hsink]. by rewrite (ro_stream _ (ri_row _ Hinv _ _ Hr) Hsink).
Qed.

Lemma ack_done id target c t g now w w' :
  AcknowledgeStreamDelivery id target c t g now w = (Ok tt, w') -> relay_inv (w_db w) ->
  done_at id g (w_db w').
Proof.
  intros Hrun Hinv. pose proof (ack_keeps id target c t g now w Hinv) as (Hinv' & _). rewrite Hrun in Hinv'.
  apply ack_effect in Hrun as [(_ & d & l & [Hd Hh] & Hdb)|[(_ & Hdb & d & Hd & Hs & Ha & Hg & _)|
    [[e ?] _]]]; [| |done].
  - unfold holds_assignment in Hh. bool_to_prop. destruct_and!. simpl in Hinv'.
    assert (deliveries (w_db w') !! id = Some (ack_row now d)) as Hd'
      by (by rewrite Hdb; simpl; rewrite lookup_insert_eq).
    exists (ack_row now d). split_and!; [done|simpl; lia|]. intros _.
    by eapply (stream_final_settled (w_db w') id target).
  - exists d. rewrite Hdb. split_and!; [done|lia|]. intros _.
    eapply (stream_final_settled (w_db w)); try done. by rewrite Ha.
Qed.

Lemma assign_answer id target c t g now lease most w a disposition w' :
  AssignStreamDelivery id target c t g now lease most w = (Ok (a, disposition), w') -> relay_inv (w_db w) ->
  match disposition with
  | DeliveryAlreadyComplete => done_at id g (w_db w')
  | DeliveryAssigned => asg_Generation a = g
  | DeliveryAlreadyAssigned => True
  end.
Proof.
  intros Hrun Hinv. destruct disposition; [|done|].
  - unfold AssignStreamDelivery in Hrun. case_match; [by run_inv|]. run_inv.
    repeat (case_match; run_inv; simplify_eq; try done).
  - apply assign_effect in Hrun as (r & Hr & Hs & Hg & _ & _ & Hf & ->). exists r.
    split_and!; [done|lia|]. intros _. by eapply stream_final_settled.
Qed.

(** The message of a number is about this delivery and generation. *)
Definition of_message (y : System) (h : nat) (id : string) (g : Z) : Prop :=
  exists e, sy_messages y !! h = Some (Some e) /\ env_DeliveryID e = id
    /\ (if env_Generation e =? 0 then 1 else env_Generation e) = g.

Definition thread_traced (y : System) (h : nat) (t : Thread) : Prop :=
  match t with
  | Reserved e _ | Abandoning e _ => of_message y h (env_DeliveryID e) (env_Generation e)
  | Answered e _ r =>
      of_message y h (env_DeliveryID e) (env_Generation e)
      /\ match r with
         | Ok (_, DeliveryAlreadyComplete) => done_at (env_DeliveryID e) (env_Generation e) (sy_db y)
         | Ok (a, DeliveryAssigned) => asg_Generation a = env_Generation e
         | _ => True
         end
  | _ => True
  end.
Definition entry_traced (y : System) (id : string) (x : inflightDelivery) : Prop :=
  of_message y (if_message x) id (asg_Generation (if_assignment x)).

Record traced (y : System) : Prop := {
  tr_inv : relay_inv (sy_db y);
  tr_thread : forall h t, sy_threads y !! h = Some t -> thread_traced y h t;
  tr_inflight : forall id x, se_inflight (sy_session y) !! id = Some x -> entry_traced y id x;
  tr_handler : match sy_handler y with
               | HControl _ f x => entry_traced y (cf_DeliveryID f) x
               | _ => True
               end;
  tr_ack : forall h, (h, Ack) ∈ sy_answers y -> exists id g, of_message y h id g /\ done_at id g (sy_db y)
}.

Lemma of_message_mono y y' h id g :
  sy_messages y ⊆ sy_messages y' -> of_message y h id g -> of_message y' h id g.
Proof. intros Hsub (e & He & Hrest). exists e. split; [by eapply lookup_weaken|done]. Qed.
Lemma thread_traced_mono y y' h t :
  sy_messages y ⊆ sy_messages y' -> relay_step (sy_db y) (sy_db y') -> relay_inv (sy_db y) ->
  thread_traced y h t -> thread_traced y' h t.
Proof.
  intros Hsub Hdb Hinv. destruct t as [e n|e n r|e a| | |]; simpl; try done.
  - by apply of_message_mono.
  - intros [Hm Hr]. split; [by eapply of_message_mono|]. destruct r as [[a []]|]; try done.
    by eapply done_at_step.
  - by apply of_message_mono.
Qed.

(** What an action has to keep. *)
Lemma traced_frame y y' :
  sy_messages y ⊆ sy_messages y' -> relay_step (sy_db y) (sy_db y') ->
  (forall h t, sy_threads y' !! h = Some t -> sy_threads y !! h = Some t \/ thread_traced y' h t) ->
  (forall id x, se_inflight (sy_session y') !! id = Some x ->
     se_inflight (sy_session y) !! id = Some x \/ entry_traced y' id x) ->
  match sy_handler y' with
  | HControl _ f x => sy_handler y' = sy_handler y \/ entry_traced y' (cf_DeliveryID f) x
  | _ => True
  end ->
  (forall h, (h, Ack) ∈ sy_answers y' -> (h, Ack) ∈ sy_answers y
     \/ exists id g, of_message y' h id g /\ done_at id g (sy_db y')) ->
  traced y -> traced y'.
Proof.
  intros Hm Hdb Ht Hi Hh Ha [Tinv Tt Ti Th Ta]. split.
  - by apply Hdb.
  - intros h t Hht. destruct (Ht h t Hht) as [Hold|Hnew]; [|done]. eapply thread_traced_mono; eauto.
  - intros id x Hx. destruct (Hi id x Hx) as [Hold|Hnew]; [|done]. eapply of_message_mono; eauto. by apply Ti.
  - destruct (sy_handler y') as [| | |k f x| | | |] eqn:Hk; try done. destruct Hh as [Hh|Hh]; [|done].
    rewrite <- Hh in Th. eapply of_message_mono; eauto.
  - intros h [Hold|Hnew]%Ha; [|done]. destruct (Ta h Hold) as (id & g & Hof & Hd). exists id, g. split.
    + by eapply of_message_mono.
    + by eapply done_at_step.
Qed.

Lemma call_effect {A} c (m : M_relay A) y r y' :
  keeps relay_step m -> call c m y = (r, y') ->
  exists db, y' = set_database db y /\ relay_step (sy_db y) db.
Proof.
  intros Hk. unfold call. specialize (Hk (mkWorld (sy_db y) (ca_faults c) (ca_locked c))).
  destruct (m _) as [r' w']. intros [= <- <-]. by eexists.
Qed.
Lemma assign_message_keeps o s e token now : keeps relay_step (assign_message o s e token now).
Proof. unfold assign_message. destruct token; [apply assign_keeps|]. apply keeps_fail. apply _. Qed.
Lemma settle_keeps o s k id a now : keeps relay_step (settle_assignment o s k id a now).
Proof. destruct k; [apply ack_keeps|apply release_keeps|apply progress_keeps]. Qed.

(** The envelope of an accepted message. *)
Lemma deliver_check_envelope data app e wire :
  deliver_check data app = Some (e, wire) ->
  exists e0, data = Some e0 /\ env_DeliveryID e = env_DeliveryID e0
    /\ env_Generation e = (if env_Generation e0 =? 0 then 1 else env_Generation e0).
Proof.
  unfold deliver_check. destruct data as [e0|]; [|done]. cbn [mbind option_bind].
  case_match; [done|]. intros Hw. exists e0. destruct (env_Generation e0 =? 0); cbn in Hw;
    destruct (delivery_frame _ _ _); cbn in Hw; try done; case_match; by simplify_eq/=.
Qed.

(** Leaves what an action changes. *)
Ltac frame y :=
  apply (traced_frame y); simpl; try done; try reflexivity; try (intros; by left);
  try (repeat case_match; by auto).

Section traced.
Context (o : GatewayOptions).

Lemma threads_insert h t (threads : gmap nat Thread) (P : nat -> Thread -> Prop) :
  P h t -> forall k x, <[h := t]> threads !! k = Some x -> threads !! k = Some x \/ P k x.
Proof. intros HP k x [[<- <-]|[_ ?]]%lookup_insert_Some; auto. Qed.
Lemma threads_delete h (threads : gmap nat Thread) (P : nat -> Thread -> Prop) :
  forall k x, delete h threads !! k = Some x -> threads !! k = Some x \/ P k x.
Proof. intros k x [_ ?]%lookup_delete_Some. auto. Qed.
Lemma take_back_inflight id s k x :
  se_inflight (take_back id s).2 !! k = Some x -> se_inflight s !! k = Some x.
Proof.
  unfold take_back. destruct (se_inflight s !! id); simpl; [|done]. by intros [_ ?]%lookup_delete_Some.
Qed.
Lemma answer_ack h a l (P : nat -> Prop) :
  (a = Ack -> P h) -> forall k, (k, Ack) ∈ (l ++ [(h, a)])%list -> (k, Ack) ∈ l \/ P k.
Proof.
  intros HP k [Hk|Hk]%elem_of_app; [by left|]. rewrite list_elem_of_singleton in Hk. simplify_eq. auto.
Qed.

Lemma deliver_begin_traced h data y :
  sy_messages y !! h = None -> traced y -> traced (deliver_begin o h data y).
Proof.
  intros Hm Ht. assert (sy_messages y ⊆ <[h := data]> (sy_messages y)) as Hsub by (by apply insert_subseteq).
  assert (traced (answer h (Nack (go_RetryDelay o)) (hand_over h data y))) as Hnack.
  { frame y. by apply answer_ack. }
  unfold deliver_begin. destruct (deliver_check _ _) as [[e wire]|] eqn:Hc; [|done].
  destruct (reserve o (len wire) _) as [s'|] eqn:Hr; [|done].
  assert (se_inflight s' = se_inflight (sy_session y)) as Hi
    by (unfold reserve in Hr; case_match; by simplify_eq).
  frame y; [|by rewrite Hi; auto].
  apply threads_insert. apply deliver_check_envelope in Hc as (e0 & -> & Hid & Hg).
  exists e0. simpl. rewrite lookup_insert_eq. by split_and!.
Qed.

Lemma deliver_assign_traced h e n token c y :
  sy_threads y !! h = Some (Reserved e n) -> traced y -> traced (deliver_assign o h e n token c y).
Proof.
  intros Hh Ht. unfold deliver_assign. destruct (call _ _ _) as [r y1] eqn:Hcall.
  assert (match r with
          | Ok (_, DeliveryAlreadyComplete) => done_at (env_DeliveryID e) (env_Generation e) (sy_db y1)
          | Ok (a, DeliveryAssigned) => asg_Generation a = env_Generation e
          | _ => True
          end) as Hr.
  { unfold call in Hcall. destruct (assign_message _ _ _ _ _ _) as [r' w'] eqn:Ha. simplify_eq.
    destruct r as [[a d]|]; [|done]. unfold assign_message in Ha. destruct token as [t|]; [|done].
    apply assign_answer in Ha; [by destruct d|]. apply (tr_inv _ Ht). }
  apply call_effect in Hcall as (db & -> & Hdb); [|apply assign_message_keeps].
  frame y.
  apply threads_insert. split; [|done].
  exact (tr_thread _ Ht _ _ Hh).
Qed.

Lemma deliver_answered_traced h e n r y :
  sy_threads y !! h = Some (Answered e n r) -> traced y -> traced (deliver_answered o h e n r y).
Proof.
  intros Hh Ht. destruct (tr_thread _ Ht _ _ Hh) as [Hof Hr].
  unfold deliver_answered, after_assign.
  assert (forall y', se_inflight (sy_session y') = se_inflight (sy_session y) ->
    sy_db y' = sy_db y -> sy_messages y' = sy_messages y -> sy_handler y' = sy_handler y ->
    (sy_threads y' = delete h (sy_threads y)
     \/ exists t, sy_threads y' = <[h := t]> (sy_threads y) /\ thread_traced y' h t) ->
    (sy_answers y' = sy_answers y \/ exists a, sy_answers y' = (sy_answers y ++ [(h, a)])%list
       /\ (a = Ack -> exists id g, of_message y' h id g /\ done_at id g (sy_db y'))) -> traced y') as Hnext.
  { intros y' Hi Hdb Hm Hhd Hth Ha. apply (traced_frame y); try done.
    - by rewrite Hm.
    - by rewrite Hdb.
    - destruct Hth as [-> | (t & -> & Htr)]; [apply threads_delete|by apply threads_insert].
    - rewrite Hi. auto.
    - rewrite Hhd. destruct (sy_handler y); auto.
    - destruct Ha as [-> | (a & -> & Ha)]; [auto|by apply answer_ack]. }
  destruct r as [[a []]|].
  - destruct (closedLocked _); [apply Hnext; simpl; eauto; right; by eexists|].
    destruct (delivery_frame _ _ _) as [wire|]; [|apply Hnext; simpl; eauto; right; by eexists].
    destruct (MaxMessageBytes <? len wire); [apply Hnext; simpl; eauto; right; by eexists|].
    frame y.
    + by apply threads_insert.
    + intros id x [[<- <-]|[_ ?]]%lookup_insert_Some; [|auto]. right. unfold entry_traced. simpl.
      by rewrite Hr.
  - apply Hnext; simpl; auto. right. by eexists.
  - apply Hnext; simpl; auto. right. eexists. split; [done|]. intros _. eauto.
  - apply Hnext; simpl; auto. right. by eexists.
Qed.

Lemma enqueue_inflight raw s sent s' :
  enqueueRaw o raw s = (sent, s') -> se_inflight s' = se_inflight s.
Proof. unfold enqueueRaw. repeat case_match; intros; by simplify_eq. Qed.

Lemma release_call_traced id active c y : traced y -> traced (release_call id active c y).
Proof.
  intros Ht. unfold release_call. destruct (call _ _ _) as [r y1] eqn:Hcall.
  apply call_effect in Hcall as (db & -> & Hdb); [|apply release_keeps].
  frame y. by apply answer_ack.
Qed.

Lemma thread_step_traced h token c y y' :
  thread_step o h token c y = Some y' -> traced y -> traced y'.
Proof.
  unfold thread_step. destruct (sy_threads y !! h) as [t|] eqn:Hh; [|done]. intros Hy Ht.
  destruct t as [e n|e n r|e a|id wire|id|id active]; injection Hy as <-.
  - by apply deliver_assign_traced.
  - by apply deliver_answered_traced.
  - unfold deliver_abandon. destruct (call _ _ _) as [r y1] eqn:Hcall.
    apply call_effect in Hcall as (db & -> & Hdb); [|apply release_keeps].
    frame y; [apply threads_delete|by apply answer_ack].
  - unfold deliver_send. destruct (enqueueRaw o wire (sy_session y)) as [[] s'] eqn:He;
      apply enqueue_inflight in He; (frame y; [|rewrite He; auto]).
    + apply threads_delete.
    + by apply threads_insert.
  - unfold deliver_unsent. pose proof (take_back_inflight id (sy_session y)) as Hi.
    destruct (take_back id (sy_session y)) as [[active|] s']; simpl in Hi; frame y; try by eauto.
    + by apply threads_insert.
    + apply threads_delete.
  - apply (release_call_traced id active c) in Ht. unfold release_call in *.
    destruct (call _ _ _) as [r y1]. destruct Ht as [T1 T2 T3 T4 T5]. split; simpl in *; try done.
    intros k t [_ Hk]%lookup_delete_Some. exact (T2 k t Hk).
Qed.

Lemma handle_traced raw y : traced y -> traced (Handle o raw y).
Proof.
  intros Ht. unfold Handle. destruct (DecodeClientFrame raw) as [f|e]; [|frame y].
  case_bool_decide.
  { unfold start. destruct (se_started (sy_session y)); frame y. }
  destruct (control_kind (cf_Type f)) as [k|].
  - unfold control. destruct (se_inflight (sy_session y) !! cf_DeliveryID f) as [x|] eqn:Hx; frame y.
    right. by apply (tr_inflight _ Ht).
  - case_bool_decide; [frame y|]. case_bool_decide; [frame y|done].
Qed.

Lemma handler_traced outcome c y y' : act o (AHandler outcome c) y = Some y' -> traced y -> traced y'.
Proof.
  simpl. intros Hy Ht. destruct (sy_handler y) as [| | |k f x|k id|raw|e|] eqn:Hh; try done;
    injection Hy as <-.
  - unfold start_consume. destruct (SubjectsForApp _); [destruct outcome|]; frame y.
  - frame y.
  - unfold control_settle. destruct (call _ _ _) as [r y1] eqn:Hcall.
    assert (k = SAck -> r = Ok tt -> done_at (cf_DeliveryID f) (asg_Generation (if_assignment x)) (sy_db y1))
      as Hdone.
    { intros -> ->. unfold call in Hcall. destruct (settle_assignment _ _ _ _ _ _ _) as [r' w'] eqn:Ha.
      simplify_eq. by apply ack_done in Ha; [|apply (tr_inv _ Ht)]. }
    apply call_effect in Hcall as (db & -> & Hdb); [|apply settle_keeps].
    pose proof (tr_handler _ Ht) as Hx. rewrite Hh in Hx. destruct r as [[]|]; [|frame y].
    frame y. apply answer_ack. intros Ha.
    exists (cf_DeliveryID f), (asg_Generation (if_assignment x)). split; [done|].
    apply Hdone; [|done]. by destruct k.
  - unfold control_remove. pose proof (take_back_inflight id (sy_session y)) as Hi.
    destruct k; frame y; eauto.
  - unfold handle_reply, send_reply. destruct (enqueueRaw o raw (sy_session y)) as [[] s'] eqn:He;
      apply enqueue_inflight in He; frame y; rewrite He; auto.
  - unfold handle_failed. destruct (enqueueRaw o _ (sy_session y)) as [sent s'] eqn:He;
      apply enqueue_inflight in He; frame y. rewrite He. auto.
Qed.

Lemma closer_traced timeout c y y' : act o (AClose timeout c) y = Some y' -> traced y -> traced y'.
Proof.
  simpl. intros Hy Ht. assert (forall y1 k, traced y1 -> traced (set_closer k y1)) as Hclose
    by (by intros ? ? []).
  destruct (sy_closer y) as [| |[|id ids]|id active ids|] eqn:Hcl; try done.
  - injection Hy as <-. apply Hclose. frame y.
  - case_match; [|done]. injection Hy as <-. by apply Hclose.
  - injection Hy as <-. apply Hclose. frame y.
  - injection Hy as <-. unfold close_take. pose proof (take_back_inflight id (sy_session y)) as Hi.
    destruct (take_back id (sy_session y)) as [active s']. apply Hclose. frame y; eauto.
  - injection Hy as <-. by apply Hclose, release_call_traced.
Qed.

Lemma step_traced y y' : step o y y' -> traced y -> traced y'.
Proof.
  intros [a y1 Ha|db' Hdb] Ht; [|frame y]. destruct a as [h data|h token c|raw|outcome c| |timeout c].
  - simpl in Ha. destruct (sy_consuming y); [|done]. destruct (sy_messages y !! h) eqn:Hm; [done|].
    simpl in Ha. injection Ha as <-. by apply deliver_begin_traced.
  - by eapply thread_step_traced.
  - simpl in Ha. destruct (sy_handler y); try done. injection Ha as <-. by apply handle_traced.
  - by eapply handler_traced.
  - simpl in Ha. injection Ha as <-. frame y.
  - by eapply closer_traced.
Qed.
End traced.
