(* ===== verification/StreamLedger.v ===== *)
(** * No message is forgotten

    Every message handed to a session is answered, or some goroutine still holds it,
    or it shares its delivery with another message; and closing takes everything that
    was in flight back. *)

From Stdlib Require Import Ascii String.
From S2P Require Import Prelude GoLib Crypto Json JsonEncode Domain QueueSchema DeliverySchema.
From S2P Require Import DeliveryStore DeliveryEffects DeliverySystem PublishStore StreamProtocol.
From S2P Require Import StreamSession StreamSystem StreamInvariant.

(** The broker was told to forget the message, or to deliver it again. *)
Definition answered (y : System) (h : nat) : Prop :=
  exists a, (h, a) ∈ sy_answers y /\ a <> Progress.
(** [deliver] has yet to answer its own message. *)
Definition owes (t : Thread) : Prop :=
  match t with Reserved _ _ | Answered _ _ _ | Abandoning _ _ => True | _ => False end.
Definition in_flight (y : System) (h : nat) : Prop :=
  exists id x, se_inflight (sy_session y) !! id = Some x /\ if_message x = h.
(** A goroutine is about to answer the message. *)
Definition held (y : System) (h : nat) : Prop :=
  (exists t, sy_threads y !! h = Some t /\ owes t)
  \/ (exists h' id x, sy_threads y !! h' = Some (Releasing id x) /\ if_message x = h)
  \/ (exists id x ids, sy_closer y = CGiving id x ids /\ if_message x = h).
(** Another message is about the same delivery. *)
Definition shared (y : System) (h : nat) : Prop :=
  exists h' id g g', h' <> h /\ of_message y h id g /\ of_message y h' id g'.
Definition accounted (y : System) (h : nat) : Prop :=
  answered y h \/ held y h \/ in_flight y h \/ shared y h.

(** Once [Close] has begun, nothing new is in flight. *)
Definition closing_ok (c : Closer) (s : Session) : Prop :=
  match c with
  | COpen => True
  | CWaiting => se_closing s = true
  | CReleasing ids | CGiving _ _ ids =>
      se_closing s = true /\ forall id, is_Some (se_inflight s !! id) -> id ∈ ids
  | CClosed => se_closing s = true /\ se_inflight s = ∅
  end.

Record ledger (y : System) : Prop := {
  lg_message : forall h, is_Some (sy_messages y !! h) -> accounted y h;
  lg_settled : match sy_handler y with
               | HSettled k id => k = SProgress \/ exists h g, of_message y h id g /\ answered y h
               | _ => True
               end;
  lg_closing : closing_ok (sy_closer y) (sy_session y)
}.

Lemma shared_mono y y' h : sy_messages y ⊆ sy_messages y' -> shared y h -> shared y' h.
Proof.
  intros Hsub (h' & id & g & g' & Hne & Hh & Hh'). exists h', id, g, g'.
  split_and!; [done|by eapply of_message_mono..].
Qed.
Lemma answered_mono y y' h :
  (exists l, sy_answers y' = (sy_answers y ++ l)%list) -> answered y h -> answered y' h.
Proof. intros [l Hl] (a & Ha & Hp). exists a. rewrite Hl, elem_of_app. auto. Qed.

(** What an action has to keep. *)
Lemma ledger_frame y y' :
  sy_messages y ⊆ sy_messages y' -> (exists l, sy_answers y' = (sy_answers y ++ l)%list) ->
  (forall h, is_Some (sy_messages y' !! h) -> sy_messages y !! h = None -> accounted y' h) ->
  (forall h, held y h -> accounted y' h) -> (forall h, in_flight y h -> accounted y' h) ->
  match sy_handler y' with
  | HSettled k id => sy_handler y' = sy_handler y
      \/ k = SProgress \/ exists h g, of_message y' h id g /\ answered y' h
  | _ => True
  end ->
  (closing_ok (sy_closer y) (sy_session y) -> closing_ok (sy_closer y') (sy_session y')) ->
  ledger y -> ledger y'.
Proof.
  intros Hm Ha Hnew Hheld Hfl Hh Hc [L1 L2 L3]. split; [| |auto].
  - intros h Hh'. destruct (sy_messages y !! h) eqn:Hold; [|by apply Hnew].
    destruct (L1 h) as [?|[?|[?|?]]]; [by eexists|..]; [|auto|auto|].
    + left. by eapply answered_mono.
    + right; right; right. by eapply shared_mono.
  - destruct (sy_handler y') as [| | | |k id| | |] eqn:Hk; try done. destruct Hh as [Hh|Hh]; [|done].
    rewrite <- Hh in L2. destruct L2 as [?|(h & g & Hof & Han)]; [by left|right]. exists h, g.
    split; [by eapply of_message_mono|by eapply answered_mono].
Qed.

Lemma closing_shrinks c s s' :
  se_closing s' = se_closing s ->
  (forall id, is_Some (se_inflight s' !! id) -> is_Some (se_inflight s !! id)) ->
  closing_ok c s -> closing_ok c s'.
Proof.
  intros Hc Hi. destruct c; simpl; rewrite ?Hc; try done.
  - intros [? Hids]. auto.
  - intros [? Hids]. auto.
  - intros [? He]. split; [done|]. apply map_empty. intros id.
    destruct (se_inflight s' !! id) eqn:Hx; [|done]. destruct (Hi id) as [x Hx']; [by eexists|].
    by rewrite He in Hx'.
Qed.

(** *** What goroutines hold *)

Lemma held_same y y' h :
  sy_threads y' = sy_threads y -> sy_closer y' = sy_closer y -> held y h -> accounted y' h.
Proof. intros Ht Hc Hh. right; left. unfold held in *. by rewrite Ht, Hc. Qed.
Lemma in_flight_same y y' h :
  (forall id x, se_inflight (sy_session y) !! id = Some x ->
     se_inflight (sy_session y') !! id = Some x \/ accounted y' (if_message x)) ->
  in_flight y h -> accounted y' h.
Proof.
  intros Hi (id & x & Hx & <-). destruct (Hi id x Hx) as [Hx'|]; [|done].
  right; right; left. by exists id, x.
Qed.
Lemma held_thread h0 t y y' h :
  sy_threads y !! h0 = Some t -> (forall k, k <> h0 -> sy_threads y' !! k = sy_threads y !! k) ->
  sy_closer y' = sy_closer y -> (owes t -> accounted y' h0) ->
  (forall id x, t = Releasing id x -> accounted y' (if_message x)) -> held y h -> accounted y' h.
Proof.
  intros Ht Hk Hc Ho Hr [(t' & Ht' & Ho')|[(h' & id & x & Hx & <-)|(id & x & ids & Hx & <-)]].
  - destruct (decide (h = h0)) as [-> | Hne]; [simplify_eq; auto|]. right; left. left. exists t'.
    by rewrite Hk.
  - destruct (decide (h' = h0)) as [-> | Hne]; [simplify_eq; eauto|]. right; left. right; left.
    exists h', id, x. by rewrite Hk.
  - right; left. right; right. exists id, x, ids. by rewrite Hc.
Qed.
Lemma answered_accounted h a l y :
  sy_answers y = (l ++ [(h, a)])%list -> a <> Progress -> accounted y h.
Proof. intros Hl Ha. left. exists a. rewrite Hl, elem_of_app, list_elem_of_singleton. auto. Qed.
Lemma owes_accounted h t y : sy_threads y !! h = Some t -> owes t -> accounted y h.
Proof. intros Ht Ho. right; left. left. by exists t. Qed.

Lemma take_back_entries id s k x :
  se_inflight s !! k = Some x ->
  se_inflight (take_back id s).2 !! k = Some x \/ k = id /\ (take_back id s).1 = Some x.
Proof.
  intros Hx. unfold take_back. destruct (se_inflight s !! id) as [z|] eqn:Hid; simpl; [|by left].
  destruct (decide (k = id)) as [-> | Hne]; [right; by simplify_eq|left].
  by rewrite lookup_delete_ne.
Qed.
Lemma take_back_closing c id s : closing_ok c s -> closing_ok c (take_back id s).2.
Proof.
  apply closing_shrinks; unfold take_back; destruct (se_inflight s !! id) eqn:Hid; simpl; try done.
  intros k [x Hx]. apply lookup_delete_Some in Hx as [_ Hx]. by eexists.
Qed.

Ltac same_rest := try done; try reflexivity; try (by exists []; rewrite app_nil_r); try (by eexists);
  try (intros ?? Hsome; congruence); try (repeat case_match; by auto).

Section ledger.
Context (o : GatewayOptions).

Lemma deliver_begin_ledger h data y :
  sy_messages y !! h = None -> sy_threads y !! h = None -> ledger y -> ledger (deliver_begin o h data y).
Proof.
  intros Hm Ht Hl. assert (sy_messages y ⊆ <[h := data]> (sy_messages y)) as Hsub by (by apply insert_subseteq).
  assert (forall y', sy_messages y' = <[h := data]> (sy_messages y) -> accounted y' h ->
    forall k, is_Some (sy_messages y' !! k) -> sy_messages y !! k = None -> accounted y' k) as Hnew.
  { intros y' -> Hh k Hk Hno. destruct (decide (k = h)) as [-> | Hne]; [done|].
    rewrite lookup_insert_ne, Hno in Hk by done. by apply is_Some_None in Hk. }
  assert (ledger (answer h (Nack (go_RetryDelay o)) (hand_over h data y))) as Hnack.
  { apply (ledger_frame y); same_rest.
    - apply Hnew; [done|]. by eapply answered_accounted.
    - intros k. by apply held_same.
    - intros k. apply in_flight_same. auto. }
  unfold deliver_begin. destruct (deliver_check _ _) as [[e wire]|] eqn:Hc; [|done].
  destruct (reserve o (len wire) _) as [s'|] eqn:Hr; [|done].
  assert (se_inflight s' = se_inflight (sy_session y) /\ se_closing s' = se_closing (sy_session y)) as [Hi Hcl]
    by (unfold reserve in Hr; case_match; by simplify_eq).
  assert (accounted (continue h (Reserved e (len wire)) (set_session s' (hand_over h data y))) h) as Hown.
  { eapply owes_accounted; [simpl; apply lookup_insert_eq|done]. }
  apply (ledger_frame y); same_rest.
  - intros k Hk. destruct (decide (k = h)) as [-> | Hne]; [done|].
    destruct Hk as [(t & Hk & Hto)|[(k' & id & x & Hx & <-)|Hx]].
    + eapply owes_accounted; [|done]. simpl. by rewrite lookup_insert_ne.
    + right; left. right; left. exists k', id, x. split; [|done]. simpl.
      rewrite lookup_insert_ne; [done|congruence].
    + right; left. by right; right.
  - intros k. apply in_flight_same. simpl. rewrite Hi. auto.
  - simpl. apply closing_shrinks; [done|]. by rewrite Hi.
Qed.

Lemma enqueue_closing raw s sent s' :
  enqueueRaw o raw s = (sent, s') -> se_inflight s' = se_inflight s /\ se_closing s' = se_closing s.
Proof. unfold enqueueRaw. repeat case_match; intros; by simplify_eq. Qed.

(** The goroutine of [h0] moves on; its message is accounted for afterwards. *)
Lemma thread_ledger h0 t y y' :
  sy_threads y !! h0 = Some t -> (forall k, k <> h0 -> sy_threads y' !! k = sy_threads y !! k) ->
  sy_closer y' = sy_closer y -> sy_messages y' = sy_messages y -> sy_handler y' = sy_handler y ->
  (exists l, sy_answers y' = (sy_answers y ++ l)%list) ->
  (owes t -> accounted y' h0) -> (forall id x, t = Releasing id x -> accounted y' (if_message x)) ->
  (forall id x, se_inflight (sy_session y) !! id = Some x ->
     se_inflight (sy_session y') !! id = Some x \/ accounted y' (if_message x)) ->
  (closing_ok (sy_closer y) (sy_session y) -> closing_ok (sy_closer y) (sy_session y')) ->
  ledger y -> ledger y'.
Proof using Type.
  intros Ht Hk Hc Hm Hh Ha Ho Hr Hi Hcl. apply ledger_frame; rewrite ?Hm, ?Hc, ?Hh; try done.
  - intros h Hs Hn. rewrite Hn in Hs. by apply is_Some_None in Hs.
  - intros h. by eapply held_thread.
  - intros h. by apply in_flight_same.
  - destruct (sy_handler y); auto.
Qed.

Lemma deliver_answered_ledger h e n r y :
  sy_threads y !! h = Some (Answered e n r) -> traced y -> ledger y ->
  ledger (deliver_answered o h e n r y).
Proof.
  intros Hh Ht Hl. destruct (tr_thread _ Ht _ _ Hh) as [Hof _].
  assert (forall y' l, sy_session y' = releaseReservation n (sy_session y) ->
    (forall k, k <> h -> sy_threads y' !! k = sy_threads y !! k) ->
    sy_closer y' = sy_closer y -> sy_messages y' = sy_messages y -> sy_handler y' = sy_handler y ->
    sy_answers y' = (sy_answers y ++ l)%list -> accounted y' h -> ledger y') as Hrest.
  { intros y' l Hs Hk Hc Hm Hhd Ha Hacc. eapply (thread_ledger h _ y); try done; [by eexists|..].
    - rewrite Hs. auto.
    - rewrite Hs. by apply closing_shrinks. }
  assert (forall y' a, sy_threads y' = delete h (sy_threads y) ->
    sy_answers y' = (sy_answers y ++ [(h, a)])%list -> a <> Progress ->
    (forall k, k <> h -> sy_threads y' !! k = sy_threads y !! k) /\ accounted y' h) as Hfin.
  { intros y' a Hth Ha Hp. split; [intros k Hk; by rewrite Hth, lookup_delete_ne|].
    by eapply answered_accounted. }
  unfold deliver_answered, after_assign. set (s1 := releaseReservation n (sy_session y)).
  destruct r as [[a []]|].
  - assert (ledger (continue h (Abandoning e a) (set_session s1 y))) as Hab.
    { apply (Hrest _ []); try done; simpl; [|by rewrite app_nil_r|].
      - intros k Hk. by rewrite lookup_insert_ne.
      - eapply owes_accounted; [apply lookup_insert_eq|done]. }
    destruct (closedLocked s1) eqn:Hcl; [done|].
    destruct (delivery_frame _ _ _) as [wire|]; [|done]. destruct (MaxMessageBytes <? len wire); [done|].
    set (x := mkInflight a h (len wire)). set (id := env_DeliveryID e).
    eapply (thread_ledger h _ y); try done; simpl.
    + intros k Hk. by rewrite lookup_insert_ne.
    + exists []. by rewrite app_nil_r.
    + intros _. right; right; left. exists id, x. simpl. by rewrite lookup_insert_eq.
    + intros id' z Hz. destruct (decide (id' = id)) as [-> | Hne]; [|left; by rewrite lookup_insert_ne].
      right. destruct (decide (if_message z = h)) as [Heq|Hne].
      * right; right; left. exists id, x. simpl. by rewrite lookup_insert_eq.
      * right; right; right. pose proof (tr_inflight _ Ht _ _ Hz) as Hof'.
        exists h, id, (asg_Generation (if_assignment z)), (env_Generation e). by split_and!.
    + apply orb_false_iff in Hcl as [Hcl _]. simpl in Hcl.
      destruct (sy_closer y); simpl; rewrite ?Hcl; naive_solver.
  - destruct (Hfin (finish h (answer h (Nack (go_RetryDelay o)) (set_session s1 y))) (Nack (go_RetryDelay o)))
      as [? ?]; try done. by eapply Hrest.
  - destruct (Hfin (finish h (answer h Ack (set_session s1 y))) Ack) as [? ?]; try done. by eapply Hrest.
  - destruct (Hfin (finish h (answer h (Nack (go_RetryDelay o)) (set_session s1 y))) (Nack (go_RetryDelay o)))
      as [? ?]; try done. by eapply Hrest.
Qed.

Lemma thread_step_ledger h token c y y' :
  thread_step o h token c y = Some y' -> traced y -> ledger y -> ledger y'.
Proof.
  unfold thread_step. destruct (sy_threads y !! h) as [t|] eqn:Hh; [|done]. intros Hy Ht Hl.
  assert (forall k t', k <> h -> <[h := t']> (sy_threads y) !! k = sy_threads y !! k) as Hins
    by (intros; by rewrite lookup_insert_ne).
  assert (forall k, k <> h -> delete h (sy_threads y) !! k = sy_threads y !! k) as Hdel
    by (intros; by rewrite lookup_delete_ne).
  assert (forall l : list (nat * Answer), exists l', l = (l ++ l')%list) as Hnil
    by (intros; exists []; by rewrite app_nil_r).
  destruct t as [e n|e n r|e a|id wire|id|id active]; injection Hy as <-.
  - unfold deliver_assign. destruct (call _ _ _) as [r y1] eqn:Hcall. apply call_same in Hcall as [db ->].
    eapply (thread_ledger h _ y); try done; simpl; auto. intros _.
    eapply owes_accounted; [apply lookup_insert_eq|done].
  - by apply deliver_answered_ledger.
  - unfold deliver_abandon. destruct (call _ _ _) as [r y1] eqn:Hcall. apply call_same in Hcall as [db ->].
    eapply (thread_ledger h _ y); try done; simpl; eauto. intros _. by eapply answered_accounted.
  - unfold deliver_send. destruct (enqueueRaw o wire (sy_session y)) as [[] s'] eqn:He;
      apply enqueue_closing in He as [Hi Hc]; (eapply (thread_ledger h _ y); try done; simpl; eauto;
        [by rewrite Hi; auto|apply closing_shrinks; [done|by rewrite Hi]]).
  - unfold deliver_unsent. pose proof (take_back_entries id (sy_session y)) as Hi.
    pose proof (take_back_closing (sy_closer y) id (sy_session y)) as Hc.
    destruct (take_back id (sy_session y)) as [[active|] s']; simpl in *;
      (eapply (thread_ledger h _ y); try done; simpl; eauto).
    + intros k x [?|[-> ?]]%Hi; [auto|simplify_eq]. right. right; left. right; left.
      exists h, id, x. simpl. by rewrite lookup_insert_eq.
    + intros k x [?|[-> ?]]%Hi; [auto|done].
  - unfold release_call. destruct (call _ _ _) as [r y1] eqn:Hcall. apply call_same in Hcall as [db ->].
    eapply (thread_ledger h _ y); try done; simpl; eauto.
    intros id' x [= -> ->]. by eapply answered_accounted.
Qed.

(** [Handle] moves on. *)
Lemma handler_action y y' :
  sy_threads y' = sy_threads y -> sy_closer y' = sy_closer y -> sy_messages y' = sy_messages y ->
  (exists l, sy_answers y' = (sy_answers y ++ l)%list) ->
  match sy_handler y' with
  | HSettled k id => k = SProgress \/ exists h g, of_message y' h id g /\ answered y' h
  | _ => True
  end ->
  (forall id x, se_inflight (sy_session y) !! id = Some x ->
     se_inflight (sy_session y') !! id = Some x \/ accounted y' (if_message x)) ->
  (closing_ok (sy_closer y) (sy_session y) -> closing_ok (sy_closer y) (sy_session y')) ->
  ledger y -> ledger y'.
Proof using Type.
  intros Ht Hc Hm Ha Hh Hi Hcl. apply ledger_frame; rewrite ?Hm, ?Hc; try done.
  - intros h Hs Hn. rewrite Hn in Hs. by apply is_Some_None in Hs.
  - intros h. by apply held_same.
  - intros h. by apply in_flight_same.
  - destruct (sy_handler y'); auto.
Qed.

Lemma no_answers (l : list (nat * Answer)) : exists l', l = (l ++ l')%list.
Proof using Type. exists []. by rewrite app_nil_r. Qed.
Hint Resolve no_answers : core.

Lemma handle_ledger raw y : sy_handler y = HIdle -> ledger y -> ledger (Handle o raw y).
Proof.
  intros Hidle Hl. unfold Handle. destruct (DecodeClientFrame raw) as [f|e].
  2:{ by apply (handler_action y); simpl; auto. }
  case_bool_decide.
  { unfold start. destruct (se_started (sy_session y)); apply (handler_action y); simpl; auto. }
  destruct (control_kind (cf_Type f)) as [k|].
  - unfold control. destruct (se_inflight (sy_session y) !! cf_DeliveryID f) as [x|];
      apply (handler_action y); simpl; auto.
  - case_bool_decide; [apply (handler_action y); simpl; auto|].
    case_bool_decide; [apply (handler_action y); simpl; auto|done].
Qed.

Lemma handler_ledger outcome c y y' :
  act o (AHandler outcome c) y = Some y' -> traced y -> ledger y -> ledger y'.
Proof.
  simpl. intros Hy Ht Hl. destruct (sy_handler y) as [| | |k f x|k id|raw|e|] eqn:Hh; try done;
    injection Hy as <-.
  - unfold start_consume. destruct (SubjectsForApp _); [destruct outcome|];
      apply (handler_action y); simpl; auto; by apply closing_shrinks.
  - apply (handler_action y); simpl; auto.
  - unfold control_settle. destruct (call _ _ _) as [r y1] eqn:Hcall. apply call_same in Hcall as [db ->].
    pose proof (tr_handler _ Ht) as Hx. rewrite Hh in Hx.
    destruct r as [[]|]; [|by apply (handler_action y); simpl; auto].
    apply (handler_action y); simpl; auto; [by eexists|]. destruct outcome; [|done].
    destruct k; [right|right|by left]; exists (if_message x), (asg_Generation (if_assignment x));
      (split; [done|]); eexists; simpl; rewrite elem_of_app, list_elem_of_singleton; (split; [by right|done]).
  - pose proof (lg_settled _ Hl) as Hset. rewrite Hh in Hset. unfold control_remove.
    pose proof (take_back_entries id (sy_session y)) as Hi.
    pose proof (take_back_closing (sy_closer y) id (sy_session y)) as Hc.
    destruct Hset as [-> | (h & g & Hof & Han)]; [by apply (handler_action y); simpl; auto|].
    destruct k; [| |by apply (handler_action y); simpl; auto];
      (apply (handler_action y); simpl; auto; intros k' x Hx;
       destruct (Hi k' x Hx) as [?|[-> ?]]; [auto|right];
       destruct (decide (if_message x = h)) as [-> | Hne]; [by left|right; right; right];
       exists h, id, (asg_Generation (if_assignment x)), g;
       split_and!; [congruence|by apply (tr_inflight _ Ht)|done]).
  - unfold handle_reply, send_reply. destruct (enqueueRaw o raw (sy_session y)) as [[] s'] eqn:He;
      apply enqueue_closing in He as [Hi Hc]; (apply (handler_action y); simpl; auto;
        [by rewrite Hi; auto|apply closing_shrinks; [done|by rewrite Hi]]).
  - unfold handle_failed. destruct (enqueueRaw o _ (sy_session y)) as [sent s'] eqn:He;
      apply enqueue_closing in He as [Hi Hc]; apply (handler_action y); simpl; auto;
        [by destruct (sent && _)|by rewrite Hi; auto|apply closing_shrinks; [done|by rewrite Hi]].
Qed.

(** [Close] moves on. *)
Lemma closer_action y y' :
  sy_threads y' = sy_threads y -> sy_messages y' = sy_messages y -> sy_handler y' = sy_handler y ->
  (exists l, sy_answers y' = (sy_answers y ++ l)%list) ->
  (forall id x ids, sy_closer y = CGiving id x ids -> accounted y' (if_message x)) ->
  (forall id x, se_inflight (sy_session y) !! id = Some x ->
     se_inflight (sy_session y') !! id = Some x \/ accounted y' (if_message x)) ->
  (closing_ok (sy_closer y) (sy_session y) -> closing_ok (sy_closer y') (sy_session y')) ->
  ledger y -> ledger y'.
Proof using Type.
  intros Ht Hm Hh Ha Hg Hi Hcl. apply ledger_frame; rewrite ?Hm, ?Hh; try done.
  - intros h Hs Hn. rewrite Hn in Hs. by apply is_Some_None in Hs.
  - intros h [Hown|[Hrel|(id & x & ids & Hx & <-)]]; [..|eauto]; right; left; unfold held; rewrite Ht; auto.
  - intros h. by apply in_flight_same.
  - destruct (sy_handler y); auto.
Qed.

Lemma closer_ledger timeout c y y' :
  act o (AClose timeout c) y = Some y' -> ledger y -> ledger y'.
Proof.
  simpl. intros Hy Hl. destruct (sy_closer y) as [| |[|id ids]|id active ids|] eqn:Hcl; try done.
  - injection Hy as <-. apply (closer_action y); simpl; auto. by rewrite Hcl.
  - destruct (timeout || _); [|done]. injection Hy as <-. apply (closer_action y); simpl; auto; [by rewrite Hcl|].
    rewrite Hcl. intros Hclosing. split; [done|]. intros id [x Hx]. apply list_elem_of_fmap.
    exists (id, x). split; [done|]. by apply elem_of_map_to_list.
  - injection Hy as <-. apply (closer_action y); simpl; auto; [by rewrite Hcl|]. rewrite Hcl.
    intros [Hclosing Hin]. split; [done|]. apply map_empty. intros id.
    destruct (se_inflight (sy_session y) !! id) eqn:Hx; [|done]. exfalso.
    assert (id ∈ []) as Hnil by (apply Hin; by eexists). by apply elem_of_nil in Hnil.
  - injection Hy as <-. unfold close_take. pose proof (take_back_entries id (sy_session y)) as Hi.
    destruct (take_back id (sy_session y)) as [active s'] eqn:Htb.
    apply (closer_action y); simpl in *; auto; [by rewrite Hcl|..].
    + intros k x [?|[-> ->]]%Hi; [auto|]. right. right; left. right; right. by exists id, x, ids.
    + rewrite Hcl. intros [Hclosing Hin].
      assert (se_closing s' = true /\ forall k, is_Some (se_inflight s' !! k) -> k ∈ ids) as Hok.
      { unfold take_back in Htb. destruct (se_inflight (sy_session y) !! id) eqn:Hid; simplify_eq;
          (split; [done|]); intros k [x Hx]; simpl in *.
        - apply lookup_delete_Some in Hx as [Hne Hx].
          assert (k ∈ id :: ids) as Hk by (apply Hin; by eexists). apply elem_of_cons in Hk as [?|?]; congruence.
        - assert (k ∈ id :: ids) as Hk by (apply Hin; by eexists).
          apply elem_of_cons in Hk as [->|?]; congruence. }
      by destruct active.
  - injection Hy as <-. unfold release_call. destruct (call _ _ _) as [r y1] eqn:Hcall.
    apply call_same in Hcall as [db ->]. apply (closer_action y); simpl; auto; [by eexists| |by rewrite Hcl].
    intros id' x ids' Hx. rewrite Hcl in Hx. injection Hx as -> -> ->. by eapply answered_accounted.
Qed.

Lemma step_ledger y y' :
  step o y y' -> (forall h, is_Some (sy_threads y !! h) -> is_Some (sy_messages y !! h)) ->
  traced y -> ledger y -> ledger y'.
Proof.
  intros [a y1 Ha|db' _] Hth Ht Hl; [|by apply (handler_action y); simpl; auto; destruct Hl].
  destruct a as [h data|h token c|raw|outcome c| |timeout c].
  - simpl in Ha. destruct (sy_consuming y); [|done]. destruct (sy_messages y !! h) eqn:Hm; [done|].
    simpl in Ha. injection Ha as <-. apply deliver_begin_ledger; try done.
    destruct (sy_threads y !! h) eqn:Hh; [|done]. destruct (Hth h) as [? ?]; [by eexists|congruence].
  - by eapply thread_step_ledger.
  - simpl in Ha. destruct (sy_handler y) eqn:Hh; try done. injection Ha as <-. by apply handle_ledger.
  - by eapply handler_ledger.
  - simpl in Ha. injection Ha as <-. apply (handler_action y); simpl; auto.
    apply (lg_settled _ Hl).
  - by eapply closer_ledger.
Qed.
End ledger.
