(* ===== verification/StreamClaims.v ===== *)
(** * The stream gateway: theorems

    Flow control, acknowledgement, closing and the frames of the protocol. *)

From Stdlib Require Import Ascii String.
From S2P Require Import Prelude GoLib Crypto Json JsonEncode Domain QueueSchema DeliverySchema.
From S2P Require Import DeliveryStore DeliveryEffects DeliverySystem PublishStore StreamProtocol.
From S2P Require Import StreamSession StreamSystem StreamInvariant StreamLedger.

(** ** Sessions *)

Lemma new_positive o0 o : New o0 = Some o -> 0 < go_MaxInFlight o <= 256.
Proof.
  unfold New. cbv zeta. destruct (_ <? _); [done|].
  destruct (256 <? positive_or (go_MaxInFlight o0) 256) eqn:Hmax; [done|]. intros [= <-].
  cbn [go_MaxInFlight]. unfold positive_or in *. destruct (go_MaxInFlight o0 <=? 0) eqn:H0; lia.
Qed.

Section session.
Context (o0 o : GatewayOptions) (app : string) (connection : option string) (g g' : Gateway)
  (s0 : Session) (db0 : RelayDB).
Hypothesis options : New o0 = Some o.
Hypothesis opened : open o app connection g = (Some s0, g').
Hypothesis database : relay_inv db0.

Lemma opened_session :
  exists c frame, s0 = with_frames [frame] (new_session app c) /\ 1 <= go_OutboundQueue o.
Proof using opened.
  unfold open in opened. destruct (bool_decide (app = "")); [done|]. destruct connection as [c|]; [|done].
  destruct (bool_decide (c = "") || gw_draining g); [done|]. unfold enqueueRaw in opened.
  cbn [new_session se_done se_frames length] in opened. revert opened.
  generalize (ready_frame o app c). intros frame. destruct (Z.of_nat 0 <? go_OutboundQueue o) eqn:Hout; [|done].
  intros [= <- _]. exists c, frame. split; [done|lia].
Qed.

Lemma reachable_invariants y :
  rtc (step o) (initial s0 db0) y -> counted o y /\ traced y /\ ledger y.
Proof using options opened database.
  intros Hrun. assert (counted o (initial s0 db0) /\ traced (initial s0 db0) /\ ledger (initial s0 db0)) as H0.
  { destruct opened_session as (c & frame & -> & Hout). pose proof (new_positive _ _ options).
    split_and!; [split|split|split]; simpl; try done.
    - split; simpl; rewrite ?msum_empty, ?map_size_empty; try done; lia.
    - by intros h [].
    - by intros h Hin%elem_of_nil.
    - by intros h []. }
  clear opened database. induction Hrun as [|y1 y2 y3 Hstep _ IH]; [done|]. apply IH.
  destruct H0 as (Hc & Ht & Hl). split_and!.
  - eapply step_counted; [|done..]. by eapply new_positive.
  - by eapply step_traced.
  - eapply step_ledger; [done|apply (ct_threads _ _ Hc)|done..].
Qed.

(** C18: flow control. Whatever the order in which messages arrive, goroutines run,
    frames come in and the session closes, it never has more deliveries in flight
    and reserved than its consumer asked for and the gateway allows, which is at most
    256; what is reserved is exactly what the goroutines hold that have not yet
    been answered by the database; the bytes counted as in flight cover the
    deliveries in flight; and the queue of frames keeps its bound. *)
Theorem session_flow_control y :
  rtc (step o) (initial s0 db0) y ->
  let s := sy_session y in
  Z.of_nat (size (se_inflight s)) + se_reserved s <= se_maxInFlight s
  /\ se_maxInFlight s <= go_MaxInFlight o <= 256
  /\ se_reserved s = msum slot (sy_threads y) /\ se_reservedBytes s = msum slot_bytes (sy_threads y)
  /\ 0 <= msum if_bytes (se_inflight s) <= se_inflightBytes s
  /\ Z.of_nat (length (se_frames s)) <= go_OutboundQueue o.
Proof using options opened database.
  intros ([[] _ _ _ _] & _ & _)%reachable_invariants. pose proof (new_positive _ _ options).
  assert (0 <= msum if_bytes (se_inflight (sy_session y))) by (by apply msum_nonneg).
  simpl. split_and!; try done; lia.
Qed.

(** C17: acknowledgements. A message is only acknowledged to the broker when its
    delivery is settled in the database for the generation of the message, or has a
    later generation, and it stays so: however the goroutines of the session and
    the other clients of the database interleave, and whatever fails, no delivery
    that still has to be made loses its message. *)
Theorem session_acks_settled y h :
  rtc (step o) (initial s0 db0) y -> (h, Ack) ∈ sy_answers y ->
  exists e, sy_messages y !! h = Some (Some e)
    /\ done_at (env_DeliveryID e) (if env_Generation e =? 0 then 1 else env_Generation e) (sy_db y).
Proof using options opened database.
  intros (_ & Ht & _)%reachable_invariants Hack.
  destruct (tr_ack _ Ht h Hack) as (id & gen & (e & He & <- & <-) & Hd). by exists e.
Qed.

(** Closing. A session that has closed has nothing in flight, and every message
    that was handed to it has been answered, or a goroutine is about to answer it,
    or it shares its delivery with another message; when its goroutines have ended,
    the second case is gone. *)
Theorem session_close_gives_back y :
  rtc (step o) (initial s0 db0) y -> sy_closer y = CClosed ->
  se_inflight (sy_session y) = ∅
  /\ forall h, is_Some (sy_messages y !! h) ->
       answered y h \/ shared y h \/ (held y h /\ sy_threads y <> ∅).
Proof using options opened database.
  intros (_ & _ & Hl)%reachable_invariants Hclosed. pose proof (lg_closing _ Hl) as Hc.
  rewrite Hclosed in Hc. destruct Hc as [_ Hempty]. split; [done|]. intros h Hh.
  destruct (lg_message _ Hl h Hh) as [?|[Hheld|[(id & x & Hx & _)|?]]]; [by left| | |by right; left].
  - right; right. split; [done|]. intros Hno. unfold held in Hheld. rewrite Hno, Hclosed in Hheld.
    destruct Hheld as [(t & Ht & _)|[(h' & id & x & Hx & _)|(id & x & ids & Hx & _)]]; done.
  - by rewrite Hempty in Hx.
Qed.
End session.

(** ** Termination *)

Definition rank (t : Thread) : nat :=
  match t with
  | Reserved _ _ => 5
  | Answered _ _ _ => 4
  | Sending _ _ => 3
  | Unsent _ => 2
  | Abandoning _ _ | Releasing _ _ => 1
  end.

Section termination.
Context (o : GatewayOptions).

(** The goroutine of a message is never stuck and comes closer to its end. *)
Lemma thread_step_rank h t token c y :
  sy_threads y !! h = Some t ->
  exists y', act o (AThread h token c) y = Some y'
    /\ (sy_threads y' !! h = None \/ exists t', sy_threads y' !! h = Some t' /\ (rank t' < rank t)%nat).
Proof.
  intros Hh. simpl. unfold thread_step. rewrite Hh.
  destruct t as [e n|e n r|e a|id wire|id|id active]; eexists; (split; [reflexivity|]).
  - unfold deliver_assign. destruct (call _ _ _) as [r y1]. right. eexists. simpl.
    rewrite lookup_insert_eq. split; [done|simpl; lia].
  - unfold deliver_answered. destruct (after_assign _ _ _ _ _) as [[[]|a|wire] s']; simpl.
    + left. apply lookup_delete_eq.
    + left. apply lookup_delete_eq.
    + right. eexists. rewrite lookup_insert_eq. split; [done|simpl; lia].
    + right. eexists. rewrite lookup_insert_eq. split; [done|simpl; lia].
  - unfold deliver_abandon. destruct (call _ _ _) as [r y1]. left. apply lookup_delete_eq.
  - unfold deliver_send. destruct (enqueueRaw _ _ _) as [[] s']; [left; apply lookup_delete_eq|right].
    eexists. simpl. rewrite lookup_insert_eq. split; [done|simpl; lia].
  - unfold deliver_unsent. destruct (take_back _ _) as [[a|] s']; [right|left; apply lookup_delete_eq].
    eexists. simpl. rewrite lookup_insert_eq. split; [done|simpl; lia].
  - left. apply lookup_delete_eq.
Qed.

(** Only the goroutine itself moves it. *)
Lemma thread_step_other h token c k y y' :
  act o (AThread k token c) y = Some y' -> k <> h -> sy_threads y' !! h = sy_threads y !! h.
Proof.
  simpl. unfold thread_step. intros Hy Hne.
  assert (forall t, <[k := t]> (sy_threads y) !! h = sy_threads y !! h) as Hins
    by (intros; by rewrite lookup_insert_ne).
  assert (delete k (sy_threads y) !! h = sy_threads y !! h) as Hdel by (by rewrite lookup_delete_ne).
  destruct (sy_threads y !! k) as [[]|]; [..|done]; injection Hy as <-;
    unfold deliver_assign, deliver_answered, deliver_abandon, deliver_send, deliver_unsent, release_call;
    try (destruct (call _ _ _) as [r1 y1] eqn:Hcall; apply call_same in Hcall as [db ->];
         first [apply Hins|apply Hdel]).
  - destruct (after_assign _ _ _ _ _) as [[[]|a|wire] s']; first [apply Hins|apply Hdel].
  - destruct (enqueueRaw _ _ _) as [[] s']; first [apply Hins|apply Hdel].
  - destruct (take_back _ _) as [[a|] s']; first [apply Hins|apply Hdel].
Qed.

Lemma thread_finishes h y t calls :
  sy_threads y !! h = Some t -> (rank t <= length calls)%nat ->
  exists n y', (n <= rank t)%nat
    /\ run o ((fun c => AThread h (fst c) (snd c)) <$> take n calls) y = Some y'
    /\ sy_threads y' !! h = None.
Proof.
  revert y t. induction calls as [|[token c] calls IH]; intros y t Ht Hlen; [by destruct t; simpl in Hlen; lia|].
  destruct (thread_step_rank h t token c y Ht) as (y1 & Hy1 & [Hnone|(t' & Ht' & Hrank)]).
  - exists 1%nat, y1. split_and!; [destruct t; simpl; lia| |done]. unfold run.
    cbn [take firstn fmap list_fmap foldl mbind option_bind fst snd]. by rewrite Hy1.
  - destruct (IH y1 t' Ht') as (n & y2 & Hn & Hrun & Hend); [simpl in Hlen; lia|].
    exists (S n), y2. split_and!; [lia| |done]. unfold run in *. cbn [take fmap list_fmap foldl].
    cbn [mbind option_bind fst snd]. by rewrite Hy1.
Qed.

(** *** Close *)

Lemma run_cons a actions y y1 : act o a y = Some y1 -> run o (a :: actions) y = run o actions y1.
Proof. intros Ha. unfold run. cbn [foldl mbind option_bind]. by rewrite Ha. Qed.

Lemma close_releases c ids y :
  sy_closer y = CReleasing ids ->
  exists n y', (n <= 2 * length ids + 1)%nat /\ run o (replicate n (AClose true c)) y = Some y'
    /\ sy_closer y' = CClosed.
Proof.
  revert y. induction ids as [|id ids IH]; intros y Hy.
  - eexists 1%nat, _. split_and!; [simpl; lia| |]; cbn [replicate].
    + erewrite run_cons by (simpl; by rewrite Hy). reflexivity.
    + reflexivity.
  - assert (act o (AClose true c) y = Some (close_take id ids y)) as Htake by (simpl; by rewrite Hy).
    destruct (take_back id (sy_session y)) as [[active|] s'] eqn:Hb.
    + assert (sy_closer (close_take id ids y) = CGiving id active ids) as Hg
        by (unfold close_take; by rewrite Hb).
      set (y2 := set_closer (CReleasing ids) (release_call id active c (close_take id ids y))).
      assert (act o (AClose true c) (close_take id ids y) = Some y2) as Hgive by (cbn [act]; by rewrite Hg).
      destruct (IH y2 eq_refl) as (n & y' & Hn & Hrun & Hend). exists (S (S n)), y'.
      cbn [replicate length]. split_and!; [lia| |done]. by rewrite (run_cons _ _ _ _ Htake), (run_cons _ _ _ _ Hgive).
    + destruct (IH (close_take id ids y)) as (n & y' & Hn & Hrun & Hend);
        [unfold close_take; by rewrite Hb|].
      exists (S n), y'. cbn [replicate length]. split_and!; [lia| |done]. by rewrite (run_cons _ _ _ _ Htake).
Qed.

(** Termination. A goroutine that delivers a message is never stuck, and ends
    after at most five steps of its own, which no other goroutine can undo; and
    [Close], once its wait for them is over, closes the session within two steps
    per delivery in flight. *)
Theorem session_terminates y :
  (forall h t calls, sy_threads y !! h = Some t -> (5 <= length calls)%nat ->
     exists n y', (n <= 5)%nat
       /\ run o ((fun c => AThread h (fst c) (snd c)) <$> take n calls) y = Some y'
       /\ sy_threads y' !! h = None)
  /\ (forall h k token c y', act o (AThread k token c) y = Some y' -> k <> h ->
        sy_threads y' !! h = sy_threads y !! h)
  /\ (forall c, sy_closer y = COpen ->
        exists n y', (n <= 2 * size (se_inflight (sy_session y)) + 3)%nat
          /\ run o (replicate n (AClose true c)) y = Some y' /\ sy_closer y' = CClosed).
Proof.
  split_and!.
  - intros h t calls Ht Hlen. assert (rank t <= 5)%nat by (destruct t; simpl; lia).
    destruct (thread_finishes h y t calls Ht) as (n & y' & Hn & Hrest); [lia|].
    exists n, y'. split; [lia|done].
  - intros h k token c y'. by apply thread_step_other.
  - intros c Hopen. set (y1 := close_begin y). set (y2 := close_waited y1).
    assert (act o (AClose true c) y = Some y1) as H1 by (simpl; by rewrite Hopen).
    assert (act o (AClose true c) y1 = Some y2) as H2 by done.
    destruct (close_releases c _ y2 eq_refl) as (n & y' & Hn & Hrun & Hend). exists (S (S n)), y'.
    rewrite length_fmap, length_map_to_list in Hn. cbn [replicate].
    split_and!; [simpl in Hn; lia| |done]. by rewrite (run_cons _ _ _ _ H1), (run_cons _ _ _ _ H2).
Qed.
End termination.
