(* ===== verification/AdminRead.v ===== *)
(** * Administration lists ([store/postgres/admin_read.go], [adminread/models.go])

    Pages of events, dead letters and audit records, newest first, continued by a
    cursor at the last row of the page before. *)

From Stdlib Require Import Ascii String.
From S2P Require Import Prelude GoLib Crypto Json JsonEncode AdminCursor Domain QueueSchema.
From S2P Require Import QueueStore DeliverySchema DeliveryStore.

(** ** Options *)

Record ListOptions := mkListOptions {
  lo_Limit : Z;
  lo_Cursor : option Cursor
}.
Definition ListOptions_Validate (o : ListOptions) : bool :=
  negb ((lo_Limit o <? 0) || (MaxPageSize <? lo_Limit o)).
Definition ValidateCursor (o : ListOptions) (fingerprint : string) : res unit :=
  if negb (ListOptions_Validate o) then Err ErrInvalidArgument else
  match lo_Cursor o with
  | Some c =>
      if negb (cu_Version c =? CursorVersion)
         || negb (bool_decide (cu_FilterFingerprint c = fingerprint))
         || IsZero (cu_Timestamp c) || bool_decide (cu_ID c = "")
      then Err ErrInvalidCursor else Ok tt
  | None => Ok tt
  end.
Definition NormalizedLimit (o : ListOptions) : Z :=
  if lo_Limit o =? 0 then DefaultPageSize else lo_Limit o.

Definition normalizedTime (value : option Z) : string :=
  match value with None => "" | Some t => decimal (UnixMicro t) end.
Definition validateFilterRange (from to : option Z) (values : list string) : bool :=
  negb (match from, to with Some f, Some t => t <? f | _, _ => false end)
  && forallb (fun v => (len v <=? 256) && bool_decide (TrimSpace v = v)) values.

(** ** A page of a list in descending order of instant and key *)

Section keyset.
Context {A K : Type} (at_ : A -> Z) (key : A -> K) (key_le : K -> K -> Prop).
Context `{!RelDecision key_le, !EqDecision K}.
Context (key_text : K -> string).

Definition newer (a b : A) : Prop :=
  at_ b < at_ a \/ at_ a = at_ b /\ key_le (key b) (key a).
#[global] Instance newer_dec : RelDecision newer.
Proof. unfold newer, RelDecision. apply _. Defined.

(** [(at,key) < ($at,$key)], or no cursor *)
Definition below (cursor : option (Z * K)) (a : A) : bool :=
  match cursor with
  | None => true
  | Some (t, k) => (at_ a <? t)
                   || (at_ a =? t) && bool_decide (key_le (key a) k) && negb (bool_decide (key a = k))
  end.
(** [ORDER BY at DESC, key DESC LIMIT $limit + 1] *)
Definition keyset (cursor : option (Z * K)) (limit : Z) (all : list A) : list A :=
  take (Z.to_nat (limit + 1)) (merge_sort newer (List.filter (below cursor) all)).

(** The page, and the text of the cursor for the next one, empty at the end. *)
Definition page_of (items : list A) (limit : Z) (fingerprint : string) : res (list A * string) :=
  if Z.of_nat (length items) <=? limit then Ok (items, "") else
  let items := take (Z.to_nat limit) items in
  match last items with
  | None => Ok (items, "")
  | Some l =>
      match EncodeCursor (mkCursor 0 (at_ l) (key_text (key l)) fingerprint) with
      | Ok next => Ok (items, next)
      | Err e => Err e
      end
  end.
End keyset.

(** ** Events *)

Record EventFilters := mkEventFilters {
  ef_Type : string;
  ef_SourceAppID : string;
  ef_From : option Z;
  ef_To : option Z
}.
Definition EventFilters_Fingerprint (f : EventFilters) : string :=
  FilterFingerprint ["event"; ef_Type f; ef_SourceAppID f; normalizedTime (ef_From f);
                     normalizedTime (ef_To f)].
Definition EventFilters_Validate (f : EventFilters) : bool :=
  validateFilterRange (ef_From f) (ef_To f) [ef_Type f; ef_SourceAppID f].

Record EventSummary := mkEventSummary {
  es_ID : string;
  es_Type : string;
  es_SourceAppID : string;
  es_TargetCount : Z;
  es_DeliveryCount : Z;
  es_CreatedAt : Z
}.

Definition in_range_of (from to : option Z) (t : Z) : bool :=
  match from with Some f => f <=? t | None => true end
  && match to with Some u => t <=? u | None => true end.
Definition filter_text (wanted value : string) : bool :=
  bool_decide (wanted = "") || bool_decide (value = wanted).

Definition event_summary (db : RelayDB) (e : EventRow) : EventSummary :=
  mkEventSummary (er_id e) (er_type e) (er_source_app_id e)
    (Z.of_nat (length (er_target_app_ids e)))
    (count_where (fun d => bool_decide (dr_event_id d = er_id e)) (deliveries db)) (er_created_at e).
Definition matching_events (f : EventFilters) (db : RelayDB) : list EventSummary :=
  event_summary db <$> select_where (fun e => filter_text (ef_Type f) (er_type e)
    && filter_text (ef_SourceAppID f) (er_source_app_id e)
    && in_range_of (ef_From f) (ef_To f) (er_created_at e)) (events (queue_db db)).

Definition cursor_position (o : ListOptions) : option (Z * string) :=
  (fun c => (cu_Timestamp c, cu_ID c)) <$> lo_Cursor o.

Section lists.
Context `{Postgres}.

Definition ListAdminEvents (o : ListOptions) (f : EventFilters) : M_relay (list EventSummary * string) :=
  let fingerprint := EventFilters_Fingerprint f in
  match ValidateCursor o fingerprint with
  | Err e => fail e
  | Ok _ =>
      if negb (EventFilters_Validate f) then fail ErrInvalidArgument else
      let limit := NormalizedLimit o in
      items ← query (fun db => keyset es_CreatedAt es_ID text_le (cursor_position o) limit
                                 (matching_events f db));
      match page_of es_CreatedAt es_ID id items limit fingerprint with
      | Ok page => mret page
      | Err e => fail e
      end
  end.

(** ** Dead letters *)

Record DeadLetterFilters := mkDeadLetterFilters {
  df_SourceAppID : string;
  df_TargetAppID : string;
  df_Sink : string;
  df_Reason : string;
  df_From : option Z;
  df_To : option Z
}.
Definition DeadLetterFilters_Fingerprint (f : DeadLetterFilters) : string :=
  FilterFingerprint ["dlq"; df_SourceAppID f; df_TargetAppID f; df_Sink f; df_Reason f;
                     normalizedTime (df_From f); normalizedTime (df_To f)].
Definition DeadLetterFilters_Validate (f : DeadLetterFilters) : bool :=
  (bool_decide (df_Sink f = "") || bool_decide (df_Sink f = "stream")
   || bool_decide (df_Sink f = "callback"))
  && validateFilterRange (df_From f) (df_To f) [df_SourceAppID f; df_TargetAppID f; df_Reason f].

Record DeadLetterSummary := mkDeadLetterSummary {
  dl_DeliveryID : string;
  dl_JobID : string;
  dl_EventID : string;
  dl_SourceAppID : string;
  dl_TargetAppID : string;
  dl_Sink : Sink;
  dl_Reason : string;
  dl_Attempts : Z;
  dl_CreatedAt : Z;
  dl_UpdatedAt : Z
}.
Definition sink_text (s : Sink) : string :=
  match s with SinkStream => "stream" | SinkCallback => "callback" end.

(** [last_attempt] is the row that [ORDER BY attempt DESC LIMIT 1] gives: attempts of
    several generations may share the highest number. *)
Context (last_attempt : string -> RelayDB -> option AttemptRow).

Definition dead_letter_reason (d : StreamRow) (db : RelayDB) : string :=
  let outbox_error := head (select_where (fun o => bool_decide (ob_delivery_id o = dr_id d)) (outbox db))
                      ≫= ob_last_error in
  match cc_reason (dr_callback d), outbox_error, last_attempt (dr_id d) db ≫= da_reason with
  | Some r, _, _ => r
  | None, Some r, _ => r
  | None, None, Some r => r
  | None, None, None => "unknown"
  end.
Definition dead_letter_summary (db : RelayDB) (d : StreamRow) : DeadLetterSummary :=
  mkDeadLetterSummary (dr_id d) (dr_public_job_id d) (dr_event_id d) (dr_source_app_id d)
    (dr_target_app_id d) (dr_sink d) (dead_letter_reason d db) (dr_attempts d) (dr_created_at d)
    (dr_updated_at d).
Definition matching_dead_letters (f : DeadLetterFilters) (db : RelayDB) : list DeadLetterSummary :=
  dead_letter_summary db <$> select_where (fun d => bool_decide (dr_status d = DDeadLetter)
    && filter_text (df_SourceAppID f) (dr_source_app_id d)
    && filter_text (df_TargetAppID f) (dr_target_app_id d)
    && filter_text (df_Sink f) (sink_text (dr_sink d))
    && filter_text (df_Reason f) (dead_letter_reason d db)
    && in_range_of (df_From f) (df_To f) (dr_updated_at d)) (deliveries db).

Definition ListAdminDeadLetters (o : ListOptions) (f : DeadLetterFilters)
    : M_relay (list DeadLetterSummary * string) :=
  let fingerprint := DeadLetterFilters_Fingerprint f in
  match ValidateCursor o fingerprint with
  | Err e => fail e
  | Ok _ =>
      if negb (DeadLetterFilters_Validate f) then fail ErrInvalidArgument else
      let limit := NormalizedLimit o in
      items ← query (fun db => keyset dl_UpdatedAt dl_DeliveryID text_le (cursor_position o) limit
                                 (matching_dead_letters f db));
      match page_of dl_UpdatedAt dl_DeliveryID id items limit fingerprint with
      | Ok page => mret page
      | Err e => fail e
      end
  end.

(** The dead letter and the type of its event. *)
Definition GetAdminDeadLetter (deliveryID : string) : M_relay (DeadLetterSummary * string) :=
  if bool_decide (deliveryID = "") || (256 <? len deliveryID) then fail ErrInvalidArgument else
  query_row StoreNotFound (fun db =>
    match deliveries db !! deliveryID with
    | Some d =>
        if bool_decide (dr_status d = DDeadLetter)
        then (fun e => (dead_letter_summary db d, er_type e)) <$> events (queue_db db) !! dr_event_id d
        else None
    | None => None
    end).

(** The event, its targets and its data. *)
Definition GetAdminEvent (eventID : string) : M_relay (EventSummary * list string * string) :=
  if bool_decide (eventID = "") || (256 <? len eventID) then fail ErrInvalidArgument else
  query_row StoreNotFound (fun db =>
    (fun e => (event_summary db e, er_target_app_ids e, er_data e)) <$> events (queue_db db) !! eventID).

(** ** The audit log *)

Record AuditFilters := mkAuditFilters {
  af_ActorType : string;
  af_Action : string;
  af_ResourceType : string;
  af_ResourceID : string;
  af_Outcome : string;
  af_From : option Z;
  af_To : option Z
}.
Definition AuditFilters_Fingerprint (f : AuditFilters) : string :=
  FilterFingerprint ["audit"; af_ActorType f; af_Action f; af_ResourceType f; af_ResourceID f;
                     af_Outcome f; normalizedTime (af_From f); normalizedTime (af_To f)].
Definition AuditFilters_Validate (f : AuditFilters) : bool :=
  validateFilterRange (af_From f) (af_To f)
    [af_ActorType f; af_Action f; af_ResourceType f; af_ResourceID f; af_Outcome f].

(** [$4='' OR resource_id=$4]: NULL matches nothing else. *)
Definition filter_null (wanted : string) (value : option string) : bool :=
  bool_decide (wanted = "") || null_eq value wanted.
Definition matching_audit (f : AuditFilters) (db : RelayDB) : list (Z * AuditRow) :=
  List.filter (fun kv => filter_text (af_ActorType f) (au_actor_type kv.2)
    && filter_text (af_Action f) (au_action kv.2)
    && filter_text (af_ResourceType f) (au_resource_type kv.2)
    && filter_null (af_ResourceID f) (au_resource_id kv.2)
    && filter_text (af_Outcome f) (au_outcome kv.2)
    && in_range_of (af_From f) (af_To f) (au_occurred_at kv.2)) (map_to_list (audit_log db)).
Definition audit_at (kv : Z * AuditRow) : Z := au_occurred_at kv.2.

Definition ListAdminAudit (o : ListOptions) (f : AuditFilters) : M_relay (list (Z * AuditRow) * string) :=
  let fingerprint := AuditFilters_Fingerprint f in
  match ValidateCursor o fingerprint with
  | Err e => fail e
  | Ok _ =>
      if negb (AuditFilters_Validate f) then fail ErrInvalidArgument else
      let position := match lo_Cursor o with
                      | None => Ok None
                      | Some c => match parse_int64 (cu_ID c) with
                                  | Some n => if n <? 1 then Err ErrInvalidCursor
                                              else Ok (Some (cu_Timestamp c, n))
                                  | None => Err ErrInvalidCursor
                                  end
                      end in
      match position with
      | Err e => fail e
      | Ok cursor =>
          let limit := NormalizedLimit o in
          items ← query (fun db => keyset audit_at fst Z.le cursor limit (matching_audit f db));
          match page_of audit_at fst decimal items limit fingerprint with
          | Ok page => mret page
          | Err e => fail e
          end
      end
  end.
End lists.
