(* ===== verification/AdminClaims.v ===== *)
(** * Administration: theorems

    Cursors round-trip, and a replay moves exactly the dead letters it names, once. *)

From Stdlib Require Import Ascii String.
From S2P Require Import Prelude GoLib Crypto Json JsonEncode AdminCursor Domain QueueSchema QueueStore DeliverySchema DeliveryStore AdminRead DeliveryEffects CallbackStore CallbackEffects DeliverySystem PublishStore AdminStore AdminEffects.

(** * Following cursors from page to page *)

(** ** Keysets *)

Section keyset.
Context {A K : Type} (at_ : A -> Z) (key : A -> K) (key_le : K -> K -> Prop).
Context `{!RelDecision key_le, !EqDecision K, !PartialOrder key_le, !Total key_le}.
Abbreviation is_newer := (AdminRead.newer at_ key key_le).
Abbreviation is_below := (AdminRead.below at_ key key_le).

#[local] Instance newer_trans : Transitive is_newer.
Proof.
  intros a b c. unfold AdminRead.newer. intros [?|[? ?]] [?|[? ?]]; try (left; lia).
  right. split; [lia|]. by etransitivity.
Qed.
#[local] Instance newer_total : Total is_newer.
Proof.
  intros a b. unfold AdminRead.newer.
  destruct (Z.lt_trichotomy (at_ a) (at_ b)) as [?|[?|?]]; [by right; left| |by left; left].
  destruct (total key_le (key a) (key b)); [right; right; done|left; right; done].
Qed.
Lemma newer_antisymm a b : is_newer a b -> is_newer b a -> key a = key b.
Proof.
  unfold AdminRead.newer. intros [?|[? ?]] [?|[? ?]]; try lia. by apply (anti_symm key_le).
Qed.

(** What comes after a row is below its position, what comes before it is not. *)
Lemma below_after x a : is_newer x a -> key a <> key x -> is_below (Some (at_ x, key x)) a = true.
Proof.
  unfold AdminRead.below, AdminRead.newer. intros [?|[? ?]] Hne; bool_to_prop; [left; lia|].
  right. split_and!; [lia|done|done].
Qed.
Lemma below_before x a : is_newer a x -> is_below (Some (at_ x, key x)) a = false.
Proof.
  unfold AdminRead.below, AdminRead.newer. intros Hn. apply not_true_iff_false. intros H.
  bool_to_prop. destruct H as [?|[[? ?] Hne]], Hn as [?|[? ?]]; try lia.
  by apply Hne, (anti_symm key_le).
Qed.

Lemma filter_all_true {B} (p : B -> bool) l : (forall b, b ∈ l -> p b = true) -> List.filter p l = l.
Proof.
  induction l as [|b l IH]; intros Hp; [done|]. simpl. rewrite (Hp b) by (by left).
  by rewrite IH by (intros; apply Hp; by right).
Qed.
Lemma filter_all_false {B} (p : B -> bool) l : (forall b, b ∈ l -> p b = false) -> List.filter p l = [].
Proof.
  induction l as [|b l IH]; intros Hp; [done|]. simpl. rewrite (Hp b) by (by left).
  by rewrite IH by (intros; apply Hp; by right).
Qed.

Lemma filter_below before x after :
  StronglySorted is_newer (before ++ x :: after)%list -> NoDup (key <$> (before ++ x :: after)%list) ->
  List.filter (is_below (Some (at_ x, key x))) (before ++ x :: after)%list = after.
Proof.
  intros Hs Hnd. rewrite List.filter_app. apply StronglySorted_app in Hs as (Hcross & _ & Hxs).
  apply StronglySorted_inv in Hxs as [_ Hx]. rewrite Forall_forall in Hx.
  rewrite fmap_app in Hnd. apply NoDup_app in Hnd as (_ & _ & Hnd). cbn [fmap list_fmap] in Hnd.
  apply NoDup_cons in Hnd as [Hfresh _].
  rewrite filter_all_false by (intros a Ha; apply below_before, Hcross; [done|by left]).
  cbn [List.filter app]. rewrite below_before by (right; by split). apply filter_all_true.
  intros a Ha. apply below_after; [by apply Hx|]. intros Heq. apply Hfresh. rewrite <- Heq.
  by apply list_elem_of_fmap_2.
Qed.

(** Selecting and sorting commute. *)
Lemma sort_filter p all :
  NoDup (key <$> all) ->
  merge_sort is_newer (List.filter p all) = List.filter p (merge_sort is_newer all).
Proof.
  intros Hnd.
  assert (forall a b, a ∈ all -> b ∈ all -> key a = key b -> a = b) as Hinj.
  { clear -Hnd. induction all as [|x all IH]; intros a b Ha Hb Heq; [by apply elem_of_nil in Ha|].
    cbn [fmap list_fmap] in Hnd. apply NoDup_cons in Hnd as [Hx Hnd].
    rewrite elem_of_cons in Ha, Hb. destruct Ha as [->|Ha], Hb as [->|Hb]; [done| | |by apply IH].
    - destruct Hx. rewrite Heq. by apply list_elem_of_fmap_2.
    - destruct Hx. rewrite <- Heq. by apply list_elem_of_fmap_2. }
  apply (Sorted_unique_strong is_newer).
  - intros a b Ha Hb Hab Hba. apply Hinj; [| |by apply newer_antisymm].
    + rewrite merge_sort_Permutation in Ha. by apply elem_of_filter_list in Ha as [? _].
    + apply elem_of_filter_list in Hb as [Hb _]. by rewrite merge_sort_Permutation in Hb.
  - apply Sorted_merge_sort. apply _.
  - apply StronglySorted_Sorted.
    eapply sorted_sublist; [apply filter_sublist|]. apply Sorted_StronglySorted; [apply _|].
    apply Sorted_merge_sort. apply _.
  - rewrite !merge_sort_Permutation. assert (all ≡ₚ merge_sort is_newer all) as Hp
      by (by rewrite merge_sort_Permutation).
    clear -Hp. induction Hp; simpl; repeat case_match; eauto using Permutation.
Qed.

(** ** Pages *)

Context (key_text : K -> string) (fingerprint : string).

(** A client reads a page and continues at its cursor, at most [n] times. *)
Fixpoint follow (list_page : option Cursor -> res (list A * string)) (n : nat)
    (cursor : option Cursor) : option (list A) :=
  match n with
  | O => None
  | S n' =>
      match list_page cursor with
      | Err _ => None
      | Ok (items, next) =>
          if bool_decide (next = "") then Some items
          else match DecodeCursor next fingerprint with
               | Ok c => app items <$> follow list_page n' (Some c)
               | Err _ => None
               end
      end
  end.

Definition cursor_of (x : A) : Cursor :=
  mkCursor CursorVersion (at_ x) (key_text (key x)) fingerprint.

(** The cursor at a row can be written and read back. *)
Definition cursor_ready (x : A) : Prop :=
  exists text, EncodeCursor (mkCursor 0 (at_ x) (key_text (key x)) fingerprint) = Ok text
    /\ text <> "" /\ DecodeCursor text fingerprint = Ok (cursor_of x).

Context (list_page : option Cursor -> res (list A * string)) (limit : Z) (all : list A).
Abbreviation page cursor :=
  (page_of at_ key key_text (keyset at_ key key_le cursor limit all) limit fingerprint).
Hypothesis limit_pos : 0 < limit.
Hypothesis keys : NoDup (key <$> all).
Hypothesis rows_ready : forall x, x ∈ all -> cursor_ready x.
Hypothesis first_page : list_page None = page None.
Hypothesis next_page : forall x, x ∈ all -> list_page (Some (cursor_of x)) = page (Some (at_ x, key x)).

Abbreviation sorted := (merge_sort is_newer all).

Lemma sorted_keys : NoDup (key <$> sorted).
Proof using keys. by rewrite merge_sort_Permutation. Qed.
Lemma sorted_strong : StronglySorted is_newer sorted.
Proof using PartialOrder0 Total0.
  apply Sorted_StronglySorted; [apply _|]. apply Sorted_merge_sort. apply _.
Qed.

(** The page after the rows of [before]. *)
Definition at_cursor (before : list A) (cursor : option Cursor) : Prop :=
  match last before with None => cursor = None | Some x => cursor = Some (cursor_of x) end.

Lemma page_after before after cursor :
  sorted = (before ++ after)%list -> at_cursor before cursor ->
  list_page cursor
  = page_of at_ key key_text (take (Z.to_nat (limit + 1)) after) limit fingerprint.
Proof using keys first_page next_page PartialOrder0 Total0.
  intros Hs Hc. unfold at_cursor in Hc. destruct (last before) as [x|] eqn:Hl; subst cursor.
  - apply last_Some in Hl as [before' ->]. rewrite <- app_assoc in Hs. simpl in Hs.
    rewrite next_page.
    2:{ rewrite <- (merge_sort_Permutation is_newer all), Hs. rewrite elem_of_app. right. by left. }
    unfold keyset. rewrite sort_filter by done. pose proof sorted_strong as Hst.
    pose proof sorted_keys as Hk. rewrite Hs in *. by rewrite filter_below.
  - apply last_None in Hl as ->. simpl in Hs. rewrite first_page. unfold keyset.
    rewrite sort_filter by done. by rewrite Hs, filter_all_true.
Qed.

Lemma page_whole after :
  Z.of_nat (length after) <= limit ->
  page_of at_ key key_text (take (Z.to_nat (limit + 1)) after) limit fingerprint = Ok (after, "").
Proof using Type.
  clear limit_pos.
  intros Hle. rewrite firstn_all2 by lia. unfold page_of.
  by assert ((Z.of_nat (length after) <=? limit) = true) as -> by lia.
Qed.

Lemma page_more after :
  limit < Z.of_nat (length after) -> (forall x, x ∈ after -> cursor_ready x) ->
  exists x text, last (take (Z.to_nat limit) after) = Some x /\ text <> ""
    /\ page_of at_ key key_text (take (Z.to_nat (limit + 1)) after) limit fingerprint
       = Ok (take (Z.to_nat limit) after, text)
    /\ DecodeCursor text fingerprint = Ok (cursor_of x).
Proof using limit_pos.
  intros Hlt Hready. destruct (last (take (Z.to_nat limit) after)) as [x|] eqn:Hl.
  2:{ apply last_None in Hl. apply (f_equal length) in Hl. rewrite length_take in Hl. simpl in Hl. lia. }
  assert (x ∈ after) as Hx.
  { apply last_Some in Hl as [l' Hl']. apply (subseteq_take (Z.to_nat limit)). rewrite Hl'.
    apply elem_of_app. right. by left. }
  destruct (Hready x Hx) as (text & Henc & Hne & Hdec). exists x, text. split_and!; try done.
  unfold page_of. rewrite take_take, length_take.
  assert ((Z.of_nat (Z.to_nat (limit + 1) `min` length after) <=? limit) = false) as -> by lia.
  rewrite Nat.min_l by lia. by rewrite Hl, Henc.
Qed.

Lemma follow_rest n before after cursor :
  sorted = (before ++ after)%list -> at_cursor before cursor -> (length after < n)%nat ->
  follow list_page n cursor = Some after.
Proof using limit_pos keys rows_ready first_page next_page PartialOrder0 Total0.
  revert before after cursor. induction n as [|n IH]; intros before after cursor Hs Hc Hn; [lia|].
  cbn [follow]. rewrite (page_after before after cursor Hs Hc).
  destruct (decide (Z.of_nat (length after) <= limit)) as [Hle|Hgt]; [by rewrite page_whole|].
  destruct (page_more after) as (x & text & Hl & Hne & -> & Hdec); [lia| |].
  { intros x Hx. apply rows_ready. rewrite <- (merge_sort_Permutation is_newer all), Hs.
    apply elem_of_app. by right. }
  rewrite bool_decide_eq_false_2, Hdec by done.
  rewrite (IH (before ++ take (Z.to_nat limit) after)%list (drop (Z.to_nat limit) after)).
  - simpl. by rewrite take_drop.
  - by rewrite <- app_assoc, take_drop.
  - unfold at_cursor. by rewrite last_app, Hl.
  - rewrite length_drop. lia.
Qed.

Lemma follow_all : follow list_page (S (length all)) None = Some sorted.
Proof using limit_pos keys rows_ready first_page next_page PartialOrder0 Total0.
  apply (follow_rest _ []); [done|done|]. rewrite merge_sort_Permutation. lia.
Qed.
End keyset.

(** Cursors. A cursor that was written for a position after the epoch, with an
    identifier and a fingerprint in UTF-8, is read back under the same filters as the
    same position to the microsecond, and refused under any other filters; and
    whatever text is accepted is a position in the list of these filters. *)
Theorem cursor_roundtrip c raw fingerprint :
  EncodeCursor c = Ok raw -> 0 < UnixMicro (cu_Timestamp c) < 2 ^ 63 ->
  utf8_Valid (cu_ID c) = true -> utf8_Valid (cu_FilterFingerprint c) = true ->
  DecodeCursor raw fingerprint
    = (if bool_decide (cu_FilterFingerprint c = fingerprint)
       then Ok (mkCursor CursorVersion (UnixMicro (cu_Timestamp c) * Microsecond) (cu_ID c) fingerprint)
       else Err ErrInvalidCursor)
  /\ forall raw' c', DecodeCursor raw' fingerprint = Ok c' ->
       cu_Version c' = CursorVersion /\ 0 < cu_Timestamp c' /\ cu_ID c' <> ""
       /\ cu_FilterFingerprint c' = fingerprint.
Proof.
  intros Henc Hus Hid Hf. split; [by apply decode_encode|].
  intros raw' c' (Hv & Ht & Hc & Hfp)%decode_sound. split_and!; try done.
  unfold cursor_id_ok in Hc. bool_to_prop. by destruct_and!.
Qed.

(** ** Replay *)

Section replay.
Context `{Postgres}.

(** A repeated request, while its record is kept. *)
Lemma replay_again clock command db lk row :
  ReplayCommand_Validate command = true ->
  admin_replay_requests db !! rc_IdempotencyKeyHash command = Some row -> clock < rq_expires_at row ->
  ReplayAdminDeadLetters clock command (mkWorld db [] lk)
  = if bool_decide (rq_request_fingerprint row = rc_RequestFingerprint command)
    then (Ok (rq_result row, true), mkWorld (purge clock db) [] lk)
    else (Err StoreConflict, mkWorld db [] lk).
Proof.
  intros Hv Hrow Hclock.
  assert (admin_replay_requests (purge clock db) !! rc_IdempotencyKeyHash command = Some row) as Hp
    by (by apply map_lookup_filter_Some).
  unfold ReplayAdminDeadLetters. rewrite Hv. cbn [negb]. run_free.
  change (set_replay_requests _ db) with (purge clock db). rewrite Hp.
  by case_bool_decide.
Qed.

(** The delivery [d] as if it had just been published, under the next generation. *)
Definition started_over (now : Z) (d : StreamRow) : StreamRow :=
  mkRow (dr_id d) (dr_public_job_id d) (dr_event_id d) (dr_source_app_id d) (dr_target_app_id d) (dr_sink d)
    DPending 0 (dr_generation d + 1) (dr_created_at d) now
    (mkAssignment None None None None None) (mkCallbackColumns None None None None None None None).
(** Its message [o], open again, due now, with an envelope of that generation. *)
Definition open_again (now : Z) (d : StreamRow) (o : OutboxRow) : OutboxRow :=
  mkOutbox (ob_id o) (ob_event_id o) (ob_delivery_id o) (ob_subject o)
    (mkEnvelope (coerce (env_DeliveryID (ob_payload o))) (dr_generation d + 1)
       (wire_event (env_Event (ob_payload o))))
    ((outboxIdentities (dr_id d)).2 ++ "-g" ++ decimal (dr_generation d + 1)) (dr_generation d + 1)
    0 now None None None None None (ob_created_at o) now.

(** C35: replay. A replay that fails changes nothing. A new one moves exactly the
    deliveries it names, all of them dead letters: each is pending again under the
    next generation, without attempts, assignment or callback, and its message is
    open under that generation, due now, unattempted and unclaimed, with an envelope
    that carries it and a message identifier of its own; no other delivery or message is touched. Until its record expires,
    the same request gives the same answer and moves nothing, and another selection
    under the same key is refused. *)
Theorem replay_dead_letters clock command w r w' :
  relay_inv (w_db w) -> ReplayAdminDeadLetters clock command w = (r, w') ->
  match r with
  | Err _ => w_db w' = w_db w
  | Ok (_, true) => deliveries (w_db w') = deliveries (w_db w) /\ outbox (w_db w') = outbox (w_db w)
  | Ok (items, false) =>
      rpi_DeliveryID <$> items ≡ₚ rc_DeliveryIDs command
      /\ (forall id, id ∈ rc_DeliveryIDs command -> exists d k o,
            deliveries (w_db w) !! id = Some d /\ dr_status d = DDeadLetter
            /\ deliveries (w_db w') !! id = Some (started_over (rc_Now command) d)
            /\ outbox (w_db w) !! k = Some o /\ ob_delivery_id o = id
            /\ outbox (w_db w') !! k = Some (open_again (rc_Now command) d o))
      /\ (forall id, id ∉ rc_DeliveryIDs command ->
            deliveries (w_db w') !! id = deliveries (w_db w) !! id)
      /\ (forall k o, outbox (w_db w) !! k = Some o -> ob_delivery_id o ∉ rc_DeliveryIDs command ->
            outbox (w_db w') !! k = Some o)
      /\ (forall clock2 command2 lk, ReplayCommand_Validate command2 = true ->
            rc_IdempotencyKeyHash command2 = rc_IdempotencyKeyHash command ->
            clock2 < rc_Now command + adminReplayRetention ->
            exists w2, ReplayAdminDeadLetters clock2 command2 (mkWorld (w_db w') [] lk)
                       = (if bool_decide (rc_RequestFingerprint command = rc_RequestFingerprint command2)
                          then Ok (wire_item <$> items, true) else Err StoreConflict, w2)
              /\ deliveries (w_db w2) = deliveries (w_db w') /\ outbox (w_db w2) = outbox (w_db w'))
  end.
Proof.
  intros Hinv Hrun. apply replay_effect in Hrun; [|done].
  destruct r as [[items [|]]|e]; [by destruct Hrun as [-> _]| |done].
  set (db := purge clock (w_db w)) in *.
  assert (relay_inv db) as Hinv1 by (by apply (recorded_step (w_db w))).
  destruct Hrun as (Hlen & -> & Hg & Hd & Ho & _ & Hstored).
  set (ids := rc_DeliveryIDs command) in *. set (locked := replay_rows _ db) in *.
  destruct (replay_rows_NoDup (sort_strings ids) db Hinv1) as [Hnd Hndo]. fold locked in Hnd, Hndo.
  assert ((fun row => dr_id row.1) <$> locked ≡ₚ ids) as Hperm.
  { apply submseteq_length_Permutation; [|by rewrite length_fmap, Hlen].
    apply NoDup_submseteq; [done|]. intros x ([d o] & -> & Hin)%list_elem_of_fmap.
    apply elem_of_replay_rows in Hin as [_ Hin]; [|done]. unfold sort_strings in Hin.
    by rewrite merge_sort_Permutation in Hin. }
  destruct (replay_fold_other (rc_Now command) locked db) as [Hotherd Hothero].
  split_and!.
  - rewrite <- list_fmap_compose. exact Hperm.
  - intros id Hid. rewrite <- Hperm in Hid. apply list_elem_of_fmap in Hid as ([d o] & -> & Hin).
    destruct (elem_of_replay_rows _ _ _ _ Hinv1 Hin) as [(Hd0 & Ho0 & Hod & Hs) _]. simpl in *.
    destruct (replay_fold_row (rc_Now command) locked db d o Hnd Hndo Hin) as [Hd1 Ho1].
    exists d, (ob_id o), o. rewrite Hd, Ho. by split_and!.
  - intros id Hid. rewrite Hd, Hotherd; [done|]. by rewrite Hperm.
  - intros k o Hk Hid. rewrite Ho, Hothero; [done|]. intros ([d o'] & -> & Hin)%list_elem_of_fmap.
    destruct (elem_of_replay_rows _ _ _ _ Hinv1 Hin) as [(_ & Ho0 & Hod & _) _]. simpl in *.
    apply Hid. simplify_eq. rewrite Hod, <- Hperm. apply list_elem_of_fmap. by exists (d, o).
  - intros clock2 command2 lk Hv Hkey Hclock. rewrite <- Hkey in Hstored.
    rewrite (replay_again _ _ _ _ _ Hv Hstored) by done. cbn [rq_request_fingerprint rq_result].
    case_bool_decide; eexists; by split_and!.
Qed.

End replay.

(** ** Pages *)

Lemma hex_encode_utf8 l : utf8_valid (hex_encode l) = true.
Proof.
  assert (forall n, 0 <= n < 16 -> (code (hex_digit n) <? 128) = true) as Hd.
  { intros n Hn. by apply (check_range (fun n => (code (hex_digit n) <? 128) = true) 0 16). }
  induction l as [|c l IH]; [done|]. pose proof (code_range c). cbn [hex_encode utf8_valid].
  rewrite !Hd by (Z.to_euclidean_division_equations; lia). done.
Qed.
Lemma fingerprint_text parts : utf8_Valid (FilterFingerprint parts) = true.
Proof.
  unfold FilterFingerprint, utf8_Valid, sha256_hex, hex_EncodeToString.
  rewrite bytes_of_bytes. apply hex_encode_utf8.
Qed.

(** A row at which a page can end: its instant is a positive number of microseconds
    and a cursor can hold its key. *)
Definition positioned (fingerprint : string) (t : Z) (id : string) : Prop :=
  0 < UnixMicro t < 2 ^ 63 /\ t = FromUnixMicro (UnixMicro t) /\ utf8_Valid id = true
  /\ exists text, EncodeCursor (mkCursor 0 t id fingerprint) = Ok text.

Lemma positioned_ready {A} (at_ : A -> Z) (key : A -> string) parts x :
  positioned (FilterFingerprint parts) (at_ x) (key x) ->
  cursor_ready at_ key id (FilterFingerprint parts) x.
Proof.
  intros (Hus & Ht & Hutf & text & Henc). exists text.
  assert (DecodeCursor text (FilterFingerprint parts)
          = Ok (cursor_of at_ key id (FilterFingerprint parts) x)) as Hdec.
  { rewrite (decode_encode _ _ _ Henc Hus Hutf (fingerprint_text parts)).
    cbn [cu_FilterFingerprint cu_Timestamp cu_ID]. rewrite bool_decide_eq_true_2, <- Ht; done. }
  split_and!; [done| |done]. intros ->. unfold DecodeCursor in Hdec.
  by rewrite bool_decide_eq_true_2 in Hdec.
Qed.

Lemma positioned_valid {A} (at_ : A -> Z) (key : A -> string) parts limit x :
  0 <= limit <= MaxPageSize -> positioned (FilterFingerprint parts) (at_ x) (key x) ->
  ValidateCursor (mkListOptions limit (Some (cursor_of at_ key id (FilterFingerprint parts) x)))
    (FilterFingerprint parts) = Ok tt.
Proof.
  intros Hlimit (Hus & Ht & _ & text & Henc).
  assert (IsZero (at_ x) = false) as Hz.
  { unfold IsZero. apply Z.eqb_neq. intros Hz. rewrite Hz in Hus. by destruct Hus as [Hus _]. }
  apply encode_cursor_ok in Henc as (Hid & _). unfold cursor_id_ok in Hid. cbn [cu_ID] in Hid.
  apply andb_true_iff in Hid as [Hid _]. apply andb_true_iff in Hid as [Hid%negb_true_iff _].
  unfold ValidateCursor, ListOptions_Validate, cursor_of.
  cbn [lo_Limit lo_Cursor cu_Version cu_FilterFingerprint cu_Timestamp cu_ID id].
  rewrite Hid, Hz, bool_decide_eq_true_2 by done.
  by assert ((limit <? 0) || (MaxPageSize <? limit) = false) as -> by lia.
Qed.

Lemma limit_in_range limit o :
  0 <= limit <= MaxPageSize -> lo_Limit o = limit -> 0 < NormalizedLimit o.
Proof.
  intros Hl <-. unfold NormalizedLimit, DefaultPageSize. case_match; lia.
Qed.

Section pages.
Context `{Postgres} (limit : Z).
Hypothesis limit_ok : 0 <= limit <= MaxPageSize.

(** Every row at which a page can end has a position, and reading on gives every row. *)
Lemma pages_of_rows {A} (at_ : A -> Z) (key : A -> string) (all : list A) parts
    (list_page : option Cursor -> res (list A * string)) :
  NoDup (key <$> all) -> (forall x, x ∈ all -> positioned (FilterFingerprint parts) (at_ x) (key x)) ->
  (forall cursor, ValidateCursor (mkListOptions limit cursor) (FilterFingerprint parts) = Ok tt ->
     list_page cursor
     = page_of at_ key id (keyset at_ key text_le (cursor_position (mkListOptions limit cursor))
         (NormalizedLimit (mkListOptions limit cursor)) all)
         (NormalizedLimit (mkListOptions limit cursor)) (FilterFingerprint parts)) ->
  follow (FilterFingerprint parts) list_page (S (length all)) None
  = Some (merge_sort (newer at_ key text_le) all).
Proof.
  intros Hnd Hpos Hpage.
  apply (follow_all at_ key text_le id (FilterFingerprint parts) list_page
           (NormalizedLimit (mkListOptions limit None)) all).
  - by eapply limit_in_range.
  - done.
  - intros x Hx. by apply positioned_ready, Hpos.
  - rewrite Hpage; [done|]. unfold ValidateCursor, ListOptions_Validate. cbn [lo_Limit lo_Cursor].
    by assert ((limit <? 0) || (MaxPageSize <? limit) = false) as -> by lia.
  - intros x Hx. rewrite Hpage; [done|]. by apply positioned_valid; [|apply Hpos].
Qed.

(** Pages. While the tables do not change, a client that starts at the first
    page of the events, or of the dead letters, and continues at each cursor, reaches
    the end and has read every row that matches its filters once, newest first,
    whatever page size it asks for. *)
Theorem pages_cover db lk (event_filters : EventFilters) (letter_filters : DeadLetterFilters) last_attempt :
  (forall k e, events (queue_db db) !! k = Some e -> er_id e = k
     /\ positioned (EventFilters_Fingerprint event_filters) (er_created_at e) k) ->
  (forall k d, deliveries db !! k = Some d -> dr_id d = k
     /\ positioned (DeadLetterFilters_Fingerprint letter_filters) (dr_updated_at d) k) ->
  EventFilters_Validate event_filters = true -> DeadLetterFilters_Validate letter_filters = true ->
  (let all := matching_events event_filters db in
   follow (EventFilters_Fingerprint event_filters)
     (fun cursor => (ListAdminEvents (mkListOptions limit cursor) event_filters (mkWorld db [] lk)).1)
     (S (length all)) None
   = Some (merge_sort (newer es_CreatedAt es_ID text_le) all))
  /\ (let all := matching_dead_letters last_attempt letter_filters db in
      follow (DeadLetterFilters_Fingerprint letter_filters)
        (fun cursor => (ListAdminDeadLetters last_attempt (mkListOptions limit cursor) letter_filters
                          (mkWorld db [] lk)).1)
        (S (length all)) None
      = Some (merge_sort (newer dl_UpdatedAt dl_DeliveryID text_le) all)).
Proof using limit_ok.
  intros Hevents Hletters Hve Hvl. split; intros all.
  - apply pages_of_rows.
    + unfold all, matching_events. rewrite <- list_fmap_compose. apply select_keys_NoDup.
      intros k e He. by apply Hevents.
    + intros x Hx. apply list_elem_of_fmap in Hx as (e & -> & (_ & k & He)%elem_of_select).
      destruct (Hevents _ _ He) as [<- Hp]. exact Hp.
    + intros cursor Hv. unfold ListAdminEvents. fold (EventFilters_Fingerprint event_filters) in Hv |- *.
      rewrite Hv, Hve. cbn [negb]. run_free.
      by destruct (page_of _ _ _ _ _ _).
  - apply pages_of_rows.
    + unfold all, matching_dead_letters. rewrite <- list_fmap_compose. apply select_keys_NoDup.
      intros k e He. by apply Hletters.
    + intros x Hx. apply list_elem_of_fmap in Hx as (e & -> & (_ & k & He)%elem_of_select).
      destruct (Hletters _ _ He) as [<- Hp]. exact Hp.
    + intros cursor Hv. unfold ListAdminDeadLetters.
      fold (DeadLetterFilters_Fingerprint letter_filters) in Hv |- *.
      rewrite Hv, Hvl. cbn [negb]. run_free.
      by destruct (page_of _ _ _ _ _ _).
Qed.
End pages.
