(* ===== verification/RealtimeProtocol.v ===== *)
(** * The realtime protocol ([realtime/protocol.go])

    Frames of the WebSocket protocol and the checks on those a client sends under
    version 2. [ServerFrame] has the fields the hub reads or writes. *)

From Stdlib Require Import Ascii String.
From S2P Require Import Prelude GoLib Crypto Json Domain QueueSchema.

Module Realtime.

Definition MaxInboundBytes : Z := 64 * 1024.
Definition OutboundQueueSize : nat := 64.
Definition ProtocolV2 : string := "relayhub.realtime.v2".
Definition MaxChannelsPerFrame : Z := 100.
Definition MaxHistoryItems : Z := 100.
Definition MaxBatchPublishItems : Z := 50.
Definition MaxRewindChannels : Z := 10.

Definition realtimeClientIDPattern (s : string) : bool :=
  (1 <=? len s) && (len s <=? 128)
  && forallb (fun c => is_upper c || is_lower c || is_digit c || is_one_of "_.:-" c) (bytes s).
Definition realtimeCursorPattern (s : string) : bool :=
  (1 <=? len s) && (len s <=? 128)
  && forallb (fun c => is_upper c || is_lower c || is_digit c || is_one_of "_-" c) (bytes s).

(** ** Frames *)

Record Audience := mkAudience {
  au_Type : string;
  au_ConnectionID : string;
  au_ClientID : string
}.
Record HistoryRequest := mkHistoryRequest {
  hr_Limit : Z;
  hr_Cursor : string
}.
Record EncryptionEnvelope := mkEnvelope {
  en_Algorithm : string;
  en_KeyID : string;
  en_Nonce : string;
  en_Ciphertext : string
}.
Record PublishItem := mkPublishItem {
  pi_ID : string;
  pi_Channel : string;
  pi_Audience : option Audience;
  pi_Data : string;
  pi_Encryption : option EncryptionEnvelope
}.
Record PublishOutcome := mkOutcome {
  po_ID : string;
  po_Accepted : bool;
  po_MessageID : string;
  po_Code : string
}.
Record ClientFrame := mkClientFrame {
  cf_Type : string;
  cf_Topics : list string;
  cf_Channels : list string;
  cf_Channel : string;
  cf_Audience : option Audience;
  cf_Data : string;
  cf_Encryption : option EncryptionEnvelope;
  cf_Rewind : option HistoryRequest;
  cf_Limit : Z;
  cf_Cursor : string;
  cf_Items : list PublishItem;
  cf_MessageID : string;
  cf_ActionID : string;
  cf_ActionType : string;
  cf_IdempotencyKey : string;
  cf_FileID : string;
  cf_InvocationID : string;
  cf_OK : option bool;
  cf_Result : string;
  cf_Error : string
}.

(** [redisstate.RealtimeMessageAction] and [domain.RealtimeFile], as far as the hub
    looks at them. *)
Record MessageAction := mkAction {
  ma_ID : string;
  ma_AppID : string;
  ma_Channel : string;
  ma_MessageID : string;
  ma_ClientID : string;
  ma_Type : string;
  ma_IdempotencyKey : string;
  ma_Data : string;
  ma_CreatedAt : Z
}.
Record RealtimeFile := mkFile {
  rf_ID : string;
  rf_AppID : string;
  rf_Channel : string;
  rf_ObjectKey : string;
  rf_Status : string
}.

#[warnings="-register-all"]
Inductive ServerFrame := mkServerFrame {
  sf_Type : string;
  sf_AppID : string;
  sf_Topics : list string;
  sf_Channels : list string;
  sf_Channel : string;
  sf_PublisherAppID : string;
  sf_PublisherClientID : string;
  sf_PublisherConnectionID : string;
  sf_MessageID : string;
  sf_PublishedAt : string;
  sf_Audience : option Audience;
  sf_Occupancy : Z;
  sf_Data : string;
  sf_Encryption : option EncryptionEnvelope;
  sf_Cursor : string;
  sf_NextCursor : string;
  sf_ContinuityCursor : string;
  sf_Items : list ServerFrame;
  sf_Outcomes : list PublishOutcome;
  sf_Action : option MessageAction;
  sf_Actions : list MessageAction;
  sf_File : option RealtimeFile;
  sf_Event : option Event;
  sf_Job : option (string * JobStatus); (* the target application and the status *)
  sf_Code : string;
  sf_Message : string;
  sf_InvocationID : string
}.

(** A frame with only its type, and with the fields of the frames the hub builds. *)
Definition typed (type : string) : ServerFrame :=
  mkServerFrame type "" [] [] "" "" "" "" "" "" None 0 "" None "" "" "" [] [] None [] None None None "" "" "".
Definition subscription_frame (type : string) (topics channels : list string) : ServerFrame :=
  mkServerFrame type "" topics channels "" "" "" "" "" "" None 0 "" None "" "" "" [] [] None [] None None None "" "" "".
Definition message_frame (app channel publisherClient publisherConnection id at_ : string) (audience : Audience)
    (data : string) (encryption : option EncryptionEnvelope) (file : option RealtimeFile) : ServerFrame :=
  mkServerFrame "channel.message" app [] [] channel app publisherClient publisherConnection id at_
    (Some audience) 0 data encryption "" "" "" [] [] None [] file None None "" "" "".
Definition presence_frame (type app channel client connection id at_ : string) (occupancy : Z) (data : string)
    : ServerFrame :=
  mkServerFrame type app [] [] channel "" client connection id at_ None occupancy data None "" "" "" [] []
    None [] None None None "" "" "".
Definition action_frame (type app channel message : string) (action : MessageAction) : ServerFrame :=
  mkServerFrame type app [] [] channel "" "" "" message "" None 0 "" None "" "" "" [] [] (Some action) [] None
    None None "" "" "".
Definition actions_frame (app channel message : string) (actions : list MessageAction) : ServerFrame :=
  mkServerFrame "message.actions.result" app [] [] channel "" "" "" message "" None 0 "" None "" "" "" [] [] None
    actions None None None "" "" "".
Definition history_frame (channel : string) (items : list ServerFrame) (next continuity : string) : ServerFrame :=
  mkServerFrame "history.result" "" [] [] channel "" "" "" "" "" None 0 "" None "" next continuity items [] None []
    None None None "" "" "".
Definition batch_frame (outcomes : list PublishOutcome) : ServerFrame :=
  mkServerFrame "channel.publish.batch.result" "" [] [] "" "" "" "" "" "" None 0 "" None "" "" "" [] outcomes None []
    None None None "" "" "".

(** ** Errors *)

Record ProtocolError := mkError { pe_Code : string; pe_Message : string }.
Definition protocolError (code message : string) : ProtocolError := mkError code message.
Definition ErrorFrame (e : ProtocolError) : ServerFrame :=
  mkServerFrame "error" "" [] [] "" "" "" "" "" "" None 0 "" None "" "" "" [] [] None [] None None None
    (pe_Code e) (pe_Message e) "".

(** A check: [None] is success. *)
Abbreviation verdict := (option ProtocolError).
Definition refuse (bad : bool) (e : ProtocolError) (next : verdict) : verdict := if bad then Some e else next.

(** ** Checks *)

Definition validateActionReference (channel messageID : string) : verdict :=
  refuse (negb (Channel.ValidRealtimeChannel channel) || negb (HasPrefix messageID "msg_")
          || negb (realtimeClientIDPattern messageID))
    (protocolError "invalid_action" "Message action requires a valid channel and message ID.") None.

Definition invalid_encryption : ProtocolError :=
  protocolError "invalid_encryption" "Encrypted publish requires a private channel and a bounded AES-256-GCM envelope.".
Definition validateMessagePayload (channel data : string) (encryption : option EncryptionEnvelope) : verdict :=
  match encryption with
  | None => refuse (negb (JSONObject data))
      (protocolError "invalid_publish" "Publish requires exactly one JSON object data or encrypted envelope.") None
  | Some e =>
      refuse (negb (len data =? 0) || negb (Channel.PrivateRealtimeChannel channel)
              || negb (bool_decide (en_Algorithm e = "aes-256-gcm")) || negb (realtimeClientIDPattern (en_KeyID e)))
        invalid_encryption
      (refuse match b64_DecodeString (en_Nonce e), b64_DecodeString (en_Ciphertext e) with
              | Some nonce, Some ciphertext =>
                  negb (len nonce =? 12) || (len ciphertext <? 16) || (48 * 1024 <? len ciphertext)
              | _, _ => true
              end invalid_encryption None)
  end.

Definition validateHistoryRequest (request : HistoryRequest) : verdict :=
  refuse ((hr_Limit request <? 1) || (MaxHistoryItems <? hr_Limit request)
          || negb (bool_decide (hr_Cursor request = "")) && negb (realtimeCursorPattern (hr_Cursor request)))
    (protocolError "invalid_history" "History requires a limit between 1 and 100 and a valid cursor.") None.

Definition validateAudience (audience : option Audience) : verdict :=
  match audience with
  | None => None
  | Some a =>
      if bool_decide (au_Type a = "all") || bool_decide (au_Type a = "others") then
        refuse (negb (bool_decide (au_ConnectionID a = "")) || negb (bool_decide (au_ClientID a = "")))
          (protocolError "invalid_audience" "Audience target fields must match its type.") None
      else if bool_decide (au_Type a = "connection") then
        refuse (negb (HasPrefix (au_ConnectionID a) "conn_") || negb (bool_decide (au_ClientID a = "")))
          (protocolError "invalid_audience" "A connection audience requires connection_id.") None
      else if bool_decide (au_Type a = "client") then
        refuse (negb (realtimeClientIDPattern (au_ClientID a)) || negb (bool_decide (au_ConnectionID a = "")))
          (protocolError "invalid_audience" "A client audience requires client_id.") None
      else Some (protocolError "invalid_audience" "Audience type must be all, others, connection, or client.")
  end.

Definition invalid_batch : ProtocolError :=
  protocolError "invalid_batch" "Batch items require unique IDs, valid channels, audiences, and JSON object data.".
Fixpoint items_from (seen : list string) (encrypted : option bool) (items : list PublishItem) : verdict :=
  match items with
  | [] => None
  | item :: rest =>
      let itemEncrypted := isSome (pi_Encryption item) in
      refuse (negb (realtimeClientIDPattern (pi_ID item)) || bool_decide (pi_ID item ∈ seen)
              || negb (Channel.ValidRealtimeChannel (pi_Channel item))
              || isSome (validateMessagePayload (pi_Channel item) (pi_Data item) (pi_Encryption item)))
        invalid_batch
      (refuse match encrypted with Some e => negb (Bool.eqb e itemEncrypted) | None => false end
        (protocolError "invalid_batch" "A batch cannot mix encrypted and unencrypted messages.")
      (refuse (isSome (validateAudience (pi_Audience item))) invalid_batch
        (items_from (pi_ID item :: seen) (Some itemEncrypted) rest)))
  end.
Definition validatePublishItems (items : list PublishItem) : verdict :=
  refuse ((Z.of_nat (length items) <? 1) || (MaxBatchPublishItems <? Z.of_nat (length items)))
    (protocolError "invalid_batch" "Batch publish requires between 1 and 50 items.")
    (items_from [] None items).

Definition invalid_channels : ProtocolError :=
  protocolError "invalid_channels" "Supply between 1 and 100 exact channels without duplicates.".
Fixpoint channels_from (seen : list string) (channels : list string) : verdict :=
  match channels with
  | [] => None
  | c :: rest => refuse (negb (Channel.ValidRealtimeChannel c) || bool_decide (c ∈ seen)) invalid_channels
                   (channels_from (c :: seen) rest)
  end.
Definition validateChannels (channels : list string) : verdict :=
  refuse ((Z.of_nat (length channels) =? 0) || (MaxChannelsPerFrame <? Z.of_nat (length channels))) invalid_channels
    (channels_from [] channels).

Definition invalid_topics : ProtocolError :=
  protocolError "invalid_topics" "Supply events, jobs, functions or channel:<name> topics without duplicates.".
Definition topic_ok (topic : string) : bool :=
  bool_decide (topic = "events") || bool_decide (topic = "jobs") || bool_decide (topic = "functions")
  || match CutPrefix topic "channel:" with Some channel => Channel.ValidRealtimeChannel channel | None => false end.
Fixpoint topics_from (seen : list string) (topics : list string) : verdict :=
  match topics with
  | [] => None
  | t :: rest => refuse (negb (topic_ok t) || bool_decide (t ∈ seen)) invalid_topics (topics_from (t :: seen) rest)
  end.
Definition validateTopics (topics : list string) : verdict :=
  refuse (bool_decide (topics = [])) invalid_topics (topics_from [] topics).

(** The switch of [DecodeClientFrameV2] over a decoded frame. *)
Definition invalid_history_frame : ProtocolError :=
  protocolError "invalid_history" "History requires a valid channel, limit, and optional cursor.".
Definition file_ok (frame : ClientFrame) : bool :=
  Channel.ValidRealtimeChannel (cf_Channel frame) && HasPrefix (cf_FileID frame) "file_"
  && realtimeClientIDPattern (cf_FileID frame).
Definition checkFrameV2 (frame : ClientFrame) : verdict :=
  let type_is t := bool_decide (cf_Type frame = t) in
  if type_is "subscribe" then
    match validateChannels (cf_Channels frame) with
    | Some e => Some e
    | None =>
        match cf_Rewind frame with
        | None => None
        | Some rewind =>
            refuse (MaxRewindChannels <? Z.of_nat (length (cf_Channels frame)))
              (protocolError "invalid_history" "Rewind supports at most 10 channels per subscribe frame.")
              (validateHistoryRequest rewind)
        end
    end
  else if type_is "unsubscribe" then
    match validateChannels (cf_Channels frame) with
    | Some e => Some e
    | None => refuse (isSome (cf_Rewind frame))
                (protocolError "invalid_history" "Rewind is only valid when subscribing.") None
    end
  else if type_is "channel.publish" then
    refuse (negb (Channel.ValidRealtimeChannel (cf_Channel frame)))
      (protocolError "invalid_publish" "Publish requires a valid channel and JSON object data.")
    match validateMessagePayload (cf_Channel frame) (cf_Data frame) (cf_Encryption frame) with
    | Some e => Some e
    | None => validateAudience (cf_Audience frame)
    end
  else if type_is "channel.publish.batch" then validatePublishItems (cf_Items frame)
  else if type_is "history.get" then
    refuse (negb (Channel.ValidRealtimeChannel (cf_Channel frame))) invalid_history_frame
      (validateHistoryRequest (mkHistoryRequest (cf_Limit frame) (cf_Cursor frame)))
  else if type_is "presence.update" then
    refuse (negb (Channel.ValidRealtimeChannel (cf_Channel frame)) || negb (JSONObject (cf_Data frame)))
      (protocolError "invalid_presence" "Presence requires a valid channel and JSON object data.") None
  else if type_is "message.action.put" then
    refuse (isSome (validateActionReference (cf_Channel frame) (cf_MessageID frame))
            || negb (bool_decide (cf_ActionType frame = "reaction") || bool_decide (cf_ActionType frame = "annotation"))
            || negb (realtimeClientIDPattern (cf_IdempotencyKey frame)) || negb (JSONObject (cf_Data frame))
            || (4096 <? len (cf_Data frame)))
      (protocolError "invalid_action" "Message action requires a valid channel, message, type, idempotency key, and bounded JSON object data.")
      None
  else if type_is "message.actions.get" then validateActionReference (cf_Channel frame) (cf_MessageID frame)
  else if type_is "message.action.remove" then
    refuse (isSome (validateActionReference (cf_Channel frame) (cf_MessageID frame))
            || negb (realtimeClientIDPattern (cf_ActionID frame)) || negb (len (cf_Data frame) =? 0))
      (protocolError "invalid_action" "Message action removal requires valid channel, message, and action IDs.") None
  else if type_is "file.publish" then
    refuse (negb (file_ok frame) || negb (len (cf_Data frame) =? 0) || isSome (cf_Encryption frame))
      (protocolError "invalid_file" "File publish requires a valid channel and ready file ID.")
      (validateAudience (cf_Audience frame))
  else if type_is "ping" then None
  else if type_is "" then Some (protocolError "invalid_frame" "Frame type is required.")
  else Some (protocolError "unknown_type" "Frame type is not supported.").

End Realtime.
