(* ===== verification/RealtimeHub.v ===== *)
(** * The realtime hub ([realtime/hub.go], [realtime/session.go])

    The hub and its sessions as a shared state, and the code of the goroutines as
    tasks: each task is one critical section of the hub, one use of a session's
    queue, or one call of a store outside, and leaves the tasks that follow it. The
    answers of the stores, the clock and fresh identifiers are arguments of a step.
    A session is known by its connection identifier. *)

From Stdlib Require Import Ascii String.
From S2P Require Import Prelude GoLib Crypto Json Domain QueueSchema RealtimeProtocol.
Import Realtime.

Module Hub.

(** ** State *)

Record Session := mkSession {
  ss_appID : string;
  ss_clientID : string;
  ss_protocol : string;
  ss_capabilities : gmap string (gset string);
  ss_presence : gmap string string;
  ss_rewinding : gset string;
  ss_rewindBuffer : list ServerFrame;
  ss_rewindSeen : gmap string Z;
  ss_outbound : list ServerFrame;
  ss_done : bool
}.

(** Which of the collaborators have been set. *)
Record Deps := mkDeps {
  dp_registry : bool;
  dp_presence : bool;
  dp_history : bool;
  dp_actions : bool;
  dp_files : bool;
  dp_limiter : bool;
  dp_publisher : bool;
  dp_functions : bool
}.

(** [hb_objects] has every session there ever was, [hb_sessions] the registered ones
    with their topics; [hb_routes] the applications with a function route, when there
    is a route manager. *)
Record Hub := mkHub {
  hb_deps : Deps;
  hb_objects : gmap string Session;
  hb_sessions : gmap string (gset string);
  hb_closed : bool;
  hb_routes : option (gset string)
}.
Definition NewHub (deps : Deps) (routes : bool) : Hub :=
  mkHub deps ∅ ∅ false (if routes then Some ∅ else None).

Definition with_objects (t : gmap string Session) (h : Hub) : Hub :=
  mkHub (hb_deps h) t (hb_sessions h) (hb_closed h) (hb_routes h).
Definition with_sessions (t : gmap string (gset string)) (h : Hub) : Hub :=
  mkHub (hb_deps h) (hb_objects h) t (hb_closed h) (hb_routes h).
Definition with_routes (r : option (gset string)) (h : Hub) : Hub :=
  mkHub (hb_deps h) (hb_objects h) (hb_sessions h) (hb_closed h) r.
Definition set_closed (h : Hub) : Hub :=
  mkHub (hb_deps h) (hb_objects h) (hb_sessions h) true (hb_routes h).
Definition on_session (f : Session -> Session) (id : string) (h : Hub) : Hub :=
  with_objects (alter f id (hb_objects h)) h.

Definition set_rewind (rewinding : gset string) (buffer : list ServerFrame) (seen : gmap string Z) (s : Session) : Session :=
  mkSession (ss_appID s) (ss_clientID s) (ss_protocol s) (ss_capabilities s) (ss_presence s) rewinding buffer seen
    (ss_outbound s) (ss_done s).
Definition set_presence (p : gmap string string) (s : Session) : Session :=
  mkSession (ss_appID s) (ss_clientID s) (ss_protocol s) (ss_capabilities s) p (ss_rewinding s) (ss_rewindBuffer s)
    (ss_rewindSeen s) (ss_outbound s) (ss_done s).
Definition set_outbound (q : list ServerFrame) (s : Session) : Session :=
  mkSession (ss_appID s) (ss_clientID s) (ss_protocol s) (ss_capabilities s) (ss_presence s) (ss_rewinding s)
    (ss_rewindBuffer s) (ss_rewindSeen s) q (ss_done s).
Definition set_done (s : Session) : Session :=
  mkSession (ss_appID s) (ss_clientID s) (ss_protocol s) (ss_capabilities s) (ss_presence s) (ss_rewinding s)
    (ss_rewindBuffer s) (ss_rewindSeen s) (ss_outbound s) true.

Definition copyCapabilities (source : gmap string (list string)) : gmap string (gset string) := list_to_set <$> source.

Definition allowed (s : Session) (channel action : string) : bool :=
  existsb (fun ga : string * gset string => bool_decide (action ∈ ga.2) && Channel.RealtimeChannelGrantMatches ga.1 channel)
    (map_to_list (ss_capabilities s)).

Definition topic_of (channel : string) : string := "channel:" ++ channel.
Definition is_v2 (s : Session) : bool := bool_decide (ss_protocol s = ProtocolV2).

(** The registered session of an identifier, with its topics. *)
Definition member (h : Hub) (id : string) : option (Session * gset string) :=
  match hb_sessions h !! id, hb_objects h !! id with
  | Some topics, Some s => Some (s, topics)
  | _, _ => None
  end.
Definition members (h : Hub) : list (string * Session * gset string) :=
  omap (fun it => match hb_objects h !! it.1 with Some s => Some (it.1, s, it.2) | None => None end)
    (map_to_list (hb_sessions h)).
Definition connection_closed : ProtocolError := protocolError "connection_closed" "Connection is closed.".
Definition unavailable (message : string) : ProtocolError := protocolError "realtime_unavailable" message.

(** ** Registering *)

Definition new_session (appID protocol clientID : string) (capabilities : gmap string (list string)) (done : bool) : Session :=
  mkSession appID clientID protocol (copyCapabilities capabilities) ∅ ∅ [] ∅ [] done.

(** The critical section; the identifier is new. *)
Definition register (id appID protocol clientID : string) (capabilities : gmap string (list string)) (h : Hub) : Hub * bool :=
  match hb_objects h !! id with
  | Some _ => (h, false)
  | None =>
      let refused := hb_closed h || bool_decide (appID = "")
                     || bool_decide (protocol = ProtocolV2) && bool_decide (clientID = "") in
      let s := new_session appID protocol clientID capabilities refused in
      let h1 := with_objects (<[id := s]> (hb_objects h)) h in
      if refused then (h1, false) else (with_sessions (<[id := ∅]> (hb_sessions h1)) h1, true)
  end.

(** ** Subscribing *)

(** Whether a session of the application other than [id] handles functions. *)
Definition other_handler (app id : string) (h : Hub) : bool :=
  existsb (fun m => let '(i, s, topics) := m in
    negb (bool_decide (i = id)) && bool_decide (ss_appID s = app) && bool_decide ("functions" ∈ topics)) (members h).

(** [Hub.Subscribe]; [ensured] is the answer of [EnsureFunctionRoute]. *)
Definition Subscribe (id : string) (topics : list string) (ensured : bool) (h : Hub) : Hub * verdict :=
  match validateTopics topics with
  | Some e => (h, Some e)
  | None =>
      match member h id with
      | None => (h, Some connection_closed)
      | Some (s, subscribed) =>
          let needsFunctionRoute := bool_decide ("functions" ∈ topics) && negb (bool_decide ("functions" ∈ subscribed))
                                    && negb (other_handler (ss_appID s) id h) in
          let add h := with_sessions (<[id := subscribed ∪ list_to_set topics]> (hb_sessions h)) h in
          match hb_routes h with
          | Some routes =>
              if needsFunctionRoute then
                if ensured then (add (with_routes (Some ({[ss_appID s]} ∪ routes)) h), None)
                else (h, Some (protocolError "function_unavailable" "Function routing is unavailable."))
              else (add h, None)
          | None => (add h, None)
          end
      end
  end.

(** The critical section of [subscribeV2]. *)
Definition subscribeV2 (id : string) (channels : list string) (rewind : bool) (h : Hub) : Hub * verdict :=
  match validateChannels channels with
  | Some e => (h, Some e)
  | None =>
      match member h id with
      | None => (h, Some connection_closed)
      | Some (s, subscribed) =>
          if negb (is_v2 s) then (h, Some connection_closed) else
          if existsb (fun c => negb (allowed s c "subscribe")) channels
          then (h, Some (protocolError "forbidden" "The token does not allow subscribing to this channel.")) else
          let h1 := with_sessions (<[id := subscribed ∪ list_to_set (topic_of <$> channels)]> (hb_sessions h)) h in
          (if rewind then on_session (fun s => set_rewind (ss_rewinding s ∪ list_to_set channels) (ss_rewindBuffer s)
                                                 (ss_rewindSeen s) s) id h1
           else h1, None)
      end
  end.

(** The critical section of [UnsubscribeV2]. *)
Definition unsubscribeV2 (id : string) (channels : list string) (h : Hub) : Hub * verdict :=
  match validateChannels channels with
  | Some e => (h, Some e)
  | None =>
      match member h id with
      | None => (h, Some connection_closed)
      | Some (s, subscribed) =>
          if negb (is_v2 s) then (h, Some connection_closed) else
          if existsb (fun c => negb (allowed s c "subscribe")) channels
          then (h, Some (protocolError "forbidden" "The token does not allow this channel.")) else
          (with_sessions (<[id := subscribed ∖ list_to_set (topic_of <$> channels)]> (hb_sessions h)) h, None)
      end
  end.

(** ** Delivering *)

Definition validV2Delivery (app : string) (frame : ServerFrame) : bool :=
  if negb (bool_decide (sf_AppID frame = app)) || negb (Channel.ValidRealtimeChannel (sf_Channel frame)) then false else
  let type_is t := bool_decide (sf_Type frame = t) in
  if type_is "channel.message" then
    let fileValid := match sf_File frame with
                     | Some f => bool_decide (rf_AppID f = app) && bool_decide (rf_Channel f = sf_Channel frame)
                                 && negb (bool_decide (rf_ID f = "")) && bool_decide (rf_ObjectKey f = "")
                                 && bool_decide (rf_Status f = "ready")
                     | None => false
                     end in
    isSome (sf_Audience frame)
    && (fileValid || isNone (validateMessagePayload (sf_Channel frame) (sf_Data frame) (sf_Encryption frame)))
  else if type_is "message.action.updated" || type_is "message.action.removed" then
    match sf_Action frame with
    | Some a => bool_decide (ma_AppID a = app) && bool_decide (ma_Channel a = sf_Channel frame)
                && bool_decide (ma_MessageID a = sf_MessageID frame)
    | None => false
    end
  else if type_is "presence.join" || type_is "presence.update" then
    JSONObject (sf_Data frame) && negb (bool_decide (sf_PublisherClientID frame = ""))
    && negb (bool_decide (sf_PublisherConnectionID frame = ""))
  else if type_is "presence.leave" then
    negb (bool_decide (sf_PublisherClientID frame = "")) && negb (bool_decide (sf_PublisherConnectionID frame = ""))
  else if type_is "presence.timeout" then negb (bool_decide (sf_PublisherConnectionID frame = ""))
  else false.

(** Whether a subscribed session is addressed. *)
Definition in_audience (frame : ServerFrame) (id : string) (s : Session) : bool :=
  if negb (bool_decide (sf_Type frame = "channel.message")) then true else
  match sf_Audience frame with
  | None => false
  | Some a =>
      if bool_decide (au_Type a = "all") then true
      else if bool_decide (au_Type a = "others") then negb (bool_decide (id = sf_PublisherConnectionID frame))
      else if bool_decide (au_Type a = "connection") then bool_decide (id = au_ConnectionID a)
      else if bool_decide (au_Type a = "client") then bool_decide (ss_clientID s = au_ClientID a)
      else false
  end.

(** What happens to one session of the hub under the lock of [DeliverV2]. *)
Inductive Selection := NotTarget | Duplicate | Buffered | Overflow | Target.
Definition selects (app : string) (frame : ServerFrame) (now : Z) (id : string) (s : Session) (topics : gset string)
    : Selection :=
  if negb (is_v2 s) || negb (bool_decide (ss_appID s = app)) || negb (bool_decide (topic_of (sf_Channel frame) ∈ topics))
  then NotTarget else
  if negb (in_audience frame id s) then NotTarget else
  let duplicate := negb (bool_decide (sf_MessageID frame = ""))
                   && match ss_rewindSeen s !! sf_MessageID frame with Some expires => now <? expires | None => false end in
  if duplicate then Duplicate else
  if bool_decide (sf_Channel frame ∈ ss_rewinding s) then
    if (OutboundQueueSize <=? length (ss_rewindBuffer s))%nat then Overflow else Buffered
  else Target.
Definition selected (app : string) (frame : ServerFrame) (now : Z) (id : string) (s : Session) (topics : gset string)
    : Session :=
  let forget s := if bool_decide (sf_MessageID frame = "") then s
                  else set_rewind (ss_rewinding s) (ss_rewindBuffer s) (delete (sf_MessageID frame) (ss_rewindSeen s)) s in
  match selects app frame now id s topics with
  | NotTarget | Duplicate => s
  | Target | Overflow => forget s
  | Buffered => let s := forget s in set_rewind (ss_rewinding s) (ss_rewindBuffer s ++ [frame])%list (ss_rewindSeen s) s
  end.
Definition selection (app : string) (frame : ServerFrame) (now : Z) (h : Hub) : list (string * Selection) :=
  (fun m => let '(id, s, topics) := m in (id, selects app frame now id s topics)) <$> members h.
Definition chosen (kind : Selection -> bool) (l : list (string * Selection)) : list string :=
  (List.filter (fun x => kind x.2) l).*1.

(** The critical section of [DeliverV2]: sessions that overflowed, sessions to send
    to, and the count it returns. *)
Definition deliver_locked (app : string) (frame : ServerFrame) (now : Z) (h : Hub) : Hub * list string * list string * Z :=
  if negb (validV2Delivery app frame) then (h, [], [], 0) else
  let sel := selection app frame now h in
  let overflow := chosen (fun k => match k with Overflow => true | _ => false end) sel in
  let targets := chosen (fun k => match k with Target => true | _ => false end) sel in
  let buffered := chosen (fun k => match k with Overflow | Buffered => true | _ => false end) sel in
  let objects := map_imap (fun id s => Some match hb_sessions h !! id with
                                       | Some topics => selected app frame now id s topics
                                       | None => s
                                       end) (hb_objects h) in
  (with_objects objects h, overflow, targets, Z.of_nat (length targets) + Z.of_nat (length buffered)).

(** [Hub.publish]: the sessions of one application, or of all of them. *)
Definition publish_targets (app topic : string) (h : Hub) : list string :=
  (fun m => m.1.1) <$> List.filter (fun m => let '(_, s, topics) := m in
    (bool_decide (app = "") || bool_decide (ss_appID s = app)) && bool_decide (topic ∈ topics)) (members h).

End Hub.
