(* ===== verification/RealtimeTasks.v ===== *)
(** * The goroutines of the realtime hub

    What a goroutine does between two points where others may run, as a task over the
    state of [RealtimeHub]: [step] runs the first task of a goroutine and gives the
    tasks it continues with, and the calls it made outside. *)

From Stdlib Require Import Ascii String.
From S2P Require Import Prelude GoLib Crypto Json Domain QueueSchema RealtimeProtocol RealtimeHub.
Import Realtime Hub.

Module Tasks.

(** Calls of the collaborators that matter to what is proved. *)
Inductive call :=
| CRecord (app channel message : string) (encrypted : bool)
| CAppend (app channel : string) (frame : ServerFrame)
| CPublish (app : string) (frame : ServerFrame)
| CEmit (app event key : string)
| CClaim (id invocation : string)
| CAcknowledge (id invocation : string)
| CRelease (id invocation : string)
| CEnqueue (id invocation : string)
| CComplete (id invocation : string).

(** Where the result of a prepared publication goes: an error frame, or the outcomes
    of a batch with the items that follow. *)
Inductive reply :=
| RSingle
| RBatch (item : string) (rest : list PublishItem) (outcomes : list PublishOutcome).

#[warnings="-register-all"]
Inductive task :=
| TRegister (id app protocol client : string) (capabilities : gmap string (list string))
| TPut (id : string)
| TRefresh (id : string)
| TFrame (id : string) (frame : ClientFrame)
| TSend (id : string) (frame : ServerFrame)
| TClose (id : string)
| TCloseLocked (id : string)
| TLeave (frame : ServerFrame)
| TPersist (id : string) (granted : list task)
| TRewind (id : string) (channels topics all : list string) (rewind : HistoryRequest) (pages : list ServerFrame)
| TRewindSend (id : string) (frames : list ServerFrame) (seen : list string)
| TFinishRewind (id : string) (seen : list string)
| TRate (id channel : string) (granted : list task)
| TPrepared (id : string) (request : ClientFrame) (to : reply)
| TPreflight (id : string) (items todo : list PublishItem) (codes : list string)
| TRates (id : string) (items todo : list PublishItem) (codes : list string)
| TFile (id : string) (request : ClientFrame)
| TUpsert (id channel data : string) (joined : bool) (occupancy : Z)
| TDispatch (app : string) (frame : ServerFrame) (failed done : list task)
| TDeliver (app : string) (frame : ServerFrame)
| TDeliverReply (id : string) (targeted : bool) (frame : ServerFrame) (to : reply)
| TEmit (app event key : string)
| TPublish (app topic : string) (frame : ServerFrame)
| TInvoke (frame : ServerFrame) (ids : list string)
| TClaimed (frame : ServerFrame) (id : string) (ids : list string)
| TAcknowledged (frame : ServerFrame) (id : string) (ids : list string)
| TRelease (id invocation : string)
| TReconcile
| THubClose.

(** What a step may read: the clock, fresh identifiers and the answers of the
    collaborators. [or_entries] is a page of history, each entry with its cursor and
    its payload decoded. *)
Record Oracle := mkOracle {
  or_now : Z;
  or_time : string;
  or_uuid : nat -> string;
  or_ok : bool;
  or_limited : bool;
  or_recorded : bool;
  or_appended : bool;
  or_present : option (bool * Z);
  or_occupancy : option Z;
  or_entries : option (list (string * option ServerFrame) * string) + unit;
  or_action : MessageAction + ProtocolError;
  or_actions : list MessageAction + ProtocolError;
  or_file : RealtimeFile + ProtocolError;
  or_expired : string -> string -> option (list string * Z);
  or_evict : string
}.

Definition send_error (id : string) (e : ProtocolError) : task := TSend id (ErrorFrame e).
Definition done_of (id : string) (h : Hub) : bool :=
  match hb_objects h !! id with Some s => ss_done s | None => true end.
Definition is_member (id : string) (h : Hub) : bool := isSome (member h id).
Definition may (id channel action : string) (h : Hub) : bool :=
  match hb_objects h !! id with Some s => allowed s channel action | None => false end.

(** ** Queues and closing *)

(** [Session.Send]: [None] when the frame was refused because the session is closed,
    [Some false] when its queue is full. *)
Definition send (id : string) (frame : ServerFrame) (h : Hub) : Hub * option bool :=
  match hb_objects h !! id with
  | None => (h, None)
  | Some s =>
      if ss_done s then (h, None)
      else if (length (ss_outbound s) <? OutboundQueueSize)%nat
      then (on_session (fun s => set_outbound (ss_outbound s ++ [frame])%list s) id h, Some true)
      else (h, Some false)
  end.

(** Members of the application that are present on the channel. *)
Definition occupancy_of (app channel : string) (h : Hub) : Z :=
  Z.of_nat (length (List.filter (fun m => let '(_, s, _) := m in
    bool_decide (ss_appID s = app) && isSome (ss_presence s !! channel)) (members h))).

(** The critical section of [Session.Close]. *)
Definition close_locked (o : Oracle) (id : string) (h : Hub) : Hub * list ServerFrame :=
  match member h id with
  | None => (h, [])
  | Some (s, topics) =>
      let h1 := with_sessions (delete id (hb_sessions h)) h in
      let leaves := imap (fun n channel => presence_frame "presence.leave" (ss_appID s) channel (ss_clientID s) id
                      ("msg_" ++ or_uuid o n) (or_time o) (occupancy_of (ss_appID s) channel h1) "")
                      (map_to_list (ss_presence s)).*1 in
      let h2 := match hb_routes h1 with
                | Some routes =>
                    if bool_decide ("functions" ∈ topics) && negb (other_handler (ss_appID s) id h1)
                    then with_routes (Some (routes ∖ {[ss_appID s]})) h1 else h1
                | None => h1
                end in
      (h2, leaves)
  end.

(** ** Rewinding *)

(** The entries that have not expired, then the messages of the pages, with an
    arbitrary entry evicted whenever the table is full. *)
Definition evict (pick : string) (seen : gmap string Z) : gmap string Z :=
  match seen !! pick, map_to_list seen with
  | Some _, _ => delete pick seen
  | None, (k, _) :: _ => delete k seen
  | None, [] => seen
  end.
Fixpoint evict_while (fuel : nat) (pick : string) (seen : gmap string Z) : gmap string Z :=
  match fuel with
  | O => seen
  | S f => if MaxRewindChannels * MaxHistoryItems <=? Z.of_nat (size seen)
           then evict_while f pick (evict pick seen) else seen
  end.
Definition remember (o : Oracle) (seen : list string) (s : Session) : Session :=
  let live := filter (fun me => or_now o < me.2) (ss_rewindSeen s) in
  let full := fold_left (fun m id => <[id := or_now o + Minute]> (evict_while (size m) (or_evict o) m)) seen live in
  set_rewind ∅ (ss_rewindBuffer s) full s.

Definition page_messages (pages : list ServerFrame) : list string :=
  remove_dups (List.filter (fun m => negb (bool_decide (m = "")))
    (pages ≫= fun page => sf_MessageID <$> sf_Items page)).

(** ** History *)

Definition history_unavailable : ProtocolError :=
  protocolError "history_unavailable" "Realtime history is temporarily unavailable.".
Definition history_item (app channel : string) (entry : string * option ServerFrame) : option ServerFrame :=
  match entry.2 with
  | Some f =>
      if bool_decide (sf_Type f = "channel.message") && bool_decide (sf_AppID f = app)
         && bool_decide (sf_Channel f = channel)
         && match sf_Audience f with Some a => bool_decide (au_Type a = "all") | None => false end
         && validV2Delivery app f
      then Some (mkServerFrame (sf_Type f) (sf_AppID f) (sf_Topics f) (sf_Channels f) (sf_Channel f)
             (sf_PublisherAppID f) (sf_PublisherClientID f) (sf_PublisherConnectionID f) (sf_MessageID f)
             (sf_PublishedAt f) (sf_Audience f) (sf_Occupancy f) (sf_Data f) (sf_Encryption f) entry.1
             (sf_NextCursor f) (sf_ContinuityCursor f) (sf_Items f) (sf_Outcomes f) (sf_Action f) (sf_Actions f)
             (sf_File f) (sf_Event f) (sf_Job f) (sf_Code f) (sf_Message f) (sf_InvocationID f))
      else None
  | None => None
  end.
Definition HistoryForApp (o : Oracle) (app channel cursor : string) (limit : Z)
    (h : Hub) : ServerFrame + ProtocolError :=
  if bool_decide (app = "") || negb (Channel.ValidRealtimeChannel channel)
     || isSome (validateHistoryRequest (mkHistoryRequest limit cursor)) then inr invalid_history_frame else
  if negb (dp_history (hb_deps h)) then inr history_unavailable else
  match or_entries o with
  | inl None => inr invalid_history_frame
  | inr _ => inr history_unavailable
  | inl (Some (entries, next)) =>
      match mapM (history_item app channel) entries with
      | None => inr history_unavailable
      | Some items => inl (history_frame channel items next (default "" (sf_Cursor <$> last items)))
      end
  end.
Definition HistoryV2 (o : Oracle) (id channel cursor : string) (limit : Z) (h : Hub) : ServerFrame + ProtocolError :=
  if negb (Channel.ValidRealtimeChannel channel) || isSome (validateHistoryRequest (mkHistoryRequest limit cursor))
  then inr invalid_history_frame else
  if negb (may id channel "history" h)
  then inr (protocolError "forbidden" "The token does not allow history for this channel.") else
  match member h id with
  | Some (s, _) => if is_v2 s then HistoryForApp o (ss_appID s) channel cursor limit h else inr connection_closed
  | None => inr connection_closed
  end.

(** ** Publishing *)

Definition validatePublishV2 (id channel : string) (h : Hub) : verdict :=
  if negb (may id channel "publish" h)
  then Some (protocolError "forbidden" "The token does not allow publishing to this channel.") else
  match member h id with
  | Some (s, _) => if is_v2 s then None else Some connection_closed
  | None => Some connection_closed
  end.
Definition ratePublishV2 (o : Oracle) (h : Hub) : verdict :=
  if negb (dp_limiter (hb_deps h)) then None
  else if negb (or_ok o) then Some (unavailable "Realtime rate limiting is temporarily unavailable.")
  else if or_limited o then Some (protocolError "rate_limited" "Realtime publish rate limit exceeded.")
  else None.

Definition item_request (item : PublishItem) : ClientFrame :=
  mkClientFrame "channel.publish" [] [] (pi_Channel item) (pi_Audience item) (pi_Data item) (pi_Encryption item)
    None 0 "" [] "" "" "" "" "" "" None "" "".
(** What follows a publication, given its message identifier or its error. *)
Definition answer (id : string) (to : reply) (result : string + ProtocolError) : list task :=
  match to with
  | RSingle => match result with inl _ => [] | inr e => [send_error id e] end
  | RBatch item rest outcomes =>
      let outcome := match result with
                     | inl message => mkOutcome item true message ""
                     | inr e => mkOutcome item false "" (pe_Code e)
                     end in
      let outcomes := (outcomes ++ [outcome])%list in
      match rest with
      | [] => [TSend id (batch_frame outcomes)]
      | next :: rest => [TPrepared id (item_request next) (RBatch (pi_ID next) rest outcomes)]
      end
  end.
Definition rejectedBatch (items : list PublishItem) (codes : list string) : ServerFrame :=
  batch_frame (zip_with (fun item code => mkOutcome (pi_ID item) false ""
    (if bool_decide (code = "") then "batch_rejected" else code)) items codes).
Definition rejects (codes : list string) : bool := existsb (fun c => negb (bool_decide (c = ""))) codes.

Definition audience_of (audience : option Audience) : Audience := default (mkAudience "all" "" "") audience.
Definition is_all (a : Audience) : bool := bool_decide (au_Type a = "all").

(** [publishPreparedV2] up to its delivery: the calls it makes, and the frame or the
    error. *)
Definition record_message (o : Oracle) (frame : ServerFrame) (h : Hub) : list call * verdict :=
  if dp_actions (hb_deps h)
  then ([CRecord (sf_AppID frame) (sf_Channel frame) (sf_MessageID frame) (isSome (sf_Encryption frame))],
        if or_recorded o then None else Some (unavailable "Realtime message state is temporarily unavailable."))
  else ([], None).
Definition append_history (o : Oracle) (id : string) (frame : ServerFrame) (h : Hub) : list call * verdict :=
  if is_all (audience_of (sf_Audience frame)) && dp_history (hb_deps h) && may id (sf_Channel frame) "history" h
  then ([CAppend (sf_AppID frame) (sf_Channel frame) frame],
        if or_appended o then None else Some history_unavailable)
  else ([], None).
Definition prepare (o : Oracle) (id : string) (frame : ServerFrame) (h : Hub) : list call * verdict :=
  let (calls, failed) := record_message o frame h in
  match failed with
  | Some e => (calls, Some e)
  | None => let (more, failed) := append_history o id frame h in ((calls ++ more)%list, failed)
  end.
Definition published_frame (o : Oracle) (id : string) (s : Session) (request : ClientFrame)
    (file : option RealtimeFile) : ServerFrame :=
  message_frame (ss_appID s) (cf_Channel request) (ss_clientID s) id ("msg_" ++ or_uuid o 0%nat) (or_time o)
    (audience_of (cf_Audience request)) (match file with None => cf_Data request | Some _ => "" end)
    (match file with None => cf_Encryption request | Some _ => None end) file.

Definition target_not_found : ProtocolError :=
  protocolError "target_not_found" "No subscribed target exists in this application.".
Definition routing_unavailable : ProtocolError := unavailable "Realtime routing is temporarily unavailable.".

(** ** Frames of a client ([readLoop]) *)

Definition invalid_action : ProtocolError := protocolError "invalid_action" "Message action is invalid.".
Definition invalid_reference : ProtocolError :=
  protocolError "invalid_action" "Message action reference is invalid.".
Definition actions_off : ProtocolError := unavailable "Realtime message actions are unavailable.".
Definition validateActionSource (id channel : string) (h : Hub) : verdict :=
  if negb (may id channel "annotate" h)
  then Some (protocolError "forbidden" "The token does not allow message actions on this channel.") else
  match member h id with
  | Some (s, _) => if is_v2 s then None else Some connection_closed
  | None => Some connection_closed
  end.

(** The checks before the limiter in [publishV2] and [PublishFileV2]. *)
Definition publishV2 (id : string) (request : ClientFrame) (h : Hub) : verdict :=
  if negb (bool_decide (cf_Type request = "channel.publish")) || negb (Channel.ValidRealtimeChannel (cf_Channel request))
  then Some (protocolError "invalid_publish" "Publish requires a valid channel and JSON object data.") else
  match validateMessagePayload (cf_Channel request) (cf_Data request) (cf_Encryption request) with
  | Some e => Some e
  | None =>
      match validateAudience (cf_Audience request) with
      | Some e => Some e
      | None => validatePublishV2 id (cf_Channel request) h
      end
  end.
Definition PublishFileV2 (id : string) (request : ClientFrame) (h : Hub) : verdict :=
  if negb (may id (cf_Channel request) "file.publish" h)
  then Some (protocolError "forbidden" "The token does not allow file publish on this channel.") else
  if negb (file_ok request)
  then Some (protocolError "invalid_file" "File publish requires a valid channel and ready file ID.") else
  match validateAudience (cf_Audience request) with
  | Some e => Some e
  | None =>
      match member h id with
      | Some (s, _) =>
          if negb (is_v2 s) then Some connection_closed
          else if negb (dp_files (hb_deps h))
          then Some (protocolError "file_messaging_disabled" "File messaging is not configured.")
          else None
      | None => Some connection_closed
      end
  end.

(** The critical section of [UpdatePresence]: whether the session had joined, and
    the occupancy. *)
Definition UpdatePresence (id : string) (request : ClientFrame) (h : Hub) : Hub * ((bool * Z) + ProtocolError) :=
  if negb (bool_decide (cf_Type request = "presence.update")) || negb (Channel.ValidRealtimeChannel (cf_Channel request))
     || negb (JSONObject (cf_Data request))
  then (h, inr (protocolError "invalid_presence" "Presence requires a valid channel and JSON object data.")) else
  if negb (may id (cf_Channel request) "presence" h)
  then (h, inr (protocolError "forbidden" "The token does not allow presence on this channel.")) else
  match member h id with
  | None => (h, inr connection_closed)
  | Some (s, topics) =>
      if negb (is_v2 s) then (h, inr connection_closed) else
      if negb (bool_decide (topic_of (cf_Channel request) ∈ topics))
      then (h, inr (protocolError "not_subscribed" "Subscribe to the channel before updating presence.")) else
      let h1 := on_session (fun s => set_presence (<[cf_Channel request := cf_Data request]> (ss_presence s)) s) id h in
      (h1, inl (isSome (ss_presence s !! cf_Channel request), occupancy_of (ss_appID s) (cf_Channel request) h1))
  end.

Definition app_of (id : string) (h : Hub) : string :=
  match hb_objects h !! id with Some s => ss_appID s | None => "" end.
Definition client_of (id : string) (h : Hub) : string :=
  match hb_objects h !! id with Some s => ss_clientID s | None => "" end.

(** A frame of a version 1 session. *)
Definition frame_v1 (o : Oracle) (id : string) (frame : ClientFrame) (h : Hub) : Hub * list task * list call :=
  let type_is t := bool_decide (cf_Type frame = t) in
  if type_is "subscribe" then
    let (h1, v) := Subscribe id (cf_Topics frame) (or_ok o) h in
    (h1, [match v with
          | Some e => send_error id e
          | None =>
              match cf_Rewind frame with
              | Some rewind => TRewind id (cf_Channels frame) (cf_Topics frame) (cf_Channels frame) rewind []
              | None => TSend id (subscription_frame "subscribed" (cf_Topics frame) (cf_Channels frame))
              end
          end], [])
  else if type_is "ping" then (h, [TSend id (typed "pong")], [])
  else if type_is "rpc.result" then
    if negb (dp_functions (hb_deps h))
    then (h, [send_error id (protocolError "rpc_unavailable" "Function result handling is not configured.")], []) else
    if negb (is_member id h) || isNone (cf_OK frame)
    then (h, [send_error id (protocolError "invalid_rpc_result" "Invocation result was not accepted.")], []) else
    (h, if or_ok o then []
        else [send_error id (protocolError "invalid_rpc_result" "Invocation result was not accepted.")],
     [CComplete id (cf_InvocationID frame)])
  else (h, [], []).

(** A frame of a version 2 session. *)
Definition frame_v2 (o : Oracle) (id : string) (frame : ClientFrame) (h : Hub) : Hub * list task * list call :=
  let type_is t := bool_decide (cf_Type frame = t) in
  let refused e := (h, [send_error id e], []) in
  let channel := cf_Channel frame in
  if type_is "subscribe" then
    let (h1, v) := subscribeV2 id (cf_Channels frame) (isSome (cf_Rewind frame)) h in
    match v with
    | Some e => (h1, [send_error id e], [])
    | None => (h1, [TPersist id match cf_Rewind frame with
        | Some rewind => [TRewind id (cf_Channels frame) (cf_Topics frame) (cf_Channels frame) rewind []]
        | None => [TSend id (subscription_frame "subscribed" (cf_Topics frame) (cf_Channels frame))]
        end], [])
    end
  else if type_is "unsubscribe" then
    let (h1, v) := unsubscribeV2 id (cf_Channels frame) h in
    match v with
    | Some e => (h1, [send_error id e], [])
    | None => (h1, [TPersist id [TSend id (subscription_frame "unsubscribed" [] (cf_Channels frame))]], [])
    end
  else if type_is "channel.publish" then
    match publishV2 id frame h with
    | Some e => refused e
    | None => (h, [TRate id channel [TPrepared id frame RSingle]], [])
    end
  else if type_is "channel.publish.batch" then
    match validatePublishItems (cf_Items frame) with
    | Some e =>
        let codes := (fun _ => pe_Code e) <$> cf_Items frame in
        if rejects codes then (h, [TSend id (rejectedBatch (cf_Items frame) codes)], [])
        else (h, [TRates id (cf_Items frame) (cf_Items frame) []], [])
    | None => (h, [TPreflight id (cf_Items frame) (cf_Items frame) []], [])
    end
  else if type_is "history.get" then
    match HistoryV2 o id channel (cf_Cursor frame) (cf_Limit frame) h with
    | inl history => (h, [TSend id history], [])
    | inr e => refused e
    end
  else if type_is "presence.update" then
    let (h1, r) := UpdatePresence id frame h in
    match r with
    | inl (joined, occupancy) => (h1, [TUpsert id channel (cf_Data frame) joined occupancy], [])
    | inr e => (h1, [send_error id e], [])
    end
  else if type_is "message.action.put" then
    match validateActionSource id channel h with
    | Some e => refused e
    | None =>
        if isSome (validateActionReference channel (cf_MessageID frame))
           || negb (bool_decide (cf_ActionType frame = "reaction") || bool_decide (cf_ActionType frame = "annotation"))
           || negb (realtimeClientIDPattern (cf_IdempotencyKey frame)) || negb (JSONObject (cf_Data frame))
           || (4096 <? len (cf_Data frame)) then refused invalid_action else
        if negb (dp_actions (hb_deps h)) then refused actions_off else
        match or_action o with
        | inr e => refused e
        | inl stored =>
            (h, [TDispatch (app_of id h) (action_frame "message.action.updated" (app_of id h) channel (cf_MessageID frame)
                   stored) [send_error id routing_unavailable] []], [])
        end
    end
  else if type_is "message.actions.get" then
    match validateActionSource id channel h with
    | Some e => refused e
    | None =>
        if isSome (validateActionReference channel (cf_MessageID frame)) then refused invalid_reference else
        if negb (dp_actions (hb_deps h)) then refused actions_off else
        match or_actions o with
        | inr e => refused e
        | inl actions => (h, [TSend id (actions_frame (app_of id h) channel (cf_MessageID frame) actions)], [])
        end
    end
  else if type_is "message.action.remove" then
    match validateActionSource id channel h with
    | Some e => refused e
    | None =>
        if isSome (validateActionReference channel (cf_MessageID frame)) || negb (realtimeClientIDPattern (cf_ActionID frame))
        then refused invalid_reference else
        if negb (dp_actions (hb_deps h)) then refused actions_off else
        match or_action o with
        | inr e => refused e
        | inl removed =>
            (h, [TDispatch (app_of id h) (action_frame "message.action.removed" (app_of id h) channel (cf_MessageID frame)
                   removed) [send_error id routing_unavailable] []], [])
        end
    end
  else if type_is "file.publish" then
    match PublishFileV2 id frame h with
    | Some e => refused e
    | None => (h, [TRate id channel [TFile id frame]], [])
    end
  else if type_is "ping" then (h, [TSend id (typed "pong")], [])
  else (h, [], []).

(** ** One step *)

Definition deliver (o : Oracle) (app : string) (frame : ServerFrame) (h : Hub) : Hub * list task * Z :=
  let '(h1, overflow, targets, count) := deliver_locked app frame (or_now o) h in
  (h1, (map TClose overflow ++ map (fun id => TSend id frame) targets)%list, count).

(** What is left to do, and what was called. *)
Abbreviation result := (Hub * list task * list call)%type.

(** [Hub.register] *)
Definition register_step (id app protocol client : string) (capabilities : gmap string (list string))
    (h : Hub) : result :=
  let (h1, registered) := register id app protocol client capabilities h in
  (h1, if registered && bool_decide (protocol = ProtocolV2) && dp_registry (hb_deps h) then [TPut id] else [], []).
(** The new session in the connection registry. *)
Definition put_step (o : Oracle) (id : string) (h : Hub) : result :=
  (h, if or_ok o then [] else [TClose id], []).
(** One turn of [refreshRegistry]. *)
Definition refresh_step (o : Oracle) (id : string) (h : Hub) : result :=
  if negb (is_member id h) then (h, [], []) else (h, if or_ok o then [] else [TClose id], []).
(** [readLoop] with a decoded frame. *)
Definition read_frame (o : Oracle) (id : string) (frame : ClientFrame) (h : Hub) : result :=
  match hb_objects h !! id with
  | None => (h, [], [])
  | Some s => if is_v2 s then frame_v2 o id frame h else frame_v1 o id frame h
  end.
(** [Session.Send] *)
Definition send_step (id : string) (frame : ServerFrame) (h : Hub) : result :=
  let (h1, sent) := send id frame h in
  (h1, match sent with Some false => [TClose id] | _ => [] end, []).
(** [Session.Close]: only the first call goes on. *)
Definition close_step (id : string) (h : Hub) : result :=
  if done_of id h then (h, [], []) else (on_session set_done id h, [TCloseLocked id], []).
(** [Session.Close] under the lock of the hub. *)
Definition leave_hub (o : Oracle) (id : string) (h : Hub) : result :=
  let (h1, leaves) := close_locked o id h in (h1, TLeave <$> leaves, []).
(** What [Session.Close] announces for a channel. *)
Definition leave_step (o : Oracle) (frame : ServerFrame) (h : Hub) : result :=
  let occupancy := match dp_presence (hb_deps h), or_occupancy o with true, Some n => n | _, _ => sf_Occupancy frame end in
  let frame := presence_frame (sf_Type frame) (sf_AppID frame) (sf_Channel frame) (sf_PublisherClientID frame)
                 (sf_PublisherConnectionID frame) (sf_MessageID frame) (sf_PublishedAt frame) occupancy "" in
  let emit := TEmit (sf_AppID frame) "presence.leave" (sf_MessageID frame) in
  (h, [TDispatch (sf_AppID frame) frame [emit] [emit]], []).
(** [persistChannels], and what follows it. *)
Definition persistChannels (o : Oracle) (id : string) (granted : list task) (h : Hub) : result :=
  let lost := send_error id (unavailable "Connection registry is temporarily unavailable.") in
  match member h id with
  | None => (h, [lost], [])
  | Some (s, _) =>
      if negb (dp_registry (hb_deps h)) || negb (is_v2 s) || or_ok o then (h, granted, [])
      else (h, [TClose id; lost], [])
  end.
(** The history of one more channel, or the end of the rewind, in [readLoop]. *)
Definition rewind_step (o : Oracle) (id : string) (channels topics all : list string) (rewind : HistoryRequest) (pages : list ServerFrame)
    (h : Hub) : result :=
  let finish := [TSend id (subscription_frame "subscribed" topics all); TFinishRewind id (page_messages pages)] in
  match channels with
  | [] => (h, finish, [])
  | channel :: rest =>
      match HistoryV2 o id channel (hr_Cursor rewind) (hr_Limit rewind) h with
      | inr e => (h, send_error id e :: finish, [])
      | inl page => (h, [TSend id page; TRewind id rest topics all rewind (pages ++ [page])%list], [])
      end
  end.
(** A turn of the loop of [FinishRewindV2]. *)
Definition FinishRewindV2 (o : Oracle) (id : string) (seen : list string) (h : Hub) : result :=
  match member h id with
  | None => (h, [], [])
  | Some (s, _) =>
      match ss_rewindBuffer s with
      | [] => (on_session (remember o seen) id h, [], [])
      | buffered => (on_session (fun s => set_rewind (ss_rewinding s) [] (ss_rewindSeen s) s) id h,
                     [TRewindSend id buffered seen], [])
      end
  end.
(** Its inner loop. *)
Definition rewind_send (id : string) (frames : list ServerFrame) (seen : list string) (h : Hub) : result :=
  match frames with
  | [] => (h, [TFinishRewind id seen], [])
  | frame :: rest =>
      if negb (bool_decide (sf_MessageID frame = "")) && bool_decide (sf_MessageID frame ∈ seen)
      then (h, [TRewindSend id rest seen], [])
      else let (h1, sent) := send id frame h in
           (h1, match sent with
                | Some true => [TRewindSend id rest seen]
                | Some false => [TClose id]
                | None => []
                end, [])
  end.
(** The limiter before a publication. *)
Definition rate_step (o : Oracle) (id channel : string) (granted : list task) (h : Hub) : result :=
  (h, match ratePublishV2 o h with None => granted | Some e => [send_error id e] end, []).
(** [publishPreparedV2] *)
Definition publishPreparedV2 (o : Oracle) (id : string) (request : ClientFrame) (to : reply) (h : Hub) : result :=
  match hb_objects h !! id with
  | None => (h, [], [])
  | Some s =>
      let frame := published_frame o id s request None in
      let (calls, failed) := prepare o id frame h in
      match failed with
      | Some e => (h, answer id to (inr e), calls)
      | None =>
          if dp_publisher (hb_deps h) then
            let publish := CPublish (ss_appID s) frame in
            if or_ok o
            then (h, answer id to (inl (sf_MessageID frame)),
                  (calls ++ [publish; CEmit (ss_appID s) "client.publish" (sf_MessageID frame)])%list)
            else (h, answer id to (inr routing_unavailable),
                  (calls ++ [publish; CEmit (ss_appID s) "delivery.failure" (sf_MessageID frame)])%list)
          else
            let targeted := bool_decide (au_Type (audience_of (cf_Audience request)) = "connection")
                            || bool_decide (au_Type (audience_of (cf_Audience request)) = "client") in
            (h, [TDeliverReply id targeted frame to], calls)
      end
  end.
(** Its local delivery. *)
Definition deliver_reply (o : Oracle) (id : string) (targeted : bool) (frame : ServerFrame) (to : reply)
    (h : Hub) : result :=
  let '(h1, sends, count) := deliver o (sf_AppID frame) frame h in
  let failed := targeted && (count =? 0) in
  (h1, (sends ++ TEmit (sf_AppID frame) (if failed then "delivery.failure" else "client.publish") (sf_MessageID frame)
              :: answer id to (if failed then inr target_not_found else inl (sf_MessageID frame)))%list, []).
(** The first loop of [PublishBatchV2]. *)
Definition batch_preflight (id : string) (items todo : list PublishItem) (codes : list string) (h : Hub) : result :=
  match todo with
  | [] => if rejects codes then (h, [TSend id (rejectedBatch items codes)], []) else (h, [TRates id items items []], [])
  | item :: rest =>
      let code := default "" (pe_Code <$> validatePublishV2 id (pi_Channel item) h) in
      (h, [TPreflight id items rest (codes ++ [code])%list], [])
  end.
(** Its second loop. *)
Definition batch_rates (o : Oracle) (id : string) (items todo : list PublishItem) (codes : list string)
    (h : Hub) : result :=
  match todo with
  | [] =>
      if rejects codes then (h, [TSend id (rejectedBatch items codes)], []) else
      match items with
      | [] => (h, [TSend id (batch_frame [])], [])
      | item :: rest => (h, [TPrepared id (item_request item) (RBatch (pi_ID item) rest [])], [])
      end
  | _ :: rest =>
      let code := default "" (pe_Code <$> ratePublishV2 o h) in
      (h, [TRates id items rest (codes ++ [code])%list], [])
  end.
(** [PublishFileV2] after the limiter. *)
Definition publish_file (o : Oracle) (id : string) (request : ClientFrame) (h : Hub) : result :=
  match hb_objects h !! id, or_file o with
  | Some s, inl file =>
      let frame := published_frame o id s request (Some file) in
      let (calls, failed) := prepare o id frame h in
      match failed with
      | Some e => (h, [send_error id e], calls)
      | None => (h, [TDispatch (ss_appID s) frame
                       [TEmit (ss_appID s) "delivery.failure" (sf_MessageID frame); send_error id routing_unavailable]
                       [TEmit (ss_appID s) "client.publish" (sf_MessageID frame)]], calls)
      end
  | _, inr e => (h, [send_error id e], [])
  | None, _ => (h, [], [])
  end.
(** [UpdatePresence] after its critical section. *)
Definition upsert_step (o : Oracle) (id channel data : string) (joined : bool) (occupancy : Z) (h : Hub) : result :=
  match dp_presence (hb_deps h), or_present o with
  | true, None => (h, [TClose id; send_error id (unavailable "Presence state is temporarily unavailable.")], [])
  | stored, present =>
      let (joined, occupancy) := match stored, present with
                                 | true, Some (j, n) => (negb j, n)
                                 | _, _ => (joined, occupancy)
                                 end in
      let type := if joined then "presence.update" else "presence.join" in
      let frame := presence_frame type (app_of id h) channel (client_of id h) id ("msg_" ++ or_uuid o 0%nat)
                     (or_time o) occupancy data in
      (h, [TDispatch (app_of id h) frame
             [TEmit (app_of id h) "delivery.failure" (sf_MessageID frame); send_error id routing_unavailable]
             [TEmit (app_of id h) type (sf_MessageID frame)]], [])
  end.
(** [dispatchV2], and what follows a failure or a success. *)
Definition dispatchV2 (o : Oracle) (app : string) (frame : ServerFrame) (failed done : list task)
    (h : Hub) : result :=
  if dp_publisher (hb_deps h) then (h, if or_ok o then done else failed, [CPublish app frame])
  else let '(h1, sends, _) := deliver o app frame h in (h1, (sends ++ done)%list, []).
(** [InvokeFunction]: a claim for the next session. *)
Definition invoke_step (o : Oracle) (frame : ServerFrame) (ids : list string) (h : Hub) : result :=
  match ids with
  | [] => (h, [], [])
  | id :: rest =>
      if done_of id h || negb (or_ok o) then (h, [TInvoke frame rest], [])
      else (h, [TClaimed frame id rest], [CClaim id (sf_InvocationID frame)])
  end.
(** The acknowledgement of a claim. *)
Definition claimed_step (o : Oracle) (frame : ServerFrame) (id : string) (rest : list string) (h : Hub) : result :=
  if done_of id h then (h, [TRelease id (sf_InvocationID frame); TInvoke frame rest], [])
  else if or_ok o then (h, [TAcknowledged frame id rest], [CAcknowledge id (sf_InvocationID frame)])
  else (h, [TRelease id (sf_InvocationID frame); TInvoke frame rest], []).
(** Handing the invocation over. *)
Definition acknowledged_step (frame : ServerFrame) (id : string) (rest : list string) (h : Hub) : result :=
  let (h1, sent) := send id frame h in
  match sent with
  | Some true => (h1, [], [CEnqueue id (sf_InvocationID frame)])
  | Some false => (h1, [TClose id; TRelease id (sf_InvocationID frame); TInvoke frame rest], [])
  | None => (h1, [TRelease id (sf_InvocationID frame); TInvoke frame rest], [])
  end.
(** [ReconcilePresence]; the answers of the store are read in one step. *)
Definition ReconcilePresence (o : Oracle) (h : Hub) : result :=
  if negb (dp_presence (hb_deps h)) then (h, [], []) else
  let watched := remove_dups (members h ≫= fun m => let '(_, s, topics) := m in
    if is_v2 s then (fun channel => (ss_appID s, channel)) <$>
      omap (fun topic => CutPrefix topic "channel:") (elements topics) else []) in
  (h, concat (imap (fun n ac => match or_expired o ac.1 ac.2 with
        | None => []
        | Some (expired, occupancy) => concat (imap (fun m connection =>
            let frame := presence_frame "presence.timeout" ac.1 ac.2 "" connection
              ("msg_" ++ or_uuid o (n * 100 + m)%nat) (or_time o) occupancy "" in
            let emit := TEmit ac.1 "presence.timeout" (sf_MessageID frame) in
            [TDispatch ac.1 frame [emit] [emit]]) expired)
        end) watched), []).
(** [Hub.Close] *)
Definition hub_close (h : Hub) : result :=
  if hb_closed h then (h, [], []) else (set_closed h, TClose <$> (map_to_list (hb_sessions h)).*1, []).

(** The first task of a goroutine. *)
Definition step (o : Oracle) (t : task) (h : Hub) : result :=
  match t with
  | TRegister id app protocol client capabilities => register_step id app protocol client capabilities h
  | TPut id => put_step o id h
  | TRefresh id => refresh_step o id h
  | TFrame id frame => read_frame o id frame h
  | TSend id frame => send_step id frame h
  | TClose id => close_step id h
  | TCloseLocked id => leave_hub o id h
  | TLeave frame => leave_step o frame h
  | TPersist id granted => persistChannels o id granted h
  | TRewind id channels topics all rewind pages => rewind_step o id channels topics all rewind pages h
  | TFinishRewind id seen => FinishRewindV2 o id seen h
  | TRewindSend id frames seen => rewind_send id frames seen h
  | TRate id channel granted => rate_step o id channel granted h
  | TPrepared id request to => publishPreparedV2 o id request to h
  | TDeliverReply id targeted frame to => deliver_reply o id targeted frame to h
  | TPreflight id items todo codes => batch_preflight id items todo codes h
  | TRates id items todo codes => batch_rates o id items todo codes h
  | TFile id request => publish_file o id request h
  | TUpsert id channel data joined occupancy => upsert_step o id channel data joined occupancy h
  | TDispatch app frame failed done => dispatchV2 o app frame failed done h
  | TDeliver app frame => let '(h1, sends, _) := deliver o app frame h in (h1, sends, [])
  | TEmit app event key => (h, [], [CEmit app event key])
  | TPublish app topic frame => (h, (fun id => TSend id frame) <$> publish_targets app topic h, [])
  | TInvoke frame ids => invoke_step o frame ids h
  | TClaimed frame id rest => claimed_step o frame id rest h
  | TAcknowledged frame id rest => acknowledged_step frame id rest h
  | TRelease id invocation => (h, [], [CRelease id invocation])
  | TReconcile => ReconcilePresence o h
  | THubClose => hub_close h
  end.

Ltac run_step := cbv beta iota zeta delta [step register_step put_step refresh_step read_frame send_step close_step leave_hub
  leave_step persistChannels rewind_step FinishRewindV2 rewind_send rate_step publishPreparedV2 deliver_reply
  batch_preflight batch_rates publish_file upsert_step dispatchV2 invoke_step claimed_step acknowledged_step
  ReconcilePresence hub_close].
Ltac run_step_in H := cbv beta iota zeta delta [step register_step put_step refresh_step read_frame send_step close_step leave_hub
  leave_step persistChannels rewind_step FinishRewindV2 rewind_send rate_step publishPreparedV2 deliver_reply
  batch_preflight batch_rates publish_file upsert_step dispatchV2 invoke_step claimed_step acknowledged_step
  ReconcilePresence hub_close] in H.

(** [Hub.InvokeFunction] and [FunctionSessions]. *)
Definition FunctionSessions (app : string) (h : Hub) : list string :=
  sort_strings ((fun m => m.1.1) <$> List.filter (fun m => let '(_, s, topics) := m in
    bool_decide (ss_appID s = app) && bool_decide ("functions" ∈ topics)) (members h)).
Definition InvokeFunction (app : string) (frame : ServerFrame) (h : Hub) : list task :=
  if dp_functions (hb_deps h) then [TInvoke frame (FunctionSessions app h)] else [].
(** [Hub.PublishEvent], [PublishJob], [PublishChannel] and [Deliver]. *)
Definition event_frame (e : Event) : ServerFrame :=
  mkServerFrame "event" "" [] [] "" "" "" "" "" "" None 0 "" None "" "" "" [] [] None [] None (Some e) None "" "" "".
Definition job_frame (target : string) (status : JobStatus) : ServerFrame :=
  mkServerFrame "job.updated" "" [] [] "" "" "" "" "" "" None 0 "" None "" "" "" [] [] None [] None None
    (Some (target, status)) "" "" "".
Definition channel_frame (m : ChannelMessage) : ServerFrame :=
  mkServerFrame "channel.message" "" [] [] (msg_Channel m) (msg_PublisherAppID m) "" "" "" "" None 0 (msg_Data m) None
    "" "" "" [] [] None [] None None None "" "" "".
Definition PublishEvent (e : Event) : list task := (fun target => TPublish target "events" (event_frame e)) <$> ev_TargetAppIDs e
   .
Definition PublishJob (target : string) (status : JobStatus) : list task := [TPublish target "jobs" (job_frame target status)]
   .
Definition PublishChannel (m : ChannelMessage) : list task :=
  if Channel.ValidRealtimeChannel (msg_Channel m) then [TPublish "" (topic_of (msg_Channel m)) (channel_frame m)] else [].
Definition Deliver (app : string) (frame : ServerFrame) : list task :=
  if bool_decide (sf_Type frame = "event") then
    match sf_Event frame with
    | Some e => if bool_decide (app ∈ ev_TargetAppIDs e) then [TPublish app "events" frame] else []
    | None => []
    end
  else if bool_decide (sf_Type frame = "job.updated") then
    match sf_Job frame with
    | Some (target, _) => if bool_decide (target = app) then [TPublish app "jobs" frame] else []
    | None => []
    end
  else [].
(** [Hub.DisconnectConnection] *)
Definition DisconnectConnection (app connection : string) (h : Hub) : list task :=
  match member h connection with
  | Some (s, _) => if bool_decide (ss_appID s = app) then [TClose connection] else []
  | None => []
  end.

End Tasks.
