(* ===== verification/RealtimeSystem.v ===== *)
(** * The realtime hub under any interleaving

    Goroutines run their tasks in any order, new ones start with the operations the
    gateway offers, and the writers of the sessions take frames from their queues.
    [sys_ok] is the invariant: who may receive what, and the bounds of the queues. *)

From Stdlib Require Import Ascii String.
From S2P Require Import Prelude GoLib Crypto Json Domain QueueSchema RealtimeProtocol RealtimeHub RealtimeTasks.
Import Realtime Hub Tasks.

Record System := mkSystem {
  sy_hub : Hub;
  sy_threads : gmap nat (list task);
  sy_calls : list call
}.

(** What a new goroutine may begin with. *)
Inductive entry (h : Hub) : list task -> Prop :=
| enter_register id app protocol client capabilities :
    entry h [TRegister id app protocol client capabilities]
| enter_frame id s frame :
    hb_objects h !! id = Some s -> (is_v2 s = true -> checkFrameV2 frame = None) -> entry h [TFrame id frame]
| enter_deliver_v2 app frame : entry h [TDeliver app frame]
| enter_event e : entry h (PublishEvent e)
| enter_job target status : entry h (PublishJob target status)
| enter_channel m : entry h (PublishChannel m)
| enter_deliver app frame : entry h (Deliver app frame)
| enter_invoke app frame : entry h (InvokeFunction app frame h)
| enter_disconnect app connection : entry h (DisconnectConnection app connection h)
| enter_close id : entry h [TClose id]
| enter_refresh id : entry h [TRefresh id]
| enter_reconcile : entry h [TReconcile]
| enter_hub_close : entry h [THubClose].

(** [writeLoop] takes the next frame. *)
Definition written (id : string) (h : Hub) : Hub := on_session (fun s => set_outbound (tail (ss_outbound s)) s) id h.

Inductive sys_step : System -> System -> Prop :=
| sys_run s i t rest o :
    sy_threads s !! i = Some (t :: rest) ->
    sys_step s (mkSystem (step o t (sy_hub s)).1.1
                  (<[i := ((step o t (sy_hub s)).1.2 ++ rest)%list]> (sy_threads s))
                  (sy_calls s ++ (step o t (sy_hub s)).2)%list)
| sys_start s i ts :
    sy_threads s !! i = None -> entry (sy_hub s) ts ->
    sys_step s (mkSystem (sy_hub s) (<[i := ts]> (sy_threads s)) (sy_calls s))
| sys_write s id :
    sys_step s (mkSystem (written id (sy_hub s)) (sy_threads s) (sy_calls s)).

Definition initial (deps : Deps) (routes : bool) : System := mkSystem (NewHub deps routes) ∅ [].
Definition reachable (deps : Deps) (routes : bool) (s : System) : Prop := rtc sys_step (initial deps routes) s.

(** ** Who may receive what *)

(** A frame the hub delivers: it belongs to the application of the session, is on a
    channel the token allows to subscribe to, and is addressed to the session. *)
Definition delivered_to (id : string) (s : Session) (f : ServerFrame) : Prop :=
  is_v2 s = true /\ sf_AppID f = ss_appID s /\ validV2Delivery (ss_appID s) f = true
  /\ allowed s (sf_Channel f) "subscribe" = true /\ in_audience f id s = true.

(** What an answer may show: history and message actions only of channels the token
    allows, within the application; the others carry no messages. Whose request it
    answers is a property of the run ([runs_owed] of [RealtimeSteps]). *)
Definition answer_to (s : Session) (f : ServerFrame) : Prop :=
  sf_Type f ∈ ["error"; "subscribed"; "unsubscribed"; "pong"; "channel.publish.batch.result"]
  \/ sf_Type f = "history.result" /\ allowed s (sf_Channel f) "history" = true
     /\ (forall item, item ∈ sf_Items f -> sf_AppID item = ss_appID s /\ sf_Channel item = sf_Channel f)
  \/ sf_Type f = "message.actions.result" /\ allowed s (sf_Channel f) "annotate" = true /\ sf_AppID f = ss_appID s.

(** A message of the version 1 interface, which names no application. *)
Definition legacy_message (s : Session) (f : ServerFrame) : Prop :=
  sf_Type f = "channel.message" /\ sf_AppID f = "" /\ allowed s (sf_Channel f) "subscribe" = true.

Definition permitted (id : string) (s : Session) (f : ServerFrame) : Prop :=
  is_v2 s = true -> delivered_to id s f \/ answer_to s f \/ legacy_message s f.

(** ** The invariant *)

(** What of a session never changes. *)
Definition same_identity (s s' : Session) : Prop :=
  ss_appID s' = ss_appID s /\ ss_clientID s' = ss_clientID s /\ ss_protocol s' = ss_protocol s
  /\ ss_capabilities s' = ss_capabilities s.

Record session_ok (id : string) (s : Session) : Prop := mkSessionOk {
  so_outbound : (length (ss_outbound s) <= OutboundQueueSize)%nat;
  so_buffer : (length (ss_rewindBuffer s) <= OutboundQueueSize)%nat;
  so_seen : Z.of_nat (size (ss_rewindSeen s)) <= MaxRewindChannels * MaxHistoryItems;
  so_frames : forall f, f ∈ ss_outbound s -> permitted id s f;
  so_buffered : forall f, f ∈ ss_rewindBuffer s -> delivered_to id s f;
  so_presence : forall c, is_Some (ss_presence s !! c) -> allowed s c "presence" = true
}.
Definition topics_ok (s : Session) (topics : gset string) : Prop :=
  is_v2 s = true -> forall t, t ∈ topics -> exists c, t = topic_of c /\ allowed s c "subscribe" = true.
Record hub_ok (h : Hub) : Prop := mkHubOk {
  ho_member : forall id topics, hb_sessions h !! id = Some topics ->
    exists s, hb_objects h !! id = Some s /\ topics_ok s topics;
  ho_session : forall id s, hb_objects h !! id = Some s -> session_ok id s
}.

(** The session exists and may be sent the frame. *)
Definition sendable (h : Hub) (id : string) (f : ServerFrame) : Prop :=
  exists s, hb_objects h !! id = Some s /\ permitted id s f.
Definition known (h : Hub) (id : string) : Prop := is_Some (hb_objects h !! id).
Definition handlers (h : Hub) (ids : list string) : Prop :=
  forall id, id ∈ ids -> exists s, hb_objects h !! id = Some s /\ is_v2 s = false.

Fixpoint task_ok (h : Hub) (t : task) : Prop :=
  match t with
  | TSend id f => sendable h id f
  | TRewindSend id fs _ => exists s, hb_objects h !! id = Some s /\ forall f, f ∈ fs -> delivered_to id s f
  | TFrame id _ | TRewind id _ _ _ _ _ | TPrepared id _ _ | TPreflight id _ _ _ | TRates id _ _ _
  | TFile id _ | TUpsert id _ _ _ _ | TDeliverReply id _ _ _ => known h id
  | TPersist id granted | TRate id _ granted => known h id /\ foldr and True (map (task_ok h) granted)
  | TDispatch _ _ failed done => foldr and True (map (task_ok h) failed) /\ foldr and True (map (task_ok h) done)
  | TPublish _ topic f =>
      topic = topic_of (sf_Channel f) /\ sf_Type f = "channel.message" /\ sf_AppID f = ""
      \/ forall c, topic <> topic_of c
  | TInvoke _ ids => handlers h ids
  | TClaimed _ id ids | TAcknowledged _ id ids => handlers h (id :: ids)
  | _ => True
  end.
Definition tasks_ok (h : Hub) (ts : list task) : Prop := Forall (task_ok h) ts.

Record sys_ok (s : System) : Prop := mkSysOk {
  sk_hub : hub_ok (sy_hub s);
  sk_tasks : forall i ts, sy_threads s !! i = Some ts -> tasks_ok (sy_hub s) ts
}.

(** ** How the hub may change *)

(** Sessions stay, with their identity. *)
Definition hub_le (h h' : Hub) : Prop :=
  forall id s, hb_objects h !! id = Some s -> exists s', hb_objects h' !! id = Some s' /\ same_identity s s'.
#[export] Instance hub_le_preorder : PreOrder hub_le.
Proof.
  split.
  - intros h id s Hs. exists s. by repeat split.
  - intros h1 h2 h3 H12 H23 id s Hs. destruct (H12 id s Hs) as (s2 & Hs2 & I1 & I2 & I3 & I4).
    destruct (H23 id s2 Hs2) as (s3 & Hs3 & J1 & J2 & J3 & J4). exists s3. split; [done|].
    repeat split; congruence.
Qed.

Section identity.
Context (s s' : Session) (same : same_identity s s').

Lemma is_v2_same : is_v2 s' = is_v2 s.
Proof using same. destruct same as (_ & _ & Hp & _). unfold is_v2. by rewrite Hp. Qed.
Lemma allowed_same c a : allowed s' c a = allowed s c a.
Proof using same. destruct same as (_ & _ & _ & Hc). unfold allowed. by rewrite Hc. Qed.
Lemma in_audience_same f id : in_audience f id s' = in_audience f id s.
Proof using same. destruct same as (_ & Hc & _). unfold in_audience. by rewrite Hc. Qed.
Lemma delivered_same id f : delivered_to id s f -> delivered_to id s' f.
Proof using same.
  unfold delivered_to. rewrite is_v2_same, allowed_same, in_audience_same. destruct same as (-> & _). done.
Qed.
Lemma permitted_same id f : permitted id s f -> permitted id s' f.
Proof using same.
  unfold permitted. rewrite is_v2_same. intros Hp Hv. destruct (Hp Hv) as [Hd|[Ha|Hl]].
  - left. by apply delivered_same.
  - right. left. unfold answer_to in *. rewrite !allowed_same. destruct same as (-> & _). done.
  - right. right. unfold legacy_message in *. by rewrite allowed_same.
Qed.
Lemma topics_same topics : topics_ok s topics -> topics_ok s' topics.
Proof using same.
  unfold topics_ok. rewrite is_v2_same. intros Ht Hv t Hin. destruct (Ht Hv t Hin) as (c & -> & Hc).
  exists c. by rewrite allowed_same.
Qed.
End identity.

Lemma sendable_le h h' id f : hub_le h h' -> sendable h id f -> sendable h' id f.
Proof.
  intros Hle (s & Hs & Hp). destruct (Hle id s Hs) as (s' & Hs' & Hi). exists s'. split; [done|].
  by apply (permitted_same s).
Qed.
Lemma known_le h h' id : hub_le h h' -> known h id -> known h' id.
Proof. intros Hle [s Hs]. destruct (Hle id s Hs) as (s' & Hs' & _). by exists s'. Qed.
Lemma handlers_le h h' ids : hub_le h h' -> handlers h ids -> handlers h' ids.
Proof.
  intros Hle Hh id Hid. destruct (Hh id Hid) as (s & Hs & Hv). destruct (Hle id s Hs) as (s' & Hs' & Hi).
  exists s'. split; [done|]. by rewrite (is_v2_same s s' Hi).
Qed.

(** Tasks with tasks inside. *)
Section task_nested.
Context (P : task -> Prop) (Hpersist : forall id l, Forall P l -> P (TPersist id l))
  (Hrate : forall id c l, Forall P l -> P (TRate id c l))
  (Hdispatch : forall a f l m, Forall P l -> Forall P m -> P (TDispatch a f l m))
  (Hother : forall t, match t with TPersist _ _ | TRate _ _ _ | TDispatch _ _ _ _ => True | _ => P t end).

Fixpoint task_nested (t : task) : P t :=
  let all := fix all (l : list task) : Forall P l :=
    match l with [] => Forall_nil_2 P | x :: l' => Forall_cons_2 P x l' (task_nested x) (all l') end in
  match t return P t with
  | TPersist id l => Hpersist id l (all l)
  | TRate id c l => Hrate id c l (all l)
  | TDispatch a f l m => Hdispatch a f l m (all l) (all m)
  | other => Hother other
  end.
End task_nested.

Lemma foldr_and {A} (P : A -> Prop) l : foldr and True (map P l) <-> Forall P l.
Proof. induction l as [|x l IH]; simpl; [done|]. by rewrite IH, Forall_cons. Qed.

Lemma task_ok_le h h' t : hub_le h h' -> task_ok h t -> task_ok h' t.
Proof.
  intros Hle. assert (forall l, Forall (fun t => task_ok h t -> task_ok h' t) l ->
    Forall (task_ok h) l -> Forall (task_ok h') l) as Hall.
  { intros l IH Hl. rewrite Forall_forall in *. eauto. }
  apply (task_nested (fun t => task_ok h t -> task_ok h' t)); clear t.
  - intros id l IH. cbn [task_ok]. rewrite !foldr_and. intros [Hk Hl]. eauto using known_le.
  - intros id c l IH. cbn [task_ok]. rewrite !foldr_and. intros [Hk Hl]. eauto using known_le.
  - intros a f l m IHl IHm. cbn [task_ok]. rewrite !foldr_and. intros [Hl Hm]. eauto.
  - intros t. destruct t; try done; cbn [task_ok]; eauto using sendable_le, known_le, handlers_le.
    intros (s & Hs & Hf). destruct (Hle id s Hs) as (s' & Hs' & Hi). exists s'. split; [done|].
    intros f Hin. apply (delivered_same s s' Hi), Hf, Hin.
Qed.
Lemma tasks_ok_le h h' ts : hub_le h h' -> tasks_ok h ts -> tasks_ok h' ts.
Proof. intros Hle Hts. eapply Forall_impl; [exact Hts|]. intros t. by apply task_ok_le. Qed.

(** ** Elementary changes *)

Lemma same_identity_refl s : same_identity s s.
Proof. by repeat split. Qed.

Lemma on_session_le f id h :
  (forall s, hb_objects h !! id = Some s -> same_identity s (f s)) -> hub_le h (on_session f id h).
Proof.
  intros Hf i s Hs. cbn. destruct (decide (i = id)) as [->|Hne].
  - rewrite lookup_alter_eq, Hs. exists (f s). split; [done|auto].
  - rewrite lookup_alter_ne by done. exists s. split; [done|apply same_identity_refl].
Qed.
Lemma on_session_ok f id h :
  (forall s, hb_objects h !! id = Some s -> same_identity s (f s)) ->
  (forall s, hb_objects h !! id = Some s -> session_ok id s -> session_ok id (f s)) ->
  hub_ok h -> hub_ok (on_session f id h).
Proof.
  intros Hi Hf [Hm Hs]. split; cbn [on_session with_objects hb_objects hb_sessions].
  - intros i topics Ht. destruct (Hm i topics Ht) as (s & Hobj & Htop).
    destruct (on_session_le f id h Hi i s Hobj) as (s' & Hs' & Hsame). exists s'. split; [done|].
    by apply (topics_same s).
  - intros i s Hobj. destruct (decide (i = id)) as [->|Hne].
    + rewrite lookup_alter_eq in Hobj. destruct (hb_objects h !! id) as [s0|] eqn:E; [|done].
      injection Hobj as <-. auto.
    + rewrite lookup_alter_ne in Hobj by done. auto.
Qed.
Lemma with_sessions_ok id s topics h :
  hub_ok h -> hb_objects h !! id = Some s -> topics_ok s topics ->
  hub_ok (with_sessions (<[id := topics]> (hb_sessions h)) h).
Proof.
  intros [Hm Hs] Hobj Ht. split; cbn [with_sessions hb_objects hb_sessions]; [|done].
  intros i ts. rewrite lookup_insert_Some. intros [[<- <-]|[_ Hi]]; eauto.
Qed.
Lemma hub_ok_same h h' :
  hb_objects h' = hb_objects h -> hb_sessions h' = hb_sessions h -> hub_ok h -> hub_ok h'.
Proof. intros Ho Hs [H1 H2]. by split; rewrite ?Ho, ?Hs. Qed.
Lemma hub_le_same h h' : hb_objects h' = hb_objects h -> hub_le h h'.
Proof. intros Ho i s Hs. exists s. rewrite Ho. split; [done|apply same_identity_refl]. Qed.

Lemma member_some h id s topics :
  member h id = Some (s, topics) <-> hb_objects h !! id = Some s /\ hb_sessions h !! id = Some topics.
Proof.
  unfold member. destruct (hb_sessions h !! id), (hb_objects h !! id); naive_solver.
Qed.
Lemma members_elem h id s topics : (id, s, topics) ∈ members h <-> member h id = Some (s, topics).
Proof.
  unfold members. rewrite list_elem_of_omap, member_some. split.
  - intros ([i ts] & Hin & Hx). cbn in Hx. apply elem_of_map_to_list in Hin.
    destruct (hb_objects h !! i) eqn:E; [|done]. by simplify_eq.
  - intros [Ho Hs]. exists (id, topics). rewrite elem_of_map_to_list. cbn. by rewrite Ho.
Qed.

Lemma topic_of_inj c d : topic_of c = topic_of d -> c = d.
Proof. unfold topic_of. intros H. apply (f_equal bytes) in H. rewrite !bytes_app in H. by apply app_inv_head, bytes_inj in H. Qed.

(** ** The operations of the hub *)

Definition grows (h h' : Hub) : Prop := hub_le h h' /\ (hub_ok h -> hub_ok h').
#[export] Instance grows_preorder : PreOrder grows.
Proof.
  split; [intros h; split; [reflexivity|done]|]. intros h1 h2 h3 [L1 O1] [L2 O2]. split; [by etrans|auto].
Qed.
Lemma on_session_grows f id h :
  (forall s, hb_objects h !! id = Some s -> same_identity s (f s)) ->
  (forall s, hb_objects h !! id = Some s -> session_ok id s -> session_ok id (f s)) -> grows h (on_session f id h).
Proof. intros Hi Hf. split; [by apply on_session_le|by apply on_session_ok]. Qed.

Lemma register_grows id app protocol client capabilities h :
  grows h (register id app protocol client capabilities h).1.
Proof.
  unfold register. destruct (hb_objects h !! id) as [s0|] eqn:E; [reflexivity|].
  set (refused := _ || _). set (s := new_session app protocol client capabilities refused).
  assert (session_ok id s) as Hs.
  { split; cbn; try lia; try (intros f Hf; by apply elem_of_nil in Hf).
    - rewrite map_size_empty. done.
    - intros c [x Hx]. by rewrite lookup_empty in Hx. }
  assert (hub_le h (with_objects (<[id := s]> (hb_objects h)) h)) as Hle.
  { intros i s1 Hs1. exists s1. cbn. rewrite lookup_insert_ne by congruence. split; [done|apply same_identity_refl]. }
  assert (grows h (with_objects (<[id := s]> (hb_objects h)) h)) as Hg.
  { split; [done|]. intros [Hm Ho]. split; cbn.
    - intros i ts Hts. destruct (Hm i ts Hts) as (s1 & Hs1 & Ht). exists s1.
      rewrite lookup_insert_ne by congruence. done.
    - intros i s1. rewrite lookup_insert_Some. intros [[<- <-]|[_ Hi]]; eauto. }
  destruct refused; [done|]. transitivity (with_objects (<[id := s]> (hb_objects h)) h); [done|].
  split; [by apply hub_le_same|]. intros Hok. apply (with_sessions_ok id s); [done|apply lookup_insert_eq|].
  intros _ t Ht. set_solver.
Qed.

Lemma Subscribe_grows id topics ensured h :
  (forall s, hb_objects h !! id = Some s -> is_v2 s = false) -> grows h (Subscribe id topics ensured h).1.
Proof.
  intros Hv1. unfold Subscribe. destruct (validateTopics topics); [reflexivity|].
  destruct (member h id) as [[s subscribed]|] eqn:Hm; [|reflexivity]. apply member_some in Hm as [Ho Hs].
  assert (forall h', hb_objects h' = hb_objects h -> hb_sessions h' = hb_sessions h ->
    grows h (with_sessions (<[id := subscribed ∪ list_to_set topics]> (hb_sessions h')) h')) as Hadd.
  { intros h' Ho' Hs'. split; [by apply hub_le_same|]. intros Hok.
    assert (hub_ok h') as Hok' by (by apply (hub_ok_same h)).
    apply (with_sessions_ok id s); [done|congruence|]. intros Hv. rewrite (Hv1 s Ho) in Hv. done. }
  destruct (hb_routes h) as [routes|]; [|by apply Hadd].
  destruct (_ && _ && _); [|by apply Hadd]. destruct ensured; [by apply Hadd|reflexivity].
Qed.

Lemma existsb_false {A} (f : A -> bool) l : existsb f l = false -> forall x, x ∈ l -> f x = false.
Proof.
  intros Hf x Hx. destruct (f x) eqn:E; [|done]. exfalso. apply not_true_iff_false in Hf. apply Hf, existsb_exists.
  exists x. split; [by apply list_elem_of_In|done].
Qed.

Lemma subscribeV2_grows id channels rewind h : grows h (subscribeV2 id channels rewind h).1.
Proof.
  unfold subscribeV2. destruct (validateChannels channels); [reflexivity|].
  destruct (member h id) as [[s subscribed]|] eqn:Hm; [|reflexivity]. apply member_some in Hm as [Ho Hs].
  destruct (negb (is_v2 s)); [reflexivity|].
  destruct (existsb _ channels) eqn:Hall; [reflexivity|].
  assert (grows h (with_sessions (<[id := subscribed ∪ list_to_set (topic_of <$> channels)]> (hb_sessions h)) h)) as Hg.
  { split; [by apply hub_le_same|]. intros Hok. apply (with_sessions_ok id s); [done|done|]. intros Hv t.
    rewrite elem_of_union, elem_of_list_to_set, list_elem_of_fmap. intros [Ht|(c & -> & Hc)].
    - destruct (ho_member _ Hok _ _ Hs) as (s' & Ho' & Ht'). assert (s' = s) as -> by congruence. by apply Ht'.
    - exists c. split; [done|]. pose proof (existsb_false _ _ Hall c Hc) as Hx. by apply negb_false_iff in Hx. }
  destruct rewind; [|done]. cbn [fst]. etransitivity; [exact Hg|].
  apply on_session_grows; [by intros; repeat split|]. intros s1 _ [H1 H2 H3 H4 H5 H6]. by split.
Qed.
Lemma unsubscribeV2_grows id channels h : grows h (unsubscribeV2 id channels h).1.
Proof.
  unfold unsubscribeV2. destruct (validateChannels channels); [reflexivity|].
  destruct (member h id) as [[s subscribed]|] eqn:Hm; [|reflexivity]. apply member_some in Hm as [Ho Hs].
  destruct (negb (is_v2 s)); [reflexivity|]. destruct (existsb _ channels); [reflexivity|].
  split; [by apply hub_le_same|]. intros Hok. apply (with_sessions_ok id s); [done|done|]. intros Hv t Ht.
  destruct (ho_member _ Hok _ _ Hs) as (s' & Ho' & Ht'). assert (s' = s) as -> by congruence. apply Ht'; set_solver.
Qed.
