(* ===== verification/RealtimeSteps.v ===== *)
(** * Every step of the realtime hub keeps the invariant *)

From Stdlib Require Import Ascii String ZifyBool.
From S2P Require Import Prelude GoLib Crypto Json Domain QueueSchema RealtimeProtocol RealtimeHub RealtimeTasks RealtimeSystem.
Import Realtime Hub Tasks.

(** * The invariant of the realtime hub is kept *)

Lemma send_grows id f h : sendable h id f -> grows h (send id f h).1.
Proof.
  intros (s & Ho & Hp). unfold send. rewrite Ho. destruct (ss_done s); [reflexivity|].
  destruct (length (ss_outbound s) <? OutboundQueueSize)%nat eqn:Hlen; [|reflexivity].
  apply Nat.ltb_lt in Hlen. apply on_session_grows; [by intros; repeat split|].
  intros s1 Hs1 [H1 H2 H3 H4 H5 H6]. assert (s1 = s) as -> by congruence.
  split; cbn [set_outbound ss_outbound ss_rewindBuffer ss_rewindSeen ss_presence]; try done.
  - rewrite length_app. cbn. lia.
  - intros f' [Hf|Hf%list_elem_of_singleton]%elem_of_app; [by apply (H4 f')|by subst].
Qed.

(** ** Delivering *)

Lemma selected_same app f now id s topics : same_identity s (selected app f now id s topics).
Proof. unfold selected. destruct (selects _ _ _ _ _ _); repeat case_match; by repeat split. Qed.

(** Whoever is chosen may have the frame. *)
Lemma selects_delivered app f now id s topics :
  validV2Delivery app f = true -> topics_ok s topics ->
  selects app f now id s topics <> NotTarget -> delivered_to id s f.
Proof.
  intros Hvalid Htopics. unfold selects.
  destruct (negb (is_v2 s) || _ || _) eqn:Hin; [done|]. destruct (negb (in_audience f id s)) eqn:Hel; [done|]. intros _.
  apply orb_false_iff in Hin as [[Hv Happ]%orb_false_iff Ht]. apply negb_false_iff in Hv, Happ, Ht, Hel.
  apply bool_decide_eq_true in Happ, Ht. subst app.
  destruct (Htopics Hv _ Ht) as (c & Hc%topic_of_inj & Hallow). subst c.
  assert (sf_AppID f = ss_appID s) as Hid.
  { unfold validV2Delivery in Hvalid. destruct (bool_decide (sf_AppID f = ss_appID s)) eqn:E; [|done].
    by apply bool_decide_eq_true in E. }
  repeat split; done.
Qed.

Lemma selects_room app f now id s topics :
  selects app f now id s topics = Buffered -> (length (ss_rewindBuffer s) < OutboundQueueSize)%nat.
Proof.
  unfold selects. do 3 (match goal with |- (if ?b then _ else _) = _ -> _ => destruct b end; [done|]).
  destruct (bool_decide _); [|done]. destruct (_ <=? _)%nat eqn:E; [done|]. intros _. by apply Nat.leb_gt.
Qed.

Lemma selected_ok app f now id s topics :
  validV2Delivery app f = true -> topics_ok s topics -> session_ok id s ->
  session_ok id (selected app f now id s topics).
Proof.
  intros Hvalid Htopics Hok. pose proof (selects_delivered app f now id s topics Hvalid Htopics) as Hdel.
  assert (forall buffer, (length buffer <= OutboundQueueSize)%nat -> (forall g, g ∈ buffer -> delivered_to id s g) ->
    forall seen, Z.of_nat (size seen) <= MaxRewindChannels * MaxHistoryItems ->
    session_ok id (set_rewind (ss_rewinding s) buffer seen s)) as Hset.
  { intros buffer Hb Hd seen Hs. destruct Hok. by split. }
  assert (forall m, Z.of_nat (size (delete m (ss_rewindSeen s))) <= MaxRewindChannels * MaxHistoryItems) as Hdelete.
  { intros m. pose proof (so_seen _ _ Hok). destruct (ss_rewindSeen s !! m) as [z|] eqn:E.
    - rewrite map_size_delete_Some by eauto. lia.
    - by rewrite (delete_id _ _ E). }
  unfold selected. destruct (selects app f now id s topics) eqn:Hsel; try done.
  - assert (delivered_to id s f) as Hd by (by apply Hdel).
    pose proof (selects_room _ _ _ _ _ _ Hsel) as Hlen.
    assert (forall g, g ∈ (ss_rewindBuffer s ++ [f])%list -> delivered_to id s g) as Hall.
    { intros g [Hg|Hg%list_elem_of_singleton]%elem_of_app; [by apply Hok|by subst]. }
    case_bool_decide; cbn [set_rewind ss_rewinding ss_rewindBuffer ss_rewindSeen].
    + apply Hset; [rewrite length_app; cbn; lia|done|apply Hok].
    + apply (Hset (ss_rewindBuffer s ++ [f])%list); [rewrite length_app; cbn; lia|done|apply Hdelete].
  - case_bool_decide; [done|]. apply Hset; [apply Hok|apply Hok|apply Hdelete].
  - case_bool_decide; [done|]. apply Hset; [apply Hok|apply Hok|apply Hdelete].
Qed.

Lemma deliver_locked_objects app f now h id :
  validV2Delivery app f = true ->
  hb_objects (deliver_locked app f now h).1.1.1 !! id
  = (fun s => match hb_sessions h !! id with
              | Some topics => selected app f now id s topics
              | None => s
              end) <$> hb_objects h !! id.
Proof.
  intros Hv. unfold deliver_locked. rewrite Hv. cbn [negb fst with_objects hb_objects]. rewrite map_lookup_imap.
  by destruct (hb_objects h !! id).
Qed.
Lemma deliver_locked_sessions app f now h : hb_sessions (deliver_locked app f now h).1.1.1 = hb_sessions h.
Proof. unfold deliver_locked. by destruct (negb _). Qed.

Lemma deliver_grows app f now h : grows h (deliver_locked app f now h).1.1.1.
Proof.
  destruct (validV2Delivery app f) eqn:Hv.
  2:{ unfold deliver_locked. rewrite Hv. reflexivity. }
  assert (hub_le h (deliver_locked app f now h).1.1.1) as Hle.
  { intros id s Hs. rewrite deliver_locked_objects, Hs by done. eexists. split; [done|].
    destruct (hb_sessions h !! id); [apply selected_same|apply same_identity_refl]. }
  split; [done|]. intros [Hm Ho]. split.
  - intros id topics Ht. rewrite deliver_locked_sessions in Ht. destruct (Hm id topics Ht) as (s & Hs & Htop).
    destruct (Hle id s Hs) as (s' & Hs' & Hi). exists s'. split; [done|]. by apply (topics_same s).
  - intros id s'. rewrite deliver_locked_objects by done. destruct (hb_objects h !! id) as [s|] eqn:Hs; [|done].
    intros [= <-]. destruct (hb_sessions h !! id) as [topics|] eqn:Ht; [|by apply Ho].
    destruct (Hm id topics Ht) as (s1 & Hs1 & Htop). assert (s1 = s) as -> by congruence.
    apply selected_ok; [done|done|by apply Ho].
Qed.

Lemma chosen_elem kind l id : id ∈ chosen kind l -> exists k, (id, k) ∈ l /\ kind k = true.
Proof.
  unfold chosen. rewrite list_elem_of_fmap. intros ([i k] & -> & Hin%list_elem_of_In).
  apply filter_In in Hin as [Hin Hk]. exists k. split; [by apply list_elem_of_In|done].
Qed.

(** What a delivery leaves to do is in order. *)
Lemma deliver_tasks_ok o app f h :
  hub_ok h -> tasks_ok (deliver o app f h).1.1 (deliver o app f h).1.2.
Proof.
  intros Hok. pose proof (deliver_grows app f (or_now o) h) as [Hle _].
  unfold deliver. destruct (deliver_locked app f (or_now o) h) as [[[h1 overflow] targets] count] eqn:Hd.
  cbn [fst snd] in *. apply Forall_app. split.
  - apply Forall_forall. intros t (i & <- & _)%list_elem_of_In%in_map_iff. done.
  - apply Forall_forall. intros t (i & <- & Hi)%list_elem_of_In%in_map_iff. apply list_elem_of_In in Hi.
    eapply task_ok_le; [exact Hle|]. unfold deliver_locked in Hd.
    destruct (validV2Delivery app f) eqn:Hv; cbn [negb] in Hd.
    2:{ injection Hd as _ _ <- _. by apply elem_of_nil in Hi. }
    injection Hd as _ _ <- _. apply chosen_elem in Hi as (k & Hin & Hk). destruct k; try done.
    unfold selection in Hin. apply list_elem_of_fmap in Hin as ([[i' s] topics] & [= -> Hsel] & Hm).
    apply members_elem, member_some in Hm as [Ho Hs]. destruct (ho_member _ Hok _ _ Hs) as (s' & Ho' & Ht).
    assert (s' = s) as -> by congruence. exists s. split; [done|]. intros _. left.
    eapply selects_delivered; [done|done|]. by rewrite <- Hsel.
Qed.

(** ** Closing, presence and rewinding *)

Lemma close_locked_grows o id h : grows h (close_locked o id h).1.
Proof.
  unfold close_locked. destruct (member h id) as [[s topics]|] eqn:Hm; [|reflexivity]. cbn [fst].
  assert (grows h (with_sessions (delete id (hb_sessions h)) h)) as Hg.
  { split; [by apply hub_le_same|]. intros [Hmem Hs]. split; [|done]. intros i ts. cbn.
    rewrite lookup_delete_Some. intros [_ Hi]. by apply Hmem. }
  cbn [with_sessions hb_routes]. destruct (hb_routes h) as [routes|]; [|done]. destruct (_ && _); [|done].
  etransitivity; [exact Hg|]. split; [by apply hub_le_same|]. by apply hub_ok_same.
Qed.

Lemma UpdatePresence_grows id request h : grows h (UpdatePresence id request h).1.
Proof.
  unfold UpdatePresence. destruct (_ || _ || _); [reflexivity|].
  destruct (negb (may _ _ _ _)) eqn:Hmay; [reflexivity|]. apply negb_false_iff in Hmay.
  destruct (member h id) as [[s topics]|] eqn:Hm; [|reflexivity]. apply member_some in Hm as [Ho _].
  destruct (negb (is_v2 s)); [reflexivity|]. destruct (negb _); [reflexivity|]. cbn [fst].
  unfold may in Hmay. rewrite Ho in Hmay. apply on_session_grows; [by intros; repeat split|].
  intros s1 Hs1 [H1 H2 H3 H4 H5 H6]. assert (s1 = s) as -> by congruence. split; try done.
  intros c. cbn [set_presence ss_presence]. rewrite lookup_insert_is_Some. intros [<-|[_ Hc]]; [done|by apply H6].
Qed.

Lemma size_evict pick m : m <> ∅ -> S (size (evict pick m)) = size m.
Proof.
  intros Hne. unfold evict. assert (forall k z, m !! k = Some z -> S (size (delete k m)) = size m) as Hdel.
  { intros k z Hk. rewrite map_size_delete_Some by eauto. pose proof (map_size_non_empty_iff m).
    assert (size m <> 0%nat) by (intros E; by apply map_size_empty_iff in E). lia. }
  destruct (m !! pick) as [z|] eqn:E; [by eapply Hdel|]. destruct (map_to_list m) as [|[k z] l] eqn:El.
  - apply map_to_list_empty_iff in El. done.
  - apply (Hdel k z). apply elem_of_map_to_list. rewrite El. by left.
Qed.
Lemma evict_while_bound fuel pick m :
  (size m <= fuel + 999)%nat -> (size (evict_while fuel pick m) <= 999)%nat.
Proof.
  revert m. induction fuel as [|fuel IH]; intros m Hm; simpl; [lia|].
  destruct (_ <=? _) eqn:E; [|apply Z.leb_gt in E; change (MaxRewindChannels * MaxHistoryItems) with 1000 in E; lia].
  apply IH. destruct (decide (m = ∅)) as [->|Hne]; [|pose proof (size_evict pick m Hne); lia].
  unfold evict. by rewrite lookup_empty, map_to_list_empty.
Qed.
(** The table of remembered messages is bounded, however many are added. *)
Lemma remember_bound o seen s :
  Z.of_nat (size (ss_rewindSeen s)) <= MaxRewindChannels * MaxHistoryItems ->
  Z.of_nat (size (ss_rewindSeen (remember o seen s))) <= MaxRewindChannels * MaxHistoryItems.
Proof.
  change (MaxRewindChannels * MaxHistoryItems) with 1000. intros Hs. cbn [remember set_rewind ss_rewindSeen].
  set (live := filter _ _). assert (size live <= 1000)%nat as Hl.
  { pose proof (map_subseteq_size live (ss_rewindSeen s) (map_filter_subseteq _ _)). lia. }
  clearbody live. revert live Hl. induction seen as [|i seen IH]; intros live Hl; cbn [fold_left]; [lia|].
  apply IH. pose proof (evict_while_bound (size live) (or_evict o) live ltac:(lia)) as Hb.
  set (m := evict_while _ _ _) in *. destruct (m !! i) as [z|] eqn:E.
  - rewrite map_size_insert_Some by eauto. lia.
  - rewrite map_size_insert_None by done. lia.
Qed.
Lemma remember_grows o seen id h : grows h (on_session (remember o seen) id h).
Proof.
  apply on_session_grows; [by intros; repeat split|]. intros s _ Hs. pose proof (remember_bound o seen s (so_seen _ _ Hs)).
  destruct Hs. by split.
Qed.

(** ** Answers *)

Lemma answer_type h id f :
  known h id -> sf_Type f ∈ ["error"; "subscribed"; "unsubscribed"; "pong"; "channel.publish.batch.result"] ->
  task_ok h (TSend id f).
Proof. intros [s Hs] Hf. exists s. split; [done|]. intros _. right. left. by left. Qed.
Ltac each := repeat (apply Forall_cons_2 || apply Forall_nil_2).
Ltac answered := apply answer_type; [assumption|cbn; set_solver].

Lemma error_ok h id e : known h id -> task_ok h (send_error id e).
Proof. intros Hk. answered. Qed.
Lemma answer_ok h id to r : known h id -> tasks_ok h (answer id to r).
Proof.
  intros Hk. unfold answer. destruct to as [|item [|next rest] outcomes].
  - destruct r; each. by apply error_ok.
  - each. answered.
  - by each.
Qed.

Lemma history_item_same app channel e item :
  history_item app channel e = Some item -> sf_AppID item = app /\ sf_Channel item = channel.
Proof.
  unfold history_item. destruct (e.2) as [f|]; [|done].
  destruct (_ && _ && _ && _ && _) eqn:E; [|done]. intros [= <-].
  apply andb_prop in E as [[[[_ E1]%andb_prop E2]%andb_prop _]%andb_prop _].
  by apply bool_decide_eq_true in E1, E2.
Qed.
Lemma history_ok o id channel cursor limit h page :
  HistoryV2 o id channel cursor limit h = inl page -> task_ok h (TSend id page).
Proof.
  unfold HistoryV2. destruct (_ || _); [done|]. destruct (negb (may _ _ _ _)) eqn:Hmay; [done|].
  apply negb_false_iff in Hmay. destruct (member h id) as [[s topics]|] eqn:Hm; [|done].
  apply member_some in Hm as [Ho _]. destruct (is_v2 s); [|done]. unfold HistoryForApp.
  destruct (_ || _ || _); [done|]. destruct (negb _); [done|].
  destruct (or_entries o) as [[[entries next]|]|]; try done.
  destruct (mapM _ entries) as [items|] eqn:Hitems; [|done]. intros [= <-]. exists s. split; [done|]. intros _.
  right. left. right. left. cbn. split; [done|]. unfold may in Hmay. rewrite Ho in Hmay. split; [done|].
  apply mapM_Some in Hitems. intros item Hitem. apply list_elem_of_lookup_1 in Hitem as [n Hn].
  destruct (Forall2_lookup_r _ _ _ _ _ Hitems Hn) as (e & _ & He). by apply (history_item_same _ _ e).
Qed.

(** ** Steps *)

Definition result_ok (h : Hub) (r : Hub * list task * list call) : Prop :=
  grows h r.1.1 /\ tasks_ok r.1.1 r.1.2.
Lemma stay_ok h ts cs : tasks_ok h ts -> result_ok h (h, ts, cs).
Proof. intros Hts. by split. Qed.
Lemma stop_ok h cs : result_ok h (h, [], cs).
Proof. split; [reflexivity|constructor]. Qed.
Lemma error_result h id e cs : known h id -> result_ok h (h, [send_error id e], cs).
Proof. intros Hk. apply stay_ok. each. by apply error_ok. Qed.
Lemma move_ok h h' ts cs : grows h h' -> tasks_ok h' ts -> result_ok h (h', ts, cs).
Proof. by split. Qed.

Lemma frame_v1_ok o id s frame h :
  hb_objects h !! id = Some s -> is_v2 s = false -> result_ok h (frame_v1 o id frame h).
Proof.
  intros Ho Hv. assert (known h id) as Hk by by exists s. unfold frame_v1. destruct (bool_decide _).
  { destruct (Subscribe id (cf_Topics frame) (or_ok o) h) as [h1 v] eqn:Hsub.
    assert (grows h h1) as Hg.
    { change h1 with ((h1, v).1). rewrite <- Hsub. apply Subscribe_grows. congruence. }
    apply move_ok; [done|]. destruct Hg as [Hle _]. assert (known h1 id) by by eapply known_le.
    destruct v; each; [by apply error_ok|]. destruct (cf_Rewind frame); [done|answered]. }
  destruct (bool_decide _). { apply stay_ok. each. answered. }
  destruct (bool_decide _); [|by apply stop_ok]. destruct (negb _); [by apply error_result|].
  destruct (_ || _); [by apply error_result|]. destruct (or_ok o); [by apply stop_ok|by apply error_result].
Qed.

Lemma dispatch_ok h app f failed done :
  tasks_ok h failed -> tasks_ok h done -> task_ok h (TDispatch app f failed done).
Proof. intros Hf Hd. cbn [task_ok]. by rewrite !foldr_and. Qed.
Lemma persist_ok h id granted : known h id -> tasks_ok h granted -> task_ok h (TPersist id granted).
Proof. intros Hk Hg. cbn [task_ok]. by rewrite foldr_and. Qed.
Lemma rate_ok h id channel granted : known h id -> tasks_ok h granted -> task_ok h (TRate id channel granted).
Proof. intros Hk Hg. cbn [task_ok]. by rewrite foldr_and. Qed.
Lemma action_result h id app f cs e :
  known h id -> result_ok h (h, [TDispatch app f [send_error id e] []], cs).
Proof. intros Hk. apply stay_ok. each. apply dispatch_ok; each. by apply error_ok. Qed.

Lemma actions_answer h id s channel message actions :
  hb_objects h !! id = Some s -> validateActionSource id channel h = None ->
  task_ok h (TSend id (actions_frame (app_of id h) channel message actions)).
Proof.
  intros Ho. unfold validateActionSource. destruct (negb _) eqn:Hmay; [done|]. apply negb_false_iff in Hmay. intros _.
  unfold may in Hmay. rewrite Ho in Hmay. exists s. split; [done|]. intros _. right. left. right. right. cbn.
  unfold app_of. by rewrite Ho.
Qed.

Lemma frame_v2_ok o id s frame h :
  hb_objects h !! id = Some s -> result_ok h (frame_v2 o id frame h).
Proof.
  intros Ho. assert (known h id) as Hk by by exists s. unfold frame_v2. cbv zeta.
  destruct (bool_decide (cf_Type frame = "subscribe")).
  { destruct (subscribeV2 _ _ _ h) as [h1 v] eqn:Hsub. assert (grows h h1) as Hg.
    { change h1 with ((h1, v).1). rewrite <- Hsub. apply subscribeV2_grows. }
    assert (known h1 id) by (by eapply known_le; [apply Hg|]).
    destruct v; apply move_ok; try done; [each; by apply error_ok|].
    each. apply persist_ok; [done|]. destruct (cf_Rewind frame); each; [done|answered]. }
  destruct (bool_decide (cf_Type frame = "unsubscribe")).
  { destruct (unsubscribeV2 _ _ h) as [h1 v] eqn:Hsub. assert (grows h h1) as Hg.
    { change h1 with ((h1, v).1). rewrite <- Hsub. apply unsubscribeV2_grows. }
    assert (known h1 id) by (by eapply known_le; [apply Hg|]).
    destruct v; apply move_ok; try done; [each; by apply error_ok|].
    each. apply persist_ok; [done|]. each; answered. }
  destruct (bool_decide (cf_Type frame = "channel.publish")).
  { destruct (publishV2 _ _ _); [by apply error_result|]. apply stay_ok. each.
    apply rate_ok; [done|]. by each. }
  destruct (bool_decide (cf_Type frame = "channel.publish.batch")).
  { destruct (validatePublishItems _); [|apply stay_ok; by each].
    destruct (rejects _); apply stay_ok; each; [answered|done]. }
  destruct (bool_decide (cf_Type frame = "history.get")).
  { destruct (HistoryV2 _ _ _ _ _ _) eqn:Hh; [|by apply error_result]. apply stay_ok. each.
    by eapply history_ok. }
  destruct (bool_decide (cf_Type frame = "presence.update")).
  { destruct (UpdatePresence _ _ h) as [h1 v] eqn:Hup. assert (grows h h1) as Hg.
    { change h1 with ((h1, v).1). rewrite <- Hup. apply UpdatePresence_grows. }
    assert (known h1 id) by (by eapply known_le; [apply Hg|]).
    destruct v as [[j n]|e]; apply move_ok; try done; each; [done|by apply error_ok]. }
  destruct (bool_decide (cf_Type frame = "message.action.put")).
  { destruct (validateActionSource _ _ _); [by apply error_result|]. destruct (_ || _); [by apply error_result|].
    destruct (negb _); [by apply error_result|]. destruct (or_action o); [by apply action_result|by apply error_result]. }
  destruct (bool_decide (cf_Type frame = "message.actions.get")).
  { destruct (validateActionSource _ _ _) eqn:Hsrc; [by apply error_result|]. destruct (isSome _); [by apply error_result|].
    destruct (negb _); [by apply error_result|]. destruct (or_actions o); [|by apply error_result].
    apply stay_ok. each. by eapply actions_answer. }
  destruct (bool_decide (cf_Type frame = "message.action.remove")).
  { destruct (validateActionSource _ _ _); [by apply error_result|]. destruct (_ || _); [by apply error_result|].
    destruct (negb _); [by apply error_result|]. destruct (or_action o); [by apply action_result|by apply error_result]. }
  destruct (bool_decide (cf_Type frame = "file.publish")).
  { destruct (PublishFileV2 _ _ _); [by apply error_result|]. apply stay_ok. each.
    apply rate_ok; [done|]. by each. }
  destruct (bool_decide (cf_Type frame = "ping")); [|apply stop_ok]. apply stay_ok. each. answered.
Qed.

Lemma members_known h id s topics : (id, s, topics) ∈ members h -> hb_objects h !! id = Some s /\ hb_sessions h !! id = Some topics.
Proof. by rewrite members_elem, member_some. Qed.
Lemma member_known h id s topics : member h id = Some (s, topics) -> known h id.
Proof. intros [Ho _]%member_some. by exists s. Qed.

(** A message of the version 1 interface goes to sessions that may have it. *)
Lemma publish_ok h app topic f :
  hub_ok h -> task_ok h (TPublish app topic f) -> tasks_ok h ((fun id => TSend id f) <$> publish_targets app topic h).
Proof.
  intros Hok Ht. apply Forall_fmap, Forall_forall. intros id Hid. unfold publish_targets in Hid.
  apply list_elem_of_fmap in Hid as ([[i s] topics] & -> & Hin%list_elem_of_In).
  apply filter_In in Hin as [Hin%list_elem_of_In Hsel]. apply members_known in Hin as [Ho Hs].
  apply andb_prop in Hsel as [_ Htop%bool_decide_eq_true].
  exists s. split; [done|]. intros Hv. right. right.
  destruct (ho_member _ Hok _ _ Hs) as (s' & Ho' & Htopics). assert (s' = s) as -> by congruence.
  destruct (Htopics Hv _ Htop) as (c & -> & Hc). destruct Ht as [(Hc' & Htype & Happ)|Ht]; [|by destruct (Ht c)].
  apply topic_of_inj in Hc'. subst c. done.
Qed.

Lemma deliver_ok o app f h : hub_ok h -> grows h (deliver o app f h).1.1 /\ tasks_ok (deliver o app f h).1.1 (deliver o app f h).1.2.
Proof.
  intros Hok. split; [|by apply deliver_tasks_ok]. pose proof (deliver_grows app f (or_now o) h) as Hg. unfold deliver.
  destruct (deliver_locked app f (or_now o) h) as [[[h1 ov] ts] n]. exact Hg.
Qed.
Lemma deliver_then o app f h more cs :
  hub_ok h -> (forall h1, hub_le h h1 -> tasks_ok h1 (more (deliver o app f h).2)) ->
  result_ok h (let '(h1, sends, n) := deliver o app f h in (h1, (sends ++ more n)%list, cs)).
Proof.
  intros Hok Hmore. pose proof (deliver_ok o app f h Hok) as [Hg Hts].
  destruct (deliver o app f h) as [[h1 sends] n]. apply move_ok; [done|]. apply Forall_app. split; [done|].
  apply Hmore, Hg.
Qed.

(** Sending one frame. *)
Lemma send_ok h id f ts :
  sendable h id f -> (forall h1, hub_le h h1 -> tasks_ok h1 (ts (send id f h).2)) ->
  forall cs, result_ok h ((send id f h).1, ts (send id f h).2, cs).
Proof. intros Hs Hts cs. pose proof (send_grows id f h Hs) as Hg. apply move_ok; [done|]. apply Hts, Hg. Qed.

Lemma rewind_send_ok o id frames seen h :
  task_ok h (TRewindSend id frames seen) -> result_ok h (step o (TRewindSend id frames seen) h).
Proof.
  intros (s & Ho & Hf). run_step. destruct frames as [|f rest]; [by apply stay_ok; each|].
  assert (task_ok h (TRewindSend id rest seen)) as Hrest.
  { exists s. split; [done|]. intros g Hg. apply Hf. by right. }
  destruct (_ && _); [by apply stay_ok; each|].
  destruct (send id f h) as [h1 sent] eqn:Hsend. replace h1 with (send id f h).1 by by rewrite Hsend.
  replace sent with (send id f h).2 by by rewrite Hsend.
  apply (send_ok h id f (fun sent => match sent with Some true => [TRewindSend id rest seen] | Some false => [TClose id] | None => [] end)).
  - exists s. split; [done|]. intros _. left. apply Hf. by left.
  - intros h2 Hle. destruct (send id f h).2 as [[]|]; each; [by eapply task_ok_le|done].
Qed.

Lemma finish_rewind_ok o id seen h : hub_ok h -> result_ok h (step o (TFinishRewind id seen) h).
Proof.
  intros Hok. run_step. destruct (member h id) as [[s topics]|] eqn:Hm; [|apply stop_ok].
  apply member_some in Hm as [Ho _]. destruct (ss_rewindBuffer s) as [|f fs] eqn:Hb.
  { apply move_ok; [apply remember_grows|constructor]. }
  apply move_ok.
  - apply on_session_grows; [by intros; repeat split|]. intros s1 _ [H1 H2 H3 H4 H5 H6]. split; try done; cbn; [lia|].
    intros g Hg. by apply elem_of_nil in Hg.
  - each. eexists. split; [cbn; rewrite lookup_alter_eq, Ho; reflexivity|]. intros g Hg.
    apply (delivered_same s); [by repeat split|]. apply (ho_session _ Hok _ _ Ho). by rewrite Hb.
Qed.

Lemma invoke_ok o t h :
  match t with TInvoke _ _ | TClaimed _ _ _ | TAcknowledged _ _ _ => True | _ => False end ->
  task_ok h t -> result_ok h (step o t h).
Proof.
  destruct t as [| | | | | | | | | | | | | | | | | | | | | | |f ids|f id ids|f id ids| | |]; try done; intros _ Hh.
  - run_step. destruct ids as [|id ids]; [apply stop_ok|].
    destruct (_ || _); apply stay_ok; each; [|exact Hh]. intros i Hi. apply Hh. by right.
  - run_step. assert (task_ok h (TInvoke f ids)) by (intros i Hi; apply Hh; by right).
    destruct (done_of id h); [by apply stay_ok; each|]. destruct (or_ok o); by apply stay_ok; each.
  - run_step. assert (task_ok h (TInvoke f ids)) as Hr by (intros i Hi; apply Hh; by right).
    destruct (Hh id) as (s & Ho & Hv); [by left|].
    pose proof (send_grows id f h ltac:(exists s; split; [done|]; intros Hv2; congruence)) as Hg.
    destruct (send id f h) as [h1 [[]|]]; apply move_ok; try done; each; try done; (eapply task_ok_le; [apply Hg|done]).
Qed.

Lemma prepared_ok o id request to h : known h id -> result_ok h (step o (TPrepared id request to) h).
Proof.
  intros Hk. run_step. destruct (hb_objects h !! id) as [s|]; [|apply stop_ok].
  destruct (prepare _ _ _ _) as [calls [e|]]; [by apply stay_ok, answer_ok|].
  destruct (dp_publisher _); [|by apply stay_ok; each]. destruct (or_ok o); by apply stay_ok, answer_ok.
Qed.
Lemma file_step_ok o id request h : known h id -> result_ok h (step o (TFile id request) h).
Proof.
  intros Hk. run_step. destruct (hb_objects h !! id) as [s|], (or_file o) as [file|e];
    try (by apply error_result); try apply stop_ok.
  destruct (prepare _ _ _ _) as [calls [e|]]; [by apply error_result|]. apply stay_ok. each.
  apply dispatch_ok; each; try done. by apply error_ok.
Qed.
Lemma upsert_ok o id channel data joined occupancy h :
  known h id -> result_ok h (step o (TUpsert id channel data joined occupancy) h).
Proof.
  intros Hk. run_step.
  destruct (dp_presence _), (or_present o) as [[j n]|]; apply stay_ok; each;
    try (by apply error_ok); try done; (apply dispatch_ok; each; [done|by apply error_ok|done]).
Qed.

Lemma rewind_ok o id channels topics all rewind pages h :
  known h id -> result_ok h (step o (TRewind id channels topics all rewind pages) h).
Proof.
  intros Hk. run_step. assert (task_ok h (TSend id (subscription_frame "subscribed" topics all))) by answered.
  destruct channels as [|channel rest]; [apply stay_ok; by each|].
  destruct (HistoryV2 o id channel _ _ h) as [page|e] eqn:Hh; apply stay_ok; each; try done.
  - by eapply history_ok.
  - by apply error_ok.
Qed.
Lemma batch_ok o t h :
  match t with TPreflight _ _ _ _ | TRates _ _ _ _ => True | _ => False end -> task_ok h t -> result_ok h (step o t h).
Proof.
  destruct t as [| | | | | | | | | | | | | |id items todo codes|id items todo codes| | | | | | | | | | | | |]; try done; intros _ Hk;
    assert (known h id) by exact Hk; run_step; (destruct todo as [|item rest]; [|apply stay_ok; by each]);
    (destruct (rejects codes); [apply stay_ok; each; answered|]).
  - apply stay_ok; by each.
  - destruct items; apply stay_ok; each; [answered|done].
Qed.
Lemma reconcile_ok o h : result_ok h (step o TReconcile h).
Proof.
  run_step. destruct (negb _); [apply stop_ok|]. apply stay_ok. apply Forall_concat, Forall_forall.
  intros l (n & ac & -> & _)%elem_of_lookup_imap. destruct (or_expired o ac.1 ac.2) as [[expired occ]|]; [|constructor].
  apply Forall_concat, Forall_forall. intros l' (m & c & -> & _)%elem_of_lookup_imap. each.
  apply dispatch_ok; by each.
Qed.

(** One step keeps the hub in order and leaves tasks in order. *)
Lemma step_ok o t h : hub_ok h -> task_ok h t -> result_ok h (step o t h).
Proof.
  intros Hok Ht. destruct t.
  - run_step. destruct (register _ _ _ _ _ h) as [h1 r] eqn:Hr. apply move_ok.
    + change h1 with ((h1, r).1). rewrite <- Hr. apply register_grows.
    + destruct (_ && _ && _); by each.
  - run_step. destruct (or_ok o); apply stay_ok; by each.
  - run_step. destruct (negb _); [apply stop_ok|]. destruct (or_ok o); apply stay_ok; by each.
  - run_step. destruct (hb_objects h !! id) as [s|] eqn:Ho; [|apply stop_ok].
    destruct (is_v2 s) eqn:Hv; [by eapply frame_v2_ok|by eapply frame_v1_ok].
  - run_step. pose proof (send_grows id frame h Ht) as Hg. destruct (send id frame h) as [h1 sent].
    apply move_ok; [done|]. destruct sent as [[]|]; by each.
  - run_step. destruct (done_of id h); [apply stop_ok|]. apply move_ok; [|by each].
    apply on_session_grows; [by intros; repeat split|]. intros s _ [H1 H2 H3 H4 H5 H6]. by split.
  - run_step. pose proof (close_locked_grows o id h) as Hg. destruct (close_locked o id h) as [h1 leaves].
    apply move_ok; [done|]. apply Forall_fmap, Forall_forall. done.
  - run_step. apply stay_ok. each. apply dispatch_ok; by each.
  - cbn [task_ok] in Ht. rewrite foldr_and in Ht. destruct Ht as [Hk Hg]. run_step.
    destruct (member h id) as [[s topics]|]; [|by apply error_result].
    destruct (_ || _); apply stay_ok; [done|]. each; [done|by apply error_ok].
  - by apply rewind_ok.
  - by apply rewind_send_ok.
  - by apply finish_rewind_ok.
  - cbn [task_ok] in Ht. rewrite foldr_and in Ht. destruct Ht as [Hk Hg]. run_step.
    destruct (ratePublishV2 o h); [by apply error_result|by apply stay_ok].
  - by apply prepared_ok.
  - by apply batch_ok.
  - by apply batch_ok.
  - by apply file_step_ok.
  - by apply upsert_ok.
  - cbn [task_ok] in Ht. rewrite !foldr_and in Ht. destruct Ht as [Hf Hd]. run_step.
    destruct (dp_publisher _); [destruct (or_ok o); by apply stay_ok|].
    apply (deliver_then o app frame h (fun _ => done)); [done|]. intros h1 Hle. by eapply tasks_ok_le.
  - run_step. pose proof (deliver_ok o app frame h Hok) as [Hg Hts].
    destruct (deliver o app frame h) as [[h1 sends] n]. by apply move_ok.
  - run_step. apply (deliver_then o (sf_AppID frame) frame h (fun count => TEmit _ _ _ :: answer id to _)); [done|].
    intros h1 Hle. apply Forall_cons_2; [done|]. apply answer_ok. by eapply known_le.
  - run_step. apply stop_ok.
  - run_step. apply stay_ok. by apply publish_ok.
  - by apply invoke_ok.
  - by apply invoke_ok.
  - by apply invoke_ok.
  - run_step. apply stop_ok.
  - apply reconcile_ok.
  - run_step. destruct (hb_closed h); [apply stop_ok|]. apply move_ok.
    + split; [by apply hub_le_same|by apply hub_ok_same].
    + apply Forall_fmap, Forall_forall. done.
Qed.

(** ** Every reachable state *)

Lemma channel_topic topic : topic ∈ ["events"; "jobs"; "functions"] -> forall c, topic <> topic_of c.
Proof.
  intros Ht c ->. unfold topic_of in Ht. rewrite !elem_of_cons, elem_of_nil in Ht.
  destruct Ht as [H|[H|[H|[]]]]; discriminate H.
Qed.

Lemma function_sessions_v1 app h : hub_ok h -> handlers h (FunctionSessions app h).
Proof.
  intros Hok id Hid. unfold FunctionSessions in Hid. unfold sort_strings in Hid. rewrite merge_sort_Permutation in Hid.
  apply list_elem_of_fmap in Hid as ([[i s] topics] & -> & Hin%list_elem_of_In).
  apply filter_In in Hin as [Hin%list_elem_of_In Hsel]. apply members_known in Hin as [Ho Hs]. exists s. split; [done|].
  apply andb_prop in Hsel as [_ Ht%bool_decide_eq_true]. destruct (is_v2 s) eqn:Hv; [|done].
  destruct (ho_member _ Hok _ _ Hs) as (s' & Ho' & Htop). assert (s' = s) as -> by congruence.
  destruct (Htop Hv _ Ht) as (c & Hc & _). exfalso. by apply (channel_topic "functions" (ltac:(rewrite !elem_of_cons; tauto)) c).
Qed.

Lemma entry_ok h ts : hub_ok h -> entry h ts -> tasks_ok h ts.
Proof.
  intros Hok He. destruct He; each; try done.
  - by exists s.
  - apply Forall_fmap, Forall_forall. intros target _. right. apply channel_topic. rewrite !elem_of_cons. tauto.
  - right. apply channel_topic. rewrite !elem_of_cons. tauto.
  - unfold PublishChannel. destruct (Channel.ValidRealtimeChannel _); each. by left.
  - unfold Deliver. destruct (bool_decide _).
    { destruct (sf_Event frame); [|constructor]. destruct (bool_decide _); each. right. apply channel_topic. rewrite !elem_of_cons. tauto. }
    destruct (bool_decide _); [|constructor]. destruct (sf_Job frame) as [[target st]|]; [|constructor].
    destruct (bool_decide _); each. right. apply channel_topic. rewrite !elem_of_cons. tauto.
  - unfold InvokeFunction. destruct (dp_functions _); each. by apply function_sessions_v1.
  - unfold DisconnectConnection. destruct (member h connection) as [[s topics]|]; [|constructor].
    destruct (bool_decide _); by each.
Qed.

Lemma written_grows id h : grows h (written id h).
Proof.
  apply on_session_grows; [by intros; repeat split|]. intros s _ [H1 H2 H3 H4 H5 H6].
  split; try done; cbn [set_outbound ss_outbound].
  - destruct (ss_outbound s); cbn in *; lia.
  - intros f Hf. apply H4. destruct (ss_outbound s); [by apply elem_of_nil in Hf|by right].
Qed.

Lemma sys_step_ok s s' : sys_step s s' -> sys_ok s -> sys_ok s'.
Proof.
  intros Hstep [Hh Ht]. destruct Hstep as [s i t rest o Hi|s i ts Hi He|s id].
  - pose proof (Ht i _ Hi) as Hts. apply Forall_cons in Hts as [Htask Hrest].
    destruct (step_ok o t (sy_hub s) Hh Htask) as [[Hle Hok] Hnew]. split; cbn; [auto|].
    intros j us. rewrite lookup_insert_Some. intros [[<- <-]|[_ Hj]].
    + apply Forall_app. split; [done|by eapply tasks_ok_le].
    + eapply tasks_ok_le; [done|eauto].
  - split; cbn; [done|]. intros j us. rewrite lookup_insert_Some. intros [[<- <-]|[_ Hj]]; [by apply entry_ok|eauto].
  - destruct (written_grows id (sy_hub s)) as [Hle Hok]. split; cbn; [auto|]. intros j us Hj.
    eapply tasks_ok_le; [done|eauto].
Qed.
Lemma initial_ok deps routes : sys_ok (initial deps routes).
Proof. split; [split|]; cbn; intros ? ?; by rewrite lookup_empty. Qed.
Lemma reachable_ok deps routes s : reachable deps routes s -> sys_ok s.
Proof.
  intros Hr. unfold reachable in Hr. remember (initial deps routes) as s0 eqn:E.
  assert (sys_ok s0) as H0 by (subst; apply initial_ok). clear E. induction Hr; [done|]. eauto using sys_step_ok.
Qed.

(** ** Whose requests the answers answer *)

(** The frames each session has sent, as they are read in a run of the system. *)
Definition read_by (t : task) : list (string * ClientFrame) :=
  match t with TFrame id frame => [(id, frame)] | _ => [] end.
Inductive runs (deps : Deps) (routes : bool) : System -> list (string * ClientFrame) -> Prop :=
| runs_initial : runs deps routes (initial deps routes) []
| runs_task s log i t rest o :
    runs deps routes s log -> sy_threads s !! i = Some (t :: rest) ->
    runs deps routes (mkSystem (step o t (sy_hub s)).1.1
                        (<[i := ((step o t (sy_hub s)).1.2 ++ rest)%list]> (sy_threads s))
                        (sy_calls s ++ (step o t (sy_hub s)).2)%list) (log ++ read_by t)%list
| runs_start s log i ts :
    runs deps routes s log -> sy_threads s !! i = None -> entry (sy_hub s) ts ->
    runs deps routes (mkSystem (sy_hub s) (<[i := ts]> (sy_threads s)) (sy_calls s)) log
| runs_write s log id :
    runs deps routes s log -> runs deps routes (mkSystem (written id (sy_hub s)) (sy_threads s) (sy_calls s)) log.

Lemma runs_reachable deps routes s log : runs deps routes s log -> reachable deps routes s.
Proof.
  induction 1 as [|s log i t rest o Hr IH Hi|s log i ts Hr IH Hi He|s log id Hr IH]; [apply rtc_refl| | |];
    (eapply rtc_r; [exact IH|]); by constructor.
Qed.
Lemma reachable_runs deps routes s : reachable deps routes s -> exists log, runs deps routes s log.
Proof.
  revert s. apply (rtc_ind_r (fun s => exists log, runs deps routes s log)).
  - exists []. constructor.
  - intros x y _ Hstep [log IH]. destruct Hstep; eexists; by econstructor.
Qed.

(** The kinds of frames that answer a request, and the requests they answer. *)
Definition answer_kinds : list string :=
  ["error"; "subscribed"; "unsubscribed"; "pong"; "channel.publish.batch.result"; "history.result";
   "message.actions.result"].
Definition answers (frame : ClientFrame) (f : ServerFrame) : Prop :=
  sf_Type f = "error"
  \/ sf_Type f = "subscribed" /\ cf_Type frame = "subscribe" /\ sf_Channels f = cf_Channels frame
  \/ sf_Type f = "unsubscribed" /\ cf_Type frame = "unsubscribe" /\ sf_Channels f = cf_Channels frame
  \/ sf_Type f = "pong" /\ cf_Type frame = "ping"
  \/ sf_Type f = "channel.publish.batch.result" /\ cf_Type frame = "channel.publish.batch"
  \/ sf_Type f = "history.result"
     /\ (cf_Type frame = "history.get" /\ sf_Channel f = cf_Channel frame
         \/ cf_Type frame = "subscribe" /\ is_Some (cf_Rewind frame) /\ sf_Channel f ∈ cf_Channels frame)
  \/ sf_Type f = "message.actions.result" /\ cf_Type frame = "message.actions.get"
     /\ sf_Channel f = cf_Channel frame /\ sf_MessageID f = cf_MessageID frame.
Definition asked (log : list (string * ClientFrame)) (id : string) (f : ServerFrame) : Prop :=
  exists frame, (id, frame) ∈ log /\ answers frame f.

(** A session that has sent something, and one that has sent a batch. *)
Definition heard (log : list (string * ClientFrame)) (id : string) : Prop := exists frame, (id, frame) ∈ log.
Definition batched (log : list (string * ClientFrame)) (id : string) : Prop :=
  exists frame, (id, frame) ∈ log /\ cf_Type frame = "channel.publish.batch".
Definition awaited (log : list (string * ClientFrame)) (id : string) (to : reply) : Prop :=
  heard log id /\ match to with RSingle => True | RBatch _ _ _ => batched log id end.

(** A task that sends answers to a session goes back to a frame of that session. *)
Fixpoint owed (log : list (string * ClientFrame)) (t : task) : Prop :=
  match t with
  | TSend id f => sf_Type f ∈ answer_kinds -> asked log id f
  | TPersist id granted | TRate id _ granted => heard log id /\ foldr and True (map (owed log) granted)
  | TRewind id channels _ all _ _ => exists frame, (id, frame) ∈ log /\ cf_Type frame = "subscribe"
      /\ is_Some (cf_Rewind frame) /\ all = cf_Channels frame /\ channels ⊆ cf_Channels frame
  | TPrepared id _ to | TDeliverReply id _ _ to => awaited log id to
  | TPreflight id _ _ _ | TRates id _ _ _ => batched log id
  | TFile id _ | TUpsert id _ _ _ _ => heard log id
  | TDispatch _ _ failed done => foldr and True (map (owed log) failed) /\ foldr and True (map (owed log) done)
  | TPublish _ _ f => sf_Type f ∉ answer_kinds
  | _ => True
  end.

Section owed.
Context (log : list (string * ClientFrame)).

Lemma owed_more log' t : log ⊆ log' -> owed log t -> owed log' t.
Proof.
  intros Hle. assert (forall l, Forall (fun t => owed log t -> owed log' t) l ->
    Forall (owed log) l -> Forall (owed log') l) as Hall.
  { intros l IH Hl. rewrite Forall_forall in *. eauto. }
  apply (task_nested (fun t => owed log t -> owed log' t)); clear t.
  - intros id l IH. cbn [owed]. rewrite !foldr_and. unfold heard. intros [[fr Hk] Hl]. split; [exists fr; set_solver|auto].
  - intros id c l IH. cbn [owed]. rewrite !foldr_and. unfold heard. intros [[fr Hk] Hl]. split; [exists fr; set_solver|auto].
  - intros a f l m IHl IHm. cbn [owed]. rewrite !foldr_and. intros [Hl Hm]. auto.
  - intros t. destruct t; try done; cbn [owed]; unfold awaited, heard, batched, asked;
      try (destruct to); naive_solver.
Qed.

Lemma owed_error id e : heard log id -> owed log (send_error id e).
Proof using Type. intros [fr Hf] _. exists fr. split; [done|]. by left. Qed.
Lemma owed_batch id outcomes : batched log id -> owed log (TSend id (batch_frame outcomes)).
Proof using Type. intros (fr & Hf & Ht) _. exists fr. split; [done|]. do 4 right. by left. Qed.
Lemma batched_heard id : batched log id -> heard log id.
Proof using Type. intros (fr & Hf & _). by exists fr. Qed.
Lemma owed_answer id to r : awaited log id to -> Forall (owed log) (answer id to r).
Proof using Type.
  intros [Hh Hto]. unfold answer. destruct to as [|item [|next rest] outcomes].
  - destruct r; each. by apply owed_error.
  - each. by apply owed_batch.
  - by each.
Qed.
Lemma owed_persist id granted : heard log id -> Forall (owed log) granted -> owed log (TPersist id granted).
Proof using Type. intros Hk Hg. cbn [owed]. by rewrite foldr_and. Qed.
Lemma owed_rate id channel granted : heard log id -> Forall (owed log) granted -> owed log (TRate id channel granted).
Proof using Type. intros Hk Hg. cbn [owed]. by rewrite foldr_and. Qed.
Lemma owed_dispatch app f failed done :
  Forall (owed log) failed -> Forall (owed log) done -> owed log (TDispatch app f failed done).
Proof using Type. intros Hf Hd. cbn [owed]. by rewrite !foldr_and. Qed.

(** Deliveries are no answers. *)
Lemma delivery_kind app f : validV2Delivery app f = true -> sf_Type f ∉ answer_kinds.
Proof using Type.
  intros Hv Hin. unfold answer_kinds in Hin. rewrite !elem_of_cons, elem_of_nil in Hin.
  unfold validV2Delivery in Hv. destruct (_ || _); [done|]. cbv zeta in Hv.
  destruct Hin as [H|[H|[H|[H|[H|[H|[H|[]]]]]]]]; rewrite H in Hv; cbn in Hv; done.
Qed.
Lemma owed_deliver o app f h : Forall (owed log) (deliver o app f h).1.2.
Proof using Type.
  unfold deliver, deliver_locked. destruct (validV2Delivery app f) eqn:Hv; [|constructor]. cbn [negb fst snd].
  apply Forall_app. split; apply Forall_forall; intros t (i & <- & _)%list_elem_of_In%in_map_iff; [done|].
  intros Hin. by apply (delivery_kind app f Hv) in Hin.
Qed.
Lemma history_kind o id channel cursor limit h page :
  HistoryV2 o id channel cursor limit h = inl page -> sf_Type page = "history.result" /\ sf_Channel page = channel.
Proof using Type.
  unfold HistoryV2, HistoryForApp. repeat case_match; try done; intros; by simplify_eq.
Qed.

End owed.

(** What a frame of a session leaves to do is owed to it. *)
Section frames.
Context (log : list (string * ClientFrame)) (id : string) (frame : ClientFrame) (read : (id, frame) ∈ log).

#[local] Lemma is_heard : heard log id.
Proof using read. by exists frame. Qed.
Lemma owed_sub topics :
  cf_Type frame = "subscribe" -> owed log (TSend id (subscription_frame "subscribed" topics (cf_Channels frame))).
Proof using read. intros Ht _. exists frame. split; [done|]. right. by left. Qed.
Lemma owed_rewind topics rewind :
  cf_Type frame = "subscribe" -> cf_Rewind frame = Some rewind ->
  owed log (TRewind id (cf_Channels frame) topics (cf_Channels frame) rewind []).
Proof using read. intros Ht Hr. exists frame. rewrite Hr. by split_and!. Qed.
Lemma owed_pong : cf_Type frame = "ping" -> owed log (TSend id (typed "pong")).
Proof using read. intros Ht _. exists frame. split; [done|]. do 3 right. by left. Qed.

Lemma frame_v1_owed o h : Forall (owed log) (frame_v1 o id frame h).1.2.
Proof using read.
  pose proof is_heard as Hk. unfold frame_v1. cbv zeta. case_bool_decide as Ht.
  { destruct (Subscribe _ _ _ _) as [h1 v]. cbn. each. destruct v; [by apply owed_error|].
    destruct (cf_Rewind frame) eqn:Hr; [by apply owed_rewind|by apply owed_sub]. }
  case_bool_decide as Hp; [each; by apply owed_pong|]. case_bool_decide; [|constructor].
  destruct (negb _); [each; by apply owed_error|]. destruct (_ || _); [each; by apply owed_error|]. cbn.
  destruct (or_ok o); each. by apply owed_error.
Qed.

Lemma frame_v2_owed o h : Forall (owed log) (frame_v2 o id frame h).1.2.
Proof using read.
  pose proof is_heard as Hk. assert (forall e, Forall (owed log) [send_error id e]) as Herr.
  { intros e. each. by apply owed_error. }
  unfold frame_v2. cbv zeta. case_bool_decide as Ht.
  { destruct (subscribeV2 _ _ _ h) as [h1 [e|]]; [apply Herr|]. cbn. each. apply owed_persist; [done|].
    destruct (cf_Rewind frame) eqn:Hr; each; [by apply owed_rewind|by apply owed_sub]. }
  case_bool_decide as Hu.
  { destruct (unsubscribeV2 _ _ h) as [h1 [e|]]; [apply Herr|]. cbn. each. apply owed_persist; [done|]. each.
    intros _. exists frame. split; [done|]. do 2 right. by left. }
  case_bool_decide. { destruct (publishV2 _ _ _); [apply Herr|]. cbn. each. apply owed_rate; [done|]. each. by split. }
  case_bool_decide as Hb.
  { assert (batched log id) as Hba by by exists frame. destruct (validatePublishItems _); [|by cbn; each].
    destruct (rejects _); cbn; each; [by apply owed_batch|done]. }
  case_bool_decide as Hg.
  { destruct (HistoryV2 _ _ _ _ _ _) as [page|e] eqn:Hh; [|apply Herr]. apply history_kind in Hh as [Hty Hch]. cbn. each.
    intros _. exists frame. split; [done|]. do 5 right. left. rewrite Hty. auto. }
  case_bool_decide. { destruct (UpdatePresence _ _ h) as [h1 [[j n]|e]]; [by cbn; each|apply Herr]. }
  assert (forall app f, Forall (owed log) [TDispatch app f [send_error id routing_unavailable] []]) as Hact.
  { intros app f. each. apply owed_dispatch; [apply Herr|constructor]. }
  case_bool_decide.
  { destruct (validateActionSource _ _ _); [apply Herr|]. destruct (_ || _); [apply Herr|].
    destruct (negb _); [apply Herr|]. destruct (or_action o); [apply Hact|apply Herr]. }
  case_bool_decide as Ha.
  { destruct (validateActionSource _ _ _); [apply Herr|]. destruct (isSome _); [apply Herr|].
    destruct (negb _); [apply Herr|]. destruct (or_actions o); [|apply Herr]. cbn. each. intros _. exists frame.
    split; [done|]. do 6 right. done. }
  case_bool_decide.
  { destruct (validateActionSource _ _ _); [apply Herr|]. destruct (_ || _); [apply Herr|].
    destruct (negb _); [apply Herr|]. destruct (or_action o); [apply Hact|apply Herr]. }
  case_bool_decide. { destruct (PublishFileV2 _ _ _); [apply Herr|]. cbn. each. apply owed_rate; [done|]. by each. }
  case_bool_decide as Hp; [each; by apply owed_pong|constructor].
Qed.
End frames.

Section owed_steps.
Context (log : list (string * ClientFrame)) (o : Oracle) (h : Hub).

Lemma rewind_owed id channels topics all rewind pages :
  owed log (TRewind id channels topics all rewind pages) ->
  Forall (owed log) (step o (TRewind id channels topics all rewind pages) h).1.2.
Proof using Type.
  intros (frame & Hin & Ht & Hr & -> & Hsub). run_step.
  assert (owed log (TSend id (subscription_frame "subscribed" topics (cf_Channels frame)))) as Hs.
  { by apply owed_sub. }
  destruct channels as [|channel rest]; [by cbn; each|].
  destruct (HistoryV2 o id channel _ _ h) as [page|e] eqn:Hh; cbn; each; try done.
  - apply history_kind in Hh as [Hty Hch]. intros _. exists frame. split; [done|]. do 5 right. left. rewrite Hty, Hch.
    split; [done|]. right. split_and!; try done. set_solver.
  - exists frame. split_and!; try done. set_solver.
  - apply owed_error. by exists frame.
Qed.
Lemma dispatch_owed app f failed done :
  owed log (TDispatch app f failed done) -> Forall (owed log) (step o (TDispatch app f failed done) h).1.2.
Proof using Type.
  cbn [owed]. rewrite !foldr_and. intros [Hf Hd]. run_step. destruct (dp_publisher _); [by destruct (or_ok o)|].
  pose proof (owed_deliver log o app f h) as Hs. destruct (deliver o app f h) as [[h1 sends] n]. by apply Forall_app.
Qed.
Lemma batch_owed t :
  match t with TPreflight _ _ _ _ | TRates _ _ _ _ => True | _ => False end ->
  owed log t -> Forall (owed log) (step o t h).1.2.
Proof using Type.
  destruct t as [| | | | | | | | | | | | | |id items todo codes|id items todo codes| | | | | | | | | | | | |];
    try done; intros _ Hb; assert (batched log id) as Hk by exact Hb; run_step;
    (destruct todo as [|item rest]; [|by cbn; each]);
    (destruct (rejects codes); [cbn; each; by apply owed_batch|]).
  - by cbn; each.
  - destruct items; cbn; each; [by apply owed_batch|]. split; [by apply batched_heard|done].
Qed.
Lemma publish_owed id request to :
  awaited log id to -> Forall (owed log) (step o (TPrepared id request to) h).1.2.
Proof using Type.
  intros Ha. run_step. destruct (hb_objects h !! id) as [s|]; [|constructor].
  destruct (prepare _ _ _ _) as [calls [e|]]; [by apply owed_answer|].
  destruct (dp_publisher _); [|by cbn; each]. destruct (or_ok o); by apply owed_answer.
Qed.

(** What a step leaves to do is owed, once the frame it read is counted. *)
Lemma step_owed t : owed log t -> Forall (owed (log ++ read_by t)%list) (step o t h).1.2.
Proof using Type.
  intros Ht. destruct t; try (cbn [read_by]; rewrite app_nil_r).
  - run_step. destruct (register _ _ _ _ _ h). cbn. destruct (_ && _ && _); by each.
  - run_step. cbn. destruct (or_ok o); by each.
  - run_step. destruct (negb _); [constructor|]. cbn. destruct (or_ok o); by each.
  - run_step. destruct (hb_objects h !! id) as [s|]; [|constructor].
    assert ((id, frame) ∈ (log ++ read_by (TFrame id frame))%list) by set_solver.
    destruct (is_v2 s); [by apply frame_v2_owed|by apply frame_v1_owed].
  - run_step. destruct (send id frame h) as [h1 [[]|]]; by cbn; each.
  - run_step. destruct (done_of id h); by cbn; each.
  - run_step. destruct (close_locked o id h) as [h1 leaves]. cbn. by apply Forall_fmap, Forall_forall.
  - run_step. cbn. each. apply owed_dispatch; by each.
  - cbn [owed] in Ht. rewrite foldr_and in Ht. destruct Ht as [Hk Hg]. run_step.
    destruct (member h id) as [[s topics]|]; [|cbn; each; by apply owed_error].
    destruct (_ || _); [done|]. cbn. each; [done|by apply owed_error].
  - by apply rewind_owed.
  - run_step. destruct frames; [by cbn; each|]. destruct (_ && _); [by cbn; each|].
    destruct (send _ _ h) as [h1 [[]|]]; by cbn; each.
  - run_step. destruct (member h id) as [[s topics]|]; [|constructor]. destruct (ss_rewindBuffer s); by cbn; each.
  - cbn [owed] in Ht. rewrite foldr_and in Ht. destruct Ht as [Hk Hg]. run_step. cbn.
    destruct (ratePublishV2 o h); [|done]. each. by apply owed_error.
  - by apply publish_owed.
  - by apply batch_owed.
  - by apply batch_owed.
  - run_step. destruct (hb_objects h !! id) as [s|], (or_file o) as [file|e]; cbn; each; try (by apply owed_error).
    destruct (prepare _ _ _ _) as [calls [e|]]; cbn; each; [by apply owed_error|].
    apply owed_dispatch; each; try done. by apply owed_error.
  - run_step. destruct (dp_presence _), (or_present o) as [[j n]|]; cbn; each; try done; try (by apply owed_error);
      (apply owed_dispatch; each; [done|by apply owed_error|done]).
  - by apply dispatch_owed.
  - run_step. pose proof (owed_deliver log o app frame h) as Hs. by destruct (deliver o app frame h) as [[h1 sends] n].
  - run_step. pose proof (owed_deliver log o (sf_AppID frame) frame h) as Hs.
    destruct (deliver o _ frame h) as [[h1 sends] n]. cbn. apply Forall_app. split; [done|].
    apply Forall_cons_2; [done|]. by apply owed_answer.
  - by constructor.
  - run_step. cbn. apply Forall_fmap, Forall_forall. intros i _ Hin. by apply Ht in Hin.
  - run_step. destruct ids; [constructor|]. destruct (_ || _); by cbn; each.
  - run_step. destruct (done_of id h); [by cbn; each|]. destruct (or_ok o); by cbn; each.
  - run_step. destruct (send id frame h) as [h1 [[]|]]; by cbn; each.
  - by constructor.
  - run_step. destruct (negb _); [constructor|]. cbn. apply Forall_concat, Forall_forall.
    intros l (n & ac & -> & _)%elem_of_lookup_imap. destruct (or_expired o ac.1 ac.2) as [[expired occ]|]; [|constructor].
    apply Forall_concat, Forall_forall. intros l' (m & c & -> & _)%elem_of_lookup_imap. each. apply owed_dispatch; by each.
  - run_step. destruct (hb_closed h); [constructor|]. cbn. by apply Forall_fmap, Forall_forall.
Qed.
End owed_steps.

(** *** What gets into the queues of version 2 sessions *)

Definition queued (h : Hub) (id : string) (f : ServerFrame) : Prop :=
  exists x, hb_objects h !! id = Some x /\ is_v2 x = true /\ f ∈ ss_outbound x.
Definition no_more (h h' : Hub) : Prop := forall id f, queued h' id f -> queued h id f.
#[export] Instance no_more_preorder : PreOrder no_more.
Proof. split; [by intros h id f|]. intros h1 h2 h3 H12 H23 id f Hq. by apply H12, H23. Qed.

Lemma objects_no_more h h' : hb_objects h' = hb_objects h -> no_more h h'.
Proof. intros Ho id f. unfold queued. by rewrite Ho. Qed.
Lemma on_session_no_more g id h :
  (forall s, ss_outbound (g s) = ss_outbound s /\ ss_protocol (g s) = ss_protocol s) -> no_more h (on_session g id h).
Proof.
  intros Hg i f (x & Hx & Hv & Hf). cbn in Hx. destruct (decide (i = id)) as [->|Hne].
  - rewrite lookup_alter_eq in Hx. apply fmap_Some in Hx as (s & Hs & ->). destruct (Hg s) as [Ho Hp].
    exists s. unfold is_v2 in *. rewrite Ho in Hf. by rewrite Hp in Hv.
  - rewrite lookup_alter_ne in Hx by done. by exists x.
Qed.
Lemma register_no_more id app protocol client capabilities h :
  no_more h (register id app protocol client capabilities h).1.
Proof.
  unfold register. destruct (hb_objects h !! id) as [s0|]; [reflexivity|]. cbv zeta.
  intros i f Hq. assert (exists x, <[id := new_session app protocol client capabilities
    (hb_closed h || bool_decide (app = "") || bool_decide (protocol = ProtocolV2) && bool_decide (client = ""))]> (hb_objects h) !! i = Some x
    /\ is_v2 x = true /\ f ∈ ss_outbound x) as (x & Hx & Hv & Hf) by (by destruct (_ || _)).
  apply lookup_insert_Some in Hx as [[_ <-]|[_ Hx]]; [by apply elem_of_nil in Hf|by exists x].
Qed.
Lemma Subscribe_no_more id topics ensured h : no_more h (Subscribe id topics ensured h).1.
Proof. apply objects_no_more. unfold Subscribe. by repeat case_match. Qed.
Lemma subscribeV2_no_more id channels rewind h : no_more h (subscribeV2 id channels rewind h).1.
Proof.
  unfold subscribeV2. repeat case_match; try reflexivity.
  - etransitivity; [|by apply on_session_no_more]. by apply objects_no_more.
  - by apply objects_no_more.
Qed.
Lemma unsubscribeV2_no_more id channels h : no_more h (unsubscribeV2 id channels h).1.
Proof. apply objects_no_more. unfold unsubscribeV2. by repeat case_match. Qed.
Lemma UpdatePresence_no_more id request h : no_more h (UpdatePresence id request h).1.
Proof. unfold UpdatePresence. repeat case_match; try reflexivity. by apply on_session_no_more. Qed.
Lemma close_locked_no_more o id h : no_more h (close_locked o id h).1.
Proof. apply objects_no_more. unfold close_locked. by repeat case_match. Qed.
Lemma deliver_no_more o app f h : no_more h (deliver o app f h).1.1.
Proof.
  destruct (validV2Delivery app f) eqn:Hv.
  2:{ unfold deliver, deliver_locked. rewrite Hv. reflexivity. }
  intros id g (x & Hx & Hv2 & Hg).
  pose proof (deliver_locked_objects app f (or_now o) h id Hv) as Ho. unfold deliver in Hx.
  destruct (deliver_locked app f (or_now o) h) as [[[h1 overflow] targets] count]. cbn [fst] in Hx, Ho.
  rewrite Hx in Ho. symmetry in Ho. apply fmap_Some in Ho as (s & Hs & ->). exists s. split; [done|].
  destruct (hb_sessions h !! id) as [topics|]; [|done]. revert Hv2 Hg. unfold selected, is_v2.
  destruct (selects _ _ _ _ _ _); repeat case_match; done.
Qed.
Lemma send_queued id f h i g : queued (send id f h).1 i g -> queued h i g \/ i = id /\ g = f /\ exists x, hb_objects h !! id = Some x /\ is_v2 x = true.
Proof.
  unfold send. destruct (hb_objects h !! id) as [s|] eqn:Hs; [|by left]. destruct (ss_done s); [by left|].
  destruct (_ <? _)%nat; [|by left]. cbn [fst]. intros (x & Hx & Hv & Hg). cbn in Hx.
  destruct (decide (i = id)) as [->|Hne].
  - rewrite lookup_alter_eq, Hs in Hx. injection Hx as <-. cbn in Hg.
    apply elem_of_app in Hg as [Hg|Hg%list_elem_of_singleton]; [by left; exists s|right]. split_and!; eauto.
  - rewrite lookup_alter_ne in Hx by done. left. by exists x.
Qed.

Lemma read_no_more o id frame h : no_more h (read_frame o id frame h).1.1.
Proof.
  unfold read_frame. destruct (hb_objects h !! id) as [s|]; [|reflexivity]. destruct (is_v2 s).
  - unfold frame_v2. cbv zeta.
    pose proof (subscribeV2_no_more id (cf_Channels frame) (isSome (cf_Rewind frame)) h).
    pose proof (unsubscribeV2_no_more id (cf_Channels frame) h).
    pose proof (UpdatePresence_no_more id frame h).
    destruct (subscribeV2 _ _ _ h) as [h1 v1], (unsubscribeV2 _ _ h) as [h2 v2], (UpdatePresence _ _ h) as [h3 v3].
    repeat case_match; done.
  - unfold frame_v1. cbv zeta. pose proof (Subscribe_no_more id (cf_Topics frame) (or_ok o) h).
    destruct (Subscribe _ _ _ h) as [h1 v1]. repeat case_match; done.
Qed.

(** An answer that a step puts into a queue was owed. *)
Lemma step_queued log o t h id f :
  task_ok h t -> owed log t -> queued (step o t h).1.1 id f -> sf_Type f ∈ answer_kinds ->
  queued h id f \/ asked log id f.
Proof.
  intros Hok Ht Hq Hk.
  assert (no_more h (step o t h).1.1 -> queued h id f \/ asked log id f) as Hno by (left; auto).
  destruct t; try (apply Hno; reflexivity).
  - apply Hno. run_step. pose proof (register_no_more id0 app protocol client capabilities h). by destruct (register _ _ _ _ _ _).
  - apply Hno. run_step. by destruct (negb _).
  - apply Hno. apply read_no_more.
  - revert Hq. run_step. pose proof (send_queued id0 frame h id f) as Hs. destruct (send id0 frame h) as [h1 sent].
    intros Hq. destruct (Hs Hq) as [|(-> & -> & _)]; [by left|right; by apply Ht].
  - apply Hno. run_step. destruct (done_of _ _); [done|by apply on_session_no_more].
  - apply Hno. run_step. pose proof (close_locked_no_more o id0 h). by destruct (close_locked _ _ _).
  - apply Hno. run_step. by repeat case_match.
  - apply Hno. run_step. by repeat case_match.
  - destruct Hok as (s & Hs & Hd). revert Hq. run_step. destruct frames as [|g rest]; [by left|].
    destruct (_ && _); [by left|]. pose proof (send_queued id0 g h id f) as Hq. destruct (send id0 g h) as [h1 sent].
    intros Hin. destruct (Hq Hin) as [|(-> & -> & _)]; [by left|].
    destruct (Hd g (list_elem_of_here _ _)) as (_ & _ & Hv & _). by apply (delivery_kind _ _ Hv) in Hk.
  - apply Hno. run_step. destruct (member h id0) as [[s topics]|]; [|done].
    destruct (ss_rewindBuffer s); by apply on_session_no_more.
  - apply Hno. run_step. by repeat case_match.
  - apply Hno. run_step. by repeat case_match.
  - apply Hno. run_step. by repeat case_match.
  - apply Hno. run_step. by repeat case_match.
  - apply Hno. run_step. by repeat case_match.
  - apply Hno. run_step. destruct (dp_publisher _); [done|]. pose proof (deliver_no_more o app frame h). by destruct (deliver _ _ _ _) as [[]].
  - apply Hno. run_step. pose proof (deliver_no_more o app frame h). by destruct (deliver _ _ _ _) as [[]].
  - apply Hno. run_step. pose proof (deliver_no_more o (sf_AppID frame) frame h). by destruct (deliver _ _ _ _) as [[]].
  - apply Hno. run_step. by repeat case_match.
  - apply Hno. run_step. by repeat case_match.
  - destruct (Hok id0) as (s & Hs & Hv); [by left|]. revert Hq. run_step. pose proof (send_queued id0 frame h id f) as Hq.
    destruct (send id0 frame h) as [h1 sent]. intros Hin. assert (queued h1 id f) as Hin' by by destruct sent as [[]|].
    destruct (Hq Hin') as [|(_ & _ & x & Hx & Hx2)]; [by left|]. congruence.
  - apply Hno. run_step. by destruct (negb _).
  - apply Hno. run_step. destruct (hb_closed h); [done|by apply objects_no_more].
Qed.

Lemma entry_owed log h ts : entry h ts -> Forall (owed log) ts.
Proof.
  assert (("event" ∉ answer_kinds) /\ ("job.updated" ∉ answer_kinds) /\ ("channel.message" ∉ answer_kinds)) as (He & Hj & Hc).
  { split_and!; apply (bool_decide_unpack _); vm_compute; exact I. }
  intros Hent. destruct Hent; each; try done.
  - by apply Forall_fmap, Forall_forall.
  - unfold PublishChannel. destruct (Channel.ValidRealtimeChannel _); by each.
  - unfold Deliver. case_bool_decide as Ht.
    { destruct (sf_Event frame); [|constructor]. destruct (bool_decide _); each. cbn. by rewrite Ht. }
    case_bool_decide as Ht'; [|constructor]. destruct (sf_Job frame) as [[target st]|]; [|constructor].
    destruct (bool_decide _); each. cbn. by rewrite Ht'.
  - unfold InvokeFunction. destruct (dp_functions _); by each.
  - unfold DisconnectConnection. destruct (member h connection) as [[s topics]|]; [|constructor].
    destruct (bool_decide _); by each.
Qed.

(** In a run, an answer in the queue of a version 2 session answers a frame that this
    session has sent. *)
Lemma runs_owed deps routes s log :
  runs deps routes s log ->
  (forall i ts, sy_threads s !! i = Some ts -> Forall (owed log) ts)
  /\ (forall id f, queued (sy_hub s) id f -> sf_Type f ∈ answer_kinds -> asked log id f).
Proof.
  induction 1 as [|s log i t rest o Hr [IHt IHq] Hi|s log i ts Hr [IHt IHq] Hi He|s log id Hr [IHt IHq]]; cbn.
  - split; [intros i ts; by rewrite lookup_empty|]. intros id f (x & Hx & _). cbn in Hx. by rewrite lookup_empty in Hx.
  - pose proof (sk_tasks _ (reachable_ok _ _ _ (runs_reachable _ _ _ _ Hr)) _ _ Hi) as [Hok _]%Forall_cons.
    pose proof (IHt _ _ Hi) as [Ht Hrest]%Forall_cons.
    assert (forall u, owed log u -> owed (log ++ read_by t)%list u) as Hmore
      by (intros u; apply owed_more; set_solver).
    split.
    + intros j us. rewrite lookup_insert_Some. intros [[<- <-]|[_ Hj]].
      * apply Forall_app. split; [by apply step_owed|]. by eapply Forall_impl.
      * eapply Forall_impl; [by eapply IHt|done].
    + intros id f Hq Hk. apply (Hmore (TSend id f)); [|done]. intros _.
      destruct (step_queued log o t _ id f Hok Ht Hq Hk) as [Hold|Hnew]; [by apply IHq|done].
  - split; [|done]. intros j us. rewrite lookup_insert_Some. intros [[<- <-]|[_ Hj]]; [by eapply entry_owed|by eapply IHt].
  - split; [done|]. intros i f (x & Hx & Hv & Hf). apply IHq. cbn in Hx. destruct (decide (i = id)) as [->|Hne].
    + rewrite lookup_alter_eq in Hx. apply fmap_Some in Hx as (y & Hy & ->). exists y. split_and!; [done|done|].
      cbn in Hf. destruct (ss_outbound y); [by apply elem_of_nil in Hf|by right].
    + rewrite lookup_alter_ne in Hx by done. by exists x.
Qed.
