(* ===== verification/RealtimeClosing.v ===== *)
(** * Registration, closing and function routes

    What the steps of the hub do to who is registered, who is closed, and which
    applications have a function route: only a few of them change any of it. *)

From Stdlib Require Import Ascii String ZifyBool.
From S2P Require Import Prelude GoLib Crypto Json Domain QueueSchema RealtimeProtocol RealtimeHub RealtimeTasks RealtimeSystem RealtimeSteps.
Import Realtime Hub Tasks.

(** ** Steps that leave it alone *)

(** What is looked at: whether a session is closed, its application, and whether it
    is registered and handles functions. *)
Definition seat (h : Hub) (id : string) : option (bool * string) * option bool :=
  ((fun s => (ss_done s, ss_appID s)) <$> hb_objects h !! id,
   (fun topics => bool_decide ("functions" ∈ topics)) <$> hb_sessions h !! id).
Definition steady (h h' : Hub) : Prop :=
  hb_closed h' = hb_closed h /\ hb_routes h' = hb_routes h /\ forall id, seat h' id = seat h id.
#[export] Instance steady_preorder : PreOrder steady.
Proof.
  split; [by intros h|]. intros h1 h2 h3 (C1 & R1 & S1) (C2 & R2 & S2). repeat split; [congruence|congruence|].
  intros id. by rewrite S2.
Qed.

Lemma on_session_steady f id h :
  (forall s, ss_done (f s) = ss_done s /\ ss_appID (f s) = ss_appID s) -> steady h (on_session f id h).
Proof.
  intros Hf. repeat split. intros i. unfold seat. cbn. f_equal. destruct (decide (i = id)) as [->|Hne].
  - rewrite lookup_alter_eq. destruct (hb_objects h !! id) as [s|]; [|done]. cbn. by destruct (Hf s) as [-> ->].
  - by rewrite lookup_alter_ne.
Qed.
Lemma retopic_steady id topics topics' h :
  hb_sessions h !! id = Some topics -> ("functions" ∈ topics' <-> "functions" ∈ topics) ->
  steady h (with_sessions (<[id := topics']> (hb_sessions h)) h).
Proof.
  intros Hs Ht. repeat split. intros i. unfold seat. cbn. f_equal. destruct (decide (i = id)) as [->|Hne].
  - rewrite lookup_insert_eq, Hs. cbn. f_equal. by apply bool_decide_ext.
  - by rewrite lookup_insert_ne.
Qed.
Lemma functions_channels channels : "functions" ∉ (list_to_set (topic_of <$> channels) : gset string).
Proof.
  rewrite elem_of_list_to_set, list_elem_of_fmap. intros (c & Hc & _).
  by apply (channel_topic "functions" ltac:(rewrite !elem_of_cons; tauto) c).
Qed.
Lemma subscribeV2_steady id channels rewind h : steady h (subscribeV2 id channels rewind h).1.
Proof.
  unfold subscribeV2. destruct (validateChannels channels); [reflexivity|].
  destruct (member h id) as [[s subscribed]|] eqn:Hm; [|reflexivity]. apply member_some in Hm as [Ho Hs].
  destruct (negb (is_v2 s)); [reflexivity|]. destruct (existsb _ channels); [reflexivity|].
  pose proof (retopic_steady id subscribed (subscribed ∪ list_to_set (topic_of <$> channels)) h Hs
    ltac:(pose proof (functions_channels channels); set_solver)) as Hg.
  destruct rewind; [|done]. etransitivity; [exact Hg|]. by apply on_session_steady.
Qed.
Lemma unsubscribeV2_steady id channels h : steady h (unsubscribeV2 id channels h).1.
Proof.
  unfold unsubscribeV2. destruct (validateChannels channels); [reflexivity|].
  destruct (member h id) as [[s subscribed]|] eqn:Hm; [|reflexivity]. apply member_some in Hm as [Ho Hs].
  destruct (negb (is_v2 s)); [reflexivity|]. destruct (existsb _ channels); [reflexivity|].
  apply (retopic_steady id subscribed); [done|]. pose proof (functions_channels channels). set_solver.
Qed.
Lemma UpdatePresence_steady id request h : steady h (UpdatePresence id request h).1.
Proof.
  unfold UpdatePresence. destruct (_ || _ || _); [reflexivity|]. destruct (negb _); [reflexivity|].
  destruct (member h id) as [[s topics]|]; [|reflexivity]. destruct (negb _); [reflexivity|].
  destruct (negb _); [reflexivity|]. by apply on_session_steady.
Qed.
Lemma send_steady id f h : steady h (send id f h).1.
Proof.
  unfold send. destruct (hb_objects h !! id) as [s|]; [|reflexivity]. destruct (ss_done s); [reflexivity|].
  destruct (_ <? _)%nat; [|reflexivity]. by apply on_session_steady.
Qed.
Lemma selected_done app f now id s topics :
  ss_done (selected app f now id s topics) = ss_done s /\ ss_appID (selected app f now id s topics) = ss_appID s.
Proof. unfold selected. destruct (selects _ _ _ _ _ _); repeat case_match; done. Qed.
Lemma deliver_steady o app f h : steady h (deliver o app f h).1.1.
Proof.
  unfold deliver. destruct (deliver_locked app f (or_now o) h) as [[[h1 ov] ts] n] eqn:Hd. cbn.
  replace h1 with (deliver_locked app f (or_now o) h).1.1.1 by by rewrite Hd. clear.
  destruct (validV2Delivery app f) eqn:Hv; [|unfold deliver_locked; rewrite Hv; reflexivity].
  repeat split; try (unfold deliver_locked; by rewrite Hv). intros id. unfold seat.
  rewrite deliver_locked_objects, deliver_locked_sessions by done. f_equal.
  destruct (hb_objects h !! id) as [s|]; [|done]. cbn. destruct (hb_sessions h !! id); [|done].
  by destruct (selected_done app f (or_now o) id s g) as [-> ->].
Qed.

Lemma frame_v2_steady o id frame h : steady h (frame_v2 o id frame h).1.1.
Proof.
  unfold frame_v2. cbv zeta.
  pose proof (subscribeV2_steady id (cf_Channels frame) (isSome (cf_Rewind frame)) h) as H1.
  pose proof (unsubscribeV2_steady id (cf_Channels frame) h) as H2.
  pose proof (UpdatePresence_steady id frame h) as H3.
  destruct (subscribeV2 _ _ _ h) as [h1 v1], (unsubscribeV2 _ _ h) as [h2 v2], (UpdatePresence _ _ h) as [h3 v3].
  destruct (bool_decide _); [by destruct v1|]. destruct (bool_decide _); [by destruct v2|].
  destruct (bool_decide _); [by destruct (publishV2 _ _ _)|].
  destruct (bool_decide _); [destruct (validatePublishItems _); [|done]; by destruct (rejects _)|].
  destruct (bool_decide _); [by destruct (HistoryV2 _ _ _ _ _ _)|].
  destruct (bool_decide _); [by destruct v3 as [[]|]|].
  destruct (bool_decide _); [destruct (validateActionSource _ _ _); [done|]; destruct (_ || _); [done|];
    destruct (negb _); [done|]; by destruct (or_action o)|].
  destruct (bool_decide _); [destruct (validateActionSource _ _ _); [done|]; destruct (isSome _); [done|];
    destruct (negb _); [done|]; by destruct (or_actions o)|].
  destruct (bool_decide _); [destruct (validateActionSource _ _ _); [done|]; destruct (_ || _); [done|];
    destruct (negb _); [done|]; by destruct (or_action o)|].
  destruct (bool_decide _); [by destruct (PublishFileV2 _ _ _)|]. by destruct (bool_decide _).
Qed.

(** Steps that register, close, or read a frame of version 1. *)
Definition changes_seats (t : task) : bool :=
  match t with
  | TRegister _ _ _ _ _ | TFrame _ _ | TClose _ | TCloseLocked _ | THubClose => true
  | _ => false
  end.

Lemma step_steady o t h : changes_seats t = false -> steady h (step o t h).1.1.
Proof.
  intros Ht. destruct t; try discriminate Ht; run_step; try reflexivity.
  - by destruct (negb _).
  - pose proof (send_steady id frame h) as Hs. by destruct (send id frame h).
  - destruct (member h id) as [[]|]; [|reflexivity]. by destruct (_ || _).
  - destruct channels; [reflexivity|]. by destruct (HistoryV2 _ _ _ _ _ _).
  - destruct frames as [|f fs]; [reflexivity|]. destruct (_ && _); [reflexivity|].
    pose proof (send_steady id f h) as Hs. by destruct (send id f h).
  - destruct (member h id) as [[s]|]; [|reflexivity]. by destruct (ss_rewindBuffer s); apply on_session_steady.
  - destruct (hb_objects h !! id); [|reflexivity]. destruct (prepare _ _ _ _) as [? []]; [reflexivity|].
    destruct (dp_publisher _); [|reflexivity]. by destruct (or_ok o).
  - destruct todo; [|reflexivity]. by destruct (rejects _).
  - destruct todo; [|reflexivity]. destruct (rejects _); [reflexivity|]. by destruct items.
  - destruct (hb_objects h !! id), (or_file o); try reflexivity. by destruct (prepare _ _ _ _) as [? []].
  - by destruct (dp_presence _), (or_present o) as [[]|].
  - destruct (dp_publisher _); [reflexivity|]. pose proof (deliver_steady o app frame h) as Hs.
    by destruct (deliver o app frame h) as [[]].
  - pose proof (deliver_steady o app frame h) as Hs. by destruct (deliver o app frame h) as [[]].
  - pose proof (deliver_steady o (sf_AppID frame) frame h) as Hs. by destruct (deliver o (sf_AppID frame) frame h) as [[]].
  - destruct ids; [reflexivity|]. by destruct (_ || _).
  - destruct (done_of id h); [reflexivity|]. by destruct (or_ok o).
  - pose proof (send_steady id frame h) as Hs. by destruct (send id frame h) as [? [[]|]].
  - by destruct (negb _).
Qed.

(** ** Tasks that are inside others *)

(** Some tasks are never put off: they follow a step at once. *)
Definition outer (t : task) : bool :=
  match t with
  | TCloseLocked _ | TInvoke _ _ | TClaimed _ _ _ | TAcknowledged _ _ _ | TRelease _ _ => true
  | _ => false
  end.
Fixpoint inner (t : task) : bool :=
  match t with
  | TPersist _ l | TRate _ _ l => forallb inner l
  | TDispatch _ _ l m => forallb inner l && forallb inner m
  | _ => negb (outer t)
  end.
(** Calls that begin or end a claim of an invocation. *)
Definition claiming (c : call) : bool :=
  match c with CClaim _ _ | CAcknowledge _ _ | CRelease _ _ | CEnqueue _ _ => true | _ => false end.

Definition inner_result (r : Hub * list task * list call) : Prop :=
  forallb inner r.1.2 = true /\ forallb (fun c => negb (claiming c)) r.2 = true.

Lemma frame_inner o id frame h : inner_result (step o (TFrame id frame) h).
Proof.
  run_step. destruct (hb_objects h !! id) as [x|]; [|done]. destruct (is_v2 x).
  - unfold frame_v2. cbv zeta. repeat first [done | split; [done|done] | case_match].
  - unfold frame_v1. cbv zeta. repeat first [done | split; [done|done] | case_match].
Qed.

Lemma answer_inner id to r : forallb inner (answer id to r) = true.
Proof. unfold answer. destruct to as [|item [|next rest] outcomes]; [by destruct r|done|done]. Qed.
Lemma sends_inner ids f : forallb inner ((fun id => TSend id f) <$> ids) = true.
Proof. by induction ids. Qed.
Lemma deliver_inner o app f h : forallb inner (deliver o app f h).1.2 = true.
Proof.
  unfold deliver. destruct (deliver_locked app f (or_now o) h) as [[[h1 ov] ts] n]. cbn. rewrite forallb_app.
  apply andb_true_intro. split; [by induction ov|by induction ts].
Qed.
Lemma prepare_quiet o id f h : forallb (fun c => negb (claiming c)) (prepare o id f h).1 = true.
Proof.
  unfold prepare, record_message, append_history. destruct (dp_actions _), (or_recorded o); try done;
    destruct (_ && _ && _); done.
Qed.

Lemma forallb_concat {A} (f : A -> bool) l : forallb f (concat l) = forallb (forallb f) l.
Proof. induction l as [|x l IH]; [done|]. cbn. by rewrite forallb_app, IH. Qed.
Lemma forallb_imap {A B} (f : B -> bool) (g : nat -> A -> B) l :
  (forall n x, f (g n x) = true) -> forallb f (imap g l) = true.
Proof.
  revert g. induction l as [|x l IH]; intros g Hf; [done|].
  rewrite imap_cons. cbn. rewrite Hf. apply IH. intros n y. apply (Hf (S n)).
Qed.

Lemma prepared_inner o id request to h : inner_result (step o (TPrepared id request to) h).
Proof.
  run_step. destruct (hb_objects h !! id) as [s|]; [|done].
  pose proof (prepare_quiet o id (published_frame o id s request None) h) as Hq.
  destruct (prepare _ _ _ _) as [calls [e|]]; cbn [fst] in Hq; [by split; [apply answer_inner|]|].
  destruct (dp_publisher _); [|by split]. destruct (or_ok o); (split; [apply answer_inner|]; cbn [snd]; by rewrite forallb_app, Hq).
Qed.

(** A step of a task that may be inside others begins no claim. *)
Lemma step_inner o t h : inner t = true -> (forall id, t <> TClose id) -> inner_result (step o t h).
Proof.
  intros Ht Hnc. destruct t; try discriminate Ht; run_step.
  - destruct (register _ _ _ _ _ h). by destruct (_ && _ && _).
  - by destruct (or_ok o).
  - destruct (negb _); [done|]. by destruct (or_ok o).
  - apply frame_inner.
  - by destruct (send id frame h) as [? [[]|]].
  - by destruct (Hnc id).
  - done.
  - destruct (member h id) as [[]|]; [|done]. destruct (_ || _); [by split|done].
  - destruct channels; [done|]. by destruct (HistoryV2 _ _ _ _ _ _).
  - destruct frames as [|f fs]; [done|]. destruct (_ && _); [done|]. by destruct (send id f h) as [? [[]|]].
  - destruct (member h id) as [[s]|]; [|done]. by destruct (ss_rewindBuffer s).
  - destruct (ratePublishV2 o h); [done|by split].
  - apply prepared_inner.
  - destruct todo; [|done]. by destruct (rejects _).
  - destruct todo; [|done]. destruct (rejects _); [done|]. by destruct items.
  - destruct (hb_objects h !! id) as [s|], (or_file o) as [file|]; try done.
    pose proof (prepare_quiet o id (published_frame o id s request (Some file)) h) as Hq.
    by destruct (prepare _ _ _ _) as [calls [e|]]; split.
  - by destruct (dp_presence _), (or_present o) as [[]|].
  - apply andb_prop in Ht as [Hf Hd]. destruct (dp_publisher _); [by destruct (or_ok o)|].
    pose proof (deliver_inner o app frame h) as Hi. destruct (deliver o app frame h) as [[h1 sends] n]. cbn in Hi.
    split; [|done]. cbn. by rewrite forallb_app, Hi.
  - pose proof (deliver_inner o app frame h) as Hi. by destruct (deliver o app frame h) as [[h1 sends] n].
  - pose proof (deliver_inner o (sf_AppID frame) frame h) as Hi.
    destruct (deliver o (sf_AppID frame) frame h) as [[h1 sends] n]. cbn in Hi.
    split; [|done]. cbn [fst snd]. rewrite forallb_app, Hi. cbn [forallb andb]. by apply answer_inner.
  - done.
  - split; [apply sends_inner|done].
  - destruct (negb _); [done|]. split; [|done]. cbn [fst snd]. rewrite forallb_concat. apply forallb_imap. intros n ac.
    destruct (or_expired o ac.1 ac.2) as [[expired occ]|]; [|done]. rewrite forallb_concat. by apply forallb_imap.
  - destruct (hb_closed h); [done|]. split; [|done]. cbn. by induction ((map_to_list (hb_sessions h)).*1).
Qed.

(** The tasks of a goroutine. *)
Definition shaped (s : System) : Prop :=
  forall i ts t, sy_threads s !! i = Some ts -> t ∈ ts -> outer t || inner t = true.
Lemma shaped_run o t h u :
  outer t || inner t = true -> u ∈ (step o t h).1.2 -> outer u || inner u = true.
Proof.
  intros Ht Hu. destruct (outer t) eqn:Eo; cbn in Ht.
  - destruct t; try discriminate Eo; run_step_in Hu.
    + destruct (close_locked o id h) as [h1 leaves]. cbn in Hu. by apply list_elem_of_fmap in Hu as (f & -> & _).
    + destruct ids; cbn in Hu; [by apply elem_of_nil in Hu|]. destruct (_ || _); cbn in Hu; set_solver.
    + destruct (done_of id h); [|destruct (or_ok o)]; cbn in Hu; set_solver.
    + destruct (send id frame h) as [h1 [[]|]]; cbn in Hu; set_solver.
    + cbn in Hu. by apply elem_of_nil in Hu.
  - assert ((exists id, t = TClose id) \/ forall id, t <> TClose id) as [[id ->]|Hnc].
    { destruct t; try (by right); left; eauto. }
    + run_step_in Hu. destruct (done_of id h); cbn in Hu; set_solver.
    + destruct (step_inner o t h Ht Hnc) as [Hi _]. rewrite forallb_forall in Hi.
      rewrite (Hi u) by by apply list_elem_of_In. apply orb_true_r.
Qed.
Lemma entry_inner h ts t : entry h ts -> t ∈ ts -> outer t = false /\ inner t = true \/ exists f ids, t = TInvoke f ids.
Proof.
  intros He Ht. destruct He; try (apply list_elem_of_singleton in Ht as ->; by left).
  - apply list_elem_of_fmap in Ht as (x & -> & _). by left.
  - unfold PublishChannel in Ht. destruct (Channel.ValidRealtimeChannel _); [|by apply elem_of_nil in Ht].
    apply list_elem_of_singleton in Ht as ->. by left.
  - left. unfold Deliver in Ht. repeat case_match; try (by apply elem_of_nil in Ht);
      apply list_elem_of_singleton in Ht as ->; done.
  - unfold InvokeFunction in Ht. destruct (dp_functions _); [|by apply elem_of_nil in Ht].
    apply list_elem_of_singleton in Ht as ->. right. eauto.
  - left. unfold DisconnectConnection in Ht. repeat case_match; try (by apply elem_of_nil in Ht);
      apply list_elem_of_singleton in Ht as ->; done.
Qed.
Lemma sys_step_shaped s s' : sys_step s s' -> shaped s -> shaped s'.
Proof.
  intros Hstep Hs. destruct Hstep as [s i t rest o Hi|s i ts Hi He|s id]; intros j us u; cbn.
  - rewrite lookup_insert_Some. intros [[<- <-]|[_ Hj]]; [|by apply (Hs j)].
    rewrite elem_of_app. intros [Hu|Hu]; [|apply (Hs i (t :: rest)); [done|by right]].
    eapply shaped_run; [|exact Hu]. apply (Hs i (t :: rest)); [done|by left].
  - rewrite lookup_insert_Some. intros [[<- <-]|[_ Hj]]; [|by apply (Hs j)]. intros Hu.
    destruct (entry_inner _ _ _ He Hu) as [[_ ->]|(f & ids & ->)]; [apply orb_true_r|done].
  - by apply (Hs j).
Qed.

(** ** Closing *)

Definition registered (h : Hub) (id : string) : Prop := is_Some (hb_sessions h !! id).
Definition pending (s : System) (t : task) : Prop := exists i ts, sy_threads s !! i = Some ts /\ t ∈ ts.

(** A closed session leaves the hub, a session that is not registered is closed, and
    once the hub is closed every session is about to be; [closing] are the sessions
    with a [TClose] that is still to run, [leaving] those with a [TCloseLocked]. *)
Record drain (h : Hub) (closing leaving : string -> Prop) : Prop := mkDrain {
  dr_done : forall id x, hb_objects h !! id = Some x -> ss_done x = true -> registered h id -> leaving id;
  dr_gone : forall id x, hb_objects h !! id = Some x -> ~ registered h id -> ss_done x = true;
  dr_closed : forall id, hb_closed h = true -> registered h id -> closing id \/ leaving id;
  dr_known : forall id, registered h id -> known h id;
  dr_leaving : forall id, leaving id -> exists x, hb_objects h !! id = Some x /\ ss_done x = true
}.

(** The part of [steady] that closing depends on. *)
Definition calm (h h' : Hub) : Prop :=
  hb_closed h' = hb_closed h
  /\ forall id, ss_done <$> hb_objects h' !! id = ss_done <$> hb_objects h !! id
     /\ (registered h' id <-> registered h id).
Lemma steady_calm h h' : steady h h' -> calm h h'.
Proof.
  intros (Hc & _ & Hs). split; [done|]. intros id. specialize (Hs id). unfold seat in Hs.
  injection Hs as Ho Ht. split.
  - apply (f_equal (fmap fst)) in Ho. rewrite <- !option_fmap_compose in Ho. exact Ho.
  - unfold registered. rewrite <- (fmap_is_Some (fun topics => bool_decide ("functions" ∈ topics)) (hb_sessions h' !! id)).
    rewrite Ht. apply fmap_is_Some.
Qed.
Lemma calm_done h h' id x' : calm h h' -> hb_objects h' !! id = Some x' ->
  exists x, hb_objects h !! id = Some x /\ ss_done x' = ss_done x.
Proof.
  intros [_ Hc] Hx'. destruct (Hc id) as [Hd _]. rewrite Hx' in Hd. destruct (hb_objects h !! id) as [x|]; [|done].
  exists x. split; [done|]. by injection Hd.
Qed.
Lemma Subscribe_calm id topics ensured h : calm h (Subscribe id topics ensured h).1.
Proof.
  assert (calm h h) as Hrefl by by repeat split.
  unfold Subscribe. destruct (validateTopics topics); [done|].
  destruct (member h id) as [[x subscribed]|] eqn:Hm; [|done]. apply member_some in Hm as [Ho Hs].
  assert (forall h' t, hb_objects h' = hb_objects h -> hb_sessions h' = hb_sessions h -> hb_closed h' = hb_closed h ->
    calm h (with_sessions (<[id := t]> (hb_sessions h')) h')) as Hadd.
  { intros h' t Ho' Hs' Hc'. split; [done|]. intros i. cbn. rewrite Ho'. split; [done|].
    unfold registered. cbn. rewrite Hs', lookup_insert_is_Some. destruct (decide (id = i)) as [->|Hne]; [|tauto].
    rewrite Hs. split; [eauto|by left]. }
  destruct (hb_routes h); [|by apply Hadd]. destruct (_ && _ && _); [|by apply Hadd].
  destruct ensured; [by apply Hadd|done].
Qed.
Lemma frame_calm o id frame h : calm h (step o (TFrame id frame) h).1.1.
Proof.
  run_step. assert (calm h h) as Hrefl by by repeat split. destruct (hb_objects h !! id) as [x|]; [|done].
  destruct (is_v2 x); [apply steady_calm, frame_v2_steady|]. unfold frame_v1.
  pose proof (Subscribe_calm id (cf_Topics frame) (or_ok o) h) as Hs. destruct (Subscribe _ _ _ h) as [h1 v].
  destruct (bool_decide _); [exact Hs|]. destruct (bool_decide _); [done|]. destruct (bool_decide _); [|done].
  destruct (negb _); [done|]. by destruct (_ || _).
Qed.

Lemma close_locked_sessions o id h :
  (registered h id -> known h id) -> hb_sessions (close_locked o id h).1 = delete id (hb_sessions h).
Proof.
  intros Hk. unfold close_locked. destruct (member h id) as [[x topics]|] eqn:Hm.
  - cbn. destruct (hb_routes h); [|done]. by destruct (_ && _).
  - cbn. symmetry. apply delete_id. destruct (hb_sessions h !! id) as [t|] eqn:Ht; [|done].
    destruct Hk as [x Hx]; [by exists t|]. unfold member in Hm. by rewrite Ht, Hx in Hm.
Qed.
Lemma close_locked_objects o id h :
  hb_objects (close_locked o id h).1 = hb_objects h /\ hb_closed (close_locked o id h).1 = hb_closed h.
Proof.
  unfold close_locked. destruct (member h id) as [[x topics]|]; [|done]. cbn. destruct (hb_routes h); [|done].
  by destruct (_ && _).
Qed.

Section drain.
Context (h : Hub) (closing leaving closing' leaving' : string -> Prop) (now_ok : drain h closing leaving).

Lemma calm_drain h' :
  calm h h' -> (forall id, closing id -> closing' id) -> (forall id, leaving' id <-> leaving id) -> drain h' closing' leaving'.
Proof using now_ok.
  intros Hcalm Hp Hl. destruct now_ok as [H1 H2 H3 H4 H5]. pose proof Hcalm as [Hc Hid]. split.
  - intros id x' Hx' Hd Hr. destruct (calm_done _ _ _ _ Hcalm Hx') as (x & Hx & He).
    apply Hl, (H1 id x); [done|congruence|]. by apply Hid.
  - intros id x' Hx' Hr. destruct (calm_done _ _ _ _ Hcalm Hx') as (x & Hx & ->). apply (H2 id x Hx).
    intros Hr'. by apply Hr, Hid.
  - intros id. rewrite Hc. intros Hcl Hr. destruct (H3 id Hcl) as [Ht|Ht]; [by apply Hid|left; auto|right; by apply Hl].
  - intros id Hr%Hid. destruct (H4 id Hr) as [x Hx]. destruct (Hid id) as [Hd _]. rewrite Hx in Hd. unfold known.
    destruct (hb_objects h' !! id); [eauto|done].
  - intros id Hq%Hl. destruct (H5 id Hq) as (x & Hx & Hd). destruct (Hid id) as [He _]. rewrite Hx in He.
    destruct (hb_objects h' !! id) as [x'|]; [|done]. exists x'. split; [done|]. injection He as ->. done.
Qed.

Lemma register_drain id app protocol client capabilities :
  drain (register id app protocol client capabilities h).1 closing leaving.
Proof using now_ok.
  destruct now_ok as [H1 H2 H3 H4 H5]. unfold register. destruct (hb_objects h !! id) as [x0|] eqn:E; [done|].
  assert (~ registered h id) as Hnr. { intros Hr. destruct (H4 id Hr) as [x Hx]. congruence. }
  set (refused := _ || _). destruct refused eqn:Href; split; cbn.
  - intros j x. rewrite lookup_insert_Some. intros [[<- <-]|[Hne Hx]] Hdone Hr; [by destruct (Hnr Hr)|by eapply H1].
  - intros j x. rewrite lookup_insert_Some. intros [[<- <-]|[Hne Hx]] Hr; [done|by eapply H2].
  - done.
  - intros j Hr. destruct (H4 j Hr) as [x Hx]. exists x. cbn. by rewrite lookup_insert_ne by congruence.
  - intros j Hl. destruct (H5 j Hl) as (x & Hx & Hd). exists x. by rewrite lookup_insert_ne by congruence.
  - intros j x. rewrite lookup_insert_Some. intros [[<- <-]|[Hne Hx]] Hdone Hr; [done|].
    unfold registered in Hr. cbn in Hr. rewrite lookup_insert_ne in Hr by done. by eapply H1.
  - intros j x. rewrite lookup_insert_Some. intros [[<- <-]|[Hne Hx]] Hr; unfold registered in Hr; cbn in Hr.
    { rewrite lookup_insert_eq in Hr. by destruct Hr. }
    rewrite lookup_insert_ne in Hr by done. by eapply H2.
  - intros j Hc. exfalso. subst refused. by rewrite Hc in Href.
  - intros j [topics Hr]. cbn in Hr. unfold known. cbn. destruct (decide (id = j)) as [->|Hne].
    { rewrite lookup_insert_eq. eauto. }
    rewrite lookup_insert_ne in Hr by done. rewrite lookup_insert_ne by done. apply H4. by exists topics.
  - intros j Hl. destruct (H5 j Hl) as (x & Hx & Hd). exists x. by rewrite lookup_insert_ne by congruence.
Qed.

Lemma close_drain id :
  (forall j, j <> id -> closing j -> closing' j) -> (forall j, leaving' j <-> leaving j) ->
  done_of id h = true -> drain h closing' leaving'.
Proof using now_ok.
  destruct now_ok as [H1 H2 H3 H4 H5]. unfold done_of. intros Hc Hl Hd. split; [|done| |done|].
  - intros j x Hx Hdone Hr. by apply Hl, (H1 j x).
  - intros j Hcl Hr. destruct (decide (j = id)) as [->|Hne].
    + right. destruct (H4 id Hr) as [x Hx]. rewrite Hx in Hd. by apply Hl, (H1 id x).
    + destruct (H3 j Hcl Hr); [left; auto|right; by apply Hl].
  - intros j Hj%Hl. by apply H5.
Qed.
Lemma done_drain id :
  (forall j, j <> id -> closing j -> closing' j) -> (forall j, leaving' j <-> j = id \/ leaving j) ->
  done_of id h = false -> drain (on_session set_done id h) closing' leaving'.
Proof using now_ok.
  destruct now_ok as [H1 H2 H3 H4 H5]. unfold done_of. intros Hc Hl Hd.
  destruct (hb_objects h !! id) as [x0|] eqn:E; [|done]. split; cbn.
  - intros j x. rewrite lookup_alter_Some. intros [(<- & z & Hz & ->)|[Hne Hx]] Hdone Hr; apply Hl; [by left|right].
    by apply (H1 j x).
  - intros j x. rewrite lookup_alter_Some. intros [(<- & z & Hz & ->)|[Hne Hx]] Hr; [done|by eapply H2].
  - intros j Hcl Hr. destruct (decide (j = id)) as [->|Hne]; [right; apply Hl; by left|].
    destruct (H3 j Hcl Hr); [left; auto|right; apply Hl; by right].
  - intros j Hr. unfold known. cbn. rewrite lookup_alter_is_Some. by apply H4.
  - intros j Hj. destruct (decide (j = id)) as [->|Hne].
    + rewrite lookup_alter_eq, E. by eexists.
    + rewrite lookup_alter_ne by done. apply Hl in Hj as [Hj|Hj]; [done|by apply H5].
Qed.
Lemma close_locked_drain o id :
  leaving id -> (forall j, closing j -> closing' j) ->
  (forall j, j <> id -> leaving j -> leaving' j) -> (forall j, leaving' j -> leaving j) ->
  drain (close_locked o id h).1 closing' leaving'.
Proof using now_ok.
  destruct now_ok as [H1 H2 H3 H4 H5]. intros Hid Hc Hl Hback.
  pose proof (close_locked_sessions o id h (H4 id)) as Hs. destruct (close_locked_objects o id h) as [Ho Hcl].
  destruct (close_locked o id h) as [h1 leaves]. cbn [fst] in *.
  assert (forall j, registered h1 j <-> id <> j /\ registered h j) as Hreg.
  { intros j. unfold registered. rewrite Hs, lookup_delete_is_Some. done. }
  split; rewrite ?Ho, ?Hcl.
  - intros j x Hx Hdone [Hne Hr]%Hreg. apply Hl; [done|]. by apply (H1 j x).
  - intros j x Hx Hr. destruct (decide (id = j)) as [<-|Hne].
    + destruct (H5 id Hid) as (y & Hy & Hd). congruence.
    + apply (H2 j x Hx). intros Hr'. apply Hr, Hreg. done.
  - intros j Hc' [Hne Hr]%Hreg. destruct (H3 j Hc' Hr); [left; auto|right; auto].
  - intros j [_ Hr]%Hreg. unfold known. rewrite Ho. by apply H4.
  - intros j Hj%Hback. by apply H5.
Qed.
Lemma hub_close_drain :
  (forall j, closing j -> closing' j) -> (forall j, registered h j -> closing' j) -> (forall j, leaving' j <-> leaving j) ->
  drain (set_closed h) closing' leaving'.
Proof using now_ok.
  destruct now_ok as [H1 H2 H3 H4 H5]. intros Hc Hr Hl. split; cbn; try done.
  - intros j x Hx Hd Hj. by apply Hl, (H1 j x).
  - intros j _ Hj. left. by apply Hr.
  - intros j Hj%Hl. by apply H5.
Qed.

End drain.

(** *** Over the steps of the system *)

Definition drained (s : System) : Prop :=
  drain (sy_hub s) (fun id => pending s (TClose id)) (fun id => pending s (TCloseLocked id)).

Section run.
Context (s : System) (i : nat) (t : task) (rest new : list task) (h : Hub) (cs : list call)
  (running : sy_threads s !! i = Some (t :: rest)).
Abbreviation after := (mkSystem h (<[i := (new ++ rest)%list]> (sy_threads s)) cs).

Lemma pending_other u : u <> t -> pending s u -> pending after u.
Proof using running.
  intros Hne (j & ts & Hj & Hu). destruct (decide (i = j)) as [->|Hij].
  - exists j, (new ++ rest)%list. cbn. rewrite lookup_insert_eq. split; [done|]. rewrite elem_of_app. right.
    rewrite running in Hj. injection Hj as <-. apply elem_of_cons in Hu as [Hu|Hu]; done.
  - exists j, ts. cbn. by rewrite lookup_insert_ne.
Qed.
Lemma pending_new u : u ∈ new -> pending after u.
Proof using Type.
  intros Hu. exists i, (new ++ rest)%list. cbn. rewrite lookup_insert_eq. split; [done|]. rewrite elem_of_app. by left.
Qed.
Lemma pending_from u : pending after u -> u ∈ new \/ pending s u.
Proof using running.
  intros (j & ts & Hj & Hu). cbn in Hj. apply lookup_insert_Some in Hj as [[<- <-]|[Hne Hj]]; [|right; by exists j, ts].
  apply elem_of_app in Hu as [Hu|Hu]; [by left|]. right. exists i, (t :: rest). split; [done|by right].
Qed.
(** Nothing is pending that was not, when the step adds none and was not one. *)
Lemma pending_same u : u <> t -> u ∉ new -> (pending after u <-> pending s u).
Proof using running.
  intros Hne Hnew. split; [intros [Hu|Hu]%pending_from; [done|done]|by apply pending_other].
Qed.
End run.

(** Only [Session.Close] goes on to leave the hub. *)
Lemma step_leaving o t h id :
  outer t || inner t = true -> (forall j, t <> TClose j) -> TCloseLocked id ∉ (step o t h).1.2.
Proof.
  intros Ht Hnc Hin. destruct (outer t) eqn:Eo; cbn in Ht.
  - destruct t; try discriminate Eo; run_step_in Hin.
    + destruct (close_locked o id0 h) as [h1 leaves]. cbn in Hin. by apply list_elem_of_fmap in Hin as (f & ? & _).
    + destruct ids; cbn in Hin; [by apply elem_of_nil in Hin|]. destruct (_ || _); cbn in Hin; set_solver.
    + destruct (done_of id0 h); [|destruct (or_ok o)]; cbn in Hin; set_solver.
    + destruct (send id0 frame h) as [h1 [[]|]]; cbn in Hin; set_solver.
    + cbn in Hin. by apply elem_of_nil in Hin.
  - destruct (step_inner o t h Ht Hnc) as [Hi _]. rewrite forallb_forall in Hi.
    discriminate (Hi (TCloseLocked id)). by apply list_elem_of_In.
Qed.

Lemma run_drained o s i t rest :
  sy_threads s !! i = Some (t :: rest) -> outer t || inner t = true -> drained s ->
  drained (mkSystem (step o t (sy_hub s)).1.1 (<[i := ((step o t (sy_hub s)).1.2 ++ rest)%list]> (sy_threads s))
             (sy_calls s ++ (step o t (sy_hub s)).2)%list).
Proof.
  intros Hi Ht Hd. unfold drained. cbn [sy_hub]. pose proof (step_leaving o t (sy_hub s)) as Hleave.
  assert (forall h' new cs, drain h' (fun id => pending s (TClose id)) (fun id => pending s (TCloseLocked id)) ->
    (forall id, t <> TClose id) -> (forall id, t <> TCloseLocked id) -> (forall id, TCloseLocked id ∉ new) ->
    let s' := mkSystem h' (<[i := (new ++ rest)%list]> (sy_threads s)) cs in
    drain h' (fun id => pending s' (TClose id)) (fun id => pending s' (TCloseLocked id))) as Hmono.
  { intros h' new cs Hd' Hn1 Hn2 Hnew s'. eapply calm_drain; [exact Hd'|by repeat split|..]; intros id.
    - by apply pending_other with (t := t).
    - by apply (pending_same s i t). }
  assert (forall h', calm (sy_hub s) h' -> drain h' (fun id => pending s (TClose id)) (fun id => pending s (TCloseLocked id)))
    as Hcalm by (intros h' Hc; by eapply calm_drain).
  destruct (changes_seats t) eqn:Ech.
  2:{ apply Hmono; [by apply Hcalm, steady_calm, step_steady|by intros ? ->..|]. intros id. apply Hleave; [done|by intros ? ->]. }
  destruct t; try discriminate Ech.
  - apply Hmono; try done; [|intros j; by apply Hleave].
    replace (step o (TRegister id app protocol client capabilities) (sy_hub s)).1.1
      with (register id app protocol client capabilities (sy_hub s)).1
      by (run_step; by destruct (register _ _ _ _ _ (sy_hub s))).
    by apply register_drain.
  - apply Hmono; try done; [apply Hcalm, frame_calm|intros j; by apply Hleave].
  - run_step. destruct (done_of id (sy_hub s)) eqn:Hdone; cbn [fst snd].
    + eapply (close_drain _ _ _ _ _ Hd id); [|intros j|done]; 
        [|apply pending_same with (t := TClose id); [done|done|apply not_elem_of_nil]].
      intros j Hne Hp. apply pending_other with (t := TClose id); [done|congruence|done].
    + eapply (done_drain _ _ _ _ _ Hd id); [| |done].
      { intros j Hne Hp. apply pending_other with (t := TClose id); [done|congruence|done]. }
      intros j. split.
      * intros [Hj|Hj]%(pending_from s i (TClose id)); [|by right|done]. left. set_solver.
      * intros [->|Hj]; [apply pending_new; by left|]. by apply pending_other with (t := TClose id).
  - assert (pending s (TCloseLocked id)) as Hp by (exists i, (TCloseLocked id :: rest); split; [done|by left]).
    pose proof (fun j => Hleave j Ht ltac:(done)) as Hnew. run_step_in Hnew; run_step.
    pose proof (close_locked_drain _ _ _ (fun j => pending (mkSystem (close_locked o id (sy_hub s)).1
      (<[i := ((TLeave <$> (close_locked o id (sy_hub s)).2) ++ rest)%list]> (sy_threads s)) (sy_calls s ++ [])%list) (TClose j))
      (fun j => pending (mkSystem (close_locked o id (sy_hub s)).1
      (<[i := ((TLeave <$> (close_locked o id (sy_hub s)).2) ++ rest)%list]> (sy_threads s)) (sy_calls s ++ [])%list) (TCloseLocked j))
      Hd o id Hp) as Hdrain.
    destruct (close_locked o id (sy_hub s)) as [h1 leaves]. cbn [fst snd] in *. apply Hdrain.
    + intros j. by apply pending_other with (t := TCloseLocked id).
    + intros j Hne Hj. apply pending_other with (t := TCloseLocked id); [done|congruence|done].
    + intros j [Hj|Hj]%(pending_from s i (TCloseLocked id)); [by destruct (Hnew j)|done|done].
  - run_step. destruct (hb_closed (sy_hub s)); cbn [fst snd].
    { apply Hmono; try done. intros j Hj. by apply elem_of_nil in Hj. }
    eapply hub_close_drain; [exact Hd| | |].
    + intros j. by apply pending_other with (t := THubClose).
    + intros j [topics Hj]. apply pending_new. apply list_elem_of_fmap. exists j. split; [done|].
      apply list_elem_of_fmap. exists (j, topics). by rewrite elem_of_map_to_list.
    + intros j. apply pending_same with (t := THubClose); [done|done|]. rewrite list_elem_of_fmap. naive_solver.
Qed.

Lemma start_drained s i ts :
  sy_threads s !! i = None -> entry (sy_hub s) ts -> drained s ->
  drained (mkSystem (sy_hub s) (<[i := ts]> (sy_threads s)) (sy_calls s)).
Proof.
  intros Hi He Hd. assert (forall u, pending s u -> pending (mkSystem (sy_hub s) (<[i := ts]> (sy_threads s)) (sy_calls s)) u) as Hp.
  { intros u (j & us & Hj & Hu). exists j, us. cbn. rewrite lookup_insert_ne by congruence. done. }
  eapply calm_drain; [exact Hd|by repeat split|auto|]. intros id. split; [|auto].
  intros (j & us & Hj & Hu). cbn in Hj. apply lookup_insert_Some in Hj as [[<- <-]|[Hne Hj]]; [|by exists j, us].
  by destruct (entry_inner _ _ _ He Hu) as [[? _]|(f & ids & ?)].
Qed.
Lemma written_steady id h : steady h (written id h).
Proof. by apply on_session_steady. Qed.
Lemma sys_step_drained s s' : sys_step s s' -> shaped s -> drained s -> drained s'.
Proof.
  intros Hstep Hs Hd. destruct Hstep as [s i t rest o Hi|s i ts Hi He|s id].
  - apply run_drained; [done| |done]. apply (Hs i (t :: rest)); [done|by left].
  - by apply start_drained.
  - eapply calm_drain; [exact Hd|apply steady_calm, written_steady|done|done].
Qed.
Lemma initial_drained deps routes : shaped (initial deps routes) /\ drained (initial deps routes).
Proof.
  split; [intros i ts t; cbn; by rewrite lookup_empty|]. split; cbn.
  - intros id x. by rewrite lookup_empty.
  - intros id x. by rewrite lookup_empty.
  - done.
  - intros id [topics Ht]. cbn in Ht. by rewrite lookup_empty in Ht.
  - intros id (i & ts & Ht & _). cbn in Ht. by rewrite lookup_empty in Ht.
Qed.
(** An invariant of the steps, from the start. *)
Lemma reachable_ind (P : System -> Prop) deps routes s :
  P (initial deps routes) -> (forall a b, reachable deps routes a -> sys_step a b -> P a -> P b) ->
  reachable deps routes s -> P s.
Proof.
  intros H0 Hstep Hr. exact (rtc_ind_r (R := sys_step) P (initial deps routes) H0 Hstep s Hr).
Qed.
Lemma reachable_drained deps routes s : reachable deps routes s -> shaped s /\ drained s.
Proof.
  apply (reachable_ind (fun s => shaped s /\ drained s)); [apply initial_drained|]. intros a b _ Hab [Hs Hd].
  split; [by eapply sys_step_shaped|by eapply sys_step_drained].
Qed.

(** ** Function routes *)

Definition handled (h : Hub) (app : string) : Prop :=
  exists id, seat h id = (Some (false, app), Some true) \/ seat h id = (Some (true, app), Some true).
Definition routes_ok (h : Hub) : Prop :=
  forall routes, hb_routes h = Some routes -> forall app, app ∈ routes <-> handled h app.

Lemma handled_member h app :
  handled h app <-> exists id s topics, member h id = Some (s, topics) /\ ss_appID s = app /\ "functions" ∈ topics.
Proof.
  unfold handled, seat. split.
  - intros [id H]. exists id. destruct (hb_objects h !! id) as [x|] eqn:Ho; [|naive_solver].
    destruct (hb_sessions h !! id) as [topics|] eqn:Hs; [|naive_solver]. exists x, topics.
    rewrite member_some. split; [done|]. cbn in H.
    assert (ss_appID x = app /\ bool_decide ("functions" ∈ topics) = true) as [Ha Hb%bool_decide_eq_true]
      by (destruct H as [H|H]; injection H; done). done.
  - intros (id & x & topics & [Ho Hs]%member_some & <- & Ht). exists id. rewrite Ho, Hs. cbn.
    rewrite (bool_decide_true _ Ht). destruct (ss_done x); [by right|by left].
Qed.
Lemma steady_routes h h' : steady h h' -> routes_ok h -> routes_ok h'.
Proof.
  intros (_ & Hr & Hs) Hok routes. rewrite Hr. intros Hroutes app. rewrite (Hok routes Hroutes app). unfold handled.
  by setoid_rewrite Hs.
Qed.
Lemma other_handler_spec app id h :
  other_handler app id h = true <->
  exists j s topics, j <> id /\ member h j = Some (s, topics) /\ ss_appID s = app /\ "functions" ∈ topics.
Proof.
  unfold other_handler. rewrite existsb_exists. split.
  - intros ([[j x] topics] & Hin%list_elem_of_In%members_elem & H). exists j, x, topics.
    apply andb_prop in H as [[H1%negb_true_iff%bool_decide_eq_false H2%bool_decide_eq_true]%andb_prop H3%bool_decide_eq_true].
    done.
  - intros (j & x & topics & Hne & Hm & Ha & Ht). exists (j, x, topics). split; [by apply list_elem_of_In, members_elem|].
    rewrite !andb_true_iff, negb_true_iff. repeat split; [by apply bool_decide_eq_false|by apply bool_decide_eq_true..].
Qed.

Lemma Subscribe_routes id topics ensured h : routes_ok h -> routes_ok (Subscribe id topics ensured h).1.
Proof.
  intros Hok. unfold Subscribe. destruct (validateTopics topics); [done|].
  destruct (member h id) as [[x subscribed]|] eqn:Hm; [|done]. pose proof Hm as [Ho Hs]%member_some.
  set (new := subscribed ∪ list_to_set topics).
  assert (forall h' app, hb_objects h' = hb_objects h -> hb_sessions h' = hb_sessions h ->
    handled (with_sessions (<[id := new]> (hb_sessions h')) h') app
    <-> handled h app \/ app = ss_appID x /\ "functions" ∈ topics) as Hadd.
  { intros h' app Ho' Hs'. rewrite !handled_member. setoid_rewrite member_some. cbn. rewrite Ho', Hs'. split.
    - intros (j & y & ts & [Hy Hj] & Ha & Ht). destruct (decide (id = j)) as [<-|Hne].
      + rewrite lookup_insert_eq in Hj. assert (y = x) as -> by congruence. injection Hj as <-. unfold new in Ht.
        rewrite elem_of_union, elem_of_list_to_set in Ht. destruct Ht as [Ht|Ht]; [left; by exists id, x, subscribed|by right].
      + rewrite lookup_insert_ne in Hj by done. left. by exists j, y, ts.
    - intros [(j & y & ts & [Hy Hj] & Ha & Ht)|[-> Ht]].
      + destruct (decide (id = j)) as [<-|Hne].
        * exists id, y, new. rewrite lookup_insert_eq. assert (ts = subscribed) as -> by congruence. unfold new. set_solver.
        * exists j, y, ts. by rewrite lookup_insert_ne by done.
      + exists id, x, new. rewrite lookup_insert_eq. unfold new. rewrite elem_of_union, elem_of_list_to_set. auto. }
  destruct (hb_routes h) as [routes|] eqn:Er; [|intros r Hr; cbn in Hr; congruence].
  set (needs := _ && _ && _).
  assert (needs = false -> "functions" ∈ topics -> handled h (ss_appID x)) as Hhas.
  { unfold needs. intros Hn Ht. rewrite (bool_decide_true _ Ht) in Hn. cbn in Hn. apply handled_member.
    apply andb_false_iff in Hn as [Hn%negb_false_iff%bool_decide_eq_true|Hn%negb_false_iff].
    - by exists id, x, subscribed.
    - apply other_handler_spec in Hn as (j & y & ts & _ & Hj). by exists j, y, ts. }
  destruct needs eqn:En.
  - destruct ensured; [|done]. intros r [= <-] app.
    etransitivity; [|symmetry; exact (Hadd (with_routes (Some ({[ss_appID x]} ∪ routes)) h) app eq_refl eq_refl)].
    rewrite elem_of_union, elem_of_singleton, (Hok routes Er).
    unfold needs in En. apply andb_prop in En as [[Ht%bool_decide_eq_true _]%andb_prop _]. tauto.
  - intros r Hr app. cbn in Hr. etransitivity; [|symmetry; exact (Hadd h app eq_refl eq_refl)].
    rewrite (Hok r) by congruence. split; [by left|]. intros [Ha|[-> Ht]]; auto.
Qed.

Lemma close_locked_routes o id h : routes_ok h -> routes_ok (close_locked o id h).1.
Proof.
  intros Hok. unfold close_locked. destruct (member h id) as [[x topics]|] eqn:Hm; [|done].
  pose proof Hm as [Ho Hs]%member_some. set (h1 := with_sessions (delete id (hb_sessions h)) h).
  assert (forall app, handled h app <-> handled h1 app \/ app = ss_appID x /\ "functions" ∈ topics) as Hdel.
  { intros app. rewrite !handled_member. setoid_rewrite member_some. cbn. split.
    - intros (j & y & ts & [Hy Hj] & Ha & Ht). destruct (decide (id = j)) as [<-|Hne].
      + assert (y = x) as -> by congruence. assert (ts = topics) as -> by congruence. by right.
      + left. exists j, y, ts. by rewrite lookup_delete_ne by done.
    - intros [(j & y & ts & [Hy Hj] & Ha & Ht)|[-> Ht]].
      + apply lookup_delete_Some in Hj as [_ Hj]. by exists j, y, ts.
      + by exists id, x, topics. }
  assert (other_handler (ss_appID x) id h1 = true <-> handled h1 (ss_appID x)) as Hother.
  { rewrite other_handler_spec, handled_member. split; [naive_solver|]. intros (j & y & ts & Hj & Ha & Ht).
    exists j, y, ts. split; [|done]. intros ->. apply member_some in Hj as [_ Hj]. cbn in Hj. by rewrite lookup_delete_eq in Hj. }
  cbn [fst]. destruct (hb_routes h1) as [routes|] eqn:Er; [|intros r Hr; congruence].
  destruct (_ && _) eqn:En; intros r Hr app.
  - injection Hr as <-. change (app ∈ routes ∖ {[ss_appID x]} <-> handled h1 app).
    apply andb_prop in En as [Ht%bool_decide_eq_true Hno%negb_true_iff].
    rewrite elem_of_difference, elem_of_singleton, (Hok routes Er), Hdel.
    assert (~ handled h1 (ss_appID x)) by (rewrite <- Hother; congruence). split; [tauto|]. intros Ha. split; [by left|].
    by intros ->.
  - rewrite (Hok r Hr), Hdel. split; [|by left]. intros [Ha|[-> Ht]]; [done|].
    rewrite (bool_decide_true _ Ht) in En. cbn in En. by apply Hother, negb_false_iff.
Qed.

Lemma register_routes id app protocol client capabilities h :
  (forall j, registered h j -> known h j) -> routes_ok h -> routes_ok (register id app protocol client capabilities h).1.
Proof.
  intros Hk Hok. unfold register. destruct (hb_objects h !! id) as [x0|] eqn:E; [done|].
  assert (hb_sessions h !! id = None) as Hn.
  { destruct (hb_sessions h !! id) as [t|] eqn:Ht; [|done]. destruct (Hk id) as [x Hx]; [by exists t|congruence]. }
  intros r Hr a. rewrite (Hok r) by (destruct (_ || _); exact Hr). rewrite !handled_member. setoid_rewrite member_some.
  set (x := new_session _ _ _ _ _).
  assert (forall j y t, hb_sessions h !! j = Some t -> hb_objects h !! j = Some y <-> <[id := x]> (hb_objects h) !! j = Some y) as Ho.
  { intros j y t Ht. rewrite lookup_insert_ne by congruence. done. }
  destruct (_ || _); cbn; apply exist_proper; intros j; apply exist_proper; intros y; apply exist_proper; intros t.
  - split; intros [[Hy Ht] Ha]; (split; [|done]; split; [|done]); by eapply Ho.
  - destruct (decide (id = j)) as [<-|Hne].
    + rewrite !lookup_insert_eq, Hn. split; [naive_solver|]. intros [[_ Ht] [_ Ha]]. injection Ht as <-. by apply elem_of_empty in Ha.
    + by rewrite !lookup_insert_ne by done.
Qed.

Lemma step_routes o t h :
  (forall j, registered h j -> known h j) -> routes_ok h -> routes_ok (step o t h).1.1.
Proof.
  intros Hk Hok. destruct (changes_seats t) eqn:E; [|by eapply steady_routes, Hok; apply step_steady].
  destruct t; try discriminate E; run_step.
  - pose proof (register_routes id app protocol client capabilities h Hk Hok) as Hr. by destruct (register _ _ _ _ _ h).
  - destruct (hb_objects h !! id) as [x|]; [|done].
    destruct (is_v2 x); [by eapply steady_routes, Hok; apply frame_v2_steady|]. unfold frame_v1.
    pose proof (Subscribe_routes id (cf_Topics frame) (or_ok o) h Hok) as Hr. destruct (Subscribe _ _ _ h) as [h1 v].
    destruct (bool_decide _); [exact Hr|]. destruct (bool_decide _); [done|]. destruct (bool_decide _); [|done].
    destruct (negb _); [done|]. by destruct (_ || _).
  - destruct (done_of id h); [done|]. cbn [fst]. intros r Hr a. rewrite (Hok r Hr), !handled_member.
    setoid_rewrite member_some. cbn. split; intros (j & y & t & [Hy Ht] & Ha).
    + destruct (decide (id = j)) as [<-|Hne].
      * exists id, (set_done y), t. by rewrite lookup_alter_eq, Hy.
      * exists j, y, t. by rewrite lookup_alter_ne by done.
    + apply lookup_alter_Some in Hy as [(<- & z & Hz & ->)|[_ Hy]]; [by exists id, z, t|by exists j, y, t].
  - pose proof (close_locked_routes o id h Hok) as Hr. by destruct (close_locked o id h).
  - by destruct (hb_closed h).
Qed.
Lemma reachable_routes deps routes s : reachable deps routes s -> routes_ok (sy_hub s).
Proof.
  apply (reachable_ind (fun s => routes_ok (sy_hub s))).
  - intros r Hr app. cbn in Hr. assert (r = ∅) as -> by (destruct routes; congruence). rewrite handled_member.
    split; [set_solver|]. by intros (id & x & t & [Ho _]%member_some & _).
  - intros a b Ha Hab Hok. destruct (reachable_drained _ _ _ Ha) as [_ Hd]. pose proof (dr_known _ _ _ Hd) as Hk.
    destruct Hab as [a i t rest o Hi|a i ts Hi He|a id]; cbn; [by apply step_routes|done|].
    eapply steady_routes, Hok. apply written_steady.
Qed.

(** * Claims of function invocations

    An account of the claims the hub makes in [InvokeFunction]: what is claimed is
    later released or handed over, and nothing is handed over that was not
    acknowledged. *)

Definition total {A} (f : A -> Z) (l : list A) : Z := foldr (fun x z => f x + z) 0 l.
Lemma total_app {A} (f : A -> Z) l l' : total f (l ++ l') = total f l + total f l'.
Proof. induction l as [|x l IH]; simpl; [done|]. rewrite IH. lia. Qed.
Lemma total_zero {A} (f : A -> Z) l : (forall x, x ∈ l -> f x = 0) -> total f l = 0.
Proof.
  induction l as [|x l IH]; intros Hz; simpl; [done|]. rewrite Hz, IH; [done| |by left]. intros y Hy. apply Hz. by right.
Qed.

(** ** An account *)

(** [cost] is what a call adds and [weight] what a task is still to account for. *)
Section account.
Context (cost : call -> Z) (weight : task -> Z)
  (inner_weight : forall t, inner t = true -> weight t = 0)
  (leave_weight : forall id, weight (TCloseLocked id) = 0)
  (invoke_weight : forall f ids, weight (TInvoke f ids) = 0)
  (other_cost : forall c, claiming c = false -> cost c = 0)
  (outer_step : forall o t h, outer t = true ->
    total weight (step o t h).1.2 - weight t <= total cost (step o t h).2).

Definition outstanding (s : System) : Z := msum (total weight) (sy_threads s).

Lemma step_account o t h :
  outer t || inner t = true -> total weight (step o t h).1.2 - weight t <= total cost (step o t h).2.
Proof using Type*.
  intros Ht. destruct (outer t) eqn:Eo; [by apply outer_step|]. cbn in Ht. rewrite (inner_weight t Ht).
  assert ((exists id, t = TClose id) \/ forall id, t <> TClose id) as [[id ->]|Hnc].
  { destruct t; try (by right); left; eauto. }
  - run_step. destruct (done_of id h); cbn [fst snd total foldr]; rewrite ?leave_weight; lia.
  - destruct (step_inner o t h Ht Hnc) as [Hi Hq]. rewrite !total_zero; [lia| |].
    + intros c Hc. apply other_cost. rewrite forallb_forall in Hq.
      specialize (Hq c ltac:(by apply list_elem_of_In)). by apply negb_true_iff.
    + intros u Hu. apply inner_weight. rewrite forallb_forall in Hi. apply Hi. by apply list_elem_of_In.
Qed.

Lemma reachable_account deps routes s : reachable deps routes s -> outstanding s <= total cost (sy_calls s).
Proof using Type*.
  apply (reachable_ind (fun s => outstanding s <= total cost (sy_calls s))); [done|].
  intros a b Ha Hab Hok. destruct (reachable_drained _ _ _ Ha) as [Hs _]. unfold outstanding in *.
  destruct Hab as [a i t rest o Hi|a i ts Hi He|a id]; cbn [sy_threads sy_calls].
  - rewrite (msum_replace _ _ _ _ _ Hi), !total_app. cbn [total foldr].
    pose proof (step_account o t (sy_hub a) (Hs i (t :: rest) t Hi ltac:(by left))).
    change (foldr (fun x z => weight x + z) 0 rest) with (total weight rest). lia.
  - rewrite msum_insert by done. rewrite total_zero; [lia|]. intros u Hu.
    destruct (entry_inner _ _ _ He Hu) as [[_ Hn]|(f & ids & ->)]; auto.
  - done.
Qed.
End account.

(** ** The claims of one connection on one invocation *)

Section invocation.
Context (id invocation : string).

Definition same (i v : string) : bool := bool_decide (i = id) && bool_decide (v = invocation).
Definition b2z (b : bool) : Z := if b then 1 else 0.

Definition claims (c : call) : Z := match c with CClaim i v => b2z (same i v) | _ => 0 end.
Definition releases (c : call) : Z := match c with CRelease i v => b2z (same i v) | _ => 0 end.
Definition enqueues (c : call) : Z := match c with CEnqueue i v => b2z (same i v) | _ => 0 end.
Definition acknowledges (c : call) : Z := match c with CAcknowledge i v => b2z (same i v) | _ => 0 end.

(** Tasks that hold a claim, and those that have acknowledged it. *)
Definition holds (t : task) : Z :=
  match t with
  | TClaimed f i _ | TAcknowledged f i _ => b2z (same i (sf_InvocationID f))
  | TRelease i v => b2z (same i v)
  | _ => 0
  end.
Definition acknowledged (t : task) : Z :=
  match t with TAcknowledged f i _ => b2z (same i (sf_InvocationID f)) | _ => 0 end.

Definition balance (c : call) : Z := claims c - releases c - enqueues c.

Lemma inner_holds t : inner t = true -> holds t = 0.
Proof using Type. by destruct t. Qed.
Lemma inner_acknowledged t : inner t = true -> acknowledged t = 0.
Proof using Type. by destruct t. Qed.
Lemma other_balance c : claiming c = false -> balance c = 0.
Proof using Type. by destruct c. Qed.

Lemma leaves_weight (weight : task -> Z) o i h :
  (forall f, weight (TLeave f) = 0) ->
  total weight (step o (TCloseLocked i) h).1.2 = 0 /\ (step o (TCloseLocked i) h).2 = [].
Proof using Type.
  intros Hw. run_step. destruct (close_locked o i h) as [h1 leaves]. cbn [fst snd]. split; [|done].
  apply total_zero. intros t (f & -> & _)%list_elem_of_fmap. apply Hw.
Qed.

Lemma outer_balance o t h : outer t = true ->
  total holds (step o t h).1.2 - holds t = total balance (step o t h).2.
Proof using Type.
  intros Ht. destruct t; try discriminate Ht.
  - destruct (leaves_weight holds o id0 h) as [-> ->]; [done|]. done.
  - run_step. destruct ids as [|i rest]; [done|]. destruct (_ || _); [done|]. cbn. unfold balance; cbn. lia.
  - run_step. destruct (done_of id0 h); [cbn; lia|]. destruct (or_ok o); cbn; unfold balance; cbn; lia.
  - run_step. destruct (send id0 frame h) as [h1 [[]|]]; cbn; unfold balance; cbn; lia.
  - cbn. unfold balance. cbn. lia.
Qed.
Lemma outer_acknowledged o t h : outer t = true ->
  total acknowledged (step o t h).1.2 - acknowledged t <= total (fun c => acknowledges c - enqueues c) (step o t h).2.
Proof using Type.
  assert (forall b, 0 <= b2z b) as Hb by (by intros []).
  intros Ht. destruct t; try discriminate Ht.
  - destruct (leaves_weight acknowledged o id0 h) as [-> ->]; [done|]. done.
  - run_step. destruct ids as [|i rest]; [done|]. destruct (_ || _); done.
  - run_step. destruct (done_of id0 h); [done|]. destruct (or_ok o); cbn; lia.
  - run_step. pose proof (Hb (same id0 (sf_InvocationID frame))). destruct (send id0 frame h) as [h1 [[]|]]; cbn; lia.
  - done.
Qed.
End invocation.

Lemma total_minus {A} (f g : A -> Z) l : total (fun x => f x - g x) l = total f l - total g l.
Proof. induction l as [|x l IH]; simpl; [done|]. rewrite IH. lia. Qed.
Lemma total_opp {A} (f : A -> Z) l : total (fun x => - f x) l = - total f l.
Proof. induction l as [|x l IH]; simpl; [done|]. rewrite IH. lia. Qed.
Lemma outstanding_opp w s : outstanding (fun t => - w t) s = - outstanding w s.
Proof.
  unfold outstanding. induction (sy_threads s) as [|i ts m Hi IH] using map_ind; [by rewrite !msum_empty|].
  rewrite !msum_insert, total_opp by done. lia.
Qed.
Lemma outstanding_finished w s :
  (forall i ts, sy_threads s !! i = Some ts -> ts = []) -> outstanding w s = 0.
Proof.
  unfold outstanding. induction (sy_threads s) as [|i ts m Hi IH] using map_ind; intros Hf; [by rewrite msum_empty|].
  rewrite msum_insert by done. rewrite (Hf i ts) by apply lookup_insert_eq. cbn. apply IH. intros j us Hj.
  apply (Hf j). rewrite lookup_insert_ne by congruence. done.
Qed.

(** Every claim is released, handed over, or still held. *)
Lemma claims_balanced deps routes s id invocation :
  reachable deps routes s -> total (balance id invocation) (sy_calls s) = outstanding (holds id invocation) s.
Proof.
  intros Hr.
  assert (outstanding (holds id invocation) s <= total (balance id invocation) (sy_calls s)).
  { eapply reachable_account; [apply inner_holds|done|done|apply other_balance| |exact Hr].
    intros o t h Ht. rewrite (outer_balance id invocation o t h Ht). lia. }
  assert (outstanding (fun t => - holds id invocation t) s <= total (fun c => - balance id invocation c) (sy_calls s)) as Hle.
  { eapply reachable_account; [|done|done| | |exact Hr].
    - intros t Ht. by rewrite inner_holds.
    - intros c Hc. by rewrite other_balance.
    - intros o t h Ht. rewrite !total_opp, <- (outer_balance id invocation o t h Ht). lia. }
  rewrite outstanding_opp, total_opp in Hle. lia.
Qed.
Lemma outstanding_nonneg w s : (forall t, 0 <= w t) -> 0 <= outstanding w s.
Proof.
  intros Hw. apply msum_nonneg. intros i ts _. induction ts as [|t ts IH]; [done|]. cbn. specialize (Hw t).
  change (foldr (fun x z => w x + z) 0 ts) with (total w ts). lia.
Qed.
Lemma acknowledged_enqueued deps routes s id invocation :
  reachable deps routes s -> total (enqueues id invocation) (sy_calls s) <= total (acknowledges id invocation) (sy_calls s).
Proof.
  intros Hr. assert (outstanding (acknowledged id invocation) s
    <= total (fun c => acknowledges id invocation c - enqueues id invocation c) (sy_calls s)) as Hle.
  { eapply reachable_account; [apply inner_acknowledged|done|done| |apply outer_acknowledged|exact Hr]. by intros []. }
  rewrite total_minus in Hle. pose proof (outstanding_nonneg (acknowledged id invocation) s) as Hn.
  enough (0 <= outstanding (acknowledged id invocation) s) by lia. apply Hn. intros []; cbn; try lia. by destruct (same _ _ _ _).
Qed.
