(* ===== verification/RealtimeClaims.v ===== *)
(** * What the realtime hub guarantees *)

From Stdlib Require Import Ascii String ZifyBool.
From S2P Require Import Prelude GoLib Crypto Json Domain QueueSchema RealtimeProtocol RealtimeHub RealtimeTasks RealtimeSystem RealtimeSteps RealtimeClosing.
Import Realtime Hub Tasks.

(** A grant of the session's token gives it the action on the channel. *)
Definition granted (x : Session) (channel action : string) : Prop :=
  exists grant actions, ss_capabilities x !! grant = Some actions /\ action ∈ actions
    /\ Channel.RealtimeChannelGrantMatches grant channel = true.
Lemma allowed_granted x channel action : allowed x channel action = true <-> granted x channel action.
Proof.
  unfold allowed, granted. rewrite existsb_exists. split.
  - intros ([g acts] & Hin%list_elem_of_In%elem_of_map_to_list & [Ha%bool_decide_eq_true Hm]%andb_prop). by exists g, acts.
  - intros (g & acts & Hg & Ha & Hm). exists (g, acts). split; [by apply list_elem_of_In, elem_of_map_to_list|].
    cbn. by rewrite Hm, (bool_decide_true _ Ha).
Qed.

(** The audience of a message has the session in it. *)
Definition meant_for (id : string) (x : Session) (f : ServerFrame) : Prop :=
  sf_Type f = "channel.message" -> exists a, sf_Audience f = Some a
    /\ (au_Type a = "all" \/ au_Type a = "others" /\ id <> sf_PublisherConnectionID f
        \/ au_Type a = "connection" /\ id = au_ConnectionID a
        \/ au_Type a = "client" /\ ss_clientID x = au_ClientID a).
Lemma audience_meant id x f : in_audience f id x = true -> meant_for id x f.
Proof.
  unfold in_audience, meant_for. intros Ha Ht. rewrite (bool_decide_true _ Ht) in Ha. cbn in Ha.
  destruct (sf_Audience f) as [a|]; [|done]. exists a. split; [done|].
  repeat case_bool_decide; naive_solver.
Qed.

(** A delivery the session is entitled to. *)
Definition entitled (id : string) (x : Session) (f : ServerFrame) : Prop :=
  sf_AppID f = ss_appID x /\ granted x (sf_Channel f) "subscribe" /\ meant_for id x f.
Lemma delivered_entitled id x f : delivered_to id x f -> entitled id x f.
Proof. intros (_ & Ha & _ & Hs%allowed_granted & Hm%audience_meant). done. Qed.

(** An answer to a frame that the session itself has sent. What it shows of the past,
    a page of history or the actions on a message, is of its own application and of a
    channel its token gives it that access to. *)
Definition answered (log : list (string * ClientFrame)) (id : string) (x : Session) (f : ServerFrame) : Prop :=
  (exists frame, (id, frame) ∈ log /\ answers frame f)
  /\ (sf_Type f = "history.result" -> granted x (sf_Channel f) "history"
      /\ forall item, item ∈ sf_Items f -> sf_AppID item = ss_appID x /\ sf_Channel item = sf_Channel f)
  /\ (sf_Type f = "message.actions.result" ->
      granted x (sf_Channel f) "annotate" /\ sf_AppID f = ss_appID x).
Lemma answer_answered log id x f : answer_to x f -> asked log id f -> answered log id x f.
Proof.
  intros Ha Hr. split; [exact Hr|]. destruct Ha as [Ht|[(Ht & Hh%allowed_granted & Hi)|(Ht & Hh%allowed_granted & Hi)]].
  - rewrite !elem_of_cons, elem_of_nil in Ht. split; intros Heq; rewrite Heq in Ht; destruct_or! Ht; done.
  - split; [done|congruence].
  - split; [congruence|done].
Qed.
Lemma answer_kind x f : answer_to x f -> sf_Type f ∈ answer_kinds.
Proof. unfold answer_kinds. intros [Ht|[(-> & _)|(-> & _)]]; set_solver. Qed.

(** C21: under any interleaving of goroutines, a frame in the queue of a version 2
    session is a delivery within the session's own application, on a channel its token
    lets it subscribe to and with the session in its audience, or an answer to a frame
    that this session has sent before (a page of history or of message actions only
    where its token allows that), or a message of the version 1 interface, which names
    no application, on a channel it may subscribe to; a frame held back while it
    rewinds is such a delivery, and it is subscribed to nothing but channels its token
    allows. [log] has the frames that were read so far and the sessions they came from;
    every reachable state has such a run ([reachable_runs]). *)
Theorem realtime_isolation deps routes s log id x :
  runs deps routes s log -> hb_objects (sy_hub s) !! id = Some x -> is_v2 x = true ->
  (forall f, f ∈ ss_outbound x ->
     entitled id x f \/ answered log id x f
     \/ sf_Type f = "channel.message" /\ sf_AppID f = "" /\ granted x (sf_Channel f) "subscribe")
  /\ (forall f, f ∈ ss_rewindBuffer x -> entitled id x f)
  /\ (forall topics t, hb_sessions (sy_hub s) !! id = Some topics -> t ∈ topics ->
        exists c, t = "channel:" ++ c /\ granted x c "subscribe")
  /\ (forall c, is_Some (ss_presence x !! c) -> granted x c "presence").
Proof.
  intros Hr Hx Hv. pose proof (runs_owed _ _ _ _ Hr) as [_ Hq]. apply runs_reachable in Hr.
  destruct (reachable_ok _ _ _ Hr) as [[Hm Hs] _]. destruct (Hs id x Hx). split_and!.
  - intros f Hf. destruct (so_frames f Hf Hv) as [Hd|[Ha|(Ht & Happ & Hg%allowed_granted)]].
    + left. by apply delivered_entitled.
    + right. left. apply answer_answered; [done|]. apply Hq; [by exists x|by eapply answer_kind].
    + auto.
  - intros f Hf. by apply delivered_entitled, so_buffered.
  - intros topics t Ht Hin. destruct (Hm id topics Ht) as (y & Hy & Htop). assert (y = x) as -> by congruence.
    destruct (Htop Hv t Hin) as (c & -> & Hc%allowed_granted). by exists c.
  - intros c Hc. by apply allowed_granted, so_presence.
Qed.

(** Under any interleaving, what the hub keeps for a session is bounded: at most 64
    frames wait to be written, at most 64 are held back while it rewinds, and at most
    1000 message identifiers are remembered. *)
Theorem realtime_bounded deps routes s id x :
  reachable deps routes s -> hb_objects (sy_hub s) !! id = Some x ->
  (length (ss_outbound x) <= 64)%nat /\ (length (ss_rewindBuffer x) <= 64)%nat
  /\ Z.of_nat (size (ss_rewindSeen x)) <= 1000.
Proof. intros Hr Hx. destruct (reachable_ok _ _ _ Hr) as [[_ Hs] _]. by destruct (Hs id x Hx). Qed.

(** C22: a session is closed exactly when it is no longer registered, but for the moment
    between [close(s.done)] and its removal; and when the hub has been closed and every
    goroutine has finished, no session is left: none is registered and all are closed. *)
Theorem hub_close_drains deps routes s :
  reachable deps routes s ->
  (forall id x, hb_objects (sy_hub s) !! id = Some x ->
     (~ registered (sy_hub s) id -> ss_done x = true)
     /\ (ss_done x = true -> registered (sy_hub s) id -> pending s (TCloseLocked id)))
  /\ (hb_closed (sy_hub s) = true -> (forall i ts, sy_threads s !! i = Some ts -> ts = []) ->
      hb_sessions (sy_hub s) = ∅ /\ forall id x, hb_objects (sy_hub s) !! id = Some x -> ss_done x = true).
Proof.
  intros Hr. destruct (reachable_drained _ _ _ Hr) as [_ [H1 H2 H3 H4 H5]].
  split; [intros id x Hx; split; [by apply H2|by apply H1]|]. intros Hc Hfin.
  assert (forall t, ~ pending s t) as Hnone.
  { intros t (i & ts & Hi & Ht). rewrite (Hfin i ts Hi) in Ht. by apply elem_of_nil in Ht. }
  assert (forall id, ~ registered (sy_hub s) id) as Hno.
  { intros id Hreg. destruct (H3 id Hc Hreg) as [Hp|Hp]; by eapply Hnone. }
  split; [|intros id x Hx; by apply (H2 id x Hx)]. apply map_empty. intros id.
  destruct (hb_sessions (sy_hub s) !! id) as [t|] eqn:E; [|done]. destruct (Hno id). by exists t.
Qed.

(** An application has a function route exactly while one of its registered sessions
    handles functions. *)
Theorem function_routes_exact deps s routes app :
  reachable deps true s -> hb_routes (sy_hub s) = Some routes ->
  app ∈ routes <-> exists id x topics, member (sy_hub s) id = Some (x, topics) /\ ss_appID x = app /\ "functions" ∈ topics.
Proof. intros Hr Ho. rewrite (reachable_routes _ _ _ Hr routes Ho). apply handled_member. Qed.

(** Every claim the hub makes on an invocation for a connection is answered once: it
    is released, handed to the connection, or still held by a goroutine, and when all
    goroutines have finished none is held; an invocation is handed over only after an
    acknowledgement. *)
Theorem function_claims_settled deps routes s id invocation :
  reachable deps routes s ->
  total (claims id invocation) (sy_calls s)
    = total (releases id invocation) (sy_calls s) + total (enqueues id invocation) (sy_calls s)
      + outstanding (holds id invocation) s
  /\ total (enqueues id invocation) (sy_calls s) <= total (acknowledges id invocation) (sy_calls s)
  /\ ((forall i ts, sy_threads s !! i = Some ts -> ts = []) -> outstanding (holds id invocation) s = 0).
Proof.
  intros Hr. pose proof (claims_balanced _ _ _ id invocation Hr) as Hb. unfold balance in Hb.
  rewrite total_minus in Hb. rewrite (total_minus (claims id invocation) (releases id invocation)) in Hb.
  split; [lia|]. split; [by eapply acknowledged_enqueued|apply outstanding_finished].
Qed.

(** ** What a delivery does *)

(** A session the frame is for. *)
Definition addressed (app : string) (f : ServerFrame) (id : string) (x : Session) (topics : gset string) : Prop :=
  is_v2 x = true /\ ss_appID x = app /\ topic_of (sf_Channel f) ∈ topics /\ in_audience f id x = true.
(** It has had the message in its history already. *)
Definition already (f : ServerFrame) (now : Z) (x : Session) : bool :=
  negb (bool_decide (sf_MessageID f = ""))
  && match ss_rewindSeen x !! sf_MessageID f with Some expires => now <? expires | None => false end.

Lemma selects_addressed app f now id x topics :
  addressed app f id x topics ->
  selects app f now id x topics
  = (if already f now x then Duplicate
     else if bool_decide (sf_Channel f ∈ ss_rewinding x)
     then if (OutboundQueueSize <=? length (ss_rewindBuffer x))%nat then Overflow else Buffered
     else Target).
Proof.
  intros (Hv & Ha & Ht & He). unfold selects. rewrite Hv, (bool_decide_true _ Ha), (bool_decide_true _ Ht), He. done.
Qed.
Lemma selects_unaddressed app f now id x topics :
  ~ addressed app f id x topics -> selects app f now id x topics = NotTarget.
Proof.
  intros Hn. unfold selects. destruct (negb (is_v2 x) || _ || _) eqn:E; [done|].
  destruct (negb (in_audience f id x)) eqn:E2; [done|]. destruct Hn.
  apply orb_false_iff in E as [[E%negb_false_iff Ea%negb_false_iff%bool_decide_eq_true]%orb_false_iff Et].
  apply negb_false_iff in Et, E2. by apply bool_decide_eq_true in Et.
Qed.
#[export] Instance addressed_dec app f id x topics : Decision (addressed app f id x topics).
Proof. unfold addressed. apply _. Defined.

Lemma chosen_member kind app f now h id x topics :
  member h id = Some (x, topics) ->
  id ∈ chosen kind (selection app f now h) <-> kind (selects app f now id x topics) = true.
Proof.
  intros Hm. unfold chosen, selection. rewrite list_elem_of_fmap. split.
  - intros ([i k] & -> & Hin%list_elem_of_In). apply filter_In in Hin as [Hin%list_elem_of_In Hk]. cbn in Hk.
    apply list_elem_of_fmap in Hin as ([[j y] ts] & [= -> ->] & Hin%members_elem).
    cbn in Hm. assert ((y, ts) = (x, topics)) as [= -> ->] by congruence. done.
  - intros Hk. exists (id, selects app f now id x topics). split; [done|]. apply list_elem_of_In, filter_In.
    split; [|done]. apply list_elem_of_In, list_elem_of_fmap. exists (id, x, topics). split; [done|]. by apply members_elem.
Qed.
Definition had (app : string) (f : ServerFrame) (now : Z) (m : string * Session * gset string) : bool :=
  let '(id, x, topics) := m in bool_decide (addressed app f id x topics) && negb (already f now x).
Lemma chosen_count app f now l :
  (length (chosen (fun k => match k with Target => true | _ => false end)
     ((fun m => let '(id, x, topics) := m in (id, selects app f now id x topics)) <$> l))
   + length (chosen (fun k => match k with Overflow | Buffered => true | _ => false end)
     ((fun m => let '(id, x, topics) := m in (id, selects app f now id x topics)) <$> l))
   = length (List.filter (had app f now) l))%nat.
Proof.
  unfold chosen. induction l as [|[[id x] topics] l IH]; [done|]. cbn. destruct (decide (addressed app f id x topics)) as [Ha|Ha].
  - rewrite (selects_addressed _ _ now _ _ _ Ha), (bool_decide_true _ Ha).
    destruct (already f now x); [exact IH|]. destruct (bool_decide (sf_Channel f ∈ _)); [|cbn; lia].
    destruct (_ <=? _)%nat; cbn; rewrite Nat.add_succ_r; by f_equal.
  - rewrite (selects_unaddressed _ _ now _ _ _ Ha), (bool_decide_false _ Ha). exact IH.
Qed.

(** A delivery treats every registered session exactly as its subscription says. A
    session of the application that is subscribed to the channel and addressed, and
    has not had the message with its history, is sent the frame at once; while it
    rewinds the channel the frame is put at the end of what is held back, or the
    session is closed when that is full; nobody else is sent or held anything. The
    count is of the sessions addressed. *)
Theorem delivery_exact app f now h id x topics :
  validV2Delivery app f = true -> member h id = Some (x, topics) ->
  let '(h1, overflow, targets, count) := deliver_locked app f now h in
  let wanted := bool_decide (addressed app f id x topics) && negb (already f now x) in
  let rewinding := bool_decide (sf_Channel f ∈ ss_rewinding x) in
  let full := (64 <=? length (ss_rewindBuffer x))%nat in
  (id ∈ targets <-> wanted && negb rewinding = true)
  /\ (id ∈ overflow <-> wanted && rewinding && full = true)
  /\ (exists y, hb_objects h1 !! id = Some y /\ ss_outbound y = ss_outbound x
        /\ ss_rewindBuffer y = if wanted && rewinding && negb full then (ss_rewindBuffer x ++ [f])%list else ss_rewindBuffer x)
  /\ count = Z.of_nat (length (List.filter (had app f now) (members h))).
Proof.
  intros Hv Hm. pose proof (deliver_locked_objects app f now h id Hv) as Hobj.
  destruct (proj1 (member_some _ _ _ _) Hm) as [Ho Hs]. rewrite Ho, Hs in Hobj. unfold deliver_locked in Hobj |- *.
  rewrite Hv in Hobj |- *. cbn [negb fst] in Hobj |- *.
  rewrite !(chosen_member _ _ _ _ _ _ _ _ Hm), Hobj. split; [|split; [|split]].
  4:{ rewrite <- Nat2Z.inj_add. f_equal. apply chosen_count. }
  all: destruct (decide (addressed app f id x topics)) as [Ha|Ha];
    [rewrite ?(selects_addressed _ _ now _ _ _ Ha), ?(bool_decide_true _ Ha)
    |rewrite ?(selects_unaddressed _ _ now _ _ _ Ha), ?(bool_decide_false _ Ha)].
  1-4: destruct (already f now x), (bool_decide (sf_Channel f ∈ ss_rewinding x));
    change OutboundQueueSize with 64%nat; destruct (64 <=? length (ss_rewindBuffer x))%nat; done.
  all: cbn [fmap option_fmap option_map]; eexists; (split; [reflexivity|]); unfold selected.
  - rewrite (selects_addressed _ _ now _ _ _ Ha). change OutboundQueueSize with 64%nat.
    destruct (already f now x), (bool_decide (sf_Channel f ∈ ss_rewinding x)), (64 <=? length (ss_rewindBuffer x))%nat;
      try done; by destruct (bool_decide (sf_MessageID f = "")).
  - by rewrite (selects_unaddressed _ _ now _ _ _ Ha).
Qed.

(** ** Going live after a rewind *)

(** A goroutine that runs on its own. *)
Fixpoint alone (fuel : nat) (o : Oracle) (ts : list task) (h : Hub) : Hub * list task :=
  match fuel, ts with
  | S n, t :: rest => let '(h1, new, _) := step o t h in alone n o (new ++ rest)%list h1
  | _, _ => (h, ts)
  end.
Lemma alone_step n o t rest h :
  alone (S n) o (t :: rest) h = alone n o ((step o t h).1.2 ++ rest)%list (step o t h).1.1.
Proof. cbn [alone]. by destruct (step o t h) as [[]]. Qed.

(** What was held back and is not in the history that was sent. *)
Definition unseen (seen : list string) (f : ServerFrame) : bool :=
  negb (negb (bool_decide (sf_MessageID f = "")) && bool_decide (sf_MessageID f ∈ seen)).

Lemma rewind_sends o id seen frames h x :
  hb_objects h !! id = Some x -> ss_done x = false ->
  (length (ss_outbound x) + length (List.filter (unseen seen) frames) <= 64)%nat ->
  exists h1, (forall n, alone (length frames + S n) o [TRewindSend id frames seen] h = alone n o [TFinishRewind id seen] h1)
    /\ hb_sessions h1 = hb_sessions h
    /\ hb_objects h1 !! id = Some (set_outbound (ss_outbound x ++ List.filter (unseen seen) frames)%list x).
Proof.
  revert h x. induction frames as [|f frames IH]; intros h x Hx Hd Hlen.
  { exists h. split; [intros n; by rewrite Nat.add_0_l, alone_step|]. split; [done|]. rewrite Hx. f_equal. cbn.
    rewrite app_nil_r. by destruct x. }
  cbn [List.filter] in Hlen |- *.
  assert (unseen seen f = negb (negb (bool_decide (sf_MessageID f = "")) && bool_decide (sf_MessageID f ∈ seen))) as Hu by done.
  rewrite Hu in Hlen |- *. clear Hu.
  destruct (negb (bool_decide (sf_MessageID f = "")) && bool_decide (sf_MessageID f ∈ seen)) eqn:E; cbn [negb] in Hlen |- *.
  { destruct (IH h x Hx Hd Hlen) as (h1 & Hrun & Hs & Ho). exists h1. split; [|done]. intros n.
    change (length (f :: frames) + S n)%nat with (S (length frames + S n)). rewrite alone_step. run_step. rewrite E. apply Hrun. }
  cbn [length] in Hlen. set (x1 := set_outbound (ss_outbound x ++ [f])%list x).
  set (h2 := on_session (fun s => set_outbound (ss_outbound s ++ [f])%list s) id h).
  assert (send id f h = (h2, Some true)) as Hsend.
  { unfold send. rewrite Hx, Hd. assert ((length (ss_outbound x) <? OutboundQueueSize)%nat = true) as ->; [|done].
    apply Nat.ltb_lt. unfold OutboundQueueSize. lia. }
  destruct (IH h2 x1) as (h1 & Hrun & Hs & Ho).
  { cbn. by rewrite lookup_alter_eq, Hx. }
  { done. }
  { cbn. rewrite length_app. cbn. lia. }
  exists h1. split; [|split; [done|]].
  - intros n. change (length (f :: frames) + S n)%nat with (S (length frames + S n)). rewrite alone_step. run_step.
    rewrite E, Hsend. apply Hrun.
  - rewrite Ho. cbn. by rewrite <- app_assoc.
Qed.

(** When a session goes live after a rewind, what was held back is queued behind the
    history in the order it arrived, without the messages the history already had;
    then nothing is held back, no channel is rewinding, and the goroutine is done. *)
Theorem rewind_goes_live o id seen h x topics :
  member h id = Some (x, topics) -> ss_done x = false ->
  (length (ss_outbound x) + length (List.filter (unseen seen) (ss_rewindBuffer x)) <= 64)%nat ->
  exists h1 y, alone (length (ss_rewindBuffer x) + 3) o [TFinishRewind id seen] h = (h1, [])
    /\ member h1 id = Some (y, topics)
    /\ ss_outbound y = (ss_outbound x ++ List.filter (unseen seen) (ss_rewindBuffer x))%list
    /\ ss_rewindBuffer y = [] /\ ss_rewinding y = ∅.
Proof.
  intros Hm Hd Hlen. destruct (proj1 (member_some _ _ _ _) Hm) as [Ho Hs].
  assert (forall h y n, member h id = Some (y, topics) -> ss_rewindBuffer y = [] ->
    alone (S n) o [TFinishRewind id seen] h = (on_session (remember o seen) id h, [])) as Hlast.
  { intros h' y n Hm' Hb. rewrite alone_step. run_step. rewrite Hm', Hb. by destruct n. }
  assert (forall h y, member h id = Some (y, topics) ->
    member (on_session (remember o seen) id h) id = Some (remember o seen y, topics)) as Hmem.
  { intros h' y Hy. rewrite member_some in Hy |- *. destruct Hy as [Hy Ht]. cbn. by rewrite lookup_alter_eq, Hy. }
  destruct (ss_rewindBuffer x) as [|f fs] eqn:Hb.
  { exists (on_session (remember o seen) id h), (remember o seen x). split; [by eapply Hlast|]. split; [by apply Hmem|].
    cbn. by rewrite app_nil_r. }
  set (h0 := on_session (fun s => set_rewind (ss_rewinding s) [] (ss_rewindSeen s) s) id h).
  set (x0 := set_rewind (ss_rewinding x) [] (ss_rewindSeen x) x).
  destruct (rewind_sends o id seen (f :: fs) h0 x0) as (h1 & Hrun & Hs1 & Ho1).
  { cbn. by rewrite lookup_alter_eq, Ho. }
  { done. }
  { done. }
  assert (member h1 id = Some (set_outbound (ss_outbound x0 ++ List.filter (unseen seen) (f :: fs))%list x0, topics)) as Hm1.
  { rewrite member_some. by rewrite Hs1. }
  eexists _, _. split; [|split; [apply (Hmem h1), Hm1|done]].
  replace (length (f :: fs) + 3)%nat with (S (length (f :: fs) + 2)) by lia. rewrite alone_step. run_step. rewrite Hm, Hb.
  etransitivity; [exact (Hrun 1%nat)|]. by eapply Hlast.
Qed.

(** * The realtime hub, run

    Schedules of goroutines that can be evaluated, the states they reach, and the
    claims of [RealtimeClaims] at those states. *)

(** ** Schedules *)

Inductive op :=
| ORegister (id app protocol client : string) (capabilities : gmap string (list string))
| OFrame (id : string) (frame : ClientFrame)
| ODeliver (app : string) (frame : ServerFrame)
| OChannel (m : ChannelMessage)
| OInvoke (app : string) (frame : ServerFrame)
| OHubClose.
Definition op_tasks (o : op) (h : Hub) : option (list task) :=
  match o with
  | ORegister id app protocol client capabilities => Some [TRegister id app protocol client capabilities]
  | OFrame id frame =>
      match hb_objects h !! id with
      | Some s => if is_v2 s && isSome (checkFrameV2 frame) then None else Some [TFrame id frame]
      | None => None
      end
  | ODeliver app frame => Some [TDeliver app frame]
  | OChannel m => Some (PublishChannel m)
  | OInvoke app frame => Some (InvokeFunction app frame h)
  | OHubClose => Some [THubClose]
  end.
Lemma op_entry o h ts : op_tasks o h = Some ts -> entry h ts.
Proof.
  destruct o; cbn [op_tasks]; try (intros [= <-]; constructor).
  destruct (hb_objects h !! id) as [s|] eqn:Hs; [|done]. destruct (is_v2 s && _) eqn:E; [done|]. intros [= <-].
  apply (enter_frame h id s); [done|]. intros Hv. rewrite Hv in E. cbn in E. by destruct (checkFrameV2 frame).
Qed.

Inductive act := Start (i : nat) (o : op) | Run (i : nat) (o : Oracle) | Wrote (id : string).
Definition act_step (s : System) (a : act) : option System :=
  match a with
  | Start i o =>
      match sy_threads s !! i, op_tasks o (sy_hub s) with
      | None, Some ts => Some (mkSystem (sy_hub s) (<[i := ts]> (sy_threads s)) (sy_calls s))
      | _, _ => None
      end
  | Run i o =>
      match sy_threads s !! i with
      | Some (t :: rest) => Some (mkSystem (step o t (sy_hub s)).1.1
                                    (<[i := ((step o t (sy_hub s)).1.2 ++ rest)%list]> (sy_threads s))
                                    (sy_calls s ++ (step o t (sy_hub s)).2)%list)
      | _ => None
      end
  | Wrote id => Some (mkSystem (written id (sy_hub s)) (sy_threads s) (sy_calls s))
  end.
Fixpoint schedule (l : list act) (s : System) : option System :=
  match l with [] => Some s | a :: l' => act_step s a ≫= schedule l' end.
Lemma act_step_sound s a s' : act_step s a = Some s' -> sys_step s s'.
Proof.
  destruct a as [i o|i o|id]; cbn.
  - destruct (sy_threads s !! i) eqn:Hi; [done|]. destruct (op_tasks o (sy_hub s)) eqn:Ho; [|done]. intros [= <-].
    apply sys_start; [done|by eapply op_entry].
  - destruct (sy_threads s !! i) as [[|t rest]|] eqn:Hi; [done| |done]. intros [= <-]. by apply sys_run.
  - intros [= <-]. apply sys_write.
Qed.
Lemma schedule_sound l s s' : schedule l s = Some s' -> rtc sys_step s s'.
Proof.
  revert s. induction l as [|a l IH]; intros s; cbn; [by intros [= <-]|]. destruct (act_step s a) as [s1|] eqn:Ha; [|done].
  intros Hl. eapply rtc_l; [by eapply act_step_sound|by apply IH].
Qed.
(** The state a schedule leads to. *)
Definition reached (deps : Deps) (l : list act) : System := default (initial deps true) (schedule l (initial deps true)).
Lemma reached_reachable deps l : reachable deps true (reached deps l).
Proof.
  unfold reached. destruct (schedule l (initial deps true)) as [s|] eqn:E; [by apply (schedule_sound l)|]. apply rtc_refl.
Qed.

(** ** A session that subscribes and is sent a message *)

Definition demo_deps : Deps := mkDeps false false false false false false false true.
Definition demo_oracle : Oracle :=
  mkOracle (1000 * Second) "2026-01-01T00:00:00Z" (fun n => "u") true false true true None None (inl None)
    (inr connection_closed) (inr connection_closed) (inr connection_closed) (fun _ _ => None) "".
Definition demo_caps : gmap string (list string) := {["orders:*" := ["subscribe"; "publish"; "presence"]]}.
Definition client_frame (type : string) (topics channels : list string) (rewind : option HistoryRequest) : ClientFrame :=
  mkClientFrame type topics channels "" None "" None rewind 0 "" [] "" "" "" "" "" "" None "" "".
Definition demo_message : ServerFrame :=
  message_frame "app_a" "orders:live" "cli" "conn_9" "msg_1" "2026-01-01T00:00:00Z" (mkAudience "all" "" "")
    "{}" None None.
Definition run (i n : nat) : list act := repeat (Run i demo_oracle) n.

Definition demo_join : list act :=
  Start 0 (ORegister "conn_1" "app_a" ProtocolV2 "cli" demo_caps) :: run 0 1
  ++ Start 1 (OFrame "conn_1" (client_frame "subscribe" [] ["orders:live"] None)) :: run 1 3.
Definition demo_sent : list act := demo_join ++ Start 2 (ODeliver "app_a" demo_message) :: run 2 2.

(** What can be seen of a state without its maps. *)
Definition queue_types (s : System) (id : string) : option (list string * bool) :=
  (fun x => (sf_Type <$> ss_outbound x, is_v2 x)) <$> hb_objects (sy_hub s) !! id.
Definition the_session (s : System) (id : string) : Session :=
  default (new_session "" "" "" ∅ true) (hb_objects (sy_hub s) !! id).
Lemma the_session_eq s id : isSome (hb_objects (sy_hub s) !! id) = true -> hb_objects (sy_hub s) !! id = Some (the_session s id).
Proof. unfold the_session. by destruct (hb_objects (sy_hub s) !! id). Qed.

Example demo_queue : queue_types (reached demo_deps demo_sent) "conn_1" = Some (["subscribed"; "channel.message"], true).
Proof. vm_compute. reflexivity. Qed.

(** The frames that a schedule has had read. *)
Definition act_reads (s : System) (a : act) : list (string * ClientFrame) :=
  match a with
  | Run i _ => match sy_threads s !! i with Some (t :: _) => read_by t | _ => [] end
  | _ => []
  end.
Fixpoint schedule_reads (l : list act) (s : System) : list (string * ClientFrame) :=
  match l with
  | [] => []
  | a :: l' => (act_reads s a ++ match act_step s a with Some s' => schedule_reads l' s' | None => [] end)%list
  end.
Lemma schedule_runs deps l s log s' :
  runs deps true s log -> schedule l s = Some s' -> runs deps true s' (log ++ schedule_reads l s)%list.
Proof.
  revert s log. induction l as [|a l IH]; intros s log Hr; cbn; [intros [= <-]; by rewrite app_nil_r|].
  destruct (act_step s a) as [s1|] eqn:Ha; [|done]. rewrite app_assoc. apply IH. revert Ha.
  destruct a as [i o|i o|id]; cbn; rewrite ?app_nil_r.
  - destruct (sy_threads s !! i) eqn:Hi; [done|]. destruct (op_tasks o (sy_hub s)) eqn:Ho; [|done]. intros [= <-].
    apply runs_start; [done|done|by eapply op_entry].
  - destruct (sy_threads s !! i) as [[|t rest]|] eqn:Hi; [done| |done]. intros [= <-]. by apply runs_task.
  - intros [= <-]. by apply runs_write.
Qed.

Definition demo_log : list (string * ClientFrame) := schedule_reads demo_sent (initial demo_deps true).
Lemma demo_runs : runs demo_deps true (reached demo_deps demo_sent) demo_log.
Proof.
  apply (schedule_runs demo_deps demo_sent (initial demo_deps true) []); [apply runs_initial|]. unfold reached.
  destruct (schedule demo_sent (initial demo_deps true)) as [s|] eqn:E; [done|]. exfalso.
  assert (isSome (schedule demo_sent (initial demo_deps true)) = true) as Hs by (vm_compute; reflexivity).
  by rewrite E in Hs.
Qed.

Lemma realtime_isolation_witness :
  demo_log = [("conn_1", client_frame "subscribe" [] ["orders:live"] None)]
  /\ queue_types (reached demo_deps demo_sent) "conn_1" = Some (["subscribed"; "channel.message"], true)
  /\ forall f, f ∈ ss_outbound (the_session (reached demo_deps demo_sent) "conn_1") ->
       entitled "conn_1" (the_session (reached demo_deps demo_sent) "conn_1") f
       \/ answered demo_log "conn_1" (the_session (reached demo_deps demo_sent) "conn_1") f
       \/ sf_Type f = "channel.message" /\ sf_AppID f = ""
          /\ granted (the_session (reached demo_deps demo_sent) "conn_1") (sf_Channel f) "subscribe".
Proof.
  split; [vm_compute; reflexivity|]. split; [apply demo_queue|].
  apply (realtime_isolation demo_deps true (reached demo_deps demo_sent) demo_log "conn_1"
    (the_session (reached demo_deps demo_sent) "conn_1")).
  - apply demo_runs.
  - apply the_session_eq. vm_compute. reflexivity.
  - vm_compute. reflexivity.
Defined.

Lemma realtime_bounded_witness :
  length (ss_outbound (the_session (reached demo_deps demo_sent) "conn_1")) = 2%nat
  /\ (length (ss_outbound (the_session (reached demo_deps demo_sent) "conn_1")) <= 64)%nat.
Proof.
  split; [vm_compute; reflexivity|].
  apply (realtime_bounded demo_deps true (reached demo_deps demo_sent) "conn_1"
    (the_session (reached demo_deps demo_sent) "conn_1")); [apply reached_reachable|].
  apply the_session_eq. vm_compute. reflexivity.
Defined.

(** ** A function handler, an invocation, and the end *)

Definition demo_invocation : ServerFrame :=
  mkServerFrame "rpc.invoke" "" [] [] "" "" "" "" "" "" None 0 "" None "" "" "" [] [] None [] None None None "" "" "inv_1".
Definition demo_handler : list act :=
  Start 0 (ORegister "conn_2" "app_b" "" "" ∅) :: run 0 1
  ++ Start 1 (OFrame "conn_2" (client_frame "subscribe" ["functions"] [] None)) :: run 1 2.
Definition demo_invoked : list act := demo_handler ++ Start 2 (OInvoke "app_b" demo_invocation) :: run 2 3.
Definition demo_ended : list act := demo_invoked ++ Start 3 OHubClose :: run 3 3.

Definition finished (s : System) : bool := forallb (fun x : nat * list task => bool_decide (length x.2 = 0%nat)) (map_to_list (sy_threads s)).
Lemma finished_spec s : finished s = true -> forall i ts, sy_threads s !! i = Some ts -> ts = [].
Proof.
  unfold finished. rewrite forallb_forall. intros Hf i ts Hi.
  specialize (Hf (i, ts) ltac:(by apply list_elem_of_In, elem_of_map_to_list)). apply bool_decide_eq_true in Hf.
  by apply nil_length_inv.
Qed.

Lemma function_routes_exact_witness :
  "app_b" ∈ default ∅ (hb_routes (sy_hub (reached demo_deps demo_handler)))
  /\ exists id x topics, member (sy_hub (reached demo_deps demo_handler)) id = Some (x, topics)
       /\ ss_appID x = "app_b" /\ "functions" ∈ topics.
Proof.
  assert ("app_b" ∈ default ∅ (hb_routes (sy_hub (reached demo_deps demo_handler)))) as Hin.
  { apply (bool_decide_unpack _). vm_compute. exact I. }
  split; [exact Hin|].
  apply (function_routes_exact demo_deps (reached demo_deps demo_handler)
    (default ∅ (hb_routes (sy_hub (reached demo_deps demo_handler)))) "app_b"); [apply reached_reachable| |exact Hin].
  vm_compute. reflexivity.
Defined.

Lemma function_claims_settled_witness :
  total (claims "conn_2" "inv_1") (sy_calls (reached demo_deps demo_invoked)) = 1
  /\ outstanding (holds "conn_2" "inv_1") (reached demo_deps demo_invoked) = 0
  /\ total (claims "conn_2" "inv_1") (sy_calls (reached demo_deps demo_invoked))
     = total (releases "conn_2" "inv_1") (sy_calls (reached demo_deps demo_invoked))
       + total (enqueues "conn_2" "inv_1") (sy_calls (reached demo_deps demo_invoked))
       + outstanding (holds "conn_2" "inv_1") (reached demo_deps demo_invoked).
Proof.
  split; [vm_compute; reflexivity|]. split.
  - apply (function_claims_settled demo_deps true (reached demo_deps demo_invoked) "conn_2" "inv_1");
      [apply reached_reachable|]. apply finished_spec. vm_compute. reflexivity.
  - apply (function_claims_settled demo_deps true (reached demo_deps demo_invoked) "conn_2" "inv_1"). apply reached_reachable.
Defined.

Lemma hub_close_drains_witness :
  hb_closed (sy_hub (reached demo_deps demo_ended)) = true
  /\ hb_sessions (sy_hub (reached demo_deps demo_ended)) = ∅
  /\ hb_sessions (sy_hub (reached demo_deps demo_invoked)) <> ∅.
Proof.
  assert (hb_closed (sy_hub (reached demo_deps demo_ended)) = true) as Hc by (vm_compute; reflexivity).
  split; [exact Hc|]. split.
  - apply (hub_close_drains demo_deps true (reached demo_deps demo_ended)); [apply reached_reachable|exact Hc|].
    apply finished_spec. vm_compute. reflexivity.
  - intros He. apply (f_equal (lookup "conn_2")) in He. vm_compute in He. discriminate He.
Defined.

(** ** Deliveries and going live, at one hub *)

Definition rewinding_hub : Hub :=
  on_session (fun s => set_rewind {["orders:live"]} [demo_message] ∅ s) "conn_1" (sy_hub (reached demo_deps demo_join)).
Definition rewinding_session : Session :=
  default (new_session "" "" "" ∅ true) (hb_objects rewinding_hub !! "conn_1").
Definition rewinding_topics : gset string := default ∅ (hb_sessions rewinding_hub !! "conn_1").
Lemma rewinding_member : member rewinding_hub "conn_1" = Some (rewinding_session, rewinding_topics).
Proof. apply member_some. split; vm_compute; reflexivity. Qed.

Lemma delivery_exact_witness :
  exists y, hb_objects (deliver_locked "app_a" demo_message 0 rewinding_hub).1.1.1 !! "conn_1" = Some y
    /\ ss_rewindBuffer y = [demo_message; demo_message].
Proof.
  pose proof (delivery_exact "app_a" demo_message 0 rewinding_hub "conn_1" rewinding_session rewinding_topics
    ltac:(vm_compute; reflexivity) rewinding_member) as H.
  destruct (deliver_locked "app_a" demo_message 0 rewinding_hub) as [[[h1 overflow] targets] count].
  destruct H as (_ & _ & (y & Hy & _ & Hb) & _). exists y. split; [exact Hy|]. rewrite Hb. vm_compute. reflexivity.
Defined.

Lemma rewind_goes_live_witness :
  exists h1 y, alone 4 demo_oracle [TFinishRewind "conn_1" ["msg_0"]] rewinding_hub = (h1, [])
    /\ member h1 "conn_1" = Some (y, rewinding_topics)
    /\ sf_Type <$> ss_outbound y = ["subscribed"; "channel.message"] /\ ss_rewindBuffer y = [].
Proof.
  destruct (rewind_goes_live demo_oracle "conn_1" ["msg_0"] rewinding_hub rewinding_session rewinding_topics rewinding_member)
    as (h1 & y & Hrun & Hm & Hq & Hb & _).
  - vm_compute. reflexivity.
  - vm_compute. lia.
  - exists h1, y. split; [exact Hrun|]. split; [exact Hm|]. split; [|exact Hb]. rewrite Hq. vm_compute. reflexivity.
Defined.

(** ** A message of one application at a session of another *)

(** [PublishChannel] has no application: a session of [app_a] receives what [app_z]
    publishes on a channel of the same name. *)
Definition demo_crossed : list act :=
  demo_join ++ Start 2 (OChannel (mkChannelMessage "orders:live" "app_z" "{}")) :: run 2 2.
Theorem channel_message_crosses :
  exists x f, hb_objects (sy_hub (reached demo_deps demo_crossed)) !! "conn_1" = Some x
    /\ is_v2 x = true /\ ss_appID x = "app_a" /\ f ∈ ss_outbound x
    /\ sf_Type f = "channel.message" /\ sf_PublisherAppID f = "app_z".
Proof.
  exists (the_session (reached demo_deps demo_crossed) "conn_1").
  exists (List.nth 1 (ss_outbound (the_session (reached demo_deps demo_crossed) "conn_1")) (typed "")).
  split; [apply the_session_eq; vm_compute; reflexivity|]. split; [vm_compute; reflexivity|].
  split; [vm_compute; reflexivity|]. split; [|split; vm_compute; reflexivity].
  apply list_elem_of_In, nth_In. vm_compute. lia.
Qed.
