(* ===== verification/FunctionResult.v ===== *)
(** * Results of functions ([domain/function.go])

    The result a handler sends back, the canonical form of its errors, and the
    bound on its size. *)

From Stdlib Require Import Ascii String.
From S2P Require Import Prelude GoLib Crypto Json JsonEncode Domain QueueSchema.

(** ** Raw JSON, as [json.Marshal] writes it *)

Definition escape_html (c : ascii) : list ascii :=
  if decide (c = "<"%char) then bytes "\u003c"
  else if decide (c = ">"%char) then bytes "\u003e"
  else if decide (c = "&"%char) then bytes "\u0026"
  else [c].
(** [compact] with escaping: white space outside of strings goes, three characters
    and the separators U+2028 and U+2029 are escaped. [inside] a string, a byte after a
    backslash is [quoted]. *)
Fixpoint compact_bytes (inside quoted : bool) (l : list ascii) : list ascii :=
  match l with
  | [] => []
  | c :: l' =>
      let next := if inside then if quoted then (true, false)
                                 else if decide (c = "\"%char) then (true, true)
                                 else if decide (c = chr 34) then (false, false) else (true, false)
                  else if decide (c = chr 34) then (true, false) else (false, false) in
      if negb inside && is_space c then compact_bytes false false l' else
      match l' with
      | x :: y :: l'' =>
          if bool_decide (c = chr 226) && bool_decide (x = chr 128) && (bool_decide (y = chr 168) || bool_decide (y = chr 169))
          then (bytes (if decide (y = chr 168) then "\u2028" else "\u2029") ++ compact_bytes (next.1) (next.2) l'')%list
          else (escape_html c ++ compact_bytes (next.1) (next.2) l')%list
      | _ => (escape_html c ++ compact_bytes (next.1) (next.2) l')%list
      end
  end.
Definition compact (raw : string) : string := of_bytes (compact_bytes false false (bytes raw)).

(** ** Data *)

Record RPCResult := mkRPCResult {
  rr_InvocationID : string;
  rr_OK : bool;
  rr_Result : string;
  rr_Error : string
}.
Definition set_Error (e : string) (r : RPCResult) : RPCResult :=
  mkRPCResult (rr_InvocationID r) (rr_OK r) (rr_Result r) e.

(** ** Errors of a handler *)

(** The members of an error: [code] and [message] once each, both strings. *)
Fixpoint error_fields (code message : option string) (ms : list (string * json)) : option (string * string) :=
  match ms with
  | [] => match code, message with Some c, Some m => Some (c, m) | _, _ => None end
  | (name, v) :: ms' =>
      match v with
      | JStr s =>
          if bool_decide (name = "code") then if isSome code then None else error_fields (Some s) message ms'
          else if bool_decide (name = "message") then if isSome message then None else error_fields code (Some s) ms'
          else None
      | _ => None
      end
  end.
(** The decoder reads from the first byte, so what [JSONObject] trims off in front must
    be white space of JSON. *)
Definition CanonicalRPCError (raw : string) : option string :=
  if negb (JSONObject raw) then None else
  match skip_space (bytes raw), json_parse (TrimSpace raw) with
  | c :: _, Some (JObj ms) =>
      if negb (bool_decide (c = "{"%char)) then None else
      match error_fields None None ms with
      | Some (code, message) =>
          if negb (ValidFunctionName code) || bool_decide (message = "") || (1024 <? len message) then None
          else Some (json_object [("code", SStr code); ("message", SStr message)])
      | None => None
      end
  | _, _ => None
  end.

(** ** The bound on a result *)

(** [json.Marshal] of the frame; a raw value that is not JSON makes it fail. *)
Definition raw_field (name raw : string) : list (string * string) := if len raw =? 0 then [] else [(name, compact raw)].
Definition raw_ok (raw : string) : bool := (len raw =? 0) || json_Valid raw.
Definition result_text (r : RPCResult) : string :=
  object_text ([("type", json_quote "rpc.result"); ("invocation_id", json_quote (rr_InvocationID r));
                ("ok", bool_text (rr_OK r))] ++ raw_field "result" (rr_Result r) ++ raw_field "error" (rr_Error r))%list.
Definition ValidRPCResult (r : RPCResult) : bool :=
  if bool_decide (rr_InvocationID r = "") || (128 <? len (rr_InvocationID r)) then false else
  if (if rr_OK r then negb (len (rr_Error r) =? 0) || negb (utf8_Valid (rr_Result r)) || negb (json_Valid (rr_Result r))
      else negb (len (rr_Result r) =? 0) || negb (JSONObject (rr_Error r)) || isNone (CanonicalRPCError (rr_Error r)))
  then false else
  raw_ok (rr_Result r) && raw_ok (rr_Error r) && (len (result_text r) <=? FunctionFrameLimit).

(** Quotation marks for the examples: a single quote stands for a double one. *)
Definition quotes (s : string) : string := of_bytes ((fun c => if decide (c = "'"%char) then chr 34 else c) <$> bytes s).
Example canonical_ex1 :
  CanonicalRPCError (quotes " { 'message' : '<no>', 'code':'bad' } ")
  = Some (quotes "{'code':'bad','message':'\u003cno\u003e'}").
Proof. reflexivity. Qed.
Example canonical_ex2 : CanonicalRPCError (quotes "{'code':'bad','code':'bad','message':'m'}") = None.
Proof. reflexivity. Qed.
Example compact_ex : compact (quotes "{ 'a b' : [1, '\' ' ] , 'c' : '&'}") = quotes "{'a b':[1,'\' '],'c':'\u0026'}".
Proof. reflexivity. Qed.

(** ** Canonical errors stay as they are *)

Lemma trim_left_head ws n c l :
  forallb (fun w => match w with [] => false | b :: _ => negb (graphic b) end) ws = true ->
  graphic c = true -> trim_left ws n (c :: l) = c :: l.
Proof. intros Hws Hc. destruct n; [done|]. cbn [trim_left]. by rewrite strip_any_graphic. Qed.
(** A text that begins and ends with graphic characters is not trimmed. *)
Lemma TrimSpace_ends s c l d :
  bytes s = (c :: l ++ [d])%list -> graphic c = true -> graphic d = true -> TrimSpace s = s.
Proof.
  intros Hs Hc Hd. unfold TrimSpace, trim_bytes. rewrite Hs, trim_left_head by done.
  rewrite app_comm_cons, rev_app_distr. cbn [rev app].
  rewrite trim_left_head by done.
  change (d :: rev l ++ [c])%list with (rev [d] ++ rev (c :: l))%list. rewrite <- rev_app_distr, rev_involutive.
  change ((c :: l) ++ [d])%list with (c :: l ++ [d])%list. by rewrite <- Hs, of_bytes_bytes.
Qed.

(** Strings come out of the parser as UTF-8. *)
Lemma parse_value_str strict limit fuel depth l s r :
  parse_value strict limit fuel depth l = POk (JStr s) r -> coerce s = s.
Proof.
  destruct fuel as [|f]; [done|]. simpl. destruct (skip_space l) as [|c l'] eqn:El; [done|].
  destruct (decide (c = "{"%char)).
  { destruct (depth <? limit); [|done]. destruct (parse_members _ _ _ _ _ _ _); congruence. }
  destruct (decide (c = "["%char)).
  { destruct (depth <? limit); [|done]. destruct (parse_elems _ _ _ _ _ _); congruence. }
  destruct (decide (c = chr 34)).
  { destruct (scan_string l') as [[x rest]|]; [|done]. intros [= <- _]. unfold coerce.
    by rewrite bytes_of_bytes, coerce_idemp. }
  destruct (eat_literal "null" _); [done|]. destruct (eat_literal "true" _); [done|].
  destruct (eat_literal "false" _); [done|]. destruct (scan_number _) as [[]|]; done.
Qed.
Lemma parse_members_str strict limit fuel : forall depth first seen l ms r,
  parse_members strict limit fuel depth first seen l = POk ms r -> forall k s, (k, JStr s) ∈ ms -> coerce s = s.
Proof.
  induction fuel as [|f IH]; intros depth first seen l ms r; [done|]. simpl.
  destruct (eat "}" _) as [r1|]; [intros [= <- _] k s Hin; by apply elem_of_nil in Hin|].
  destruct (if first then _ else _) as [l1|]; [|done]. destruct (eat (chr 34) _) as [l2|]; [|done].
  destruct (scan_string l2) as [[key l3]|]; [|done]. destruct (strict && _); [done|].
  destruct (eat ":" _) as [l4|]; [|done].
  destruct (parse_value strict limit f depth l4) as [v l5| | |] eqn:Hv; try done.
  destruct (parse_members strict limit f depth false _ l5) as [ms' r'| | |] eqn:Hms; try done.
  intros [= <- _] k s Hin. apply elem_of_cons in Hin as [[= _ <-]|Hin]; [by eapply parse_value_str|by eapply IH].
Qed.
Lemma json_parse_members_str raw ms k s : json_parse raw = Some (JObj ms) -> (k, JStr s) ∈ ms -> coerce s = s.
Proof.
  unfold json_parse. destruct (parse_value _ _ _ _ _) as [v r| | |] eqn:Hv; try done.
  destruct (skip_space r); [|done]. intros [= ->]. revert Hv. unfold parse_fuel. rewrite Nat.add_1_r. simpl.
  destruct (skip_space (bytes raw)) as [|c l']; [done|].
  destruct (decide (c = "{"%char)).
  - destruct (parse_members _ _ _ _ _ _ _) eqn:Hm; try done.
    intros [= -> _]. by eapply parse_members_str.
  - destruct (decide (c = "["%char)).
    { destruct (parse_elems _ _ _ _ _ _); congruence. }
    destruct (decide (c = chr 34)); [destruct (scan_string l') as [[]|]; congruence|].
    destruct (eat_literal "null" _); [done|]. destruct (eat_literal "true" _); [done|].
    destruct (eat_literal "false" _); [done|]. destruct (scan_number _) as [[]|]; done.
Qed.

Lemma error_fields_elem code message ms c m :
  error_fields code message ms = Some (c, m) ->
  (code = Some c \/ exists k, (k, JStr c) ∈ ms) /\ (message = Some m \/ exists k, (k, JStr m) ∈ ms).
Proof.
  revert code message. induction ms as [|[k v] ms IH]; intros code message; cbn [error_fields].
  { destruct code, message; try done. intros [= <- <-]. auto. }
  destruct v as [| | |s| |]; try done. destruct (bool_decide (k = "code")).
  - destruct (isSome code); [done|]. intros [[[= <-]|[k1 H1]] [->|[k2 H2]]]%IH; split; try (by left); right;
      try (exists k; by left); eexists; by right.
  - destruct (bool_decide (k = "message")); [|done]. destruct (isSome message); [done|].
    intros [[->|[k1 H1]] [[= <-]|[k2 H2]]]%IH; split; try (by left); right; try (exists k; by left); eexists; by right.
Qed.

(** What a canonical error is made of. *)
Lemma canonical_parts raw c :
  CanonicalRPCError raw = Some c -> exists code message,
    c = json_object [("code", SStr code); ("message", SStr message)]
    /\ coerce code = code /\ coerce message = message /\ ValidFunctionName code = true
    /\ message <> "" /\ len message <= 1024.
Proof.
  unfold CanonicalRPCError. destruct (negb (JSONObject raw)); [done|]. destruct (skip_space (bytes raw)) as [|x l]; [done|].
  destruct (json_parse (TrimSpace raw)) as [[| | | | |ms]|] eqn:Hp; try done. destruct (negb _); [done|].
  destruct (error_fields None None ms) as [[code message]|] eqn:Hf; [|done].
  destruct (_ || _ || _) eqn:Hbad; [done|]. intros [= <-]. exists code, message.
  apply orb_false_iff in Hbad as [[Hcode%negb_false_iff Hm%bool_decide_eq_false]%orb_false_iff Hlen%Z.ltb_ge].
  destruct (error_fields_elem _ _ _ _ _ Hf) as [[?|[k1 H1]] [?|[k2 H2]]]; try done.
  split; [done|]. split; [by eapply json_parse_members_str|]. split; [by eapply json_parse_members_str|done].
Qed.

Lemma members_bytes_last first ms : exists l, members_bytes first ms = (l ++ ["}"%char])%list.
Proof.
  revert first. induction ms as [|m ms IH]; intros first; cbn [members_bytes]; [by exists []|].
  destruct (IH false) as [l ->]. eexists. rewrite !app_assoc. reflexivity.
Qed.
Lemma json_object_trim ms : TrimSpace (json_object ms) = json_object ms.
Proof.
  destruct (members_bytes_last true ms) as [l Hl].
  apply (TrimSpace_ends _ "{"%char l "}"%char); [|done|done]. unfold json_object. rewrite bytes_of_bytes. by rewrite Hl.
Qed.
Lemma json_object_valid ms : forallb (fun m => scalar_ok m.2) ms = true -> JSONObject (json_object ms) = true.
Proof.
  intros Hok. unfold JSONObject. rewrite json_object_trim, json_object_utf8 by done. unfold json_Valid.
  rewrite parse_json_object by done. rewrite bool_decide_true by by eexists. unfold json_object.
  rewrite !andb_true_r, len_bytes, bytes_of_bytes. cbn [length]. lia.
Qed.

(** A canonical error is a fixed point: it is accepted again and not changed, and
    it is an object with exactly a well-formed code and a bounded message. *)
Theorem canonical_error_stable raw c :
  CanonicalRPCError raw = Some c -> CanonicalRPCError c = Some c /\ JSONObject c = true.
Proof.
  intros (code & message & -> & Hc & Hm & Hname & Hne & Hlen)%canonical_parts.
  assert (JSONObject (json_object [("code", SStr code); ("message", SStr message)]) = true) as Hobj by by apply json_object_valid.
  split; [|done]. unfold CanonicalRPCError. rewrite Hobj, json_object_trim, parse_json_object by done.
  cbn [negb fmap list_fmap fst snd scalar_json]. rewrite Hc, Hm.
  change (coerce "code") with "code". change (coerce "message") with "message".
  unfold json_object at 1. rewrite bytes_of_bytes. cbn [skip_space]. 
  change (is_space "{") with false. cbn [negb bool_decide error_fields].
  transitivity (if negb (ValidFunctionName code) || bool_decide (message = "") || (1024 <? len message) then None
    else Some (json_object [("code", SStr code); ("message", SStr message)])); [reflexivity|].
  rewrite Hname, (bool_decide_false _ Hne). assert ((1024 <? len message) = false) as -> by lia. done.
Qed.

(** ** A result the service accepts is accepted by the store *)

Lemma compact_length inside quoted l : (length (compact_bytes inside quoted l) <= 6 * length l)%nat.
Proof.
  revert inside quoted. induction l as [l IH] using (induction_ltof1 _ (@length ascii)); intros inside quoted.
  assert (forall c, (length (escape_html c) <= 6)%nat) as Hesc.
  { intros c. unfold escape_html. repeat case_decide; cbn; lia. }
  destruct l as [|c l]; cbn [compact_bytes]; [cbn; lia|]. set (next := if inside then _ else _).
  assert (forall a b x, (length x < length (c :: l))%nat -> (length (compact_bytes a b x) <= 6 * length x)%nat) as IH'
    by (intros a b x Hx; by apply IH).
  destruct (negb inside && is_space c); [pose proof (IH' false false l ltac:(cbn; lia)); cbn; lia|].
  destruct l as [|x [|y l]].
  - rewrite length_app. cbn. specialize (Hesc c). lia.
  - rewrite length_app. pose proof (IH' next.1 next.2 [x] ltac:(cbn; lia)). specialize (Hesc c). cbn [length] in *. lia.
  - destruct (_ && _).
    + rewrite length_app. pose proof (IH' next.1 next.2 l ltac:(cbn; lia)). cbn [length]. case_decide; cbn; lia.
    + rewrite length_app. pose proof (IH' next.1 next.2 (x :: y :: l) ltac:(cbn; lia)). specialize (Hesc c).
      cbn [length] in *. lia.
Qed.
Lemma name_length name : ValidFunctionName name = true -> len name <= 64.
Proof.
  unfold ValidFunctionName, match_class. rewrite len_bytes. destruct (bytes name); [done|]. cbn [length].
  rewrite !andb_true_iff. lia.
Qed.
Lemma len_app a b : len (a ++ b) = len a + len b.
Proof. rewrite !len_bytes, bytes_app, length_app. lia. Qed.
Lemma quote_len s : len (json_quote s) <= 6 * len s + 2.
Proof.
  rewrite !len_bytes. unfold json_quote. pose proof (quote_length (bytes s)).
  rewrite ?bytes_of_bytes. cbn [length]. rewrite length_app. cbn [length]. lia.
Qed.
Lemma error_len code message :
  ValidFunctionName code = true -> len message <= 1024 ->
  len (json_object [("code", SStr code); ("message", SStr message)]) <= 6600.
Proof.
  intros Hc%name_length Hm. rewrite len_bytes. unfold json_object. rewrite bytes_of_bytes.
  pose proof (quote_len code). pose proof (quote_len message).
  assert (forall n v, Z.of_nat (length (member_bytes (n, SStr v))) = len (json_quote n) + 1 + len (json_quote v)) as Hmem.
  { intros n v. unfold member_bytes. rewrite length_app. cbn [length fst snd scalar_bytes]. rewrite !len_bytes. lia. }
  pose proof (Hmem "code" code) as H1. pose proof (Hmem "message" message) as H2.
  change (len (json_quote "code")) with 6 in H1. change (len (json_quote "message")) with 9 in H2.
  cbn [members_bytes length]. rewrite !length_app. cbn [length]. lia.
Qed.
Lemma result_len id c :
  len id <= 128 -> 0 < len c <= 6600 -> len (result_text (mkRPCResult id false "" c)) <= FunctionFrameLimit.
Proof.
  intros Hid Hc. unfold result_text, object_text, raw_field. cbn [rr_InvocationID rr_OK rr_Result rr_Error].
  change (len "" =? 0) with true. assert ((len c =? 0) = false) as -> by lia.
  cbn [app fmap list_fmap fst snd comma_separated]. rewrite !len_app.
  pose proof (quote_len id). assert (len (compact c) <= 6 * len c).
  { unfold compact. rewrite !len_bytes, bytes_of_bytes. pose proof (compact_length false false (bytes c)). lia. }
  assert (len (json_quote "type") = 6) as -> by reflexivity. assert (len (json_quote "rpc.result") = 12) as -> by reflexivity.
  assert (len (json_quote "invocation_id") = 15) as -> by reflexivity.
  assert (len (json_quote "ok") = 4) as -> by reflexivity. assert (len (json_quote "error") = 7) as -> by reflexivity.
  assert (len (bool_text false) = 5) as -> by reflexivity. unfold FunctionFrameLimit.
  change (len "{") with 1. change (len ":") with 1. change (len ",") with 1. change (len "}") with 1. lia.
Qed.

(** A result that the service accepts is still accepted by the store once its error
    has been put in canonical form, whatever the size of its texts. *)
Theorem canonical_result_valid r c :
  ValidRPCResult r = true -> rr_OK r = false -> CanonicalRPCError (rr_Error r) = Some c ->
  ValidRPCResult (set_Error c r) = true.
Proof.
  destruct r as [id ok result error]. cbn [rr_OK rr_Error set_Error rr_InvocationID rr_Result]. intros Hv -> Hcan.
  destruct (canonical_error_stable _ _ Hcan) as [Hfix Hobj].
  pose proof (canonical_parts _ _ Hcan) as (code & message & Hc & _ & _ & Hname & _ & Hlen).
  unfold ValidRPCResult, set_Error in *. cbn [rr_OK rr_Error rr_InvocationID rr_Result] in *.
  destruct (bool_decide (id = "") || (128 <? len id)) eqn:Hid; [done|]. apply orb_false_iff in Hid as [_ Hid%Z.ltb_ge].
  destruct (len result =? 0) eqn:Hres; [|done]. cbn [negb orb] in *.
  rewrite Hobj, Hfix. cbn [negb orb isNone].
  assert (result = "") as ->. { apply Z.eqb_eq in Hres. by destruct result. }
  assert (json_Valid c = true) as Hj.
  { unfold JSONObject in Hobj. subst c. rewrite json_object_trim in Hobj. by apply andb_prop in Hobj as [_ Hobj]. }
  unfold raw_ok. rewrite Hj, orb_true_r. change (len "" =? 0) with true. cbn [orb andb].
  apply Z.leb_le, result_len; [done|]. subst c. pose proof (error_len code message Hname Hlen). split; [|done].
  unfold json_object. rewrite len_bytes, bytes_of_bytes. cbn [length]. lia.
Qed.
