(* ===== verification/FunctionStore.v ===== *)
(** * Functions and their invocations ([store/postgres/functions.go],
      [store/postgres/function_invocations.go])

    The tables of migrations 001 and 008 and the statements of the store. Every
    statement commits on its own; [clock_timestamp()] is an argument of each. *)

From Stdlib Require Import Ascii String.
From S2P Require Import Prelude GoLib Crypto Json JsonEncode Domain QueueSchema FunctionResult.

Module Functions.

(** ** Data *)

Record FunctionDef := mkFunction {
  fn_ID : string;
  fn_AppID : string;
  fn_Name : string;
  fn_TimeoutSeconds : Z;
  fn_Enabled : bool;
  fn_CreatedAt : Z;
  fn_UpdatedAt : Z
}.
Inductive InvocationState :=
| InvocationPending | InvocationReserved | InvocationClaimed
| InvocationSuccess | InvocationHandlerError | InvocationUnavailable | InvocationTimeout.
#[export] Instance InvocationState_eq_dec : EqDecision InvocationState.
Proof. solve_decision. Defined.

Record Invocation := mkInvocation {
  iv_ID : string;
  iv_FunctionID : string;
  iv_OwnerAppID : string;
  iv_CallerAppID : string;
  iv_Name : string;
  iv_Input : string;
  iv_CreatedAt : Z;
  iv_Deadline : Z;
  iv_ClaimBy : Z;
  iv_State : InvocationState;
  iv_ConnectionID : string;
  iv_Reply : option RPCResult
}.
Definition terminal (s : InvocationState) : bool :=
  match s with
  | InvocationSuccess | InvocationHandlerError | InvocationUnavailable | InvocationTimeout => true
  | _ => false
  end.
Definition Terminal (v : Invocation) : bool := terminal (iv_State v).

(** The column [reply] is the JSON of a result; it is kept as what is read back from
    it, with its texts as [json.Marshal] leaves them. *)
Definition stored_reply (r : RPCResult) : RPCResult :=
  mkRPCResult (coerce (rr_InvocationID r)) (rr_OK r) (compact (rr_Result r)) (compact (rr_Error r)).

(** ** Tables *)

Record InvocationRow := mkInvocationRow {
  ir_function_id : string;
  ir_owner : string;
  ir_caller : string;
  ir_hash : string;
  ir_name : string;
  ir_input : string;
  ir_state : InvocationState;
  ir_connection : option string;
  ir_reply : option RPCResult;
  ir_created_at : Z;
  ir_claim_by : Z;
  ir_deadline : Z;
  ir_expires_at : Z;
  ir_updated_at : Z
}.
(** Of [applications] only whether a row is enabled is looked at. *)
Record FunDB := mkFunDB {
  apps_t : gmap string bool;
  functions_t : gmap string FunctionDef;
  invocations_t : gmap string InvocationRow
}.
Abbreviation M_fun := (M FunDB).
Definition with_functions (t : gmap string FunctionDef) (db : FunDB) : FunDB := mkFunDB (apps_t db) t (invocations_t db).
Definition with_invocations (t : gmap string InvocationRow) (db : FunDB) : FunDB := mkFunDB (apps_t db) (functions_t db) t.
Definition app_enabled (id : string) (db : FunDB) : bool := default false (apps_t db !! id).

Definition set_state (s : InvocationState) (connection : option string) (reply : option RPCResult) (now : Z)
    (r : InvocationRow) : InvocationRow :=
  mkInvocationRow (ir_function_id r) (ir_owner r) (ir_caller r) (ir_hash r) (ir_name r) (ir_input r) s connection reply
    (ir_created_at r) (ir_claim_by r) (ir_deadline r) (ir_expires_at r) now.

Definition scanInvocation (id : string) (r : InvocationRow) : Invocation :=
  mkInvocation id (ir_function_id r) (ir_owner r) (ir_caller r) (ir_name r) (ir_input r) (ir_created_at r)
    (ir_deadline r) (ir_claim_by r) (ir_state r) (default "" (ir_connection r)) (ir_reply r).

(** ** The catalog *)

(** [INSERT ... SELECT ... FROM applications]: the number of rows. *)
Definition name_taken (id app name : string) (db : FunDB) : bool :=
  existsb (fun kf => negb (bool_decide (kf.1 = id)) && bool_decide (fn_AppID kf.2 = app) && bool_decide (fn_Name kf.2 = name))
    (map_to_list (functions_t db)).
Definition insert_function (f : FunctionDef) (db : FunDB) : res (Z * FunDB) :=
  if negb (app_enabled (fn_AppID f) db) then Ok (0, db) else
  if isSome (functions_t db !! fn_ID f) || name_taken (fn_ID f) (fn_AppID f) (fn_Name f) db then Err UniqueViolation
  else Ok (1, with_functions (<[fn_ID f := f]> (functions_t db)) db).
Definition CreateFunction (f : FunctionDef) : M_fun unit :=
  n ← on_error (exec (fun _ => insert_function f))
        (fun e => fail (if bool_decide (e = UniqueViolation) then StoreConflict else e));
  if n =? 0 then fail StoreNotFound else mret tt.
Definition GetFunction (id : string) : M_fun FunctionDef := query_row StoreNotFound (fun db => functions_t db !! id).
(** The order of the collation is that of the argument. *)
Definition ListFunctions (text_le : string -> string -> bool) (owner : string) : M_fun (list FunctionDef) :=
  query (fun db => merge_sort (fun a b => fn_CreatedAt a < fn_CreatedAt b
                      \/ fn_CreatedAt a = fn_CreatedAt b /\ text_le (fn_ID a) (fn_ID b) = true)
    (List.filter (fun f => bool_decide (fn_AppID f = owner)) (map_to_list (functions_t db)).*2)).
Definition DeleteFunction (owner id : string) : M_fun unit :=
  n ← update (fun db => match functions_t db !! id with
        | Some f => if bool_decide (fn_AppID f = owner) then (1, with_functions (delete id (functions_t db)) db) else (0, db)
        | None => (0, db)
        end);
  if n =? 0 then fail StoreNotFound else mret tt.
Definition update_function (owner : string) (f : FunctionDef) (db : FunDB) : res (option FunctionDef * FunDB) :=
  match functions_t db !! fn_ID f with
  | Some r =>
      if negb (bool_decide (fn_AppID r = owner)) then Ok (None, db)
      else if name_taken (fn_ID f) (fn_AppID r) (fn_Name f) db then Err UniqueViolation
      else let r' := mkFunction (fn_ID r) (fn_AppID r) (fn_Name f) (fn_TimeoutSeconds f) (fn_Enabled f)
                       (fn_CreatedAt r) (fn_UpdatedAt f) in
           Ok (Some r', with_functions (<[fn_ID f := r']> (functions_t db)) db)
  | None => Ok (None, db)
  end.
Definition UpdateFunction (owner : string) (f : FunctionDef) : M_fun FunctionDef :=
  r ← on_error (exec (fun _ => update_function owner f))
        (fun e => fail (if bool_decide (e = UniqueViolation) then StoreConflict else e));
  match r with Some f => mret f | None => fail StoreNotFound end.

(** ** Statements on invocations *)

Definition invocationKeyHash (caller key : string) : string := sha256 (caller ++ String (chr 0) key).

(** [UPDATE function_invocations SET ... WHERE id=$1 AND ...]: the number of rows. *)
Definition update_invocation (id : string) (hit : InvocationRow -> bool) (f : InvocationRow -> InvocationRow) (db : FunDB)
    : Z * FunDB :=
  match invocations_t db !! id with
  | Some r => if hit r then (1, with_invocations (<[id := f r]> (invocations_t db)) db) else (0, db)
  | None => (0, db)
  end.
Definition is_state (s : InvocationState) (r : InvocationRow) : bool := bool_decide (ir_state r = s).
Definition held_by (owner connection : string) (r : InvocationRow) : bool :=
  bool_decide (ir_owner r = owner) && bool_decide (ir_connection r = Some connection).

(** The statement of [GetInvocation] that ends what is overdue. *)
Definition overdue (now : Z) (r : InvocationRow) : bool :=
  (now <? ir_expires_at r)
  && (is_state InvocationClaimed r && (ir_deadline r <=? now)
      || (is_state InvocationPending r || is_state InvocationReserved r) && (ir_claim_by r <=? now)).
Definition end_overdue (now : Z) (id : string) (db : FunDB) : Z * FunDB :=
  update_invocation id (overdue now)
    (fun r => set_state (if is_state InvocationClaimed r then InvocationTimeout else InvocationUnavailable) None
                (ir_reply r) now r) db.
Definition reserve (now : Z) (id connection owner : string) (db : FunDB) : Z * FunDB :=
  update_invocation id (fun r => bool_decide (ir_owner r = owner) && negb (bool_decide (connection = ""))
      && is_state InvocationPending r && (now <? ir_claim_by r) && (now <? ir_deadline r) && app_enabled (ir_owner r) db)
    (fun r => set_state InvocationReserved (Some connection) (ir_reply r) now r) db.
Definition acknowledge (now : Z) (id connection owner : string) (db : FunDB) : Z * FunDB :=
  update_invocation id (fun r => held_by owner connection r && is_state InvocationReserved r
      && (now <? ir_claim_by r) && (now <? ir_deadline r))
    (fun r => set_state InvocationClaimed (ir_connection r) (ir_reply r) now r) db.
Definition release_ (now : Z) (id connection owner : string) (db : FunDB) : Z * FunDB :=
  update_invocation id (fun r => held_by owner connection r
      && (is_state InvocationReserved r && (now <? ir_claim_by r) || is_state InvocationClaimed r && (now <? ir_deadline r)))
    (fun r => set_state InvocationPending None (ir_reply r) now r) db.
Definition complete (now : Z) (owner connection : string) (result : RPCResult) (db : FunDB) : Z * FunDB :=
  update_invocation (rr_InvocationID result) (fun r => held_by owner connection r && is_state InvocationClaimed r
      && (now <? ir_deadline r))
    (fun r => set_state (if rr_OK result then InvocationSuccess else InvocationHandlerError) (ir_connection r)
                (Some (stored_reply result)) now r) db.

(** The statements of [CreateInvocation]. *)
Definition key_of (caller hash : string) (r : InvocationRow) : bool :=
  bool_decide (ir_caller r = caller) && bool_decide (ir_hash r = hash).
Definition drop_expired (now : Z) (caller hash : string) (db : FunDB) : FunDB :=
  with_invocations (filter (fun kr => negb (key_of caller hash kr.2 && (ir_expires_at kr.2 <=? now)) = true) (invocations_t db)) db.
Definition find_key (caller hash : string) (P : InvocationRow -> bool) (db : FunDB) : option string :=
  fst <$> find (fun kr => key_of caller hash kr.2 && P kr.2) (map_to_list (invocations_t db)).
Definition insert_invocation (v : Invocation) (hash : string) (db : FunDB) : res (option string * FunDB) :=
  match functions_t db !! iv_FunctionID v with
  | Some f =>
      if negb (bool_decide (fn_AppID f = iv_OwnerAppID v) && fn_Enabled f && app_enabled (fn_AppID f) db
               && app_enabled (iv_CallerAppID v) db) then Ok (None, db) else
      if negb (iv_ClaimBy v <=? iv_Deadline v) || negb (iv_Deadline v <=? iv_CreatedAt v + InvocationRetention)
      then Err DriverError else
      if isSome (find_key (iv_CallerAppID v) hash (fun _ => true) db) then Ok (None, db) else
      if isSome (invocations_t db !! iv_ID v) then Err UniqueViolation else
      let row := mkInvocationRow (fn_ID f) (fn_AppID f) (iv_CallerAppID v) hash (iv_Name v) (iv_Input v) InvocationPending
                   None None (iv_CreatedAt v) (iv_ClaimBy v) (iv_Deadline v) (iv_CreatedAt v + InvocationRetention)
                   (iv_CreatedAt v) in
      Ok (Some (iv_ID v), with_invocations (<[iv_ID v := row]> (invocations_t db)) db)
  | None => Ok (None, db)
  end.

(** ** The invocation store *)

Definition GetInvocation (t1 t2 : Z) (id : string) : M_fun Invocation :=
  _ ← update (end_overdue t1 id);
  query_row StoreNotFound (fun db => match invocations_t db !! id with
    | Some r => if t2 <? ir_expires_at r then Some (scanInvocation id r) else None
    | None => None
    end).
Definition ignored {A} (m : M_fun A) : M_fun unit := fun w => (Ok tt, (m w).2).
(** [times] are the clock of the statement and of the two of [GetInvocation]. *)
Definition transitionInvocation (times : Z * Z * Z) (stmt : Z -> FunDB -> Z * FunDB) (id connection owner : string) : M_fun unit :=
  let '(t, t1, t2) := times in
  if bool_decide (id = "") || bool_decide (owner = "") || bool_decide (connection = "") then fail StoreInvalidResult else
  n ← update (stmt t);
  if n =? 1 then mret tt else _ ← ignored (GetInvocation t1 t2 id); fail StoreInvalidResult.
Definition ClaimInvocation (times : Z * Z * Z) (owner connection id : string) : M_fun unit :=
  transitionInvocation times (fun now => reserve now id connection owner) id connection owner.
Definition AcknowledgeInvocation (times : Z * Z * Z) (owner connection id : string) : M_fun unit :=
  transitionInvocation times (fun now => acknowledge now id connection owner) id connection owner.
Definition ReleaseInvocation (times : Z * Z * Z) (owner connection id : string) : M_fun unit :=
  transitionInvocation times (fun now => release_ now id connection owner) id connection owner.
Definition CompleteInvocation (times : Z * Z * Z) (owner connection : string) (result : RPCResult) : M_fun unit :=
  let '(t, t1, t2) := times in
  if bool_decide (owner = "") || bool_decide (connection = "") || negb (ValidRPCResult result) then fail StoreInvalidResult else
  n ← update (complete t owner connection result);
  if n =? 1 then mret tt else _ ← ignored (GetInvocation t1 t2 (rr_InvocationID result)); fail StoreInvalidResult.

(** [times] are the clock of the deletion and of the two statements of
    [GetInvocation]; the second component says whether the invocation was there. *)
Definition CreateInvocation (times : Z * Z * Z) (v : Invocation) (key : string) : M_fun (Invocation * bool) :=
  let '(t, t1, t2) := times in
  if bool_decide (iv_ID v = "") || bool_decide (iv_FunctionID v = "") || bool_decide (iv_OwnerAppID v = "")
     || bool_decide (iv_CallerAppID v = "") || bool_decide (key = "") then fail StoreNotFound else
  let hash := invocationKeyHash (iv_CallerAppID v) key in
  _ ← update (fun db => (tt, drop_expired t (iv_CallerAppID v) hash db));
  inserted ← exec (fun _ => insert_invocation v hash);
  match inserted with
  | Some id => stored ← GetInvocation t1 t2 id; mret (stored, false)
  | None =>
      id ← query_row StoreNotFound (find_key (iv_CallerAppID v) hash (fun _ => true));
      stored ← GetInvocation t1 t2 id; mret (stored, true)
  end.
Definition FindInvocation (times : Z * Z * Z) (caller key : string) : M_fun Invocation :=
  let '(t, t1, t2) := times in
  id ← query_row StoreNotFound (find_key caller (invocationKeyHash caller key) (fun r => t <? ir_expires_at r));
  GetInvocation t1 t2 id.

End Functions.
