(* ===== verification/FunctionService.v ===== *)
(** * The service of functions ([service/functions.go])

    The operations over the stores of [FunctionStore]. Between two calls others may
    commit, which is an argument. [Invoke] waits in a loop: a [turn] is one pass of it,
    with what others committed before its read, the clock of the database, and what
    ended its wait. *)

From Stdlib Require Import Ascii String.
From S2P Require Import Prelude GoLib Crypto Json JsonEncode Domain QueueSchema QueueService AppService FunctionResult FunctionStore.
Import Functions.

Module Invoking.

Record RegisterFunction := mkRegisterFunction {
  rf_Name : string;
  rf_TimeoutSeconds : Z;
  rf_Enabled : option bool
}.
Record UpdateFunctionInput := mkUpdateFunction {
  uf_Name : option string;
  uf_TimeoutSeconds : option Z;
  uf_Enabled : option bool
}.
(** [ClaimTimeout] after [NewFunctionServiceStores]. *)
Definition claim_timeout (configured : Z) : Z :=
  if (configured <=? 0) || (250 * Millisecond <? configured) then 250 * Millisecond else configured.

(** ** The catalog *)

Definition valid_definition (name : string) (timeout : Z) : bool :=
  ValidFunctionName name && (1 <=? timeout) && (timeout <=? 30).
Definition Register (now : Z) (uuid owner : string) (input : RegisterFunction) : M_fun FunctionDef :=
  if bool_decide (owner = "") || negb (valid_definition (rf_Name input) (rf_TimeoutSeconds input))
  then fail ErrInvalidInput else
  let f := mkFunction ("fn_" ++ uuid) owner (rf_Name input) (rf_TimeoutSeconds input) (default true (rf_Enabled input)) now now in
  _ ← map_store_error (CreateFunction f);
  mret f.
(** [sort.Slice] is not stable; names of one owner are distinct. *)
Definition List_ (text_le : string -> string -> bool) (owner : string) : M_fun (list FunctionDef) :=
  if bool_decide (owner = "") then fail ErrInvalidInput else
  items ← map_store_error (ListFunctions text_le owner);
  mret (merge_sort (fun a b => String.le (fn_Name a) (fn_Name b)) items).
Definition Update (others : FunDB -> FunDB) (now : Z) (owner id : string) (input : UpdateFunctionInput) : M_fun FunctionDef :=
  if bool_decide (owner = "") || bool_decide (id = "")
     || isNone (uf_Name input) && isNone (uf_TimeoutSeconds input) && isNone (uf_Enabled input)
  then fail ErrInvalidInput else
  current ← map_store_error (GetFunction id);
  if negb (bool_decide (fn_AppID current = owner)) then fail ErrNotFound else
  let name := default (fn_Name current) (TrimSpace <$> uf_Name input) in
  let timeout := default (fn_TimeoutSeconds current) (uf_TimeoutSeconds input) in
  if negb (valid_definition name timeout) then fail ErrInvalidInput else
  _ ← Apps.others_commit others;
  map_store_error (UpdateFunction owner (mkFunction (fn_ID current) (fn_AppID current) name timeout
    (default (fn_Enabled current) (uf_Enabled input)) (fn_CreatedAt current) now)).
Definition Delete (owner id : string) : M_fun unit :=
  if bool_decide (owner = "") || bool_decide (id = "") then fail ErrInvalidInput
  else map_store_error (DeleteFunction owner id).

(** ** Invoking *)

Definition invocationResponse (v : Invocation) : res RPCResult :=
  match iv_State v, iv_Reply v with
  | InvocationUnavailable, _ => Err ErrFunctionUnavailable
  | InvocationTimeout, _ => Err ErrFunctionTimeout
  | InvocationSuccess, Some r | InvocationHandlerError, Some r => Ok r
  | _, _ => Err ErrConflict
  end.
Definition respond (v : Invocation) : M_fun (option RPCResult) :=
  match invocationResponse v with Ok r => mret (Some r) | Err e => fail e end.

(** What ended the wait of a turn. *)
Inductive wake := Cancelled | Updated | Elapsed.
Record turn := mkTurn {
  tn_cancelled : bool;
  tn_others : FunDB -> FunDB;
  tn_t1 : Z;
  tn_t2 : Z;
  tn_wake : wake
}.
(** [None]: still waiting when the turns end. *)
Fixpoint invoke_loop (turns : list turn) (id : string) : M_fun (option RPCResult) :=
  match turns with
  | [] => mret None
  | tn :: rest =>
      if tn_cancelled tn then fail ContextError else
      _ ← Apps.others_commit (tn_others tn);
      current ← map_store_error (GetInvocation (tn_t1 tn) (tn_t2 tn) id);
      if Terminal current then respond current
      else match tn_wake tn with
           | Cancelled => fail ContextError
           | _ => invoke_loop rest id
           end
  end.
(** When the timer of a turn is set to. *)
Definition wait_until (v : Invocation) : Z :=
  if bool_decide (iv_State v = InvocationClaimed) then iv_Deadline v else iv_ClaimBy v.

(** What a call of [Invoke] depends on beside its arguments; [ie_watch] is an error of
    [WatchInvocation]. *)
Record InvokeEnv := mkInvokeEnv {
  ie_cancelled : bool;
  ie_find : Z * Z * Z;
  ie_others1 : FunDB -> FunDB;
  ie_now : Z;
  ie_uuid : string;
  ie_others2 : FunDB -> FunDB;
  ie_create : Z * Z * Z;
  ie_watch : option error;
  ie_turns : list turn
}.
Definition frame_text (v : Invocation) : string :=
  object_text [("type", json_quote "rpc.invoke"); ("invocation_id", json_quote (iv_ID v)); ("function", json_quote (iv_Name v));
               ("input", compact (iv_Input v)); ("deadline", json_quote (Format_RFC3339Nano (iv_Deadline v)))].
Definition frame_fits (v : Invocation) : bool := json_Valid (iv_Input v) && (len (frame_text v) <=? FunctionFrameLimit).
Definition new_invocation (claimTimeout now : Z) (uuid caller input : string) (f : FunctionDef) : Invocation :=
  mkInvocation ("inv_" ++ uuid) (fn_ID f) (fn_AppID f) caller (fn_Name f) input now
    (now + fn_TimeoutSeconds f * Second) (now + claimTimeout) InvocationPending "" None.

(** The invocation under the key, found or created. *)
Definition create_invocation (claimTimeout : Z) (env : InvokeEnv) (caller id key input : string) : M_fun (Invocation * bool) :=
  _ ← Apps.others_commit (ie_others1 env);
  f ← map_store_error (GetFunction id);
  if negb (fn_Enabled f) then fail ErrNotFound else
  let v := new_invocation claimTimeout (ie_now env) (ie_uuid env) caller input f in
  if negb (frame_fits v) then fail ErrInvalidInput else
  _ ← Apps.others_commit (ie_others2 env);
  map_store_error (CreateInvocation (ie_create env) v key).
Definition find_or_create (claimTimeout : Z) (env : InvokeEnv) (caller id key input : string) : M_fun (Invocation * bool) := fun w =>
  match FindInvocation (ie_find env) caller key w with
  | (Ok v, w') => (Ok (v, true), w')
  | (Err StoreNotFound, w') => create_invocation claimTimeout env caller id key input w'
  | (Err e, w') => (Err (mapStoreError e), w')
  end.
Definition Invoke (claimTimeout : Z) (env : InvokeEnv) (caller id key input : string) : M_fun (option RPCResult * bool) :=
  if ie_cancelled env then fail ContextError else
  if bool_decide (caller = "") || bool_decide (id = "") || (256 <? len key) || bool_decide (TrimSpace key = "")
     || (2 ^ 20 <? len input) || negb (JSONObject input) then fail ErrInvalidInput else
  found ← find_or_create claimTimeout env caller id key input;
  let '(v, replay) := found in
  if Terminal v then r ← respond v; mret (r, replay) else
  match ie_watch env with
  | Some e => fail e
  | None => r ← invoke_loop (ie_turns env) (iv_ID v); mret (r, replay)
  end.

(** ** The gateway's side *)

(** [CompleteResult]; the notification that follows is a hint and is not modelled. *)
Definition CompleteResult (times : Z * Z * Z) (owner connection : string) (result : RPCResult) : M_fun unit :=
  if bool_decide (owner = "") || bool_decide (connection = "") || negb (ValidRPCResult result) then fail StoreInvalidResult else
  let result := if rr_OK result then result
                else set_Error (default "" (CanonicalRPCError (rr_Error result))) result in
  CompleteInvocation times owner connection result.

End Invoking.
