(* ===== verification/FunctionSystem.v ===== *)
(** * Invocations over time

    The statements of [FunctionStore] as steps at a time, by anyone and in any order;
    the moves of one invocation, and the invariant of the table. *)

From Stdlib Require Import Ascii String ZifyBool.
From S2P Require Import Prelude GoLib Crypto Json JsonEncode Domain QueueSchema QueueService AppService FunctionResult FunctionStore FunctionService.
Import Functions Invoking.

(** ** Steps *)

(** Who acts on which invocation, for the statements of a connection. *)
Abbreviation actor := (option (string * string)).

Inductive fun_stmt (now : Z) : actor -> FunDB -> FunDB -> Prop :=
| st_app id enabled db : fun_stmt now None db (mkFunDB (<[id := enabled]> (apps_t db)) (functions_t db) (invocations_t db))
| st_function f n db db' : insert_function f db = Ok (n, db') -> fun_stmt now None db db'
| st_update owner f r db db' : update_function owner f db = Ok (r, db') -> fun_stmt now None db db'
| st_delete id db : fun_stmt now None db (with_functions (delete id (functions_t db)) db)
| st_drop caller hash db : fun_stmt now None db (drop_expired now caller hash db)
| st_insert v hash r db db' : insert_invocation v hash db = Ok (r, db') -> fun_stmt now None db db'
| st_end_overdue id db : fun_stmt now None db (end_overdue now id db).2
| st_reserve owner c id db : fun_stmt now (Some (c, id)) db (reserve now id c owner db).2
| st_acknowledge owner c id db : fun_stmt now (Some (c, id)) db (acknowledge now id c owner db).2
| st_release owner c id db : fun_stmt now (Some (c, id)) db (release_ now id c owner db).2
| st_complete owner c result db : fun_stmt now (Some (c, rr_InvocationID result)) db (complete now owner c result db).2.

(** A run in time, by those that [who] admits. *)
Inductive run (who : actor -> Prop) : Z -> FunDB -> Z -> FunDB -> Prop :=
| run_done t t' db : t <= t' -> run who t db t' db
| run_step t t1 t' a db db1 db' :
    t <= t1 -> who a -> fun_stmt t1 a db db1 -> run who t1 db1 t' db' -> run who t db t' db'.

Lemma run_time who t db t' db' : run who t db t' db' -> t <= t'.
Proof. induction 1; lia. Qed.
Lemma run_trans who t1 db1 t2 db2 t3 db3 : run who t1 db1 t2 db2 -> run who t2 db2 t3 db3 -> run who t1 db1 t3 db3.
Proof.
  intros H12 H23. induction H12 as [t t' db Ht|t t1 t' a db db1 db' Ht Hw Hs H IH].
  - inversion H23; subst; [apply run_done; lia|]. eapply run_step; [|done..]. lia.
  - eapply run_step; eauto.
Qed.
Lemma run_mono (who who' : actor -> Prop) t db t' db' :
  (forall a, who a -> who' a) -> run who t db t' db' -> run who' t db t' db'.
Proof. intros Hw. induction 1; [by apply run_done|]. eapply run_step; eauto. Qed.

(** ** The moves of an invocation *)

Inductive move (now : Z) (id : string) (r : InvocationRow) : actor -> InvocationRow -> Prop :=
| mv_stay a : move now id r a r
| mv_end_overdue : overdue now r = true ->
    move now id r None (set_state (if is_state InvocationClaimed r then InvocationTimeout else InvocationUnavailable) None
                          (ir_reply r) now r)
| mv_reserve c : ir_state r = InvocationPending -> c <> "" -> now < ir_claim_by r ->
    move now id r (Some (c, id)) (set_state InvocationReserved (Some c) (ir_reply r) now r)
| mv_acknowledge c : ir_state r = InvocationReserved -> ir_connection r = Some c -> now < ir_claim_by r ->
    move now id r (Some (c, id)) (set_state InvocationClaimed (Some c) (ir_reply r) now r)
| mv_release c : ir_connection r = Some c ->
    (ir_state r = InvocationReserved /\ now < ir_claim_by r \/ ir_state r = InvocationClaimed /\ now < ir_deadline r) ->
    move now id r (Some (c, id)) (set_state InvocationPending None (ir_reply r) now r)
| mv_complete c result : ir_connection r = Some c -> ir_state r = InvocationClaimed -> now < ir_deadline r ->
    rr_InvocationID result = id ->
    move now id r (Some (c, id))
      (set_state (if rr_OK result then InvocationSuccess else InvocationHandlerError) (Some c)
         (Some (stored_reply result)) now r).

(** What a statement does to the row of an invocation, and which rows it adds. *)
Definition fresh_row (db : FunDB) (id : string) (r : InvocationRow) : Prop :=
  ir_state r = InvocationPending /\ ir_connection r = None /\ ir_reply r = None
  /\ ir_claim_by r <= ir_deadline r <= ir_expires_at r
  /\ forall id' r', invocations_t db !! id' = Some r' -> ~ (ir_caller r' = ir_caller r /\ ir_hash r' = ir_hash r).
Definition moves (now : Z) (a : actor) (db db' : FunDB) : Prop :=
  (forall id r, invocations_t db !! id = Some r ->
     (exists r', invocations_t db' !! id = Some r' /\ move now id r a r')
     \/ invocations_t db' !! id = None /\ ir_expires_at r <= now)
  /\ (forall id r', invocations_t db' !! id = Some r' ->
        (exists r, invocations_t db !! id = Some r) \/ fresh_row db id r')
  /\ (forall id1 id2, invocations_t db !! id1 = None -> invocations_t db !! id2 = None ->
        is_Some (invocations_t db' !! id1) -> is_Some (invocations_t db' !! id2) -> id1 = id2).

Lemma moves_same now a db db' : invocations_t db' = invocations_t db -> moves now a db db'.
Proof.
  intros He. unfold moves. rewrite He. split_and!; intros id r; [intros Hr; left; exists r; split; [done|constructor]|eauto|].
  intros H1 _ [x Hx]. congruence.
Qed.
Lemma moves_update now a id hit f db :
  (forall r, invocations_t db !! id = Some r -> hit r = true -> move now id r a (f r)) -> moves now a db (update_invocation id hit f db).2.
Proof.
  intros Hm. unfold update_invocation. destruct (invocations_t db !! id) as [r|] eqn:Hr; [|by apply moves_same].
  destruct (hit r) eqn:Hh; [|by apply moves_same]. split_and!; cbn; intros j x Hx.
  - left. destruct (decide (id = j)) as [<-|Hne].
    + rewrite lookup_insert_eq. assert (x = r) as -> by congruence. eauto.
    + rewrite lookup_insert_ne by done. exists x. split; [done|constructor].
  - left. destruct (decide (id = j)) as [<-|Hne]; [eauto|]. rewrite lookup_insert_ne in Hx by done. eauto.
  - intros _ [y Hy]. rewrite lookup_insert_ne in Hy by congruence. congruence.
Qed.

Lemma find_key_none caller hash P db :
  find_key caller hash P db = None -> forall id r, invocations_t db !! id = Some r ->
  ir_caller r = caller -> ir_hash r = hash -> P r = false.
Proof.
  unfold find_key. intros Hf id r Hr Hc Hh. destruct (find _ (map_to_list _)) eqn:E; [done|].
  pose proof (find_none _ _ E (id, r) ltac:(by apply list_elem_of_In, elem_of_map_to_list)) as Hn. cbn in Hn.
  unfold key_of in Hn. by rewrite (bool_decide_true _ Hc), (bool_decide_true _ Hh) in Hn.
Qed.
Lemma find_key_some caller hash P db id :
  find_key caller hash P db = Some id ->
  exists r, invocations_t db !! id = Some r /\ ir_caller r = caller /\ ir_hash r = hash /\ P r = true.
Proof.
  unfold find_key. destruct (find _ (map_to_list _)) as [[k r]|] eqn:E; [|done]. intros [= ->].
  apply find_some in E as [Hin Hp]. apply list_elem_of_In, elem_of_map_to_list in Hin. cbn in Hp. unfold key_of in Hp.
  apply andb_prop in Hp as [[Hc%bool_decide_eq_true Hh%bool_decide_eq_true]%andb_prop Hp]. eauto.
Qed.

Lemma insert_moves now v hash r db db' : insert_invocation v hash db = Ok (r, db') -> moves now None db db'.
Proof.
  unfold insert_invocation. destruct (functions_t db !! iv_FunctionID v) as [f|]; [|intros [= _ <-]; by apply moves_same].
  destruct (negb (_ && _)); [intros [= _ <-]; by apply moves_same|]. destruct (_ || _) eqn:Hchk; [done|].
  destruct (isSome (find_key _ _ _ db)) eqn:Hf; [intros [= _ <-]; by apply moves_same|].
  destruct (isSome (invocations_t db !! iv_ID v)) eqn:Hi; [done|]. intros [= _ <-].
  assert (invocations_t db !! iv_ID v = None) as Hnone by by destruct (invocations_t db !! iv_ID v).
  apply orb_false_iff in Hchk as [H1%negb_false_iff H2%negb_false_iff]. split_and!; cbn; intros id x Hx.
  - left. exists x. rewrite lookup_insert_ne by congruence. split; [done|constructor].
  - destruct (decide (iv_ID v = id)) as [<-|Hne]; [right|left; rewrite lookup_insert_ne in Hx by done; eauto].
    rewrite lookup_insert_eq in Hx. injection Hx as <-. split_and!; cbn; try done; [lia|lia|].
    intros id' r' Hr' [Hc Hh]. destruct (find_key (iv_CallerAppID v) hash (fun _ => true) db) eqn:E; [done|].
    by pose proof (find_key_none _ _ _ _ E id' r' Hr' Hc Hh).
  - intros Hx2 [y Hy] [z Hz]. destruct (decide (iv_ID v = id)), (decide (iv_ID v = x)); [congruence|..];
      first [rewrite lookup_insert_ne in Hy by done; congruence|rewrite lookup_insert_ne in Hz by done; congruence].
Qed.

Lemma stmt_moves now a db db' : fun_stmt now a db db' -> moves now a db db'.
Proof.
  intros []; try (by apply moves_same).
  - unfold insert_function in *. repeat case_match; simplify_eq; by apply moves_same.
  - unfold update_function in *. repeat case_match; simplify_eq; by apply moves_same.
  - split_and!; cbn; intros id r Hr.
    + rewrite map_lookup_filter, Hr. cbn. unfold guard. case_decide as Hd; [left; exists r; split; [done|constructor]|right].
      split; [done|]. destruct (key_of _ _ _); cbn in Hd; [|done]. destruct (_ <=? now) eqn:E; [lia|done].
    + left. apply map_lookup_filter_Some in Hr as [Hr _]. eauto.
    + intros _ [y Hy]. apply map_lookup_filter_Some in Hy as [Hy _]. congruence.
  - by eapply insert_moves.
  - apply moves_update. intros r _ Hh. by apply mv_end_overdue.
  - apply moves_update. intros r _ Hh. rewrite !andb_true_iff in Hh.
    destruct Hh as [[[[[_ Hc%negb_true_iff%bool_decide_eq_false] Hs%bool_decide_eq_true] Ht] _] _].
    apply mv_reserve; [done|done|lia].
  - apply moves_update. intros r _ Hh. rewrite !andb_true_iff in Hh.
    destruct Hh as [[[[_ Hc%bool_decide_eq_true]%andb_prop Hs%bool_decide_eq_true] Ht] _].
    rewrite Hc. apply mv_acknowledge; [done|done|lia].
  - apply moves_update. intros r _ Hh. apply andb_prop in Hh as [[_ Hc%bool_decide_eq_true]%andb_prop Hh].
    apply mv_release; [done|]. apply orb_prop in Hh as [[Hs%bool_decide_eq_true Ht]%andb_prop|[Hs%bool_decide_eq_true Ht]%andb_prop];
      [left|right]; split; (done || lia).
  - apply moves_update. intros r _ Hh. rewrite !andb_true_iff in Hh.
    destruct Hh as [[[_ Hc%bool_decide_eq_true]%andb_prop Hs%bool_decide_eq_true] Ht].
    rewrite Hc. apply mv_complete; (done || lia).
Qed.

(** ** The invariant *)

(** What of an invocation never changes. *)
Definition same_call (r r' : InvocationRow) : Prop :=
  ir_owner r' = ir_owner r /\ ir_caller r' = ir_caller r /\ ir_hash r' = ir_hash r /\ ir_claim_by r' = ir_claim_by r
  /\ ir_deadline r' = ir_deadline r /\ ir_expires_at r' = ir_expires_at r
  /\ ir_name r' = ir_name r /\ ir_input r' = ir_input r.
Definition row_ok (id : string) (r : InvocationRow) : Prop :=
  ir_claim_by r <= ir_deadline r <= ir_expires_at r
  /\ match ir_state r with
     | InvocationPending | InvocationUnavailable | InvocationTimeout => ir_connection r = None /\ ir_reply r = None
     | InvocationReserved | InvocationClaimed => (exists c, ir_connection r = Some c /\ c <> "") /\ ir_reply r = None
     | InvocationSuccess | InvocationHandlerError =>
         exists c p, ir_connection r = Some c /\ ir_reply r = Some p /\ rr_InvocationID p = coerce id
           /\ rr_OK p = bool_decide (ir_state r = InvocationSuccess)
     end.
Record fun_inv (db : FunDB) : Prop := mkFunInv {
  fi_row : forall id r, invocations_t db !! id = Some r -> row_ok id r;
  fi_key : forall id1 id2 r1 r2, invocations_t db !! id1 = Some r1 -> invocations_t db !! id2 = Some r2 ->
    ir_caller r1 = ir_caller r2 -> ir_hash r1 = ir_hash r2 -> id1 = id2
}.

Lemma same_call_refl r : same_call r r.
Proof. by repeat split. Qed.
Lemma same_call_trans r1 r2 r3 : same_call r1 r2 -> same_call r2 r3 -> same_call r1 r3.
Proof. unfold same_call. intros. destruct_and!. split_and!; congruence. Qed.
Lemma move_same_call now id r a r' : move now id r a r' -> same_call r r'.
Proof. intros []; by repeat split. Qed.
(** An outcome is final. *)
Lemma move_terminal now id r a r' : move now id r a r' -> terminal (ir_state r) = true -> r' = r.
Proof.
  intros Hm Ht. destruct Hm as [a|Ho|c Hs|c Hs|c _ Hs|c result _ Hs]; [done| | | | |].
  - unfold overdue, is_state in Ho. destruct (ir_state r); try discriminate Ht; cbn in Ho; by rewrite andb_false_r in Ho.
  - by rewrite Hs in Ht.
  - by rewrite Hs in Ht.
  - by destruct Hs as [[Hs _]|[Hs _]]; rewrite Hs in Ht.
  - by rewrite Hs in Ht.
Qed.
Lemma call_move_ok now id r a r' : move now id r a r' -> row_ok id r -> row_ok id r'.
Proof.
  intros Hm [Hb Hr]. destruct Hm as [a|Ho|c Hs Hc Ht|c Hs Hc Ht|c Hc Hs|c result Hc Hs Ht Hid]; [by split|..];
    (split; [done|]); cbn [set_state ir_state ir_connection ir_reply].
  - assert (ir_reply r = None) as ->.
    { unfold overdue, is_state in Ho. destruct (ir_state r); try (destruct Hr; done);
        cbn in Ho; by rewrite andb_false_r in Ho. }
    by destruct (is_state InvocationClaimed r).
  - rewrite Hs in Hr. destruct Hr as [_ ->]. eauto.
  - rewrite Hs in Hr. destruct Hr as [(c' & Hc' & Hne) ->]. split; [|done]. exists c. split; [done|congruence].
  - destruct Hs as [[Hs _]|[Hs _]]; rewrite Hs in Hr; by destruct Hr as [_ ->].
  - destruct (rr_OK result) eqn:Hok; exists c, (stored_reply result); cbn; by rewrite Hid, Hok.
Qed.
Lemma call_moves_inv now a db db' : moves now a db db' -> fun_inv db -> fun_inv db'.
Proof.
  intros (Hold & Hnew & Hone) [Hrow Hkey].
  assert (forall id r', invocations_t db' !! id = Some r' ->
    (exists r, invocations_t db !! id = Some r /\ same_call r r' /\ row_ok id r') \/ invocations_t db !! id = None /\ fresh_row db id r') as Hcase.
  { intros id r' Hr'. destruct (invocations_t db !! id) as [r|] eqn:Hr.
    - left. exists r. split; [done|]. destruct (Hold id r Hr) as [(r2 & Hr2 & Hm)|[Hn _]]; [|congruence].
      assert (r2 = r') as -> by congruence. split; [by eapply move_same_call|by eapply call_move_ok, Hrow].
    - right. split; [done|]. destruct (Hnew id r' Hr') as [[r H]|H]; [congruence|done]. }
  split.
  - intros id r' Hr'. destruct (Hcase id r' Hr') as [(r & _ & _ & Hok)|(_ & Hs & Hc & Hp & Hb & _)]; [done|].
    split; [done|]. by rewrite Hs.
  - intros id1 id2 r1 r2 H1 H2 Ec Eh.
    destruct (Hcase id1 r1 H1) as [(x1 & Hx1 & S1 & _)|[N1 F1]], (Hcase id2 r2 H2) as [(x2 & Hx2 & S2 & _)|[N2 F2]].
    + destruct S1 as (_ & C1 & D1 & _), S2 as (_ & C2 & D2 & _). apply (Hkey id1 id2 x1 x2); congruence.
    + destruct S1 as (_ & C1 & D1 & _), F2 as (_ & _ & _ & _ & F2). destruct (F2 id1 x1 Hx1). split; congruence.
    + destruct S2 as (_ & C2 & D2 & _), F1 as (_ & _ & _ & _ & F1). destruct (F1 id2 x2 Hx2). split; congruence.
    + by apply Hone.
Qed.
Lemma run_inv who t db t' db' : run who t db t' db' -> fun_inv db -> fun_inv db'.
Proof. induction 1 as [|t t1 t' a db db1 db' Ht Hw Hs _ IH]; [done|]. intros Hi. apply IH. by eapply call_moves_inv, Hi; apply stmt_moves. Qed.

(** An invocation stays, until it has expired. *)
Lemma run_row who t db t' db' id r :
  run who t db t' db' -> invocations_t db !! id = Some r -> t' < ir_expires_at r ->
  exists r', invocations_t db' !! id = Some r' /\ same_call r r'.
Proof.
  intros Hrun. revert r. induction Hrun as [t t' db Ht|t t1 t' a db db1 db' Ht Hw Hs Hrun IH]; intros r Hr He.
  - exists r. split; [done|apply same_call_refl].
  - destruct (stmt_moves _ _ _ _ Hs) as [Hold _]. pose proof (run_time _ _ _ _ _ Hrun).
    destruct (Hold id r Hr) as [(r1 & Hr1 & Hm)|[_ Hx]]; [|lia]. pose proof (move_same_call _ _ _ _ _ Hm) as Hc.
    destruct (IH r1 Hr1) as (r' & Hr' & Hc'); [destruct Hc as (_ & _ & _ & _ & _ & -> & _); lia|].
    exists r'. split; [done|by eapply same_call_trans].
Qed.
