(* ===== verification/FunctionClaims.v ===== *)
(** * What invoking a function guarantees *)

From Stdlib Require Import Ascii String ZifyBool.
From S2P Require Import Prelude GoLib Crypto Json JsonEncode Domain QueueSchema QueueService AppService FunctionResult FunctionStore FunctionService FunctionSystem.
Import Functions Invoking.

Definition anyone (a : actor) : Prop := True.
Definition empty_functions : FunDB := mkFunDB ∅ ∅ ∅.

(** C26: in every database that statements of the store reach from empty tables, in any
    order and at any times, there is one invocation per caller and key, its times are
    in order, it names a connection exactly while one holds it or has answered it, and
    it has a reply, with its own identifier and the kind its state says, exactly when
    it was answered. *)
Theorem invocation_invariant t t' db : run anyone t empty_functions t' db -> fun_inv db.
Proof.
  intros Hrun. apply (FunctionSystem.run_inv _ _ _ _ _ Hrun). split; cbn; intros; by rewrite lookup_empty in *.
Qed.

(** ** Reading an invocation *)

(** Comparisons of known states. *)
Ltac states H :=
  repeat first [rewrite bool_decide_true in H by done|rewrite bool_decide_false in H by done]; cbn [andb orb] in H.

Lemma update_run {A} (f : FunDB -> A * FunDB) w :
  w_faults w = [] -> update f w = (Ok (f (w_db w)).1, mkWorld (f (w_db w)).2 [] (w_locked w)).
Proof. intros Hf. unfold update, exec. rewrite Hf. by destruct (f (w_db w)). Qed.
Lemma query_row_run {A} e (f : FunDB -> option A) w :
  w_faults w = [] -> query_row e f w = (match f (w_db w) with Some a => Ok a | None => Err e end, w).
Proof. intros Hf. unfold query_row, exec. destruct w as [d fs lk]. cbn in *. subst fs. by destruct (f d). Qed.

(** The row [GetInvocation] leaves and reads. *)
Definition ended (t : Z) (r : InvocationRow) : InvocationRow :=
  if overdue t r
  then set_state (if is_state InvocationClaimed r then InvocationTimeout else InvocationUnavailable) None (ir_reply r) t r
  else r.
Lemma end_overdue_row t id db r :
  invocations_t db !! id = Some r -> invocations_t (end_overdue t id db).2 !! id = Some (ended t r).
Proof.
  intros Hr. unfold end_overdue, update_invocation, ended. rewrite Hr. destruct (overdue t r); [|done]. apply lookup_insert_eq.
Qed.
Lemma ended_move t id r : move t id r None (ended t r).
Proof. unfold ended. destruct (overdue t r) eqn:E; [by apply mv_end_overdue|constructor]. Qed.
Lemma ended_waiting t r :
  terminal (ir_state (ended t r)) = false -> t < ir_expires_at r ->
  ended t r = r /\ (ir_state r = InvocationClaimed /\ t < ir_deadline r \/ ir_state r <> InvocationClaimed /\ t < ir_claim_by r).
Proof.
  unfold ended. intros Ht He. destruct (overdue t r) eqn:Ho; [by destruct (is_state InvocationClaimed r)|].
  split; [done|]. unfold overdue, is_state in Ho. assert ((t <? ir_expires_at r) = true) as Hlt by lia. rewrite Hlt in Ho.
  destruct (ir_state r); try discriminate Ht; [right|right|left]; (split; [done|]); states Ho; lia.
Qed.

Lemma get_run t1 t2 id w r :
  w_faults w = [] -> invocations_t (w_db w) !! id = Some r -> t2 < ir_expires_at r ->
  GetInvocation t1 t2 id w
  = (Ok (scanInvocation id (ended t1 r)), mkWorld (end_overdue t1 id (w_db w)).2 [] (w_locked w)).
Proof.
  intros Hf Hr He. unfold GetInvocation, mbind, M_bind. rewrite update_run by done. rewrite query_row_run by done. cbn [w_db].
  rewrite (end_overdue_row _ _ _ _ Hr). destruct (move_same_call _ _ _ _ _ (ended_move t1 id r)) as (_ & _ & _ & _ & _ & -> & _).
  assert ((t2 <? ir_expires_at r) = true) as -> by lia. done.
Qed.

(** ** An outcome is final *)

Lemma run_terminal who t db t' db' id r :
  run who t db t' db' -> invocations_t db !! id = Some r -> terminal (ir_state r) = true -> t' < ir_expires_at r ->
  invocations_t db' !! id = Some r.
Proof.
  induction 1 as [|t t1 t' a db db1 db' Ht Hw Hs Hrun IH]; [done|]. intros Hr Hterm He.
  destruct (stmt_moves _ _ _ _ Hs) as [Hold _]. pose proof (run_time _ _ _ _ _ Hrun).
  destruct (Hold id r Hr) as [(r1 & Hr1 & Hm)|[_ Hx]]; [|lia].
  apply move_terminal in Hm as ->; [|done]. auto.
Qed.

(** Once an invocation has ended, nothing anyone does changes its row until it
    expires, and every read of it gives the same outcome. *)
Theorem invocation_final t db t' db' id r t1 t2 locked :
  run anyone t db t' db' -> invocations_t db !! id = Some r -> terminal (ir_state r) = true -> t' < ir_expires_at r ->
  t2 < ir_expires_at r ->
  invocations_t db' !! id = Some r
  /\ (GetInvocation t1 t2 id (mkWorld db' [] locked)).1 = Ok (scanInvocation id r).
Proof.
  intros Hrun Hr Hterm He Ht2. pose proof (run_terminal _ _ _ _ _ _ _ Hrun Hr Hterm He) as Hr'. split; [done|].
  rewrite (get_run t1 t2 id _ r) by done. cbn. f_equal. f_equal.
  by apply (move_terminal _ _ _ _ _ (ended_move t1 id r)).
Qed.

(** ** A claim is exclusive *)

Definition not_holder (c id : string) (a : actor) : Prop := a <> Some (c, id).

Lemma move_held now id r a r' c :
  move now id r a r' -> ir_state r = InvocationClaimed -> ir_connection r = Some c -> now < ir_deadline r ->
  not_holder c id a -> r' = r.
Proof.
  intros Hm Hs Hc Ht Hw. destruct Hm as [a|Ho|c' Hs'|c' Hs'|c' Hc' _|c' result Hc' _]; try done; try (exfalso; congruence).
  unfold overdue, is_state in Ho. rewrite Hs in Ho. states Ho. lia.
Qed.
Lemma run_held t db t' db' id r c :
  run (not_holder c id) t db t' db' -> invocations_t db !! id = Some r -> ir_state r = InvocationClaimed ->
  ir_connection r = Some c -> ir_deadline r <= ir_expires_at r -> t' < ir_deadline r -> invocations_t db' !! id = Some r.
Proof.
  induction 1 as [|t t1 t' a db db1 db' Ht Hw Hs Hrun IH]; [done|]. intros Hr Hst Hc Hb He.
  destruct (stmt_moves _ _ _ _ Hs) as [Hold _]. pose proof (run_time _ _ _ _ _ Hrun).
  destruct (Hold id r Hr) as [(r1 & Hr1 & Hm)|[_ Hx]]; [|lia].
  rewrite (move_held _ _ _ _ _ c Hm) in Hr1 by (done || lia). auto.
Qed.

Lemma refused_run stmt times id c owner w :
  w_faults w = [] -> (stmt (times.1.1) (w_db w)).1 = 0 ->
  (transitionInvocation times stmt id c owner w).1 = Err StoreInvalidResult.
Proof.
  destruct times as [[t t1] t2]. intros Hf Hs. unfold transitionInvocation. destruct (_ || _ || _); [done|].
  unfold mbind, M_bind. rewrite update_run by done. cbn [fst] in Hs. rewrite Hs. done.
Qed.
Lemma update_miss id hit f db r :
  invocations_t db !! id = Some r -> hit r = false -> update_invocation id hit f db = (0, db).
Proof. intros Hr Hh. unfold update_invocation. by rewrite Hr, Hh. Qed.
Lemma update_hit id hit f db r :
  invocations_t db !! id = Some r -> hit r = true ->
  update_invocation id hit f db = (1, with_invocations (<[id := f r]> (invocations_t db)) db).
Proof. intros Hr Hh. unfold update_invocation. by rewrite Hr, Hh. Qed.
Lemma complete_refused_run times owner c result w :
  w_faults w = [] -> (complete times.1.1 owner c result (w_db w)).1 = 0 ->
  (CompleteInvocation times owner c result w).1 = Err StoreInvalidResult.
Proof.
  destruct times as [[t t1] t2]. intros Hf Hs. unfold CompleteInvocation. destruct (_ || _ || _); [done|].
  unfold mbind, M_bind. rewrite update_run by done. cbn [fst] in Hs. rewrite Hs. done.
Qed.

(** C27: while a connection holds an acknowledged invocation, until its deadline and
    whatever others do, the row does not change: nobody can claim it, no other
    connection can acknowledge, release or answer it, and the holder's answer is taken
    and becomes the outcome. *)
Theorem invocation_exclusive t db t' db' id r c times locked :
  fun_inv db -> run (not_holder c id) t db t' db' ->
  invocations_t db !! id = Some r -> ir_state r = InvocationClaimed -> ir_connection r = Some c ->
  times.1.1 = t' -> t' < ir_deadline r ->
  let w := mkWorld db' [] locked in
  (forall owner c', (ClaimInvocation times owner c' id w).1 = Err StoreInvalidResult)
  /\ (forall owner c', c' <> c ->
        (AcknowledgeInvocation times owner c' id w).1 = Err StoreInvalidResult
        /\ (ReleaseInvocation times owner c' id w).1 = Err StoreInvalidResult
        /\ forall result, rr_InvocationID result = id ->
             (CompleteInvocation times owner c' result w).1 = Err StoreInvalidResult)
  /\ (forall result, rr_InvocationID result = id -> ValidRPCResult result = true -> ir_owner r <> "" ->
        (CompleteInvocation times (ir_owner r) c result w).1 = Ok tt
        /\ invocations_t (w_db (CompleteInvocation times (ir_owner r) c result w).2) !! id
           = Some (set_state (if rr_OK result then InvocationSuccess else InvocationHandlerError) (Some c)
                     (Some (stored_reply result)) t' r)).
Proof.
  intros Hinv Hrun Hr Hs Hc Htimes Ht w. destruct (fi_row _ Hinv id r Hr) as [Hb Hrow]. rewrite Hs in Hrow.
  destruct Hrow as [(c0 & Hc0 & Hne) _]. assert (c0 = c) as -> by congruence.
  pose proof (run_held _ _ _ _ _ _ _ Hrun Hr Hs Hc ltac:(lia) Ht) as Hr'.
  assert (forall owner c', c' <> c -> held_by owner c' r = false) as Hheld.
  { intros owner c' Hn. unfold held_by. rewrite Hc. by rewrite (bool_decide_false (Some c = Some c')), andb_false_r by congruence. }
  split_and!.
  - intros owner c'. apply refused_run; [done|]. cbn [w_db w]. unfold reserve. rewrite (update_miss _ _ _ _ r Hr'); [done|].
    unfold is_state. rewrite Hs. cbn. by rewrite ?andb_false_r.
  - intros owner c' Hn. split_and!.
    + apply refused_run; [done|]. cbn [w_db w]. unfold acknowledge. by rewrite (update_miss _ _ _ _ r Hr') by by rewrite Hheld.
    + apply refused_run; [done|]. cbn [w_db w]. unfold release_. by rewrite (update_miss _ _ _ _ r Hr') by by rewrite Hheld.
    + intros result Hid. apply complete_refused_run; [done|]. cbn [w_db w]. unfold complete. rewrite Hid.
      by rewrite (update_miss _ _ _ _ r Hr') by by rewrite Hheld.
  - intros result Hid Hv Ho. destruct times as [[t0 t1] t2]. cbn in Htimes. subst t0. unfold CompleteInvocation.
    rewrite (bool_decide_false _ Ho), (bool_decide_false _ Hne), Hv. cbn [orb negb]. unfold mbind, M_bind.
    rewrite update_run by done. cbn [w_db w]. unfold complete. rewrite Hid, (update_hit _ _ _ _ r Hr').
    + cbn. by rewrite lookup_insert_eq, Hc.
    + unfold held_by, is_state. rewrite Hc, Hs. rewrite !(bool_decide_true (_ = _)) by done. cbn. lia.
Qed.

(** ** Waiting ends *)

(** The turns of a waiting call: others commit what they like meanwhile, the clock of
    the database moves on, and a timer that has run out was set for a time the clock of
    the database has reached. [floor] is the earliest time of the next read. *)
Fixpoint timely (floor t : Z) (id : string) (db : FunDB) (turns : list turn) : Prop :=
  match turns with
  | [] => True
  | tn :: rest =>
      tn_cancelled tn = false /\ tn_wake tn <> Cancelled /\ floor <= tn_t1 tn <= tn_t2 tn
      /\ run anyone t db (tn_t1 tn) (tn_others tn db)
      /\ let db1 := (end_overdue (tn_t1 tn) id (tn_others tn db)).2 in
         timely (match tn_wake tn, invocations_t db1 !! id with
                 | Elapsed, Some r => Z.max (tn_t2 tn) (wait_until (scanInvocation id r))
                 | _, _ => tn_t2 tn
                 end) (tn_t1 tn) id db1 rest
  end.
Definition hints (turns : list turn) : nat :=
  length (List.filter (fun tn => match tn_wake tn with Updated => true | _ => false end) turns).
(** How many more times the timer can run out. *)
Definition phase (floor : Z) (r : InvocationRow) : nat :=
  if floor <? ir_claim_by r then 2%nat else if floor <? ir_deadline r then 1%nat else 0%nat.

(** What a call returns for an invocation that has ended. *)
Definition outcome_of (r : InvocationRow) : res (option RPCResult) :=
  match ir_state r with
  | InvocationTimeout => Err ErrFunctionTimeout
  | InvocationSuccess | InvocationHandlerError => Ok (ir_reply r)
  | _ => Err ErrFunctionUnavailable
  end.
Lemma respond_outcome id r w :
  row_ok id r -> terminal (ir_state r) = true -> respond (scanInvocation id r) w = (outcome_of r, w).
Proof.
  intros [_ Hr] Ht. unfold respond, invocationResponse, outcome_of, scanInvocation. cbn [iv_State iv_Reply].
  destruct (ir_state r); try discriminate Ht; try done; destruct Hr as (c & p & _ & -> & _); done.
Qed.

Lemma loop_outcome turns id floor t : forall w r,
  fun_inv (w_db w) -> w_faults w = [] -> invocations_t (w_db w) !! id = Some r ->
  timely floor t id (w_db w) turns -> (forall tn, tn ∈ turns -> tn_t2 tn < ir_expires_at r) ->
  (hints turns + phase floor r + 1 <= length turns)%nat ->
  exists r' w', invoke_loop turns id w = (outcome_of r', w') /\ terminal (ir_state r') = true
    /\ invocations_t (w_db w') !! id = Some r' /\ same_call r r'.
Proof.
  revert floor t. induction turns as [|tn turns IH]; intros floor t w r Hinv Hf Hr Ht He Hlen; [cbn in Hlen; lia|].
  destruct Ht as (Hc & Hw & Hclock & Hrun & Hrest). pose proof (He tn ltac:(by left)) as Het.
  destruct (run_row _ _ _ _ _ _ _ Hrun Hr ltac:(lia)) as (r1 & Hr1 & Hsame).
  pose proof Hsame as (_ & _ & _ & Hclaim & Hdead & Hexp & _).
  pose proof (FunctionSystem.run_inv _ _ _ _ _ Hrun Hinv) as Hinv1.
  pose proof (ended_move (tn_t1 tn) id r1) as Hmove.
  pose proof (end_overdue_row (tn_t1 tn) id _ _ Hr1) as Hr2.
  assert (fun_inv (end_overdue (tn_t1 tn) id (tn_others tn (w_db w))).2) as Hinv2.
  { eapply call_moves_inv; [|exact Hinv1]. apply stmt_moves, st_end_overdue. }
  pose proof (fi_row _ Hinv id r Hr) as [Hbounds _].
  cbn [invoke_loop]. rewrite Hc. unfold mbind, M_bind. cbn [Apps.others_commit].
  unfold map_store_error, on_error. rewrite (get_run (tn_t1 tn) (tn_t2 tn) id _ r1) by (done || (cbn; lia)).
  cbn [set_db w_db w_locked]. unfold Terminal. cbn [scanInvocation iv_State].
  destruct (terminal (ir_state (ended (tn_t1 tn) r1))) eqn:Hterm.
  { exists (ended (tn_t1 tn) r1). eexists. rewrite (respond_outcome id) by (done || by apply (fi_row _ Hinv2)).
    split; [reflexivity|]. split; [done|]. split; [done|]. eapply same_call_trans, move_same_call, Hmove. done. }
  destruct (ended_waiting _ _ Hterm ltac:(lia)) as [Hgu Hwait]. rewrite Hgu in Hr2, Hmove.
  set (w2 := mkWorld (end_overdue (tn_t1 tn) id (tn_others tn (w_db w))).2 [] (w_locked w)).
  set (floor' := match tn_wake tn, invocations_t (w_db w2) !! id with
                 | Elapsed, Some r => Z.max (tn_t2 tn) (wait_until (scanInvocation id r)) | _, _ => tn_t2 tn end).
  destruct (IH floor' (tn_t1 tn) w2 r1) as (r' & w' & Hloop & Hterm' & Hr' & Hs'); try done.
  { intros tn' Hin. rewrite Hexp. apply He. by right. }
  { cbn [hints List.filter length] in Hlen. unfold hints in *. cbn [List.filter] in Hlen. unfold floor', phase in *.
    rewrite Hclaim, Hdead in *. cbn [w_db w2]. rewrite Hr2. unfold wait_until, scanInvocation. cbn [iv_State iv_Deadline iv_ClaimBy].
    rewrite Hclaim, Hdead. destruct (tn_wake tn); [done| |]; cbn [length] in Hlen.
    - repeat case_match; lia.
    - destruct Hwait as [[Hs Hlt]|[Hs Hlt]].
      + rewrite (bool_decide_true _ Hs). repeat case_match; lia.
      + rewrite (bool_decide_false _ Hs). repeat case_match; lia. }
  exists r', w'. split_and!; try done.
  - destruct (tn_wake tn); [done| |]; exact Hloop.
  - by eapply same_call_trans.
Qed.

(** C28: a call that waits for an invocation ends, with a database that answers, if it is
    not cancelled, and if its timers do not run out before the clock of the database has
    reached the time they were set for: with [n] wakeup hints it takes at most [n + 3]
    reads, whatever others do, and while the record is kept it returns the outcome the row
    then has for good, that is the reply, or that no handler took it, or that time ran
    out. *)
Theorem invoke_terminates turns id t w r :
  fun_inv (w_db w) -> w_faults w = [] -> invocations_t (w_db w) !! id = Some r ->
  timely t t id (w_db w) turns -> (forall tn, tn ∈ turns -> tn_t2 tn < ir_expires_at r) ->
  (hints turns + 3 <= length turns)%nat ->
  exists r' w', invoke_loop turns id w = (outcome_of r', w') /\ terminal (ir_state r') = true
    /\ invocations_t (w_db w') !! id = Some r' /\ same_call r r'.
Proof.
  intros Hinv Hf Hr Ht He Hlen. apply (loop_outcome turns id t t); try done.
  assert (phase t r <= 2)%nat by (unfold phase; repeat case_match; lia). lia.
Qed.

(** ** One invocation per key *)

Lemma get_row t1 t2 id w v w' :
  GetInvocation t1 t2 id w = (Ok v, w') ->
  exists r r', invocations_t (w_db w) !! id = Some r /\ r' = ended t1 r /\ v = scanInvocation id r'
    /\ invocations_t (w_db w') !! id = Some r' /\ same_call r r' /\ t2 < ir_expires_at r.
Proof.
  unfold GetInvocation. intros Hrun. apply bind_ok in Hrun as (n & w1 & Hup & Hq). apply update_ok in Hup as (Hup & _).
  apply query_row_ok in Hq as (Hq & Hdb & _). assert (w_db w1 = (end_overdue t1 id (w_db w)).2) as Hw1 by by rewrite Hup.
  destruct (invocations_t (w_db w1) !! id) as [x|] eqn:Hx; [|done]. destruct (t2 <? ir_expires_at x) eqn:He; [|done].
  injection Hq as <-. destruct (invocations_t (w_db w) !! id) as [r|] eqn:Hr.
  2:{ rewrite Hw1 in Hx. unfold end_overdue, update_invocation in Hx. rewrite Hr in Hx. cbn in Hx. congruence. }
  pose proof (end_overdue_row t1 id _ _ Hr) as Hg. rewrite <- Hw1, Hx in Hg. injection Hg as ->.
  pose proof (move_same_call _ _ _ _ _ (ended_move t1 id r)) as Hsame. exists r, (ended t1 r).
  rewrite Hdb. split_and!; try done. destruct Hsame as (_ & _ & _ & _ & _ & -> & _) in He. lia.
Qed.


Definition keyed (caller key : string) (r : InvocationRow) : Prop :=
  ir_caller r = caller /\ ir_hash r = invocationKeyHash caller key.

Lemma find_row times caller key w v w' :
  FindInvocation times caller key w = (Ok v, w') ->
  exists r, invocations_t (w_db w') !! iv_ID v = Some r /\ keyed caller key r /\ v = scanInvocation (iv_ID v) r.
Proof.
  destruct times as [[t t1] t2]. unfold FindInvocation. intros Hrun. apply bind_ok in Hrun as (id & w1 & Hq & Hg).
  apply query_row_ok in Hq as (Hq & Hdb & _). apply find_key_some in Hq as (r & Hr & Hc & Hh & _).
  apply get_row in Hg as (x & x' & Hx & _ & -> & Hx' & Hs & _). exists x'. cbn. split; [done|]. split; [|done].
  rewrite Hdb, Hr in Hx. injection Hx as <-. destruct Hs as (_ & Hc' & Hh' & _). split; congruence.
Qed.
Lemma insert_row v hash id db db' :
  insert_invocation v hash db = Ok (Some id, db') ->
  exists r, invocations_t db' !! id = Some r /\ ir_caller r = iv_CallerAppID v /\ ir_hash r = hash.
Proof.
  unfold insert_invocation. destruct (functions_t db !! iv_FunctionID v) as [f|]; [|done].
  destruct (negb (_ && _)); [done|]. destruct (_ || _); [done|]. destruct (isSome (find_key _ _ _ db)); [done|].
  destruct (isSome (invocations_t db !! iv_ID v)); [done|]. intros [= <- <-]. eexists. cbn. by rewrite lookup_insert_eq.
Qed.
Lemma create_row times v key w u b w' :
  CreateInvocation times v key w = (Ok (u, b), w') ->
  exists r, invocations_t (w_db w') !! iv_ID u = Some r /\ keyed (iv_CallerAppID v) key r /\ u = scanInvocation (iv_ID u) r.
Proof.
  destruct times as [[t t1] t2]. unfold CreateInvocation. destruct (_ || _ || _ || _ || _); [done|]. intros Hrun.
  apply bind_ok in Hrun as (? & w1 & _ & Hrun). apply bind_ok in Hrun as (ins & w2 & Hins & Hrun).
  apply exec_ok in Hins as (Hins & _).
  assert (exists id r, invocations_t (w_db w2) !! id = Some r /\ keyed (iv_CallerAppID v) key r
    /\ exists stored b' w3, GetInvocation t1 t2 id w3 = (Ok stored, w') /\ w_db w3 = w_db w2 /\ (stored, b') = (u, b))
    as (id & r & Hr & [Hc Hh] & stored & b' & w3 & Hget & Hdb & [= -> _]).
  { destruct ins as [id|].
    - apply bind_ok in Hrun as (stored & w3 & Hget & [Hu <-]%ret_ok). destruct (insert_row _ _ _ _ _ Hins) as (r & Hr & Hk).
      exists id, r. split; [done|]. split; [done|]. exists stored, false, w2. done.
    - apply bind_ok in Hrun as (id & w3 & Hq & Hrun). apply query_row_ok in Hq as (Hq & Hdb & _).
      apply find_key_some in Hq as (r & Hr & Hc & Hh & _). apply bind_ok in Hrun as (stored & w4 & Hget & [Hu <-]%ret_ok).
      exists id, r. split; [done|]. split; [done|]. exists stored, true, w3. done. }
  apply get_row in Hget as (y & y' & Hy & _ & -> & Hy' & Hs & _). exists y'. cbn. split; [done|]. split; [|done].
  rewrite Hdb, Hr in Hy. injection Hy as <-. destruct Hs as (_ & Hc' & Hh' & _). split; congruence.
Qed.
Lemma find_or_create_row ct env caller id key input w v b w' :
  find_or_create ct env caller id key input w = (Ok (v, b), w') ->
  exists r, invocations_t (w_db w') !! iv_ID v = Some r /\ keyed caller key r /\ v = scanInvocation (iv_ID v) r.
Proof.
  unfold find_or_create. destruct (FindInvocation (ie_find env) caller key w) as [[u|e] w1] eqn:Hf.
  { intros [= <- _ <-]. by eapply find_row. }
  destruct e; try done. unfold create_invocation. intros Hrun. apply bind_ok in Hrun as (? & w2 & _ & Hrun).
  apply bind_ok in Hrun as (f & w3 & _ & Hrun). destruct (negb (fn_Enabled f)); [done|].
  destruct (negb (frame_fits _)); [done|]. apply bind_ok in Hrun as (? & w4 & _ & Hrun).
  apply (proj1 (map_store_ok _ _ _ _)) in Hrun. by apply create_row in Hrun.
Qed.

(** A key stands for one invocation: after a call has found or created one, every
    later call of the same caller with that key, until it expires and whatever happens
    between, is answered with that same invocation, with the same input, as a replay,
    and creates none. *)
Theorem invoke_idempotent ct env caller id key input w v b w1 t t' db' ct' env' id' input' r :
  find_or_create ct env caller id key input w = (Ok (v, b), w1) -> fun_inv (w_db w1) ->
  run anyone t (w_db w1) t' db' -> invocations_t (w_db w1) !! iv_ID v = Some r ->
  (ie_find env').1.1 = t' -> t' < ir_expires_at r -> (ie_find env').2 < ir_expires_at r ->
  let w' := mkWorld db' [] (w_locked w1) in
  exists v', find_or_create ct' env' caller id' key input' w'
             = (Ok (v', true), mkWorld (end_overdue (ie_find env').1.2 (iv_ID v) db').2 [] (w_locked w1))
    /\ iv_ID v' = iv_ID v /\ iv_Input v' = iv_Input v /\ iv_Name v' = iv_Name v
    /\ iv_Deadline v' = iv_Deadline v.
Proof.
  intros Hfc Hinv Hrun Hr Htime He He2 w'. apply find_or_create_row in Hfc as (r0 & Hr0 & [Hc Hh] & Hv).
  assert (r0 = r) as -> by congruence. destruct (run_row _ _ _ _ _ _ _ Hrun Hr He) as (r' & Hr' & Hs).
  pose proof (FunctionSystem.run_inv _ _ _ _ _ Hrun Hinv) as Hinv'.
  pose proof Hs as (_ & Sc & Sh & _ & Sd & Se & Sn & Si).
  destruct (ie_find env') as [[t0 t1] t2] eqn:Ef. cbn in Htime, He2. subst t0.
  assert (find_key caller (invocationKeyHash caller key) (fun r => t' <? ir_expires_at r) db' = Some (iv_ID v)) as Hfind.
  { destruct (find_key _ _ _ db') as [k|] eqn:Ek.
    - apply find_key_some in Ek as (x & Hx & Hxc & Hxh & _). f_equal. apply (fi_key _ Hinv' k (iv_ID v) x r'); congruence.
    - exfalso. pose proof (find_key_none _ _ _ _ Ek (iv_ID v) r' Hr' ltac:(congruence) ltac:(congruence)) as Hn. cbn in Hn. lia. }
  exists (scanInvocation (iv_ID v) (ended t1 r')). unfold find_or_create. rewrite Ef. unfold FindInvocation, mbind, M_bind.
  rewrite query_row_run by done. cbn [w_db w']. rewrite Hfind. rewrite (get_run t1 t2 _ _ r') by (done || lia).
  split; [done|]. destruct (move_same_call _ _ _ _ _ (ended_move t1 (iv_ID v) r')) as (_ & _ & _ & _ & Gd & _ & Gn & Gi).
  rewrite Hv. cbn. split_and!; congruence.
Qed.

(** * A function called and answered

    An owner registers a function, another application calls it, a connection of the
    owner takes the call, acknowledges it and answers; the theorems of
    [FunctionResult] and [FunctionClaims] at these values. *)

Definition demo_apps : FunDB := mkFunDB (<["b" := true]> (<["a" := true]> ∅)) ∅ ∅.
Definition demo_fn : FunctionDef := mkFunction "fn_1" "a" "sum" 5 true 0 0.
Definition demo_functions : FunDB := with_functions {["fn_1" := demo_fn]} demo_apps.
Definition demo_call : Invocation := new_invocation (250 * Millisecond) Second "1" "b" "{}" demo_fn.
Definition demo_hash : string := Eval vm_compute in invocationKeyHash "b" "k".
Definition demo_row : InvocationRow :=
  mkInvocationRow "fn_1" "a" "b" demo_hash "sum" "{}" InvocationPending None None Second (Second + 250 * Millisecond)
    (6 * Second) (Second + InvocationRetention) Second.
Definition demo_invoked : FunDB := with_invocations {["inv_1" := demo_row]} demo_functions.
Definition demo_reserved : FunDB := (reserve (Second + 1) "inv_1" "c" "a" demo_invoked).2.
Definition demo_held : FunDB := (acknowledge (Second + 2) "inv_1" "c" "a" demo_reserved).2.
Definition demo_reply : RPCResult := mkRPCResult "inv_1" true "{}" "".
Definition demo_answered : FunDB := (complete (2 * Second) "a" "c" demo_reply demo_held).2.

Lemma demo_runs_invoked : run anyone 0 empty_functions Second demo_invoked.
Proof.
  eapply run_step; [| |apply (st_app 0 "a" true)|]; [done|done|].
  eapply run_step; [| |apply (st_app 0 "b" true)|]; [done|done|].
  eapply run_step; [| |apply (st_function 0 demo_fn 1 demo_apps demo_functions); reflexivity|]; [done|done|].
  eapply run_step; [| |apply (st_insert Second demo_call demo_hash (Some "inv_1") demo_functions demo_invoked); reflexivity|]; [done|done|].
  by apply run_done.
Qed.
Lemma demo_runs_held t : Second + 2 <= t -> run anyone Second demo_invoked t demo_held.
Proof.
  intros Ht. eapply run_step; [| |apply (st_reserve (Second + 1) "a" "c" "inv_1")|]; [lia|done|].
  eapply run_step; [| |apply (st_acknowledge (Second + 2) "a" "c" "inv_1")|]; [lia|done|].
  by apply run_done.
Qed.
Lemma demo_runs_answered t : t <= 2 * Second -> run anyone t demo_held (2 * Second) demo_answered.
Proof.
  intros Ht. eapply run_step; [| |apply (st_complete (2 * Second) "a" "c" demo_reply)|]; [done|done|]. by apply run_done.
Qed.
Lemma demo_invoked_inv : fun_inv demo_invoked.
Proof. apply (FunctionSystem.run_inv _ _ _ _ _ demo_runs_invoked). split; cbn; intros; by rewrite lookup_empty in *. Qed.
Lemma demo_held_inv : fun_inv demo_held.
Proof. by apply (FunctionSystem.run_inv _ _ _ _ _ (demo_runs_held (Second + 2) ltac:(lia))), demo_invoked_inv. Qed.
Definition row_held : InvocationRow := set_state InvocationClaimed (Some "c") None (Second + 2) demo_row.
Definition row_answered : InvocationRow := set_state InvocationSuccess (Some "c") (Some demo_reply) (2 * Second) demo_row.

(** ** The theorems at these values *)

Lemma canonical_result_valid_witness :
  let raw := quotes "{'code':'bad_input','message':'a'}" in
  ValidRPCResult (set_Error raw (mkRPCResult "inv_1" false "" raw)) = true.
Proof. apply canonical_result_valid; vm_compute; reflexivity. Defined.

Lemma invocation_invariant_witness : fun_inv demo_answered /\ invocations_t demo_answered !! "inv_1" = Some row_answered.
Proof.
  split; [|vm_compute; reflexivity]. apply (invocation_invariant 0 (2 * Second)). eapply run_trans; [exact demo_runs_invoked|].
  eapply run_trans; [by apply (demo_runs_held (Second + 2))|by apply demo_runs_answered].
Defined.

Lemma invocation_final_witness :
  invocations_t (complete (3 * Second) "a" "c" demo_reply demo_answered).2 !! "inv_1" = Some row_answered
  /\ (GetInvocation (9 * Second) (9 * Second) "inv_1"
        (mkWorld (complete (3 * Second) "a" "c" demo_reply demo_answered).2 [] ∅)).1
     = Ok (scanInvocation "inv_1" row_answered).
Proof.
  apply (invocation_final (2 * Second) demo_answered (3 * Second)); [|vm_compute; reflexivity..].
  eapply run_step; [| |apply (st_complete (3 * Second) "a" "c" demo_reply)|]; [done|done|]. by apply run_done.
Defined.

Lemma invocation_exclusive_witness :
  let w := mkWorld demo_held [] ∅ in let times := (2 * Second, 2 * Second, 2 * Second) in
  (ClaimInvocation times "a" "d" "inv_1" w).1 = Err StoreInvalidResult
  /\ (CompleteInvocation times "a" "d" demo_reply w).1 = Err StoreInvalidResult
  /\ (CompleteInvocation times "a" "c" demo_reply w).1 = Ok tt.
Proof.
  destruct (invocation_exclusive (Second + 2) demo_held (2 * Second) demo_held "inv_1" row_held "c"
    (2 * Second, 2 * Second, 2 * Second) ∅) as (Hclaim & Hothers & Hholder);
    [exact demo_held_inv|by apply run_done|vm_compute; reflexivity..|].
  split_and!; [apply Hclaim|by apply (Hothers "a" "d")|by apply (Hholder demo_reply)].
Defined.

(** Two reads: the call is held at the first, answered at the second. *)
Definition demo_turns : list turn :=
  [mkTurn false (fun _ => demo_held) (Second + 3) (Second + 3) Updated;
   mkTurn false (fun _ => demo_answered) (2 * Second) (2 * Second) Updated;
   mkTurn false id (2 * Second) (2 * Second) Updated; mkTurn false id (6 * Second) (6 * Second) Elapsed;
   mkTurn false id (6 * Second) (6 * Second) Elapsed; mkTurn false id (6 * Second) (6 * Second) Elapsed].
Lemma invoke_terminates_witness :
  exists r' w', invoke_loop demo_turns "inv_1" (mkWorld demo_invoked [] ∅) = (outcome_of r', w')
    /\ terminal (ir_state r') = true /\ invocations_t (w_db w') !! "inv_1" = Some r' /\ same_call demo_row r'.
Proof.
  apply (invoke_terminates demo_turns "inv_1" Second); [exact demo_invoked_inv|reflexivity|vm_compute; reflexivity| | |cbn; lia].
  - cbn [timely demo_turns tn_cancelled tn_wake tn_t1 tn_t2 tn_others w_db]. split_and!; try (done || (vm_compute; by intros)).
    all: try (vm_compute; discriminate).
    + by apply demo_runs_held.
    + by apply demo_runs_answered.
    + by apply run_done.
    + by apply run_done.
    + by apply run_done.
    + by apply run_done.
  - intros tn Hin. unfold demo_turns in Hin. repeat (apply elem_of_cons in Hin as [->|Hin]; [vm_compute; reflexivity|]).
    by apply elem_of_nil in Hin.
Defined.

Definition demo_env : InvokeEnv :=
  mkInvokeEnv false (Second, Second, Second) id Second "1" id (Second, Second, Second) None [].
Definition demo_env_later : InvokeEnv :=
  mkInvokeEnv false (2 * Second, 2 * Second, 2 * Second) id (2 * Second) "2" id (2 * Second, 2 * Second, 2 * Second) None [].
Lemma demo_first :
  find_or_create (250 * Millisecond) demo_env "b" "fn_1" "k" "{}" (mkWorld demo_functions [] ∅)
  = (Ok (scanInvocation "inv_1" demo_row, false), mkWorld demo_invoked [] ∅).
Proof. vm_compute. reflexivity. Qed.
Lemma invoke_idempotent_witness :
  exists v', (find_or_create (250 * Millisecond) demo_env_later "b" "fn_1" "k" "[]" (mkWorld demo_answered [] ∅)).1 = Ok (v', true)
    /\ iv_ID v' = "inv_1" /\ iv_Input v' = "{}".
Proof.
  destruct (invoke_idempotent _ _ _ _ _ _ _ _ _ _ Second (2 * Second) demo_answered (250 * Millisecond) demo_env_later "fn_1" "[]"
    demo_row demo_first demo_invoked_inv) as (v' & Hrun & Hid & Hin & _); [|vm_compute; reflexivity..|].
  - eapply run_trans; [by apply (demo_runs_held (Second + 2))|by apply demo_runs_answered].
  - exists v'. split; [exact (f_equal fst Hrun)|]. split; [exact Hid|exact Hin].
Defined.
