(* ===== verification/RedisKeys.v ===== *)
(** * The keys of the Redis state ([redisstate/keys.go])

    Every key has the form [prefix:{tag}:rest]; the part in braces decides the slot of
    a Redis cluster. *)

From Stdlib Require Import Ascii String.
From stdpp Require Import pretty.
From S2P Require Import Prelude GoLib.

Module Keys.

Record Keyspace := mkKeyspace { Prefix : string }.

(** [^[a-z0-9:_-]{1,32}$] *)
Definition prefix_byte (c : ascii) : bool := is_lower c || is_digit c || is_one_of ":_-" c.
Definition keyPrefixPattern (s : string) : bool := match_class prefix_byte prefix_byte 0 31 s.
Definition valid (k : Keyspace) : bool := keyPrefixPattern (Prefix k).

(** The encodings of the runes for which [unicode.IsControl] holds. As the first byte of
    a longer encoding never continues another one, a rune of such a list occurs in a
    text exactly when its encoding does. *)
Definition control_runes : list (list ascii) :=
  (map (fun n => [chr (Z.of_nat n)]) (seq 0 32) ++ [[chr 127]]
   ++ map (fun n => [chr 194; chr (Z.of_nat n)]) (seq 128 32))%list.
Fixpoint has_rune (ws : list (list ascii)) (l : list ascii) : bool :=
  match l with
  | [] => false
  | _ :: l' => bool_decide (is_Some (strip_any ws l)) || has_rune ws l'
  end.
Definition validKeyPart (part : string) : bool :=
  negb (bool_decide (part = "")) && (len part <=? 128) && negb (ContainsByte part "{") && negb (ContainsByte part "}")
  && negb (has_rune (space_runes ++ control_runes)%list (bytes part)).

(** ** The methods of [Keyspace]; [None] is [ErrInvalidKeyPart] *)

Section methods.
Context (k : Keyspace).
Definition keyed_text (ok : bool) (tag rest : string) : option string :=
  if valid k && ok then Some (Prefix k ++ ":{" ++ tag ++ "}:" ++ rest) else None.

Definition AdminSession (id : string) : option string :=
  keyed_text (validKeyPart id) ("session:" ++ id) "admin".
Definition RateLimit (appID dimension window : string) : option string :=
  keyed_text (validKeyPart appID && validKeyPart dimension && validKeyPart window)
    ("app:" ++ appID) ("rate:" ++ dimension ++ ":" ++ window).
Definition ConnectionOwner (connectionID : string) : option string :=
  keyed_text (validKeyPart connectionID) ("connection:" ++ connectionID) "owner".
Definition InstanceMember (instanceID : string) : option string :=
  keyed_text (validKeyPart instanceID) "instances" ("member:" ++ instanceID).
Definition InstanceIndex : option string := keyed_text true "instances" "live".
Definition DashboardBucket (minute : Z) : option string :=
  keyed_text (0 <? minute) "metrics" ("dashboard:" ++ decimal minute).
Definition DashboardInstance (instanceID : string) : option string :=
  keyed_text (validKeyPart instanceID) "metrics" ("instance:" ++ instanceID).
Definition DashboardInstanceIndex : option string := keyed_text true "metrics" "instances".
Definition RealtimeConnection (appID connectionID : string) : option string :=
  keyed_text (validKeyPart appID && validKeyPart connectionID) ("app:" ++ appID) ("realtime:connection:" ++ connectionID).
Definition RealtimeConnectionIndex (appID : string) : option string :=
  keyed_text (validKeyPart appID) ("app:" ++ appID) "realtime:connections".
Definition RealtimePresence (appID channel connectionID : string) : option string :=
  keyed_text (validKeyPart appID && validKeyPart channel && validKeyPart connectionID)
    ("presence:" ++ appID ++ ":" ++ channel) ("member:" ++ connectionID).
Definition RealtimePresenceIndex (appID channel : string) : option string :=
  keyed_text (validKeyPart appID && validKeyPart channel) ("presence:" ++ appID ++ ":" ++ channel) "members".
Definition RealtimeHistory (appID channel : string) : option string :=
  keyed_text (validKeyPart appID && validKeyPart channel) ("history:" ++ appID ++ ":" ++ channel) "messages".
Definition RealtimeMessageActions (appID channel messageID : string) : option string :=
  keyed_text (validKeyPart appID && validKeyPart channel && validKeyPart messageID)
    ("actions:" ++ appID ++ ":" ++ channel ++ ":" ++ messageID) "state".
End methods.

(** ** All keys *)

Inductive key :=
| KAdminSession (id : string) | KRateLimit (appID dimension window : string) | KConnectionOwner (connectionID : string)
| KInstanceMember (instanceID : string) | KInstanceIndex
| KDashboardBucket (minute : Z) | KDashboardInstance (instanceID : string) | KDashboardInstanceIndex
| KRealtimeConnection (appID connectionID : string) | KRealtimeConnectionIndex (appID : string)
| KRealtimePresence (appID channel connectionID : string) | KRealtimePresenceIndex (appID channel : string)
| KRealtimeHistory (appID channel : string) | KRealtimeMessageActions (appID channel messageID : string).
Definition key_text (k : Keyspace) (x : key) : option string :=
  match x with
  | KAdminSession id => AdminSession k id
  | KRateLimit a d w => RateLimit k a d w
  | KConnectionOwner c => ConnectionOwner k c
  | KInstanceMember i => InstanceMember k i
  | KInstanceIndex => InstanceIndex k
  | KDashboardBucket m => DashboardBucket k m
  | KDashboardInstance i => DashboardInstance k i
  | KDashboardInstanceIndex => DashboardInstanceIndex k
  | KRealtimeConnection a c => RealtimeConnection k a c
  | KRealtimeConnectionIndex a => RealtimeConnectionIndex k a
  | KRealtimePresence a c n => RealtimePresence k a c n
  | KRealtimePresenceIndex a c => RealtimePresenceIndex k a c
  | KRealtimeHistory a c => RealtimeHistory k a c
  | KRealtimeMessageActions a c m => RealtimeMessageActions k a c m
  end.
(** Identifiers of applications and messages, and windows, are written without colons. *)
Definition plain (s : string) : bool := negb (ContainsByte s ":").
Definition plain_key (x : key) : bool :=
  match x with
  | KRateLimit _ _ w => plain w
  | KRealtimePresence a _ _ | KRealtimePresenceIndex a _ | KRealtimeHistory a _ => plain a
  | KRealtimeMessageActions a _ m => plain a && plain m
  | _ => true
  end.

(** The hash tag: what stands between the first brace and the first closing one after
    it, if anything does. *)
Fixpoint upto (c : ascii) (l : list ascii) : option (list ascii * list ascii) :=
  match l with
  | [] => None
  | d :: l' => if decide (d = c) then Some ([], l') else (fun p => (d :: p.1, p.2)) <$> upto c l'
  end.
Definition hash_tag (s : string) : string :=
  match upto "{" (bytes s) with
  | Some (_, l) => match upto "}" l with Some (t :: tag, _) => of_bytes (t :: tag) | _ => s end
  | None => s
  end.
(** The keys a script or a transaction of the package touches together. *)
Definition script_keys (k : Keyspace) (x : key) : list (option string) :=
  match x with
  | KInstanceMember i => [InstanceMember k i; InstanceIndex k]
  | KDashboardInstance i => [DashboardInstance k i; DashboardInstanceIndex k]
  | KRealtimeConnection a c => [RealtimeConnection k a c; RealtimeConnectionIndex k a]
  | KRealtimePresence a c n => [RealtimePresence k a c n; RealtimePresenceIndex k a c]
  | _ => [key_text k x]
  end.

End Keys.
Import Keys.

(** ** Texts with separators *)

Lemma sep_inj c a b a' b' :
  c ∉ bytes a -> c ∉ bytes a' -> (a ++ String c b = a' ++ String c b')%string -> a = a' /\ b = b'.
Proof.
  revert a'. induction a as [|x a IH]; intros [|y a']; cbn; intros Ha Ha' He.
  - by injection He.
  - injection He as -> _. set_solver.
  - injection He as -> _. set_solver.
  - injection He as -> He. destruct (IH a') as [-> ->]; [set_solver..|done|done].
Qed.
Lemma sep_inj_last c a b a' b' :
  c ∉ bytes b -> c ∉ bytes b' -> (a ++ String c b = a' ++ String c b')%string -> a = a' /\ b = b'.
Proof.
  revert a'. induction a as [|x a IH]; intros [|y a']; cbn; intros Hb Hb' He.
  - by injection He.
  - injection He as -> ->. rewrite bytes_app in Hb. cbn in Hb. set_solver.
  - injection He as -> <-. rewrite bytes_app in Hb'. cbn in Hb'. set_solver.
  - injection He as -> He. destruct (IH a') as [-> ->]; done.
Qed.
Lemma string_app_inj a b b' : (a ++ b = a ++ b')%string -> b = b'.
Proof. induction a as [|x a IH]; cbn; [done|]. intros [= He]. auto. Qed.
Lemma plain_no_colon s : plain s = true -> ":"%char ∉ bytes s.
Proof. unfold plain. intros H%negb_true_iff. intros Hin%ContainsByte_true. congruence. Qed.
Lemma part_no_brace s : validKeyPart s = true -> ("{"%char ∉ bytes s) /\ ("}"%char ∉ bytes s).
Proof.
  unfold validKeyPart. rewrite !andb_true_iff, !negb_true_iff. intros [[[_ H1] H2] _].
  split; intros Hin%ContainsByte_true; congruence.
Qed.

(** ** Keys are distinct, and share a slot where they must *)

Definition tag_of (x : key) : string :=
  match x with
  | KAdminSession id => "session:" ++ id
  | KRateLimit a _ _ | KRealtimeConnection a _ | KRealtimeConnectionIndex a => "app:" ++ a
  | KConnectionOwner c => "connection:" ++ c
  | KInstanceMember _ | KInstanceIndex => "instances"
  | KDashboardBucket _ | KDashboardInstance _ | KDashboardInstanceIndex => "metrics"
  | KRealtimePresence a c _ | KRealtimePresenceIndex a c => "presence:" ++ a ++ ":" ++ c
  | KRealtimeHistory a c => "history:" ++ a ++ ":" ++ c
  | KRealtimeMessageActions a c m => "actions:" ++ a ++ ":" ++ c ++ ":" ++ m
  end.
Definition rest_of (x : key) : string :=
  match x with
  | KAdminSession _ => "admin"
  | KRateLimit _ d w => "rate:" ++ d ++ ":" ++ w
  | KConnectionOwner _ => "owner"
  | KInstanceMember i => "member:" ++ i
  | KInstanceIndex => "live"
  | KDashboardBucket m => "dashboard:" ++ decimal m
  | KDashboardInstance i => "instance:" ++ i
  | KDashboardInstanceIndex => "instances"
  | KRealtimeConnection _ c => "realtime:connection:" ++ c
  | KRealtimeConnectionIndex _ => "realtime:connections"
  | KRealtimePresence _ _ n => "member:" ++ n
  | KRealtimePresenceIndex _ _ => "members"
  | KRealtimeHistory _ _ => "messages"
  | KRealtimeMessageActions _ _ _ => "state"
  end.
Definition no_brace (s : string) : bool := forallb (fun c => negb (bool_decide (c = "{"%char)) && negb (bool_decide (c = "}"%char))) (bytes s).
Lemma no_brace_app a b : no_brace (a ++ b) = no_brace a && no_brace b.
Proof. unfold no_brace. by rewrite bytes_app, forallb_app. Qed.
Lemma no_brace_elem s : no_brace s = true <-> ("{"%char ∉ bytes s) /\ ("}"%char ∉ bytes s).
Proof.
  unfold no_brace. rewrite forallb_forall. split.
  - intros H. split; intros Hin%list_elem_of_In%H; by vm_compute in Hin.
  - intros [H1 H2] c Hin%list_elem_of_In. apply andb_true_iff; split; apply negb_true_iff, bool_decide_eq_false; by intros ->.
Qed.
Lemma key_text_form k x s :
  key_text k x = Some s ->
  s = (Prefix k ++ ":{" ++ tag_of x ++ "}:" ++ rest_of x)%string /\ valid k = true /\ no_brace (tag_of x) = true.
Proof.
  intros Hs. destruct x; cbn in Hs;
    unfold AdminSession, RateLimit, ConnectionOwner, InstanceMember, InstanceIndex, DashboardBucket, DashboardInstance,
      DashboardInstanceIndex, RealtimeConnection, RealtimeConnectionIndex, RealtimePresence, RealtimePresenceIndex,
      RealtimeHistory, RealtimeMessageActions, keyed_text in Hs;
    (destruct (valid k); [|discriminate Hs]); cbn [andb] in Hs;
    repeat match type of Hs with context [validKeyPart ?p] =>
      let H := fresh in destruct (validKeyPart p) eqn:H; [apply part_no_brace, no_brace_elem in H|discriminate Hs] end;
    repeat match type of Hs with context [0 <? ?m] => destruct (0 <? m); [|discriminate Hs] end;
    injection Hs as <-; (split; [done|]); (split; [done|]);
    cbn [tag_of]; rewrite ?no_brace_app; by repeat match goal with H : no_brace _ = true |- _ => rewrite H; clear H end.
Qed.

Lemma key_parts_inj k x y s :
  key_text k x = Some s -> key_text k y = Some s -> tag_of x = tag_of y /\ rest_of x = rest_of y.
Proof.
  intros Hxs Hys. destruct (key_text_form _ _ _ Hxs) as (-> & _ & Bx%no_brace_elem).
  destruct (key_text_form _ _ _ Hys) as (He & _ & By%no_brace_elem).
  apply string_app_inj in He. cbn in He. injection He as He. by apply sep_inj in He as [Htag [= Hrest]]; [|tauto|tauto].
Qed.
(** Two different keys never have the same text, so that no record can overwrite
    another one or be taken for it. *)
Theorem keys_distinct k x y s :
  plain_key x = true -> plain_key y = true -> key_text k x = Some s -> key_text k y = Some s -> x = y.
Proof.
  intros Hx Hy Hxs Hys. destruct (key_parts_inj _ _ _ _ Hxs Hys) as [Htag Hrest].
  clear Hxs Hys. destruct x, y; cbn [tag_of rest_of plain_key] in Htag, Hrest, Hx, Hy;
    try discriminate Htag; try discriminate Hrest; rewrite ?andb_true_iff in *; destruct_and?;
    repeat match goal with H : plain _ = true |- _ => apply plain_no_colon in H end;
    repeat match goal with H : ?a +:+ _ = ?a +:+ _ |- _ => apply string_app_inj in H; cbn in H end; subst; try done.
  - apply sep_inj_last in Hrest as [-> ->]; done.
  - apply (inj pretty) in Hrest as ->. done.
  - apply sep_inj in Htag as [-> ->]; done.
  - apply sep_inj in Htag as [-> ->]; done.
  - apply sep_inj in Htag as [-> ->]; done.
  - apply sep_inj in Htag as [-> Htag]; [|done..]. apply sep_inj_last in Htag as [-> ->]; done.
Qed.

Lemma upto_sep c a b : c ∉ a -> upto c (a ++ c :: b)%list = Some (a, b).
Proof.
  induction a as [|x a IH]; cbn; intros Hc; [by rewrite decide_True|].
  rewrite decide_False by set_solver. by rewrite IH by set_solver.
Qed.
Lemma prefix_no_brace k : valid k = true -> "{"%char ∉ bytes (Prefix k).
Proof.
  unfold valid, keyPrefixPattern, match_class. destruct (bytes (Prefix k)) as [|c l]; [done|]. rewrite !andb_true_iff.
  intros [[[Hc Hl] _] _] [<- |Hin]%elem_of_cons; [done|]. rewrite forallb_forall in Hl.
  by apply list_elem_of_In, Hl in Hin.
Qed.
Lemma hash_tag_key k x s : key_text k x = Some s -> hash_tag s = tag_of x.
Proof.
  intros Hs. destruct (key_text_form _ _ _ Hs) as (-> & Hk & [_ Hb]%no_brace_elem). unfold hash_tag.
  rewrite !bytes_app. pose proof (prefix_no_brace k Hk).
  replace (bytes (Prefix k) ++ bytes ":{" ++ bytes (tag_of x) ++ bytes "}:" ++ bytes (rest_of x))%list
    with ((bytes (Prefix k) ++ [":"%char]) ++ "{"%char :: (bytes (tag_of x) ++ "}"%char :: ":"%char :: bytes (rest_of x)))%list
    by by rewrite <- app_assoc.
  rewrite upto_sep by set_solver.
  rewrite upto_sep by done. destruct (bytes (tag_of x)) as [|c l] eqn:Ht; [by destruct x|].
  by rewrite <- Ht, of_bytes_bytes.
Qed.
(** The keys that a script or a transaction touches are in one slot of a cluster. *)
Theorem scripts_one_slot k x s s' : Some s ∈ script_keys k x -> Some s' ∈ script_keys k x -> hash_tag s = hash_tag s'.
Proof.
  assert (forall s, Some s ∈ script_keys k x -> hash_tag s = tag_of x) as H; [|intros H1 H2; by rewrite (H s), (H s')].
  clear. intros s Hs. assert (exists y, key_text k y = Some s /\ tag_of y = tag_of x) as (y & Hy & <-);
    [|by eapply hash_tag_key].
  destruct x; cbn in Hs; set_unfold in Hs; destruct_or?; try done.
  all: first [by eexists (KAdminSession _)|by eexists (KRateLimit _ _ _)|by eexists (KConnectionOwner _)
    |by eexists (KInstanceMember _)|by exists KInstanceIndex|by eexists (KDashboardBucket _)|by eexists (KDashboardInstance _)
    |by exists KDashboardInstanceIndex|by eexists (KRealtimeConnection _ _)|by eexists (KRealtimeConnectionIndex _)
    |by eexists (KRealtimePresence _ _ _)|by eexists (KRealtimePresenceIndex _ _)|by eexists (KRealtimeHistory _ _)
    |by eexists (KRealtimeMessageActions _ _ _)].
Qed.

Definition demo_keys : Keyspace := mkKeyspace "rh".
Lemma keys_distinct_witness :
  KRealtimeHistory "app_1" "room:1" = KRealtimeHistory "app_1" "room:1"
  /\ key_text demo_keys (KRealtimeHistory "app_1" "room:1") = Some "rh:{history:app_1:room:1}:messages".
Proof.
  split; [|vm_compute; reflexivity].
  apply (keys_distinct demo_keys (KRealtimeHistory "app_1" "room:1") (KRealtimeHistory "app_1" "room:1") "rh:{history:app_1:room:1}:messages");
    vm_compute; reflexivity.
Defined.
Lemma scripts_one_slot_witness :
  hash_tag "rh:{presence:app_1:room}:member:c" = hash_tag "rh:{presence:app_1:room}:members".
Proof.
  apply (scripts_one_slot demo_keys (KRealtimePresence "app_1" "room" "c")); vm_compute; [left|right; left].
Defined.
