(* ===== verification/RedisServer.v ===== *)
(** * What the package [redisstate] uses of Redis

    Keys with values of four types and times of expiry, and the commands of the scripts
    as functions on the database. The clock of the server, in microseconds, is an
    argument [now] of each; expiries are in milliseconds. A script runs without others
    in between. A command on a key of another type fails, and with it the script; keys
    of different kinds differ ([keys_distinct]), and what a script had changed before
    such a failure is not kept in the model. Where a script can fail after it has
    written for another reason, its result has what it had written until then
    ([call_script]).

    A string that holds a JSON object is kept as the fields of the object: both
    [encoding/json] and the [cjson] library of the server write every field once, and
    the order that [cjson.encode] leaves open is never looked at. A text that is no
    object is kept as it is. *)

From Stdlib Require Import Ascii String.
From S2P Require Import Prelude GoLib Json JsonEncode Crypto Domain AuthClaims.

Module Redis.

Inductive field := FString (s : string) | FNumber (z : Z) | FBool (b : bool) | FStrings (l : list string).
#[export] Instance field_eq_dec : EqDecision field.
Proof. solve_decision. Defined.
Inductive payload := PObject (fields : gmap string field) | PText (s : string).
Inductive value :=
| VString (p : payload)
| VHash (fields : gmap string string)
| VZSet (scores : gmap string Z)
| VStream (top : Z * Z) (entries : list (Z * Z * string)).
Record entry := mkEntry { en_value : value; en_expires : option Z }.
Abbreviation RedisDB := (gmap string entry).
Abbreviation M_redis := (M RedisDB).

Definition ms (now : Z) : Z := now `div` 1000.
Definition alive (now : Z) (e : entry) : bool :=
  match en_expires e with Some t => ms now <=? t | None => true end.
Definition peek (now : Z) (key : string) (db : RedisDB) : option entry :=
  match db !! key with Some e => if alive now e then Some e else None | None => None end.

(** A call of a script or a command: any failure is [ErrUnavailable], or the error of
    the context where the code asks for it. *)
Definition call {A} (cancelled : bool) (f : RedisDB -> res (A * RedisDB)) : M_redis A :=
  on_error (exec (fun _ => f)) (fun _ => fail (if cancelled then ContextError else RedisUnavailable)).
(** A script that may fail halfway: there is no rollback, what it has written stays. *)
Definition call_script {A} (cancelled : bool) (f : RedisDB -> res A * RedisDB) : M_redis A :=
  r ← call cancelled (fun db => Ok (f db));
  match r with
  | Ok a => mret a
  | Err _ => fail (if cancelled then ContextError else RedisUnavailable)
  end.
(** [_ = client.Del(...).Err()] *)
Definition ignore {A} (m : M_redis A) : M_redis unit := fun w => (Ok tt, (m w).2).

(** ** Strings *)

Definition GET (now : Z) (key : string) (db : RedisDB) : res (option payload) :=
  match peek now key db with
  | None => Ok None
  | Some (mkEntry (VString p) _) => Ok (Some p)
  | Some _ => Err DriverError
  end.
Definition EXISTS (now : Z) (key : string) (db : RedisDB) : bool := bool_decide (is_Some (peek now key db)).
Definition SET_PX (now : Z) (key : string) (p : payload) (ttl : Z) (db : RedisDB) : res RedisDB :=
  if ttl <=? 0 then Err DriverError else Ok (<[key := mkEntry (VString p) (Some (ms now + ttl))]> db).
Definition DEL (key : string) (db : RedisDB) : RedisDB := delete key db.
Definition PEXPIRE (now : Z) (key : string) (ttl : Z) (db : RedisDB) : RedisDB :=
  match peek now key db with
  | Some e => if ttl <=? 0 then delete key db else <[key := mkEntry (en_value e) (Some (ms now + ttl))]> db
  | None => db
  end.
(** The milliseconds go-redis sends for a duration. *)
Definition px (ttl : Z) : Z := Z.max 1 (ttl `quot` Millisecond).

(** ** Sorted sets *)

Definition zset (now : Z) (key : string) (db : RedisDB) : res (gmap string Z * option Z) :=
  match peek now key db with
  | None => Ok (∅, None)
  | Some (mkEntry (VZSet s) t) => Ok (s, t)
  | Some _ => Err DriverError
  end.
(** A set without members is no key. *)
Definition put_zset (key : string) (scores : gmap string Z) (expires : option Z) (db : RedisDB) : RedisDB :=
  if decide (scores = ∅) then delete key db else <[key := mkEntry (VZSet scores) expires]> db.
Definition on_zset {A} (now : Z) (key : string) (f : gmap string Z -> A * gmap string Z) (db : RedisDB) : res (A * RedisDB) :=
  match zset now key db with
  | Ok (s, t) => let '(a, s') := f s in Ok (a, put_zset key s' t db)
  | Err e => Err e
  end.
Definition ZADD (score : Z) (member : string) (s : gmap string Z) : gmap string Z := <[member := score]> s.
Definition ZREM (member : string) (s : gmap string Z) : gmap string Z := delete member s.
(** [ZREMRANGEBYSCORE key -inf max] *)
Definition ZREMRANGEBYSCORE (max : Z) (s : gmap string Z) : gmap string Z := filter (fun ms => max < ms.2) s.
(** Members by score and then by name. *)
Definition z_le (a b : string * Z) : Prop := a.2 < b.2 \/ a.2 = b.2 /\ String.le a.1 b.1.
#[export] Instance z_le_dec a b : Decision (z_le a b).
Proof. unfold z_le. apply _. Defined.
Definition z_sorted (s : gmap string Z) : list (string * Z) := merge_sort z_le (map_to_list s).
Definition ZRANGE (count : Z) (s : gmap string Z) : list string := take (Z.to_nat count) (z_sorted s).*1.
(** [ZRANGEBYSCORE key -inf max LIMIT 0 count] *)
Definition ZRANGEBYSCORE (max count : Z) (s : gmap string Z) : list string :=
  take (Z.to_nat count) (List.filter (fun ms => ms.2 <=? max) (z_sorted s)).*1.
Definition ZCARD (s : gmap string Z) : Z := Z.of_nat (size s).

(** ** Hashes *)

Definition hash (now : Z) (key : string) (db : RedisDB) : res (gmap string string * option Z) :=
  match peek now key db with
  | None => Ok (∅, None)
  | Some (mkEntry (VHash h) t) => Ok (h, t)
  | Some _ => Err DriverError
  end.
Definition put_hash (key : string) (h : gmap string string) (expires : option Z) (db : RedisDB) : RedisDB :=
  <[key := mkEntry (VHash h) expires]> db.

(** ** Reading records *)

(** A field of a JSON object that Go decodes into a string: a missing one is empty. *)
Definition go_string (fs : gmap string field) (name : string) : option string :=
  match fs !! name with None => Some "" | Some (FString s) => Some s | _ => None end.
Definition go_number (fs : gmap string field) (name : string) : option Z :=
  match fs !! name with None => Some 0 | Some (FNumber z) => Some z | _ => None end.
Definition go_strings (fs : gmap string field) (name : string) : option (list string) :=
  match fs !! name with None => Some [] | Some (FStrings l) => Some l | _ => None end.
(** A field that a script compares with a string. *)
Definition is_field (fs : gmap string field) (name s : string) : bool := bool_decide (fs !! name = Some (FString s)).
(** [json.Marshal] of a string, as it is read back. *)
Definition marshal (s : string) : field := FString (coerce s).
(** [strconv.ParseUint(s, 10, 64)] *)
Definition ParseUint (s : string) : option Z :=
  match bytes s with
  | [] => None
  | l => if forallb is_digit l && (digits_value 0 l <? 2 ^ 64) then Some (digits_value 0 l) else None
  end.
(** [tonumber] of a text of digits, which is what the records hold. *)
Definition tonumber (s : string) : option Z :=
  match bytes s with [] => None | l => if forallb is_digit l then Some (digits_value 0 l) else None end.
(** [generationString], and [fixedWidthUnixMicro]: twenty digits. *)
Definition generationString (generation : Z) : string := decimal generation.
Definition UnixMicro (t : Z) : Z := t `div` 1000.
Definition fixedWidthUnixMicro (t : Z) : string :=
  let raw := decimal (UnixMicro t) in
  if 20 <=? len raw then raw else zeros (Z.to_nat (20 - len raw)) ++ raw.

End Redis.
Import Redis.

(** * Times as texts of digits

    [fixedWidthUnixMicro] is read back by [strconv.ParseInt] and by Lua's [tonumber],
    and its order as a text, by which the scripts compare, is the order in time. *)

Lemma digit_code c : is_digit c = true -> 48 <= code c <= 57.
Proof. unfold is_digit, in_range. change (code "0") with 48. change (code "9") with 57. lia. Qed.
Lemma digits_value_cons acc c l : digits_value acc (c :: l) = digits_value (10 * acc + (code c - 48)) l.
Proof. done. Qed.
Lemma digits_value_acc l : forall acc,
  forallb is_digit l = true ->
  acc * 10 ^ Z.of_nat (length l) <= digits_value acc l < (acc + 1) * 10 ^ Z.of_nat (length l).
Proof.
  induction l as [|c l IH]; intros acc Hd; [cbn; lia|]. cbn in Hd. apply andb_prop in Hd as [Hc%digit_code Hd].
  rewrite digits_value_cons. specialize (IH (10 * acc + (code c - 48)) Hd). cbn [length].
  rewrite Nat2Z.inj_succ, Z.pow_succ_r by lia.
  assert (0 < 10 ^ Z.of_nat (length l)) by (apply Z.pow_pos_nonneg; lia). nia.
Qed.
Lemma digits_ascii s : forallb is_digit (bytes s) = true -> marshal s = FString s.
Proof.
  intros Hd. unfold marshal. f_equal. apply Tokens.ascii_coerce. unfold Tokens.ascii_text. eapply Channel.forallb_impl, Hd.
  intros c Hc%digit_code. lia.
Qed.

(** ** Texts *)

Definition digit_text (s : string) (z : Z) : Prop :=
  s <> "" /\ forallb is_digit (bytes s) = true /\ digits_value 0 (bytes s) = z.
Lemma decimal_text z : 0 <= z -> digit_text (decimal z) z.
Proof.
  intros Hz. destruct (decimal_digits z Hz) as (c & ds & Hb & Hd & Hv & _). unfold digit_text. rewrite Hb.
  split; [|done]. by intros Hn; rewrite Hn in Hb.
Qed.
Lemma zeros_text n s z : digit_text s z -> digit_text (zeros n ++ s) z.
Proof. induction n as [|n IH]; [done|]. intros (_ & Hd & Hv)%IH. split; [done|]. exact (conj Hd Hv). Qed.
Lemma fixed_text t : 0 <= t -> digit_text (fixedWidthUnixMicro t) (UnixMicro t).
Proof.
  intros Ht. assert (digit_text (decimal (UnixMicro t)) (UnixMicro t)) as Hd by by apply decimal_text, Z.div_pos.
  unfold fixedWidthUnixMicro. case_match; [done|]. by apply zeros_text.
Qed.
Lemma tonumber_text s z : digit_text s z -> tonumber s = Some z.
Proof. intros (Hn & Hd & Hv). unfold tonumber. destruct s as [|c s]; [done|]. cbn in *. by rewrite Hd, Hv. Qed.
Lemma parse_text s z : digit_text s z -> z < 2 ^ 63 -> parse_int64 s = Some z.
Proof.
  intros (Hn & Hd & Hv) Hz. unfold parse_int64. destruct (bytes s) as [|c l] eqn:Hb; [by destruct s|].
  assert (is_digit c = true) as Hc by (by apply andb_true_iff in Hd as [? _]).
  rewrite !bool_decide_eq_false_2 by (by intros ->). rewrite Hd, Hv. cbn. unfold in_int64.
  assert (0 <= z) by (pose proof (digits_value_acc (c :: l) 0 Hd); lia). assert ((- 2 ^ 63 <=? z) && (z <? 2 ^ 63) = true) as -> by lia.
  done.
Qed.
Lemma parse_uint_text s z : digit_text s z -> z < 2 ^ 64 -> ParseUint s = Some z.
Proof.
  intros (Hn & Hd & Hv) Hz. unfold ParseUint. destruct (bytes s) as [|c l] eqn:Hb; [by destruct s|].
  rewrite Hd, Hv. assert ((z <? 2 ^ 64) = true) as -> by lia. done.
Qed.
Lemma marshal_text s z : digit_text s z -> marshal s = FString s.
Proof. intros (_ & Hd & _). by apply digits_ascii. Qed.

(** ** Order *)

Lemma compare_digits s : forall t acc acc',
  forallb is_digit (bytes s) = true -> forallb is_digit (bytes t) = true -> String.length s = String.length t ->
  acc = acc' -> String.compare s t = (digits_value acc (bytes s) ?= digits_value acc' (bytes t)).
Proof.
  induction s as [|c s IH]; intros [|d t] acc acc' Hs Ht Hl ->; try done; [cbn; by rewrite Z.compare_refl|].
  cbn in Hs, Ht, Hl. apply andb_prop in Hs as [Hc Hs]. apply andb_prop in Ht as [Hd Ht]. injection Hl as Hl.
  change (bytes (String c s)) with (c :: bytes s). change (bytes (String d t)) with (d :: bytes t).
  cbn [String.compare]. rewrite !digits_value_cons. unfold Ascii.compare.
  assert ((N_of_ascii c ?= N_of_ascii d)%N = (code c ?= code d)) as -> by (unfold code; by rewrite N2Z.inj_compare).
  pose proof (digits_value_acc (bytes s) (10 * acc' + (code c - 48)) Hs) as H1.
  pose proof (digits_value_acc (bytes t) (10 * acc' + (code d - 48)) Ht) as H2.
  rewrite !bytes_length in *. rewrite Hl in H1.
  assert (0 < 10 ^ Z.of_nat (String.length t)) by (apply Z.pow_pos_nonneg; lia).
  destruct (code c ?= code d) eqn:E; symmetry.
  - apply Z.compare_eq in E. symmetry. apply IH; try done. lia.
  - change (code c < code d) in E. apply Z.compare_lt_iff. eapply Z.lt_le_trans; [apply H1|]. etransitivity; [|apply H2].
    apply Z.mul_le_mono_nonneg_r; lia.
  - apply Z.gt_lt in E. apply Z.compare_gt_iff. eapply Z.lt_le_trans; [apply H2|]. etransitivity; [|apply H1].
    apply Z.mul_le_mono_nonneg_r; lia.
Qed.
Lemma fixed_length t : 0 <= UnixMicro t < 10 ^ 20 -> String.length (fixedWidthUnixMicro t) = 20%nat.
Proof.
  intros Ht. destruct (decimal_digits (UnixMicro t) ltac:(lia)) as (c & ds & Hb & Hd & Hv & H0).
  assert (Z.of_nat (length ds) < 20) as Hlen.
  { destruct (decide (c = "0"%char)) as [Hc|Hc]; [by rewrite (H0 Hc)|]. cbn in Hd. apply andb_prop in Hd as [Hc' Hd].
    rewrite digits_value_cons in Hv. pose proof (digits_value_acc ds (10 * 0 + (code c - 48)) Hd) as Hge. rewrite Hv in Hge.
    assert (49 <= code c) by (apply digit_code in Hc'; assert (code c <> 48); [|lia]; intros He; apply Hc; by rewrite <- (chr_code c), He).
    destruct (decide (Z.of_nat (length ds) < 20)) as [|Hn]; [done|exfalso].
    assert (10 ^ 20 <= 10 ^ Z.of_nat (length ds)) by (apply Z.pow_le_mono_r; lia). nia. }
  assert (len (decimal (UnixMicro t)) = Z.of_nat (S (length ds))) as Hl by by rewrite len_bytes, Hb.
  unfold fixedWidthUnixMicro. case_match; [unfold len in *; lia|].
  assert (forall n s, String.length (zeros n ++ s) = (n + String.length s)%nat) as -> by (intros n s; induction n as [|n IHn]; [done|exact (f_equal S IHn)]).
  unfold len in *. lia.
Qed.
Lemma fixed_order a b :
  0 <= UnixMicro a < 10 ^ 20 -> 0 <= UnixMicro b < 10 ^ 20 ->
  String.le (fixedWidthUnixMicro a) (fixedWidthUnixMicro b) <-> UnixMicro a <= UnixMicro b.
Proof.
  intros Ha Hb. assert (forall t, 0 <= UnixMicro t -> 0 <= t) as Hpos.
  { intros t Ht. unfold UnixMicro in Ht. pose proof (Z.div_mod t 1000). pose proof (Z.mod_pos_bound t 1000). lia. }
  pose proof (Hpos a ltac:(lia)) as Ha0. pose proof (Hpos b ltac:(lia)) as Hb0.
  destruct (fixed_text a Ha0) as (_ & Da & Va), (fixed_text b Hb0) as (_ & Db & Vb).
  unfold String.le, String.leb. rewrite (compare_digits _ _ 0 0 Da Db) by (done || by rewrite !fixed_length).
  rewrite Va, Vb. unfold Z.le. by destruct (_ ?= _).
Qed.
