(* ===== verification/RedisOwnership.v ===== *)
(** * Owners of connections and instances ([redisstate/ownership.go])

    Which gateway instance serves a connection, and which instances are alive. *)

From Stdlib Require Import Ascii String.
From stdpp Require Import pretty.
From S2P Require Import Prelude GoLib Json JsonEncode QueueSchema RedisKeys RedisServer AuthClaims.
Import Keys Redis.

Module Ownership.

Record ConnectionOwner := mkConnectionOwner { co_InstanceID : string; co_Generation : Z }.
Record Instance := mkInstance {
  in_ID : string;
  in_Role : string;
  in_Generation : Z;
  in_StartedAt : Z;
  in_HeartbeatAt : Z
}.

Definition ownerRecord (appID instanceID : string) (generation : Z) : payload :=
  PObject (<["version" := FNumber 1]> (<["app_id" := marshal appID]> (<["instance_id" := marshal instanceID]>
    {["generation" := marshal (generationString generation)]}))).
Definition instanceRecord (i : Instance) : gmap string field :=
  <["version" := FNumber 1]> (<["id" := marshal (in_ID i)]> (<["role" := marshal (in_Role i)]>
    (<["generation" := marshal (generationString (in_Generation i))]>
    (<["started_at_us" := marshal (fixedWidthUnixMicro (in_StartedAt i))]> {["heartbeat_at_us" := marshal ""]})))).

(** ** The scripts *)

Definition owned_by (fs : gmap string field) (appID instanceID generation : string) : bool :=
  is_field fs "app_id" appID && is_field fs "instance_id" instanceID && is_field fs "generation" generation.
(** The head that [refreshOwnerScript] and [releaseOwnerScript] share. *)
Definition if_owner (now : Z) (key appID instanceID generation : string) (act : RedisDB -> RedisDB) (db : RedisDB)
    : res (Z * RedisDB) :=
  match GET now key db with
  | Err e => Err e
  | Ok None => Ok (0, db)
  | Ok (Some (PText _)) => Err DriverError
  | Ok (Some (PObject fs)) => if owned_by fs appID instanceID generation then Ok (1, act db) else Ok (-1, db)
  end.
Definition refreshOwnerScript (now : Z) (key appID instanceID generation : string) (ttl : Z) : RedisDB -> res (Z * RedisDB) :=
  if_owner now key appID instanceID generation (PEXPIRE now key ttl).
Definition releaseOwnerScript (now : Z) (key appID instanceID generation : string) : RedisDB -> res (Z * RedisDB) :=
  if_owner now key appID instanceID generation (DEL key).

(** Lua compares strings by their bytes, and a missing field fails. *)
Definition lua_ge (a b : option field) : res bool :=
  match a, b with
  | Some (FString x), Some (FString y) => Ok (bool_decide (String.le y x))
  | _, _ => Err DriverError
  end.
Definition superseded (existing incoming : gmap string field) : res bool :=
  if bool_decide (existing !! "generation" = incoming !! "generation") then Ok false
  else lua_ge (existing !! "started_at_us") (incoming !! "started_at_us").
Definition heartbeat_write (now : Z) (memberKey indexKey id : string) (incoming : gmap string field) (ttl : Z) (db : RedisDB)
    : res (Z * RedisDB) :=
  match SET_PX now memberKey (PObject (<["heartbeat_at_us" := FString (decimal now)]> incoming)) ttl db with
  | Err e => Err e
  | Ok db => on_zset now indexKey (fun s => (now, ZADD (ms now + ttl) id s)) db
  end.
(** [id] is the field [id] of the record. *)
Definition heartbeatScript (now : Z) (memberKey indexKey id : string) (incoming : gmap string field) (ttl : Z) (db : RedisDB)
    : res (Z * RedisDB) :=
  match GET now memberKey db with
  | Err e => Err e
  | Ok None => heartbeat_write now memberKey indexKey id incoming ttl db
  | Ok (Some (PText _)) => Err DriverError
  | Ok (Some (PObject existing)) =>
      match superseded existing incoming with
      | Err e => Err e
      | Ok true => Ok (-1, db)
      | Ok false => heartbeat_write now memberKey indexKey id incoming ttl db
      end
  end.
Definition liveInstancesScript (now : Z) (indexKey : string) (max limit : Z) : RedisDB -> res (list string * RedisDB) :=
  on_zset now indexKey (fun s => let s := ZREMRANGEBYSCORE max s in (ZRANGE limit s, s)).
Definition releaseInstanceScript (now : Z) (memberKey indexKey id generation startedAt : string) (db : RedisDB)
    : res (Z * RedisDB) :=
  match GET now memberKey db with
  | Err e => Err e
  | Ok None => on_zset now indexKey (fun s => (0, ZREM id s)) db
  | Ok (Some (PText _)) => Err DriverError
  | Ok (Some (PObject fs)) =>
      if is_field fs "id" id && is_field fs "generation" generation && is_field fs "started_at_us" startedAt
      then on_zset now indexKey (fun s => (1, ZREM id s)) (DEL memberKey db)
      else Ok (-1, db)
  end.

(** ** The store *)

Section store.
Context (keys : Keyspace).

Definition ownershipResult (r : Z) : M_redis unit :=
  if r =? 1 then mret tt else if r =? 0 then fail RedisNotFound else fail OwnershipLost.
Definition key_or {A} (k : option string) (f : string -> M_redis A) : M_redis A :=
  match k with Some key => f key | None => fail InvalidKeyPart end.
Definition ownerInput (appID connectionID instanceID : string) (generation ttl : Z) : M_redis string :=
  if negb (validKeyPart appID) || negb (validKeyPart instanceID) || (generation =? 0) || (ttl <=? 0) then fail InvalidRecord
  else key_or (Keys.ConnectionOwner keys connectionID) mret.

Definition Claim (now : Z) (appID connectionID instanceID : string) (generation ttl : Z) : M_redis unit :=
  key ← ownerInput appID connectionID instanceID generation ttl;
  call false (fun db => match SET_PX now key (ownerRecord appID instanceID generation) (px ttl) db with
                        | Ok db => Ok (tt, db) | Err e => Err e end).
Definition Refresh (now : Z) (appID connectionID instanceID : string) (generation ttl : Z) : M_redis unit :=
  key ← ownerInput appID connectionID instanceID generation ttl;
  r ← call false (refreshOwnerScript now key appID instanceID (generationString generation) (ttl `quot` Millisecond));
  ownershipResult r.
Definition Release (now : Z) (appID connectionID instanceID : string) (generation : Z) : M_redis unit :=
  key ← ownerInput appID connectionID instanceID generation Millisecond;
  r ← call false (releaseOwnerScript now key appID instanceID (generationString generation));
  ownershipResult r.

(** The fields of an [ownerRecord], if it can be decoded. *)
Definition decode_owner (fs : gmap string field) : option (string * ConnectionOwner) :=
  version ← go_number fs "version"; app ← go_string fs "app_id"; inst ← go_string fs "instance_id";
  gen ← go_string fs "generation"; generation ← ParseUint gen;
  if negb (version =? 1) || negb (validKeyPart app) || negb (validKeyPart inst) || (generation =? 0) then None
  else Some (app, mkConnectionOwner inst generation).
(** Whether the record can be unmarshalled at all: if not, an error of the deletion is
    ignored. *)
Definition owner_unmarshals (fs : gmap string field) : bool :=
  isSome (go_number fs "version") && isSome (go_string fs "app_id") && isSome (go_string fs "instance_id")
  && isSome (go_string fs "generation").
Definition GETs (now : Z) (key : string) : M_redis (option payload) :=
  call false (fun db => match GET now key db with Ok p => Ok (p, db) | Err e => Err e end).
Definition DELs (key : string) : M_redis unit := call false (fun db => Ok (tt, DEL key db)).
(** What [Owner] makes of the value it read. *)
Definition owner_of (appID key : string) (payload : option payload) : M_redis ConnectionOwner :=
  match payload with
  | None => fail RedisNotFound
  | Some (PText _) => _ ← ignore (DELs key); fail CorruptRecord
  | Some (PObject fs) =>
      match decode_owner fs with
      | Some (app, owner) => if negb (bool_decide (app = appID)) then fail RedisNotFound else mret owner
      | None => _ ← (if owner_unmarshals fs then DELs key else ignore (DELs key)); fail CorruptRecord
      end
  end.
Definition Owner (now : Z) (appID connectionID : string) : M_redis ConnectionOwner :=
  if negb (validKeyPart appID) then fail InvalidRecord else
  key_or (Keys.ConnectionOwner keys connectionID) (fun key => payload ← GETs now key; owner_of appID key payload).

Definition Heartbeat (now : Z) (i : Instance) (ttl : Z) : M_redis unit :=
  if negb (validKeyPart (in_ID i)) || negb (validKeyPart (in_Role i)) || (in_Generation i =? 0) || IsZero (in_StartedAt i)
     || (ttl <=? 0) then fail InvalidRecord else
  key_or (InstanceMember keys (in_ID i)) (fun memberKey => key_or (InstanceIndex keys) (fun indexKey =>
    r ← call false (heartbeatScript now memberKey indexKey (coerce (in_ID i)) (instanceRecord i) (ttl `quot` Millisecond));
    if r <? 0 then fail OwnershipLost else mret tt)).
Definition ReleaseInstance (now : Z) (i : Instance) : M_redis unit :=
  if negb (validKeyPart (in_ID i)) || (in_Generation i =? 0) || IsZero (in_StartedAt i) then fail InvalidRecord else
  key_or (InstanceMember keys (in_ID i)) (fun memberKey => key_or (InstanceIndex keys) (fun indexKey =>
    r ← call false (releaseInstanceScript now memberKey indexKey (in_ID i) (generationString (in_Generation i))
                      (fixedWidthUnixMicro (in_StartedAt i)));
    ownershipResult r)).

Definition decode_instance (id : string) (p : payload) : option Instance :=
  match p with
  | PText _ => None
  | PObject fs =>
      version ← go_number fs "version"; id' ← go_string fs "id"; role ← go_string fs "role"; gen ← go_string fs "generation";
      started ← go_string fs "started_at_us"; beat ← go_string fs "heartbeat_at_us";
      generation ← ParseUint gen; startedAt ← parse_int64 started; heartbeatAt ← parse_int64 beat;
      if negb (version =? 1) || negb (bool_decide (id' = id)) || negb (validKeyPart role) || (generation =? 0)
         || (startedAt <=? 0) || (heartbeatAt <=? 0) then None
      else Some (mkInstance id' role generation (startedAt * Microsecond) (heartbeatAt * Microsecond))
  end.
(** The rest of [LiveInstances] for the members found; [MGET] gives nil for a value of
    another type. *)
Fixpoint live_instances (now : Z) (indexKey : string) (found : list (string * option payload)) : M_redis (list Instance) :=
  match found with
  | [] => mret []
  | (id, None) :: rest =>
      _ ← ignore (call false (on_zset now indexKey (fun s => (tt, ZREM id s))));
      live_instances now indexKey rest
  | (id, Some p) :: rest =>
      match decode_instance id p with
      | Some i => others ← live_instances now indexKey rest; mret (i :: others)
      | None => fail CorruptRecord
      end
  end.
Definition MGET (now : Z) (ks : list string) (db : RedisDB) : list (option payload) :=
  (fun key => match GET now key db with Ok p => p | Err _ => None end) <$> ks.
(** [now] is the clock of the caller, [times] the clocks of the server at the three calls. *)
Definition LiveInstances (times : Z * Z * Z) (now limit : Z) : M_redis (list Instance) :=
  let '(t1, t2, t3) := times in
  if IsZero now || (limit <? 1) || (1000 <? limit) then fail InvalidRecord else
  key_or (InstanceIndex keys) (fun indexKey =>
    ids ← call false (liveInstancesScript t1 indexKey (now `div` Millisecond) limit);
    match ids with
    | [] => mret []
    | _ =>
        match mapM (InstanceMember keys) ids with
        | None => fail CorruptRecord
        | Some memberKeys =>
            values ← call false (fun db => Ok (MGET t2 memberKeys db, db));
            live_instances t3 indexKey (zip ids values)
        end
    end).
End store.

End Ownership.
Import Ownership.

(** * What owning a connection or an instance means *)

(** ** Running the commands *)

Lemma call_run {A} c (f : RedisDB -> res (A * RedisDB)) w :
  w_faults w = [] ->
  call c f w = match f (w_db w) with
               | Ok (a, db) => (Ok a, mkWorld db [] (w_locked w))
               | Err _ => (Err (if c then ContextError else RedisUnavailable), w)
               end.
Proof.
  destruct w as [db fs lk]. cbn. intros ->. unfold call, on_error, exec, fail. cbn. by destruct (f db) as [[]|].
Qed.
(** Whatever fails, the database is what the command left or as it was. *)
Lemma call_db {A} c (f : RedisDB -> res (A * RedisDB)) w :
  w_db (call c f w).2 = w_db w \/ exists a, f (w_db w) = Ok (a, w_db (call c f w).2).
Proof.
  unfold call, on_error, exec, fail. destruct (w_faults w) as [|[] fs]; cbn; try (by left);
    destruct (f (w_db w)) as [[a db]|] eqn:E; cbn; eauto.
Qed.
Lemma call_ok {A} c (f : RedisDB -> res (A * RedisDB)) w a w' :
  call c f w = (Ok a, w') -> f (w_db w) = Ok (a, w_db w').
Proof.
  unfold call, on_error, exec, fail. destruct (w_faults w) as [|[] fs]; cbn; [|done|];
    destruct (f (w_db w)) as [[b db]|] eqn:E; cbn; intros [= <- <-]; done.
Qed.
(** A property of the database that a command keeps, a computation keeps. *)
Definition keeps {A} (P : RedisDB -> Prop) (m : M_redis A) : Prop := forall w, P (w_db w) -> P (w_db (m w).2).
Lemma keep_bind {A B} P (m : M_redis A) (k : A -> M_redis B) : keeps P m -> (forall a, keeps P (k a)) -> keeps P (m ≫= k).
Proof.
  intros Hm Hk w Hw. specialize (Hm w Hw). unfold mbind, M_bind. destruct (m w) as [[a|e] w1]; [by apply Hk|done].
Qed.
Lemma keep_ret {A} P (a : A) : keeps P (mret a : M_redis A).
Proof. by intros w. Qed.
Lemma keep_fail {A} P e : keeps P (fail e : M_redis A).
Proof. by intros w. Qed.
Lemma keeps_call {A} P c (f : RedisDB -> res (A * RedisDB)) :
  (forall db a db', P db -> f db = Ok (a, db') -> P db') -> keeps P (call c f).
Proof. intros Hf w Hw. destruct (call_db c f w) as [->|[a E]]; eauto. Qed.
Lemma keeps_ignore {A} P (m : M_redis A) : keeps P m -> keeps P (ignore m).
Proof. done. Qed.
Lemma keeps_key {A} P k (f : string -> M_redis A) : (forall key, k = Some key -> keeps P (f key)) -> keeps P (key_or k f).
Proof. intros Hf. destruct k; [by apply Hf|apply keep_fail]. Qed.
Ltac keeps :=
  repeat first [apply keep_ret|apply keep_fail|apply keeps_ignore|apply keep_bind; [|intros ?]
               |apply keeps_key; intros ? ?|apply keeps_call; intros ? ? ? ? ?|case_match].

Lemma peek_alive now key db v t : db !! key = Some (mkEntry v (Some t)) -> ms now <= t -> peek now key db = Some (mkEntry v (Some t)).
Proof. intros Hk Ht. unfold peek, alive. rewrite Hk. cbn. by assert ((ms now <=? t) = true) as -> by lia. Qed.
Lemma get_alive now key db p t : db !! key = Some (mkEntry (VString p) (Some t)) -> ms now <= t -> GET now key db = Ok (Some p).
Proof. intros Hk Ht. unfold GET. by rewrite (peek_alive _ _ _ _ _ Hk Ht). Qed.
(** A string that is there, or nothing when it has expired. *)
Lemma get_string now key db p t :
  db !! key = Some (mkEntry (VString p) t) -> GET now key db = Ok (Some p) \/ GET now key db = Ok None.
Proof. intros Hk. unfold GET, peek. rewrite Hk. destruct (alive _ _); auto. Qed.

(** ** The owner of a connection *)

Section owner.
Context (keys : Keyspace).

Definition actor_differs (a i : string) (g : Z) (a' i' : string) (g' : Z) : Prop := (a, i, g) <> (a', i', g').

(** What everyone else may do: refresh and release under other names, look, claim other
    connections, and change other keys. *)
Inductive owner_step (app conn inst : string) (gen : Z) : RedisDB -> RedisDB -> Prop :=
| os_claim now a c i g ttl w : c <> conn -> owner_step app conn inst gen (w_db w) (w_db (Claim keys now a c i g ttl w).2)
| os_refresh now a c i g ttl w : c <> conn \/ actor_differs app inst gen a i g ->
    owner_step app conn inst gen (w_db w) (w_db (Refresh keys now a c i g ttl w).2)
| os_release now a c i g w : c <> conn \/ actor_differs app inst gen a i g ->
    owner_step app conn inst gen (w_db w) (w_db (Release keys now a c i g w).2)
| os_owner now a c w : owner_step app conn inst gen (w_db w) (w_db (Owner keys now a c w).2)
| os_foreign key db db' : Keys.ConnectionOwner keys conn = Some key -> db' !! key = db !! key -> owner_step app conn inst gen db db'.

Lemma owner_key_inj c c' key : Keys.ConnectionOwner keys c = Some key -> Keys.ConnectionOwner keys c' = Some key -> c = c'.
Proof.
  intros H H'. destruct (key_parts_inj keys (KConnectionOwner c) (KConnectionOwner c') key H H') as [He _]. by apply string_app_inj in He.
Qed.
Lemma generation_text g : 0 < g < 2 ^ 64 -> ParseUint (generationString g) = Some g /\ marshal (generationString g) = FString (generationString g).
Proof.
  intros Hg. pose proof (decimal_text g ltac:(lia)) as Ht. split; [apply parse_uint_text; [done|lia]|by eapply marshal_text].
Qed.
Lemma generation_inj g g' : generationString g = generationString g' -> g = g'.
Proof. apply (inj pretty). Qed.

Section held.
Context (app conn inst : string) (gen T : Z) (key : string).
Context (Hkey : Keys.ConnectionOwner keys conn = Some key).
Context (Happ : coerce app = app) (Hinst : coerce inst = inst) (Hgen : 0 < gen < 2 ^ 64).
Context (Vapp : validKeyPart app = true) (Vinst : validKeyPart inst = true).

Definition held (db : RedisDB) : Prop := db !! key = Some (mkEntry (VString (ownerRecord app inst gen)) (Some T)).

Lemma record_owned a i g :
  exists fs, ownerRecord app inst gen = PObject fs
    /\ owned_by fs a i (generationString g) = bool_decide (app = a) && bool_decide (inst = i) && bool_decide (gen = g)
    /\ decode_owner fs = Some (app, mkConnectionOwner inst gen).
Proof using Happ Hinst Hgen Vapp Vinst.
  eexists. split; [reflexivity|]. destruct (generation_text gen Hgen) as [Hp Hm]. split.
  - unfold owned_by, is_field. change (?m !! "app_id") with (Some (marshal app)). change (?m !! "instance_id") with (Some (marshal inst)).
    change (?m !! "generation") with (Some (marshal (generationString gen))). rewrite Hm. unfold marshal. rewrite Happ, Hinst.
    repeat f_equal; apply bool_decide_ext; [naive_solver..|]. split; [intros [= He]; by apply generation_inj|by intros ->].
  - unfold decode_owner, go_number, go_string. change (?m !! "version") with (Some (FNumber 1)).
    change (?m !! "app_id") with (Some (marshal app)). change (?m !! "instance_id") with (Some (marshal inst)).
    change (?m !! "generation") with (Some (marshal (generationString gen))). rewrite Hm. unfold marshal. rewrite Happ, Hinst.
    cbn. rewrite Hp. cbn. rewrite Vapp, Vinst. cbn. by assert ((gen =? 0) = false) as -> by lia.
Qed.
Lemma if_owner_held now a i g act db r db' :
  held db -> actor_differs app inst gen a i g -> if_owner now key a i (generationString g) act db = Ok (r, db') -> db' = db.
Proof using Happ Hinst Hgen Vapp Vinst.
  intros Hh Hd. unfold if_owner. destruct (record_owned a i g) as (fs & Hfs & Ho & _).
  destruct (get_string now key db _ _ Hh) as [-> | ->]; [|by intros [= _ <-]]. rewrite Hfs, Ho.
  assert (bool_decide (app = a) && bool_decide (inst = i) && bool_decide (gen = g) = false) as ->; [|by intros [= _ <-]].
  apply not_true_iff_false. rewrite !andb_true_iff, !bool_decide_eq_true. intros [[-> ->] ->]. by apply Hd.
Qed.
Lemma pexpire_other now k ttl db : k <> key -> PEXPIRE now k ttl db !! key = db !! key.
Proof. intros Hk. unfold PEXPIRE. repeat case_match; by rewrite ?lookup_delete_ne, ?lookup_insert_ne by done. Qed.
Lemma if_owner_other now k a i g act db r db' :
  k <> key -> act db !! key = db !! key -> if_owner now k a i g act db = Ok (r, db') -> db' !! key = db !! key.
Proof. intros Hk Ha. unfold if_owner. repeat case_match; intros [= _ <-]; done. Qed.
Lemma keeps_input {A} c a i g ttl (f : string -> M_redis A) :
  (forall k, Keys.ConnectionOwner keys c = Some k -> keeps held (f k)) -> keeps held (ownerInput keys a c i g ttl ≫= f).
Proof.
  intros Hf. unfold ownerInput. destruct (_ || _ || _ || _); [intros w; done|].
  destruct (Keys.ConnectionOwner keys c) as [k|]; [|by intros w]. intros w Hw. by apply Hf.
Qed.
Lemma other_key c k : Keys.ConnectionOwner keys c = Some k -> c <> conn -> k <> key.
Proof using Hkey. intros Hc Hne ->. apply Hne. by eapply owner_key_inj. Qed.
Lemma keeps_result r : keeps held (ownershipResult r).
Proof. intros w Hw. unfold ownershipResult. by repeat case_match. Qed.

Lemma keeps_gets P now k : keeps P (GETs now k).
Proof. apply keeps_call. intros db a db' HP. destruct (GET now k db); [|done]. by intros [= _ <-]. Qed.
Lemma gets_ok now k w p w1 : GETs now k w = (Ok p, w1) -> GET now k (w_db w) = Ok p /\ w_db w1 = w_db w.
Proof. intros Hg%call_ok. destruct (GET now k (w_db w)); [|done]. by injection Hg as -> ->. Qed.
Lemma keeps_dels k : k <> key -> keeps held (DELs k).
Proof. intros Hne. apply keeps_call. intros db u db' Hh' [= _ <-]. unfold held, DEL. by rewrite lookup_delete_ne. Qed.
Lemma keeps_owner_of a k p : k <> key -> keeps held (owner_of a k p).
Proof.
  intros Hk. pose proof (keeps_dels k Hk). unfold owner_of. destruct p as [[fs|t]|]; [|apply keep_bind; [done|by intros ? w]|by intros w].
  destruct (decode_owner fs) as [[]|]; [by destruct (negb _); intros w|]. apply keep_bind; [by destruct (owner_unmarshals fs)|by intros ? w].
Qed.
Lemma owner_of_held now a w p w1 :
  held (w_db w) -> GETs now key w = (Ok p, w1) -> w_db (owner_of a key p w1).2 = w_db w.
Proof using Happ Hinst Hgen Vapp Vinst.
  intros Hh [Hg <-]%gets_ok. destruct (record_owned a "" 0) as (fs & Hfs & _ & Hdec).
  destruct (get_string now key _ _ _ Hh) as [E|E]; rewrite E in Hg; injection Hg as <-; [|done].
  rewrite Hfs. unfold owner_of. rewrite Hdec. by destruct (negb _).
Qed.

Lemma owner_step_held db db' : owner_step app conn inst gen db db' -> held db -> held db'.
Proof using Happ Hinst Hgen Hkey Vapp Vinst.
  intros Hs. destruct Hs as [now a c i g ttl w Hc|now a c i g ttl w Hc|now a c i g w Hc|now a c w|key' db db' Hk He].
  - revert w. apply keeps_input. intros k Hk. apply keeps_call. intros db u db' Hh. unfold SET_PX.
    destruct (_ <=? _); [done|]. intros [= _ <-]. unfold held. by rewrite lookup_insert_ne by by eapply other_key.
  - revert w. apply keeps_input. intros k Hk. apply keep_bind; [|apply keeps_result]. apply keeps_call. intros db r db' Hh Hr.
    destruct (decide (c = conn)) as [->|Hne].
    + rewrite Hkey in Hk. injection Hk as <-. destruct Hc as [Hc|Hc]; [done|]. by rewrite (if_owner_held _ _ _ _ _ _ _ _ Hh Hc Hr).
    + unfold held. rewrite (if_owner_other _ _ _ _ _ _ _ _ _ (other_key _ _ Hk Hne) (pexpire_other _ _ _ _ (other_key _ _ Hk Hne)) Hr). done.
  - revert w. apply keeps_input. intros k Hk. apply keep_bind; [|apply keeps_result]. apply keeps_call. intros db r db' Hh Hr.
    destruct (decide (c = conn)) as [->|Hne].
    + rewrite Hkey in Hk. injection Hk as <-. destruct Hc as [Hc|Hc]; [done|]. by rewrite (if_owner_held _ _ _ _ _ _ _ _ Hh Hc Hr).
    + unfold held. eapply if_owner_other in Hr; [by rewrite Hr|by eapply other_key|]. apply lookup_delete_ne. by eapply other_key.
  - revert w. unfold Owner. destruct (negb _); [apply keep_fail|]. apply keeps_key. intros k Hk w Hh.
    destruct (decide (c = conn)) as [->|Hne].
    + rewrite Hkey in Hk. injection Hk as <-. unfold mbind, M_bind. destruct (GETs now key w) as [[p|e] w1] eqn:Hg.
      * unfold held. by rewrite (owner_of_held _ _ _ _ _ Hh Hg).
      * pose proof (keeps_gets held now key w Hh) as Hk. by rewrite Hg in Hk.
    + revert w Hh. apply keep_bind; [apply keeps_gets|]. intros p. apply keeps_owner_of. by eapply other_key.
  - rewrite Hkey in Hk. injection Hk as <-. unfold held. by rewrite He.
Qed.
(** The operations on a connection that is held, when nothing fails. *)
Lemma input_ok a i g ttl :
  validKeyPart a = true -> validKeyPart i = true -> 0 < g -> 0 < ttl -> ownerInput keys a conn i g ttl = mret key.
Proof using Hkey.
  clear Happ Hinst Hgen Vapp Vinst. intros Ha Hi Hg Ht. unfold ownerInput. rewrite Ha, Hi, Hkey.
  by assert ((g =? 0) = false) as -> by lia; assert ((ttl <=? 0) = false) as -> by lia.
Qed.
Lemma if_owner_run now a i g act db :
  held db -> ms now <= T ->
  if_owner now key a i (generationString g) act db
  = Ok (if bool_decide (app = a) && bool_decide (inst = i) && bool_decide (gen = g) then (1, act db) else (-1, db)).
Proof using Happ Hinst Hgen Vapp Vinst.
  intros Hh Ht. unfold if_owner. destruct (record_owned a i g) as (fs & Hfs & Ho & _).
  rewrite (get_alive _ _ _ _ _ Hh Ht), Hfs, Ho. by destruct (_ && _).
Qed.
Lemma differs_false a i g :
  actor_differs app inst gen a i g -> bool_decide (app = a) && bool_decide (inst = i) && bool_decide (gen = g) = false.
Proof.
  intros Hd. apply not_true_iff_false. rewrite !andb_true_iff, !bool_decide_eq_true. intros [[-> ->] ->]. by apply Hd.
Qed.
Lemma owner_run now w : w_faults w = [] -> held (w_db w) -> ms now <= T -> Owner keys now app conn w = (Ok (mkConnectionOwner inst gen), w).
Proof using Happ Hinst Hgen Hkey Vapp Vinst.
  intros Hf Hh Ht. unfold Owner. rewrite Vapp, Hkey. cbn [negb key_or]. unfold mbind, M_bind, GETs.
  rewrite call_run by done. rewrite (get_alive _ _ _ _ _ Hh Ht). destruct (record_owned app inst gen) as (fs & Hfs & _ & Hdec).
  rewrite Hfs. unfold owner_of. rewrite Hdec. rewrite bool_decide_true by done. destruct w as [db fs' lk]. cbn in Hf. by subst.
Qed.
End held.

(** C29: a gateway that has claimed a connection owns it until the claim runs out,
    whatever others do short of claiming the connection themselves: the others read it
    as the owner, are told that ownership is lost when they refresh or release, which
    changes nothing, and it can refresh and release. *)
Theorem owner_fenced now app conn inst gen ttl w w1 db t locked :
  coerce app = app -> coerce inst = inst -> gen < 2 ^ 64 -> 0 <= gen ->
  Claim keys now app conn inst gen ttl w = (Ok tt, w1) ->
  rtc (owner_step app conn inst gen) (w_db w1) db -> ms t <= ms now + px ttl ->
  let w2 := mkWorld db [] locked in
  Owner keys t app conn w2 = (Ok (mkConnectionOwner inst gen), w2)
  /\ (forall a i g ttl', actor_differs app inst gen a i g -> validKeyPart a = true -> validKeyPart i = true -> 0 < g -> 0 < ttl' ->
        Refresh keys t a conn i g ttl' w2 = (Err OwnershipLost, w2) /\ Release keys t a conn i g w2 = (Err OwnershipLost, w2))
  /\ (forall ttl', Millisecond <= ttl' ->
        exists w3, Refresh keys t app conn inst gen ttl' w2 = (Ok tt, w3)
          /\ forall t', ms t' <= ms t + ttl' `quot` Millisecond -> Owner keys t' app conn w3 = (Ok (mkConnectionOwner inst gen), w3))
  /\ (exists w3, Release keys t app conn inst gen w2 = (Ok tt, w3)
        /\ forall t', (Owner keys t' app conn w3).1 = Err RedisNotFound).
Proof.
  intros Happ Hinst Hlt Hge Hclaim Hrun Ht w2. unfold Claim, mbind, M_bind in Hclaim.
  destruct (ownerInput keys app conn inst gen ttl w) as [[key|] w0] eqn:Hin; [|done]. unfold ownerInput in Hin.
  destruct (negb (validKeyPart app)) eqn:Va; [done|]. destruct (negb (validKeyPart inst)) eqn:Vi; [done|].
  destruct (gen =? 0) eqn:Vg; [done|]. destruct (ttl <=? 0) eqn:Vt; [done|]. cbn [orb] in Hin.
  destruct (Keys.ConnectionOwner keys conn) as [k|] eqn:Hkey; [|done]. injection Hin as -> <-.
  apply negb_false_iff in Va, Vi. assert (0 < gen < 2 ^ 64) as Hgen by lia.
  set (T := ms now + px ttl). apply call_ok in Hclaim. unfold SET_PX in Hclaim.
  destruct (px ttl <=? 0) eqn:Hpx; [unfold px in Hpx; lia|]. injection Hclaim as Hdb.
  assert (held app inst gen T key db) as Hh.
  { assert (held app inst gen T key (w_db w1)) as Hh by (unfold held; rewrite <- Hdb; by rewrite lookup_insert_eq).
    clear -Hrun Hh Hkey Happ Hinst Hgen Va Vi. induction Hrun as [|db1 db2 db3 Hs _ IH]; [done|]. apply IH.
    by eapply owner_step_held. }
  assert (0 < Millisecond) as Hms by reflexivity. split_and!.
  - by eapply owner_run.
  - intros a i g ttl' Hd Ha Hi Hg Htt. split; unfold Refresh, Release; rewrite (input_ok _ key) by done;
      unfold mbind, M_bind; cbn [mret M_ret]; rewrite call_run by done; cbn [w_db w2];
      unfold refreshOwnerScript, releaseOwnerScript; rewrite (if_owner_run app inst gen T key) by done;
      by rewrite (differs_false app inst gen) by done.
  - intros ttl' Htt. eexists. split.
    + unfold Refresh. rewrite (input_ok _ key) by (done || lia). unfold mbind, M_bind. cbn [mret M_ret].
      rewrite call_run by done. cbn [w_db w2]. unfold refreshOwnerScript. rewrite (if_owner_run app inst gen T key) by done.
      rewrite !bool_decide_true by done. cbn. reflexivity.
    + intros t' Ht'. eapply (owner_run app conn inst gen (ms t + ttl' `quot` Millisecond) key); try done. cbn [w_db].
      unfold held, PEXPIRE. rewrite (peek_alive _ _ _ _ _ Hh Ht). assert (0 < ttl' `quot` Millisecond).
      { apply Z.quot_str_pos. lia. }
      assert ((ttl' `quot` Millisecond <=? 0) = false) as -> by lia. by rewrite lookup_insert_eq.
  - eexists. split.
    + unfold Release. rewrite (input_ok _ key) by (done || lia). unfold mbind, M_bind. cbn [mret M_ret].
      rewrite call_run by done. cbn [w_db w2]. unfold releaseOwnerScript. rewrite (if_owner_run app inst gen T key) by done.
      rewrite !bool_decide_true by done. cbn. reflexivity.
    + intros t'. unfold Owner. rewrite Va, Hkey. cbn [negb key_or]. unfold mbind, M_bind, GETs. rewrite call_run by done. cbn [w_db].
      unfold GET, peek, DEL. by rewrite lookup_delete_eq.
Qed.
End owner.

(** ** Incarnations of an instance *)

Section instances.
Context (keys : Keyspace).

Definition well_formed (i : Instance) : Prop :=
  validKeyPart (in_ID i) = true /\ validKeyPart (in_Role i) = true /\ coerce (in_ID i) = in_ID i
  /\ 0 < in_Generation i < 2 ^ 64 /\ 0 <= UnixMicro (in_StartedAt i) < 10 ^ 20 /\ in_StartedAt i <> zero_time.
(** The record of an incarnation under its key, and a set under the key of the index. *)
Definition beats (memberKey indexKey : string) (i : Instance) (T : Z) (db : RedisDB) : Prop :=
  (exists fs, db !! memberKey = Some (mkEntry (VString (PObject fs)) (Some T))
    /\ fs !! "generation" = Some (FString (generationString (in_Generation i)))
    /\ fs !! "started_at_us" = Some (FString (fixedWidthUnixMicro (in_StartedAt i))))
  /\ exists s t, db !! indexKey = Some (mkEntry (VZSet s) t).

Lemma instance_fields i :
  well_formed i ->
  instanceRecord i !! "generation" = Some (FString (generationString (in_Generation i)))
  /\ instanceRecord i !! "started_at_us" = Some (FString (fixedWidthUnixMicro (in_StartedAt i))).
Proof.
  intros (_ & _ & _ & Hg & Hs & _). destruct (generation_text _ Hg) as [_ <-].
  assert (0 <= in_StartedAt i) as Hi.
  { unfold UnixMicro in Hs. pose proof (Z.div_mod (in_StartedAt i) 1000). pose proof (Z.mod_pos_bound (in_StartedAt i) 1000). lia. }
  rewrite <- (marshal_text _ _ (fixed_text _ Hi)). done.
Qed.
Lemma index_differs i memberKey indexKey : InstanceMember keys i = Some memberKey -> InstanceIndex keys = Some indexKey -> memberKey <> indexKey.
Proof.
  intros H1 H2 ->. by destruct (key_parts_inj keys (KInstanceMember i) KInstanceIndex _ H1 H2).
Qed.
Lemma put_zset_add key score id s t db : put_zset key (ZADD score id s) t db = <[key := mkEntry (VZSet (ZADD score id s)) t]> db.
Proof. unfold put_zset. rewrite decide_False; [done|]. apply insert_non_empty. Qed.
Lemma heartbeat_write_beats now memberKey indexKey i id ttl db r db' :
  well_formed i -> memberKey <> indexKey -> heartbeat_write now memberKey indexKey id (instanceRecord i) ttl db = Ok (r, db') ->
  beats memberKey indexKey i (ms now + ttl) db' /\ r = now.
Proof.
  intros Hi Hne. unfold heartbeat_write, SET_PX. destruct (ttl <=? 0); [done|]. unfold on_zset.
  destruct (zset _ _ _) as [[s t]|]; [|done]. intros [= <- <-]. rewrite put_zset_add. split; [|done].
  destruct (instance_fields i Hi) as [Hg Hs]. split; [|eexists _, _; by rewrite lookup_insert_eq].
  eexists. rewrite lookup_insert_ne, lookup_insert_eq by done. split; [done|]. by rewrite !lookup_insert_ne.
Qed.
Lemma heartbeat_write_run now memberKey indexKey i id ttl db :
  memberKey <> indexKey -> 0 < ttl -> (exists s t, db !! indexKey = Some (mkEntry (VZSet s) t)) ->
  exists db', heartbeat_write now memberKey indexKey id (instanceRecord i) ttl db = Ok (now, db').
Proof.
  intros Hne Ht (s & t & Hs). unfold heartbeat_write, SET_PX. assert ((ttl <=? 0) = false) as -> by lia. unfold on_zset, zset, peek.
  rewrite lookup_insert_ne by done. rewrite Hs. destruct (alive _ _); eauto.
Qed.
Lemma superseded_spec i j fs :
  well_formed i -> well_formed j -> in_Generation j <> in_Generation i ->
  fs !! "generation" = Some (FString (generationString (in_Generation i))) ->
  fs !! "started_at_us" = Some (FString (fixedWidthUnixMicro (in_StartedAt i))) ->
  superseded fs (instanceRecord j) = Ok (UnixMicro (in_StartedAt j) <=? UnixMicro (in_StartedAt i)).
Proof.
  intros Hi Hj Hd Hg Hs. destruct (instance_fields j Hj) as [Gj Sj]. unfold superseded, lua_ge. rewrite Hg, Hs, Gj, Sj.
  rewrite bool_decide_false by (intros [= He]; apply generation_inj in He; done). f_equal.
  destruct Hi as (_ & _ & _ & _ & Si & _), Hj as (_ & _ & _ & _ & Sj' & _).
  apply eq_bool_prop_intro. rewrite bool_decide_spec, Is_true_true, Z.leb_le. by apply fixed_order.
Qed.
Lemma heartbeat_input j ttl memberKey indexKey :
  well_formed j -> 0 < ttl -> InstanceMember keys (in_ID j) = Some memberKey -> InstanceIndex keys = Some indexKey -> forall now,
  Heartbeat keys now j ttl
  = (r ← call false (heartbeatScript now memberKey indexKey (coerce (in_ID j)) (instanceRecord j) (ttl `quot` Millisecond));
     if r <? 0 then fail OwnershipLost else mret tt).
Proof.
  intros (Hid & Hr & _ & Hg & _ & Hz) Ht Hm Hx now. unfold Heartbeat. rewrite Hid, Hr, Hm, Hx. unfold IsZero.
  assert ((in_Generation j =? 0) = false) as -> by lia. assert ((in_StartedAt j =? zero_time) = false) as -> by lia.
  by assert ((ttl <=? 0) = false) as -> by lia.
Qed.
(** A heartbeat over the record of another incarnation. *)
Lemma heartbeat_over memberKey indexKey i j T now ttl w :
  well_formed i -> well_formed j -> in_Generation j <> in_Generation i ->
  InstanceMember keys (in_ID j) = Some memberKey -> InstanceIndex keys = Some indexKey ->
  beats memberKey indexKey i T (w_db w) -> w_faults w = [] -> ms now <= T -> 0 <= now -> Millisecond <= ttl ->
  if UnixMicro (in_StartedAt j) <=? UnixMicro (in_StartedAt i)
  then Heartbeat keys now j ttl w = (Err OwnershipLost, w)
  else exists w', Heartbeat keys now j ttl w = (Ok tt, w') /\ w_faults w' = []
         /\ beats memberKey indexKey j (ms now + ttl `quot` Millisecond) (w_db w').
Proof.
  intros Hi Hj Hd Hm Hx [(fs & Hfs & Hg & Hs) Hz] Hf Ht Hn Httl. assert (0 < Millisecond) as Hms by reflexivity.
  rewrite (heartbeat_input j ttl memberKey indexKey) by (done || lia). unfold mbind, M_bind. rewrite call_run by done.
  unfold heartbeatScript. rewrite (get_alive _ _ _ _ _ Hfs Ht), (superseded_spec i j fs) by done.
  destruct (_ <=? _); [destruct w as [db fl lk]; cbn in *; by subst|].
  destruct (heartbeat_write_run now memberKey indexKey j (coerce (in_ID j)) (ttl `quot` Millisecond) (w_db w)) as [db' Hw];
    [by eapply index_differs|apply Z.quot_str_pos; lia|done|]. rewrite Hw. cbn.
  assert ((now <? 0) = false) as -> by lia. eexists. split; [done|]. split; [done|]. cbn.
  apply heartbeat_write_beats in Hw as [Hw _]; [done|done|by eapply index_differs].
Qed.
Lemma heartbeat_first memberKey indexKey i now ttl w w1 :
  well_formed i -> 0 < ttl -> InstanceMember keys (in_ID i) = Some memberKey -> InstanceIndex keys = Some indexKey ->
  Heartbeat keys now i ttl w = (Ok tt, w1) -> beats memberKey indexKey i (ms now + ttl `quot` Millisecond) (w_db w1).
Proof.
  intros Hi Ht Hm Hx Hb. rewrite (heartbeat_input i ttl memberKey indexKey) in Hb by done.
  apply bind_ok in Hb as (r & w2 & Hc & Hr). destruct (r <? 0) eqn:Hneg; [done|]. apply ret_ok in Hr as [_ <-].
  apply call_ok in Hc. unfold heartbeatScript in Hc. pose proof (index_differs _ _ _ Hm Hx) as Hne.
  destruct (GET now memberKey (w_db w)) as [[[fs|]|]|]; try done; [destruct (superseded _ _) as [[]|]; try done|].
  - injection Hc as <- _. done.
  - by apply heartbeat_write_beats in Hc as [Hc _].
  - by apply heartbeat_write_beats in Hc as [Hc _].
Qed.

(** While an incarnation of an instance is alive, another one with the same name
    takes its place exactly when it was started later: an earlier one can neither beat
    nor release it, and once a later one has taken over the first is refused in turn. *)
Theorem heartbeat_succession now i ttl w w1 :
  well_formed i -> Heartbeat keys now i ttl w = (Ok tt, w1) -> forall j now' ttl',
  well_formed j -> in_ID j = in_ID i -> in_Generation j <> in_Generation i -> 0 <= now' ->
  ms now' <= ms now + ttl `quot` Millisecond -> Millisecond <= ttl' ->
  let w1 := mkWorld (w_db w1) [] (w_locked w1) in
  ReleaseInstance keys now' j w1 = (Err OwnershipLost, w1)
  /\ if UnixMicro (in_StartedAt j) <=? UnixMicro (in_StartedAt i)
     then Heartbeat keys now' j ttl' w1 = (Err OwnershipLost, w1)
     else exists w2, Heartbeat keys now' j ttl' w1 = (Ok tt, w2)
       /\ forall now'' ttl'', 0 <= now'' -> ms now'' <= ms now' + ttl' `quot` Millisecond -> Millisecond <= ttl'' ->
            Heartbeat keys now'' i ttl'' w2 = (Err OwnershipLost, w2).
Proof.
  intros Hi Hb j now' ttl' Hj Hid Hd Hn Ht Httl w1'.
  assert (0 < ttl /\ exists memberKey indexKey, InstanceMember keys (in_ID i) = Some memberKey /\ InstanceIndex keys = Some indexKey)
    as (Httl0 & memberKey & indexKey & Hm & Hx).
  { unfold Heartbeat in Hb. destruct (_ || _) eqn:E in Hb; [done|]. apply orb_false_iff in E as [_ E]. split; [lia|].
    destruct (InstanceMember keys (in_ID i)); [|done]. destruct (InstanceIndex keys); [eauto|done]. }
  pose proof (heartbeat_first _ _ _ _ _ _ _ Hi Httl0 Hm Hx Hb) as Hbeats. rewrite <- Hid in Hm. split.
  - destruct Hbeats as [(fs & Hfs & Hg & Hs) _]. destruct Hj as (Hv & _ & _ & Hgen & _ & Hz).
    unfold ReleaseInstance. rewrite Hv, Hm, Hx. unfold IsZero. assert ((in_Generation j =? 0) = false) as -> by lia.
    assert ((in_StartedAt j =? zero_time) = false) as -> by lia. cbn [negb orb key_or]. unfold mbind, M_bind.
    rewrite call_run by done. cbn [w_db w1']. unfold releaseInstanceScript. rewrite (get_alive _ _ _ _ _ Hfs Ht).
    assert (is_field fs "generation" (generationString (in_Generation j)) = false) as ->.
    { unfold is_field. rewrite Hg. apply bool_decide_false. intros [= He]. apply generation_inj in He. done. }
    by rewrite andb_false_r.
  - pose proof (heartbeat_over memberKey indexKey i j _ now' ttl' w1' Hi Hj Hd Hm Hx Hbeats eq_refl Ht Hn Httl) as Hover.
    destruct (_ <=? _) eqn:E; [done|]. destruct Hover as (w2 & Hrun & Hf & Hb2). exists w2. split; [done|].
    intros now'' ttl'' Hn'' Ht'' Httl''. rewrite Hid in Hm.
    pose proof (heartbeat_over memberKey indexKey j i _ now'' ttl'' w2 Hj Hi ltac:(congruence) Hm Hx Hb2 Hf Ht'' Hn'' Httl'') as Hback.
    by assert ((UnixMicro (in_StartedAt i) <=? UnixMicro (in_StartedAt j)) = true) as E' by lia; rewrite E' in Hback.
Qed.
End instances.

(** ** A connection and an instance *)

Lemma run_pair {A D} (x : res A * World D) a : x.1 = Ok a -> x = (Ok a, x.2).
Proof. destruct x. by intros <-. Qed.
Definition demo_claimed : World RedisDB := (Claim demo_keys 5000000 "app_1" "conn_1" "gw_1" 7 Second (mkWorld ∅ [] ∅)).2.
(** Another gateway tries to release the connection in between. *)
Definition demo_after : World RedisDB := (Release demo_keys 5100000 "app_1" "conn_1" "gw_2" 8 demo_claimed).2.
Lemma owner_fenced_witness :
  Owner demo_keys 5200000 "app_1" "conn_1" (mkWorld (w_db demo_after) [] ∅)
  = (Ok (mkConnectionOwner "gw_1" 7), mkWorld (w_db demo_after) [] ∅).
Proof.
  refine (proj1 (owner_fenced demo_keys 5000000 "app_1" "conn_1" "gw_1" 7 Second (mkWorld ∅ [] ∅) demo_claimed (w_db demo_after) 5200000 ∅ _ _ _ _ _ _ _));
    try (vm_compute; reflexivity); try (vm_compute; discriminate).
  apply rtc_once. apply (os_release demo_keys "app_1" "conn_1" "gw_1" 7 5100000 "app_1" "conn_1" "gw_2" 8 demo_claimed). right. discriminate.
Defined.
Definition demo_old : Instance := mkInstance "gw_1" "gateway" 7 (1000 * Second) 0.
Definition demo_new : Instance := mkInstance "gw_1" "gateway" 8 (2000 * Second) 0.
Definition demo_beat : World RedisDB := (Heartbeat demo_keys 5000000 demo_old Second (mkWorld ∅ [] ∅)).2.
Lemma demo_beat_ok : Heartbeat demo_keys 5000000 demo_old Second (mkWorld ∅ [] ∅) = (Ok tt, demo_beat).
Proof. apply run_pair. vm_compute. reflexivity. Qed.
Lemma heartbeat_succession_witness :
  let w := mkWorld (w_db demo_beat) [] (w_locked demo_beat) in
  exists w2, Heartbeat demo_keys 5100000 demo_new Second w = (Ok tt, w2)
    /\ Heartbeat demo_keys 5200000 demo_old Second w2 = (Err OwnershipLost, w2).
Proof.
  assert (well_formed demo_old /\ well_formed demo_new) as [Ho Hn] by (repeat split; vm_compute; congruence).
  destruct (heartbeat_succession demo_keys 5000000 demo_old Second (mkWorld ∅ [] ∅) demo_beat Ho demo_beat_ok
    demo_new 5100000 Second Hn eq_refl ltac:(discriminate) ltac:(done) ltac:(vm_compute; discriminate) ltac:(vm_compute; discriminate))
    as [_ (w2 & Hrun & Hold)].
  exists w2. split; [exact Hrun|]. apply Hold; vm_compute; discriminate.
Defined.
