(* ===== verification/RedisSessions.v ===== *)
(** * Sessions of administrators ([redisstate/session.go], [service/admin_sessions.go])

    The records in Redis and the service over them, and what a session grants and until
    when. The clock of the server is in microseconds, that of the service in
    nanoseconds. *)

From Stdlib Require Import Ascii String ZifyBool.
From S2P Require Import Prelude GoLib Crypto Json JsonEncode QueueSchema AppService RedisKeys RedisServer RedisOwnership AuthClaims.
Import Keys Redis Ownership.

Module Sessions.

Record AdminSession := mkAdminSession {
  as_ID : string;
  as_UserID : string;
  as_Email : string;
  as_Role : string;
  as_CSRFHash : string;
  as_IssuedAt : Z;
  as_LastSeenAt : Z;
  as_IdleExpiresAt : Z;
  as_ExpiresAt : Z
}.
Definition known_role (role : string) : bool := bool_decide (role = "admin") || bool_decide (role = "user").
Definition validAdminSession (s : AdminSession) : bool :=
  validKeyPart (as_ID s) && negb (bool_decide (as_UserID s = "")) && negb (bool_decide (as_Email s = ""))
  && known_role (as_Role s) && negb (bool_decide (as_CSRFHash s = "")) && negb (IsZero (as_IssuedAt s))
  && (as_IssuedAt s <=? as_LastSeenAt s) && (as_LastSeenAt s <? as_IdleExpiresAt s)
  && (as_IdleExpiresAt s <=? as_ExpiresAt s).

(** ** Records *)

Definition encodeAdminSession (s : AdminSession) : gmap string field :=
  <["version" := FNumber 2]> (<["id" := marshal (as_ID s)]> (<["user_id" := marshal (as_UserID s)]>
    (<["email" := marshal (as_Email s)]> (<["role" := marshal (as_Role s)]> (<["csrf_hash" := marshal (as_CSRFHash s)]>
    (<["issued_at_us" := marshal (fixedWidthUnixMicro (as_IssuedAt s))]>
    (<["last_seen_at_us" := marshal (fixedWidthUnixMicro (as_LastSeenAt s))]>
    (<["idle_expires_at_us" := marshal (fixedWidthUnixMicro (as_IdleExpiresAt s))]>
    {["expires_at_us" := marshal (fixedWidthUnixMicro (as_ExpiresAt s))]})))))))).
Definition parseSessionTime (raw : string) : option Z :=
  match parse_int64 raw with
  | Some us => if us <=? 0 then None else Some (us * Microsecond)
  | None => None
  end.
Definition decodeAdminSession (fs : gmap string field) (id : string) : option AdminSession :=
  version ← go_number fs "version"; id' ← go_string fs "id"; user ← go_string fs "user_id"; email ← go_string fs "email";
  role ← go_string fs "role"; csrf ← go_string fs "csrf_hash"; issued ← go_string fs "issued_at_us";
  seen ← go_string fs "last_seen_at_us"; idle ← go_string fs "idle_expires_at_us"; expires ← go_string fs "expires_at_us";
  if negb (version =? 2) || negb (bool_decide (id' = id)) || bool_decide (user = "") || bool_decide (email = "")
     || negb (known_role role) || bool_decide (csrf = "") then None else
  issuedAt ← parseSessionTime issued; lastSeenAt ← parseSessionTime seen; idleExpiresAt ← parseSessionTime idle;
  expiresAt ← parseSessionTime expires;
  let s := mkAdminSession id' user email role csrf issuedAt lastSeenAt idleExpiresAt expiresAt in
  if validAdminSession s then Some s else None.

(** ** [validateAndTouchSessionScript] *)

Definition present (fs : gmap string field) (name : string) : bool :=
  match fs !! name with None | Some (FBool false) => false | _ => true end.
Definition filled (fs : gmap string field) (name : string) : bool := present fs name && negb (is_field fs name "").
Definition lua_number (fs : gmap string field) (name : string) : option Z :=
  match fs !! name with Some (FString s) => tonumber s | Some (FNumber z) => Some z | _ => None end.
Definition record_shape (fs : gmap string field) (id : string) : bool :=
  bool_decide (fs !! "version" = Some (FNumber 2)) && is_field fs "id" id && filled fs "user_id" && filled fs "email"
  && (is_field fs "role" "admin" || is_field fs "role" "user") && filled fs "csrf_hash"
  && present fs "issued_at_us" && present fs "last_seen_at_us" && present fs "idle_expires_at_us" && present fs "expires_at_us".
(** The two times at which the session ends, if the record has times in order. *)
Definition record_times (fs : gmap string field) : option (Z * Z) :=
  issued ← lua_number fs "issued_at_us"; seen ← lua_number fs "last_seen_at_us";
  idle ← lua_number fs "idle_expires_at_us"; expires ← lua_number fs "expires_at_us";
  if (issued <=? 0) || (seen <? issued) || (idle <=? seen) || (expires <? idle) then None else Some (idle, expires).
Definition touched (now next_idle : Z) (fs : gmap string field) : gmap string field :=
  <["idle_expires_at_us" := FString (decimal next_idle)]> (<["last_seen_at_us" := FString (decimal now)]> fs).
Definition ceil_ms (us : Z) : Z := - ((- us) `div` 1000).
Definition validateAndTouchSessionScript (now : Z) (key id : string) (idle_ms : Z) (db : RedisDB)
    : res ((Z * gmap string field) * RedisDB) :=
  match GET now key db with
  | Err e => Err e
  | Ok None => Ok ((0, ∅), db)
  | Ok (Some (PText _)) => Ok ((-2, ∅), DEL key db)
  | Ok (Some (PObject fs)) =>
      if negb (record_shape fs id) then Ok ((-2, ∅), DEL key db) else
      match record_times fs with
      | None => Ok ((-2, ∅), DEL key db)
      | Some (idle, expires) =>
          if (idle <=? now) || (expires <=? now) then Ok ((0, ∅), DEL key db) else
          let next_idle := Z.min (now + idle_ms * 1000) expires in
          let fs' := touched now next_idle fs in
          match SET_PX now key (PObject fs') (Z.max 1 (ceil_ms (next_idle - now))) db with
          | Ok db => Ok ((1, fs'), db)
          | Err e => Err e
          end
      end
  end.

(** ** The store; [cancelled]: the context is done when a failure is looked at *)

Section store.
Context (keys : Keyspace) (cancelled : bool).

(** [now] is the clock of the server, [until] that of the service. *)
Definition Put (now until : Z) (s : AdminSession) : M_redis unit :=
  key_or (Keys.AdminSession keys (as_ID s)) (fun key =>
    if negb (validAdminSession s) then fail InvalidRecord else
    let expiresAt := if as_ExpiresAt s <? as_IdleExpiresAt s then as_ExpiresAt s else as_IdleExpiresAt s in
    let ttl := expiresAt - until in
    if ttl <=? 0 then fail InvalidRecord else
    call cancelled (fun db => match SET_PX now key (PObject (encodeAdminSession s)) (px ttl) db with
                              | Ok db => Ok (tt, db) | Err e => Err e end)).
Definition read (now : Z) (key : string) : M_redis (option payload) :=
  call cancelled (fun db => match GET now key db with Ok p => Ok (p, db) | Err e => Err e end).
Definition Get (now : Z) (id : string) : M_redis AdminSession :=
  key_or (Keys.AdminSession keys id) (fun key =>
    payload ← read now key;
    match payload with
    | None => fail RedisNotFound
    | Some p =>
        match (match p with PObject fs => decodeAdminSession fs id | PText _ => None end) with
        | Some s => mret s
        | None => _ ← DELs key; fail CorruptRecord
        end
    end).
Definition ValidateAndTouch (now : Z) (id : string) (service_now idleTTL : Z) : M_redis AdminSession :=
  key_or (Keys.AdminSession keys id) (fun key =>
    if IsZero service_now || (idleTTL <=? 0) || (24 * Hour <? idleTTL) then fail InvalidRecord else
    r ← call cancelled (validateAndTouchSessionScript now key id (idleTTL `quot` Millisecond));
    let '(status, fs) := r in
    if status =? 0 then fail RedisNotFound else
    if status =? -2 then fail CorruptRecord else
    match decodeAdminSession fs id with Some s => mret s | None => fail CorruptRecord end).
Definition Delete (id : string) : M_redis unit :=
  key_or (Keys.AdminSession keys id) (fun key => call cancelled (fun db => Ok (tt, DEL key db))).

(** A key that [SCAN] gave: what others did before it is read, and before it is deleted. *)
Record scanned := mkScanned {
  sc_key : string;
  sc_before : RedisDB -> RedisDB;
  sc_now : Z;
  sc_between : RedisDB -> RedisDB
}.
Definition record_user (p : payload) : option string :=
  match p with
  | PObject fs =>
      _ ← go_number fs "version"; _ ← go_string fs "id"; user ← go_string fs "user_id"; _ ← go_string fs "email";
      _ ← go_string fs "role"; _ ← go_string fs "csrf_hash"; _ ← go_string fs "issued_at_us";
      _ ← go_string fs "last_seen_at_us"; _ ← go_string fs "idle_expires_at_us"; _ ← go_string fs "expires_at_us";
      Some user
  | PText _ => None
  end.
Fixpoint revoke_loop (userID : string) (found : list scanned) : M_redis unit :=
  match found with
  | [] => mret tt
  | sc :: rest =>
      _ ← Apps.others_commit (sc_before sc);
      payload ← read (sc_now sc) (sc_key sc);
      _ ← (match payload with
           | Some p => if bool_decide (record_user p = Some userID)
                       then _ ← Apps.others_commit (sc_between sc); call cancelled (fun db => Ok (tt, DEL (sc_key sc) db))
                       else mret tt
           | None => mret tt
           end);
      revoke_loop userID rest
  end.
(** [scan_error]: the iteration ended with an error. *)
Definition RevokeAdminUserSessions (found : list scanned) (scan_error : bool) (userID : string) : M_redis unit :=
  if bool_decide (userID = "") || negb (valid keys) then fail InvalidRecord else
  _ ← revoke_loop userID found;
  if scan_error then fail (if cancelled then ContextError else RedisUnavailable) else mret tt.
End store.

(** ** The service *)

Definition adminSessionIdleTTL : Z := 30 * Minute.
Definition adminSessionAbsoluteTTL : Z := 12 * Hour.
Record AdminUser := mkAdminUser {
  au_ID : string;
  au_Email : string;
  au_Role : string;
  au_Enabled : bool;
  au_CreatedAt : Z;
  au_UpdatedAt : Z
}.
Record AdminPrincipal := mkAdminPrincipal { ap_ID : string; ap_Email : string; ap_Role : string }.
Definition principal (s : AdminSession) : AdminPrincipal := mkAdminPrincipal (as_UserID s) (as_Email s) (as_Role s).
Definition csrf_hash (token : string) : string := hex_EncodeToString (sha256 token).

Section service.
Context (keys : Keyspace) (cancelled : bool).

(** [randomValue] of the bytes read, if they could be. *)
Definition randomValue (raw : option string) : M_redis string :=
  match raw with Some r => mret (b64_EncodeToString r) | None => fail RandomError end.
Definition new_session (now : Z) (sessionValue csrfToken : string) (user : AdminUser) : AdminSession :=
  mkAdminSession ("ras_" ++ sessionValue) (au_ID user) (au_Email user) (au_Role user) (csrf_hash csrfToken) now now
    (now + adminSessionIdleTTL) (now + adminSessionAbsoluteTTL).
(** [user] is the answer of [AuthenticateAdminUser]; [server] and [until] are the
    clocks when the session is put. *)
Definition Exchange (user : res AdminUser) (now server until : Z) (random1 random2 : option string)
    : M_redis (string * string * Z * AdminPrincipal) :=
  match user with
  | Ok user =>
      if negb (au_Enabled user) || negb (known_role (au_Role user)) then fail ErrUnauthorized else
      sessionValue ← randomValue random1; csrfToken ← randomValue random2;
      let s := new_session now sessionValue csrfToken user in
      _ ← Put keys cancelled server until s;
      mret (as_ID s, csrfToken, as_ExpiresAt s, principal s)
  | Err _ => fail ErrUnauthorized
  end.
Definition unauthorized (e : error) : error :=
  match e with RedisNotFound | CorruptRecord | InvalidKeyPart => ErrUnauthorized | _ => e end.
Definition csrf_ok (csrfToken : string) (s : AdminSession) : bool :=
  match hex_DecodeString (as_CSRFHash s) with
  | Some want => (len want =? 32) && negb (bool_decide (csrfToken = "")) && bool_decide (sha256 csrfToken = want)
  | None => false
  end.
Definition Authenticate (now service_now : Z) (sessionID csrfToken : string) (mutate : bool) : M_redis AdminPrincipal :=
  if bool_decide (sessionID = "") then fail ErrUnauthorized else
  s ← on_error (ValidateAndTouch keys cancelled now sessionID service_now adminSessionIdleTTL) (fun e => fail (unauthorized e));
  if negb mutate then mret (principal s) else
  if csrf_ok csrfToken s then mret (principal s) else fail ErrForbidden.
(** The session that [Refresh] puts back. *)
Definition refreshed (now : Z) (csrfToken : string) (s : AdminSession) : AdminSession :=
  let idle := if as_IdleExpiresAt s <? now + adminSessionIdleTTL then now + adminSessionIdleTTL else as_IdleExpiresAt s in
  mkAdminSession (as_ID s) (as_UserID s) (as_Email s) (as_Role s) (csrf_hash csrfToken) (as_IssuedAt s) now
    (if as_ExpiresAt s <? idle then as_ExpiresAt s else idle) (as_ExpiresAt s).
(** [times]: the clocks of the server at the three calls; [clocks]: those of the service
    at [Authenticate], when the session changes, and when it is put. *)
Definition Refresh (times clocks : Z * Z * Z) (others1 others2 : RedisDB -> RedisDB) (random : option string) (sessionID : string)
    : M_redis (string * Z * AdminPrincipal) :=
  let '(t1, t2, t3) := times in let '(c1, c2, c3) := clocks in
  p ← Authenticate t1 c1 sessionID "" false;
  _ ← Apps.others_commit others1;
  s ← Get keys cancelled t2 sessionID;
  csrfToken ← randomValue random;
  _ ← Apps.others_commit others2;
  _ ← Put keys cancelled t3 c3 (refreshed c2 csrfToken s);
  mret (csrfToken, as_ExpiresAt s, p).
Definition Logout (sessionID : string) : M_redis unit :=
  if bool_decide (sessionID = "") then fail ErrUnauthorized else
  on_error (Delete keys cancelled sessionID) (fun e => if bool_decide (e = RedisNotFound) then mret tt else fail e).
Definition RevokeUser (found : list scanned) (scan_error : bool) (userID : string) : M_redis unit :=
  if bool_decide (userID = "") then fail ErrInvalidInput
  else RevokeAdminUserSessions keys cancelled found scan_error userID.
End service.

End Sessions.
Import Sessions.

(** ** Who a record is about *)

(** The fields that never change: the user, and the end [X] in microseconds. *)
Record identity := mkIdentity { id_user : string; id_email : string; id_role : string; id_end : Z }.
Definition about (x : identity) (fs : gmap string field) : Prop :=
  fs !! "user_id" = Some (FString (id_user x)) /\ fs !! "email" = Some (FString (id_email x))
  /\ fs !! "role" = Some (FString (id_role x))
  /\ exists t, fs !! "expires_at_us" = Some (FString t) /\ digit_text t (id_end x).
Definition sane (x : identity) : Prop :=
  coerce (id_user x) = id_user x /\ coerce (id_email x) = id_email x /\ coerce (id_role x) = id_role x /\ 0 < id_end x < 2 ^ 63.
Definition identity_of (s : AdminSession) : identity :=
  mkIdentity (coerce (as_UserID s)) (coerce (as_Email s)) (coerce (as_Role s)) (UnixMicro (as_ExpiresAt s)).

Lemma coerce_twice s : coerce (coerce s) = coerce s.
Proof. unfold coerce. by rewrite bytes_of_bytes, coerce_idemp. Qed.
Lemma encode_about s : 0 <= as_ExpiresAt s -> about (identity_of s) (encodeAdminSession s).
Proof.
  intros He. unfold about. cbn [identity_of id_user id_email id_role id_end]. split; [reflexivity|]. split; [reflexivity|].
  split; [reflexivity|]. exists (fixedWidthUnixMicro (as_ExpiresAt s)). split; [|by apply fixed_text].
  rewrite <- (marshal_text _ _ (fixed_text _ He)). reflexivity.
Qed.
Lemma touched_about x now next fs : about x fs -> about x (touched now next fs).
Proof. intros (H1 & H2 & H3 & t & H4 & H5). unfold about, touched. rewrite !lookup_insert_ne by done. eauto 6. Qed.

(** What is decoded from a record about [x] is a session of [x]. *)
Lemma decode_about x fs id s :
  about x fs -> sane x -> decodeAdminSession fs id = Some s ->
  as_ID s = id /\ principal s = mkAdminPrincipal (id_user x) (id_email x) (id_role x) /\ as_ExpiresAt s = id_end x * Microsecond.
Proof.
  intros (H1 & H2 & H3 & t & H4 & H5) (_ & _ & _ & Hx) Hd. unfold decodeAdminSession in Hd.
  apply bind_Some in Hd as (version & _ & Hd). apply bind_Some in Hd as (id' & _ & Hd).
  unfold go_string in Hd. rewrite H1, H2, H3, H4 in Hd. cbn [mbind option_bind] in Hd.
  apply bind_Some in Hd as (csrf & _ & Hd). apply bind_Some in Hd as (issued & _ & Hd).
  apply bind_Some in Hd as (seen & _ & Hd). apply bind_Some in Hd as (idle & _ & Hd).
  destruct (_ || _) eqn:Hc; [done|]. rewrite !orb_false_iff in Hc. destruct Hc as [[[[[_ Hid] _] _] _] _].
  apply bind_Some in Hd as (a & _ & Hd). apply bind_Some in Hd as (b & _ & Hd). apply bind_Some in Hd as (c & _ & Hd).
  apply bind_Some in Hd as (d & Hp & Hd). unfold parseSessionTime in Hp. rewrite (parse_text _ _ H5) in Hp by lia.
  assert ((id_end x <=? 0) = false) as E by lia. rewrite E in Hp. injection Hp as <-.
  destruct (validAdminSession _); [|done]. injection Hd as <-. cbn. split; [|done]. by apply negb_false_iff, bool_decide_eq_true in Hid.
Qed.
Lemma read_identity x fs id s :
  about x fs -> sane x -> decodeAdminSession fs id = Some s -> identity_of s = x /\ 0 <= as_ExpiresAt s.
Proof.
  intros Ha Hs Hd. destruct (decode_about _ _ _ _ Ha Hs Hd) as (_ & Hp & He). destruct Hs as (Hu & Hm & Hr & Hx).
  unfold principal in Hp. injection Hp as Eu Em Er. unfold identity_of. rewrite Eu, Em, Er, He, Hu, Hm, Hr.
  unfold UnixMicro, Microsecond. rewrite Z.div_mul by done. split; [by destruct x|lia].
Qed.

(** ** Texts of the service *)

Lemma nth_ascii n l d : forallb (fun c => code c <? 128) (d :: l) = true -> (code (nth n l d) <? 128) = true.
Proof.
  cbn. intros [Hd Hl]%andb_prop. destruct (nth_in_or_default n l d) as [Hin| ->]; [|done].
  rewrite forallb_forall in Hl. by apply Hl.
Qed.
Lemma b64_ascii s : Tokens.ascii_text (b64_EncodeToString s).
Proof.
  unfold Tokens.ascii_text, b64_EncodeToString. rewrite bytes_of_bytes.
  induction (bytes s) as [|a|a b|a b c l IH] using list_ind3; cbn [b64_encode forallb]; unfold b64_digit;
    by rewrite ?nth_ascii, ?IH by by vm_compute.
Qed.
Lemma hex_ascii s : Tokens.ascii_text (hex_EncodeToString s).
Proof.
  unfold Tokens.ascii_text, hex_EncodeToString. rewrite bytes_of_bytes.
  induction (bytes s) as [|a l IH]; [done|]. cbn [hex_encode forallb]. rewrite IH. unfold hex_digit.
  by rewrite !nth_ascii by by vm_compute.
Qed.
Lemma csrf_accepts token s : token <> "" -> as_CSRFHash s = csrf_hash token -> csrf_ok token s = true.
Proof.
  intros Hne Hs. unfold csrf_ok. rewrite Hs. unfold csrf_hash. rewrite hex_roundtrip, bool_decide_false, bool_decide_true by done.
  unfold sha256. by rewrite len_bytes, bytes_of_bytes, length_map, sha256_bytes_length.
Qed.

(** ** A record as it was written *)

Definition plain_texts (s : AdminSession) : Prop :=
  coerce (as_ID s) = as_ID s /\ coerce (as_UserID s) = as_UserID s /\ coerce (as_Email s) = as_Email s
  /\ coerce (as_Role s) = as_Role s /\ coerce (as_CSRFHash s) = as_CSRFHash s.
Definition full_texts (s : AdminSession) : Prop :=
  validKeyPart (as_ID s) = true /\ as_UserID s <> "" /\ as_Email s <> "" /\ known_role (as_Role s) = true /\ as_CSRFHash s <> "".
(** Its times in microseconds, in order. *)
Definition ordered (s : AdminSession) : Prop :=
  0 < UnixMicro (as_IssuedAt s) <= UnixMicro (as_LastSeenAt s) /\ UnixMicro (as_LastSeenAt s) < UnixMicro (as_IdleExpiresAt s)
  /\ UnixMicro (as_IdleExpiresAt s) <= UnixMicro (as_ExpiresAt s) < 2 ^ 63.
Lemma micro_nonneg t : 0 < UnixMicro t -> 0 <= t.
Proof. unfold UnixMicro. intros Ht. pose proof (Z.div_mod t 1000). pose proof (Z.mod_pos_bound t 1000). lia. Qed.
Lemma fixed_field t : 0 < UnixMicro t -> marshal (fixedWidthUnixMicro t) = FString (fixedWidthUnixMicro t).
Proof. intros Ht. eapply marshal_text, fixed_text. by apply micro_nonneg. Qed.
Lemma fixed_number t : 0 < UnixMicro t -> tonumber (fixedWidthUnixMicro t) = Some (UnixMicro t).
Proof. intros Ht. apply tonumber_text, fixed_text. by apply micro_nonneg. Qed.
Lemma parse_time s z : digit_text s z -> 0 < z < 2 ^ 63 -> parseSessionTime s = Some (z * Microsecond).
Proof. intros Ht Hz. unfold parseSessionTime. rewrite (parse_text _ _ Ht) by lia. by assert ((z <=? 0) = false) as -> by lia. Qed.
Ltac fields s :=
  change (encodeAdminSession s !! "version") with (Some (FNumber 2)); change (encodeAdminSession s !! "id") with (Some (marshal (as_ID s)));
  change (encodeAdminSession s !! "user_id") with (Some (marshal (as_UserID s)));
  change (encodeAdminSession s !! "email") with (Some (marshal (as_Email s)));
  change (encodeAdminSession s !! "role") with (Some (marshal (as_Role s)));
  change (encodeAdminSession s !! "csrf_hash") with (Some (marshal (as_CSRFHash s)));
  change (encodeAdminSession s !! "issued_at_us") with (Some (marshal (fixedWidthUnixMicro (as_IssuedAt s))));
  change (encodeAdminSession s !! "last_seen_at_us") with (Some (marshal (fixedWidthUnixMicro (as_LastSeenAt s))));
  change (encodeAdminSession s !! "idle_expires_at_us") with (Some (marshal (fixedWidthUnixMicro (as_IdleExpiresAt s))));
  change (encodeAdminSession s !! "expires_at_us") with (Some (marshal (fixedWidthUnixMicro (as_ExpiresAt s)))).
Lemma encode_shape s : plain_texts s -> full_texts s -> record_shape (encodeAdminSession s) (as_ID s) = true.
Proof.
  intros (P1 & P2 & P3 & P4 & P5) (_ & F2 & F3 & F4 & F5). unfold record_shape, filled, present, is_field. fields s.
  unfold marshal. rewrite P1, P2, P3, P4, P5. unfold known_role in F4.
  rewrite !(bool_decide_true (Some _ = Some (FString (as_ID s)))), bool_decide_true by done.
  rewrite (bool_decide_false (_ = Some (FString ""))) by congruence. rewrite (bool_decide_false (Some (FString (as_Email s)) = _)) by congruence.
  rewrite (bool_decide_false (Some (FString (as_CSRFHash s)) = _)) by congruence. cbn [andb negb]. rewrite !andb_true_r.
  apply orb_true_iff in F4 as [->%bool_decide_eq_true| ->%bool_decide_eq_true]; done.
Qed.
Lemma encode_times s : ordered s -> record_times (encodeAdminSession s) = Some (UnixMicro (as_IdleExpiresAt s), UnixMicro (as_ExpiresAt s)).
Proof.
  intros (H1 & H2 & H3). unfold record_times, lua_number. fields s. rewrite !fixed_field by lia. rewrite !fixed_number by lia.
  cbn [mbind option_bind]. by destruct (_ || _) eqn:E; [lia|].
Qed.
Lemma touched_fields t next fs name :
  touched t next fs !! name = if decide (name = "idle_expires_at_us") then Some (FString (decimal next))
                              else if decide (name = "last_seen_at_us") then Some (FString (decimal t)) else fs !! name.
Proof.
  unfold touched. destruct (decide (name = "idle_expires_at_us")) as [->|H1]; [by rewrite lookup_insert_eq|].
  rewrite lookup_insert_ne by done. destruct (decide (name = "last_seen_at_us")) as [->|H2]; [by rewrite lookup_insert_eq|].
  by rewrite lookup_insert_ne.
Qed.
Lemma decode_touched s t next :
  plain_texts s -> full_texts s -> ordered s -> UnixMicro (as_IssuedAt s) <= t -> t < next -> next <= UnixMicro (as_ExpiresAt s) ->
  decodeAdminSession (touched t next (encodeAdminSession s)) (as_ID s)
  = Some (mkAdminSession (as_ID s) (as_UserID s) (as_Email s) (as_Role s) (as_CSRFHash s)
      (UnixMicro (as_IssuedAt s) * Microsecond) (t * Microsecond) (next * Microsecond) (UnixMicro (as_ExpiresAt s) * Microsecond)).
Proof.
  intros (P1 & P2 & P3 & P4 & P5) (F1 & F2 & F3 & F4 & F5) (H1 & H2 & H3) Ht Hn He. unfold decodeAdminSession, go_string, go_number.
  rewrite !touched_fields. repeat first [rewrite decide_False by done|rewrite decide_True by done]. fields s. rewrite !fixed_field by lia.
  unfold marshal. rewrite P1, P2, P3, P4, P5. cbn [mbind option_bind].
  rewrite (bool_decide_true (as_ID s = as_ID s)) by done. rewrite (bool_decide_false _ F2), (bool_decide_false _ F3), (bool_decide_false _ F5), F4.
  change (2 =? 2) with true. cbn [negb orb].
  rewrite (parse_time (fixedWidthUnixMicro (as_IssuedAt s)) (UnixMicro (as_IssuedAt s))) by ((apply fixed_text, micro_nonneg; lia) || lia).
  rewrite (parse_time (decimal t) t), (parse_time (decimal next) next) by ((apply decimal_text; lia) || lia).
  rewrite (parse_time (fixedWidthUnixMicro (as_ExpiresAt s)) (UnixMicro (as_ExpiresAt s))) by ((apply fixed_text, micro_nonneg; lia) || lia).
  cbn [mbind option_bind]. cbv zeta. unfold validAdminSession.
  cbn [as_ID as_UserID as_Email as_Role as_CSRFHash as_IssuedAt as_LastSeenAt as_IdleExpiresAt as_ExpiresAt].
  rewrite F1, F4, (bool_decide_false _ F2), (bool_decide_false _ F3), (bool_decide_false _ F5). unfold IsZero, zero_time, Microsecond, Second, Millisecond.
  match goal with |- (if ?b then _ else _) = _ => assert (b = true) as ->; [|done] end.
  unfold Microsecond. cbn [negb andb]. lia.
Qed.

(** ** Sessions over time *)

Section system.
Context (keys : Keyspace) (cancelled : bool).

(** Which database, and which sessions calls of [Refresh] have read and not yet put. *)
Abbreviation state := (RedisDB * list AdminSession)%type.
(** Steps of anyone that do not create a session with the identifier [id]. *)
Inductive session_step (id : string) : state -> state -> Prop :=
| ss_put now until s w reads : as_ID s <> id ->
    session_step id (w_db w, reads) (w_db (Put keys cancelled now until s w).2, reads)
| ss_touch now i service_now ttl w reads :
    session_step id (w_db w, reads) (w_db (ValidateAndTouch keys cancelled now i service_now ttl w).2, reads)
| ss_get now i w s w' reads : Get keys cancelled now i w = (Ok s, w') -> session_step id (w_db w, reads) (w_db w', s :: reads)
| ss_get_fails now i w e w' reads : Get keys cancelled now i w = (Err e, w') -> session_step id (w_db w, reads) (w_db w', reads)
| ss_refresh now until service_now csrf s w reads : s ∈ reads ->
    session_step id (w_db w, reads) (w_db (Put keys cancelled now until (refreshed service_now csrf s) w).2, reads)
| ss_delete key db reads : session_step id (db, reads) (delete key db, reads)
| ss_other key db db' reads : Keys.AdminSession keys id = Some key -> db' !! key = db !! key ->
    session_step id (db, reads) (db', reads).

Lemma session_key_inj i j key : Keys.AdminSession keys i = Some key -> Keys.AdminSession keys j = Some key -> i = j.
Proof.
  intros H H'. destruct (key_parts_inj keys (KAdminSession i) (KAdminSession j) key H H') as [He _]. by apply string_app_inj in He.
Qed.

Lemma decode_id fs i s : decodeAdminSession fs i = Some s -> as_ID s = i.
Proof.
  intros Hd. unfold decodeAdminSession in Hd. repeat (apply bind_Some in Hd as (? & _ & Hd)). destruct (_ || _) eqn:E in Hd; [done|].
  rewrite !orb_false_iff in E. destruct E as [[[[[_ E] _] _] _] _]. apply negb_false_iff, bool_decide_eq_true in E.
  repeat (apply bind_Some in Hd as (? & _ & Hd)). destruct (validAdminSession _); [|done]. by injection Hd as <-.
Qed.
Lemma read_db now k w r w1 :
  read cancelled now k w = (r, w1) -> w_db w1 = w_db w /\ forall p, r = Ok p -> GET now k (w_db w) = Ok p.
Proof.
  unfold read. intros Hc. set (f := fun db => match GET now k db with Ok p => Ok (p, db) | Err e => Err e end) in *.
  assert (w_db w1 = w_db w) as Hdb.
  { destruct (call_db cancelled f w) as [E|[a E]]; rewrite Hc in E; cbn in E; [done|]. unfold f in E.
    destruct (GET now k (w_db w)); [|done]. by injection E as _ <-. }
  split; [done|]. intros p ->. apply call_ok in Hc. unfold f in Hc. destruct (GET now k (w_db w)); [|done]. by injection Hc as ->.
Qed.
(** [Get] leaves the database or deletes a key, and gives what it decoded. *)
Lemma get_cases now i w r w' :
  Get keys cancelled now i w = (r, w') ->
  (w_db w' = w_db w \/ exists k, w_db w' = delete k (w_db w))
  /\ forall s, r = Ok s -> as_ID s = i /\ exists k fs, Keys.AdminSession keys i = Some k
       /\ GET now k (w_db w) = Ok (Some (PObject fs)) /\ decodeAdminSession fs i = Some s.
Proof.
  unfold Get. destruct (Keys.AdminSession keys i) as [k|]; [|intros [= <- <-]; split; [by left|done]]. cbn [key_or].
  unfold mbind, M_bind. destruct (read cancelled now k w) as [[p|e] w1] eqn:Hc; apply read_db in Hc as [Hdb Hp];
    [|intros [= <- <-]; split; [by left|done]]. destruct p as [p|]; [|intros [= <- <-]; split; [by left|done]].
  destruct (match p with PObject fs => decodeAdminSession fs i | PText _ => None end) as [s|] eqn:Hd.
  - intros [= <- <-]. split; [by left|]. intros s' [= <-]. destruct p as [fs|]; [|done].
    split; [by eapply decode_id|]. exists k, fs. auto.
  - unfold DELs. destruct (call false _ w1) as [r' w2] eqn:Hc2. intros Hr.
    assert (w' = w2 /\ forall s, r <> Ok s) as [-> Hne] by (destruct r'; by injection Hr as <- <-).
    split; [|by intros s ->; destruct (Hne s)]. destruct (call_db false (fun db => Ok (tt, DEL k db)) w1) as [E|[u E]]; rewrite Hc2 in E; cbn in E;
      [left; congruence|right]. injection E as _ <-. exists k. by rewrite Hdb.
Qed.

Section one.
Context (id key : string) (x : identity).
Context (Hkey : Keys.AdminSession keys id = Some key) (Hsane : sane x).

Definition stored (db : RedisDB) : Prop :=
  forall e, db !! key = Some e -> exists fs, en_value e = VString (PObject fs) /\ about x fs.
Definition reads_ok (reads : list AdminSession) : Prop :=
  forall s, s ∈ reads -> as_ID s = id -> identity_of s = x /\ 0 <= as_ExpiresAt s.

Lemma stored_insert db k e :
  stored db -> (k = key -> exists fs, en_value e = VString (PObject fs) /\ about x fs) -> stored (<[k := e]> db).
Proof.
  intros Hs He e' Hl. destruct (decide (k = key)) as [->|Hne]; [rewrite lookup_insert_eq in Hl; injection Hl as <-; auto|].
  rewrite lookup_insert_ne in Hl by done. auto.
Qed.
Lemma stored_delete db k : stored db -> stored (delete k db).
Proof. intros Hs e He. apply lookup_delete_Some in He as [_ He]. auto. Qed.
Lemma stored_get now db p : stored db -> GET now key db = Ok (Some p) -> exists fs, p = PObject fs /\ about x fs.
Proof.
  intros Hs. unfold GET, peek. destruct (db !! key) as [e|] eqn:E; [|done]. destruct (alive now e); [|done].
  destruct (Hs e E) as (fs & Hv & Ha). destruct e as [v t]. cbn in Hv. subst. intros [= <-]. eauto.
Qed.

Lemma put_stored now until s :
  (as_ID s = id -> identity_of s = x /\ 0 <= as_ExpiresAt s) -> keeps stored (Put keys cancelled now until s).
Proof using Hkey Hsane.
  intros Hid. unfold Put. apply keeps_key. intros k Hk. destruct (negb _); [apply keep_fail|]. cbn zeta.
  destruct (_ <=? 0); [apply keep_fail|]. apply keeps_call. intros db u db' Hs. unfold SET_PX. destruct (_ <=? 0); [done|].
  intros [= _ <-]. apply stored_insert; [done|]. intros ->. destruct Hid as [<- He]; [by eapply session_key_inj|].
  eexists. split; [done|]. by apply encode_about.
Qed.
Lemma touch_script_stored now k i ttl db r db' :
  stored db -> validateAndTouchSessionScript now k i ttl db = Ok (r, db') -> stored db'.
Proof.
  intros Hs. unfold validateAndTouchSessionScript. destruct (GET now k db) as [[[fs|t]|]|] eqn:Hg; try done;
    try (intros [= _ <-]; by (apply stored_delete || idtac)).
  destruct (negb _); [intros [= _ <-]; by apply stored_delete|].
  destruct (record_times fs) as [[idle expires]|]; [|intros [= _ <-]; by apply stored_delete].
  destruct (_ || _); [intros [= _ <-]; by apply stored_delete|]. unfold SET_PX. destruct (_ <=? 0); [done|].
  intros [= _ <-]. apply stored_insert; [done|]. intros ->. destruct (stored_get _ _ _ Hs Hg) as (fs' & [= <-] & Ha).
  eexists. split; [done|]. by apply touched_about.
Qed.
Lemma touch_stored now i service_now ttl : keeps stored (ValidateAndTouch keys cancelled now i service_now ttl).
Proof.
  unfold ValidateAndTouch. apply keeps_key. intros k _. destruct (_ || _); [apply keep_fail|]. apply keep_bind.
  - apply keeps_call. intros db r db' Hs Hr. by eapply touch_script_stored.
  - intros [status fs] w Hw. by repeat case_match.
Qed.
Lemma get_stored now i w r w' :
  stored (w_db w) -> Get keys cancelled now i w = (r, w') ->
  stored (w_db w') /\ forall s, r = Ok s -> as_ID s = i /\ (i = id -> identity_of s = x /\ 0 <= as_ExpiresAt s).
Proof using Hkey Hsane.
  intros Hs [Hdb Hok]%get_cases. split; [destruct Hdb as [-> |[k ->]]; [done|by apply stored_delete]|].
  intros s Hr. destruct (Hok s Hr) as (Hi & k & fs & Hk & Hg & Hd). split; [done|]. intros ->.
  assert (k = key) as -> by congruence. destruct (stored_get _ _ _ Hs Hg) as (fs' & [= <-] & Ha). by eapply read_identity.
Qed.

Lemma session_step_stored st st' : session_step id st st' -> stored st.1 -> reads_ok st.2 -> stored st'.1 /\ reads_ok st'.2.
Proof using Hkey Hsane.
  intros Hstep Hs Hr. destruct Hstep as [now until s w reads Hne|now i sn ttl w reads|now i w s w' reads Hg|now i w e w' reads Hg
    |now until sn csrf s w reads Hin|k db reads|k db db' reads Hk He]; cbn in *.
  - split; [|done]. by apply put_stored.
  - split; [|done]. by apply touch_stored.
  - destruct (get_stored _ _ _ _ _ Hs Hg) as [Hs' Hread]. split; [done|]. destruct (Hread s eq_refl) as [Hi Hx].
    intros s' [->|Hin]%elem_of_cons Hid; [apply Hx; congruence|by apply Hr].
  - by destruct (get_stored _ _ _ _ _ Hs Hg).
  - split; [|done]. apply put_stored; [|done]. intros Hid. by apply (Hr s).
  - split; [by apply stored_delete|done].
  - split; [|done]. rewrite Hkey in Hk. injection Hk as <-. intros e He'. rewrite He in He'. auto.
Qed.
Lemma session_run_stored st st' : rtc (session_step id) st st' -> stored st.1 -> reads_ok st.2 -> stored st'.1 /\ reads_ok st'.2.
Proof using Hkey Hsane.
  induction 1 as [|st1 st2 st3 Hs _ IH]; [done|]. intros H1 H2. destruct (session_step_stored _ _ Hs H1 H2). auto.
Qed.

(** Whoever is let in is the user of the record, before its end. *)
Lemma touch_script_ok now i ttl db status fs db' :
  validateAndTouchSessionScript now key i ttl db = Ok ((status, fs), db') -> status <> 0 -> status <> -2 -> stored db ->
  now < id_end x /\ about x fs.
Proof.
  intros Hrun H0 H2 Hs. unfold validateAndTouchSessionScript in Hrun.
  destruct (GET now key db) as [[[fs0|t]|]|] eqn:Hg; try done; try (injection Hrun as <- <- <-; done).
  destruct (stored_get _ _ _ Hs Hg) as (fs' & [= <-] & Ha). destruct (negb _); [by injection Hrun as <- <- <-|].
  destruct (record_times fs0) as [[idle expires]|] eqn:Ht; [|by injection Hrun as <- <- <-].
  destruct (_ || _) eqn:Hc; [by injection Hrun as <- <- <-|]. destruct (SET_PX _ _ _ _ _); [|done].
  injection Hrun as <- <- <-. split; [|by apply touched_about]. destruct Ha as (_ & _ & _ & t & Hx & Htext).
  unfold record_times in Ht. do 3 (apply bind_Some in Ht as (? & _ & Ht)). unfold lua_number in Ht. rewrite Hx in Ht.
  rewrite (tonumber_text _ _ Htext) in Ht. cbn [mbind option_bind] in Ht. destruct (_ || _) eqn:E in Ht; [done|]. injection Ht as -> <-. lia.
Qed.
Lemma session_lets_in now sn csrf mutate w p w' :
  stored (w_db w) -> Authenticate keys cancelled now sn id csrf mutate w = (Ok p, w') ->
  now < id_end x /\ p = mkAdminPrincipal (id_user x) (id_email x) (id_role x).
Proof using Hkey Hsane.
  intros Hs. unfold Authenticate. destruct (bool_decide (id = "")); [done|]. intros Hrun.
  apply bind_ok in Hrun as (s & w1 & Ht & Hp). assert (p = principal s) as ->.
  { destruct (negb mutate); [|destruct (csrf_ok csrf s); [|done]]; by injection Hp as <- _. }
  unfold on_error in Ht. destruct (ValidateAndTouch _ _ _ _ _ _ w) as [[s'|] w2] eqn:Hv; [|done]. injection Ht as -> ->.
  unfold ValidateAndTouch in Hv. rewrite Hkey in Hv. cbn [key_or] in Hv. destruct (_ || _ || _); [done|].
  apply bind_ok in Hv as ([status fs] & w3 & Hc & Hd). apply call_ok in Hc. destruct (status =? 0) eqn:E0; [done|].
  destruct (status =? -2) eqn:E2; [done|]. destruct (decodeAdminSession fs id) as [s'|] eqn:Hdec; [|done]. apply ret_ok in Hd as [-> _].
  apply touch_script_ok in Hc as [Hnow Ha]; [|lia|lia|done]. split; [done|]. by destruct (decode_about _ _ _ _ Ha Hsane Hdec) as (_ & -> & _).
Qed.
End one.

Lemma put_ok now until s w w' :
  Put keys cancelled now until s w = (Ok tt, w') ->
  exists key, Keys.AdminSession keys (as_ID s) = Some key /\ validAdminSession s = true
    /\ w_db w' = <[key := mkEntry (VString (PObject (encodeAdminSession s)))
                    (Some (ms now + px (Z.min (as_ExpiresAt s) (as_IdleExpiresAt s) - until)))]> (w_db w).
Proof.
  unfold Put. destruct (Keys.AdminSession keys (as_ID s)) as [key|]; [|done]. cbn [key_or].
  destruct (validAdminSession s); [|done]. cbn [negb]. cbn zeta.
  assert ((if as_ExpiresAt s <? as_IdleExpiresAt s then as_ExpiresAt s else as_IdleExpiresAt s) = Z.min (as_ExpiresAt s) (as_IdleExpiresAt s))
    as -> by (case_match; lia).
  destruct (_ <=? 0); [done|]. intros Hc%call_ok. unfold SET_PX in Hc. destruct (_ <=? 0); [done|]. injection Hc as Hc. eauto.
Qed.
Lemma exchange_ok user now server until r1 r2 w id csrf exp p w' :
  Exchange keys cancelled user now server until r1 r2 w = (Ok (id, csrf, exp, p), w') ->
  exists u v, user = Ok u /\ let s := new_session now v csrf u in
    id = as_ID s /\ exp = as_ExpiresAt s /\ p = principal s /\ Put keys cancelled server until s w = (Ok tt, w').
Proof.
  unfold Exchange. destruct user as [u|]; [|done]. destruct (_ || _); [done|]. intros Hrun.
  apply bind_ok in Hrun as (v & w1 & Hv & Hrun). apply bind_ok in Hrun as (c & w2 & Hc & Hrun).
  apply bind_ok in Hrun as ([] & w3 & Hput & [Heq <-]%ret_ok). injection Heq as E1 E2 E3 E4. subst csrf.
  destruct r1; [|done]. apply ret_ok in Hv as [_ <-]. destruct r2; [|done]. apply ret_ok in Hc as [_ <-]. exists u, v. cbn zeta. by split_and!.
Qed.

(** C30: a session lets in only the user it was made for and only before its end, twelve
    hours after it was made: no use of it, no refresh, and nothing that happens to other
    sessions or other keys prolongs it or changes whom it is for. *)
Theorem session_lifetime user now server until r1 r2 w id csrf exp p w1 reads db reads' t sn token mutate locked p' w' :
  0 <= now < 2 ^ 63 -> Exchange keys cancelled user now server until r1 r2 w = (Ok (id, csrf, exp, p), w1) ->
  (forall s, s ∈ reads -> as_ID s <> id) -> rtc (session_step id) (w_db w1, reads) (db, reads') ->
  Authenticate keys cancelled t sn id token mutate (mkWorld db [] locked) = (Ok p', w') ->
  exp = now + 12 * Hour /\ t < UnixMicro exp
  /\ p' = mkAdminPrincipal (coerce (ap_ID p)) (coerce (ap_Email p)) (coerce (ap_Role p)).
Proof.
  intros Hnow He Hreads Hrun Hauth. apply exchange_ok in He as (u & v & _ & -> & -> & -> & Hput). cbn zeta in *.
  set (s := new_session now v csrf u) in *. apply put_ok in Hput as (key & Hkey & _ & Hdb).
  assert (0 <= as_ExpiresAt s < 2 ^ 64) as Hexp by (cbn; unfold adminSessionAbsoluteTTL, Hour, Minute, Second, Millisecond, Microsecond; lia).
  assert (sane (identity_of s)) as Hsane.
  { unfold sane, identity_of. cbn [id_user id_email id_role id_end]. rewrite !coerce_twice. split_and!; try done.
    - unfold UnixMicro. apply Z.div_str_pos. cbn. unfold adminSessionAbsoluteTTL, Hour, Minute, Second, Millisecond, Microsecond; lia.
    - unfold UnixMicro. apply Z.div_lt_upper_bound; lia. }
  assert (stored key (identity_of s) db) as Hs.
  { apply (session_run_stored (as_ID s) key (identity_of s) Hkey Hsane _ _ Hrun); cbn.
    - intros e Hl. rewrite Hdb, lookup_insert_eq in Hl. injection Hl as <-. eexists. split; [done|]. apply encode_about. lia.
    - intros s' Hin Hid. by destruct (Hreads s' Hin). }
  destruct (session_lets_in _ _ _ Hkey Hsane _ _ _ _ (mkWorld db [] locked) _ _ Hs Hauth) as [Ht ->]. split; [done|]. done.
Qed.

(** The session a user has just been given lets that user in, changes allowed with the
    token that came with it and only with it, for as long as the server keeps it and half an hour
    has not passed, when the clock of the server is not behind that of the service. *)
Theorem exchange_authenticates u now server until r1 r2 w id csrf exp p w1 t sn token locked :
  0 < UnixMicro now -> now < 2 ^ 63 -> Exchange keys cancelled (Ok u) now server until r1 r2 w = (Ok (id, csrf, exp, p), w1) ->
  coerce (au_ID u) = au_ID u -> coerce (au_Email u) = au_Email u -> csrf <> "" -> sn <> zero_time ->
  UnixMicro now <= t < UnixMicro (now + 30 * Minute) -> ms t <= ms server + px (now + 30 * Minute - until) ->
  let w2 := mkWorld (w_db w1) [] locked in
  (Authenticate keys cancelled t sn id csrf true w2).1 = Ok p /\ (Authenticate keys cancelled t sn id token false w2).1 = Ok p
  /\ (sha256 token <> sha256 csrf -> (Authenticate keys cancelled t sn id token true w2).1 = Err ErrForbidden).
Proof.
  intros Hnow Hlt He Hu Hm Hcsrf Hsn Ht Httl w2.
  pose proof He as Hrole. unfold Exchange in Hrole. destruct (negb (au_Enabled u) || negb (known_role (au_Role u))) eqn:Hk; [done|].
  apply orb_false_iff in Hk as [_ Hk%negb_false_iff]. clear Hrole. assert (exists r, "ras_" +:+ b64_EncodeToString r = id) as [r Hr].
  { unfold Exchange in He. rewrite Hk in He. destruct (negb (au_Enabled u)); [done|]. cbn [negb orb] in He. destruct r1 as [r|]; [|done].
    destruct r2 as [r2|]; [|done]. exists r. apply bind_ok in He as (v & w3 & [<- <-]%ret_ok & He).
    apply bind_ok in He as (c & w4 & _ & He). apply bind_ok in He as (? & w5 & _ & [[=] _]%ret_ok). done. }
  apply exchange_ok in He as (u' & v & [= <-] & Hid & -> & -> & Hput). cbn zeta in *.
  set (s := new_session now v csrf u) in *. apply put_ok in Hput as (key & Hkey & Hval & Hdb).
  assert (Z.min (as_ExpiresAt s) (as_IdleExpiresAt s) = now + 30 * Minute) as Hmin.
  { cbn. unfold adminSessionAbsoluteTTL, adminSessionIdleTTL, Hour, Minute, Second, Millisecond, Microsecond. lia. }
  rewrite Hmin in Hdb.
  assert (plain_texts s) as Hplain.
  { unfold plain_texts. rewrite <- Hid, <- Hr. split_and!; try done.
    - apply Tokens.ascii_coerce. unfold Tokens.ascii_text. rewrite bytes_app, forallb_app, (b64_ascii r). done.
    - cbn. unfold known_role in Hk. by apply orb_true_iff in Hk as [->%bool_decide_eq_true| ->%bool_decide_eq_true].
    - apply Tokens.ascii_coerce, hex_ascii. }
  assert (full_texts s) as Hfull.
  { unfold validAdminSession in Hval. rewrite !andb_true_iff, !negb_true_iff in Hval.
    destruct Hval as [[[[[[[[V1 V2] V3] V4] V5] _] _] _] _]. by apply bool_decide_eq_false in V2, V3, V5. }
  assert (ordered s) as Hord.
  { unfold ordered, s, new_session. cbn. unfold adminSessionAbsoluteTTL, adminSessionIdleTTL, Hour, Minute, Second, Millisecond, Microsecond.
    unfold UnixMicro in *. Z.to_euclidean_division_equations; lia. }
  assert (forall token' mutate, (Authenticate keys cancelled t sn id token' mutate w2).1
    = if negb mutate then Ok (principal s) else if csrf_ok token' s then Ok (principal s) else Err ErrForbidden) as Hauth.
  { intros token' mutate. unfold Authenticate. rewrite (bool_decide_false (id = "")) by (by rewrite <- Hr).
    unfold ValidateAndTouch. rewrite Hid, Hkey. cbn [key_or]. unfold IsZero. assert ((sn =? zero_time) = false) as -> by lia.
    change (adminSessionIdleTTL <=? 0) with false. change (24 * Hour <? adminSessionIdleTTL) with false. cbn [orb].
    unfold mbind, M_bind, on_error. rewrite call_run by done. cbn [w_db w2]. unfold validateAndTouchSessionScript.
    rewrite (get_alive t key _ (PObject (encodeAdminSession s)) (ms server + px (now + 30 * Minute - until))) by (done || by rewrite Hdb, lookup_insert_eq).
    rewrite encode_shape, encode_times by done. cbn [negb]. destruct Hord as (O1 & O2 & O3).
    change (UnixMicro (as_IssuedAt s)) with (UnixMicro now) in *.
    change (UnixMicro (as_IdleExpiresAt s)) with (UnixMicro (now + 30 * Minute)) in *.
    assert ((UnixMicro (now + 30 * Minute) <=? t) || (UnixMicro (as_ExpiresAt s) <=? t) = false) as -> by lia.
    set (next := Z.min (t + adminSessionIdleTTL `quot` Millisecond * 1000) (UnixMicro (as_ExpiresAt s))).
    assert (t < next <= UnixMicro (as_ExpiresAt s)) as Hnext.
    { assert (0 < adminSessionIdleTTL `quot` Millisecond * 1000) by reflexivity. unfold next. lia. }
    unfold SET_PX. assert ((Z.max 1 (ceil_ms (next - t)) <=? 0) = false) as -> by lia. cbn [Z.eqb].
    rewrite decode_touched by (done || (change (UnixMicro (as_IssuedAt s)) with (UnixMicro now); lia) || (repeat split; done)).
    unfold mret, M_ret. cbv beta iota. destruct mutate; cbn [negb]; [|reflexivity].
    match goal with |- context [csrf_ok token' ?y] => change (csrf_ok token' y) with (csrf_ok token' s) end.
    by destruct (csrf_ok token' s). }
  rewrite !Hauth. rewrite csrf_accepts by done. split_and!; [done|done|]. intros Hne. unfold csrf_ok.
  cbn [as_CSRFHash s new_session negb]. unfold csrf_hash. rewrite hex_roundtrip. rewrite (bool_decide_false _ Hne). by rewrite andb_false_r.
Qed.

(** ** Ending a session *)

Section ended.
Context (id key : string) (Hkey : Keys.AdminSession keys id = Some key).
Definition gone (db : RedisDB) : Prop := db !! key = None.

Lemma gone_get now db : gone db -> GET now key db = Ok None.
Proof. intros Hg. unfold GET, peek. by rewrite Hg. Qed.
Lemma gone_insert db k e : gone db -> k <> key -> gone (<[k := e]> db).
Proof. intros Hg Hne. unfold gone. by rewrite lookup_insert_ne. Qed.
Lemma gone_delete db k : gone db -> gone (delete k db).
Proof. intros Hg. unfold gone. by rewrite lookup_delete_None; right. Qed.
Lemma put_gone now until s : as_ID s <> id -> keeps gone (Put keys cancelled now until s).
Proof using Hkey.
  intros Hne. unfold Put. apply keeps_key. intros k Hk. destruct (negb _); [apply keep_fail|]. cbn zeta.
  destruct (_ <=? 0); [apply keep_fail|]. apply keeps_call. intros db u db' Hg. unfold SET_PX. destruct (_ <=? 0); [done|].
  intros [= _ <-]. apply gone_insert; [done|]. intros ->. apply Hne. by eapply session_key_inj.
Qed.
Lemma touch_gone now i sn ttl : keeps gone (ValidateAndTouch keys cancelled now i sn ttl).
Proof.
  unfold ValidateAndTouch. apply keeps_key. intros k Hk. destruct (_ || _); [apply keep_fail|]. apply keep_bind.
  - apply keeps_call. intros db r db' Hg. unfold validateAndTouchSessionScript.
    destruct (decide (k = key)) as [->|Hne]; [rewrite gone_get by done; by intros [= _ <-]|].
    repeat case_match; try done; intros [= _ <-]; try done; try (by apply gone_delete).
    unfold SET_PX in *. destruct (_ <=? 0); [done|]. simplify_eq. by apply gone_insert.
  - intros [status fs] w Hw. by repeat case_match.
Qed.
Lemma get_gone now i w r w' :
  gone (w_db w) -> Get keys cancelled now i w = (r, w') -> gone (w_db w') /\ forall s, r = Ok s -> as_ID s <> id.
Proof using Hkey.
  intros Hg [Hdb Hok]%get_cases. split; [destruct Hdb as [-> |[k ->]]; [done|by apply gone_delete]|].
  intros s Hr Hid. destruct (Hok s Hr) as (Hi & k & fs & Hk & Hget & _). assert (k = key) as -> by congruence.
  by rewrite gone_get in Hget.
Qed.

Lemma ended_step st st' :
  session_step id st st' -> gone st.1 -> (forall s, s ∈ st.2 -> as_ID s <> id) ->
  gone st'.1 /\ forall s, s ∈ st'.2 -> as_ID s <> id.
Proof using Hkey.
  intros Hstep Hg Hr. destruct Hstep as [now until s w reads Hne|now i sn ttl w reads|now i w s w' reads He|now i w e w' reads He
    |now until sn csrf s w reads Hin|k db reads|k db db' reads Hk He]; cbn in *.
  - split; [by apply put_gone|done].
  - split; [by apply touch_gone|done].
  - destruct (get_gone _ _ _ _ _ Hg He) as [Hg' Hne]. split; [done|]. intros s' [->|Hin]%elem_of_cons; auto.
  - destruct (get_gone _ _ _ _ _ Hg He) as [Hg' _]. done.
  - split; [|done]. apply put_gone; [|done]. by apply (Hr s).
  - split; [by apply gone_delete|done].
  - split; [|done]. assert (k = key) as -> by congruence. unfold gone. by rewrite He.
Qed.
End ended.

(** A session that was logged out or revoked lets nobody in again, provided no refresh
    of it was under way at that moment. *)
Theorem session_logout_final id w w1 reads db reads' t sn token mutate locked :
  Logout keys cancelled id w = (Ok tt, w1) -> (forall s, s ∈ reads -> as_ID s <> id) ->
  rtc (session_step id) (w_db w1, reads) (db, reads') -> sn <> zero_time ->
  Authenticate keys cancelled t sn id token mutate (mkWorld db [] locked) = (Err ErrUnauthorized, mkWorld db [] locked).
Proof.
  intros Hout Hreads Hrun Hsn. unfold Logout in Hout. destruct (bool_decide (id = "")) eqn:Hid; [done|].
  assert (exists key, Keys.AdminSession keys id = Some key /\ gone key (w_db w1)) as (key & Hkey & Hg).
  { unfold on_error, Delete in Hout. destruct (Keys.AdminSession keys id) as [key|]; [|done]. cbn [key_or] in Hout.
    destruct (call _ _ w) as [[[]|e] w2] eqn:Hc.
    - injection Hout as <-. exists key. split; [done|]. apply call_ok in Hc. injection Hc as <-. apply lookup_delete_eq.
    - unfold call, on_error in Hc. destruct (exec _ w) as [[]]; [done|]. injection Hc as <- <-. by destruct cancelled. }
  assert (gone key db) as Hdb.
  { remember (w_db w1, reads) as st eqn:E1. remember (db, reads') as st' eqn:E2.
    assert (gone key st.1 /\ forall s, s ∈ st.2 -> as_ID s <> id) as [H1 H2] by by rewrite E1.
    assert (gone key st'.1) as H; [|by rewrite E2 in H]. clear -Hkey Hrun H1 H2.
    induction Hrun as [|st1 st2 st3 Hs _ IH]; [done|]. destruct (ended_step id key Hkey _ _ Hs H1 H2). auto. }
  unfold Authenticate. rewrite Hid. unfold ValidateAndTouch. rewrite Hkey. cbn [key_or]. unfold IsZero.
  assert ((sn =? zero_time) = false) as -> by lia. change (adminSessionIdleTTL <=? 0) with false. change (24 * Hour <? adminSessionIdleTTL) with false.
  cbn [orb]. unfold mbind, M_bind, on_error. rewrite call_run by done. cbn [w_db]. unfold validateAndTouchSessionScript.
  by rewrite (gone_get key) by done.
Qed.

(** ** Revoking the sessions of a user *)

(** The user has a record under the key that is alive at a time. *)
Definition has_session (t : Z) (user : string) (db : RedisDB) (key : string) : Prop :=
  exists p e, db !! key = Some (mkEntry (VString p) e) /\ record_user p = Some user /\ alive t (mkEntry (VString p) e) = true.
Definition no_new_session (t : Z) (user : string) (f : RedisDB -> RedisDB) : Prop :=
  forall db key, has_session t user (f db) key -> has_session t user db key.

Lemma read_no_session t user now k w p w1 :
  read cancelled now k w = (Ok p, w1) -> now <= t -> (forall q, p = Some q -> record_user q <> Some user) ->
  ~ has_session t user (w_db w1) k.
Proof.
  intros Hr Ht Hp (q & e & Hk & Hu & Ha). apply read_db in Hr as [Hdb Hg]. rewrite Hdb in Hk. specialize (Hg p eq_refl).
  assert (alive now (mkEntry (VString q) e) = true) as Hnow.
  { unfold alive in *. cbn in *. destruct e as [e|]; [|done]. unfold ms in *. assert (now `div` 1000 <= t `div` 1000) by (by apply Z.div_le_mono). lia. }
  unfold GET, peek in Hg. rewrite Hk, Hnow in Hg. injection Hg as <-. by destruct (Hp q).
Qed.
Lemma revoke_loop_spec t user found : forall w w',
  revoke_loop cancelled user found w = (Ok tt, w') ->
  (forall sc, sc ∈ found -> sc_now sc <= t /\ no_new_session t user (sc_before sc) /\ no_new_session t user (sc_between sc)) ->
  forall key, has_session t user (w_db w') key -> has_session t user (w_db w) key /\ key ∉ sc_key <$> found.
Proof.
  induction found as [|sc found IH]; intros w w' Hrun Hsc key Hh.
  { injection Hrun as <-. split; [done|apply not_elem_of_nil]. }
  destruct (Hsc sc ltac:(left)) as (Hnow & Hbefore & Hbetween). cbn [revoke_loop] in Hrun.
  apply bind_ok in Hrun as ([] & w1 & [= <-] & Hrun). apply bind_ok in Hrun as (p & w2 & Hread & Hrun).
  apply bind_ok in Hrun as ([] & w3 & Hdel & Hrun).
  destruct (IH w3 w' Hrun ltac:(intros sc' Hin; apply Hsc; by right) key Hh) as [Hh3 Hnot].
  assert (has_session t user (w_db w2) key /\ key <> sc_key sc) as [Hh2 Hne].
  { destruct p as [q|]; [destruct (bool_decide (record_user q = Some user)) eqn:Hu|].
    - apply bind_ok in Hdel as ([] & w4 & [= <-] & Hdel). apply call_ok in Hdel. injection Hdel as Hdel. rewrite <- Hdel in Hh3. unfold DEL in Hh3.
      assert (key <> sc_key sc) as Hne by (intros ->; destruct Hh3 as (q' & e & Hk & _); by rewrite lookup_delete_eq in Hk).
      split; [|done]. apply Hbetween. destruct Hh3 as (q' & e & Hk & Hx). exists q', e. by rewrite lookup_delete_ne in Hk by done.
    - apply bool_decide_eq_false in Hu. injection Hdel as <-. split; [done|]. intros ->.
      eapply read_no_session; [exact Hread|done|by intros q' [= <-]|done].
    - injection Hdel as <-. split; [done|]. intros ->. by eapply read_no_session. }
  apply read_db in Hread as [Hdb _]. rewrite Hdb in Hh2. cbn in Hh2. split; [by apply Hbefore|].
  rewrite fmap_cons, not_elem_of_cons. done.
Qed.
(** Revoking the sessions of a user that succeeds leaves none of them, provided [SCAN]
    gave every key that was there all along, and nobody made a new one meanwhile. *)
Theorem revocation_complete t user found scan_error w w' :
  RevokeUser keys cancelled found scan_error user w = (Ok tt, w') ->
  (forall sc, sc ∈ found -> sc_now sc <= t /\ no_new_session t user (sc_before sc) /\ no_new_session t user (sc_between sc)) ->
  (forall key, has_session t user (w_db w) key -> key ∈ sc_key <$> found) ->
  forall key, ~ has_session t user (w_db w') key.
Proof.
  intros Hrun Hsc Hall key Hh. unfold RevokeUser, RevokeAdminUserSessions in Hrun. destruct (bool_decide (user = "")); [done|].
  destruct (negb (valid keys)); [done|]. cbn [orb] in Hrun. apply bind_ok in Hrun as ([] & w1 & Hloop & Hrun).
  assert (w' = w1) as -> by (by destruct scan_error; [destruct cancelled|]; injection Hrun).
  destruct (revoke_loop_spec t user found w w1 Hloop Hsc key Hh) as [Hstart Hnot]. by apply Hnot, Hall.
Qed.
End system.

(** ** A session from login to logout *)

Definition demo_user : AdminUser := mkAdminUser "adm_1" "root@example.com" "admin" true 0 0.
Definition demo_now : Z := 1700000000 * Second.
Definition demo_us : Z := UnixMicro demo_now.
Abbreviation demo_login := (Exchange demo_keys false (Ok demo_user) demo_now demo_us demo_now (Some "0123456789abcdef") (Some "fedcba9876543210") (mkWorld ∅ [] ∅)).
Definition demo_id : string := Eval vm_compute in "ras_" ++ b64_EncodeToString "0123456789abcdef".
Definition demo_csrf : string := Eval vm_compute in b64_EncodeToString "fedcba9876543210".
Definition demo_principal : AdminPrincipal := mkAdminPrincipal "adm_1" "root@example.com" "admin".
Abbreviation demo_db := (w_db demo_login.2).
Lemma demo_login_ok : demo_login = (Ok (demo_id, demo_csrf, demo_now + 12 * Hour, demo_principal), demo_login.2).
Proof. apply run_pair. vm_compute. reflexivity. Qed.

Definition demo_later : Z := Eval vm_compute in demo_us + 60000000.
Abbreviation demo_use := (Authenticate demo_keys false demo_later demo_now demo_id "" false (mkWorld demo_db [] ∅)).
Lemma demo_use_ok : demo_use = (Ok demo_principal, demo_use.2).
Proof. apply run_pair. vm_compute. reflexivity. Qed.
Lemma demo_no_reads : forall s : AdminSession, s ∈ [] -> as_ID s <> demo_id.
Proof. intros s Hs. destruct (not_elem_of_nil s Hs). Qed.
Lemma demo_now_range : 0 <= demo_now < 2 ^ 63.
Proof. vm_compute. split; [discriminate|reflexivity]. Qed.
Lemma session_lifetime_witness : demo_later < UnixMicro (demo_now + 12 * Hour).
Proof.
  exact (proj1 (proj2 (session_lifetime demo_keys false _ _ _ _ _ _ _ _ _ _ _ _ _ _ _ _ _ _ _ _ _ _
    demo_now_range demo_login_ok demo_no_reads (rtc_refl _ (demo_db, [])) demo_use_ok))).
Defined.
Lemma exchange_authenticates_witness :
  (Authenticate demo_keys false (demo_us + 1000000) demo_now demo_id demo_csrf true (mkWorld demo_db [] ∅)).1 = Ok demo_principal.
Proof.
  refine (proj1 (exchange_authenticates demo_keys false demo_user demo_now demo_us demo_now (Some "0123456789abcdef") (Some "fedcba9876543210")
    (mkWorld ∅ [] ∅) demo_id demo_csrf _ demo_principal demo_login.2 (demo_us + 1000000) demo_now "" ∅ _ _ demo_login_ok _ _ _ _ _ _));
    try (vm_compute; reflexivity); try discriminate.
  vm_compute. split; [discriminate|reflexivity].
Defined.
Lemma demo_logout_ok : Logout demo_keys false demo_id (mkWorld demo_db [] ∅) = (Ok tt, mkWorld ∅ [] ∅).
Proof. vm_compute. reflexivity. Qed.
Lemma session_logout_final_witness :
  Authenticate demo_keys false (demo_us + 60000000) demo_now demo_id "" false (mkWorld ∅ [] ∅) = (Err ErrUnauthorized, mkWorld ∅ [] ∅).
Proof.
  apply (session_logout_final demo_keys false demo_id _ _ [] ∅ [] _ _ _ _ _ demo_logout_ok); [|apply rtc_refl|discriminate].
  intros s Hs. destruct (not_elem_of_nil s Hs).
Defined.

Definition demo_key : string := Eval vm_compute in default "" (Keys.AdminSession demo_keys demo_id).
Definition demo_record : entry :=
  mkEntry (VString (PObject (encodeAdminSession (new_session demo_now (b64_EncodeToString "0123456789abcdef") demo_csrf demo_user))))
    (Some (ms demo_us + px (30 * Minute))).
Definition demo_revoking : World RedisDB := mkWorld {[demo_key := demo_record]} [] ∅.
Lemma demo_only_session key : has_session demo_us "adm_1" (w_db demo_revoking) key -> key = demo_key.
Proof. intros (p & e & Hk & _). change (w_db demo_revoking) with ({[demo_key := demo_record]} : RedisDB) in Hk. apply lookup_singleton_Some in Hk as [Hk _]. symmetry. exact Hk. Qed.
Lemma revocation_complete_witness :
  has_session demo_us "adm_1" (w_db demo_revoking) demo_key
  /\ forall key, ~ has_session demo_us "adm_1"
       (w_db (RevokeUser demo_keys false [mkScanned demo_key id demo_us id] false "adm_1" demo_revoking).2) key.
Proof.
  split; [eexists _, _; split; [apply lookup_singleton_eq|split; vm_compute; reflexivity]|].
  apply (revocation_complete demo_keys false demo_us "adm_1" [mkScanned demo_key id demo_us id] false demo_revoking).
  - apply run_pair. vm_compute. reflexivity.
  - intros sc ->%list_elem_of_singleton. split; [reflexivity|]. split; intros db key H; exact H.
  - intros key H. rewrite (demo_only_session key H). left.
Defined.

(** [Refresh] reads a session and puts it back: a logout in between is undone. *)
Definition demo_refresh := Refresh demo_keys false (demo_us + 1000000, demo_us + 1000001, demo_us + 1000003)
  (demo_now + Second, demo_now + Second, demo_now + Second) id (fun db => w_db (Logout demo_keys false demo_id (mkWorld db [] ∅)).2)
  (Some "xxxxxxxxxxxxxxxx") demo_id (mkWorld demo_db [] ∅).
Theorem refresh_undoes_logout :
  (Authenticate demo_keys false (demo_us + 2000000) demo_now demo_id "" false demo_refresh.2).1 = Ok demo_principal.
Proof. vm_compute. reflexivity. Qed.
(** The script writes the time of the server as the time the session was last seen. When
    that is before the time it was made, by the clock of the service, the session is taken
    for a corrupt one and deleted at the next use. *)
Theorem session_lost_to_skew :
  let first := Authenticate demo_keys false (demo_us - 1000) demo_now demo_id "" false (mkWorld demo_db [] ∅) in
  first.1 = Err ErrUnauthorized
  /\ (Authenticate demo_keys false (demo_us + 1000000) demo_now demo_id "" false first.2).1 = Err ErrUnauthorized.
Proof. vm_compute. by split. Qed.
