(* ===== verification/AdminUsers.v ===== *)
(** * Operator accounts ([store/postgres/admin_users.go], [httpapi/admin_users.go])

    The table [admin_users] of migration 020 with the statements of the store, the
    handlers that disable an account and rotate a password, and what they mean for who
    can get in. *)

From Stdlib Require Import Ascii String.
From S2P Require Import Prelude GoLib Crypto QueueSchema Auth AuthClaims AppStore AppService RedisKeys RedisServer RedisOwnership RedisSessions.
Import Redis Sessions.

(** [mail.ParseAddress], [strings.ToLower] and the [lower] of the database, all three
    with their tables of characters. *)
Class MailLib := {
  ParseAddress : string -> option string;
  to_lower : string -> string;
  sql_lower : string -> string
}.
Class MailLaws `{MailLib} : Prop := {
  to_lower_twice : forall s, to_lower (to_lower s) = to_lower s;
  sql_lower_lower : forall s, sql_lower (to_lower s) = to_lower s
}.

Module Users.

Record UserRow := mkUserRow {
  ur_email : string;
  ur_password_hash : string;
  ur_role : string;
  ur_enabled : bool;
  ur_created_at : Z;
  ur_updated_at : Z
}.
Abbreviation UserDB := (gmap string UserRow).
Abbreviation M_user := (M UserDB).

Definition scanAdminUser (id : string) (r : UserRow) : AdminUser :=
  mkAdminUser id (ur_email r) (ur_role r) (ur_enabled r) (ur_created_at r) (ur_updated_at r).

Section store.
Context `{MailLib} `{Postgres} (pbkdf2 : string -> string -> Z -> Z -> string).

Definition normalizeAdminEmail (email : string) : option string :=
  let email := to_lower (TrimSpace email) in
  match ParseAddress email with
  | Some address =>
      if negb (bool_decide (address = email)) || bool_decide (email = "") || (320 <? len email) then None else Some email
  | None => None
  end.
Definition enabled_with (email : string) (kr : string * UserRow) : bool :=
  bool_decide (sql_lower (ur_email kr.2) = sql_lower email) && ur_enabled kr.2.
Definition AuthenticateAdminUser (email password : string) : M_user AdminUser :=
  match normalizeAdminEmail email with
  | None => fail StoreNotFound
  | Some normalized =>
      '(id, r) ← query_row StoreNotFound (fun db => head (List.filter (enabled_with normalized) (map_to_list db)));
      if negb (Password.VerifyPassword pbkdf2 (ur_password_hash r) password) then fail StoreNotFound else mret (scanAdminUser id r)
  end.
(** The primary key and the unique address. *)
Definition insert_user (id : string) (r : UserRow) (db : UserDB) : res (unit * UserDB) :=
  if isSome (db !! id) || existsb (fun kr => bool_decide (ur_email kr.2 = ur_email r)) (map_to_list db) then Err UniqueViolation
  else Ok (tt, <[id := r]> db).
(** [random] is what [rand.Reader] gives for the salt. *)
Definition CreateAdminUser (random : option string) (user : AdminUser) (password : string) : M_user unit :=
  match normalizeAdminEmail (au_Email user) with
  | None => fail StoreInvalidTarget
  | Some email =>
      if negb (known_role (au_Role user)) || bool_decide (au_ID user = "") || IsZero (au_CreatedAt user) || IsZero (au_UpdatedAt user)
      then fail StoreInvalidTarget else
      match Password.HashPassword pbkdf2 password random with
      | None => fail StoreInvalidTarget
      | Some hash =>
          on_error (exec (fun _ => insert_user (au_ID user)
              (mkUserRow email hash (au_Role user) true (au_CreatedAt user) (au_UpdatedAt user))))
            (fun e => fail (conflict_error e))
      end
  end.
Definition user_before (a b : AdminUser) : Prop :=
  au_CreatedAt a < au_CreatedAt b \/ au_CreatedAt a = au_CreatedAt b /\ text_le (au_ID a) (au_ID b).
#[export] Instance user_before_dec a b : Decision (user_before a b).
Proof. unfold user_before. apply _. Defined.
Definition ListAdminUsers : M_user (list AdminUser) :=
  query (fun db => merge_sort user_before ((fun kr => scanAdminUser kr.1 kr.2) <$> map_to_list db)).
Definition GetAdminUser (id : string) : M_user AdminUser :=
  query_row StoreNotFound (fun db => scanAdminUser id <$> db !! id).
(** [UPDATE admin_users SET ... WHERE id=$1 RETURNING ...] *)
Definition update_user (id : string) (f : UserRow -> UserRow) : M_user AdminUser :=
  exec (fun _ db => match db !! id with
                    | Some r => Ok (scanAdminUser id (f r), <[id := f r]> db)
                    | None => Err StoreNotFound
                    end).
Definition UpdateAdminUser (user : AdminUser) : M_user AdminUser :=
  if bool_decide (au_ID user = "") || negb (known_role (au_Role user)) || IsZero (au_UpdatedAt user) then fail StoreInvalidTarget else
  update_user (au_ID user) (fun r =>
    mkUserRow (ur_email r) (ur_password_hash r) (au_Role user) (au_Enabled user) (ur_created_at r) (au_UpdatedAt user)).
Definition DisableAdminUser (id : string) (updatedAt : Z) : M_user AdminUser :=
  if bool_decide (id = "") || IsZero updatedAt then fail StoreInvalidTarget else
  update_user id (fun r => mkUserRow (ur_email r) (ur_password_hash r) (ur_role r) false (ur_created_at r) updatedAt).
Definition RotateAdminUserPassword (random : option string) (id password : string) (updatedAt : Z) : M_user AdminUser :=
  if bool_decide (id = "") || bool_decide (password = "") || IsZero updatedAt then fail StoreInvalidTarget else
  match Password.HashPassword pbkdf2 password random with
  | None => fail StoreInvalidTarget
  | Some hash => update_user id (fun r => mkUserRow (ur_email r) hash (ur_role r) (ur_enabled r) (ur_created_at r) updatedAt)
  end.
(** [others] commit between the test and the insertion. *)
Definition EnsureSeedAdminUser (random : option string) (uuid : string) (others : UserDB -> UserDB) (email password : string) (now : Z) (role : string)
    : M_user unit :=
  match normalizeAdminEmail email with
  | None => fail StoreInvalidTarget
  | Some email =>
      if negb (known_role role) then fail StoreInvalidTarget else
      present ← query (fun db => existsb (fun kr => bool_decide (sql_lower (ur_email kr.2) = sql_lower email)) (map_to_list db));
      if (present : bool) then mret tt else
      _ ← Apps.others_commit others;
      CreateAdminUser random (mkAdminUser ("adm_" ++ uuid) email role true now now) password
  end.

(** ** The handlers, over the database and the sessions in Redis *)

Definition create_handler (random : option string) (uuid : string) (now : Z) (email password role : string) : M_user AdminUser :=
  if bool_decide (email = "") || bool_decide (password = "") then fail ErrInvalidInput else
  let user := mkAdminUser ("adm_" ++ uuid) email (if bool_decide (role = "") then "admin" else role) true now now in
  _ ← CreateAdminUser random user password;
  mret user.

Context (keys : Keys.Keyspace) (cancelled : bool).
Abbreviation Both := (World UserDB * World RedisDB)%type.
(** [principal]: who asks; [found] and [scan_error] as for the revocation. The error of
    the revocation is answered as one of a dependency. *)
Definition rotatePassword (random : option string) (now : Z) (found : list scanned) (scan_error : bool) (userID password : string) (b : Both)
    : res AdminUser * Both :=
  if bool_decide (password = "") then (Err ErrInvalidInput, b) else
  let '(r, uw) := RotateAdminUserPassword random userID password now b.1 in
  match r with
  | Err e => (Err e, (uw, b.2))
  | Ok user =>
      let '(r, rw) := RevokeUser keys cancelled found scan_error userID b.2 in
      match r with Ok _ => (Ok user, (uw, rw)) | Err _ => (Err ErrInvalidDependency, (uw, rw)) end
  end.
Definition disable (principal : string) (now : Z) (userID : string) (b : Both) : res AdminUser * Both :=
  if bool_decide (principal = userID) then (Err ErrConflict, b) else
  let '(r, uw) := DisableAdminUser userID now b.1 in (r, (uw, b.2)).
(** [role] and [enabled] are the fields of the request, if they are given; [others]
    commit between the read and the write. *)
Definition update_handler (principal : string) (now : Z) (others : UserDB -> UserDB) (userID : string) (role : option string) (enabled : option bool) (b : Both)
    : res AdminUser * Both :=
  let run : M_user AdminUser :=
    if isNone role && isNone enabled then fail ErrInvalidInput else
    user ← GetAdminUser userID;
    if match enabled with Some false => bool_decide (principal = au_ID user) | _ => false end then fail ErrConflict else
    _ ← Apps.others_commit others;
    UpdateAdminUser (mkAdminUser (au_ID user) (au_Email user) (default (au_Role user) role) (default (au_Enabled user) enabled)
                       (au_CreatedAt user) now) in
  let '(r, uw) := run b.1 in (r, (uw, b.2)).
End store.

End Users.
Import Users.

(** ** Who gets in *)

Section accounts.
Context {mail : MailLib} {laws : MailLaws} {postgres : Postgres} (pbkdf2 : string -> string -> Z -> Z -> string).
Context (pbkdf2_length : forall password salt iterations n, 0 <= n -> len (pbkdf2 password salt iterations n) = n).

(** Addresses are stored in lower case, and each once. *)
Definition users_inv (db : UserDB) : Prop :=
  (forall id r, db !! id = Some r -> to_lower (ur_email r) = ur_email r)
  /\ (forall i j r r', db !! i = Some r -> db !! j = Some r' -> ur_email r = ur_email r' -> i = j).
(** The operations of the store, with any failures. *)
Inductive user_step : UserDB -> UserDB -> Prop :=
| us_create random user password w : user_step (w_db w) (w_db (CreateAdminUser pbkdf2 random user password w).2)
| us_seed random uuid email password now role w : user_step (w_db w) (w_db (EnsureSeedAdminUser pbkdf2 random uuid id email password now role w).2)
| us_update user w : user_step (w_db w) (w_db (UpdateAdminUser user w).2)
| us_disable id at_ w : user_step (w_db w) (w_db (DisableAdminUser id at_ w).2)
| us_rotate random id password at_ w : user_step (w_db w) (w_db (RotateAdminUserPassword pbkdf2 random id password at_ w).2).

Lemma normalized_lower email e : normalizeAdminEmail email = Some e -> to_lower e = e.
Proof using laws.
  unfold normalizeAdminEmail. destruct (ParseAddress _); [|done]. destruct (_ || _ || _); [done|]. intros [= <-]. apply to_lower_twice.
Qed.
Lemma insert_inv i r db u db' : users_inv db -> to_lower (ur_email r) = ur_email r -> insert_user i r db = Ok (u, db') -> users_inv db'.
Proof.
  intros [Hl Hu] Hr. unfold insert_user. destruct (isSome (db !! i) || _) eqn:E; [done|]. apply orb_false_iff in E as [_ E]. intros [= _ <-].
  assert (forall j r', db !! j = Some r' -> ur_email r' <> ur_email r) as Hnew.
  { intros j r' Hj He. apply not_true_iff_false in E. apply E, existsb_exists. exists (j, r'). split; [by apply list_elem_of_In, elem_of_map_to_list|].
    by apply bool_decide_eq_true. }
  split.
  - intros j r' [[<- <-]|[_ Hj]]%lookup_insert_Some; [done|by eapply Hl].
  - intros a b ra rb [[<- <-]|[_ Ha]]%lookup_insert_Some [[<- <-]|[_ Hb]]%lookup_insert_Some He; [done| | |by eapply Hu].
    + by destruct (Hnew _ _ Hb).
    + by destruct (Hnew _ _ Ha).
Qed.
Lemma update_inv i f db r : users_inv db -> db !! i = Some r -> ur_email (f r) = ur_email r -> users_inv (<[i := f r]> db).
Proof.
  intros [Hl Hu] Hi Hf. split.
  - intros j r' [[<- <-]|[_ Hj]]%lookup_insert_Some; [rewrite Hf|]; by eapply Hl.
  - intros a b ra rb [[<- <-]|[_ Ha]]%lookup_insert_Some [[<- <-]|[_ Hb]]%lookup_insert_Some He; rewrite ?Hf in He; [done|by eapply Hu..].
Qed.
Lemma exec_db {A} (stmt : gset string -> UserDB -> res (A * UserDB)) w :
  w_db (exec stmt w).2 = w_db w \/ exists a, stmt (w_locked w) (w_db w) = Ok (a, w_db (exec stmt w).2).
Proof. unfold exec. destruct (w_faults w) as [|[] fs]; cbn; try (by left); destruct (stmt _ _) as [[a d]|] eqn:E; cbn; eauto. Qed.
Lemma query_same {A} (f : UserDB -> A) w : w_db (query f w).2 = w_db w.
Proof. unfold query, exec. by destruct (w_faults w) as [|[] fs]. Qed.
Lemma update_user_inv i f w : (forall r, ur_email (f r) = ur_email r) -> users_inv (w_db w) -> users_inv (w_db (update_user i f w).2).
Proof.
  intros Hf Hw. unfold update_user. destruct (exec_db (fun _ db => match db !! i with
    | Some r => Ok (scanAdminUser i (f r), <[i := f r]> db) | None => Err StoreNotFound end) w) as [->|[a E]]; [done|].
  destruct (w_db w !! i) as [r|] eqn:Hi; [|done]. injection E as _ <-. by apply update_inv.
Qed.
Lemma create_inv random user password w : users_inv (w_db w) -> users_inv (w_db (CreateAdminUser pbkdf2 random user password w).2).
Proof using laws.
  intros Hw. unfold CreateAdminUser. destruct (normalizeAdminEmail (au_Email user)) as [e|] eqn:He; [|done].
  destruct (_ || _ || _ || _); [done|]. destruct (Password.HashPassword _ _ _) as [h|]; [|done]. unfold on_error.
  destruct (exec_db (fun _ => insert_user (au_ID user) (mkUserRow e h (au_Role user) true (au_CreatedAt user) (au_UpdatedAt user))) w) as [Hd|[[] E]];
    destruct (exec _ w) as [[]]; cbn in *; try (by rewrite Hd); by eapply insert_inv, E; [|eapply normalized_lower].
Qed.
Lemma user_step_inv db db' : user_step db db' -> users_inv db -> users_inv db'.
Proof using laws.
  intros Hs Hdb. destruct Hs as [| | | |].
  - by apply create_inv.
  - unfold EnsureSeedAdminUser. destruct (normalizeAdminEmail _); [|done]. destruct (negb _); [done|]. unfold mbind, M_bind.
    pose proof (query_same (fun d => existsb (fun kr => bool_decide (sql_lower (ur_email kr.2) = sql_lower s)) (map_to_list d)) w) as Hq.
    destruct (query _ w) as [[[]|] w1]; cbn in Hq |- *; [by rewrite Hq|apply create_inv; cbn; by rewrite Hq|by rewrite Hq].
  - unfold UpdateAdminUser. destruct (_ || _); [done|]. by apply update_user_inv.
  - unfold DisableAdminUser. destruct (_ || _); [done|]. by apply update_user_inv.
  - unfold RotateAdminUserPassword. destruct (_ || _); [done|]. destruct (Password.HashPassword _ _ _); [|done]. by apply update_user_inv.
Qed.
Lemma users_reachable db : rtc user_step ∅ db -> users_inv db.
Proof using laws.
  intros Hr. assert (users_inv ∅) as H0 by (split; intros *; by rewrite lookup_empty). revert H0. induction Hr as [|x y z Hs _ IH]; [done|].
  intros Hx. by eapply IH, user_step_inv.
Qed.

(** The account an address belongs to is the one that is asked for its password. *)
Lemma filter_one (l : list (string * UserRow)) p i r :
  (i, r) ∈ l -> p (i, r) = true -> (forall kr, kr ∈ l -> p kr = true -> kr = (i, r)) -> head (List.filter p l) = Some (i, r).
Proof.
  intros Hin Hp Hone. assert ((i, r) ∈ List.filter p l) as Hf by by apply elem_of_filter_list.
  destruct (List.filter p l) as [|kr rest] eqn:E; [by apply not_elem_of_nil in Hf|]. cbn. f_equal.
  assert (kr ∈ List.filter p l) as [Hk Hpk]%elem_of_filter_list by (rewrite E; left). by apply Hone.
Qed.
Lemma account_found db i r email :
  users_inv db -> db !! i = Some r -> ur_email r = email ->
  head (List.filter (enabled_with email) (map_to_list db)) = if ur_enabled r then Some (i, r) else None.
Proof using laws.
  intros [Hl Hu] Hi <-. assert (forall kr, kr ∈ map_to_list db -> enabled_with (ur_email r) kr = true -> kr = (i, r)) as Hone.
  { intros [j r'] Hj%elem_of_map_to_list [He _]%andb_prop. apply bool_decide_eq_true in He. cbn in He.
    rewrite <- (Hl j r' Hj), <- (Hl i r Hi), !sql_lower_lower, (Hl j r' Hj), (Hl i r Hi) in He.
    assert (j = i) as -> by by eapply Hu. congruence. }
  destruct (ur_enabled r) eqn:Hen.
  - apply filter_one; [by apply elem_of_map_to_list| |done]. unfold enabled_with. cbn. by rewrite bool_decide_true, Hen.
  - destruct (List.filter _ _) as [|kr rest] eqn:E; [done|].
    assert (kr ∈ List.filter (enabled_with (ur_email r)) (map_to_list db)) as [Hk Hp]%elem_of_filter_list by (rewrite E; left).
    specialize (Hone kr Hk Hp) as ->. unfold enabled_with in Hp. cbn in Hp. by rewrite Hen, andb_false_r in Hp.
Qed.
Lemma authenticate_account db i r email e attempt locked :
  users_inv db -> db !! i = Some r -> normalizeAdminEmail email = Some e -> ur_email r = e ->
  (AuthenticateAdminUser pbkdf2 email attempt (mkWorld db [] locked)).1
  = if ur_enabled r && Password.VerifyPassword pbkdf2 (ur_password_hash r) attempt then Ok (scanAdminUser i r) else Err StoreNotFound.
Proof using laws.
  intros Hinv Hi He Hr. unfold AuthenticateAdminUser. rewrite He. unfold mbind, M_bind, query_row, exec. cbn [w_faults w_db w_locked].
  rewrite (account_found db i r e Hinv Hi Hr). destruct (ur_enabled r); [|done]. cbn. by destruct (Password.VerifyPassword _ _ _).
Qed.
Lemma rotated random i password at_ w u w' :
  RotateAdminUserPassword pbkdf2 random i password at_ w = (Ok u, w') ->
  exists r h, w_db w !! i = Some r /\ Password.HashPassword pbkdf2 password random = Some h
    /\ u = scanAdminUser i (mkUserRow (ur_email r) h (ur_role r) (ur_enabled r) (ur_created_at r) at_)
    /\ w_db w' = <[i := mkUserRow (ur_email r) h (ur_role r) (ur_enabled r) (ur_created_at r) at_]> (w_db w).
Proof.
  unfold RotateAdminUserPassword. destruct (_ || _ || _); [done|]. destruct (Password.HashPassword _ _ _) as [h|]; [|done].
  unfold update_user, exec. destruct (w_faults w) as [|[] fs]; [|done|];
    (destruct (w_db w !! i) as [r|]; [|done]; intros [= <- <-]; by exists r, h).
Qed.

(** C31: when an operator's password has been rotated, only the new password (or one that
    derives the same key) opens the account, and only while it is enabled; and no session
    of the operator from before is left, provided the scan gave every key that was there
    all along and nobody made a new session meanwhile. *)
Theorem rotation_ends_access keys cancelled salt now found scan_error i password uw rw u uw' rw' t locked :
  rtc user_step ∅ (w_db uw) -> len salt = 16 ->
  rotatePassword pbkdf2 keys cancelled (Some salt) now found scan_error i password (uw, rw) = (Ok u, (uw', rw')) ->
  (forall sc, sc ∈ found -> sc_now sc <= t /\ no_new_session t i (sc_before sc) /\ no_new_session t i (sc_between sc)) ->
  (forall key, has_session t i (w_db rw) key -> key ∈ sc_key <$> found) ->
  (forall email attempt, normalizeAdminEmail email = Some (au_Email u) ->
     (AuthenticateAdminUser pbkdf2 email attempt (mkWorld (w_db uw') [] locked)).1
     = if au_Enabled u && bool_decide (pbkdf2 attempt salt 210000 32 = pbkdf2 password salt 210000 32) then Ok u else Err StoreNotFound)
  /\ forall key, ~ has_session t i (w_db rw') key.
Proof using laws pbkdf2_length.
  intros Hreach Hsalt Hrun Hsc Hall. pose proof (users_reachable _ Hreach) as Hinv. unfold rotatePassword in Hrun.
  destruct (bool_decide (password = "")); [done|]. cbn [fst snd] in Hrun. destruct (RotateAdminUserPassword _ _ _ _ _ _) as [[v|e] uw1] eqn:Hrot; [|done].
  destruct (RevokeUser _ _ _ _ _ _) as [[[]|e] rw1] eqn:Hrev; [|done]. injection Hrun as -> -> ->.
  destruct (rotated _ _ _ _ _ _ _ Hrot) as (r & h & Hi & Hh & -> & Hdb). split; [|by eapply revocation_complete].
  intros email attempt He. cbn [au_Email au_Enabled scanAdminUser] in *. rewrite Hdb.
  assert (users_inv (<[i := mkUserRow (ur_email r) h (ur_role r) (ur_enabled r) (ur_created_at r) now]> (w_db uw))) as Hinv'
    by (by apply (update_inv i (fun r => mkUserRow (ur_email r) h (ur_role r) (ur_enabled r) (ur_created_at r) now))).
  rewrite (authenticate_account _ i _ email (ur_email r) attempt locked Hinv' (lookup_insert_eq _ _ _) He eq_refl). cbn [ur_enabled ur_password_hash].
  assert (Password.VerifyPassword pbkdf2 h attempt = bool_decide (pbkdf2 attempt salt 210000 32 = pbkdf2 password salt 210000 32)) as ->; [|done].
  apply Bool.eq_iff_eq_true. rewrite bool_decide_eq_true. by apply password_hash_verifies.
Qed.
(** An account that is disabled is refused whatever the password. *)
Theorem disabled_account_refused principal now i b u uw' rw' locked email attempt :
  rtc user_step ∅ (w_db b.1) -> disable principal now i b = (Ok u, (uw', rw')) -> normalizeAdminEmail email = Some (au_Email u) ->
  (AuthenticateAdminUser pbkdf2 email attempt (mkWorld (w_db uw') [] locked)).1 = Err StoreNotFound.
Proof using laws.
  intros Hreach Hrun He. pose proof (users_reachable _ Hreach) as Hinv. unfold disable, DisableAdminUser, update_user, exec in Hrun.
  destruct (bool_decide (principal = i)); [done|]. destruct (bool_decide (i = "") || _); [done|].
  assert (exists r, w_db b.1 !! i = Some r /\ u = scanAdminUser i (mkUserRow (ur_email r) (ur_password_hash r) (ur_role r) false (ur_created_at r) now)
    /\ w_db uw' = <[i := mkUserRow (ur_email r) (ur_password_hash r) (ur_role r) false (ur_created_at r) now]> (w_db b.1)) as (r & Hi & -> & Hdb).
  { destruct (w_faults b.1) as [|[] fs]; [|done|]; (destruct (w_db b.1 !! i) as [r|]; [|done]; injection Hrun as <- <- _; by exists r). }
  rewrite Hdb. assert (users_inv (<[i := mkUserRow (ur_email r) (ur_password_hash r) (ur_role r) false (ur_created_at r) now]> (w_db b.1))) as Hinv'
    by (by apply (update_inv i (fun r => mkUserRow (ur_email r) (ur_password_hash r) (ur_role r) false (ur_created_at r) now))).
  by rewrite (authenticate_account _ i _ email (ur_email r) attempt locked Hinv' (lookup_insert_eq _ _ _) He eq_refl).
Qed.
End accounts.

(** ** An account from its making to its end *)

#[local] Instance plain_mail : MailLib := {| ParseAddress := Some; to_lower s := s; sql_lower s := s |}.
#[local] Instance plain_mail_laws : MailLaws.
Proof. by split. Qed.
Definition demo_accounts : World UserDB := (CreateAdminUser stretch (Some "0123456789abcdef") demo_user "correct horse battery" (mkWorld ∅ [] ∅)).2.
Definition demo_scan : list scanned := [mkScanned demo_key id demo_us id].
Abbreviation demo_rotation :=
  (rotatePassword stretch demo_keys false (Some "fedcba9876543210") demo_now demo_scan false "adm_1" "another long password" (demo_accounts, demo_revoking)).
Definition demo_rotated : AdminUser := mkAdminUser "adm_1" "root@example.com" "admin" true 0 demo_now.
Lemma run_both {A} (x : res A * (World UserDB * World RedisDB)) r : x.1 = r -> x = (r, (x.2.1, x.2.2)).
Proof. destruct x as [? [? ?]]. cbn. by intros ->. Qed.
Lemma demo_accounts_reached : rtc (user_step stretch) ∅ (w_db demo_accounts).
Proof. apply rtc_once. apply (us_create stretch (Some "0123456789abcdef") demo_user "correct horse battery" (mkWorld ∅ [] ∅)). Qed.
Lemma rotation_ends_access_witness :
  (AuthenticateAdminUser stretch "root@example.com" "correct horse battery" demo_accounts).1 = Ok (mkAdminUser "adm_1" "root@example.com" "admin" true 0 0)
  /\ (AuthenticateAdminUser stretch "root@example.com" "correct horse battery" (mkWorld (w_db demo_rotation.2.1) [] ∅)).1 = Err StoreNotFound
  /\ forall key, ~ has_session demo_us "adm_1" (w_db demo_rotation.2.2) key.
Proof.
  split; [vm_compute; reflexivity|].
  destruct (rotation_ends_access stretch stretch_length demo_keys false "fedcba9876543210" demo_now demo_scan false "adm_1" "another long password"
    demo_accounts demo_revoking demo_rotated demo_rotation.2.1 demo_rotation.2.2 demo_us ∅) as [Ha Hs].
  - exact demo_accounts_reached.
  - reflexivity.
  - apply run_both. vm_compute. reflexivity.
  - intros sc ->%list_elem_of_singleton. split; [reflexivity|]. split; intros db key H; exact H.
  - intros key H. rewrite (demo_only_session key H). left.
  - split; [|exact Hs]. rewrite (Ha "root@example.com" "correct horse battery"); vm_compute; reflexivity.
Defined.
Lemma disabled_account_refused_witness :
  (AuthenticateAdminUser stretch "root@example.com" "correct horse battery"
     (mkWorld (w_db (disable "adm_2" demo_now "adm_1" (demo_accounts, demo_revoking)).2.1) [] ∅)).1 = Err StoreNotFound.
Proof.
  apply (disabled_account_refused stretch "adm_2" demo_now "adm_1" (demo_accounts, demo_revoking) (mkAdminUser "adm_1" "root@example.com" "admin" false 0 demo_now)
    _ (disable "adm_2" demo_now "adm_1" (demo_accounts, demo_revoking)).2.2); [exact demo_accounts_reached|apply run_both; vm_compute; reflexivity|vm_compute; reflexivity].
Defined.
(** Disabling an account leaves its sessions: they let in until they end. *)
Theorem disabled_session_lives :
  (Authenticate demo_keys false (demo_us + 1000000) demo_now demo_id demo_csrf true
     (disable "adm_2" demo_now "adm_1" (demo_accounts, mkWorld demo_db [] ∅)).2.2).1 = Ok demo_principal.
Proof. vm_compute. reflexivity. Qed.
