(* ===== verification/RedisRate.v ===== *)
(** * The rate limiter ([redisstate/ratelimit.go], [redisstate/realtime_rate.go])

    A bucket of tokens per key, filled by the time of the server. The script computes
    with the numbers of Lua: every operation is rounded, and what is stored went through
    [tostring], which keeps fourteen digits. Both are arguments here, with what the
    proofs need of them as laws; a hash is kept as the numbers it is read back as. *)

From Stdlib Require Import Ascii String QArith Qround Lqa.
From S2P Require Import Prelude GoLib Crypto QueueSchema RedisKeys RedisServer.
Import Keys Redis.
#[local] Open Scope Z_scope.

(** The arithmetic of the server: [rnd] is the rounding of an operation, [str] what is
    read back of a number that was written. *)
Class LuaNumbers := {
  rnd : Q -> Q;
  str : Q -> Q;
  rnd_error : Q;
  str_error : Q
}.
Class LuaLaws `{LuaNumbers} : Prop := {
  rnd_error_pos : (0 <= rnd_error)%Q;
  str_error_pos : (0 <= str_error)%Q;
  rnd_error_small : (rnd_error <= 1)%Q;
  rnd_bounds : forall q, (0 <= q)%Q -> (0 <= rnd q <= q * (1 + rnd_error))%Q;
  str_bounds : forall q, (0 <= q)%Q -> (0 <= str q <= q * (1 + str_error))%Q;
  rnd_below : forall q z, (q <= inject_Z z)%Q -> 0 <= z <= 2 ^ 53 -> (rnd q <= inject_Z z)%Q;
  str_below : forall q z, (q <= inject_Z z)%Q -> 0 <= z <= 10 ^ 14 -> (str q <= inject_Z z)%Q
}.

Module Rate.

Record bucket := mkBucket { bk_tokens : Q; bk_last_ms : Z; bk_expires : Z }.
Abbreviation RateDB := (gmap string bucket).
Abbreviation M_rate := (M RateDB).
Record RateDecision := mkRateDecision {
  rd_Allowed : bool;
  rd_Remaining : Q;
  rd_ResetAt : Z;
  rd_RetryAfter : Z
}.

Definition Qmin_ (a b : Q) : Q := if Qle_bool a b then a else b.

Section script.
Context `{LuaNumbers}.

(** What the script computes: whether it allows, the tokens left, and the two times. *)
Record spent := mkSpent { sp_allowed : bool; sp_tokens : Q; sp_reset_ms : Z; sp_retry_ms : Z }.
Definition refilled (now_ms burst window_ms : Z) (b : option (Q * Z)) : Q :=
  let '(tokens, last_ms) := default (inject_Z burst, now_ms) b in
  let elapsed := Z.max 0 (now_ms - last_ms) in
  Qmin_ (inject_Z burst) (rnd (tokens + rnd (rnd (inject_Z (elapsed * burst)) / inject_Z window_ms))).
Definition wait_ms (missing : Q) (burst window_ms : Z) : Z := Qceiling (rnd (rnd (missing * inject_Z window_ms) / inject_Z burst)).
Definition spend (now_ms burst window_ms cost : Z) (b : option (Q * Z)) : spent :=
  let tokens := refilled now_ms burst window_ms b in
  let allowed := Qle_bool (inject_Z cost) tokens in
  let left := if allowed then rnd (tokens - inject_Z cost) else tokens in
  mkSpent allowed left (now_ms + wait_ms (rnd (inject_Z burst - left)) burst window_ms)
    (if allowed then 0 else wait_ms (rnd (inject_Z cost - tokens)) burst window_ms).
Definition tokenBucketScript (now : Z) (key : string) (burst window_ms cost ttl_ms : Z) (db : RateDB)
    : res ((bool * Q * Z * Z) * RateDB) :=
  let now_ms := ms now in
  let b := match db !! key with
           | Some b => if now_ms <=? bk_expires b then Some (bk_tokens b, bk_last_ms b) else None
           | None => None
           end in
  let s := spend now_ms burst window_ms cost b in
  Ok ((sp_allowed s, str (sp_tokens s), sp_reset_ms s, sp_retry_ms s),
      <[key := mkBucket (str (sp_tokens s)) now_ms (now_ms + ttl_ms)]> db).

(** [parseScriptInt] of an integer that [tostring] has written: from fourteen digits on
    it has an exponent, which [strconv.ParseInt] refuses. *)
Definition parseScriptInt (z : Z) : option Z := if Z.abs z <? 10 ^ 14 then Some z else None.

Definition IndexByte (c : ascii) (l : list ascii) : Z :=
  (fix go (i : Z) (l : list ascii) := match l with [] => -1 | d :: l' => if decide (d = c) then i else go (i + 1) l' end) 0 l.
Definition validRateLimitKey (key : string) : bool :=
  let open := IndexByte "{" (bytes key) in let close := IndexByte "}" (bytes key) in
  let after i := drop (Z.to_nat (i + 1)) (bytes key) in
  negb (bool_decide (key = "")) && (len key <=? 512) && (0 <=? open) && negb (close <=? open + 1)
  && negb (bool_decide ("{"%char ∈ after open)) && negb (bool_decide ("}"%char ∈ after close))
  && negb (has_rune (space_runes ++ control_runes)%list (bytes key)).
(** What [Allow] makes of the answer of the script. *)
Definition decision (limit : Z) (answer : bool * Q * Z * Z) : M_rate RateDecision :=
  let '(allowed, remaining, reset, retry) := answer in
  if negb (Qle_bool 0 remaining) || negb (Qle_bool remaining (inject_Z limit)) then fail RedisUnavailable else
  match parseScriptInt reset, parseScriptInt retry with
  | Some resetMS, Some retryMS =>
      if (resetMS <=? 0) || (retryMS <? 0) then fail RedisUnavailable
      else mret (mkRateDecision allowed remaining (resetMS * Millisecond) (retryMS * Millisecond))
  | _, _ => fail RedisUnavailable
  end.
(** [cancelled] and [done]: the context before the call, and when a failure is looked at;
    [now] is the clock of the server in microseconds when the script runs. *)
Definition Allow (cancelled done : bool) (now : Z) (key : string) (limit window cost : Z) : M_rate RateDecision :=
  if cancelled then fail ContextError else
  if negb (validRateLimitKey key) || (limit <=? 0) || (2 ^ 53 <? limit) || (cost <=? 0) || (limit <? cost)
     || (window <? Second) || (24 * Hour <? window) then fail InvalidRecord else
  r ← on_error (exec (fun _ => tokenBucketScript now key limit (window `quot` Millisecond) cost ((2 * window) `quot` Millisecond)))
        (fun _ => fail (if done then ContextError else RedisUnavailable));
  decision limit r.

(** ** [RealtimePublishLimiter] *)

Record RealtimePublishLimits := mkLimits { pl_App : Z; pl_Connection : Z; pl_Channel : Z; pl_Window : Z }.
Definition dimensions (limits : RealtimePublishLimits) (connectionID channel : string) : list (string * Z) :=
  [("realtime-publish-app", pl_App limits); ("realtime-publish-connection:" ++ connectionID, pl_Connection limits);
   ("realtime-publish-channel:" ++ channel, pl_Channel limits)].
Fixpoint allow_all (done : bool) (keys : Keyspace) (window : Z) (appID : string) (dims : list (string * Z)) (times : list Z) : M_rate bool :=
  match dims, times with
  | (name, limit) :: dims, now :: times =>
      match RateLimit keys appID name (decimal (window `quot` Millisecond)) with
      | None => fail InvalidRecord
      | Some key =>
          d ← Allow false done now key limit window 1;
          if rd_Allowed d then allow_all done keys window appID dims times else mret false
      end
  | _, _ => mret true
  end.
Definition AllowPublish (done : bool) (keys : Keyspace) (limits : RealtimePublishLimits) (times : Z * Z * Z)
    (appID connectionID channel : string) : M_rate bool :=
  let '(t1, t2, t3) := times in
  if (pl_App limits <? 1) || (pl_Connection limits <? 1) || (pl_Channel limits <? 1) || (pl_Window limits <? Second)
     || (24 * Hour <? pl_Window limits) then fail InvalidRecord
  else allow_all done keys (pl_Window limits) appID (dimensions limits connectionID channel) [t1; t2; t3].
End script.

End Rate.
Import Rate.

(** ** One call *)

Section laws.
Context {lua : LuaNumbers} {laws : LuaLaws}.
#[local] Open Scope Q_scope.
Abbreviation u := rnd_error.
Abbreviation v := str_error.
(** The error of one call, relative to the size of the bucket. *)
Definition call_error : Q := ((1 + u) * (1 + u) * (1 + u) - 1) + ((1 + u) * (1 + v) - 1).

Lemma call_error_pos : 0 <= call_error.
Proof. unfold call_error. pose proof rnd_error_pos. pose proof str_error_pos. nra. Qed.
Lemma Qmin_le_l a b : Qmin_ a b <= a.
Proof. unfold Qmin_. destruct (Qle_bool a b) eqn:E; [lra|]. apply Qnot_lt_le. intros Hl. assert (a <= b) as Hc by lra. apply Qle_bool_iff in Hc. congruence. Qed.
Lemma Qmin_le_r a b : Qmin_ a b <= b.
Proof. unfold Qmin_. destruct (Qle_bool a b) eqn:E; [by apply Qle_bool_iff|lra]. Qed.
Lemma Qmin_glb c a b : c <= a -> c <= b -> c <= Qmin_ a b.
Proof. intros. unfold Qmin_. by destruct (Qle_bool a b). Qed.
Lemma rnd_pos q : 0 <= q -> 0 <= rnd q.
Proof. intros Hq. by apply rnd_bounds. Qed.
Lemma rnd_le q : 0 <= q -> rnd q <= q * (1 + u).
Proof. intros Hq. by apply rnd_bounds. Qed.
Lemma div_le a b w : 0 < w -> a <= b -> a / w <= b / w.
Proof. intros Hw Hab. apply Qmult_le_compat_r; [done|]. apply Qinv_le_0_compat. lra. Qed.
Lemma div_pos a w : 0 < w -> 0 <= a -> 0 <= a / w.
Proof. intros Hw Ha. apply Qmult_le_0_compat; [done|]. apply Qinv_le_0_compat. lra. Qed.

(** What has come into the bucket after a time, exactly. *)
Definition accrued (burst window_ms elapsed : Z) : Q := inject_Z (elapsed * burst) / inject_Z window_ms.
Lemma inject_nonneg z : (0 <= z)%Z -> 0 <= inject_Z z.
Proof. intros Hz. change 0 with (inject_Z 0). by rewrite <- Zle_Qle. Qed.
Lemma inject_pos z : (0 < z)%Z -> 0 < inject_Z z.
Proof. intros Hz. change 0 with (inject_Z 0). by rewrite <- Zlt_Qlt. Qed.
Lemma accrued_pos burst window elapsed : (0 < burst)%Z -> (0 < window)%Z -> (0 <= elapsed)%Z -> 0 <= accrued burst window elapsed.
Proof. intros. apply div_pos; [by apply inject_pos|]. apply inject_nonneg. lia. Qed.

Lemma refill_sum tokens burst window elapsed :
  (0 < burst)%Z -> (0 < window)%Z -> (0 <= elapsed)%Z -> 0 <= tokens ->
  let q := rnd (tokens + rnd (rnd (inject_Z (elapsed * burst)) / inject_Z window)) in
  0 <= q <= (tokens + accrued burst window elapsed) * ((1 + u) * (1 + u) * (1 + u)).
Proof.
  intros Hb Hw He Ht q. pose proof rnd_error_pos as Hu. pose proof (inject_pos window Hw) as HW.
  assert (0 <= inject_Z (elapsed * burst)) as HX by (apply inject_nonneg; lia).
  set (X := inject_Z (elapsed * burst)) in *. set (W := inject_Z window) in *.
  pose proof (rnd_le X HX) as H1. pose proof (rnd_pos X HX) as H1'.
  pose proof (div_pos (rnd X) W HW H1') as H2'. pose proof (rnd_le (rnd X / W) H2') as H2. pose proof (rnd_pos (rnd X / W) H2') as H3'.
  pose proof (div_le (rnd X) (X * (1 + u)) W HW H1) as H4.
  assert (X * (1 + u) / W == accrued burst window elapsed * (1 + u)) as Ha by (unfold accrued; fold X W; field; lra).
  rewrite Ha in H4. pose proof (accrued_pos burst window elapsed Hb Hw He) as Hap.
  set (a := accrued burst window elapsed) in *. set (r := rnd (rnd X / W)) in *.
  assert (r <= a * (1 + u) * (1 + u)) as H5 by nra.
  pose proof (rnd_le (tokens + r) ltac:(lra)) as H6. pose proof (rnd_pos (tokens + r) ltac:(lra)) as H7.
  split; [done|]. unfold q. assert ((tokens + r) * (1 + u) <= (tokens + a) * ((1 + u) * (1 + u) * (1 + u))); [|lra].
  assert (tokens + r <= (tokens + a) * ((1 + u) * (1 + u))) by nra. nra.
Qed.
Lemma refilled_bound now burst window b :
  (0 < burst)%Z -> (0 < window)%Z -> (forall t l, b = Some (t, l) -> 0 <= t) ->
  0 <= refilled now burst window b <= inject_Z burst
  /\ forall t l, b = Some (t, l) -> (l <= now)%Z ->
       refilled now burst window b <= t + accrued burst window (now - l) + inject_Z burst * ((1 + u) * (1 + u) * (1 + u) - 1).
Proof.
  intros Hb Hw Hpos. unfold refilled. pose proof (inject_pos burst Hb) as HB. pose proof rnd_error_pos as Hu.
  destruct (default (inject_Z burst, now) b) as [tokens last] eqn:Hd.
  assert (0 <= tokens) as Ht. { destruct b as [[t l]|]; cbn in Hd; injection Hd as <- <-; [by eapply Hpos|lra]. }
  pose proof (refill_sum tokens burst window (Z.max 0 (now - last)) Hb Hw ltac:(lia) Ht) as [Hq0 Hq1].
  set (q := rnd _) in *. split; [split; [apply Qmin_glb; lra|apply Qmin_le_l]|].
  intros t l -> Hl. cbn in Hd. injection Hd as <- <-. assert (Z.max 0 (now - l) = now - l)%Z as E by lia. rewrite E in Hq1.
  pose proof (accrued_pos burst window (now - l) Hb Hw ltac:(lia)) as Ha. set (a := accrued _ _ _) in *.
  pose proof (Qmin_le_l (inject_Z burst) q). pose proof (Qmin_le_r (inject_Z burst) q).
  assert (0 <= (1 + u) * (1 + u) * (1 + u) - 1) as Hc by nra. set (c := (1 + u) * (1 + u) * (1 + u)) in *.
  destruct (Qlt_le_dec (t + a) (inject_Z burst)) as [Hlt|Hge]; [|nra].
  assert ((t + a) * c <= t + a + inject_Z burst * (c - 1)) by nra. lra.
Qed.
Definition cost_of (allowed : bool) (cost : Z) : Q := if allowed then inject_Z cost else 0.
Lemma spend_bound now burst window cost b :
  (0 < burst)%Z -> (0 < window)%Z -> (0 < cost)%Z -> (forall t l, b = Some (t, l) -> 0 <= t) ->
  let s := spend now burst window cost b in
  0 <= sp_tokens s
  /\ cost_of (sp_allowed s) cost + str (sp_tokens s)
     <= refilled now burst window b + inject_Z burst * ((1 + u) * (1 + v) - 1).
Proof.
  intros Hb Hw Hc Hpos. destruct (refilled_bound now burst window b Hb Hw Hpos) as [[H0 H1] _].
  pose proof rnd_error_pos as Hu. pose proof str_error_pos as Hv. pose proof (inject_pos burst Hb) as HB.
  unfold spend. cbn zeta. cbn [sp_tokens sp_allowed]. set (r := refilled now burst window b) in *.
  destruct (Qle_bool (inject_Z cost) r) eqn:E; cbn [cost_of].
  - apply Qle_bool_iff in E. pose proof (inject_pos cost Hc). pose proof (rnd_pos (r - inject_Z cost) ltac:(lra)) as P.
    split; [done|]. pose proof (rnd_le (r - inject_Z cost) ltac:(lra)) as R. destruct (str_bounds _ P) as [_ S].
    set (d := rnd (r - inject_Z cost)) in *. assert (0 <= 1 + v) as V by lra. pose proof (Qmult_le_compat_r _ _ _ R V) as R'. assert (0 <= (1 + u) * (1 + v) - 1) as K by nra.
    set (x := r - inject_Z cost) in *. assert (0 <= x <= inject_Z burst) as X by (unfold x; lra).
    assert (x * ((1 + u) * (1 + v) - 1) <= inject_Z burst * ((1 + u) * (1 + v) - 1)) as M by (apply Qmult_le_compat_r; lra).
    assert (r == x + inject_Z cost) as -> by (unfold x; ring). lra.
  - split; [done|]. destruct (str_bounds _ H0) as [_ S]. pose proof (Qmult_le_compat_r _ _ _ H1 Hv) as M.
    assert (0 <= inject_Z burst * (u + u * v)) as N by (apply Qmult_le_0_compat; nra). lra.
Qed.

(** ** Any number of calls *)

Definition granted (r : res RateDecision) (cost : Z) : Z :=
  match r with Ok d => if rd_Allowed d then cost else 0%Z | Err _ => 0%Z end.
(** What calls at given times, with given costs, are granted in total, and what they
    leave. *)
Fixpoint grants (key : string) (limit window : Z) (calls : list (Z * Z)) (w : World RateDB) : Z :=
  match calls with
  | [] => 0%Z
  | (now, cost) :: rest =>
      let '(r, w') := Allow false false now key limit window cost w in (granted r cost + grants key limit window rest w')%Z
  end.
Fixpoint after (key : string) (limit window : Z) (calls : list (Z * Z)) (w : World RateDB) : World RateDB :=
  match calls with
  | [] => w
  | (now, cost) :: rest => after key limit window rest (Allow false false now key limit window cost w).2
  end.
Fixpoint in_time (t tn : Z) (calls : list (Z * Z)) : Prop :=
  match calls with [] => (t <= tn)%Z | (now, _) :: rest => (t <= ms now)%Z /\ in_time (ms now) tn rest end.
Lemma in_time_le t tn calls : in_time t tn calls -> (t <= tn)%Z.
Proof. revert t. induction calls as [|[now c] calls IH]; intros t; cbn; [done|]. intros [Ht Hr%IH]. lia. Qed.

Section one.
Context (key : string) (limit window : Z) (Hlimit : (0 < limit)%Z) (Hwindow : (Second <= window)%Z).
Abbreviation wms := (window `quot` Millisecond)%Z.
Abbreviation B := (inject_Z limit).
Abbreviation acc := (accrued limit wms).

Lemma wms_pos : (0 < wms)%Z.
Proof using Hwindow. apply Z.quot_str_pos. unfold Second, Millisecond, Microsecond in *. lia. Qed.
Lemma ttl_wms : (wms <= (2 * window) `quot` Millisecond)%Z.
Proof using Hwindow. apply Z.quot_le_mono; unfold Second, Millisecond, Microsecond in *; lia. Qed.
Lemma acc_add a b : acc (a + b) == acc a + acc b.
Proof using Hwindow. pose proof wms_pos as Hw%inject_pos. unfold accrued. rewrite Z.mul_add_distr_r, inject_Z_plus. field. lra. Qed.
Lemma acc_nonneg a : (0 <= a)%Z -> 0 <= acc a.
Proof using Hwindow Hlimit. intros. by apply accrued_pos; [|apply wms_pos|]. Qed.
Lemma acc_full a : (wms <= a)%Z -> B <= acc a.
Proof using Hwindow Hlimit.
  intros Ha. pose proof wms_pos as Hw. pose proof (inject_pos _ Hw) as HW. unfold accrued. rewrite inject_Z_mult.
  assert (inject_Z a * B / inject_Z wms == B * (inject_Z a / inject_Z wms)) as -> by (field; lra).
  assert (inject_Z wms <= inject_Z a) as Hle by by rewrite <- Zle_Qle. apply (div_le _ _ _ HW) in Hle.
  assert (inject_Z wms / inject_Z wms == 1) as E by (field; lra). rewrite E in Hle. pose proof (inject_pos limit Hlimit). nra.
Qed.

Definition bucket_ok (t : Z) (db : RateDB) : Prop :=
  forall b, db !! key = Some b -> 0 <= bk_tokens b /\ (bk_last_ms b <= t)%Z /\ bk_expires b = (bk_last_ms b + (2 * window) `quot` Millisecond)%Z.
(** What can at most have been granted at [tn], from what is in the bucket at [t]. *)
Definition potential (t tn : Z) (db : RateDB) : Q :=
  match db !! key with Some b => bk_tokens b + acc (tn - bk_last_ms b) | None => B + acc (tn - t) end.
Definition script_state (t : Z) (db : RateDB) : option (Q * Z) :=
  match db !! key with
  | Some b => if (t <=? bk_expires b)%Z then Some (bk_tokens b, bk_last_ms b) else None
  | None => None
  end.
Lemma state_pos t now db t0 l : bucket_ok t db -> script_state now db = Some (t0, l) -> 0 <= t0.
Proof. unfold script_state. intros Hok. destruct (db !! key) as [b|] eqn:E; [|done]. destruct (_ <=? _)%Z; [|done]. intros [= <- <-]. by apply Hok. Qed.
Lemma refilled_potential t now db :
  bucket_ok t db -> (t <= now)%Z ->
  refilled now limit wms (script_state now db) <= potential now now db + B * ((1 + u) * (1 + u) * (1 + u) - 1).
Proof using Hwindow Hlimit laws.
  intros Hok Ht. destruct (refilled_bound now limit wms (script_state now db) Hlimit wms_pos (fun t0 l => state_pos t now db t0 l Hok)) as [[_ Hmax] Hb].
  pose proof rnd_error_pos as Hu. pose proof (inject_pos limit Hlimit) as HB.
  assert (0 <= B * ((1 + u) * (1 + u) * (1 + u) - 1)) as Hc by (apply Qmult_le_0_compat; nra).
  unfold potential. unfold script_state in *. destruct (db !! key) as [b|] eqn:E.
  - destruct (Hok b E) as (Hpos & Hlast & Hexp). destruct (now <=? bk_expires b)%Z eqn:Ex; [apply (Hb _ _ eq_refl); lia|].
    pose proof (acc_full (now - bk_last_ms b)) as Hf. pose proof ttl_wms. assert (B <= acc (now - bk_last_ms b)) by (apply Hf; lia). lra.
  - pose proof (acc_nonneg (now - now) ltac:(lia)). lra.
Qed.
Lemma decision_granted a cost w :
  (0 < cost)%Z -> (decision limit a w).2 = w /\ inject_Z (granted (decision limit a w).1 cost) <= cost_of a.1.1.1 cost.
Proof using.
  intros Hc. destruct a as [[[allowed remaining] reset] retry]. unfold decision. pose proof (inject_pos cost Hc) as HC.
  assert (0 <= cost_of allowed cost) as H0 by (destruct allowed; cbn; lra).
  destruct (_ || _); [done|]. destruct (parseScriptInt reset); [|done]. destruct (parseScriptInt retry); [|done].
  destruct (_ || _); [done|]. split; [done|]. cbn. destruct allowed; cbn; [lra|done].
Qed.
Lemma potential_stored now tn db tokens e : potential now tn (<[key := mkBucket tokens now e]> db) == tokens + acc (tn - now).
Proof using. unfold potential. by rewrite lookup_insert_eq. Qed.
Lemma potential_later t now tn db :
  bucket_ok t db -> (t <= now)%Z -> (now <= tn)%Z -> potential now now db + acc (tn - now) <= potential t tn db.
Proof using Hwindow Hlimit.
  intros Hok Ht Htn. unfold potential. destruct (db !! key) as [b|] eqn:E.
  - replace (tn - bk_last_ms b)%Z with ((now - bk_last_ms b) + (tn - now))%Z by lia. rewrite acc_add. lra.
  - replace (tn - t)%Z with ((now - t) + (tn - now))%Z by lia. rewrite acc_add.
    pose proof (acc_nonneg (now - t) ltac:(lia)). rewrite Z.sub_diag. assert (acc 0 == 0) as -> by (unfold accrued; cbn; reflexivity). lra.
Qed.
Lemma allow_step now cost w t :
  bucket_ok t (w_db w) -> (t <= ms now)%Z ->
  let '(r, w') := Allow false false now key limit window cost w in
  w_db w' = w_db w /\ granted r cost = 0%Z
  \/ bucket_ok (ms now) (w_db w') /\ forall tn, (ms now <= tn)%Z ->
       inject_Z (granted r cost) + potential (ms now) tn (w_db w') <= potential t tn (w_db w) + B * call_error
       /\ inject_Z (granted r cost) + potential (ms now) tn (w_db w') <= B + acc (tn - ms now) + B * call_error.
Proof using Hwindow Hlimit laws.
  intros Hok Ht. unfold Allow. destruct (_ || _) eqn:Hv; [by left|]. rewrite !orb_false_iff in Hv.
  destruct Hv as [[[[[[_ _] _] Hcost] _] _] _]. unfold mbind, M_bind, on_error, exec, tokenBucketScript. cbn zeta.
  fold (script_state (ms now) (w_db w)). pose proof (state_pos t (ms now) (w_db w)) as Hpos.
  destruct (spend_bound (ms now) limit wms cost (script_state (ms now) (w_db w)) Hlimit wms_pos ltac:(lia)
    (fun t0 l => Hpos t0 l Hok)) as [Htok Hsum]. pose proof (refilled_potential t (ms now) (w_db w) Hok Ht) as Hpot.
  destruct (refilled_bound (ms now) limit wms (script_state (ms now) (w_db w)) Hlimit wms_pos (fun t0 l => Hpos t0 l Hok)) as [[_ Hmax] _].
  pose proof rnd_error_pos as Hu. pose proof (inject_pos limit Hlimit) as HB.
  set (sp := spend (ms now) limit wms cost (script_state (ms now) (w_db w))) in *.
  set (e := (ms now + (2 * window) `quot` Millisecond)%Z). set (db' := <[key := mkBucket (str (sp_tokens sp)) (ms now) e]> (w_db w)).
  assert (bucket_ok (ms now) db') as Hok'.
  { intros b Hb. unfold db' in Hb. rewrite lookup_insert_eq in Hb. injection Hb as <-. cbn. split; [by apply str_bounds|]. by split. }
  assert (forall fs, let '(r, w') := decision limit (sp_allowed sp, str (sp_tokens sp), sp_reset_ms sp, sp_retry_ms sp) (mkWorld db' fs (w_locked w)) in
    w_db w' = w_db w /\ granted r cost = 0%Z
    \/ bucket_ok (ms now) (w_db w') /\ forall tn, (ms now <= tn)%Z ->
         inject_Z (granted r cost) + potential (ms now) tn (w_db w') <= potential t tn (w_db w) + B * call_error
         /\ inject_Z (granted r cost) + potential (ms now) tn (w_db w') <= B + acc (tn - ms now) + B * call_error) as Hgo.
  { intros fs. destruct (decision_granted (sp_allowed sp, str (sp_tokens sp), sp_reset_ms sp, sp_retry_ms sp) cost (mkWorld db' fs (w_locked w)) ltac:(lia))
      as [Hw Hg]. destruct (decision _ _ _) as [r w']. cbn [snd fst] in Hw, Hg. subst w'. right. split; [done|]. intros tn Htn. cbn [w_db].
    unfold db'. rewrite potential_stored. pose proof (potential_later t (ms now) tn (w_db w) Hok Ht Htn). unfold call_error. rewrite Qmult_plus_distr_r.
    assert (0 <= B * ((1 + u) * (1 + u) * (1 + u) - 1)) by (apply Qmult_le_0_compat; nra). split; lra. }
  destruct (w_faults w) as [|[] fs]; [apply Hgo|by left|apply Hgo].
Qed.
Lemma step_error n : B * ((n + inject_Z 1) * call_error) == B * (n * call_error) + B * call_error.
Proof using. change (inject_Z 1) with 1. ring. Qed.
Lemma grants_bounded calls : forall w t tn,
  bucket_ok t (w_db w) -> in_time t tn calls ->
  inject_Z (grants key limit window calls w) <= potential t tn (w_db w) + B * (inject_Z (Z.of_nat (length calls)) * call_error).
Proof using Hwindow Hlimit laws.
  pose proof call_error_pos as He. pose proof (inject_pos limit Hlimit) as HB.
  induction calls as [|[now cost] calls IH]; intros w t tn Hok Htime.
  - cbn [grants length in_time] in *. change (inject_Z (Z.of_nat 0)) with 0. change (inject_Z 0) with 0. rewrite Qmult_0_l, Qmult_0_r, Qplus_0_r.
    unfold potential. destruct (w_db w !! key) as [b|] eqn:E.
    + destruct (Hok b E) as (H1 & H2 & _). pose proof (acc_nonneg (tn - bk_last_ms b) ltac:(lia)). lra.
    + pose proof (acc_nonneg (tn - t) ltac:(lia)). lra.
  - cbn [grants length]. destruct Htime as [Ht Htime]. pose proof (allow_step now cost w t Hok Ht) as Hstep.
    destruct (Allow _ _ _ _ _ _ _ w) as [r w']. pose proof (in_time_le _ _ _ Htime) as Htn. rewrite inject_Z_plus.
    rewrite Nat2Z.inj_succ. change (Z.succ ?n) with (n + 1)%Z. rewrite inject_Z_plus.
    rewrite step_error.
    destruct Hstep as [[Hdb Hg]|[Hok' Hle]].
    + rewrite Hg. assert (bucket_ok (ms now) (w_db w')) as Hok'. { rewrite Hdb. intros b Hb. destruct (Hok b Hb) as (? & ? & ?). split; [done|split; [lia|done]]. }
      pose proof (IH w' (ms now) tn Hok' Htime) as Hih. rewrite Hdb in Hih.
      assert (potential (ms now) tn (w_db w) <= potential t tn (w_db w)).
      { unfold potential. destruct (w_db w !! key); [lra|]. replace (tn - t)%Z with ((ms now - t) + (tn - ms now))%Z by lia. rewrite acc_add.
        pose proof (acc_nonneg (ms now - t) ltac:(lia)). lra. }
      assert (0 <= B * call_error) by (apply Qmult_le_0_compat; lra). change (inject_Z 0) with 0. lra.
    + pose proof (IH w' (ms now) tn Hok' Htime) as Hih. destruct (Hle tn Htn) as [Hle' _]. lra.
Qed.
Lemma bucket_later t t' db : bucket_ok t db -> (t <= t')%Z -> bucket_ok t' db.
Proof. intros Hok Ht b Hb. destruct (Hok b Hb) as (? & ? & ?). split; [done|split; [lia|done]]. Qed.
Lemma after_ok calls : forall w t tn, bucket_ok t (w_db w) -> in_time t tn calls -> bucket_ok tn (w_db (after key limit window calls w)).
Proof using Hwindow Hlimit laws.
  induction calls as [|[now cost] calls IH]; intros w t tn Hok Htime; [by eapply bucket_later|]. destruct Htime as [Ht Htime].
  cbn [after]. apply (IH _ (ms now)); [|done]. pose proof (allow_step now cost w t Hok Ht) as Hstep.
  destruct (Allow _ _ _ _ _ _ _ w) as [r w']. cbn [snd]. destruct Hstep as [[-> _]|[Hok' _]]; [by eapply bucket_later|done].
Qed.
(** Whatever is in the bucket, no more than its size can be taken at once. *)
Lemma grants_capped calls : forall w t tn,
  bucket_ok t (w_db w) -> in_time t tn calls ->
  inject_Z (grants key limit window calls w) <= B + acc (tn - t) + B * (inject_Z (Z.of_nat (length calls)) * call_error).
Proof using Hwindow Hlimit laws.
  pose proof call_error_pos as He. pose proof (inject_pos limit Hlimit) as HB.
  induction calls as [|[now cost] calls IH]; intros w t tn Hok Htime.
  - cbn [grants length in_time] in *. change (inject_Z (Z.of_nat 0)) with 0. change (inject_Z 0) with 0. rewrite Qmult_0_l, Qmult_0_r, Qplus_0_r.
    pose proof (acc_nonneg (tn - t) ltac:(lia)). lra.
  - cbn [grants length]. destruct Htime as [Ht Htime]. pose proof (allow_step now cost w t Hok Ht) as Hstep.
    destruct (Allow _ _ _ _ _ _ _ w) as [r w']. pose proof (in_time_le _ _ _ Htime) as Htn. rewrite inject_Z_plus.
    rewrite Nat2Z.inj_succ. change (Z.succ ?n) with (n + 1)%Z. rewrite inject_Z_plus. rewrite step_error.
    replace (tn - t)%Z with ((ms now - t) + (tn - ms now))%Z by lia. rewrite acc_add. pose proof (acc_nonneg (ms now - t) ltac:(lia)).
    assert (0 <= B * call_error) by (apply Qmult_le_0_compat; lra). destruct Hstep as [[Hdb Hg]|[Hok' Hle]].
    + rewrite Hg. assert (bucket_ok (ms now) (w_db w')) as Hok' by (rewrite Hdb; by eapply bucket_later).
      pose proof (IH w' (ms now) tn Hok' Htime) as Hih. change (inject_Z 0) with 0. lra.
    + pose proof (grants_bounded calls w' (ms now) tn Hok' Htime) as Hih. destruct (Hle tn Htn) as [_ Hle']. lra.
Qed.
End one.

(** C32: between any two times calls are granted no more in total than the limit and what
    comes in meanwhile, limit tokens per window, up to the error of the arithmetic:
    whatever was called before, for any number of calls at any times, also when the
    bucket expires or calls fail. *)
Theorem rate_bounded key limit window earlier calls w t0 t tn :
  (0 < limit)%Z -> (Second <= window)%Z -> w_db w !! key = None -> in_time t0 t earlier -> in_time t tn calls ->
  inject_Z (grants key limit window calls (after key limit window earlier w))
  <= inject_Z limit * (1 + inject_Z (tn - t) / inject_Z (window `quot` Millisecond) + inject_Z (Z.of_nat (length calls)) * call_error).
Proof.
  intros Hl Hw Hnone Ht0 Ht. assert (bucket_ok key window t0 (w_db w)) as Hok by (intros b Hb; congruence).
  pose proof (after_ok key limit window Hl Hw earlier w t0 t Hok Ht0) as Hok'.
  pose proof (grants_capped key limit window Hl Hw calls _ t tn Hok' Ht) as Hg. unfold accrued in Hg. rewrite inject_Z_mult in Hg.
  pose proof (inject_pos _ (wms_pos window Hw)) as HW.
  assert (inject_Z (tn - t) * inject_Z limit / inject_Z (window `quot` Millisecond) == inject_Z limit * (inject_Z (tn - t) / inject_Z (window `quot` Millisecond)))
    as E by (field; lra). rewrite E in Hg. lra.
Qed.

(** ** A call that answers *)

Lemma ceiling_le q z : q <= inject_Z z -> (Qceiling q <= z)%Z.
Proof. intros Hq. rewrite <- (Qceiling_Z z). by apply Qceiling_resp_le. Qed.
Lemma ceiling_nonneg q : 0 <= q -> (0 <= Qceiling q)%Z.
Proof. intros Hq. change 0%Z with (Qceiling (inject_Z 0)). by apply Qceiling_resp_le. Qed.
(** Waiting for what is missing takes no longer than four windows. *)
Lemma wait_bound missing burst window :
  (0 < burst)%Z -> (0 < window)%Z -> 0 <= missing <= inject_Z burst -> (0 <= wait_ms missing burst window <= 4 * window)%Z.
Proof using laws.
  intros Hb%inject_pos Hw%inject_pos [Hm0 Hm1]. pose proof rnd_error_pos as Hu. pose proof rnd_error_small as Hs. unfold wait_ms.
  set (W := inject_Z window) in *. set (C := inject_Z burst) in *.
  assert (0 <= missing * W) as Hp by (apply Qmult_le_0_compat; lra). pose proof (rnd_pos _ Hp) as Hp1. pose proof (rnd_le _ Hp) as Hl1.
  pose proof (div_pos _ _ Hb Hp1) as Hp2. pose proof (rnd_pos _ Hp2) as Hp3. pose proof (rnd_le _ Hp2) as Hl2.
  assert (missing * W <= C * W) as Hm by (apply Qmult_le_compat_r; lra).
  assert (rnd (missing * W) <= 2 * W * C) as H3 by nra. apply (div_le _ _ _ Hb) in H3.
  assert (2 * W * C / C == 2 * W) as E by (field; lra). rewrite E in H3.
  split; [by apply ceiling_nonneg|]. apply ceiling_le. rewrite inject_Z_mult. fold W. change (inject_Z 4) with 4. nra.
Qed.
Lemma spend_range now burst window cost b :
  (0 < burst <= 2 ^ 53)%Z -> (0 < window)%Z -> (0 < cost <= burst)%Z -> (forall t l, b = Some (t, l) -> 0 <= t) ->
  let s := spend now burst window cost b in
  0 <= sp_tokens s <= inject_Z burst
  /\ (now <= sp_reset_ms s <= now + 4 * window)%Z
  /\ (0 <= sp_retry_ms s <= 4 * window)%Z
  /\ sp_allowed s = Qle_bool (inject_Z cost) (refilled now burst window b)
  /\ (sp_allowed s = true -> sp_retry_ms s = 0%Z).
Proof using laws.
  intros Hb Hw Hc Hpos. destruct (refilled_bound now burst window b ltac:(lia) Hw Hpos) as [[H0 H1] _].
  pose proof (inject_pos cost ltac:(lia)) as HC. assert (inject_Z cost <= inject_Z burst) as HCB by (rewrite <- Zle_Qle; lia).
  unfold spend. cbn zeta. cbn [sp_tokens sp_allowed sp_reset_ms sp_retry_ms]. set (r := refilled now burst window b) in *.
  assert (forall x, 0 <= x <= inject_Z burst -> 0 <= rnd x <= inject_Z burst) as Hr.
  { intros x [Hx0 Hx1]. split; [by apply rnd_pos|]. apply rnd_below; [done|lia]. }
  assert (forall x, 0 <= x <= inject_Z burst -> (0 <= wait_ms (rnd x) burst window <= 4 * window)%Z) as Hwait.
  { intros x Hx. apply wait_bound; [lia|done|]. by apply Hr. }
  destruct (Qle_bool (inject_Z cost) r) eqn:E.
  - apply Qle_bool_iff in E. pose proof (Hr (r - inject_Z cost) ltac:(lra)) as Hl. split; [done|].
    set (left := rnd (r - inject_Z cost)) in *. destruct Hl as [Hl0 Hl1]. pose proof (Hwait (inject_Z burst - left) ltac:(lra)). repeat split; (lia || done).
  - assert (r < inject_Z cost) as Hlt. { apply Qnot_le_lt. intros Hn. apply Qle_bool_iff in Hn. congruence. }
    split; [done|]. pose proof (Hwait (inject_Z burst - r) ltac:(lra)). pose proof (Hwait (inject_Z cost - r) ltac:(lra)).
    repeat split; (lia || done).
Qed.
Lemma decision_answers limit allowed remaining reset retry w :
  0 <= remaining <= inject_Z limit -> (0 < reset < 10 ^ 14)%Z -> (0 <= retry < 10 ^ 14)%Z ->
  decision limit (allowed, remaining, reset, retry) w
  = (Ok (mkRateDecision allowed remaining (reset * Millisecond) (retry * Millisecond)), w).
Proof using.
  intros [H0 H1] Hreset Hretry. unfold decision. apply Qle_bool_iff in H0, H1. rewrite H0, H1. cbn [negb orb]. unfold parseScriptInt.
  rewrite !(proj2 (Z.ltb_lt _ _)) by lia. rewrite (proj2 (Z.leb_gt _ _)), (proj2 (Z.ltb_ge _ _)) by lia. done.
Qed.

(** A call with valid arguments and a limit of at most 10^14 is answered: it is allowed
    just when the refilled bucket holds the cost, what remains is between zero and the
    limit, an allowed call has nothing to wait for, and a refused one at most four
    windows. *)
Theorem allow_answers now key limit window cost w t :
  validRateLimitKey key = true -> (0 < cost <= limit)%Z -> (limit <= 10 ^ 14)%Z -> (Second <= window <= 24 * Hour)%Z ->
  (0 < ms now < 9 * 10 ^ 13)%Z -> bucket_ok key window t (w_db w) -> w_faults w = [] ->
  exists d w',
    Allow false false now key limit window cost w = (Ok d, w')
    /\ rd_Allowed d = Qle_bool (inject_Z cost) (refilled (ms now) limit (window `quot` Millisecond) (script_state key (ms now) (w_db w)))
    /\ 0 <= rd_Remaining d <= inject_Z limit
    /\ (rd_Allowed d = true -> rd_RetryAfter d = 0%Z)
    /\ (0 <= rd_RetryAfter d <= 4 * window)%Z.
Proof using laws.
  intros Hkey Hcost Hlimit Hwindow Hnow Hok Hf. pose proof (wms_pos window ltac:(lia)) as Hw.
  assert (0 <= window)%Z as Hw0 by (unfold Second, Millisecond, Microsecond in *; lia).
  pose proof (Z.mul_quot_le window Millisecond Hw0 ltac:(done)) as Hq.
  assert ((window `quot` Millisecond <= 24 * 3600000)%Z) as Hday by (unfold Hour, Minute, Second, Millisecond, Microsecond in *; lia).
  destruct (spend_range (ms now) limit (window `quot` Millisecond) cost (script_state key (ms now) (w_db w)) ltac:(lia) Hw Hcost
    (fun t0 l => state_pos key window t (ms now) (w_db w) t0 l Hok)) as ([H0 H1] & Hreset & Hretry & Hal & Hal0).
  unfold Allow. rewrite Hkey. cbn [negb orb].
  rewrite !(proj2 (Z.leb_gt _ _)), !(proj2 (Z.ltb_ge _ _)) by lia. cbn [orb].
  unfold mbind, M_bind, on_error, exec, tokenBucketScript. cbn zeta. rewrite Hf. fold (script_state key (ms now) (w_db w)).
  set (s := spend _ _ _ _ _) in *. assert (0 <= str (sp_tokens s) <= inject_Z limit) as Hs.
  { split; [by apply str_bounds|]. apply str_below; [done|lia]. }
  rewrite decision_answers; [|done|lia|lia]. eexists _, _. split; [done|]. cbn [rd_Allowed rd_Remaining rd_RetryAfter].
  split; [done|]. split; [done|]. split; [intros Ha; by rewrite (Hal0 Ha)|]. unfold Millisecond, Microsecond in *. lia.
Qed.
End laws.

(** ** Exact arithmetic, and the witnesses *)

#[local] Instance exact_numbers : LuaNumbers := {| rnd q := q; str q := q; rnd_error := 0; str_error := 0 |}.
#[local] Instance exact_laws : LuaLaws.
Proof. split; cbn; intros; lra. Qed.
Definition rate_key : string := "t:{a}:rate".
Definition empty_rate : World RateDB := mkWorld ∅ [] ∅.
(** Three calls at once for two tokens each from five, after one of them a second before,
    and one more after half a window. *)
Definition rate_before : list (Z * Z) := [(3599000000, 2)].
Definition rate_calls : list (Z * Z) := [(3600000000, 2); (3600000000, 2); (3600000000, 2); (3600500000, 2)].
Lemma rate_bounded_witness :
  grants rate_key 5 Second rate_calls (after rate_key 5 Second rate_before empty_rate) = 6
  /\ (inject_Z (grants rate_key 5 Second rate_calls (after rate_key 5 Second rate_before empty_rate))
      <= inject_Z 5 * (1 + inject_Z (3600500 - 3600000) / inject_Z (Second `quot` Millisecond)
                       + inject_Z (Z.of_nat (length rate_calls)) * call_error))%Q.
Proof.
  split; [vm_compute; reflexivity|].
  apply (rate_bounded rate_key 5 Second rate_before rate_calls empty_rate 0 3600000 3600500);
    [reflexivity|vm_compute; discriminate|reflexivity|cbn [in_time rate_before]; repeat split; vm_compute; discriminate
    |cbn [in_time rate_calls]; repeat split; vm_compute; discriminate].
Defined.
Lemma allow_answers_witness :
  exists d w', Allow false false 3600000000 rate_key 5 Second 2 empty_rate = (Ok d, w') /\ rd_Allowed d = true.
Proof.
  destruct (allow_answers 3600000000 rate_key 5 Second 2 empty_rate 3600000) as (d & w' & Hr & Hal & _);
    [vm_compute; reflexivity|lia|lia|vm_compute; split; discriminate|vm_compute; split; reflexivity|intros b Hb; cbn in Hb; discriminate|reflexivity|].
  exists d, w'. split; [exact Hr|]. rewrite Hal. vm_compute. reflexivity.
Defined.
