(* ===== verification/RedisRealtime.v ===== *)
(** * Realtime state in Redis: history, presence and connections
    ([redisstate/realtime_history.go], [realtime_presence.go], [realtime_connections.go])

    The stores behind the realtime hub. [now] is the clock of the server in microseconds
    when a command runs; the clock of the service, in nanoseconds, is an argument of its
    own where the code reads it. *)

From Stdlib Require Import Ascii String.
From S2P Require Import Prelude GoLib Json JsonEncode Crypto QueueSchema FunctionResult RedisKeys RedisServer RedisOwnership.
Import Keys Redis.

(** ** History: a stream of the last messages of a channel *)

Module History.

Definition maxRealtimeHistoryPayload : Z := 64 * 1024.
Abbreviation stream_id := (Z * Z)%type.
Abbreviation stream_entry := (Z * Z * string)%type.
Record RealtimeHistoryEntry := mkHistoryEntry { he_Cursor : string; he_Payload : string }.
#[export] Instance history_entry_eq_dec : EqDecision RealtimeHistoryEntry.
Proof. solve_decision. Defined.

(** Identifiers as the server writes and reads them: two numbers of 64 bits. *)
Definition id_text (id : stream_id) : string := decimal id.1 ++ "-" ++ decimal id.2.
Definition split_id (s : string) : option (list ascii * list ascii) := upto "-" (bytes s).
Definition redisStreamIDPattern (s : string) : bool :=
  match split_id s with
  | Some (c :: a, d :: b) => forallb is_digit (c :: a) && forallb is_digit (d :: b)
  | _ => false
  end.
Definition parse_id (s : string) : option stream_id :=
  match split_id s with
  | Some (a, b) => x ← ParseUint (of_bytes a); y ← ParseUint (of_bytes b); Some (x, y)
  | None => None
  end.
Definition id_lt (a b : stream_id) : Prop := a.1 < b.1 \/ a.1 = b.1 /\ a.2 < b.2.
#[export] Instance id_lt_dec a b : Decision (id_lt a b).
Proof. unfold id_lt. apply _. Defined.

(** [XADD key MAXLEN = n * payload p]: an identifier above the last one, and the newest
    [n] entries remain. *)
Definition next_id (now_ms : Z) (top : stream_id) : option stream_id :=
  if top.1 <? now_ms then Some (now_ms, 0)
  else if top.2 + 1 <? 2 ^ 64 then Some (top.1, top.2 + 1)
  else if top.1 + 1 <? 2 ^ 64 then Some (top.1 + 1, 0) else None.
Definition newest (n : Z) (es : list stream_entry) : list stream_entry := drop (length es - Z.to_nat n) es.
Definition stream (now : Z) (key : string) (db : RedisDB) : res (stream_id * list stream_entry * option Z) :=
  match peek now key db with
  | None => Ok ((0, 0), [], None)
  | Some (mkEntry (VStream top es) t) => Ok (top, es, t)
  | Some _ => Err DriverError
  end.
Definition XADD (now : Z) (key : string) (maxlen : Z) (p : string) (db : RedisDB) : res (stream_id * RedisDB) :=
  match stream now key db with
  | Err e => Err e
  | Ok (top, es, t) =>
      match next_id (ms now) top with
      | None => Err DriverError
      | Some id => Ok (id, <[key := mkEntry (VStream id (newest maxlen (es ++ [(id, p)])%list)) t]> db)
      end
  end.
(** [XREVRANGE key end - COUNT n], from the newest or from below an identifier, of which
    there is none below the least. *)
Definition entries_below (c : option stream_id) (es : list stream_entry) : list stream_entry :=
  match c with Some id => filter (fun e : stream_entry => id_lt e.1 id) es | None => es end.
Definition XREVRANGE (now : Z) (key : string) (c : option stream_id) (n : Z) (db : RedisDB) : res (list stream_entry) :=
  if bool_decide (c = Some (0, 0)) then Err DriverError else
  match stream now key db with
  | Err e => Err e
  | Ok (_, es, _) => Ok (take (Z.to_nat n) (reverse (entries_below c es)))
  end.

Definition appendRealtimeHistoryScript (now : Z) (key : string) (maxlen : Z) (p : string) (ttl : Z) (db : RedisDB)
    : res (string * RedisDB) :=
  match XADD now key maxlen p db with
  | Err e => Err e
  | Ok (id, db) => Ok (id_text id, PEXPIRE now key ttl db)
  end.
Definition encodeHistoryCursor (id : string) : string := b64_EncodeToString id.
Definition decodeHistoryCursor (cursor : string) : option string :=
  match b64_DecodeString cursor with
  | Some raw => if redisStreamIDPattern raw then Some raw else None
  | None => None
  end.

Section store.
Context (keys : Keyspace) (maxLen ttl : Z).

Definition history_key (appID channel : string) : option string :=
  if (maxLen <? 1) || (10000 <? maxLen) || (ttl <=? 0) then None else RealtimeHistory keys appID channel.
Definition Append (now : Z) (appID channel payload : string) : M_redis string :=
  match history_key appID channel with
  | None => fail InvalidRecord
  | Some key =>
      if negb (json_Valid payload) || bool_decide (payload = "") || (maxRealtimeHistoryPayload <? len payload) then fail InvalidRecord else
      id ← call false (appendRealtimeHistoryScript now key maxLen payload (ttl `quot` Millisecond));
      if redisStreamIDPattern id then mret (encodeHistoryCursor id) else fail RedisUnavailable
  end.
Definition history_entry (e : stream_entry) : option RealtimeHistoryEntry :=
  if negb (json_Valid e.2) || (maxRealtimeHistoryPayload <? len e.2) || negb (redisStreamIDPattern (id_text e.1)) then None
  else Some (mkHistoryEntry (encodeHistoryCursor (id_text e.1)) e.2).
(** What [Read] makes of the messages it got, newest first. *)
Definition history_page (limit : Z) (found : list stream_entry) : M_redis (list RealtimeHistoryEntry * string) :=
  let hasMore := limit <? Z.of_nat (length found) in
  let messages := if hasMore then take (Z.to_nat limit) found else found in
  match mapM history_entry messages with
  | None => fail CorruptRecord
  | Some entries =>
      let next := match last messages with
                  | Some e => if hasMore then encodeHistoryCursor (id_text e.1) else ""
                  | None => ""
                  end in
      mret (reverse entries, next)
  end.
(** The start of the range: a cursor that is an identifier too large for the server
    makes the command fail. *)
Definition read_range (now : Z) (key : string) (start : option string) (n : Z) (db : RedisDB) : res (list stream_entry * RedisDB) :=
  let range c := match XREVRANGE now key c n db with Ok found => Ok (found, db) | Err e => Err e end in
  match start with
  | None => range None
  | Some text => match parse_id text with Some id => range (Some id) | None => Err DriverError end
  end.
Definition Read (now : Z) (appID channel cursor : string) (limit : Z) : M_redis (list RealtimeHistoryEntry * string) :=
  match history_key appID channel with
  | None => fail InvalidRecord
  | Some key =>
      if (limit <? 1) || (100 <? limit) then fail InvalidRecord else
      match (if bool_decide (cursor = "") then Some None else Some <$> decodeHistoryCursor cursor) with
      | None => fail InvalidRecord
      | Some start => found ← call false (read_range now key start (limit + 1)); history_page limit found
      end
  end.
End store.

End History.

(** ** Presence: the members of a channel *)

Module Presence.

Record RealtimePresence := mkPresence {
  pr_AppID : string;
  pr_Channel : string;
  pr_ClientID : string;
  pr_ConnectionID : string;
  pr_Data : string;
  pr_LastSeenAt : Z
}.
Definition presence_json (p : RealtimePresence) : string :=
  object_text
    [("app_id", json_quote (pr_AppID p)); ("channel", json_quote (pr_Channel p)); ("client_id", json_quote (pr_ClientID p));
     ("connection_id", json_quote (pr_ConnectionID p)); ("data", compact (pr_Data p));
     ("last_seen_at", json_quote (Format_RFC3339Nano (pr_LastSeenAt p)))].

(** [SET] fails when the time to live is less than a millisecond, after the members
    whose time has come were removed. *)
Definition upsertPresenceScript (now : Z) (memberKey indexKey : string) (now_ms : Z) (p : string) (ttl expires : Z) (id : string) (db : RedisDB)
    : res (bool * Z) * RedisDB :=
  let joined := negb (EXISTS now memberKey db) in
  match on_zset now indexKey (fun s => (tt, ZREMRANGEBYSCORE now_ms s)) db with
  | Err e => (Err e, db)
  | Ok (_, db) =>
      match SET_PX now memberKey (PText p) ttl db with
      | Err e => (Err e, db)
      | Ok db =>
          match on_zset now indexKey (fun s => let s := ZADD expires id s in ((joined, ZCARD s), s)) db with
          | Ok (r, db) => (Ok r, db)
          | Err e => (Err e, db)
          end
      end
  end.
Definition deletePresenceScript (now : Z) (memberKey indexKey id : string) (now_ms : Z) (db : RedisDB) : res Z * RedisDB :=
  let db := DEL memberKey db in
  match on_zset now indexKey (fun s => let s := ZREMRANGEBYSCORE now_ms (ZREM id s) in (ZCARD s, s)) db with
  | Ok (n, db) => (Ok n, db)
  | Err e => (Err e, db)
  end.
Definition expirePresenceScript (now : Z) (indexKey : string) (now_ms limit : Z) : RedisDB -> res ((list string * Z) * RedisDB) :=
  on_zset now indexKey (fun s =>
    let expired := ZRANGEBYSCORE now_ms limit s in
    let s := foldr ZREM s expired in ((expired, ZCARD s), s)).

Section store.
Context (keys : Keyspace).

Definition presence_input (p : RealtimePresence) (ttl : Z) : M_redis (string * string) :=
  if negb (validKeyPart (pr_AppID p)) || negb (validKeyPart (pr_Channel p)) || negb (validKeyPart (pr_ClientID p))
     || negb (validKeyPart (pr_ConnectionID p)) || (ttl <=? 0) then fail InvalidRecord else
  Ownership.key_or (Keys.RealtimePresence keys (pr_AppID p) (pr_Channel p) (pr_ConnectionID p)) (fun memberKey =>
  Ownership.key_or (RealtimePresenceIndex keys (pr_AppID p) (pr_Channel p)) (fun indexKey => mret (memberKey, indexKey))).
(** [clock1] and [clock2] are the two readings of [time.Now]. *)
Definition Upsert (now clock1 clock2 : Z) (p : RealtimePresence) (ttl : Z) : M_redis (bool * Z) :=
  if negb (json_Valid (pr_Data p)) then fail InvalidRecord else
  '(memberKey, indexKey) ← presence_input p ttl;
  let payload := presence_json (mkPresence (pr_AppID p) (pr_Channel p) (pr_ClientID p) (pr_ConnectionID p) (pr_Data p) clock1) in
  if 8 * 1024 <? len payload then fail InvalidRecord else
  call_script false (upsertPresenceScript now memberKey indexKey (clock2 `div` Millisecond) payload (ttl `quot` Millisecond)
    ((clock2 + ttl) `div` Millisecond) (pr_ConnectionID p)).
Definition Delete (now clock : Z) (p : RealtimePresence) : M_redis Z :=
  '(memberKey, indexKey) ← presence_input p Millisecond;
  call_script false (deletePresenceScript now memberKey indexKey (pr_ConnectionID p) (clock `div` Millisecond)).
Definition Expire (now : Z) (appID channel : string) (clock limit : Z) : M_redis (list string * Z) :=
  if IsZero clock || (limit <? 1) || (500 <? limit) then fail InvalidRecord else
  Ownership.key_or (RealtimePresenceIndex keys appID channel) (fun indexKey =>
    call false (expirePresenceScript now indexKey (clock `div` Millisecond) limit)).
End store.

End Presence.

(** ** Connections: who is connected to an application *)

Module Connections.
Import Ownership.

Record RealtimeConnection := mkConnection {
  rc_AppID : string;
  rc_ClientID : string;
  rc_ConnectionID : string;
  rc_InstanceID : string;
  rc_Generation : Z;
  rc_Protocol : string;
  rc_Channels : list string;
  rc_ConnectedAt : Z;
  rc_LastSeenAt : Z
}.
Definition normalizedChannels (channels : list string) : list string := sort_strings channels.
Definition set_channels (c : RealtimeConnection) (channels : list string) (seen : Z) : RealtimeConnection :=
  mkConnection (rc_AppID c) (rc_ClientID c) (rc_ConnectionID c) (rc_InstanceID c) (rc_Generation c) (rc_Protocol c) channels
    (rc_ConnectedAt c) seen.
Definition realtimeConnectionRecord (c : RealtimeConnection) (lastSeen : Z) : gmap string field :=
  <["version" := FNumber 1]> (<["app_id" := marshal (rc_AppID c)]> (<["client_id" := marshal (rc_ClientID c)]>
    (<["connection_id" := marshal (rc_ConnectionID c)]> (<["instance_id" := marshal (rc_InstanceID c)]>
    (<["generation" := marshal (generationString (rc_Generation c))]> (<["protocol" := marshal (rc_Protocol c)]>
    (<["channels" := FStrings (coerce <$> normalizedChannels (rc_Channels c))]>
    (<["connected_at_us" := marshal (fixedWidthUnixMicro (rc_ConnectedAt c))]>
    {["last_seen_at_us" := marshal (fixedWidthUnixMicro lastSeen)]})))))))).

(** [update] writes the record the script was given and not its own encoding of it; it
    takes the name in the index from the record. *)
Definition updateRealtimeConnectionScript (now : Z) (memberKey indexKey appID instanceID generation : string)
    (incoming : gmap string field) (ttl expires : Z) (db : RedisDB) : res (Z * RedisDB) :=
  match GET now memberKey db with
  | Err e => Err e
  | Ok None => Ok (0, db)
  | Ok (Some (PText _)) => Err DriverError
  | Ok (Some (PObject current)) =>
      if negb (owned_by current appID instanceID generation) then Ok (-1, db) else
      match SET_PX now memberKey (PObject incoming) ttl db, incoming !! "connection_id" with
      | Ok db, Some (FString id) => on_zset now indexKey (fun s => (1, ZADD expires id s)) db
      | Ok _, _ => Err DriverError
      | Err e, _ => Err e
      end
  end.
Definition deleteRealtimeConnectionScript (now : Z) (memberKey indexKey appID instanceID generation id : string) (db : RedisDB)
    : res (Z * RedisDB) :=
  match GET now memberKey db with
  | Err e => Err e
  | Ok None => on_zset now indexKey (fun s => (0, ZREM id s)) db
  | Ok (Some (PText _)) => Err DriverError
  | Ok (Some (PObject current)) =>
      if negb (owned_by current appID instanceID generation) then Ok (-1, db)
      else on_zset now indexKey (fun s => (1, ZREM id s)) (DEL memberKey db)
  end.

Section store.
Context (keys : Keyspace).

Definition record (c : RealtimeConnection) (ttl : Z) : M_redis (gmap string field * string * string) :=
  if negb (validKeyPart (rc_AppID c)) || negb (validKeyPart (rc_ClientID c)) || negb (validKeyPart (rc_ConnectionID c))
     || negb (validKeyPart (rc_InstanceID c)) || (rc_Generation c =? 0) || bool_decide (rc_Protocol c = "") || IsZero (rc_ConnectedAt c)
     || (ttl <=? 0) || (100 <? Z.of_nat (length (rc_Channels c))) then fail InvalidRecord else
  key_or (Keys.RealtimeConnection keys (rc_AppID c) (rc_ConnectionID c)) (fun memberKey =>
  key_or (RealtimeConnectionIndex keys (rc_AppID c)) (fun indexKey =>
    let lastSeen := if IsZero (rc_LastSeenAt c) then rc_ConnectedAt c else rc_LastSeenAt c in
    mret (realtimeConnectionRecord c lastSeen, memberKey, indexKey))).
(** The commands of a transaction pipeline run as one. *)
Definition put_commands (now : Z) (memberKey indexKey id : string) (rec : gmap string field) (ttl expires : Z) (db : RedisDB)
    : res (unit * RedisDB) :=
  match SET_PX now memberKey (PObject rec) ttl db with
  | Err e => Err e
  | Ok db => on_zset now indexKey (fun s => (tt, ZADD expires id s)) db
  end.
Definition Put (now clock : Z) (c : RealtimeConnection) (ttl : Z) : M_redis unit :=
  '(rec, memberKey, indexKey) ← record c ttl;
  call false (put_commands now memberKey indexKey (rc_ConnectionID c) rec (px ttl) ((clock + ttl) `div` Millisecond)).
(** [clock1] and [clock2] are the two readings of [time.Now]. *)
Definition update (now clock1 clock2 : Z) (c : RealtimeConnection) (channels : list string) (ttl : Z) : M_redis unit :=
  let c := set_channels c (normalizedChannels channels) clock1 in
  '(rec, memberKey, indexKey) ← record c ttl;
  r ← call false (updateRealtimeConnectionScript now memberKey indexKey (rc_AppID c) (rc_InstanceID c)
                    (generationString (rc_Generation c)) rec (ttl `quot` Millisecond) ((clock2 + ttl) `div` Millisecond));
  ownershipResult r.
Definition Refresh (now clock1 clock2 : Z) (c : RealtimeConnection) (ttl : Z) : M_redis unit :=
  update now clock1 clock2 c (rc_Channels c) ttl.
Definition UpdateChannels (now clock1 clock2 : Z) (c : RealtimeConnection) (channels : list string) (ttl : Z) : M_redis unit :=
  update now clock1 clock2 c channels ttl.
Definition Delete (now : Z) (c : RealtimeConnection) : M_redis unit :=
  '(_, memberKey, indexKey) ← record c Millisecond;
  r ← call false (deleteRealtimeConnectionScript now memberKey indexKey (rc_AppID c) (rc_InstanceID c)
                    (generationString (rc_Generation c)) (rc_ConnectionID c));
  ownershipResult r.

Definition decodeRealtimeConnection (p : payload) : option RealtimeConnection :=
  match p with
  | PText _ => None
  | PObject fs =>
      version ← go_number fs "version"; app ← go_string fs "app_id"; client ← go_string fs "client_id";
      conn ← go_string fs "connection_id"; inst ← go_string fs "instance_id"; gen ← go_string fs "generation";
      protocol ← go_string fs "protocol"; channels ← go_strings fs "channels";
      connected ← go_string fs "connected_at_us"; seen ← go_string fs "last_seen_at_us";
      generation ← ParseUint gen; connectedAt ← parse_int64 connected; lastSeen ← parse_int64 seen;
      if negb (version =? 1) || (generation =? 0) || negb (validKeyPart app) || negb (validKeyPart client) || negb (validKeyPart conn)
         || negb (validKeyPart inst) || (100 <? Z.of_nat (length channels)) then None
      else Some (mkConnection app client conn inst generation protocol (normalizedChannels channels)
                   (connectedAt * Microsecond) (lastSeen * Microsecond))
  end.
Definition Get (now : Z) (appID connectionID : string) : M_redis RealtimeConnection :=
  key_or (Keys.RealtimeConnection keys appID connectionID) (fun memberKey =>
    payload ← GETs now memberKey;
    match payload with
    | None => fail RedisNotFound
    | Some p =>
        match decodeRealtimeConnection p with
        | Some c => if negb (bool_decide (rc_AppID c = appID)) || negb (bool_decide (rc_ConnectionID c = connectionID))
                    then fail RedisNotFound else mret c
        | None => fail RedisNotFound
        end
    end).
(** The loop of [List]; [nows] gives the clock of the server at each turn. *)
Fixpoint list_members (appID indexKey : string) (ids : list string) (nows : nat -> Z) : M_redis (list RealtimeConnection) :=
  match ids with
  | [] => mret []
  | id :: ids =>
      let now := nows 0%nat in let nows i := nows (S i) in
      match Keys.RealtimeConnection keys appID id with
      | None => fail CorruptRecord
      | Some memberKey =>
          payload ← GETs now memberKey;
          match payload with
          | None => _ ← ignore (call false (on_zset now indexKey (fun s => (tt, ZREM id s)))); list_members appID indexKey ids nows
          | Some p =>
              match decodeRealtimeConnection p with
              | Some c =>
                  if negb (bool_decide (rc_AppID c = appID)) || negb (bool_decide (rc_ConnectionID c = id)) then fail CorruptRecord
                  else others ← list_members appID indexKey ids nows; mret (c :: others)
              | None => fail CorruptRecord
              end
          end
      end
  end.
Definition ListConnections (now1 now2 : Z) (nows : nat -> Z) (appID : string) (clock limit : Z) : M_redis (list RealtimeConnection) :=
  if IsZero clock || (limit <? 1) || (500 <? limit) then fail InvalidRecord else
  key_or (RealtimeConnectionIndex keys appID) (fun indexKey =>
    _ ← call false (on_zset now1 indexKey (fun s => (tt, ZREMRANGEBYSCORE (clock `div` Millisecond) s)));
    ids ← call false (on_zset now2 indexKey (fun s => (ZRANGE limit s, s)));
    list_members appID indexKey ids nows).
End store.

End Connections.
