(* ===== verification/RedisRealtimeClaims.v ===== *)
(** * What the realtime state in Redis gives *)

From Stdlib Require Import Ascii String.
From S2P Require Import Prelude GoLib Json JsonEncode Crypto QueueSchema AuthClaims RedisKeys RedisServer RedisOwnership RedisRealtime.
Import Keys Redis.

(** ** History *)

Module HistoryClaims.
Import History.

Definition id_ok (id : stream_id) : Prop := 0 <= id.1 < 2 ^ 64 /\ 0 <= id.2 < 2 ^ 64.
Definition id_le (a b : stream_id) : Prop := ~ id_lt b a.
Lemma id_lt_trans a b c : id_lt a b -> id_lt b c -> id_lt a c.
Proof. unfold id_lt. lia. Qed.
Lemma id_le_lt a b c : id_le a b -> id_lt b c -> id_lt a c.
Proof. unfold id_le, id_lt. lia. Qed.
Lemma id_lt_le a b : id_lt a b -> id_le a b.
Proof. unfold id_le, id_lt. lia. Qed.
Lemma id_le_refl a : id_le a a.
Proof. unfold id_le, id_lt. lia. Qed.
Lemma id_le_trans a b c : id_le a b -> id_le b c -> id_le a c.
Proof. unfold id_le, id_lt. lia. Qed.
Lemma id_lt_irrefl a : ~ id_lt a a.
Proof. unfold id_lt. lia. Qed.
Lemma next_id_above now top id : id_ok top -> 0 <= now < 2 ^ 64 -> next_id now top = Some id -> id_lt top id /\ id_ok id.
Proof.
  unfold next_id, id_ok, id_lt. intros Ht Hn. repeat case_match; intros [= <-]; cbn; lia.
Qed.

Lemma filter_none {A} (P : A -> Prop) `{!forall a, Decision (P a)} l : Forall (fun a => ~ P a) l -> filter P l = [].
Proof. induction 1; [done|]. by rewrite filter_cons_False. Qed.
Lemma filter_every {A} (P : A -> Prop) `{!forall a, Decision (P a)} l : Forall P l -> filter P l = l.
Proof. induction 1; [done|]. rewrite filter_cons_True by done. by f_equal. Qed.

(** Identifiers are read back as they were written. *)
Lemma dash_digits l : forallb is_digit l = true -> "-"%char ∉ l.
Proof. rewrite forallb_forall. intros Hd Hin%list_elem_of_In%Hd. done. Qed.
Lemma id_text_split id : id_ok id -> split_id (id_text id) = Some (bytes (decimal id.1), bytes (decimal id.2)).
Proof.
  intros [[H1 _] [H2 _]]. destruct (decimal_text id.1 H1) as (_ & Hd & _). unfold split_id, id_text. rewrite !bytes_app.
  change (bytes "-") with ["-"%char]. cbn [app]. apply upto_sep. by apply dash_digits.
Qed.
Lemma id_text_pattern id : id_ok id -> redisStreamIDPattern (id_text id) = true.
Proof.
  intros Hid. unfold redisStreamIDPattern. rewrite (id_text_split id Hid). destruct Hid as [[H1 _] [H2 _]].
  destruct (decimal_text id.1 H1) as (N1 & D1 & _). destruct (decimal_text id.2 H2) as (N2 & D2 & _).
  destruct (bytes (decimal id.1)) as [|c a] eqn:E1; [by destruct (decimal id.1)|].
  destruct (bytes (decimal id.2)) as [|d b] eqn:E2; [by destruct (decimal id.2)|]. by rewrite D1, D2.
Qed.
Lemma id_text_parse id : id_ok id -> parse_id (id_text id) = Some id.
Proof.
  intros Hid. unfold parse_id. rewrite (id_text_split id Hid), !of_bytes_bytes. destruct Hid as [H1 H2].
  rewrite (parse_uint_text (decimal id.1) id.1 (decimal_text _ (proj1 H1)) (proj2 H1)). cbn.
  rewrite (parse_uint_text (decimal id.2) id.2 (decimal_text _ (proj1 H2)) (proj2 H2)). by destruct id.
Qed.
Definition cursor_text (c : option stream_id) : string :=
  match c with Some id => encodeHistoryCursor (id_text id) | None => "" end.
Lemma cursor_nonempty id : encodeHistoryCursor (id_text id) <> "".
Proof. apply b64_nonempty. unfold id_text. intros He%(f_equal bytes). rewrite bytes_app in He. by destruct (bytes (decimal id.1)). Qed.
Lemma cursor_decode id : id_ok id -> decodeHistoryCursor (encodeHistoryCursor (id_text id)) = Some (id_text id).
Proof. intros Hid. unfold decodeHistoryCursor, encodeHistoryCursor. by rewrite b64_roundtrip, id_text_pattern. Qed.

Section history.
Context (keys : Keyspace) (maxLen ttl : Z) (app ch key : string).
Context (Hkey : history_key keys maxLen ttl app ch = Some key) (Httl : Millisecond <= ttl).

(** The identifiers of a stream increase up to the last one, and every entry can be read. *)
Definition entry_ok (top : stream_id) (e : stream_entry) : Prop :=
  id_ok e.1 /\ id_lt (0, 0) e.1 /\ id_le e.1 top /\ json_Valid e.2 = true /\ len e.2 <= maxRealtimeHistoryPayload.
Definition stream_ok (top : stream_id) (es : list stream_entry) : Prop :=
  id_ok top /\ Forall (entry_ok top) es /\ StronglySorted (fun a b : stream_entry => id_lt a.1 b.1) es.
Definition history (T : Z) (top : stream_id) (es : list stream_entry) (db : RedisDB) : Prop :=
  stream_ok top es /\ exists t, T <= t /\ db !! key = Some (mkEntry (VStream top es) (Some t)).
(** What others do: the oldest entries may go, and new ones come after all. *)
Definition evolves (top : stream_id) (es : list stream_entry) (top' : stream_id) (es' : list stream_entry) : Prop :=
  id_le top top' /\ exists k new, es' = (drop k es ++ new)%list /\ Forall (fun e => id_lt top e.1) new.

Lemma evolves_refl top es : evolves top es top es.
Proof. split; [apply id_le_refl|]. exists 0%nat, []. by rewrite app_nil_r. Qed.
Lemma evolves_trans t1 e1 t2 e2 t3 e3 : evolves t1 e1 t2 e2 -> evolves t2 e2 t3 e3 -> evolves t1 e1 t3 e3.
Proof.
  intros [L (k & n & -> & Hn)] [L' (k' & n' & -> & Hn')]. split; [by eapply id_le_trans|].
  exists (k + k')%nat, (drop (k' - length (drop k e1)) n ++ n')%list. rewrite drop_app, drop_drop, <- app_assoc. split; [done|].
  apply Forall_app. split; [by apply Forall_drop|]. eapply Forall_impl; [exact Hn'|]. intros e. by apply id_le_lt.
Qed.
Lemma evolves_below top es top' es' c : evolves top es top' es' -> id_le c top -> exists x, entries_below (Some c) es = (x ++ entries_below (Some c) es')%list.
Proof.
  intros [_ (k & new & -> & Hnew)] Hc. exists (entries_below (Some c) (take k es)). unfold entries_below.
  rewrite <- (take_drop k es) at 1. rewrite !filter_app. f_equal.
  rewrite (filter_none _ new); [by rewrite app_nil_r|]. eapply Forall_impl; [exact Hnew|]. intros e He Hl.
  eapply (id_lt_irrefl c). eapply id_le_lt; [exact Hc|]. exact (id_lt_trans _ _ _ He Hl).
Qed.
Lemma evolves_old top es top' es' e : evolves top es top' es' -> e ∈ es' -> id_le e.1 top -> e ∈ es.
Proof.
  intros [_ (k & new & -> & Hnew)] [Hin|Hin]%elem_of_app Hle; [rewrite <- (take_drop k es); apply elem_of_app; by right|].
  rewrite Forall_forall in Hnew. destruct (id_lt_irrefl e.1). eapply id_le_lt; [exact Hle|]. by apply Hnew.
Qed.

(** ** Appending *)

Lemma newest_evolves n es e : exists k, newest n (es ++ [e]) = (drop k es ++ drop (k - length es) [e])%list.
Proof. exists (length (es ++ [e]) - Z.to_nat n)%nat. unfold newest. by rewrite drop_app. Qed.
Lemma sorted_drop (es : list stream_entry) k :
  StronglySorted (fun a b : stream_entry => id_lt a.1 b.1) es -> StronglySorted (fun a b : stream_entry => id_lt a.1 b.1) (drop k es).
Proof. revert k. induction es as [|e es IH]; intros [|k] Hs; [done..|]. inversion Hs. by apply IH. Qed.
Lemma sorted_snoc es (e : stream_entry) :
  StronglySorted (fun a b : stream_entry => id_lt a.1 b.1) es -> Forall (fun a => id_lt a.1 e.1) es ->
  StronglySorted (fun a b : stream_entry => id_lt a.1 b.1) (es ++ [e]).
Proof.
  induction es as [|a es IH]; intros Hs Hf; [repeat constructor|]. inversion Hs; inversion Hf; subst. constructor; [by apply IH|].
  apply Forall_app. by split; [|constructor].
Qed.
Lemma stream_ok_add top es id p n :
  stream_ok top es -> id_lt top id -> id_ok id -> id_lt (0, 0) id -> json_Valid p = true -> len p <= maxRealtimeHistoryPayload ->
  stream_ok id (newest n (es ++ [(id, p)])).
Proof.
  intros (Htop & Hall & Hs) Hlt Hid H0 Hp Hl. split; [done|]. unfold newest. split.
  - apply Forall_drop, Forall_app. split.
    + eapply Forall_impl; [exact Hall|]. intros e (? & ? & Hle & ?). split_and!; [done..| |naive_solver|naive_solver].
      eapply id_lt_le, id_le_lt; [exact Hle|done].
    + constructor; [|done]. split_and!; cbn; [done..|apply id_le_refl|done|done].
  - apply sorted_drop, sorted_snoc; [done|]. eapply Forall_impl; [exact Hall|]. intros e (_ & _ & Hle & _). by eapply id_le_lt.
Qed.
(** Appending to a history that has not expired, by a clock that has not gone back. *)
Lemma append_script T top es t p db r db' :
  history T top es db -> 0 <= ms t < 2 ^ 64 -> ms t <= T <= ms t + ttl `quot` Millisecond ->
  json_Valid p = true -> len p <= maxRealtimeHistoryPayload ->
  appendRealtimeHistoryScript t key maxLen p (ttl `quot` Millisecond) db = Ok (r, db') ->
  exists top' es', history T top' es' db' /\ evolves top es top' es'.
Proof using Httl.
  intros [Hok (e & He & Hdb)] Ht HT Hp Hl. unfold appendRealtimeHistoryScript, XADD, stream.
  rewrite (peek_alive _ _ _ _ _ Hdb) by lia. destruct (next_id (ms t) top) as [id|] eqn:Hid; [|done]. intros [= <- <-].
  assert (0 < ttl `quot` Millisecond) as Hpos by (apply Z.quot_str_pos; unfold Millisecond, Microsecond in *; lia).
  destruct Hok as (Htop & Hall & Hs). destruct (next_id_above _ _ _ Htop Ht Hid) as [Hlt Hidok].
  exists id, (newest maxLen (es ++ [(id, p)])). split.
  - split.
    + apply (stream_ok_add top); [done|done|done| |done|done]. eapply id_le_lt; [|exact Hlt]. destruct Htop. unfold id_le, id_lt. cbn. lia.
    + exists (ms t + ttl `quot` Millisecond). split; [lia|]. unfold PEXPIRE.
      rewrite (peek_alive t key _ (VStream id (newest maxLen (es ++ [(id, p)]))) e) by (by rewrite ?lookup_insert_eq || lia).
      assert ((ttl `quot` Millisecond <=? 0) = false) as -> by lia. by rewrite lookup_insert_eq.
  - split; [by apply id_lt_le|]. destruct (newest_evolves maxLen es (id, p)) as [k ->]. exists k, (drop (k - length es) [(id, p)]).
    split; [done|]. apply Forall_drop. by constructor.
Qed.
Lemma append_history T top es t p w :
  history T top es (w_db w) -> 0 <= ms t < 2 ^ 64 -> ms t <= T <= ms t + ttl `quot` Millisecond -> w_faults w = [] ->
  let w' := (Append keys maxLen ttl t app ch p w).2 in
  w_faults w' = [] /\ exists top' es', history T top' es' (w_db w') /\ evolves top es top' es'.
Proof using Hkey Httl.
  intros Hh Ht HT Hf. unfold Append. rewrite Hkey. destruct (negb _ || _ || _) eqn:Hv.
  { split; [done|]. exists top, es. split; [done|apply evolves_refl]. }
  rewrite !orb_false_iff, negb_false_iff in Hv. destruct Hv as [[Hp _] Hl]. unfold mbind, M_bind. rewrite call_run by done.
  destruct (appendRealtimeHistoryScript _ _ _ _ _ _) as [[r db']|e] eqn:Hs.
  - destruct (append_script T top es t p (w_db w) r db' Hh Ht HT Hp ltac:(lia) Hs) as (top' & es' & Hh' & He).
    destruct (redisStreamIDPattern r); cbn; (split; [done|]; eauto).
  - cbn. split; [done|]. exists top, es. split; [done|apply evolves_refl].
Qed.
Fixpoint appends (l : list (Z * string)) : M_redis unit :=
  match l with [] => mret tt | (t, p) :: l => _ ← ignore (Append keys maxLen ttl t app ch p); appends l end.
Definition append_time (since T t : Z) : Prop := since <= t /\ 0 <= ms t < 2 ^ 64 /\ ms t <= T.
Lemma ms_mono t t' : t <= t' -> ms t <= ms t'.
Proof. unfold ms. intros. by apply Z.div_le_mono. Qed.
Lemma appends_history T since l : T <= ms since + ttl `quot` Millisecond -> forall top es w,
  history T top es (w_db w) -> Forall (fun a => append_time since T a.1) l -> w_faults w = [] ->
  exists w', appends l w = (Ok tt, w') /\ w_faults w' = [] /\ exists top' es', history T top' es' (w_db w') /\ evolves top es top' es'.
Proof using Hkey Httl.
  intros HT. induction l as [|[t p] l IH]; intros top es w Hh Hl Hf.
  { exists w. split; [done|]. split; [done|]. exists top, es. split; [done|apply evolves_refl]. }
  inversion Hl as [|? ? (Hs & Ht & HtT) Hl']; subst. cbn in Hs, Ht, HtT. pose proof (ms_mono _ _ Hs).
  destruct (append_history T top es t p w Hh Ht ltac:(lia) Hf) as [Hf1 (top1 & es1 & Hh1 & He1)].
  destruct (IH top1 es1 _ Hh1 Hl' Hf1) as (w' & Hr & Hf' & top' & es' & Hh' & He'). exists w'. split; [exact Hr|]. split; [done|].
  exists top', es'. split; [done|]. by eapply evolves_trans.
Qed.

(** ** Reading a page *)

Definition entry_of (e : stream_entry) : RealtimeHistoryEntry := mkHistoryEntry (encodeHistoryCursor (id_text e.1)) e.2.
Lemma entries_ok top es : Forall (entry_ok top) es -> mapM history_entry es = Some (entry_of <$> es).
Proof.
  intros Hall. apply mapM_Some. induction Hall as [|e es (Hid & _ & _ & Hp & Hl) _ IH]; [constructor|]. constructor; [|done].
  unfold history_entry. rewrite Hp, id_text_pattern by done. by assert ((maxRealtimeHistoryPayload <? len e.2) = false) as -> by lia.
Qed.
Definition last_page (limit : nat) (b : list stream_entry) : list stream_entry := drop (length b - limit) b.
Definition rest_of (limit : nat) (b : list stream_entry) : list stream_entry := take (length b - limit) b.
Definition next_of (limit : nat) (b : list stream_entry) : option stream_id :=
  if decide (limit < length b)%nat then fst <$> head (last_page limit b) else None.
Definition cursor_ok (top : stream_id) (c : option stream_id) : Prop :=
  match c with Some id => id_ok id /\ id_lt (0, 0) id /\ id_le id top | None => True end.
Lemma page_run top limit b w :
  0 < limit -> Forall (entry_ok top) b ->
  history_page limit (take (Z.to_nat (limit + 1)) (reverse b)) w
  = (Ok (entry_of <$> last_page (Z.to_nat limit) b, cursor_text (next_of (Z.to_nat limit) b)), w).
Proof.
  intros Hlim Hb. unfold history_page, next_of. rewrite length_take, length_reverse.
  assert ((if limit <? Z.of_nat (Z.to_nat (limit + 1) `min` length b) then take (Z.to_nat limit) (take (Z.to_nat (limit + 1)) (reverse b))
           else take (Z.to_nat (limit + 1)) (reverse b)) = reverse (last_page (Z.to_nat limit) b)) as ->.
  { unfold last_page. rewrite reverse_drop. replace (length b - (length b - Z.to_nat limit))%nat with (Z.to_nat limit `min` length b)%nat by lia.
    case_match; [|rewrite !take_ge by (rewrite length_reverse; lia); done].
    rewrite take_take. f_equal. lia. }
  rewrite (entries_ok top) by (apply Forall_reverse, Forall_drop; done). rewrite last_reverse, fmap_reverse, reverse_involutive.
  unfold mret, M_ret. do 3 f_equal. destruct (decide _) as [Hd|Hd].
  - assert ((limit <? Z.of_nat (Z.to_nat (limit + 1) `min` length b)) = true) as -> by lia. by destruct (head _).
  - assert ((limit <? Z.of_nat (Z.to_nat (limit + 1) `min` length b)) = false) as -> by lia. by destruct (head _).
Qed.
Lemma read_run T top es c t limit w :
  history T top es (w_db w) -> cursor_ok top c -> ms t <= T -> 1 <= limit <= 100 -> w_faults w = [] ->
  Read keys maxLen ttl t app ch (cursor_text c) limit w
  = (Ok (entry_of <$> last_page (Z.to_nat limit) (entries_below c es), cursor_text (next_of (Z.to_nat limit) (entries_below c es))), w).
Proof using Hkey.
  intros [(Htop & Hall & _) (e & He & Hdb)] Hc Ht Hlim Hf. unfold Read. rewrite Hkey.
  assert ((limit <? 1) || (100 <? limit) = false) as -> by lia.
  assert (forall c', c' <> Some (0, 0) -> XREVRANGE t key c' (limit + 1) (w_db w) = Ok (take (Z.to_nat (limit + 1)) (reverse (entries_below c' es)))) as Hx.
  { intros c' Hc'. unfold XREVRANGE, stream. rewrite bool_decide_false by done. by rewrite (peek_alive _ _ _ _ _ Hdb) by lia. }
  assert (w = mkWorld (w_db w) [] (w_locked w)) as Hw by (destruct w; cbn in *; by subst).
  assert (Forall (entry_ok top) (entries_below c es)) as Hb by (destruct c; [apply Forall_forall; intros x [_ Hin]%list_elem_of_filter; by eapply Forall_forall|done]).
  destruct c as [id|]; cbn [cursor_text].
  - destruct Hc as (Hid & H0 & _). rewrite bool_decide_false by apply cursor_nonempty. rewrite cursor_decode by done. cbn [fmap option_fmap option_map].
    unfold mbind, M_bind. rewrite call_run by done. unfold read_range. rewrite id_text_parse by done.
    rewrite Hx by (intros [= ->]; by apply (id_lt_irrefl (0, 0))). rewrite <- Hw. apply (page_run top); [lia|done].
  - rewrite bool_decide_true by done. unfold mbind, M_bind. rewrite call_run by done. unfold read_range.
    rewrite Hx by done. rewrite <- Hw. apply (page_run top); [lia|done].
Qed.

(** ** Following the cursors *)

Definition sorted (es : list stream_entry) : Prop := StronglySorted (fun a b : stream_entry => id_lt a.1 b.1) es.
Lemma sorted_filter (P : stream_entry -> Prop) `{!forall e, Decision (P e)} es : sorted es -> sorted (filter P es).
Proof.
  induction 1 as [|e es Hs IH Hf]; [constructor|]. rewrite filter_cons. case_decide; [|done]. constructor; [done|].
  apply Forall_forall. intros x [_ Hx]%list_elem_of_filter. rewrite Forall_forall in Hf. by apply Hf.
Qed.
Lemma sorted_split a (e : stream_entry) b : sorted (a ++ e :: b)%list -> filter (fun x : stream_entry => id_lt x.1 e.1) (a ++ e :: b)%list = a.
Proof.
  induction a as [|x a IH]; cbn [Datatypes.app]; intros Hs; inversion Hs as [|? ? Hs' Hf]; subst.
  - rewrite filter_cons_False by apply id_lt_irrefl. apply filter_none. eapply Forall_impl; [exact Hf|]. intros x Hx Hl.
    exact (id_lt_irrefl _ (id_lt_trans _ _ _ Hx Hl)).
  - apply Forall_app in Hf as [_ He]. inversion He; subst. rewrite filter_cons_True by done. f_equal. by apply IH.
Qed.
Lemma sorted_nodup es : sorted es -> NoDup es.
Proof.
  induction 1 as [|e es Hs IH Hf]; [constructor|]. constructor; [|done]. intros Hin. rewrite Forall_forall in Hf.
  exact (id_lt_irrefl _ (Hf e Hin)).
Qed.
Lemma page_split limit b : b = (rest_of limit b ++ last_page limit b)%list.
Proof. unfold rest_of, last_page. by rewrite take_drop. Qed.
Lemma next_below c es limit c' :
  sorted es -> next_of limit (entries_below c es) = Some c' ->
  entries_below (Some c') es = rest_of limit (entries_below c es) /\ (exists e, e ∈ entries_below c es /\ e.1 = c').
Proof.
  intros Hs. unfold next_of. destruct (decide _); [|done]. pose proof (page_split limit (entries_below c es)) as Hb.
  destruct (last_page limit (entries_below c es)) as [|e pg]; [done|]. intros [= <-]. split; [|exists e; split; [rewrite Hb; set_solver|done]].
  assert (entries_below (Some e.1) es = filter (fun x : stream_entry => id_lt x.1 e.1) (entries_below c es)) as ->.
  { destruct c as [id|]; [|done]. unfold entries_below. rewrite list_filter_filter_l; [done|]. intros x Hx.
    assert (e ∈ entries_below (Some id) es) as [He _]%list_elem_of_filter by (rewrite Hb; set_solver). by eapply id_lt_trans. }
  assert (sorted (entries_below c es)) as Hsb by (destruct c; [by apply sorted_filter|done]). rewrite Hb in Hsb at 1. rewrite Hb at 1. by apply sorted_split.
Qed.
Lemma next_none limit b : (0 < limit)%nat -> next_of limit b = None -> last_page limit b = b.
Proof.
  intros Hpos. unfold next_of. case_decide as Hl; unfold last_page; [|by replace (length b - limit)%nat with 0%nat by lia].
  destruct (drop _ b) eqn:E; [|done]. apply (f_equal length) in E. rewrite length_drop in E. cbn in E. lia.
Qed.
Lemma page_length limit b : (limit < length b)%nat -> length (last_page limit b) = limit.
Proof. intros. unfold last_page. rewrite length_drop. lia. Qed.

(** Reading page after page: before each, others append. *)
Fixpoint follow (limit : Z) (cursor : string) (turns : list (list (Z * string) * Z)) : M_redis (option (list RealtimeHistoryEntry)) :=
  match turns with
  | [] => mret None
  | (others, t) :: turns =>
      _ ← appends others;
      '(entries, next) ← Read keys maxLen ttl t app ch cursor limit;
      if bool_decide (next = "") then mret (Some entries) else
      older ← follow limit next turns;
      mret ((fun o => o ++ entries)%list <$> older)
  end.
Definition turn_ok (since T : Z) (turn : list (Z * string) * Z) : Prop :=
  Forall (fun a => append_time since T a.1) turn.1 /\ ms turn.2 <= T.

Section turns.
Context (T since limit : Z) (HT : T <= ms since + ttl `quot` Millisecond) (Hlimit : 1 <= limit <= 100).
Lemma follow_page top es c others t turns w :
  history T top es (w_db w) -> cursor_ok top c -> (c = None -> others = []) -> turn_ok since T (others, t) -> w_faults w = [] ->
  exists w1 top1 es1, history T top1 es1 (w_db w1) /\ evolves top es top1 es1 /\ w_faults w1 = []
    /\ (exists x, entries_below c es = (x ++ entries_below c es1)%list) /\ cursor_ok top1 (next_of (Z.to_nat limit) (entries_below c es1))
    /\ follow limit (cursor_text c) ((others, t) :: turns) w
       = match next_of (Z.to_nat limit) (entries_below c es1) with
         | None => (Ok (Some (entry_of <$> entries_below c es1)), w1)
         | Some c' => (older ← follow limit (cursor_text (Some c')) turns;
                       mret ((fun o => o ++ (entry_of <$> last_page (Z.to_nat limit) (entries_below c es1)))%list <$> older)) w1
         end.
Proof using Hkey Httl HT Hlimit.
  intros Hh Hc Hn [Ho Ht] Hf. destruct (appends_history T since others HT top es w Hh Ho Hf) as (w1 & Ha & Hf1 & top1 & es1 & Hh1 & He).
  assert (cursor_ok top1 c) as Hc1. { destruct c; [|done]. destruct Hc as (? & ? & ?). destruct He. split_and!; [done..|]. by eapply id_le_trans. }
  assert (0 < Z.to_nat limit)%nat as Hpos by lia.
  exists w1, top1, es1. split; [done|]. split; [done|]. split; [done|]. split.
  { destruct c as [id|]; [by eapply evolves_below, Hc|]. rewrite (Hn eq_refl) in Ha. injection Ha as <-. exists [].
    destruct Hh as [_ (? & _ & E)], Hh1 as [_ (? & _ & E')]. rewrite E in E'. by injection E' as <- <-. }
  split.
  { destruct (next_of _ _) as [c'|] eqn:En; [|done]. destruct Hh1 as [(_ & Hall & Hs) _]. destruct (next_below c es1 _ c' Hs En) as [_ (e & Hin & <-)].
    assert (e ∈ es1) as Hin' by (destruct c; [by apply list_elem_of_filter in Hin as [_ ?]|done]).
    rewrite Forall_forall in Hall. destruct (Hall e Hin') as (? & ? & ? & _). done. }
  cbn [follow]. unfold mbind at 1, M_bind at 1. rewrite Ha. unfold mbind at 1, M_bind at 1. rewrite (read_run T top1 es1 c t limit w1 Hh1 Hc1 Ht Hlimit Hf1).
  destruct (next_of _ _) as [c'|] eqn:En; cbn [cursor_text].
  - by rewrite bool_decide_false by apply cursor_nonempty.
  - rewrite bool_decide_true by done. by rewrite (next_none _ _ Hpos En).
Qed.
Lemma follow_run turns : forall top es c w,
  history T top es (w_db w) -> cursor_ok top c -> (c = None -> exists t rest, turns = ([], t) :: rest) -> Forall (turn_ok since T) turns ->
  w_faults w = [] -> turns <> [] -> Z.of_nat (length (entries_below c es)) <= limit * Z.of_nat (length turns) ->
  exists out w' top' es', follow limit (cursor_text c) turns w = (Ok (Some (entry_of <$> out)), w')
    /\ history T top' es' (w_db w') /\ evolves top es top' es' /\ (exists x, entries_below c es = (x ++ out)%list)
    /\ forall e, e ∈ entries_below c es -> e ∈ es' -> e ∈ out.
Proof using Hkey Httl HT Hlimit.
  induction turns as [|[others t] turns IH]; intros top es c w Hh Hc Hn Hall Hf Hne Hlen; [done|]. inversion Hall as [|? ? Hturn Hall']; subst.
  assert (c = None -> others = []) as Ho by (intros ->; destruct (Hn eq_refl) as (? & ? & [= -> _ _]); done).
  destruct (follow_page top es c others t turns w Hh Hc Ho Hturn Hf) as (w1 & top1 & es1 & Hh1 & He & Hf1 & [x Hx] & Hc1 & Hrun).
  assert (forall e top' es', evolves top1 es1 top' es' -> e ∈ entries_below c es -> e ∈ es' -> e ∈ entries_below c es1) as Hkept.
  { intros e top' es' He' Hin Hin'. destruct Hh as [(_ & Hok & _) _], He as [Hle _].
    assert (e ∈ es) as Hes by (destruct c; [by apply list_elem_of_filter in Hin as [_ ?]|done]).
    rewrite Forall_forall in Hok. destruct (Hok e Hes) as (_ & _ & Ht & _).
    assert (e ∈ es1) by (eapply evolves_old; [exact He'|done|by eapply id_le_trans]).
    destruct c; [|done]. apply list_elem_of_filter. by apply list_elem_of_filter in Hin as [? _]. }
  destruct (next_of _ (entries_below c es1)) as [c'|] eqn:En.
  - destruct Hh1 as [Hok1 Hdb1]. destruct (next_below c es1 _ c' (proj2 (proj2 Hok1)) En) as [Hrest _].
    assert (Z.to_nat limit < length (entries_below c es1))%nat as Hlt by (unfold next_of in En; by destruct (decide _)).
    assert (length (entries_below c es1) = length (entries_below (Some c') es1) + Z.to_nat limit)%nat as Hlen1.
    { rewrite (page_split (Z.to_nat limit) (entries_below c es1)) at 1. by rewrite length_app, page_length, Hrest. }
    assert (length (entries_below c es) = length x + length (entries_below c es1))%nat as Hlens by by rewrite Hx, length_app.
    cbn [length] in Hlen. assert (turns <> []) as Hne' by (intros ->; change (Z.of_nat (S (length []))) with 1 in Hlen; lia).
    destruct (IH top1 es1 (Some c') w1 (conj Hok1 Hdb1) Hc1 ltac:(done) Hall' Hf1 Hne' ltac:(nia)) as (out & w' & top' & es' & Hr & Hh' & He' & [x' Hx'] & Hin).
    exists (out ++ last_page (Z.to_nat limit) (entries_below c es1))%list, w', top', es'. split.
    { rewrite Hrun. unfold mbind, M_bind. rewrite Hr. cbn [fmap option_fmap option_map]. by rewrite fmap_app. }
    split; [done|]. split; [by eapply evolves_trans|]. split.
    { exists (x ++ x')%list. rewrite Hx, (page_split (Z.to_nat limit) (entries_below c es1)), <- Hrest, Hx' at 1. by rewrite <- !app_assoc. }
    intros e Hb Hes. pose proof (Hkept e top' es' He' Hb Hes) as Hb1. rewrite (page_split (Z.to_nat limit) (entries_below c es1)), <- Hrest in Hb1.
    apply elem_of_app in Hb1 as [Hb1|Hb1]; apply elem_of_app; [left; by apply Hin|by right].
  - exists (entries_below c es1), w1, top1, es1. split; [done|]. split; [done|]. split; [done|]. split; [by exists x|].
    intros e Hb Hes. eapply Hkept; [apply evolves_refl|done|done].
Qed.
End turns.
(** The first message of a history. *)
Lemma append_first t p w :
  w_db w !! key = None -> w_faults w = [] -> 0 <= ms t < 2 ^ 64 -> json_Valid p = true -> p <> "" -> len p <= maxRealtimeHistoryPayload ->
  exists id c, (Append keys maxLen ttl t app ch p w).1 = Ok c
    /\ history (ms t + ttl `quot` Millisecond) id [(id, p)] (w_db (Append keys maxLen ttl t app ch p w).2).
Proof using Hkey Httl.
  intros Hdb Hf Ht Hp Hne Hl. unfold Append. rewrite Hkey, Hp, bool_decide_false by done.
  assert ((maxRealtimeHistoryPayload <? len p) = false) as -> by lia. cbn [negb orb]. unfold mbind, M_bind. rewrite call_run by done.
  unfold appendRealtimeHistoryScript, XADD, stream, peek. rewrite Hdb.
  destruct (next_id (ms t) (0, 0)) as [id|] eqn:Hid; [|unfold next_id in Hid; cbn in Hid; by repeat case_match].
  destruct (next_id_above (ms t) (0, 0) id ltac:(by split) Ht Hid) as [H0 Hok]. rewrite id_text_pattern by done. exists id, (encodeHistoryCursor (id_text id)).
  split; [done|]. unfold history_key in Hkey. destruct (_ || _ || _) eqn:Hm in Hkey; [done|]. rewrite !orb_false_iff in Hm.
  assert (newest maxLen ([] ++ [(id, p)])%list = [(id, p)]) as Hn by (unfold newest; by replace (length _ - Z.to_nat maxLen)%nat with 0%nat by (cbn; lia)).
  rewrite Hn. cbn [w_db fst snd]. assert (0 < ttl `quot` Millisecond) as Hpos by (apply Z.quot_str_pos; unfold Millisecond, Microsecond in *; lia).
  split.
  - split; [done|]. split; [|repeat constructor]. constructor; [|done]. split_and!; cbn; [done..|apply id_le_refl|done|done].
  - exists (ms t + ttl `quot` Millisecond). split; [lia|]. unfold mret, M_ret. cbn [snd w_db]. unfold PEXPIRE, peek. rewrite lookup_insert_eq. cbn [alive en_expires].
    assert ((ttl `quot` Millisecond <=? 0) = false) as -> by lia. by rewrite lookup_insert_eq.
Qed.
End history.

(** C33: following the cursors of a history from its end finishes after as many pages as
    its messages need, and gives, in the order in which they came, the messages it had
    at the first page from some point on; of those that were still kept at the last page
    none is missing and none comes twice, whatever is appended meanwhile. *)
Theorem history_pages keys maxLen ttl app ch key T since limit top es t0 turns w :
  history_key keys maxLen ttl app ch = Some key -> Millisecond <= ttl -> history key T top es (w_db w) ->
  T <= ms since + ttl `quot` Millisecond -> 1 <= limit <= 100 -> ms t0 <= T -> Forall (turn_ok since T) turns -> w_faults w = [] ->
  Z.of_nat (length es) <= limit * Z.of_nat (1 + length turns) ->
  exists k w' top' es',
    follow keys maxLen ttl app ch limit "" (([], t0) :: turns) w = (Ok (Some (entry_of <$> drop k es)), w')
    /\ history key T top' es' (w_db w') /\ NoDup (drop k es) /\ forall e, e ∈ es -> e ∈ es' -> e ∈ drop k es.
Proof.
  intros Hkey Httl Hh HT Hlimit Ht0 Hturns Hf Hlen.
  destruct (follow_run keys maxLen ttl app ch key Hkey Httl T since limit HT Hlimit (([], t0) :: turns) top es None w Hh I ltac:(eauto)
    ltac:(constructor; [by split|done]) Hf ltac:(done) Hlen) as (out & w' & top' & es' & Hr & Hh' & _ & [x Hx] & Hin).
  cbn [entries_below] in Hx, Hin. exists (length x), w', top', es'. assert (drop (length x) es = out) as -> by (rewrite Hx; apply drop_app_length).
  split; [done|]. split; [done|]. split; [|done]. destruct Hh as [(_ & _ & Hs%sorted_nodup) _]. rewrite Hx in Hs. by apply NoDup_app in Hs as (_ & _ & ?).
Qed.
(** Four messages in a history of three, and one more while it is read. *)
Definition demo_key : string := Eval vm_compute in default "" (RealtimeHistory demo_keys "a" "news").
Definition demo_messages : list (Z * string) := [(5000000, "1"); (5000000, "2"); (5000001, "3"); (6000000, "4")].
Definition demo_turns : list (list (Z * string) * Z) := [([(6500000, "5")], 7000000); ([], 7100000)].
Definition demo_world : World RedisDB :=
  mkWorld {[demo_key := mkEntry (VStream (6000, 0) [(5000, 1, "2"); (5000, 2, "3"); (6000, 0, "4")]) (Some 66000)]} [] ∅.
Example demo_reached :
  appends demo_keys 3 Minute "a" "news" demo_messages (mkWorld ∅ [] ∅) = (Ok tt, demo_world).
Proof. vm_compute. reflexivity. Qed.
Lemma history_pages_witness :
  (exists k w' top' es',
     follow demo_keys 3 Minute "a" "news" 1 "" (([], 6100000) :: demo_turns) demo_world
     = (Ok (Some (entry_of <$> drop k [(5000, 1, "2"); (5000, 2, "3"); (6000, 0, "4")])), w')
     /\ history demo_key 66000 top' es' (w_db w') /\ NoDup (drop k [(5000, 1, "2"); (5000, 2, "3"); (6000, 0, "4")])
     /\ forall e, e ∈ [(5000, 1, "2"); (5000, 2, "3"); (6000, 0, "4")] -> e ∈ es' ->
          e ∈ drop k [(5000, 1, "2"); (5000, 2, "3"); (6000, 0, "4")])
  /\ (follow demo_keys 3 Minute "a" "news" 1 "" (([], 6100000) :: demo_turns) demo_world).1
     = Ok (Some (entry_of <$> [(5000, 2, "3"); (6000, 0, "4")])).
Proof.
  split; [|vm_compute; reflexivity].
  apply (history_pages demo_keys 3 Minute "a" "news" demo_key 66000 6000000 1 (6000, 0)).
  - vm_compute. reflexivity.
  - vm_compute. discriminate.
  - split; [|exists 66000; split; [lia|vm_compute; reflexivity]]. split; [split; cbn; lia|]. split.
    + repeat constructor; cbn; try lia; try (unfold id_le, id_lt; cbn; lia); vm_compute; try reflexivity; discriminate.
    + repeat constructor; unfold id_lt; cbn; lia.
  - vm_compute. discriminate.
  - lia.
  - vm_compute. discriminate.
  - repeat constructor; vm_compute; try reflexivity; discriminate.
  - reflexivity.
  - cbn. lia.
Defined.
End HistoryClaims.

(** ** Presence *)

Module PresenceClaims.
Import Presence.

(** The members of a channel and when they run out, as the index has them: the index
    itself never expires. *)
Definition members (key : string) (s : gmap string Z) (db : RedisDB) : Prop :=
  match db !! key with
  | None => s = ∅
  | Some (mkEntry (VZSet s') None) => s = s'
  | Some _ => False
  end.
Definition live (clock : Z) (s : gmap string Z) : gmap string Z := filter (fun m => clock < m.2) s.

Lemma members_zset now key s db : members key s db -> exists t, zset now key db = Ok (s, t) /\ (t = None).
Proof.
  unfold members, zset, peek. destruct (db !! key) as [[[] []]|]; try done; cbn; [intros ->; eauto|intros ->; eauto].
Qed.
Lemma on_zset_members {A} now key s (f : gmap string Z -> A * gmap string Z) db :
  members key s db -> exists db', on_zset now key f db = Ok ((f s).1, db') /\ members key (f s).2 db'
    /\ forall k, k <> key -> db' !! k = db !! k.
Proof.
  intros (t & Hz & ->)%(members_zset now). unfold on_zset. rewrite Hz. destruct (f s) as [a s']. cbn. eexists. split; [done|].
  unfold put_zset, members. case_decide as Hs.
  - rewrite lookup_delete_eq. split; [done|]. intros k Hk. by rewrite lookup_delete_ne.
  - rewrite lookup_insert_eq. split; [done|]. intros k Hk. by rewrite lookup_insert_ne.
Qed.
Lemma members_other key key' s db v : key' <> key -> members key s db -> members key s (<[key' := v]> db).
Proof. unfold members. intros Hk. by rewrite lookup_insert_ne. Qed.
Lemma members_del key key' s db : key' <> key -> members key s db -> members key s (DEL key' db).
Proof. unfold members, DEL. intros Hk. by rewrite lookup_delete_ne. Qed.

(** Members by time are a list of the set without repetition. *)
Lemma z_sorted_perm s : z_sorted s ≡ₚ map_to_list s.
Proof. apply merge_sort_Permutation. Qed.
Lemma due_member clock limit s id : id ∈ ZRANGEBYSCORE clock limit s -> exists t, s !! id = Some t /\ t <= clock.
Proof.
  unfold ZRANGEBYSCORE. intros Hin. assert (id ∈ (List.filter (fun m => m.2 <=? clock) (z_sorted s)).*1) as Hin'
    by (rewrite <- (take_drop (Z.to_nat limit)); apply elem_of_app; by left).
  apply list_elem_of_fmap in Hin' as ([i t] & -> & [Hm Ht]%elem_of_filter_list). rewrite z_sorted_perm, elem_of_map_to_list in Hm.
  exists t. cbn in *. split; [done|lia].
Qed.
Lemma due_nodup clock limit s : NoDup (ZRANGEBYSCORE clock limit s).
Proof.
  unfold ZRANGEBYSCORE. eapply sublist_NoDup; [|apply sublist_take]. eapply sublist_NoDup; [|apply fmap_sublist, filter_sublist].
  rewrite z_sorted_perm. apply NoDup_fst_map_to_list.
Qed.
Lemma due_all clock limit s id t :
  (length (ZRANGEBYSCORE clock limit s) < Z.to_nat limit)%nat -> s !! id = Some t -> t <= clock -> id ∈ ZRANGEBYSCORE clock limit s.
Proof.
  unfold ZRANGEBYSCORE. rewrite length_take. intros Hl Hs Ht. rewrite take_ge by lia. apply list_elem_of_fmap. exists (id, t). split; [done|].
  apply elem_of_filter_list. split; [by rewrite z_sorted_perm, elem_of_map_to_list|cbn; lia].
Qed.
Lemma removed_lookup (l : list string) (s : gmap string Z) id : foldr ZREM s l !! id = if decide (id ∈ l) then None else s !! id.
Proof.
  induction l as [|x l IH]; cbn [foldr]; [by rewrite decide_False by set_solver|]. unfold ZREM at 1. destruct (decide (id = x)) as [->|Hne].
  - rewrite lookup_delete_eq. by rewrite decide_True by set_solver.
  - rewrite lookup_delete_ne, IH by done. apply decide_ext. set_solver.
Qed.

Section presence.
Context (keys : Keyspace) (app ch indexKey : string) (Hindex : RealtimePresenceIndex keys app ch = Some indexKey).

Lemma member_key a c conn memberKey : Keys.RealtimePresence keys a c conn = Some memberKey -> memberKey <> indexKey.
Proof using Hindex.
  intros Hm ->. by destruct (key_parts_inj keys (KRealtimePresence a c conn) (KRealtimePresenceIndex app ch) indexKey Hm Hindex) as [_ [=]].
Qed.
Lemma input_same p ttl w : (presence_input keys p ttl w).2 = w.
Proof. unfold presence_input, Ownership.key_or. destruct (_ || _); [done|]. by repeat case_match. Qed.
Lemma input_keys p ttl w mk ik w1 :
  presence_input keys p ttl w = (Ok (mk, ik), w1) ->
  w1 = w /\ Keys.RealtimePresence keys (pr_AppID p) (pr_Channel p) (pr_ConnectionID p) = Some mk
  /\ RealtimePresenceIndex keys (pr_AppID p) (pr_Channel p) = Some ik /\ 0 < ttl.
Proof.
  unfold presence_input. destruct (_ || _) eqn:Hc; [done|]. apply orb_false_iff in Hc as [_ Httl].
  unfold Ownership.key_or. repeat case_match; try done. intros [= <- <- <-]. split_and!; [done..|lia].
Qed.
Definition in_channel (p : RealtimePresence) : Prop := pr_AppID p = app /\ pr_Channel p = ch.
Lemma call_failed {A} c (f : RedisDB -> res (A * RedisDB)) w e w' : call c f w = (Err e, w') -> w_db w' = w_db w.
Proof.
  unfold call, on_error, exec, fail. destruct (w_faults w) as [|[] fs]; cbn;
    [destruct (f (w_db w)) as [[]|]|..|destruct (f (w_db w)) as [[]|]]; intros [=]; by subst.
Qed.
(** A call of a script: the database is as it was, or what the script left. *)
Lemma call_script_inv {A} c (f : RedisDB -> res A * RedisDB) w r w' :
  call_script c f w = (r, w') -> match r with
    | Ok a => f (w_db w) = (Ok a, w_db w')
    | Err _ => w_db w' = w_db w \/ exists e, f (w_db w) = (Err e, w_db w')
    end.
Proof.
  unfold call_script, mbind, M_bind. destruct (call c _ w) as [[[a|e]|e] w1] eqn:Hc; cbn; intros [= <- <-].
  - apply call_ok in Hc. by injection Hc as Hc.
  - apply call_ok in Hc. injection Hc as Hc. right. by exists e.
  - left. by apply call_failed in Hc.
Qed.

(** What the script of a member that comes leaves of the members of the channel. *)
Lemma upsert_script s now mk now_ms text ttl expires id db :
  mk <> indexKey -> members indexKey s db ->
  let (r, db') := upsertPresenceScript now mk indexKey now_ms text ttl expires id db in
  (forall k, k <> indexKey -> k <> mk -> db' !! k = db !! k)
  /\ match r with
     | Ok (joined, n) =>
         let s' := <[id := expires]> (live now_ms s) in
         0 < ttl /\ members indexKey s' db' /\ n = Z.of_nat (size s')
         /\ joined = bool_decide (peek now mk db = None) /\ peek now mk db' <> None
     | Err _ => ttl <= 0 /\ members indexKey (live now_ms s) db' /\ db' !! mk = db !! mk
     end.
Proof using Type.
  intros Hne Hs. unfold upsertPresenceScript.
  destruct (on_zset_members now indexKey s (fun s => (tt, ZREMRANGEBYSCORE now_ms s)) db Hs) as (db1 & -> & Hs1 & Hother).
  unfold SET_PX. destruct (ttl <=? 0) eqn:Hpos; [split; [auto|]; split_and!; [lia|done|auto]|].
  set (e := mkEntry _ _). pose proof (members_other _ mk _ db1 e Hne Hs1) as Hs2. cbn [snd] in Hs2.
  destruct (on_zset_members now indexKey _ (fun s => (negb (EXISTS now mk db), ZCARD (ZADD expires id s), ZADD expires id s)) _ Hs2)
    as (db2 & E2 & Hs3 & Hother2).
  cbn zeta. cbn [fst snd] in E2. rewrite E2. split; [intros k Hk Hm; rewrite Hother2, lookup_insert_ne by done; auto|].
  split_and!; [lia|exact Hs3|done| |].
  - unfold EXISTS. destruct (peek now mk db); [|done]. rewrite bool_decide_true, bool_decide_false by eauto. done.
  - unfold peek. rewrite (Hother2 mk Hne), lookup_insert_eq. unfold e, alive. cbn. by assert ((ms now <=? ms now + ttl) = true) as -> by lia.
Qed.
Lemma upsert_members s now clock1 clock2 p ttl w r w' :
  members indexKey s (w_db w) -> in_channel p -> Upsert keys now clock1 clock2 p ttl w = (r, w') ->
  match r with
  | Ok (joined, n) =>
      let s' := <[pr_ConnectionID p := (clock2 + ttl) `div` Millisecond]> (live (clock2 `div` Millisecond) s) in
      members indexKey s' (w_db w') /\ n = Z.of_nat (size s')
      /\ exists memberKey, Keys.RealtimePresence keys app ch (pr_ConnectionID p) = Some memberKey
        /\ joined = bool_decide (peek now memberKey (w_db w) = None)
        /\ peek now memberKey (w_db w') <> None
  | Err _ => w_db w' = w_db w
      \/ 0 < ttl < Millisecond /\ members indexKey (live (clock2 `div` Millisecond) s) (w_db w')
         /\ forall k, k <> indexKey -> w_db w' !! k = w_db w !! k
  end.
Proof using Hindex.
  intros Hs [Ha Hc] Hrun. unfold Upsert in Hrun. destruct (negb _); [injection Hrun as <- <-; by left|].
  unfold mbind, M_bind in Hrun. pose proof (input_same p ttl w) as Hw.
  destruct (presence_input keys p ttl w) as [[[mk ik]|e] w1] eqn:Hin; cbn in Hw; subst w1; [|injection Hrun as <- <-; by left].
  apply input_keys in Hin as (_ & Hmk & Hik & Httl). rewrite Ha, Hc in Hmk, Hik. assert (ik = indexKey) as -> by congruence.
  pose proof (member_key _ _ _ _ Hmk) as Hne. destruct (8 * 1024 <? _); [injection Hrun as <- <-; by left|].
  apply call_script_inv in Hrun. set (text := presence_json _) in Hrun.
  pose proof (upsert_script s now mk (clock2 `div` Millisecond) text (ttl `quot` Millisecond) ((clock2 + ttl) `div` Millisecond)
    (pr_ConnectionID p) (w_db w) Hne Hs) as Hscript.
  destruct (upsertPresenceScript _ _ _ _ _ _ _ _ _) as [r0 db']. destruct Hscript as [Hother Hr].
  destruct r as [[joined n]|e].
  - injection Hrun as -> <-. destruct Hr as (_ & Hm & Hn & Hj & Hp). split_and!; [done..|]. by exists mk.
  - destruct Hrun as [|[e' Hrun]]; [by left|right]. injection Hrun as -> <-. destruct Hr as (Hz & Hm & Hk).
    split_and!; [done| |done|].
    + apply Z.nle_gt. intros Hge. assert (1 <= ttl `quot` Millisecond); [|lia]. apply Z.quot_le_lower_bound; [done|lia].
    + intros k Hk'. destruct (decide (k = mk)) as [->|]; auto.
Qed.
Lemma delete_members s now clock p w r w' :
  members indexKey s (w_db w) -> in_channel p -> Delete keys now clock p w = (r, w') ->
  match r with
  | Ok n =>
      let s' := live (clock `div` Millisecond) (delete (pr_ConnectionID p) s) in
      members indexKey s' (w_db w') /\ n = Z.of_nat (size s')
      /\ exists memberKey, Keys.RealtimePresence keys app ch (pr_ConnectionID p) = Some memberKey /\ w_db w' !! memberKey = None
  | Err _ => w_db w' = w_db w
  end.
Proof using Hindex.
  intros Hs [Ha Hc] Hrun. unfold Delete, mbind, M_bind in Hrun. pose proof (input_same p Millisecond w) as Hw.
  destruct (presence_input keys p Millisecond w) as [[[mk ik]|e] w1] eqn:Hin; cbn in Hw; subst w1; [|by injection Hrun as <- <-].
  apply input_keys in Hin as (_ & Hmk & Hik & _). rewrite Ha, Hc in Hmk, Hik. assert (ik = indexKey) as -> by congruence. pose proof (member_key _ _ _ _ Hmk) as Hne.
  apply call_script_inv in Hrun. unfold deletePresenceScript in Hrun.
  destruct (on_zset_members now indexKey s (fun s => (ZCARD (ZREMRANGEBYSCORE (clock `div` Millisecond) (ZREM (pr_ConnectionID p) s)),
    ZREMRANGEBYSCORE (clock `div` Millisecond) (ZREM (pr_ConnectionID p) s))) (DEL mk (w_db w)) (members_del _ _ _ _ Hne Hs)) as (db1 & E1 & Hs1 & Hother).
  cbn zeta in Hrun. cbn [fst snd] in E1. rewrite E1 in Hrun. destruct r as [n|e].
  - injection Hrun as <- <-. split; [exact Hs1|]. split; [done|]. exists mk. split; [done|]. rewrite (Hother mk Hne). apply lookup_delete_eq.
  - by destruct Hrun as [?|[e' [=]]].
Qed.
Lemma expire_members s now clock limit w gone n w' :
  members indexKey s (w_db w) -> Expire keys now app ch clock limit w = (Ok (gone, n), w') ->
  let s' := foldr ZREM s gone in
  members indexKey s' (w_db w') /\ n = Z.of_nat (size s') /\ gone = ZRANGEBYSCORE (clock `div` Millisecond) limit s.
Proof using Hindex.
  intros Hs. unfold Expire. destruct (_ || _); [done|]. rewrite Hindex. cbn [Ownership.key_or]. intros Hrun%call_ok. unfold expirePresenceScript in Hrun.
  destruct (on_zset_members now indexKey s (fun s => (ZRANGEBYSCORE (clock `div` Millisecond) limit s,
    ZCARD (foldr ZREM s (ZRANGEBYSCORE (clock `div` Millisecond) limit s)), foldr ZREM s (ZRANGEBYSCORE (clock `div` Millisecond) limit s))) (w_db w) Hs)
    as (db1 & E1 & Hs1 & _). cbn zeta in Hrun. cbn [fst snd] in E1. rewrite E1 in Hrun. injection Hrun as <- <- <-. done.
Qed.
End presence.

(** C34: the store keeps for every channel when each member runs out. A member that
    comes or renews is counted until its time, and is reported as new exactly when the
    store had no record of it; a member that leaves is not counted; both calls drop the
    members whose time has come. An expiry reports members whose time has come, each once
    and all of them unless the limit is reached, and drops exactly those it reports. The
    occupancy returned is the number of members there are then. A call that fails
    changes nothing, but for one case: with a time to live of less than a millisecond the
    members whose time has come are dropped before the call fails. *)
Theorem presence_refines keys app ch key s w :
  RealtimePresenceIndex keys app ch = Some key -> members key s (w_db w) ->
  (forall now clock1 clock2 p ttl r w', in_channel app ch p -> Upsert keys now clock1 clock2 p ttl w = (r, w') ->
     match r with
     | Ok (joined, n) =>
         let s' := <[pr_ConnectionID p := (clock2 + ttl) `div` Millisecond]> (live (clock2 `div` Millisecond) s) in
         members key s' (w_db w') /\ n = Z.of_nat (size s')
         /\ exists memberKey, Keys.RealtimePresence keys app ch (pr_ConnectionID p) = Some memberKey
           /\ joined = bool_decide (peek now memberKey (w_db w) = None)
           /\ peek now memberKey (w_db w') <> None
     | Err _ => w_db w' = w_db w
         \/ 0 < ttl < Millisecond /\ members key (live (clock2 `div` Millisecond) s) (w_db w')
            /\ forall k, k <> key -> w_db w' !! k = w_db w !! k
     end)
  /\ (forall now clock p r w', in_channel app ch p -> Delete keys now clock p w = (r, w') ->
        match r with
        | Ok n => let s' := live (clock `div` Millisecond) (delete (pr_ConnectionID p) s) in members key s' (w_db w') /\ n = Z.of_nat (size s')
            /\ exists memberKey, Keys.RealtimePresence keys app ch (pr_ConnectionID p) = Some memberKey /\ w_db w' !! memberKey = None
        | Err _ => w_db w' = w_db w
        end)
  /\ (forall now clock limit r w', Expire keys now app ch clock limit w = (r, w') ->
        match r with
        | Ok (gone, n) =>
            exists s', members key s' (w_db w') /\ n = Z.of_nat (size s') /\ NoDup gone
              /\ (forall id, id ∈ gone -> exists t, s !! id = Some t /\ t <= clock `div` Millisecond)
              /\ (forall id, s' !! id = if decide (id ∈ gone) then None else s !! id)
              /\ (Z.of_nat (length gone) < limit -> forall id t, s' !! id = Some t -> clock `div` Millisecond < t)
        | Err _ => w_db w' = w_db w
        end).
Proof.
  intros Hkey Hs. split_and!.
  - intros now clock1 clock2 p ttl r w' Hp Hrun. exact (upsert_members keys app ch key Hkey s now clock1 clock2 p ttl w r w' Hs Hp Hrun).
  - intros now clock p r w' Hp Hrun. exact (delete_members keys app ch key Hkey s now clock p w r w' Hs Hp Hrun).
  - intros now clock limit [[gone n]|e] w' Hrun.
    + destruct (expire_members keys app ch key Hkey s now clock limit w gone n w' Hs Hrun) as (Hm & Hn & Hg). exists (foldr ZREM s gone).
      split; [done|]. split; [done|]. split; [rewrite Hg; apply due_nodup|]. split; [intros id; rewrite Hg; apply due_member|].
      split; [intros id; apply removed_lookup|]. intros Hl id t. rewrite removed_lookup. case_decide as Hin; [done|]. intros Hid.
      apply Z.nle_gt. intros Ht. apply Hin. rewrite Hg. eapply due_all; [rewrite <- Hg; lia|done|done].
    + unfold Expire in Hrun. destruct (_ || _); [by injection Hrun as _ <-|]. rewrite Hkey in Hrun. by apply call_failed in Hrun.
Qed.
(** A member whose time has come is removed without a report when another member comes
    first: it is then never reported. *)
Theorem presence_timeout_lost keys app ch key s w id t now clock1 clock2 p ttl joined n w' :
  RealtimePresenceIndex keys app ch = Some key -> members key s (w_db w) -> s !! id = Some t -> t <= clock2 `div` Millisecond ->
  in_channel app ch p -> pr_ConnectionID p <> id -> Upsert keys now clock1 clock2 p ttl w = (Ok (joined, n), w') ->
  forall now' clock limit gone n' w'', Expire keys now' app ch clock limit w' = (Ok (gone, n'), w'') -> id ∉ gone.
Proof.
  intros Hkey Hs Hid Ht Hp Hne Hrun now' clock limit gone n' w'' Hex.
  destruct (upsert_members keys app ch key Hkey s now clock1 clock2 p ttl w _ w' Hs Hp Hrun) as (Hm & _).
  destruct (expire_members keys app ch key Hkey _ now' clock limit w' gone n' w'' Hm Hex) as (_ & _ & ->).
  intros (t' & Hl & _)%due_member. rewrite lookup_insert_ne in Hl by done. apply map_lookup_filter_Some in Hl as [Hl Hlt]. cbn in Hlt.
  rewrite Hid in Hl. injection Hl as <-. lia.
Qed.
(** A time to live of less than a millisecond passes the checks of [Upsert], and the
    call fails after it has dropped the members whose time has come. *)
Theorem presence_short_ttl :
  let keys := demo_keys in
  exists key p, RealtimePresenceIndex keys "a" "news" = Some key
    /\ let w := mkWorld {[key := mkEntry (VZSet {["c1" := 66000; "c2" := 99000]}) None]} [] ∅ in
       let '(r, w') := Upsert keys 70000000 (70 * Second) (70 * Second) p 1 w in
       r = Err RedisUnavailable /\ w_db w' = {[key := mkEntry (VZSet {["c2" := 99000]}) None]}.
Proof.
  eexists _, (mkPresence "a" "news" "cli" "c3" "{}" 0). split; [vm_compute; reflexivity|]. vm_compute. done.
Qed.
Definition demo_index : string := Eval vm_compute in default "" (RealtimePresenceIndex demo_keys "a" "news").
Definition demo_members : gmap string Z := {["c1" := 66000; "c2" := 99000]}.
Definition demo_present : World RedisDB := mkWorld {[demo_index := mkEntry (VZSet demo_members) None]} [] ∅.
Lemma presence_refines_witness :
  exists w', Expire demo_keys 70000000 "a" "news" (70 * Second) 10 demo_present = (Ok (["c1"], 1), w')
    /\ exists s', members demo_index s' (w_db w') /\ forall id t, s' !! id = Some t -> (70 * Second) `div` Millisecond < t.
Proof.
  destruct (presence_refines demo_keys "a" "news" demo_index demo_members demo_present) as (_ & _ & He);
    [vm_compute; reflexivity|vm_compute; reflexivity|].
  destruct (Expire demo_keys 70000000 "a" "news" (70 * Second) 10 demo_present) as [r w'] eqn:E.
  assert (r = Ok (["c1"], 1)) as Hr by (transitivity (Expire demo_keys 70000000 "a" "news" (70 * Second) 10 demo_present).1;
    [by rewrite E|vm_compute; reflexivity]).
  subst r. exists w'. split; [reflexivity|]. destruct (He 70000000 (70 * Second) 10 _ w' E) as (s' & Hm & _ & _ & _ & _ & Hl).
  exists s'. split; [exact Hm|]. apply Hl. reflexivity.
Defined.
End PresenceClaims.

(** ** Connections *)

Module ConnectionClaims.
Import Ownership Connections.

Section registry.
Context (keys : Keyspace).

Definition same_connection (c c' : RealtimeConnection) : Prop := rc_AppID c' = rc_AppID c /\ rc_ConnectionID c' = rc_ConnectionID c.
Definition same_incarnation (c c' : RealtimeConnection) : Prop := rc_InstanceID c' = rc_InstanceID c /\ rc_Generation c' = rc_Generation c.
(** What all others may do: register other connections, renew and remove them, also this
    one under another incarnation, look, and change other keys. *)
Inductive registry_step (c : RealtimeConnection) : RedisDB -> RedisDB -> Prop :=
| rs_put now clock c' ttl w : ~ same_connection c c' -> registry_step c (w_db w) (w_db (Put keys now clock c' ttl w).2)
| rs_update now clock1 clock2 c' channels ttl w : ~ (same_connection c c' /\ same_incarnation c c') ->
    registry_step c (w_db w) (w_db (UpdateChannels keys now clock1 clock2 c' channels ttl w).2)
| rs_delete now c' w : ~ (same_connection c c' /\ same_incarnation c c') -> registry_step c (w_db w) (w_db (Delete keys now c' w).2)
| rs_get now app conn w : registry_step c (w_db w) (w_db (Get keys now app conn w).2)
| rs_list now1 now2 nows app clock limit w : registry_step c (w_db w) (w_db (ListConnections keys now1 now2 nows app clock limit w).2)
| rs_foreign key db db' : Keys.RealtimeConnection keys (rc_AppID c) (rc_ConnectionID c) = Some key -> db' !! key = db !! key ->
    registry_step c db db'.

Section held.
Context (c : RealtimeConnection) (seen T : Z) (key : string).
Context (Hkey : Keys.RealtimeConnection keys (rc_AppID c) (rc_ConnectionID c) = Some key).
Context (Happ : coerce (rc_AppID c) = rc_AppID c) (Hinst : coerce (rc_InstanceID c) = rc_InstanceID c).
Context (Hgen : 0 < rc_Generation c < 2 ^ 64).

Definition held (db : RedisDB) : Prop :=
  db !! key = Some (mkEntry (VString (PObject (realtimeConnectionRecord c seen))) (Some T)).
Lemma other_connection app conn k :
  Keys.RealtimeConnection keys app conn = Some k -> ~ (app = rc_AppID c /\ conn = rc_ConnectionID c) -> k <> key.
Proof using Hkey.
  intros Hk Hne ->. apply Hne. destruct (key_parts_inj keys (KRealtimeConnection app conn) (KRealtimeConnection (rc_AppID c) (rc_ConnectionID c)) key Hk Hkey)
    as [Ht Hr]. cbn in Ht, Hr. injection Ht as Ht. injection Hr as Hr. done.
Qed.
Lemma index_other app k : RealtimeConnectionIndex keys app = Some k -> k <> key.
Proof using Hkey.
  intros Hk ->. by destruct (key_parts_inj keys (KRealtimeConnectionIndex app) (KRealtimeConnection (rc_AppID c) (rc_ConnectionID c)) key Hk Hkey) as [_ [=]].
Qed.
Lemma record_owner a i g :
  owned_by (realtimeConnectionRecord c seen) a i (generationString g)
  = bool_decide (rc_AppID c = a) && bool_decide (rc_InstanceID c = i) && bool_decide (rc_Generation c = g).
Proof using Happ Hinst Hgen.
  destruct (generation_text (rc_Generation c) Hgen) as [_ Hm]. unfold owned_by, is_field.
  change (?m !! "app_id") with (Some (marshal (rc_AppID c))). change (?m !! "instance_id") with (Some (marshal (rc_InstanceID c))).
  change (?m !! "generation") with (Some (marshal (generationString (rc_Generation c)))). rewrite Hm. unfold marshal. rewrite Happ, Hinst.
  repeat f_equal; apply bool_decide_ext; [naive_solver..|]. split; [intros [= He]; by apply generation_inj|by intros ->].
Qed.
Lemma on_zset_held {A} now k (f : gmap string Z -> A * gmap string Z) db a db' :
  k <> key -> on_zset now k f db = Ok (a, db') -> db' !! key = db !! key.
Proof.
  intros Hk. unfold on_zset, put_zset. destruct (zset now k db) as [[s t]|]; [|done]. destruct (f s) as [a' s']. intros [= _ <-].
  case_decide; by rewrite ?lookup_delete_ne, ?lookup_insert_ne.
Qed.
Lemma keeps_zset {A} b now k (f : gmap string Z -> A * gmap string Z) : k <> key -> keeps held (call b (on_zset now k f)).
Proof. intros Hk. apply keeps_call. intros db a db' Hh Hz. unfold held. by rewrite (on_zset_held _ _ _ _ _ _ Hk Hz). Qed.
Lemma keeps_look now k : keeps held (GETs now k).
Proof. apply keeps_gets. Qed.
Lemma keeps_answer r : keeps held (ownershipResult r).
Proof. intros w Hw. unfold ownershipResult. by repeat case_match. Qed.
(** The checks before a command, and the keys they give. *)
Lemma keeps_record {A} c' ttl (f : gmap string field * string * string -> M_redis A) :
  (forall rec mk ik, Keys.RealtimeConnection keys (rc_AppID c') (rc_ConnectionID c') = Some mk -> RealtimeConnectionIndex keys (rc_AppID c') = Some ik ->
     keeps held (f (rec, mk, ik))) -> keeps held (record keys c' ttl ≫= f).
Proof.
  intros Hf. unfold record. destruct (_ || _); [by intros w|]. unfold key_or.
  destruct (Keys.RealtimeConnection keys (rc_AppID c') _) as [mk|] eqn:Hm; [|intros w Hw; exact Hw].
  destruct (RealtimeConnectionIndex keys (rc_AppID c')) as [ik|] eqn:Hi; [|intros w Hw; exact Hw]. intros w Hw. by apply Hf.
Qed.
Lemma not_owner c' : ~ (same_connection c c' /\ same_incarnation c c') -> same_connection c c' ->
  owned_by (realtimeConnectionRecord c seen) (rc_AppID c') (rc_InstanceID c') (generationString (rc_Generation c')) = false.
Proof using Happ Hinst Hgen.
  intros Hd Hs. rewrite record_owner. apply not_true_iff_false. rewrite !andb_true_iff, !bool_decide_eq_true. intros [[_ Hi] Hg]. apply Hd. split; [done|]. split; congruence.
Qed.
Lemma same_key c' k : Keys.RealtimeConnection keys (rc_AppID c') (rc_ConnectionID c') = Some k -> same_connection c c' -> k = key.
Proof using Hkey. intros Hk [Ha Hc]. rewrite Ha, Hc in Hk. congruence. Qed.
#[local] Instance same_connection_dec c' : Decision (same_connection c c').
Proof. unfold same_connection. apply _. Defined.

Lemma keeps_put now clock c' ttl : ~ same_connection c c' -> keeps held (Put keys now clock c' ttl).
Proof using Hkey.
  intros Hne. apply keeps_record. intros rec mk ik Hm Hi. apply keeps_call. intros db u db' Hh. unfold put_commands, SET_PX.
  destruct (_ <=? 0); [done|]. intros Hz. unfold held. rewrite (on_zset_held _ _ _ _ _ _ (index_other _ _ Hi) Hz).
  rewrite lookup_insert_ne; [done|]. eapply other_connection; [exact Hm|done].
Qed.
Lemma keep_update now clock1 clock2 c' channels ttl :
  ~ (same_connection c c' /\ same_incarnation c c') -> keeps held (UpdateChannels keys now clock1 clock2 c' channels ttl).
Proof using Hkey Happ Hinst Hgen.
  intros Hne. unfold UpdateChannels, update. cbn zeta. apply keeps_record. intros rec mk ik Hm Hi.
  change (rc_AppID (set_channels c' ?x ?y)) with (rc_AppID c') in *. change (rc_ConnectionID (set_channels c' ?x ?y)) with (rc_ConnectionID c') in *.
  change (rc_InstanceID (set_channels c' ?x ?y)) with (rc_InstanceID c') in *. change (rc_Generation (set_channels c' ?x ?y)) with (rc_Generation c') in *.
  apply keep_bind; [|intros; apply keeps_answer]. apply keeps_call. intros db r db' Hh. unfold updateRealtimeConnectionScript.
  destruct (decide (same_connection c c')) as [Hs|Hs].
  - rewrite (same_key c' mk Hm Hs). destruct (get_string now key db _ _ Hh) as [-> | ->]; [|by intros [= _ <-]].
    rewrite not_owner by done. by intros [= _ <-].
  - pose proof (other_connection _ _ _ Hm Hs) as Hk. destruct (GET now mk db) as [[[cur|]|]|]; try done; [|by intros [= _ <-]].
    destruct (negb _); [by intros [= _ <-]|]. unfold SET_PX. destruct (_ <=? 0); [done|]. destruct (rec !! "connection_id") as [[]|]; try done.
    intros Hz. unfold held. rewrite (on_zset_held _ _ _ _ _ _ (index_other _ _ Hi) Hz). by rewrite lookup_insert_ne.
Qed.
Lemma keeps_delete now c' : ~ (same_connection c c' /\ same_incarnation c c') -> keeps held (Delete keys now c').
Proof using Hkey Happ Hinst Hgen.
  intros Hne. apply keeps_record. intros rec mk ik Hm Hi. apply keep_bind; [|intros; apply keeps_answer]. apply keeps_call. intros db r db' Hh.
  unfold deleteRealtimeConnectionScript. pose proof (index_other _ _ Hi) as Hik. destruct (decide (same_connection c c')) as [Hs|Hs].
  - rewrite (same_key c' mk Hm Hs). destruct (get_string now key db _ _ Hh) as [-> | ->].
    + rewrite not_owner by done. by intros [= _ <-].
    + intros Hz. unfold held. by rewrite (on_zset_held _ _ _ _ _ _ Hik Hz).
  - pose proof (other_connection _ _ _ Hm Hs) as Hk. destruct (GET now mk db) as [[[cur|]|]|]; try done.
    + destruct (negb _); [by intros [= _ <-]|]. intros Hz. unfold held. rewrite (on_zset_held _ _ _ _ _ _ Hik Hz). unfold DEL. by rewrite lookup_delete_ne.
    + intros Hz. unfold held. by rewrite (on_zset_held _ _ _ _ _ _ Hik Hz).
Qed.
Lemma keeps_list app indexKey ids : indexKey <> key -> forall nows, keeps held (list_members keys app indexKey ids nows).
Proof.
  intros Hik. induction ids as [|id ids IH]; intros nows; cbn [list_members]; [apply keep_ret|]. cbn zeta.
  destruct (Keys.RealtimeConnection keys app id); [|apply keep_fail]. apply keep_bind; [apply keeps_look|]. intros [p|].
  - destruct (decodeRealtimeConnection p); [|apply keep_fail]. destruct (_ || _); [apply keep_fail|]. apply keep_bind; [apply IH|]. intros; apply keep_ret.
  - apply keep_bind; [|intros; apply IH]. apply keeps_ignore. by apply keeps_zset.
Qed.
Lemma registry_step_held db db' : registry_step c db db' -> held db -> held db'.
Proof using Hkey Happ Hinst Hgen.
  intros Hs. destruct Hs as [now clock c' ttl w Hne|now clock1 clock2 c' chs ttl w Hne|now c' w Hne|now app conn w|now1 now2 nows app clock limit w|key' db db' Hk He].
  - by apply keeps_put.
  - by apply keep_update.
  - by apply keeps_delete.
  - revert w. apply keeps_key. intros k _. apply keep_bind; [apply keeps_look|]. intros [p|]; [|apply keep_fail].
    destruct (decodeRealtimeConnection p); [|apply keep_fail]. destruct (_ || _); [apply keep_fail|apply keep_ret].
  - revert w. unfold ListConnections. destruct (_ || _); [apply keep_fail|]. apply keeps_key. intros ik Hi. pose proof (index_other _ _ Hi) as Hik.
    apply keep_bind; [by apply keeps_zset|]. intros _. apply keep_bind; [by apply keeps_zset|]. intros ids. by apply keeps_list.
  - rewrite Hkey in Hk. injection Hk as <-. unfold held. by rewrite He.
Qed.

(** ** Reading the record back *)

Definition text_ok : Prop :=
  coerce (rc_ClientID c) = rc_ClientID c /\ coerce (rc_ConnectionID c) = rc_ConnectionID c /\ coerce (rc_Protocol c) = rc_Protocol c
  /\ Forall (fun x => coerce x = x) (rc_Channels c) /\ 0 <= rc_ConnectedAt c < 2 ^ 63 /\ 0 <= seen < 2 ^ 63.
Definition checked : Prop :=
  validKeyPart (rc_AppID c) = true /\ validKeyPart (rc_ClientID c) = true /\ validKeyPart (rc_ConnectionID c) = true
  /\ validKeyPart (rc_InstanceID c) = true /\ (length (rc_Channels c) <= 100)%nat.
Definition as_stored : RealtimeConnection :=
  mkConnection (rc_AppID c) (rc_ClientID c) (rc_ConnectionID c) (rc_InstanceID c) (rc_Generation c) (rc_Protocol c)
    (normalizedChannels (rc_Channels c)) (UnixMicro (rc_ConnectedAt c) * Microsecond) (UnixMicro seen * Microsecond).
Lemma fixed_back t : 0 <= t < 2 ^ 63 ->
  marshal (fixedWidthUnixMicro t) = FString (fixedWidthUnixMicro t) /\ parse_int64 (fixedWidthUnixMicro t) = Some (UnixMicro t).
Proof.
  intros Ht. assert (0 <= t) as H0 by lia. pose proof (fixed_text t H0) as Hd. split; [by eapply marshal_text|].
  apply parse_text; [done|]. unfold UnixMicro. apply Z.div_lt_upper_bound; lia.
Qed.
Lemma sort_sorted l : sort_strings (sort_strings l) = sort_strings l.
Proof. apply (StronglySorted_unique String.le); [apply sort_strings_sorted..|apply sort_strings_perm]. Qed.
Lemma coerce_sorted l : Forall (fun x => coerce x = x) l -> coerce <$> sort_strings l = sort_strings l.
Proof.
  intros Hl. rewrite <- (list_fmap_id (sort_strings l)) at 2. apply list_fmap_ext. intros i x Hx%list_elem_of_lookup_2.
  rewrite sort_strings_perm in Hx. rewrite Forall_forall in Hl. by apply Hl.
Qed.
Lemma record_decodes : text_ok -> checked -> decodeRealtimeConnection (PObject (realtimeConnectionRecord c seen)) = Some as_stored.
Proof using Happ Hinst Hgen.
  intros (Hcl & Hco & Hpr & Hch & Hcon & Hse) (Va & Vc & Vn & Vi & Hlen).
  destruct (generation_text (rc_Generation c) Hgen) as [Hp Hm]. destruct (fixed_back _ Hcon) as [Mc Pc]. destruct (fixed_back _ Hse) as [Ms Ps].
  unfold decodeRealtimeConnection, go_number, go_string, go_strings. change (?m !! "version") with (Some (FNumber 1)).
  change (?m !! "app_id") with (Some (marshal (rc_AppID c))). change (?m !! "client_id") with (Some (marshal (rc_ClientID c))).
  change (?m !! "connection_id") with (Some (marshal (rc_ConnectionID c))). change (?m !! "instance_id") with (Some (marshal (rc_InstanceID c))).
  change (?m !! "generation") with (Some (marshal (generationString (rc_Generation c)))). change (?m !! "protocol") with (Some (marshal (rc_Protocol c))).
  change (?m !! "channels") with (Some (FStrings (coerce <$> normalizedChannels (rc_Channels c)))).
  change (?m !! "connected_at_us") with (Some (marshal (fixedWidthUnixMicro (rc_ConnectedAt c)))).
  change (?m !! "last_seen_at_us") with (Some (marshal (fixedWidthUnixMicro seen))). rewrite Hm, Mc, Ms. unfold marshal. rewrite Happ, Hcl, Hco, Hinst, Hpr.
  cbn [mbind option_bind]. rewrite Hp, Pc, Ps. cbn [mbind option_bind]. unfold normalizedChannels. rewrite coerce_sorted, sort_sorted by done.
  rewrite Va, Vc, Vn, Vi. assert ((rc_Generation c =? 0) = false) as -> by lia.
  assert ((100 <? Z.of_nat (length (sort_strings (rc_Channels c)))) = false) as -> by (rewrite sort_strings_perm; lia). done.
Qed.
Lemma get_held t w : held (w_db w) -> w_faults w = [] -> ms t <= T -> text_ok -> checked ->
  Get keys t (rc_AppID c) (rc_ConnectionID c) w = (Ok as_stored, w).
Proof using Hkey Happ Hinst Hgen.
  intros Hh Hf Ht Htext Hchk. unfold Get. rewrite Hkey. cbn [key_or]. unfold mbind, M_bind, GETs. rewrite call_run by done.
  rewrite (get_alive _ _ _ _ _ Hh Ht). rewrite record_decodes by done. rewrite !bool_decide_true by done. destruct w as [db fs lk]. cbn in Hf. by subst.
Qed.

(** ** Another incarnation is refused *)

Definition refused {A} (r : res A) : Prop := r = Err OwnershipLost \/ r = Err InvalidRecord.
Lemma refused_record {A} c' ttl (f : gmap string field * string * string -> M_redis A) w ik :
  same_connection c c' -> RealtimeConnectionIndex keys (rc_AppID c) = Some ik ->
  (forall rec, f (rec, key, ik) w = (Err OwnershipLost, w)) ->
  refused ((record keys c' ttl ≫= f) w).1 /\ ((record keys c' ttl ≫= f) w).2 = w.
Proof using Hkey.
  intros [Ha Hc] Hi Hf. unfold record. destruct (_ || _); [by split; [right|]|]. rewrite Ha, Hc, Hkey, Hi. unfold mbind, M_bind. cbn.
  rewrite Hf. by split; [left|].
Qed.
Lemma update_refused now clock1 clock2 c' channels ttl w ik :
  held (w_db w) -> w_faults w = [] -> ms now <= T -> RealtimeConnectionIndex keys (rc_AppID c) = Some ik ->
  same_connection c c' -> ~ same_incarnation c c' ->
  refused (UpdateChannels keys now clock1 clock2 c' channels ttl w).1 /\ (UpdateChannels keys now clock1 clock2 c' channels ttl w).2 = w.
Proof using Hkey Happ Hinst Hgen.
  intros Hh Hf Ht Hi Hs Hne. assert (w = mkWorld (w_db w) [] (w_locked w)) as Hw by (destruct w; cbn in *; by subst).
  unfold UpdateChannels, update. cbn zeta. apply (refused_record _ ttl _ _ ik); [exact Hs|done|]. intros rec.
  change (rc_AppID (set_channels c' ?x ?y)) with (rc_AppID c') in *. change (rc_InstanceID (set_channels c' ?x ?y)) with (rc_InstanceID c') in *.
  change (rc_Generation (set_channels c' ?x ?y)) with (rc_Generation c') in *. unfold mbind, M_bind. rewrite call_run by done.
  unfold updateRealtimeConnectionScript. rewrite (get_alive _ _ _ _ _ Hh Ht), not_owner by naive_solver. cbn. by rewrite <- Hw.
Qed.
Lemma delete_refused now c' w ik :
  held (w_db w) -> w_faults w = [] -> ms now <= T -> RealtimeConnectionIndex keys (rc_AppID c) = Some ik ->
  same_connection c c' -> ~ same_incarnation c c' -> refused (Delete keys now c' w).1 /\ (Delete keys now c' w).2 = w.
Proof using Hkey Happ Hinst Hgen.
  intros Hh Hf Ht Hi Hs Hne. assert (w = mkWorld (w_db w) [] (w_locked w)) as Hw by (destruct w; cbn in *; by subst).
  unfold Delete. apply (refused_record _ Millisecond _ _ ik); [exact Hs|done|]. intros rec. unfold mbind, M_bind. rewrite call_run by done.
  unfold deleteRealtimeConnectionScript. rewrite (get_alive _ _ _ _ _ Hh Ht), not_owner by naive_solver. cbn. by rewrite <- Hw.
Qed.
End held.
Definition seen_of (c : RealtimeConnection) : Z := if IsZero (rc_LastSeenAt c) then rc_ConnectedAt c else rc_LastSeenAt c.
Lemma put_held now clock c ttl w w1 :
  Put keys now clock c ttl w = (Ok tt, w1) ->
  exists key ik, Keys.RealtimeConnection keys (rc_AppID c) (rc_ConnectionID c) = Some key /\ RealtimeConnectionIndex keys (rc_AppID c) = Some ik
    /\ held c (seen_of c) (ms now + px ttl) key (w_db w1) /\ checked c /\ rc_Generation c <> 0.
Proof.
  intros Hput. unfold Put in Hput. apply bind_ok in Hput as ([[rec mk] ik] & w0 & Hrec & Hput). unfold record in Hrec.
  destruct (_ || _) eqn:Hv in Hrec; [done|]. rewrite !orb_false_iff, !negb_false_iff in Hv.
  destruct Hv as [[[[[[[[Va Vc] Vn] Vi] Vg] _] _] _] Vl]. unfold key_or in Hrec.
  destruct (Keys.RealtimeConnection keys (rc_AppID c) _) as [mk'|] eqn:Hm; [|done]. destruct (RealtimeConnectionIndex keys (rc_AppID c)) as [ik'|] eqn:Hi; [|done].
  injection Hrec as <- <- <- <-. exists mk', ik'. split; [done|]. split; [done|]. split; [|unfold checked; split_and!; [done..|lia|lia]].
  apply call_ok in Hput. unfold put_commands, SET_PX in Hput. destruct (_ <=? 0); [done|]. unfold held.
  rewrite (on_zset_held mk' _ _ _ _ _ _ (index_other c mk' Hm _ _ Hi) Hput). by rewrite lookup_insert_eq.
Qed.
End registry.

(** A connection that was registered is found, with its channels in order and its
    times in microseconds, until it expires, whatever others do to other connections and
    other incarnations of the gateway to this one: these can neither renew nor remove it,
    and change nothing. *)
Theorem connection_fenced keys now clock c ttl w w1 db t locked :
  Put keys now clock c ttl w = (Ok tt, w1) ->
  coerce (rc_AppID c) = rc_AppID c -> coerce (rc_InstanceID c) = rc_InstanceID c -> 0 <= rc_Generation c < 2 ^ 64 -> text_ok c (seen_of c) ->
  rtc (registry_step keys c) (w_db w1) db -> ms t <= ms now + px ttl ->
  let w2 := mkWorld db [] locked in
  Get keys t (rc_AppID c) (rc_ConnectionID c) w2 = (Ok (as_stored c (seen_of c)), w2)
  /\ forall c', same_connection c c' -> ~ same_incarnation c c' ->
       (forall clock1 clock2 channels ttl', let r := UpdateChannels keys t clock1 clock2 c' channels ttl' w2 in refused r.1 /\ r.2 = w2)
       /\ let r := Delete keys t c' w2 in refused r.1 /\ r.2 = w2.
Proof.
  intros Hput Happ Hinst Hgen Htext Hrun Ht w2. destruct (put_held keys now clock c ttl w w1 Hput) as (key & ik & Hkey & Hi & Hh & Hchk & Hg0).
  assert (0 < rc_Generation c < 2 ^ 64) as Hgen' by lia. assert (held c (seen_of c) (ms now + px ttl) key db) as Hdb.
  { clear Ht w2. induction Hrun as [|x y z Hs _ IH]; [done|]. apply IH. by eapply registry_step_held. }
  split; [by apply (get_held keys c (seen_of c) (ms now + px ttl) key)|]. intros c' Hs Hne. split.
  - intros clock1 clock2 channels ttl'. by eapply (update_refused keys c (seen_of c) (ms now + px ttl) key).
  - by eapply (delete_refused keys c (seen_of c) (ms now + px ttl) key).
Qed.
Definition demo_connection : RealtimeConnection :=
  mkConnection "a" "alice" "c1" "gw1" 7 "relayhub.realtime.v2" ["news"; "chat"] (5 * Second) (5 * Second).
Definition demo_empty : World RedisDB := mkWorld ∅ [] ∅.
Lemma connection_fenced_witness :
  exists db, (Get demo_keys 6000000 "a" "c1" (mkWorld db [] ∅)).1
    = Ok (mkConnection "a" "alice" "c1" "gw1" 7 "relayhub.realtime.v2" ["chat"; "news"] (5 * Second) (5 * Second)).
Proof.
  exists (w_db (Put demo_keys 5000000 (5 * Second) demo_connection Minute demo_empty).2).
  destruct (connection_fenced demo_keys 5000000 (5 * Second) demo_connection Minute demo_empty
    (Put demo_keys 5000000 (5 * Second) demo_connection Minute demo_empty).2
    (w_db (Put demo_keys 5000000 (5 * Second) demo_connection Minute demo_empty).2) 6000000 ∅) as [Hg _].
  - vm_compute. reflexivity.
  - vm_compute. reflexivity.
  - vm_compute. reflexivity.
  - cbn. lia.
  - split; [vm_compute; reflexivity|]. split; [vm_compute; reflexivity|]. split; [vm_compute; reflexivity|].
    split; [repeat constructor; vm_compute; reflexivity|]. split; vm_compute; (split; [discriminate|reflexivity]).
  - apply rtc_refl.
  - vm_compute. discriminate.
  - transitivity (Ok (as_stored demo_connection (seen_of demo_connection))); [exact (f_equal fst Hg)|vm_compute; reflexivity].
Defined.
End ConnectionClaims.
