(* ===== verification/RealtimeFiles.v ===== *)
(** * Files and push notifications ([service/realtime_files.go], [service/realtime_push.go])

    The tables of migrations 016 and 017 with the statements of
    [store/postgres/realtime_files.go] and [realtime_push.go], the two services over them,
    and the completion of an upload as steps, since between reading a file and marking it
    ready the service asks the object store and the scanner. *)

From Stdlib Require Import Ascii String.
From S2P Require Import Prelude GoLib Crypto Json Domain QueueSchema QueueService AppStore AppClaims.

Module Files.

Record RealtimeFile := mkFile {
  rf_ID : string;
  rf_AppID : string;
  rf_Channel : string;
  rf_Name : string;
  rf_MIMEType : string;
  rf_SizeBytes : Z;
  rf_SHA256 : string;
  rf_ObjectKey : string;
  rf_Status : string;
  rf_CreatedAt : Z;
  rf_ExpiresAt : Z;
  rf_CompletedAt : option Z
}.
(** The identifiers of [applications], and [realtime_files]. *)
Record FileDB := mkFileDB { fd_applications : gset string; fd_files : gmap string RealtimeFile }.
Abbreviation M_file := (M FileDB).
Definition maxRealtimeFileBytes : Z := 26214400.

(** ** The store *)

(** [^[a-f0-9]{64}$] *)
Definition is_hex_digit (c : ascii) : bool := in_range "a" "f" c || is_digit c.
Definition fileSHA256 (s : string) : bool := match_class is_hex_digit is_hex_digit 63 63 s.
(** The conditions of the table on one row. *)
Definition file_checks (f : RealtimeFile) : bool :=
  (0 <? rf_SizeBytes f) && (rf_SizeBytes f <=? maxRealtimeFileBytes) && fileSHA256 (rf_SHA256 f)
  && bool_decide (rf_Status f ∈ ["pending"; "ready"; "quarantined"]) && (rf_CreatedAt f <? rf_ExpiresAt f)
  && (isSome (rf_CompletedAt f) || negb (bool_decide (rf_Status f = "ready"))).
Definition insert_file (f : RealtimeFile) (db : FileDB) : res (unit * FileDB) :=
  if negb (file_checks f) then Err DriverError else
  if isSome (fd_files db !! rf_ID f) || existsb (fun kr => bool_decide (rf_ObjectKey kr.2 = rf_ObjectKey f)) (map_to_list (fd_files db))
  then Err UniqueViolation else
  if negb (bool_decide (rf_AppID f ∈ fd_applications db)) then Err DriverError
  else Ok (tt, mkFileDB (fd_applications db) (<[rf_ID f := f]> (fd_files db))).
Definition CreateRealtimeFile (f : RealtimeFile) : M_file unit :=
  on_error (exec (fun _ => insert_file f)) (fun e => fail (if bool_decide (e = UniqueViolation) then StoreConflict else e)).
Definition get_file (appID id : string) (db : FileDB) : option RealtimeFile :=
  match fd_files db !! id with
  | Some f => if bool_decide (rf_AppID f = appID) then Some f else None
  | None => None
  end.
Definition GetRealtimeFile (appID id : string) : M_file RealtimeFile := query_row StoreNotFound (get_file appID id).
Definition completed (at_ : Z) (f : RealtimeFile) : RealtimeFile :=
  mkFile (rf_ID f) (rf_AppID f) (rf_Channel f) (rf_Name f) (rf_MIMEType f) (rf_SizeBytes f) (rf_SHA256 f) (rf_ObjectKey f)
    "ready" (rf_CreatedAt f) (rf_ExpiresAt f) (Some at_).
Definition complete_file (appID id : string) (at_ : Z) (db : FileDB) : res (RealtimeFile * FileDB) :=
  match get_file appID id db with
  | Some f =>
      if bool_decide (rf_Status f = "pending") && (at_ <? rf_ExpiresAt f)
      then Ok (completed at_ f, mkFileDB (fd_applications db) (<[id := completed at_ f]> (fd_files db)))
      else Err StoreNotFound
  | None => Err StoreNotFound
  end.
Definition CompleteRealtimeFile (appID id : string) (at_ : Z) : M_file RealtimeFile :=
  on_error (exec (fun _ => complete_file appID id at_)) (fun e w =>
    if bool_decide (e = StoreNotFound)
    then match GetRealtimeFile appID id w with
         | (Ok _, w') => (Err StoreConflict, w')
         | (Err _, w') => (Err e, w')
         end
    else (Err e, w)).

(** ** The service *)

Definition allowedRealtimeMIME (mime : string) : bool :=
  bool_decide (mime ∈ ["image/jpeg"; "image/png"; "image/gif"; "image/webp"; "application/pdf"; "text/plain"; "application/zip"]).
Record ObjectInfo := mkObjectInfo { oi_Size : Z; oi_SHA256 : string }.
(** What the object store answers, [None] for an error; [os_Open] is [None] when it
    cannot be read through the service. *)
Record RealtimeObjectStore := mkObjectStore {
  os_PresignUpload : string -> string -> Z -> string -> Z -> option (string * gmap string string);
  os_PresignDownload : string -> Z -> option string;
  os_Stat : string -> option ObjectInfo;
  os_Open : option (string -> option string)
}.
(** [fs_objects] is [None] when no object store is configured, [fs_Scanner] when no scanner
    is; the scanner says whether the object is clean. *)
Record RealtimeFileService := mkFileService {
  fs_objects : option RealtimeObjectStore;
  fs_Retention : Z;
  fs_URLTTL : Z;
  fs_Scanner : option (string -> bool)
}.
Definition NewRealtimeFileService (objects : option RealtimeObjectStore) (retention ttl : Z) (scanner : option (string -> bool)) : RealtimeFileService :=
  mkFileService objects (if retention <=? 0 then 24 * Hour else retention) (if ttl <=? 0 then 15 * Minute else ttl) scanner.

Record CreateRealtimeFileInput := mkFileInput {
  fi_Channel : string;
  fi_Name : string;
  fi_MIMEType : string;
  fi_SizeBytes : Z;
  fi_SHA256 : string
}.
Record RealtimeFileUpload := mkUpload { up_File : RealtimeFile; up_UploadURL : string; up_RequiredHeaders : gmap string string }.
Record RealtimeFileDownload := mkDownload { dn_File : RealtimeFile; dn_DownloadURL : string }.

(** ["/\\\x00\r\n"] *)
Definition bad_name_byte (c : ascii) : bool := existsb (fun n => code c =? n) [47; 92; 0; 13; 10].
Definition normalize_input (i : CreateRealtimeFileInput) : CreateRealtimeFileInput :=
  mkFileInput (fi_Channel i) (TrimSpace (fi_Name i)) (ToLower (TrimSpace (fi_MIMEType i))) (fi_SizeBytes i) (ToLower (TrimSpace (fi_SHA256 i))).
Definition valid_input (appID : string) (i : CreateRealtimeFileInput) : bool :=
  negb (bool_decide (appID = "") || negb (Channel.ValidRealtimeChannel (fi_Channel i)) || bool_decide (fi_Name i = "") || (255 <? len (fi_Name i))
        || existsb bad_name_byte (bytes (fi_Name i)) || negb (allowedRealtimeMIME (fi_MIMEType i))
        || (fi_SizeBytes i <? 1) || (maxRealtimeFileBytes <? fi_SizeBytes i) || negb (fileSHA256 (fi_SHA256 i))).
Definition new_file (retention now : Z) (id appID : string) (i : CreateRealtimeFileInput) : RealtimeFile :=
  mkFile id appID (fi_Channel i) (fi_Name i) (fi_MIMEType i) (fi_SizeBytes i) (fi_SHA256 i) ("realtime/" ++ appID ++ "/" ++ id)
    "pending" now (now + retention) None.
(** [strings.EqualFold] when the second string is hexadecimal in lower case, as a stored
    hash is: no character outside ASCII folds to a hexadecimal digit. *)
Definition fold_byte (c : ascii) : ascii := if is_upper c then chr (code c + 32) else c.
Definition EqualFold_hex (s t : string) : bool := bool_decide (of_bytes (fold_byte <$> bytes s) = t).
Definition live (now : Z) (f : RealtimeFile) : bool := bool_decide (rf_Status f = "ready") && (now <? rf_ExpiresAt f).
Definition hide_key (f : RealtimeFile) : RealtimeFile :=
  mkFile (rf_ID f) (rf_AppID f) (rf_Channel f) (rf_Name f) (rf_MIMEType f) (rf_SizeBytes f) (rf_SHA256 f) "" (rf_Status f)
    (rf_CreatedAt f) (rf_ExpiresAt f) (rf_CompletedAt f).

Section service.
Context `{NetLib} (service : RealtimeFileService).

Definition safePresignedURL (raw : string) : bool :=
  match url_Parse raw with
  | Some u => bool_decide (url_Scheme u = "https") && negb (bool_decide (url_Host u = "")) && negb (isSome (url_User u))
  | None => false
  end.
Definition with_objects {A} (k : RealtimeObjectStore -> M_file A) : M_file A :=
  match fs_objects service with Some objects => k objects | None => fail ErrInvalidDependency end.
Definition Create (now : Z) (id appID : string) (input : CreateRealtimeFileInput) : M_file RealtimeFileUpload :=
  with_objects (fun objects =>
    let input := normalize_input input in
    if negb (valid_input appID input) then fail ErrInvalidInput else
    let file := new_file (fs_Retention service) now id appID input in
    map_store_error (CreateRealtimeFile file);;
    match os_PresignUpload objects (rf_ObjectKey file) (rf_MIMEType file) (rf_SizeBytes file) (rf_SHA256 file) (fs_URLTTL service) with
    | Some (url, headers) => if safePresignedURL url then mret (mkUpload file url headers) else fail ErrInvalidDependency
    | None => fail ErrInvalidDependency
    end).

(** [Complete] up to the call of [Stat]: whether the file is ready already. *)
Definition complete_decide (now : Z) (f : RealtimeFile) : res bool :=
  if bool_decide (rf_Status f = "ready") then Ok true else
  if negb (bool_decide (rf_Status f = "pending")) || negb (now <? rf_ExpiresAt f) then Err ErrConflict else Ok false.
Definition complete_stat (info : option ObjectInfo) (f : RealtimeFile) : bool :=
  match info with
  | Some i => (oi_Size i =? rf_SizeBytes f) && EqualFold_hex (oi_SHA256 i) (rf_SHA256 f)
  | None => false
  end.
Definition complete_scan (f : RealtimeFile) : bool :=
  match fs_Scanner service with Some scan => scan (rf_ObjectKey f) | None => true end.
Definition Complete (now at_ : Z) (appID fileID : string) : M_file RealtimeFile :=
  with_objects (fun objects =>
    f ← map_store_error (GetRealtimeFile appID fileID);
    match complete_decide now f with
    | Err e => fail e
    | Ok true => mret f
    | Ok false =>
        if negb (complete_stat (os_Stat objects (rf_ObjectKey f)) f) then fail ErrConflict else
        if negb (complete_scan f) then fail ErrConflict else
        map_store_error (CompleteRealtimeFile appID fileID at_)
    end).
Definition Download (now : Z) (appID fileID : string) : M_file RealtimeFileDownload :=
  with_objects (fun objects =>
    f ← map_store_error (GetRealtimeFile appID fileID);
    if negb (live now f) then fail ErrConflict else
    match os_PresignDownload objects (rf_ObjectKey f) (fs_URLTTL service) with
    | Some url => if safePresignedURL url then mret (mkDownload f url) else fail ErrInvalidDependency
    | None => fail ErrInvalidDependency
    end).
Definition AdminMetadata (appID fileID : string) : M_file RealtimeFile :=
  f ← map_store_error (GetRealtimeFile appID fileID); mret (hide_key f).
Definition AdminDownload (now : Z) (appID fileID : string) : M_file (RealtimeFile * string) :=
  with_objects (fun objects =>
    match os_Open objects with
    | None => fail ErrInvalidDependency
    | Some open =>
        f ← map_store_error (GetRealtimeFile appID fileID);
        if negb (live now f) then fail ErrConflict else
        match open (rf_ObjectKey f) with Some stream => mret (hide_key f, stream) | None => fail ErrInvalidDependency end
    end).
Definition Resolve (now : Z) (appID fileID channel : string) : M_file RealtimeFile :=
  f ← map_store_error (GetRealtimeFile appID fileID);
  if negb (bool_decide (rf_Channel f = channel)) || negb (live now f) then fail ErrConflict else mret (hide_key f).
End service.
End Files.
Import Files.

(** ** Uploads in any order

    Every call of [Complete] as it goes: its statements on the database and the two
    questions it asks outside, whose answers are recorded. *)
Inductive upload_state :=
| Reading
| Statting (f : RealtimeFile)
| Scanning (f : RealtimeFile)
| Storing (f : RealtimeFile)
| Finished (r : res RealtimeFile).
Record upload := mkUploadCall { ul_app : string; ul_id : string; ul_state : upload_state }.
Inductive answer := Statted (key : string) (info : ObjectInfo) | Scanned (key : string).
Record file_system := mkFileSystem { fy_db : FileDB; fy_calls : gmap nat upload; fy_log : list answer }.
Definition set_call (i : nat) (u : upload) (s : upload_state) (y : file_system) : gmap nat upload := <[i := mkUploadCall (ul_app u) (ul_id u) s]> (fy_calls y).
(** What reading leads to. *)
Definition after_read (now : Z) (found : option RealtimeFile) : upload_state :=
  match found with
  | Some f => match complete_decide now f with Ok true => Finished (Ok f) | Ok false => Statting f | Err e => Finished (Err e) end
  | None => Finished (Err ErrNotFound)
  end.
Definition answered (info : option ObjectInfo) (f : RealtimeFile) : list answer := match info with Some i => [Statted (rf_ObjectKey f) i] | None => [] end.

(** Two hashes agree byte by byte, but for capital letters in the first. *)
Definition same_hash (s t : string) : Prop :=
  Forall2 (fun a b => code b = code a \/ 65 <= code a <= 90 /\ code b = code a + 32) (bytes s) (bytes t).
Lemma fold_byte_code c : code (fold_byte c) = code c \/ 65 <= code c <= 90 /\ code (fold_byte c) = code c + 32.
Proof.
  unfold fold_byte. destruct (is_upper c) eqn:Hu; [right|by left]. unfold is_upper, in_range in Hu.
  change (code "A") with 65 in Hu. change (code "Z") with 90 in Hu. split; [lia|]. rewrite code_chr; lia.
Qed.
Lemma fold_same s t : EqualFold_hex s t = true -> same_hash s t.
Proof.
  unfold EqualFold_hex, same_hash. intros <-%bool_decide_eq_true. rewrite bytes_of_bytes.
  apply Forall2_fmap_r, Forall_Forall2_diag, Forall_forall. intros c _. apply fold_byte_code.
Qed.
Lemma stat_agrees info f :
  complete_stat (Some info) f = true -> oi_Size info = rf_SizeBytes f /\ same_hash (oi_SHA256 info) (rf_SHA256 f).
Proof. cbn. intros [Hs%Z.eqb_eq Hh%fold_same]%andb_true_iff. done. Qed.

Section uploads.
Context `{NetLib} (service : RealtimeFileService).

Inductive upload_step : file_system -> file_system -> Prop :=
| us_applications y apps : fd_applications (fy_db y) ⊆ apps -> upload_step y (mkFileSystem (mkFileDB apps (fd_files (fy_db y))) (fy_calls y) (fy_log y))
| us_create y now id appID input faults locked :
    upload_step y (mkFileSystem (w_db (Create service now id appID input (mkWorld (fy_db y) faults locked)).2) (fy_calls y) (fy_log y))
| us_begin y i appID id : fy_calls y !! i = None -> upload_step y (mkFileSystem (fy_db y) (<[i := mkUploadCall appID id Reading]> (fy_calls y)) (fy_log y))
| us_fail y i u e : fy_calls y !! i = Some u -> (forall r, ul_state u <> Finished r) -> upload_step y (mkFileSystem (fy_db y) (set_call i u (Finished (Err e)) y) (fy_log y))
| us_read y i u now : fy_calls y !! i = Some u -> ul_state u = Reading ->
    upload_step y (mkFileSystem (fy_db y) (set_call i u (after_read now (get_file (ul_app u) (ul_id u) (fy_db y))) y) (fy_log y))
| us_stat y i u f info : fy_calls y !! i = Some u -> ul_state u = Statting f ->
    upload_step y (mkFileSystem (fy_db y) (set_call i u (if complete_stat info f then Scanning f else Finished (Err ErrConflict)) y) (answered info f ++ fy_log y))
| us_scan y i u f clean : fy_calls y !! i = Some u -> ul_state u = Scanning f -> (fs_Scanner service = None -> clean = true) ->
    upload_step y (mkFileSystem (fy_db y) (set_call i u (if clean : bool then Storing f else Finished (Err ErrConflict)) y)
      (match fs_Scanner service with Some _ => if clean then [Scanned (rf_ObjectKey f)] else [] | None => [] end ++ fy_log y))
| us_store y i u f at_ : fy_calls y !! i = Some u -> ul_state u = Storing f ->
    upload_step y (match complete_file (ul_app u) (ul_id u) at_ (fy_db y) with
                   | Ok (g, db) => mkFileSystem db (set_call i u (Finished (Ok g)) y) (fy_log y)
                   | Err _ => mkFileSystem (fy_db y) (set_call i u (Finished (Err ErrConflict)) y) (fy_log y)
                   end).

(** The object of a file was seen with the size and the hash of the file, and found
    clean if there is a scanner. *)
Definition seen (log : list answer) (f : RealtimeFile) : Prop :=
  exists info, Statted (rf_ObjectKey f) info ∈ log /\ oi_Size info = rf_SizeBytes f
    /\ same_hash (oi_SHA256 info) (rf_SHA256 f).
Definition verified (log : list answer) (f : RealtimeFile) : Prop :=
  seen log f /\ (fs_Scanner service <> None -> Scanned (rf_ObjectKey f) ∈ log).
(** What never changes of a file. *)
Definition same_object (f g : RealtimeFile) : Prop :=
  rf_ID f = rf_ID g /\ rf_AppID f = rf_AppID g /\ rf_Channel f = rf_Channel g /\ rf_SizeBytes f = rf_SizeBytes g
  /\ rf_SHA256 f = rf_SHA256 g /\ rf_ObjectKey f = rf_ObjectKey g /\ rf_ExpiresAt f = rf_ExpiresAt g.
(** How a file may change: not at all, or from pending to ready in time. *)
Definition file_moves (f g : RealtimeFile) : Prop :=
  g = f \/ rf_Status f = "pending" /\ exists t, t < rf_ExpiresAt f /\ g = completed t f.
Definition files_grow (db db' : FileDB) : Prop :=
  forall id f, fd_files db !! id = Some f -> exists g, fd_files db' !! id = Some g /\ file_moves f g.
Definition file_ok (log : list answer) (id : string) (f : RealtimeFile) : Prop :=
  rf_ID f = id /\ file_checks f = true
  /\ (rf_Status f = "ready" -> verified log f /\ exists t, rf_CompletedAt f = Some t /\ t < rf_ExpiresAt f).
Definition upload_ok (y : file_system) (u : upload) : Prop :=
  let known f := rf_AppID f = ul_app u /\ exists g, fd_files (fy_db y) !! ul_id u = Some g /\ same_object f g in
  match ul_state u with
  | Reading | Finished (Err _) => True
  | Statting f => known f
  | Scanning f => known f /\ seen (fy_log y) f
  | Storing f => known f /\ verified (fy_log y) f
  | Finished (Ok f) => rf_AppID f = ul_app u /\ rf_Status f = "ready" /\ fd_files (fy_db y) !! ul_id u = Some f
  end.
Definition files_inv (y : file_system) : Prop :=
  (forall id f, fd_files (fy_db y) !! id = Some f -> file_ok (fy_log y) id f) /\ (forall i u, fy_calls y !! i = Some u -> upload_ok y u).

Lemma seen_more log log' f : log ⊆ log' -> seen log f -> seen log' f.
Proof. intros Hl (i & Hi & Hs). exists i. auto. Qed.
Lemma verified_more log log' f : log ⊆ log' -> verified log f -> verified log' f.
Proof. intros Hl [Hs Hc]. split; [by eapply seen_more|auto]. Qed.
Lemma file_ok_more log log' id f : log ⊆ log' -> file_ok log id f -> file_ok log' id f.
Proof. intros Hl (H1 & H2 & H3). split_and!; [done|done|]. intros [Hv Ht]%H3. split; [by eapply verified_more|done]. Qed.
Lemma same_object_moves f g h : same_object f g -> file_moves g h -> same_object f h.
Proof. intros Hs [->|(_ & t & _ & ->)]; done. Qed.
Lemma verified_same log f g : same_object f g -> verified log f -> verified log g.
Proof.
  intros (_ & _ & _ & Hz & Hh & Hk & _) [(i & Hi & Hs) Hc]. split; [|by rewrite <- Hk].
  exists i. by rewrite <- Hk, <- Hz, <- Hh.
Qed.
Lemma upload_ok_grow y y' u : files_grow (fy_db y) (fy_db y') -> fy_log y ⊆ fy_log y' -> upload_ok y u -> upload_ok y' u.
Proof.
  intros Hg Hl. assert (forall f, (exists g, fd_files (fy_db y) !! ul_id u = Some g /\ same_object f g) ->
    exists g, fd_files (fy_db y') !! ul_id u = Some g /\ same_object f g) as Hknown.
  { intros f (g & Hf & Hs). destruct (Hg _ _ Hf) as (h & Hh & Hm). exists h. split; [done|by eapply same_object_moves]. }
  unfold upload_ok. destruct (ul_state u) as [|f|f|f|[f|]]; [done| | | | |done].
  - intros [Ha Hk]. auto.
  - intros [[Ha Hk] Hs]. split; [auto|by eapply seen_more].
  - intros [[Ha Hk] Hs]. split; [auto|by eapply verified_more].
  - intros (Ha & Hr & Hf). destruct (Hg _ _ Hf) as (h & Hh & [->|[Hp _]]); [done|congruence].
Qed.
Lemma files_grow_refl db : files_grow db db.
Proof. intros id f Hf. exists f. split; [done|by left]. Qed.

(** [Create] adds a pending file, or nothing. *)
Definition files_added (db db' : FileDB) : Prop :=
  (forall id f, fd_files db !! id = Some f -> fd_files db' !! id = Some f)
  /\ (forall id f, fd_files db' !! id = Some f -> fd_files db !! id = Some f \/ rf_ID f = id /\ file_checks f = true /\ rf_Status f = "pending").
#[local] Instance files_added_preorder : PreOrder files_added.
Proof.
  split; [split; auto|]. intros a b c [H1 H2] [H3 H4]. split; [auto|]. intros id f [Hf|Hf]%H4; auto.
Qed.
Lemma create_adds now id appID input : keeps files_added (Create service now id appID input).
Proof.
  unfold Create, with_objects, map_store_error, CreateRealtimeFile. cbv zeta. keeps_solve.
  apply (keeps_exec files_added). intros _ d [] d'. unfold insert_file. destruct (file_checks _) eqn:Hc; [|done]. cbn [negb].
  destruct (isSome _ || _) eqn:Hn; [done|]. destruct (negb _); [done|]. intros [= <-].
  apply orb_false_iff in Hn as [Hn _]. cbn [rf_ID new_file] in *. destruct (fd_files d !! id) as [|] eqn:Hd; [done|]. split; cbn.
  - intros i f Hf. rewrite lookup_insert_ne; [done|congruence].
  - intros i f [[<- <-]|[_ Hf]]%lookup_insert_Some; [by right|by left].
Qed.

(** One call moves on, the database and the log grow. *)
Lemma inv_upload y db i u s log :
  files_inv y -> fy_calls y !! i = Some u -> files_grow (fy_db y) db -> fy_log y ⊆ log ->
  (forall id f, fd_files db !! id = Some f -> file_ok log id f) ->
  upload_ok (mkFileSystem db ∅ log) (mkUploadCall (ul_app u) (ul_id u) s) -> files_inv (mkFileSystem db (set_call i u s y) log).
Proof.
  intros [H1 H2] Hu Hg Hl Hf Hok. split; [exact Hf|]. intros j v. cbn [fy_calls]. unfold set_call. intros [[<- <-]|[_ Hv]]%lookup_insert_Some; [exact Hok|].
  eapply (upload_ok_grow y); [done|done|by eapply H2].
Qed.
(** As above, when the database stays as it is. *)
Lemma inv_upload_db y i u s log :
  files_inv y -> fy_calls y !! i = Some u -> fy_log y ⊆ log -> upload_ok (mkFileSystem (fy_db y) ∅ log) (mkUploadCall (ul_app u) (ul_id u) s) ->
  files_inv (mkFileSystem (fy_db y) (set_call i u s y) log).
Proof.
  intros Hi Hu Hl Hok. apply inv_upload; [done|done|apply files_grow_refl|done| |done]. intros id f Hf. destruct Hi as [H1 _]. by eapply file_ok_more, H1.
Qed.
Lemma get_file_some appID id db f : get_file appID id db = Some f <-> fd_files db !! id = Some f /\ rf_AppID f = appID.
Proof. unfold get_file. destruct (fd_files db !! id) as [g|]; [|naive_solver]. case_bool_decide; naive_solver. Qed.
Lemma complete_file_ok appID id at_ db g db' :
  complete_file appID id at_ db = Ok (g, db') ->
  exists f, fd_files db !! id = Some f /\ rf_AppID f = appID /\ rf_Status f = "pending" /\ at_ < rf_ExpiresAt f
    /\ g = completed at_ f /\ db' = mkFileDB (fd_applications db) (<[id := g]> (fd_files db)).
Proof.
  unfold complete_file. destruct (get_file appID id db) as [f|] eqn:Hf; [|done]. apply get_file_some in Hf as [Hf Ha].
  destruct (_ && _) eqn:Hc; [|done]. apply andb_true_iff in Hc as [Hs%bool_decide_eq_true Ht%Z.ltb_lt]. intros [= <- <-]. eauto 10.
Qed.
Lemma complete_decide_ok now f b : complete_decide now f = Ok b -> rf_Status f = if b then "ready" else "pending".
Proof. unfold complete_decide. case_bool_decide; [by intros [= <-]|]. case_bool_decide; [|done]. cbn. destruct (_ <? _); [by intros [= <-]|done]. Qed.

Lemma step_create y now id appID input w : files_inv y -> w_db w = fy_db y ->
  files_inv (mkFileSystem (w_db (Create service now id appID input w).2) (fy_calls y) (fy_log y)).
Proof.
  intros [H1 H2] Hw. pose proof (create_adds now id appID input w) as [Ha Hn]. rewrite Hw in *. split; cbn.
  - intros i f [Hf|(Hi & Hc & Hp)]%Hn; [by apply H1|]. split_and!; [done|done|]. intros Hr. congruence.
  - intros i u Hu. eapply (upload_ok_grow y); [|done|by eapply H2]. intros j f Hf. exists f. split; [by apply Ha|by left].
Qed.
Lemma step_read y i u now : files_inv y -> fy_calls y !! i = Some u ->
  files_inv (mkFileSystem (fy_db y) (set_call i u (after_read now (get_file (ul_app u) (ul_id u) (fy_db y))) y) (fy_log y)).
Proof.
  intros Hi Hu. apply inv_upload_db; [done|done|done|]. unfold after_read, upload_ok. cbn [ul_state ul_app ul_id fy_db].
  destruct (get_file _ _ _) as [f|] eqn:Hf; [|done]. apply get_file_some in Hf as [Hf Ha].
  destruct (complete_decide now f) as [[]|] eqn:Hd; [| |done]; [by apply complete_decide_ok in Hd|]. split; [done|]. by exists f.
Qed.
Lemma step_store y i u f at_ : files_inv y -> fy_calls y !! i = Some u -> ul_state u = Storing f ->
  files_inv (match complete_file (ul_app u) (ul_id u) at_ (fy_db y) with
             | Ok (g, db) => mkFileSystem db (set_call i u (Finished (Ok g)) y) (fy_log y)
             | Err _ => mkFileSystem (fy_db y) (set_call i u (Finished (Err ErrConflict)) y) (fy_log y)
             end).
Proof.
  intros Hi Hu Hs. destruct (complete_file _ _ _ _) as [[g db]|] eqn:Hc; [|by apply inv_upload_db].
  apply complete_file_ok in Hc as (f' & Hf & Ha & Hp & Ht & -> & ->). destruct Hi as [H1 H2]. pose proof (H2 i u Hu) as Hok.
  unfold upload_ok in Hok. rewrite Hs in Hok. destruct Hok as [(_ & g & Hg & Hsame) Hv]. assert (g = f') as -> by congruence.
  apply inv_upload; [done|done| |done| |].
  - intros id h Hh. destruct (decide (id = ul_id u)) as [->|Hne]; [|exists h; split; [cbn; by rewrite lookup_insert_ne|by left]].
    exists (completed at_ f'). split; [cbn; by rewrite lookup_insert_eq|]. assert (h = f') as -> by congruence. right. eauto.
  - intros id h. cbn [fd_files]. intros [[<- <-]|[_ Hh]]%lookup_insert_Some; [|by apply H1]. destruct (H1 _ _ Hf) as (K1 & K2 & _).
    split_and!; [done| |intros _; split; [by apply (verified_same (fy_log y) f)|by eexists]].
    unfold file_checks in *. cbn. bool_to_prop. destruct_and!. split_and!; try done. set_solver.
  - split_and!; [done|done|]. cbn. by rewrite lookup_insert_eq.
Qed.
Lemma upload_step_inv y y' : upload_step y y' -> files_inv y -> files_inv y'.
Proof.
  intros Hstep Hi. destruct Hstep as [y apps Ha|y now id appID input faults locked|y i appID id Hn|y i u e Hu Hl|y i u now Hu Hs|y i u f info Hu Hs|y i u f clean Hu Hs Hc|y i u f at_ Hu Hs].
  - exact Hi.
  - by apply step_create.
  - destruct Hi as [H1 H2]. split; [done|]. intros j v. cbn [fy_calls]. intros [[<- <-]|[_ Hv]]%lookup_insert_Some; [done|]. exact (H2 j v Hv).
  - by apply inv_upload_db.
  - by apply step_read.
  - destruct Hi as [H1 H2]. pose proof (H2 i u Hu) as Hok. unfold upload_ok in Hok. rewrite Hs in Hok.
    apply inv_upload_db; [done|done|set_solver|]. destruct info as [o|]; [|done]. destruct (complete_stat (Some o) f) eqn:Hst; [|done].
    split; [done|]. exists o. split; [by left|by apply stat_agrees].
  - destruct Hi as [H1 H2]. pose proof (H2 i u Hu) as Hok. unfold upload_ok in Hok. rewrite Hs in Hok. destruct Hok as [Hk Hseen].
    apply inv_upload_db; [done|done|set_solver|]. destruct clean; [|done]. split; [done|]. cbn [fy_log]. unfold verified.
    destruct (fs_Scanner service); (split; [eapply seen_more; [|done]; set_solver|]); [intros _; by left|done].
  - by eapply step_store.
Qed.
Definition no_files (apps : gset string) : file_system := mkFileSystem (mkFileDB apps ∅) ∅ [].
Lemma files_reachable apps y : rtc upload_step (no_files apps) y -> files_inv y.
Proof.
  assert (files_inv (no_files apps)) as H0. { split; intros ? ?; cbn; by rewrite lookup_empty. }
  revert H0. generalize (no_files apps). intros y0 Hy0 Hr. revert Hy0. induction Hr; [done|]. intros Hx. by apply IHHr, (upload_step_inv x).
Qed.

Lemma get_ok appID id w f w' : map_store_error (GetRealtimeFile appID id) w = (Ok f, w') -> fd_files (w_db w) !! id = Some f /\ rf_AppID f = appID.
Proof. rewrite map_store_ok. unfold GetRealtimeFile. rewrite query_row_ok, get_file_some. naive_solver. Qed.
Lemma live_ready now f : live now f = true -> rf_Status f = "ready" /\ now < rf_ExpiresAt f.
Proof. unfold live. by intros [?%bool_decide_eq_true ?%Z.ltb_lt]%andb_true_iff. Qed.
Lemma download_row now appID id w d w' : Download service now appID id w = (Ok d, w') ->
  fd_files (w_db w) !! id = Some (dn_File d) /\ rf_AppID (dn_File d) = appID /\ live now (dn_File d) = true /\ safePresignedURL (dn_DownloadURL d) = true.
Proof.
  unfold Download, with_objects. destruct (fs_objects service) as [o|]; [|done]. rewrite bind_ok. intros (f & w1 & [Hf Ha]%get_ok & Hd).
  destruct (live now f) eqn:Hl; [|done]. cbn [negb] in Hd. destruct (os_PresignDownload o _ _) as [url|]; [|done].
  destruct (safePresignedURL url) eqn:Hu; [|done]. injection Hd as <- _. done.
Qed.
Lemma resolve_row now appID id channel w g w' : Resolve now appID id channel w = (Ok g, w') ->
  exists f, fd_files (w_db w) !! id = Some f /\ rf_AppID f = appID /\ rf_Channel f = channel /\ live now f = true /\ g = hide_key f.
Proof.
  unfold Resolve. rewrite bind_ok. intros (f & w1 & [Hf Ha]%get_ok & Hd). destruct (_ || _) eqn:Hc; [done|]. injection Hd as <- _.
  apply orb_false_iff in Hc as [Hc%negb_false_iff%bool_decide_eq_true Hl%negb_false_iff]. eauto 10.
Qed.
End uploads.

(** C24: Files of applications, with uploads completed in any order and interleaving: a file
    is ready only if its object was seen with exactly the announced size and hash, and
    found clean where there is a scanner, and only if that was recorded before the file
    expired; a completion that succeeds returns such a file of its application; and only
    such files, before they expire, are offered for download or resolved in a channel, to
    the application that owns them. *)
Theorem files_verified `{NetLib} service apps y :
  rtc (upload_step service) (no_files apps) y ->
  let good appID f := rf_AppID f = appID /\ verified service (fy_log y) f /\ file_checks f = true
    /\ rf_Status f = "ready" /\ exists t, rf_CompletedAt f = Some t /\ t < rf_ExpiresAt f in
  (forall id f, fd_files (fy_db y) !! id = Some f -> rf_Status f = "ready" -> good (rf_AppID f) f)
  /\ (forall i u f, fy_calls y !! i = Some u -> ul_state u = Finished (Ok f) -> good (ul_app u) f)
  /\ (forall w now appID id d w', w_db w = fy_db y -> Download service now appID id w = (Ok d, w') ->
        good appID (dn_File d) /\ now < rf_ExpiresAt (dn_File d) /\ safePresignedURL (dn_DownloadURL d) = true)
  /\ (forall w now appID id channel g w', w_db w = fy_db y -> Resolve now appID id channel w = (Ok g, w') ->
        exists f, g = hide_key f /\ good appID f /\ rf_Channel f = channel /\ now < rf_ExpiresAt f).
Proof.
  intros [H1 H2]%files_reachable good.
  assert (forall id f, fd_files (fy_db y) !! id = Some f -> rf_Status f = "ready" -> good (rf_AppID f) f) as Hgood.
  { intros id f Hf Hr. destruct (H1 id f Hf) as (_ & Hc & Hv). destruct (Hv Hr). done. }
  split_and!; [done| | |].
  - intros i u f Hu Hs. specialize (H2 i u Hu). unfold upload_ok in H2. rewrite Hs in H2. destruct H2 as (<- & Hr & Hf). by eapply Hgood.
  - intros w now appID id d w' Hw (Hf & <- & [Hr Ht]%live_ready & Hu)%download_row. rewrite Hw in Hf. split; [by eapply Hgood|done].
  - intros w now appID id channel g w' Hw (f & Hf & <- & Hc & [Hr Ht]%live_ready & ->)%resolve_row. rewrite Hw in Hf. exists f. split; [done|]. split; [by eapply Hgood|done].
Qed.
(** A file stays, and changes at most once, from pending to ready. *)
Theorem files_permanent `{NetLib} service y y' :
  rtc (upload_step service) y y' -> files_grow (fy_db y) (fy_db y').
Proof.
  intros Hr. induction Hr as [y|y z y' Hs _ IH]; [apply files_grow_refl|]. intros id f Hf.
  assert (files_grow (fy_db y) (fy_db z)) as Hg.
  { destruct Hs as [y apps' _|y now i appID input faults locked| | | | | |y i u g at_ Hu Hst]; try apply files_grow_refl.
    - exact (files_grow_refl (fy_db y)).
    - intros j h Hh. exists h. split; [|by left]. by apply (create_adds service now i appID input (mkWorld (fy_db y) faults locked)).
    - destruct (complete_file _ _ _ _) as [[h db]|] eqn:Hc; [|apply files_grow_refl]. apply complete_file_ok in Hc as (f' & Hf' & _ & Hp & Ht & -> & ->).
      intros j k Hk. destruct (decide (j = ul_id u)) as [->|Hne]; [|exists k; split; [cbn; by rewrite lookup_insert_ne|by left]].
      exists (completed at_ f'). split; [cbn; by rewrite lookup_insert_eq|]. assert (k = f') as -> by congruence. right. eauto. }
  destruct (Hg _ _ Hf) as (g & Hg' & Hm). destruct (IH _ _ Hg') as (h & Hh & Hm'). exists h. split; [done|].
  destruct Hm as [->|(Hp & t & Ht & ->)]; [done|]. destruct Hm' as [->|[? _]]; [right; eauto|done].
Qed.

(** [Complete] is one way to take these steps. *)
Section runs.
Context `{NetLib} (service : RealtimeFileService) (app id : string) (i : nat) (calls : gmap nat upload).
Abbreviation at_state db s log := (mkFileSystem db (<[i := mkUploadCall app id s]> calls) log).
Lemma run_step (db db' : FileDB) (s s' : upload_state) (log log' : list answer) :
  upload_step service (at_state db s log) (mkFileSystem db' (set_call i (mkUploadCall app id s) s' (at_state db s log)) log') ->
  upload_step service (at_state db s log) (at_state db' s' log').
Proof. unfold set_call. cbn [fy_calls ul_app ul_id]. by rewrite insert_insert_eq. Qed.
Lemma run_read db log now : upload_step service (at_state db Reading log) (at_state db (after_read now (get_file app id db)) log).
Proof. apply run_step. exact (us_read service (at_state db Reading log) i (mkUploadCall app id Reading) now (lookup_insert_eq _ _ _) eq_refl). Qed.
Lemma run_stat db log f info : upload_step service (at_state db (Statting f) log)
  (at_state db (if complete_stat info f then Scanning f else Finished (Err ErrConflict)) (answered info f ++ log)).
Proof. apply run_step. exact (us_stat service (at_state db (Statting f) log) i (mkUploadCall app id (Statting f)) f info (lookup_insert_eq _ _ _) eq_refl). Qed.
Lemma run_scan db log f : exists log',
  upload_step service (at_state db (Scanning f) log) (at_state db (if complete_scan service f then Storing f else Finished (Err ErrConflict)) log').
Proof.
  eexists. apply run_step. apply (us_scan service (at_state db (Scanning f) log) i (mkUploadCall app id (Scanning f)) f (complete_scan service f) (lookup_insert_eq _ _ _) eq_refl).
  unfold complete_scan. by intros ->.
Qed.
Lemma run_store db log f at_ : upload_step service (at_state db (Storing f) log)
  (match complete_file app id at_ db with
   | Ok (g, db') => at_state db' (Finished (Ok g)) log
   | Err _ => at_state db (Finished (Err ErrConflict)) log
   end).
Proof.
  pose proof (us_store service (at_state db (Storing f) log) i (mkUploadCall app id (Storing f)) f at_ (lookup_insert_eq _ _ _) eq_refl) as Hs. cbn [ul_app ul_id fy_db fy_log] in Hs.
  destruct (complete_file app id at_ db) as [[g db']|]; by apply run_step.
Qed.
Lemma complete_runs objects now at_ db log locked :
  fs_objects service = Some objects -> calls !! i = None ->
  let r := Complete service now at_ app id (mkWorld db [] locked) in
  exists log', rtc (upload_step service) (mkFileSystem db calls log) (at_state (w_db r.2) (Finished r.1) log').
Proof.
  intros Ho Hi r. subst r. unfold Complete, with_objects. rewrite Ho.
  pose proof (us_begin service (mkFileSystem db calls log) i app id Hi) as Hb. pose proof (run_read db log now) as Hr.
  unfold mbind, M_bind, map_store_error, on_error, GetRealtimeFile, query_row, exec. cbn [w_faults w_db w_locked].
  destruct (get_file app id db) as [f|] eqn:Hf; cbn [after_read] in Hr; [|exists log; eapply rtc_l, rtc_once; [exact Hb|exact Hr]].
  destruct (complete_decide now f) as [[]|e] eqn:Hd; [exists log; by eapply rtc_l, rtc_once| |exists log; by eapply rtc_l, rtc_once].
  pose proof (run_stat db log f (os_Stat objects (rf_ObjectKey f))) as Hs. destruct (complete_stat _ f); cbn [negb]; [|eexists; eapply rtc_l, rtc_l, rtc_once; [exact Hb|exact Hr|exact Hs]].
  destruct (run_scan db (answered (os_Stat objects (rf_ObjectKey f)) f ++ log) f) as [log' Hc].
  destruct (complete_scan service f); cbn [negb]; [|eexists; eapply rtc_l, rtc_l, rtc_l, rtc_once; [exact Hb|exact Hr|exact Hs|exact Hc]].
  pose proof (run_store db log' f at_) as Hst. exists log'. eapply rtc_l, rtc_l, rtc_l, rtc_l, rtc_once; [exact Hb|exact Hr|exact Hs|exact Hc|].
  unfold CompleteRealtimeFile, on_error, exec. cbn [w_faults w_db w_locked]. destruct (complete_file app id at_ db) as [[g db']|e] eqn:He; [exact Hst|].
  assert (e = StoreNotFound) as ->. { unfold complete_file in He. rewrite Hf in He. destruct (_ && _); congruence. }
  cbn. unfold GetRealtimeFile, query_row, exec. cbn. rewrite Hf. exact Hst.
Qed.
End runs.

(** A file that was uploaded and completed. *)
Definition example_url : string := "https://hooks.example.com/relay".
Definition example_hash : string := "0123456789abcdef0123456789abcdef0123456789abcdef0123456789abcdef".
Definition example_objects : RealtimeObjectStore :=
  mkObjectStore (fun _ _ _ _ _ => Some (example_url, ∅)) (fun _ _ => Some example_url)
    (fun _ => Some (mkObjectInfo 10 "0123456789ABCDEF0123456789ABCDEF0123456789ABCDEF0123456789ABCDEF")) None.
Definition example_files : RealtimeFileService := NewRealtimeFileService (Some example_objects) 0 0 (Some (fun _ => true)).
Definition example_created : FileDB :=
  w_db (Create example_files 5 "file_1" "app" (mkFileInput "room" " a.txt" "Text/Plain" 10 example_hash) (mkWorld (mkFileDB {["app"]} ∅) [] ∅)).2.
Lemma files_verified_witness :
  exists y f, rtc (upload_step example_files) (no_files {["app"]}) y /\ fd_files (fy_db y) !! "file_1" = Some f
    /\ rf_Name f = "a.txt" /\ verified example_files (fy_log y) f.
Proof.
  destruct (complete_runs example_files "app" "file_1" 0 ∅ example_objects 6 7 example_created [] ∅ eq_refl (lookup_empty 0%nat)) as [log Hrun]. cbv zeta in Hrun.
  set (y := mkFileSystem _ _ log) in Hrun.
  assert (rtc (upload_step example_files) (no_files {["app"]}) y) as Hr.
  { eapply rtc_l; [exact (us_create example_files (no_files {["app"]}) 5 "file_1" "app" (mkFileInput "room" " a.txt" "Text/Plain" 10 example_hash) [] ∅)|exact Hrun]. }
  destruct (fd_files (fy_db y) !! "file_1") as [f|] eqn:Hf; [|vm_compute in Hf; discriminate].
  destruct (files_verified example_files {["app"]} y Hr) as (Hready & _).
  assert (rf_Status f = "ready" /\ rf_Name f = "a.txt") as [Hs Hn] by (vm_compute in Hf; injection Hf as <-; split; reflexivity).
  exists y, f. split; [exact Hr|]. split; [exact Hf|]. split; [exact Hn|]. apply (Hready "file_1" f Hf Hs).
Defined.

(** ** An upload that goes well *)

Lemma valid_input_checks appID retention now id i : valid_input appID i = true -> 0 < retention -> file_checks (new_file retention now id appID i) = true.
Proof.
  unfold valid_input, file_checks, new_file. cbn [rf_SizeBytes rf_SHA256 rf_Status rf_CreatedAt rf_ExpiresAt rf_CompletedAt isSome]. intros Hv Hr.
  bool_to_prop. destruct_and!. split_and!; try done; try lia; [set_solver|by right].
Qed.
Lemma insert_fresh f db : file_checks f = true -> fd_files db !! rf_ID f = None -> (forall id g, fd_files db !! id = Some g -> rf_ObjectKey g <> rf_ObjectKey f) ->
  rf_AppID f ∈ fd_applications db -> insert_file f db = Ok (tt, mkFileDB (fd_applications db) (<[rf_ID f := f]> (fd_files db))).
Proof.
  intros Hc Hn Hk Ha. unfold insert_file. rewrite Hc, Hn. cbn [negb isSome orb].
  destruct (existsb _ _) eqn:He; [|by rewrite bool_decide_true]. apply existsb_exists in He as ([id g] & Hin & Heq%bool_decide_eq_true).
  apply list_elem_of_In, elem_of_map_to_list in Hin. by destruct (Hk id g Hin).
Qed.
(** With a database and an object store that answer, a valid file of an application is
    created, completed once its object has the announced size and hash, and downloaded as
    what was announced, until it expires. *)
Theorem upload_roundtrip `{NetLib} service objects db locked now id appID input url headers durl at_ later :
  let i := normalize_input input in
  let f := new_file (fs_Retention service) now id appID i in
  fs_objects service = Some objects -> valid_input appID i = true -> 0 < fs_Retention service ->
  appID ∈ fd_applications db -> fd_files db !! id = None -> (forall k g, fd_files db !! k = Some g -> rf_ObjectKey g <> rf_ObjectKey f) ->
  os_PresignUpload objects (rf_ObjectKey f) (rf_MIMEType f) (rf_SizeBytes f) (rf_SHA256 f) (fs_URLTTL service) = Some (url, headers) ->
  safePresignedURL url = true -> complete_stat (os_Stat objects (rf_ObjectKey f)) f = true -> complete_scan service f = true ->
  os_PresignDownload objects (rf_ObjectKey f) (fs_URLTTL service) = Some durl -> safePresignedURL durl = true ->
  at_ < now + fs_Retention service -> later < now + fs_Retention service ->
  exists w1 w2, Create service now id appID input (mkWorld db [] locked) = (Ok (mkUpload f url headers), w1)
  /\ Complete service at_ at_ appID id w1 = (Ok (completed at_ f), w2)
  /\ Download service later appID id w2 = (Ok (mkDownload (completed at_ f) durl), w2).
Proof.
  intros i f Ho Hv Hret Happ Hnew Hkey Hup Hurl Hstat Hscan Hdown Hdurl Hat Hlater.
  pose proof (insert_fresh f db (valid_input_checks _ _ now id _ Hv Hret) Hnew Hkey Happ) as Hins.
  set (db1 := mkFileDB (fd_applications db) (<[id := f]> (fd_files db))). set (db2 := mkFileDB (fd_applications db) (<[id := completed at_ f]> (fd_files db1))).
  assert (get_file appID id db1 = Some f) as Hg1 by (apply get_file_some; split; [apply lookup_insert_eq|done]).
  assert (get_file appID id db2 = Some (completed at_ f)) as Hg2 by (apply get_file_some; split; [apply lookup_insert_eq|done]).
  exists (mkWorld db1 [] locked), (mkWorld db2 [] locked). split_and!.
  - unfold Create, with_objects. rewrite Ho. cbv zeta. fold i. rewrite Hv. cbn [negb]. fold f.
    unfold mbind, M_bind, map_store_error, CreateRealtimeFile, on_error, exec. cbn [w_faults w_db w_locked]. rewrite Hins. cbn [w_db]. rewrite Hup, Hurl. done.
  - unfold Complete, with_objects. rewrite Ho. unfold mbind, M_bind, map_store_error, on_error, GetRealtimeFile, query_row, exec. cbn [w_faults w_db w_locked]. rewrite Hg1.
    assert (complete_decide at_ f = Ok false) as ->. { unfold complete_decide. cbn. by destruct (Z.ltb_spec at_ (now + fs_Retention service)); [|lia]. }
    cbv match. rewrite Hstat, Hscan. cbn [negb]. unfold CompleteRealtimeFile, on_error, exec. cbn [w_faults w_db w_locked].
    unfold complete_file. rewrite Hg1. cbn [rf_Status f new_file rf_ExpiresAt]. by destruct (Z.ltb_spec at_ (now + fs_Retention service)); [|lia].
  - unfold Download, with_objects. rewrite Ho. unfold mbind, M_bind, map_store_error, on_error, GetRealtimeFile, query_row, exec. cbn [w_faults w_db w_locked]. rewrite Hg2.
    assert (live later (completed at_ f) = true) as ->. { unfold live. cbn. by destruct (Z.ltb_spec later (now + fs_Retention service)); [|lia]. }
    cbn [negb]. change (rf_ObjectKey (completed at_ f)) with (rf_ObjectKey f). rewrite Hdown, Hdurl. done.
Qed.
