(* ===== verification/RealtimePush.v ===== *)
(** * Push notifications ([service/realtime_push.go], [store/postgres/realtime_push.go])

    The tables of migration 017, the statements of the store, and the service that
    registers devices, binds them to channels and notifies them. What a provider answers
    to a notification is an argument; every notification handed to one is recorded. *)

From Stdlib Require Import Ascii String.
From stdpp Require Import pretty.
From S2P Require Import Prelude GoLib Crypto Json Domain QueueSchema QueueService AppStore AppEffects QueueLifecycle AppClaims.

Module Push.

Record PushDevice := mkPushDevice {
  pd_ID : string;
  pd_AppID : string;
  pd_Provider : string;
  pd_Token : string;
  pd_TokenHash : string;
  pd_CreatedAt : Z;
  pd_UpdatedAt : Z
}.
Record PushNotification := mkNotification { pn_Title : string; pn_Body : string; pn_Data : string }.
Record PushOutcome := mkPushOutcome {
  po_ID : string;
  po_AppID : string;
  po_DeviceID : string;
  po_Channel : string;
  po_Provider : string;
  po_Status : string;
  po_ProviderMessageID : string;
  po_Reason : string;
  po_CreatedAt : Z
}.

(** ** Tables *)

Record DeviceRow := mkDeviceRow {
  dv_app_id : string;
  dv_provider : string;
  dv_token_hash : string;
  dv_encrypted_token : string;
  dv_created_at : Z;
  dv_updated_at : Z
}.
(** A binding is an application, a channel and a device, with its time of creation. *)
Abbreviation binding := (string * string * string)%type.
Record PushDB := mkPushDB {
  pu_applications : gset string;
  pu_devices : gmap string DeviceRow;
  pu_bindings : gmap binding Z;
  pu_outcomes : gmap string PushOutcome
}.
Abbreviation M_push := (M PushDB).
Definition with_devices (t : gmap string DeviceRow) (db : PushDB) : PushDB := mkPushDB (pu_applications db) t (pu_bindings db) (pu_outcomes db).
Definition with_bindings (t : gmap binding Z) (db : PushDB) : PushDB := mkPushDB (pu_applications db) (pu_devices db) t (pu_outcomes db).
Definition with_outcomes (t : gmap string PushOutcome) (db : PushDB) : PushDB := mkPushDB (pu_applications db) (pu_devices db) (pu_bindings db) t.

(** ** The store *)

Definition same_token (d : PushDevice) (kr : string * DeviceRow) : bool :=
  bool_decide (dv_app_id kr.2 = pd_AppID d) && bool_decide (dv_provider kr.2 = pd_Provider d) && bool_decide (dv_token_hash kr.2 = pd_TokenHash d).
(** [INSERT ... ON CONFLICT(app_id,provider,token_hash) DO UPDATE ... RETURNING ...] *)
Definition upsert_device (d : PushDevice) (encrypted : string) (db : PushDB) : res (string * DeviceRow * PushDB) :=
  if negb (bool_decide (pd_Provider d = "apns") || bool_decide (pd_Provider d = "fcm")) then Err DriverError else
  match List.filter (same_token d) (map_to_list (pu_devices db)) with
  | (id, r) :: _ =>
      let r' := mkDeviceRow (dv_app_id r) (dv_provider r) (dv_token_hash r) encrypted (dv_created_at r) (pd_UpdatedAt d) in
      Ok (id, r', with_devices (<[id := r']> (pu_devices db)) db)
  | [] =>
      if isSome (pu_devices db !! pd_ID d) then Err UniqueViolation else
      if negb (bool_decide (pd_AppID d ∈ pu_applications db)) then Err DriverError else
      let r' := mkDeviceRow (pd_AppID d) (pd_Provider d) (pd_TokenHash d) encrypted (pd_CreatedAt d) (pd_UpdatedAt d) in
      Ok (pd_ID d, r', with_devices (<[pd_ID d := r']> (pu_devices db)) db)
  end.
Definition channel_devices (appID channel : string) (db : PushDB) : list (string * DeviceRow) :=
  List.filter (fun kr => bool_decide (dv_app_id kr.2 = appID) && isSome (pu_bindings db !! (appID, channel, kr.1))) (map_to_list (pu_devices db)).
(** Deleting a device deletes its bindings. *)
Definition delete_device (appID id : string) (db : PushDB) : res (unit * PushDB) :=
  match pu_devices db !! id with
  | Some r =>
      if bool_decide (dv_app_id r = appID)
      then Ok (tt, mkPushDB (pu_applications db) (delete id (pu_devices db))
                    (filter (fun kt : binding * Z => ~ (kt.1.1.1 = appID /\ kt.1.2 = id)) (pu_bindings db)) (pu_outcomes db))
      else Err StoreNotFound
  | None => Err StoreNotFound
  end.
(** How many rows were inserted. *)
Definition bind_device (appID channel deviceID : string) (at_ : Z) (db : PushDB) : Z * PushDB :=
  match pu_devices db !! deviceID with
  | Some r =>
      if bool_decide (dv_app_id r = appID) && negb (isSome (pu_bindings db !! (appID, channel, deviceID)))
      then (1, with_bindings (<[(appID, channel, deviceID) := at_]> (pu_bindings db)) db) else (0, db)
  | None => (0, db)
  end.
Definition unbind_device (appID channel deviceID : string) (db : PushDB) : res (unit * PushDB) :=
  if isSome (pu_bindings db !! (appID, channel, deviceID))
  then Ok (tt, with_bindings (delete (appID, channel, deviceID) (pu_bindings db)) db) else Err StoreNotFound.
Definition insert_outcome (o : PushOutcome) (db : PushDB) : res (unit * PushDB) :=
  if negb (bool_decide (po_Status o = "delivered") || bool_decide (po_Status o = "failed")) then Err DriverError else
  if isSome (pu_outcomes db !! po_ID o) then Err UniqueViolation else
  if negb (bool_decide (po_AppID o ∈ pu_applications db)) then Err DriverError
  else Ok (tt, with_outcomes (<[po_ID o := o]> (pu_outcomes db)) db).

Section store.
Context `{AEAD} `{Postgres}.

Definition scan_device (id : string) (r : DeviceRow) : res PushDevice :=
  match Decrypt (dv_encrypted_token r) with
  | Some token => Ok (mkPushDevice id (dv_app_id r) (dv_provider r) token (dv_token_hash r) (dv_created_at r) (dv_updated_at r))
  | None => Err DriverError
  end.
Definition lift {A} (r : res A) : M_push A := fun w => (r, w).
Definition CreatePushDevice (nonce : option string) (d : PushDevice) : M_push PushDevice :=
  match Encrypt (pd_Token d) nonce with
  | Err e => fail e
  | Ok encrypted => '(id, r) ← exec (fun _ => upsert_device d encrypted); lift (scan_device id r)
  end.
Definition DeletePushDevice (appID id : string) : M_push unit := exec (fun _ => delete_device appID id).
Definition BindPushDevice (appID channel deviceID : string) (at_ : Z) : M_push unit :=
  n ← update (bind_device appID channel deviceID at_);
  if n =? 0
  then on_error (exists_ ← query (fun db => isSome (pu_bindings db !! (appID, channel, deviceID)));
                 if exists_ : bool then mret tt else fail StoreNotFound)
         (fun _ => fail StoreNotFound)
  else mret tt.
Definition UnbindPushDevice (appID channel deviceID : string) : M_push unit := exec (fun _ => unbind_device appID channel deviceID).
Definition id_before (a b : string * DeviceRow) : Prop := text_le a.1 b.1.
#[export] Instance id_before_dec a b : Decision (id_before a b).
Proof. unfold id_before. apply _. Defined.
Fixpoint scan_devices (rows : list (string * DeviceRow)) : res (list PushDevice) :=
  match rows with
  | [] => Ok []
  | (id, r) :: rest =>
      match scan_device id r with
      | Ok d => match scan_devices rest with Ok ds => Ok (d :: ds) | Err e => Err e end
      | Err e => Err e
      end
  end.
Definition ListPushDevicesForChannel (appID channel : string) (limit : nat) : M_push (list PushDevice) :=
  rows ← query (fun db => take limit (merge_sort id_before (channel_devices appID channel db)));
  lift (scan_devices rows).
Definition CreatePushOutcome (o : PushOutcome) : M_push unit := exec (fun _ => insert_outcome o).

(** ** The service; its repository is set *)

Definition hide_token (d : PushDevice) : PushDevice := mkPushDevice (pd_ID d) (pd_AppID d) (pd_Provider d) "" "" (pd_CreatedAt d) (pd_UpdatedAt d).
(** ["\x00\r\n"] *)
Definition bad_token_byte (c : ascii) : bool := existsb (fun n => code c =? n) [0; 13; 10].
Definition valid_registration (appID provider token : string) : bool :=
  negb (bool_decide (appID = "") || (negb (bool_decide (provider = "apns")) && negb (bool_decide (provider = "fcm")))
        || (len token <? 16) || (4096 <? len token) || existsb bad_token_byte (bytes token)).
Definition new_device (now : Z) (id appID provider token : string) : PushDevice := mkPushDevice id appID provider token (sha256_hex token) now now.
Definition Register (nonce : option string) (now : Z) (id appID provider token : string) : M_push PushDevice :=
  let provider := ToLower (TrimSpace provider) in
  let token := TrimSpace token in
  if negb (valid_registration appID provider token) then fail ErrInvalidInput else
  map_store_error (d ← CreatePushDevice nonce (new_device now id appID provider token); mret (hide_token d)).
Definition List (appID channel : string) : M_push (list PushDevice) :=
  if bool_decide (appID = "") || negb (Channel.ValidRealtimeChannel channel) then fail ErrInvalidInput
  else map_store_error (ds ← ListPushDevicesForChannel appID channel 100; mret (hide_token <$> ds)).
Definition Delete (appID id : string) : M_push unit := map_store_error (DeletePushDevice appID id).
Definition Bind (now : Z) (appID channel deviceID : string) (bind : bool) : M_push unit :=
  if bool_decide (appID = "") || negb (Channel.ValidRealtimeChannel channel) || bool_decide (deviceID = "") then fail ErrInvalidInput else
  if bind then map_store_error (BindPushDevice appID channel deviceID now) else map_store_error (UnbindPushDevice appID channel deviceID).

Definition jsonObjectOrEmpty (raw : string) : bool :=
  bool_decide (raw = "") || json_Valid raw && (2 <=? len raw) && bool_decide (head (bytes raw) = Some "{"%char) && bool_decide (last (bytes raw) = Some "}"%char).
Definition valid_notification (appID channel : string) (n : PushNotification) : bool :=
  negb (bool_decide (appID = "") || negb (Channel.ValidRealtimeChannel channel) || (100 <? len (pn_Title n)) || (500 <? len (pn_Body n))
        || negb (jsonObjectOrEmpty (pn_Data n)) || (4096 <? len (pn_Data n)) || containsSecretField (pn_Data n)).
(** What a provider answers: the identifier of its message and whether it failed. *)
Definition adapter : Type := PushDevice -> PushNotification -> string * bool.
Definition outcome (adapters : string -> option adapter) (id appID channel : string) (at_ : Z) (n : PushNotification) (d : PushDevice) : PushOutcome :=
  let make := mkPushOutcome id appID (pd_ID d) channel (pd_Provider d) in
  match adapters (pd_Provider d) with
  | None => make "failed" "" "provider_unavailable" at_
  | Some send => let '(providerID, failed) := send d n in
                 if failed : bool then make "failed" providerID "provider_error" at_ else make "delivered" providerID "" at_
  end.
(** The loop of [Publish], with a fresh identifier and a time for every device: the
    outcomes it returns, the error if there is one, and the devices whose notification
    was handed to a provider. *)
Record published := mkPublished { pb_outcomes : list PushOutcome; pb_error : option error; pb_sent : list PushDevice }.
Fixpoint notify_devices (adapters : string -> option adapter) (fresh : nat -> string * Z) (appID channel : string) (n : PushNotification)
    (i : nat) (ds : list PushDevice) (w : World PushDB) : published * World PushDB :=
  match ds with
  | [] => (mkPublished [] None [], w)
  | d :: rest =>
      let o := outcome adapters (fresh i).1 appID channel (fresh i).2 n d in
      let sent := if isSome (adapters (pd_Provider d)) then [d] else [] in
      match CreatePushOutcome o w with
      | (Err e, w') => (mkPublished [] (Some e) sent, w')
      | (Ok _, w') =>
          let '(p, w'') := notify_devices adapters fresh appID channel n (S i) rest w' in
          (mkPublished (o :: pb_outcomes p) (pb_error p) (sent ++ pb_sent p), w'')
      end
  end.
Definition Publish (adapters : string -> option adapter) (fresh : nat -> string * Z) (appID channel : string) (n : PushNotification)
    (w : World PushDB) : published * World PushDB :=
  if negb (valid_notification appID channel n) then (mkPublished [] (Some ErrInvalidInput) [], w) else
  match map_store_error (ListPushDevicesForChannel appID channel 100) w with
  | (Err e, w') => (mkPublished [] (Some e) [], w')
  | (Ok ds, w') => notify_devices adapters fresh appID channel n 0 ds w'
  end.
End store.
End Push.
Import Push.

(** ** What holds of the tables *)

Section claims.
Context {aead : AEAD} {laws : AEADLaws} {postgres : Postgres}.

(** A device has a token that opens and has its hash; no two devices share one; a binding
    has its device. *)
Definition device_ok (db : PushDB) (r : DeviceRow) : Prop :=
  dv_app_id r ∈ pu_applications db /\ exists token, Decrypt (dv_encrypted_token r) = Some token /\ dv_token_hash r = sha256_hex token.
Definition token_key (r : DeviceRow) : string * string * string := (dv_app_id r, dv_provider r, dv_token_hash r).
Definition push_inv (db : PushDB) : Prop :=
  (forall id r, pu_devices db !! id = Some r -> device_ok db r)
  /\ (forall i j r s, pu_devices db !! i = Some r -> pu_devices db !! j = Some s -> token_key r = token_key s -> i = j)
  /\ (forall app channel id t, pu_bindings db !! (app, channel, id) = Some t -> exists r, pu_devices db !! id = Some r /\ dv_app_id r = app).

Lemma same_token_key d id r : same_token d (id, r) = true <-> token_key r = (pd_AppID d, pd_Provider d, pd_TokenHash d).
Proof. unfold same_token, token_key. cbn. rewrite !andb_true_iff, !bool_decide_eq_true. split; [intros [[-> ->] ->]; done|by intros [= -> -> ->]]. Qed.
(** What the statement that registers a device does: it finds the device of the token, or
    makes one. *)
Lemma upsert_spec d encrypted db id r db' :
  upsert_device d encrypted db = Ok (id, r, db') ->
  token_key r = (pd_AppID d, pd_Provider d, pd_TokenHash d) /\ dv_encrypted_token r = encrypted
  /\ db' = with_devices (<[id := r]> (pu_devices db)) db
  /\ ((exists s, pu_devices db !! id = Some s /\ token_key s = token_key r /\ dv_created_at r = dv_created_at s)
      \/ id = pd_ID d /\ pu_devices db !! id = None /\ pd_AppID d ∈ pu_applications db
         /\ forall j s, pu_devices db !! j = Some s -> token_key s <> (pd_AppID d, pd_Provider d, pd_TokenHash d)).
Proof.
  unfold upsert_device. destruct (negb _); [done|]. destruct (List.filter _ _) as [|[i s] rest] eqn:Hf.
  - destruct (pu_devices db !! pd_ID d) eqn:Hn; [done|]. cbn [isSome]. destruct (bool_decide (pd_AppID d ∈ _)) eqn:Ha; [|done]. apply bool_decide_eq_true in Ha.
    intros [= <- <- <-]. split_and!; [done|done|done|]. right. split_and!; [done|done|done|]. intros j s Hj Hk.
    assert ((j, s) ∈ List.filter (same_token d) (map_to_list (pu_devices db))) as Hin; [|rewrite Hf in Hin; by apply not_elem_of_nil in Hin].
    apply list_elem_of_In, filter_In. split; [by apply list_elem_of_In, elem_of_map_to_list|by apply same_token_key].
  - assert (In (i, s) (List.filter (same_token d) (map_to_list (pu_devices db)))) as Hin by (rewrite Hf; by left).
    apply filter_In in Hin as [Hin%list_elem_of_In%elem_of_map_to_list Hk%same_token_key]. intros [= <- <- <-].
    split_and!; [exact Hk|done|done|]. left. by exists s.
Qed.
Lemma upsert_inv d encrypted token db id r db' :
  push_inv db -> Decrypt encrypted = Some token -> pd_TokenHash d = sha256_hex token -> upsert_device d encrypted db = Ok (id, r, db') -> push_inv db'.
Proof.
  intros (H1 & H2 & H3) Hd Hh (Hk & He & -> & Hcase)%upsert_spec. unfold token_key in Hk. injection Hk as Ka Kp Kh.
  assert (dv_app_id r ∈ pu_applications db) as Happ. { destruct Hcase as [(s & Hs & Hkey & _)|(_ & _ & Ha & _)]; [|by rewrite Ka]. injection Hkey as <- _ _. by apply (H1 id s). }
  assert (forall j s, pu_devices db !! j = Some s -> j <> id -> token_key s <> token_key r) as Hother.
  { intros j s Hj Hne Heq. destruct Hcase as [(s' & Hs & Hkey & _)|(_ & _ & _ & Hno)]; [|apply (Hno j s Hj); unfold token_key in *; congruence].
    apply Hne. apply (H2 j id s s' Hj Hs). congruence. }
  split_and!; cbn [pu_devices pu_bindings with_devices].
  - intros i s [[<- <-]|[_ Hs]]%lookup_insert_Some; [|by apply (H1 i s)]. split; [done|]. exists token. split; congruence.
  - intros i j s t [[<- <-]|[Hi Hs]]%lookup_insert_Some [[<- <-]|[Hj Ht]]%lookup_insert_Some Heq; [done| | |by eapply H2].
    + by destruct (Hother j t Ht (not_eq_sym Hj)).
    + by destruct (Hother i s Hs (not_eq_sym Hi)).
  - intros app channel i t Hb. destruct (H3 _ _ _ _ Hb) as (s & Hs & Ha). destruct (decide (i = id)) as [->|Hne]; [|exists s; by rewrite lookup_insert_ne].
    exists r. rewrite lookup_insert_eq. split; [done|]. destruct Hcase as [(s' & Hs' & Hkey & _)|(_ & Hn & _)]; [|congruence]. injection Hkey as <- _ _. congruence.
Qed.
Lemma delete_inv app id db u db' : push_inv db -> delete_device app id db = Ok (u, db') -> push_inv db'.
Proof.
  intros (H1 & H2 & H3). unfold delete_device. destruct (pu_devices db !! id) as [r|] eqn:Hr; [|done]. case_bool_decide as Ha; [|done]. intros [= _ <-].
  split_and!; cbn [pu_devices pu_bindings].
  - intros i s [_ Hs]%lookup_delete_Some. by apply (H1 i s).
  - intros i j s t [_ Hs]%lookup_delete_Some [_ Ht]%lookup_delete_Some. by eapply H2.
  - intros a c i t [Hb Hne]%map_lookup_filter_Some. cbn in Hne. destruct (H3 _ _ _ _ Hb) as (s & Hs & Has). exists s. rewrite lookup_delete_ne; [done|]. intros ->.
    apply Hne. split; [congruence|done].
Qed.
Lemma bind_inv app channel id at_ db : push_inv db -> push_inv (bind_device app channel id at_ db).2.
Proof.
  intros (H1 & H2 & H3). unfold bind_device. destruct (pu_devices db !! id) as [r|] eqn:Hr; [|done]. case_bool_decide as Ha; [|done].
  destruct (isSome _); [done|]. cbn. split_and!; [done|done|]. intros a c i t. cbn.
  intros [[[= <- <- <-] _]|[_ Hb]]%lookup_insert_Some; [by exists r|by eapply H3].
Qed.
Lemma unbind_inv app channel id db u db' : push_inv db -> unbind_device app channel id db = Ok (u, db') -> push_inv db'.
Proof.
  intros (H1 & H2 & H3). unfold unbind_device. destruct (isSome _); [|done]. intros [= _ <-]. split_and!; [done|done|].
  intros a c i t. cbn. intros [_ Hb]%lookup_delete_Some. by eapply H3.
Qed.
Lemma outcome_inv o db u db' : push_inv db -> insert_outcome o db = Ok (u, db') -> push_inv db'.
Proof. intros Hi. unfold insert_outcome. destruct (negb _); [done|]. destruct (isSome _); [done|]. destruct (negb _); [done|]. intros [= _ <-]. exact Hi. Qed.

(** ** Operations in any order *)

Definition inv_kept (db db' : PushDB) : Prop := push_inv db -> push_inv db'.
#[local] Instance inv_kept_preorder : PreOrder inv_kept.
Proof. unfold inv_kept. split; [by intros ? ?|intros ? ? ? ? ?; auto]. Qed.
Inductive push_step : PushDB -> PushDB -> Prop :=
| ps_applications db apps : pu_applications db ⊆ apps -> push_step db (mkPushDB apps (pu_devices db) (pu_bindings db) (pu_outcomes db))
| ps_register w nonce now id app provider token : (forall n, nonce = Some n -> len n = NonceSize) ->
    push_step (w_db w) (w_db (Register nonce now id app provider token w).2)
| ps_delete w app id : push_step (w_db w) (w_db (Delete app id w).2)
| ps_bind w now app channel id bind : push_step (w_db w) (w_db (Bind now app channel id bind w).2)
| ps_publish w adapters fresh app channel n : push_step (w_db w) (w_db (Publish adapters fresh app channel n w).2).

Lemma register_keeps nonce now id app provider token : (forall n, nonce = Some n -> len n = NonceSize) -> keeps inv_kept (Register nonce now id app provider token).
Proof.
  intros Hn. unfold Register, CreatePushDevice, map_store_error. cbv zeta. destruct (negb _); [apply (keeps_fail inv_kept)|].
  destruct (Encrypt _ nonce) as [encrypted|e] eqn:He; keeps_solve; [|intros w Hi; exact Hi].
  destruct nonce as [n|]; [|done]. apply (decrypt_encrypt _ n) in He; [|by apply Hn]. cbn [pd_Token new_device] in He.
  apply (keeps_exec inv_kept). intros _ d [i r] d' Hu Hi. exact (upsert_inv (new_device now id app (ToLower (TrimSpace provider)) (TrimSpace token)) _ _ _ _ _ _ Hi He eq_refl Hu).
Qed.
Lemma delete_keeps app id : keeps inv_kept (Delete app id).
Proof. unfold Delete, DeletePushDevice, map_store_error. keeps_solve. apply (keeps_exec inv_kept). intros _ d u d' Hd Hi. by eapply delete_inv. Qed.
Lemma bind_keeps now app channel id bind : keeps inv_kept (Bind now app channel id bind).
Proof.
  unfold Bind, BindPushDevice, UnbindPushDevice, map_store_error. keeps_solve.
  - apply (keeps_update inv_kept). intros d Hi. by apply bind_inv.
  - apply (keeps_exec inv_kept). intros _ d u d' Hd Hi. by eapply unbind_inv.
Qed.
Lemma list_keeps app channel limit : keeps inv_kept (ListPushDevicesForChannel app channel limit).
Proof. unfold ListPushDevicesForChannel. keeps_solve. intros w Hi. exact Hi. Qed.
Lemma outcome_keeps o : keeps inv_kept (CreatePushOutcome o).
Proof. apply (keeps_exec inv_kept). intros _ d u d' Hd Hi. by eapply outcome_inv. Qed.
Lemma notify_keeps adapters fresh app channel n ds : forall i w, push_inv (w_db w) -> push_inv (w_db (notify_devices adapters fresh app channel n i ds w).2).
Proof.
  induction ds as [|d ds IH]; intros i w Hi; [done|]. cbn [notify_devices].
  pose proof (outcome_keeps (outcome adapters (fresh i).1 app channel (fresh i).2 n d) w Hi) as Ho.
  destruct (CreatePushOutcome _ w) as [[[]|e] w']; cbn in Ho; [|done]. specialize (IH (S i) w' Ho). by destruct (notify_devices _ _ _ _ _ _ _ _) as [p w''].
Qed.
Lemma push_publish_keeps adapters fresh app channel n w : push_inv (w_db w) -> push_inv (w_db (Publish adapters fresh app channel n w).2).
Proof.
  intros Hi. unfold Publish. destruct (negb _); [done|]. unfold map_store_error, on_error.
  pose proof (list_keeps app channel 100 w Hi) as Hl. destruct (ListPushDevicesForChannel app channel 100 w) as [[ds|e] w']; [by apply notify_keeps|done].
Qed.
Lemma push_step_inv db db' : push_step db db' -> push_inv db -> push_inv db'.
Proof.
  intros Hs Hi. destruct Hs as [db apps Ha|w nonce now id app provider token Hn|w app id|w now app channel id bind|w adapters fresh app channel n].
  - destruct Hi as (H1 & H2 & H3). split_and!; [|done|done]. intros id r Hr. destruct (H1 id r Hr) as [Hin Ht]. split; [cbn; set_solver|done].
  - by apply register_keeps.
  - by apply delete_keeps.
  - by apply bind_keeps.
  - by apply push_publish_keeps.
Qed.
Definition no_push (apps : gset string) : PushDB := mkPushDB apps ∅ ∅ ∅.
Lemma push_reachable apps db : rtc push_step (no_push apps) db -> push_inv db.
Proof.
  assert (push_inv (no_push apps)) as Hinit. { split_and!; cbn; intros *; rewrite lookup_empty; done. }
  revert Hinit. generalize (no_push apps). intros d Hd Hr. revert Hd. induction Hr as [|x y z Hs _ IH]; [done|]. intros Hx. by apply IH, (push_step_inv x).
Qed.

(** ** What a notification does *)

Lemma scan_devices_ids rows ds : scan_devices rows = Ok ds -> Forall2 (fun kr d => scan_device kr.1 kr.2 = Ok d) rows ds.
Proof.
  revert ds. induction rows as [|[id r] rows IH]; intros ds; cbn [scan_devices]; [intros [= <-]; constructor|].
  destruct (scan_device id r) as [d|] eqn:Hd; [|done]. destruct (scan_devices rows) as [ds'|]; [|done]. intros [= <-]. constructor; [done|by apply IH].
Qed.
Lemma scan_device_id id r d : scan_device id r = Ok d -> pd_ID d = id /\ pd_AppID d = dv_app_id r /\ pd_TokenHash d = dv_token_hash r /\ Decrypt (dv_encrypted_token r) = Some (pd_Token d).
Proof. unfold scan_device. destruct (Decrypt _); [|done]. by intros [= <-]. Qed.
(** The identifiers of the devices that are notified: of those bound to the channel, the
    first hundred. *)
Definition recipients (app channel : string) (db : PushDB) : list string := (take 100 (merge_sort id_before (channel_devices app channel db))).*1.
(** The device is one the application bound to the channel, with its own token. *)
Definition bound_device (db : PushDB) (app channel : string) (d : PushDevice) : Prop :=
  exists r, pu_devices db !! pd_ID d = Some r /\ dv_app_id r = app /\ pd_AppID d = app /\ is_Some (pu_bindings db !! (app, channel, pd_ID d))
    /\ sha256_hex (pd_Token d) = dv_token_hash r.
Lemma recipients_bound db app channel ds : push_inv db ->
  scan_devices (take 100 (merge_sort id_before (channel_devices app channel db))) = Ok ds ->
  (pd_ID <$> ds) = recipients app channel db /\ Forall (bound_device db app channel) ds.
Proof.
  intros (H1 & _) Hs%scan_devices_ids. unfold recipients.
  assert (forall kr, kr ∈ take 100 (merge_sort id_before (channel_devices app channel db)) ->
    pu_devices db !! kr.1 = Some kr.2 /\ dv_app_id kr.2 = app /\ is_Some (pu_bindings db !! (app, channel, kr.1))) as Hrows.
  { intros kr Hin. apply elem_of_take in Hin as (k & Hk & _). apply list_elem_of_lookup_2 in Hk. rewrite merge_sort_Permutation in Hk.
    apply list_elem_of_In, filter_In in Hk as [Hm%list_elem_of_In Hc]. destruct kr as [id r]. apply elem_of_map_to_list in Hm. cbn in *.
    apply andb_true_iff in Hc as [Ha%bool_decide_eq_true Hb]. split_and!; [done|done|]. by destruct (pu_bindings db !! _). }
  revert Hrows. induction Hs as [|[id r] d rows ds' Hd _ IH]; intros Hrows; [done|]. destruct IH as [Hids IH]; [intros kr Hkr; apply Hrows; by right|].
  apply scan_device_id in Hd as (Hid & Ha & Hh & Ht). cbn in Hid, Ha, Hh, Ht. split; [rewrite !fmap_cons; f_equal; [exact Hid|exact Hids]|]. constructor; [|done].
  destruct (Hrows (id, r) ltac:(by left)) as (Hr & Hra & Hb). cbn [fst snd] in Hr, Hra, Hb. destruct (H1 id r Hr) as (_ & token & Hdec & Hhash). exists r. rewrite Hid. split_and!; try done; congruence.
Qed.

Section notify.
Context (adapters : string -> option adapter) (fresh : nat -> string * Z) (app channel : string) (n : PushNotification).

Fixpoint outcomes_from (i : nat) (ds : list PushDevice) : list PushOutcome :=
  match ds with
  | [] => []
  | d :: rest => outcome adapters (fresh i).1 app channel (fresh i).2 n d :: outcomes_from (S i) rest
  end.
Definition reachable_by (ds : list PushDevice) : list PushDevice := List.filter (fun d => isSome (adapters (pd_Provider d))) ds.
Lemma outcome_id id at_ d : po_ID (outcome adapters id app channel at_ n d) = id /\ po_DeviceID (outcome adapters id app channel at_ n d) = pd_ID d
  /\ po_AppID (outcome adapters id app channel at_ n d) = app
  /\ (po_Status (outcome adapters id app channel at_ n d) = "delivered" \/ po_Status (outcome adapters id app channel at_ n d) = "failed").
Proof. unfold outcome. destruct (adapters _) as [send|]; [|cbn; auto]. destruct (send d n) as [m []]; cbn; auto. Qed.
Lemma outcomes_from_ids ds : forall i, po_DeviceID <$> outcomes_from i ds = pd_ID <$> ds.
Proof. induction ds as [|d ds IH]; intros i; [done|]. cbn. f_equal; [apply outcome_id|apply IH]. Qed.
Lemma create_outcome_ok o w u w' : CreatePushOutcome o w = (Ok u, w') -> w_db w' = with_outcomes (<[po_ID o := o]> (pu_outcomes (w_db w))) (w_db w) /\ pu_outcomes (w_db w) !! po_ID o = None.
Proof.
  unfold CreatePushOutcome. rewrite exec_ok. unfold insert_outcome. intros [Hi _]. destruct (negb _); [done|]. destruct (pu_outcomes _ !! _) eqn:Ho; [done|]. cbn [isSome] in Hi.
  destruct (negb _); [done|]. by injection Hi as _ <-.
Qed.
(** The loop as a whole, whatever fails. *)
Lemma notify_spec ds : forall i w p w', notify_devices adapters fresh app channel n i ds w = (p, w') ->
  exists k, (k <= length ds)%nat /\ pb_outcomes p = take k (outcomes_from i ds)
  /\ (forall o, o ∈ pb_outcomes p -> pu_outcomes (w_db w') !! po_ID o = Some o)
  /\ (forall id o, pu_outcomes (w_db w) !! id = Some o -> pu_outcomes (w_db w') !! id = Some o)
  /\ (pb_error p = None -> k = length ds /\ pb_sent p = reachable_by ds)
  /\ exists m, (m <= S k)%nat /\ pb_sent p = reachable_by (take m ds).
Proof.
  induction ds as [|d ds IH]; intros i w p w'; cbn [notify_devices]; [intros [= <- <-]; exists 0%nat; split_and!; try done; [by intros o ?%not_elem_of_nil|by exists 0%nat; split; [lia|]]|].
  assert (forall m, reachable_by (d :: take m ds) = ((if isSome (adapters (pd_Provider d)) then [d] else []) ++ reachable_by (take m ds))%list) as Hcons.
  { intros m. unfold reachable_by. cbn. by destruct (isSome _). }
  destruct (CreatePushOutcome _ w) as [[[]|e] w1] eqn:Hc.
  - apply create_outcome_ok in Hc as [Hw1 Hnew]. destruct (notify_devices _ _ _ _ _ _ _ _) as [q w2] eqn:Hq. intros [= <- <-]. cbn [pb_outcomes pb_error pb_sent].
    destruct (IH (S i) w1 q w2 Hq) as (k & Hk & Ho & Hst & Hold & Hnone & m & Hm & Hsent). exists (S k). rewrite Hw1 in Hold. cbn [pu_outcomes with_outcomes] in Hold.
    split_and!; [cbn; lia|by rewrite Ho| | | |].
    + intros o [->|Hin]%elem_of_cons; [|by apply Hst]. apply Hold. by rewrite lookup_insert_eq.
    + intros id o Hid. apply Hold. rewrite lookup_insert_ne; [done|congruence].
    + intros He. destruct (Hnone He) as [-> ->]. split; [done|]. unfold reachable_by. cbn. by destruct (isSome _).
    + exists (S m). split; [lia|]. cbn [take]. by rewrite Hcons, Hsent.
  - intros [= <- <-]. exists 0%nat. cbn [pb_outcomes pb_error pb_sent]. split_and!; [lia|done|by intros o ?%not_elem_of_nil| |done|exists 1%nat; split; [lia|]].
    + intros id o. unfold CreatePushOutcome in Hc. apply exec_err in Hc. by rewrite Hc.
    + change (take 1 (d :: ds)) with (d :: take 0 ds). rewrite Hcons. by destruct (isSome _).
Qed.
(** It succeeds if the database answers and the identifiers are new. *)
Lemma notify_succeeds ds : forall i db locked, app ∈ pu_applications db -> (forall j, (i <= j)%nat -> pu_outcomes db !! (fresh j).1 = None) ->
  (forall j k, (fresh j).1 = (fresh k).1 -> j = k) -> pb_error (notify_devices adapters fresh app channel n i ds (mkWorld db [] locked)).1 = None.
Proof.
  induction ds as [|d ds IH]; intros i db locked Ha Hf Hd; [done|]. cbn [notify_devices].
  destruct (outcome_id (fresh i).1 (fresh i).2 d) as (Hid & _ & Happ & Hstatus). set (o := outcome _ _ _ _ _ _ _) in *.
  assert (insert_outcome o db = Ok (tt, with_outcomes (<[po_ID o := o]> (pu_outcomes db)) db)) as Hi.
  { unfold insert_outcome. rewrite Hid, (Hf i), Happ by lia. rewrite (bool_decide_true (app ∈ _)) by done. cbn [isSome negb].
    by destruct Hstatus as [->| ->]. }
  unfold CreatePushOutcome, exec. cbn [w_faults w_db w_locked]. rewrite Hi.
  specialize (IH (S i) (with_outcomes (<[po_ID o := o]> (pu_outcomes db)) db) locked).
  destruct (notify_devices _ _ _ _ _ _ _ _) as [q w2]. cbn in *. apply IH; [done| |done].
  intros j Hj. rewrite lookup_insert_ne; [apply Hf; lia|]. rewrite Hid. intros Heq%Hd. lia.
Qed.
End notify.

Lemma list_run app channel w ds w' : map_store_error (ListPushDevicesForChannel app channel 100) w = (Ok ds, w') ->
  scan_devices (take 100 (merge_sort id_before (channel_devices app channel (w_db w)))) = Ok ds /\ w_db w' = w_db w.
Proof.
  rewrite map_store_ok. intros Hl. unfold ListPushDevicesForChannel in Hl. apply bind_ok in Hl as (rows & w2 & (-> & Hdb & _)%query_ok & Hr). unfold lift in Hr. injection Hr as Hr Hw. subst. done.
Qed.
Lemma list_succeeds app channel db locked : push_inv db -> exists ds, map_store_error (ListPushDevicesForChannel app channel 100) (mkWorld db [] locked) = (Ok ds, mkWorld db [] locked).
Proof.
  intros (H1 & _). unfold map_store_error, on_error, ListPushDevicesForChannel, mbind, M_bind, query, exec, lift. cbn [w_faults w_db w_locked].
  assert (forall rows, (forall kr, kr ∈ rows -> pu_devices db !! kr.1 = Some kr.2) -> exists ds, scan_devices rows = Ok ds) as Hscan.
  { induction rows as [|[id r] rows IH]; intros Hr; [by eexists|]. destruct IH as [ds Hds]; [intros kr Hkr; apply Hr; by right|].
    destruct (H1 id r) as (_ & token & Ht & _); [apply (Hr (id, r)); by left|]. cbn. unfold scan_device. rewrite Ht, Hds. by eexists. }
  destruct (Hscan (take 100 (merge_sort id_before (channel_devices app channel db)))) as [ds Hds].
  { intros [id r] Hin. apply elem_of_take in Hin as (k & Hk & _). apply list_elem_of_lookup_2 in Hk. rewrite merge_sort_Permutation in Hk.
    apply list_elem_of_In, filter_In in Hk as [Hm%list_elem_of_In _]. by apply elem_of_map_to_list in Hm. }
  rewrite Hds. by eexists.
Qed.
End claims.

(** ** Registering and deleting *)

Section devices.
Context {aead : AEAD} {laws : AEADLaws} {postgres : Postgres}.

Lemma register_run nonce now id app provider token w d w' :
  Register nonce now id app provider token w = (Ok d, w') ->
  exists r encrypted, upsert_device (new_device now id app (ToLower (TrimSpace provider)) (TrimSpace token)) encrypted (w_db w) = Ok (pd_ID d, r, w_db w')
    /\ pd_CreatedAt d = dv_created_at r.
Proof.
  unfold Register. cbv zeta. destruct (negb _); [done|]. rewrite map_store_ok, bind_ok. intros (d0 & w2 & Hb & [<- <-]%ret_ok). unfold CreatePushDevice in Hb.
  destruct (Encrypt _ nonce) as [encrypted|]; [|done]. apply bind_ok in Hb as ([i r] & w3 & [Hu _]%exec_ok & Hs). unfold lift in Hs. injection Hs as Hs <-. exists r, encrypted.
  unfold scan_device in Hs. destruct (Decrypt _); [|done]. injection Hs as <-. done.
Qed.
(** A token that is registered again is the same device, whatever name it is given. *)
Theorem register_once apps nonce now id nonce' now' id' app provider token w d w' w2 d2 w2' :
  Register nonce now id app provider token w = (Ok d, w') -> rtc push_step (no_push apps) (w_db w') -> w_db w2 = w_db w' ->
  Register nonce' now' id' app provider token w2 = (Ok d2, w2') ->
  pd_ID d2 = pd_ID d /\ pd_CreatedAt d2 = pd_CreatedAt d /\ dom (pu_devices (w_db w2')) = dom (pu_devices (w_db w')).
Proof.
  intros (r & e & (Hk & _ & Hdb & _)%upsert_spec & Hc)%register_run (_ & Huniq & _)%push_reachable Hw (r2 & e2 & (Hk2 & _ & Hdb2 & Hcase)%upsert_spec & Hc2)%register_run.
  rewrite Hw in Hdb2, Hcase. assert (pu_devices (w_db w') !! pd_ID d = Some r) as Hr by (rewrite Hdb; apply lookup_insert_eq).
  destruct Hcase as [(s & Hs & Hkey & Hcr)|(_ & _ & _ & Hno)]; [|destruct (Hno (pd_ID d) r Hr Hk)].
  assert (pd_ID d2 = pd_ID d) as Hid. { apply (Huniq _ _ s r Hs Hr). rewrite Hkey, Hk2. by rewrite Hk. }
  rewrite Hid in Hs. assert (s = r) as -> by congruence. split_and!; [done|congruence|]. rewrite Hdb2. cbn [pu_devices with_devices]. rewrite dom_insert_L, Hid.
  apply subseteq_union_1_L, singleton_subseteq_l, elem_of_dom. by eexists.
Qed.
(** A deleted device is notified no more. *)
Theorem delete_silences app id w w' app' channel :
  Delete app id w = (Ok tt, w') -> id ∉ recipients app' channel (w_db w').
Proof.
  unfold Delete, DeletePushDevice. rewrite map_store_ok, exec_ok. intros [Hd _]. unfold delete_device in Hd. destruct (pu_devices (w_db w) !! id) as [r|]; [|done]. case_bool_decide; [|done]. injection Hd as Hd.
  unfold recipients. intros ([i r'] & -> & Hin)%list_elem_of_fmap. apply elem_of_take in Hin as (k & Hk & _). apply list_elem_of_lookup_2 in Hk. rewrite merge_sort_Permutation in Hk.
  apply list_elem_of_In, filter_In in Hk as [Hm%list_elem_of_In%elem_of_map_to_list _]. rewrite <- Hd in Hm. cbn in Hm. by rewrite lookup_delete_eq in Hm.
Qed.
End devices.

(** C25: A notification reaches only devices that its application has bound to the channel,
    each with the token it was registered with, whatever fails; every outcome that is
    returned is recorded, and at most one notification goes out without one; without an
    error the outcomes are those of the bound devices, the first hundred in order of
    identifier, each once; and with a database that answers and new identifiers a valid
    notification has no error. *)
Theorem push_exact {aead : AEAD} {laws : AEADLaws} {postgres : Postgres} adapters fresh apps app channel n w p w' :
  rtc push_step (no_push apps) (w_db w) -> Publish adapters fresh app channel n w = (p, w') ->
  (forall d, d ∈ pb_sent p -> bound_device (w_db w) app channel d)
  /\ (forall o, o ∈ pb_outcomes p -> pu_outcomes (w_db w') !! po_ID o = Some o)
  /\ (length (pb_sent p) <= S (length (pb_outcomes p)))%nat
  /\ (pb_error p = None -> po_DeviceID <$> pb_outcomes p = recipients app channel (w_db w))
  /\ (valid_notification app channel n = true -> w_faults w = [] -> app ∈ pu_applications (w_db w) ->
      (forall j, pu_outcomes (w_db w) !! (fresh j).1 = None) -> (forall j k, (fresh j).1 = (fresh k).1 -> j = k) -> pb_error p = None).
Proof.
  intros Hinv%push_reachable. unfold Publish. destruct (valid_notification app channel n) eqn:Hv; cbn [negb].
  2:{ intros [= <- <-]. cbn. split_and!; [by intros ? ?%not_elem_of_nil|by intros ? ?%not_elem_of_nil|lia|done|done]. }
  destruct (map_store_error _ w) as [[ds|e] w1] eqn:Hl.
  2:{ intros [= <- <-]. cbn. split_and!; [by intros ? ?%not_elem_of_nil|by intros ? ?%not_elem_of_nil|lia|done|].
      intros _ Hfl _ _ _. destruct w as [db fs lk]. cbn in Hfl. subst fs. destruct (list_succeeds app channel db lk Hinv) as [ds Hds]. congruence. }
  intros Hn. pose proof (list_run _ _ _ _ _ Hl) as [Hscan Hdb]. destruct (recipients_bound _ _ _ _ Hinv Hscan) as [Hids Hbound].
  destruct (notify_spec _ _ _ _ _ _ _ _ _ _ Hn) as (k & Hk & Ho & Hst & _ & Hnone & m & Hm & Hsent).
  assert (length (outcomes_from adapters fresh app channel n 0 ds) = length ds) as Hlen.
  { pose proof (f_equal length (outcomes_from_ids adapters fresh app channel n ds 0)) as Hl'. by rewrite !length_fmap in Hl'. }
  split_and!; [|done| | |].
  - intros d. rewrite Hsent. unfold reachable_by. intros [Hin%list_elem_of_In _]%list_elem_of_In%filter_In.
    apply elem_of_take in Hin as (j & Hj & _). apply list_elem_of_lookup_2 in Hj. by eapply Forall_forall in Hbound.
  - rewrite Hsent, Ho. unfold reachable_by. rewrite length_take, Hlen. etransitivity; [apply filter_length_le|]. rewrite length_take. lia.
  - intros [-> _]%Hnone. rewrite Ho, take_ge by lia. by rewrite outcomes_from_ids.
  - intros _ Hfl Happ Hfree Hd. destruct w as [db fs lk]. cbn in Hfl, Happ, Hfree. subst fs. destruct (list_succeeds app channel db lk Hinv) as [ds' Hds]. rewrite Hds in Hl. injection Hl as -> <-.
    pose proof (notify_succeeds adapters fresh app channel n ds 0 db lk Happ (fun j _ => Hfree j) Hd) as Hok. by rewrite Hn in Hok.
Qed.

(** A device bound to a channel, and a notification that reaches it. *)
Definition example_push : PushDB :=
  w_db (Bind 2 "app" "room" "device_1" true
    (Register (Some "nonce-twelve") 1 "device_1" "app" "APNS " "0123456789abcdef" (mkWorld (no_push {["app"]}) [] ∅)).2).2.
Definition example_adapters (provider : string) : option adapter := if bool_decide (provider = "apns") then Some (fun _ _ => ("m1", false)) else None.
Definition example_fresh (j : nat) : string * Z := ("push_" +:+ pretty j, 3).
Lemma push_exact_witness :
  po_DeviceID <$> pb_outcomes (Publish example_adapters example_fresh "app" "room" (mkNotification "t" "b" "{}") (mkWorld example_push [] ∅)).1 = ["device_1"]
  /\ recipients "app" "room" example_push = ["device_1"].
Proof.
  assert (rtc push_step (no_push {["app"]}) example_push) as Hr.
  { eapply rtc_l; [apply (ps_register (mkWorld (no_push {["app"]}) [] ∅) (Some "nonce-twelve") 1 "device_1" "app" "APNS " "0123456789abcdef"); by intros n [= <-]|].
    apply rtc_once. apply ps_bind. }
  assert (recipients "app" "room" example_push = ["device_1"]) as Hrec by (vm_compute; reflexivity).
  destruct (Publish example_adapters example_fresh "app" "room" (mkNotification "t" "b" "{}") (mkWorld example_push [] ∅)) as [p w'] eqn:Hp.
  destruct (push_exact _ _ {["app"]} _ _ _ (mkWorld example_push [] ∅) p w' Hr Hp) as (_ & _ & _ & Hids & Hok). split; [|exact Hrec].
  cbn [fst]. rewrite Hids; [exact Hrec|]. apply Hok; [vm_compute; reflexivity|reflexivity| | |].
  - apply (bool_decide_unpack _). vm_compute. exact I.
  - intros j. vm_compute. reflexivity.
  - intros j k. unfold example_fresh. cbn [fst]. intros Heq. apply (inj (String.append "push_")) in Heq. by apply (inj pretty) in Heq.
Defined.
