(* ===== verification/RealtimeBridge.v ===== *)
(** * The bridge between gateways ([realtime/nats_bridge.go], [realtime/control.go])

    What gateways tell each other over NATS: observations that a hub delivers to its
    sessions, commands to close a connection, and requests to run a function with the
    answer that one was accepted. A message is its subject and what its JSON decodes to,
    [None] when it does not. The waiting call [PublishInvocation] is a state machine
    whose steps are its critical sections and the cases of its [select]s. *)

From Stdlib Require Import Ascii String.
From S2P Require Import Prelude GoLib Crypto Json JsonEncode Domain QueueSchema DeliverySchema PublishStore FunctionResult FunctionStore FunctionService RealtimeProtocol RealtimeHub RealtimeTasks RedisKeys RedisServer RedisRealtime.
Import Realtime Hub Tasks Functions Invoking.

Module Bridge.

(** ** Subjects *)

Definition realtimeV2Subject (appID : string) : res string :=
  match AppToken appID with Ok token => Ok ("rh.v2.realtime." ++ token) | Err e => Err e end.
Definition realtimeV2CommandSubject (instanceID : string) : res string :=
  match AppToken instanceID with Ok token => Ok ("rh.v2.realtime.command." ++ token) | Err e => Err e end.
Definition realtimeChannelSubject (channel : string) : res string :=
  if negb (Channel.ValidRealtimeChannel channel) then Err ErrInvalidInput else
  match AppToken ("channel:" ++ channel) with Ok token => Ok ("rh.v1.realtime.channel." ++ token) | Err e => Err e end.
Definition invocationResultSubject (id : string) : res string :=
  match AppToken id with Ok token => Ok ("rh.v1.rpc.result." ++ token) | Err e => Err e end.
Definition is_reply_byte (c : ascii) : bool := is_lower c || in_range "2" "7" c.
Definition validRPCReplySubject (subject : string) : bool :=
  match CutPrefix subject "rh.v1.rpc.reply." with
  | Some token => (len token =? 32) && forallb is_reply_byte (bytes token)
  | None => false
  end.

(** ** Observations and commands *)

Record natsObservation := mkObservation { no_AppID : string; no_Frame : ServerFrame }.
Record natsChannelObservation := mkChannelObservation { nc_Channel : string; nc_PublisherAppID : string; nc_Data : string }.
Record natsV2Observation := mkV2Observation { nv_AppID : string; nv_Frame : ServerFrame }.
Record natsV2Command := mkV2Command { nd_Type : string; nd_AppID : string; nd_ConnectionID : string }.

(** Publishing: whether the message can be encoded and NATS takes it, whether the flush
    succeeds and the error if it does not; what was sent, if anything. *)
Definition publish_flush {A} (e : error) (sent_ok flushed : bool) (subject : string) (message : A) : res unit * option (string * A) :=
  if negb sent_ok then (Err ErrFunctionUnavailable, None)
  else (if flushed then Ok tt else Err e, Some (subject, message)).
Definition PublishRealtimeV2 (sent_ok flushed : bool) (appID : string) (frame : ServerFrame) : res unit * option (string * natsV2Observation) :=
  match realtimeV2Subject appID with
  | Ok subject =>
      if negb (validV2Delivery appID frame) then (Err ErrFunctionUnavailable, None)
      else publish_flush ContextError sent_ok flushed subject (mkV2Observation appID frame)
  | Err _ => (Err ErrFunctionUnavailable, None)
  end.
(** The application and the frame that are handed to [DeliverV2]. *)
Definition handleRealtimeV2 (subject : string) (message : option natsV2Observation) : option (string * ServerFrame) :=
  match message with
  | None => None
  | Some o =>
      match realtimeV2Subject (nv_AppID o) with
      | Ok expected =>
          if negb (bool_decide (expected = subject)) || negb (bool_decide (sf_AppID (nv_Frame o) = nv_AppID o)) then None
          else Some (nv_AppID o, nv_Frame o)
      | Err _ => None
      end
  end.
Definition DisconnectRealtimeV2 (sent_ok flushed : bool) (instanceID appID connectionID : string) : res unit * option (string * natsV2Command) :=
  match realtimeV2CommandSubject instanceID with
  | Ok subject =>
      if bool_decide (appID = "") || negb (HasPrefix connectionID "conn_") then (Err ErrFunctionUnavailable, None)
      else publish_flush ContextError sent_ok flushed subject (mkV2Command "disconnect" appID connectionID)
  | Err _ => (Err ErrFunctionUnavailable, None)
  end.
Definition handleRealtimeV2Command (instanceID subject : string) (message : option natsV2Command) (h : Hub) : list task :=
  match realtimeV2CommandSubject instanceID with
  | Ok expected =>
      if negb (bool_decide (subject = expected)) then [] else
      match message with
      | Some c =>
          if negb (bool_decide (nd_Type c = "disconnect")) || bool_decide (nd_AppID c = "") || negb (HasPrefix (nd_ConnectionID c) "conn_") then []
          else DisconnectConnection (nd_AppID c) (nd_ConnectionID c) h
      | None => []
      end
  | Err _ => []
  end.
Definition publishObservation (sent_ok flushed : bool) (appID : string) (frame : ServerFrame) : res unit * option (string * natsObservation) :=
  match SubjectsForApp appID with
  | Ok subjects => publish_flush ErrFunctionUnavailable sent_ok flushed (subj_Realtime subjects) (mkObservation appID frame)
  | Err e => (Err e, None)
  end.
(** [PublishEvent], target after target, until one fails; [oks] says what NATS answers. *)
Fixpoint publish_targets_to (oks : nat -> bool * bool) (event : Event) (targets : list string) : res unit * list (string * natsObservation) :=
  match targets with
  | [] => (Ok tt, [])
  | appID :: rest =>
      match publishObservation (oks 0%nat).1 (oks 0%nat).2 appID (event_frame event) with
      | (Ok _, sent) => let '(r, more) := publish_targets_to (fun i => oks (S i)) event rest in (r, (option_list sent ++ more)%list)
      | (Err e, sent) => (Err e, option_list sent)
      end
  end.
Definition PublishEvent_ (oks : nat -> bool * bool) (event : Event) : res unit * list (string * natsObservation) :=
  publish_targets_to oks event (ev_TargetAppIDs event).
Definition PublishJob_ (sent_ok flushed : bool) (target : string) (status : JobStatus) : res unit * option (string * natsObservation) :=
  publishObservation sent_ok flushed target (job_frame target status).
(** A message on a channel is best effort: errors are dropped. *)
Definition PublishChannel_ (sent_ok flushed : bool) (m : ChannelMessage) : option (string * natsChannelObservation) :=
  if negb (Channel.ValidRealtimeChannel (msg_Channel m)) then None else
  match realtimeChannelSubject (msg_Channel m) with
  | Ok subject => (publish_flush ContextError sent_ok flushed subject (mkChannelObservation (msg_Channel m) (msg_PublisherAppID m) (msg_Data m))).2
  | Err _ => None
  end.
Definition handleObservation (subject : string) (message : option natsObservation) : list task :=
  match message with
  | None => []
  | Some o =>
      match SubjectsForApp (no_AppID o) with
      | Ok subjects => if negb (bool_decide (subj_Realtime subjects = subject)) then [] else Deliver (no_AppID o) (no_Frame o)
      | Err _ => []
      end
  end.
Definition handleChannelObservation (subject : string) (message : option natsChannelObservation) : list task :=
  match message with
  | None => []
  | Some o =>
      if negb (Channel.ValidRealtimeChannel (nc_Channel o)) || negb (JSONObject (nc_Data o)) then [] else
      match realtimeChannelSubject (nc_Channel o) with
      | Ok expected =>
          if negb (bool_decide (expected = subject)) then []
          else PublishChannel (mkChannelMessage (nc_Channel o) (nc_PublisherAppID o) (nc_Data o))
      | Err _ => []
      end
  end.
(** The same bytes, as either kind of message. *)
Definition handleRealtimeMessage (subject : string) (observation : option natsObservation) (channel : option natsChannelObservation) : list task :=
  if HasPrefix subject "rh.v1.realtime.channel." then handleChannelObservation subject channel else handleObservation subject observation.

(** ** [Control] *)

Definition Disconnect (keys : Keys.Keyspace) (now : Z) (sent_ok flushed : bool) (appID connectionID : string) (w : World Redis.RedisDB)
    : res unit * option (string * natsV2Command) :=
  match (Connections.Get keys now appID connectionID w).1 with
  | Err RedisNotFound => (Err ErrNotFound, None)
  | Err e => (Err e, None)
  | Ok c => DisconnectRealtimeV2 sent_ok flushed (Connections.rc_InstanceID c) appID connectionID
  end.

(** ** Requests to run a function *)

Record natsInvocationRequest := mkRequest {
  nr_RequestID : string;
  nr_OwnerAppID : string;
  nr_FunctionID : string;
  nr_Type : string;
  nr_InvocationID : string;
  nr_wire : string (* [json.Marshal] of its frame *)
}.
Record natsInvocationAcceptance := mkAcceptance { na_RequestID : string; na_InvocationID : string; na_Accepted : bool }.
(** [functions]: whether the hub has a function store; [canonical] is what
    [GetInvocation] answers, [invoked] what [Hub.InvokeFunction] does with its frame.
    The invocation that is started, and the answer that is sent. *)
Definition handleInvocation (functions : bool) (subject reply : string) (message : option natsInvocationRequest) (canonical : res Invocation) (invoked : bool)
    : option (Invocation * (string * natsInvocationAcceptance)) :=
  match message with
  | None => None
  | Some q =>
      if bool_decide (nr_RequestID q = "") || negb (bool_decide (nr_Type q = "rpc.invoke")) || bool_decide (nr_InvocationID q = "") then None else
      match FunctionSubject (nr_OwnerAppID q) (nr_FunctionID q) with
      | Err _ => None
      | Ok expected =>
          if negb (bool_decide (expected = subject)) || negb (validRPCReplySubject reply) || negb functions then None else
          match canonical with
          | Err _ => None
          | Ok v =>
              if negb (bool_decide (iv_OwnerAppID v = nr_OwnerAppID q)) || negb (bool_decide (iv_FunctionID v = nr_FunctionID q))
                 || negb (bool_decide (frame_text v = nr_wire q)) then None
              else Some (v, (reply, mkAcceptance (nr_RequestID q) (nr_InvocationID q) invoked))
          end
      end
  end.

(** ** The state of a bridge *)

Record pendingInvocationAcceptance := mkPending { pa_invocationID : string; pa_accepted : bool; pa_updates : bool }.
Record NATSBridge := mkBridge {
  br_pending : gmap string pendingInvocationAcceptance;
  br_routes : gset string;
  br_watches : gset nat;
  br_closed : bool
}.
Definition set_pending (m : gmap string pendingInvocationAcceptance) (b : NATSBridge) : NATSBridge := mkBridge m (br_routes b) (br_watches b) (br_closed b).
Definition signalled (p : pendingInvocationAcceptance) : pendingInvocationAcceptance := mkPending (pa_invocationID p) (pa_accepted p) true.
Definition handleAcceptance (message : option natsInvocationAcceptance) (b : NATSBridge) : NATSBridge :=
  match message with
  | None => b
  | Some a =>
      if bool_decide (na_RequestID a = "") then b else
      match br_pending b !! na_RequestID a with
      | Some p =>
          if bool_decide (pa_invocationID p = na_InvocationID a)
          then set_pending (<[na_RequestID a := mkPending (pa_invocationID p) (pa_accepted p || na_Accepted a) true]> (br_pending b)) b
          else b
      | None => b
      end
  end.
Definition EnsureFunctionRoute (subscribed flushed : bool) (appID : string) (b : NATSBridge) : res unit * NATSBridge :=
  match AppToken appID with
  | Err e => (Err e, b)
  | Ok _ =>
      if br_closed b then (Err ErrFunctionUnavailable, b) else
      if bool_decide (appID ∈ br_routes b) then (Ok tt, b) else
      if negb subscribed || negb flushed then (Err ErrFunctionUnavailable, b)
      else (Ok tt, mkBridge (br_pending b) ({[appID]} ∪ br_routes b) (br_watches b) (br_closed b))
  end.
Definition ReleaseFunctionRoute (appID : string) (b : NATSBridge) : NATSBridge := mkBridge (br_pending b) (br_routes b ∖ {[appID]}) (br_watches b) (br_closed b).
(** It runs once; afterwards each of [watches_to_close] is closed, with [Close] of the
    watch below, and the subscriptions end. *)
Definition Close (b : NATSBridge) : NATSBridge := if br_closed b then b else mkBridge (signalled <$> br_pending b) ∅ (br_watches b) true.
Definition watches_to_close (b : NATSBridge) : gset nat := if br_closed b then ∅ else br_watches b.
Definition PublishInvocationResult (published flushed : bool) (id : string) : res unit * option (string * unit) :=
  match invocationResultSubject id with
  | Ok subject => publish_flush ContextError published flushed subject tt
  | Err e => (Err e, None)
  end.

(** ** [PublishInvocation] *)

Inductive call_state :=
| Checking
| Published
| Waiting (until : Z)
| Woken
| BackingOff (until : Z)
| Returning (r : res unit)
| Returned (r : res unit).
Record publishing := mkPublishing { pb_invocation : string; pb_start : Z; pb_deadline : Z; pb_state : call_state }.
(** The deadline: until when the function may be claimed, or the context's if it is earlier. *)
Definition publish_deadline (claimBy : Z) (context : option Z) : Z :=
  match context with Some t => if t <? claimBy then t else claimBy | None => claimBy end.
Definition with_state (s : call_state) (p : publishing) : publishing := mkPublishing (pb_invocation p) (pb_start p) (pb_deadline p) s.

(** The first critical section; the subject was found before. *)
Definition begin_publish (req inv : string) (b : NATSBridge) : call_state * NATSBridge :=
  if br_closed b then (Returned (Err ErrFunctionUnavailable), b)
  else (Checking, set_pending (<[req := mkPending inv false false]> (br_pending b)) b).
Definition is_accepted (req : string) (b : NATSBridge) : bool :=
  match br_pending b !! req with Some p => pa_accepted p | None => false end.
(** The head of the loop; whether it publishes. *)
Definition check_publish (now deadline : Z) (cancelled sent_ok : bool) (req : string) (b : NATSBridge) : call_state * bool :=
  if is_accepted req b then (Returning (Ok tt), false) else
  if br_closed b || (deadline <=? now) then (Returning (Err ErrFunctionUnavailable), false) else
  if cancelled then (Returning (Err ContextError), false) else
  if sent_ok then (Published, true) else (Returning (Err ErrFunctionUnavailable), false).
Definition start_wait (now deadline : Z) : call_state := Waiting (now + Z.min (20 * Millisecond) (deadline - now)).
(** Receiving from [pending.updates]. *)
Definition take_update (req : string) (b : NATSBridge) : option NATSBridge :=
  match br_pending b !! req with
  | Some p => if pa_updates p then Some (set_pending (<[req := mkPending (pa_invocationID p) (pa_accepted p) false]> (br_pending b)) b) else None
  | None => None
  end.
Definition woken (now deadline : Z) (req : string) (b : NATSBridge) : call_state :=
  if is_accepted req b then Returning (Ok tt) else BackingOff (now + Z.min (5 * Millisecond) (deadline - now)).
Definition forget (req : string) (b : NATSBridge) : NATSBridge := set_pending (delete req (br_pending b)) b.

(** ** Watches of a result *)

(** [wt_updates] says whether the channel of one place holds a value; [wt_stop] whether
    the function that runs when the context ends is still installed. *)
Record natsInvocationWatch := mkWatch {
  wt_closed : bool;
  wt_stop : bool;
  wt_subscribed : bool;
  wt_registered : bool;
  wt_updates : bool;
  wt_updates_closed : bool;
  wt_done_closed : bool
}.
(** The watch as far as the flush: whether it is refused, and what it has registered;
    [n] is its address. *)
Definition WatchInvocation (cancelled subscribed : bool) (id : string) (n : nat) (b : NATSBridge) : res natsInvocationWatch * NATSBridge :=
  match invocationResultSubject id with
  | Err e => (Err e, b)
  | Ok _ =>
      if cancelled then (Err ContextError, b) else
      if br_closed b then (Err ErrFunctionUnavailable, b) else
      if negb subscribed then (Err DriverError, b)
      else (Ok (mkWatch false false true true false false false), mkBridge (br_pending b) (br_routes b) ({[n]} ∪ br_watches b) (br_closed b))
  end.
(** Its end, when the flush succeeded; otherwise the watch is closed. *)
Definition install_stop (w : natsInvocationWatch) : natsInvocationWatch :=
  mkWatch (wt_closed w) true (wt_subscribed w) (wt_registered w) (wt_updates w) (wt_updates_closed w) (wt_done_closed w).
(** A send on a closed channel and a second [close] panic: [None]. *)
Definition signal (w : natsInvocationWatch) : option natsInvocationWatch :=
  if wt_closed w then Some w else
  if wt_updates_closed w then None
  else Some (mkWatch (wt_closed w) (wt_stop w) (wt_subscribed w) (wt_registered w) true (wt_updates_closed w) (wt_done_closed w)).
(** [Close] of a watch, section after section. *)
Inductive closing := CloseWaits | CloseUnsubscribes | CloseUnregisters | CloseFinishes | CloseReturned.
Definition watch_close_begin (w : natsInvocationWatch) : closing * natsInvocationWatch :=
  if wt_closed w then (CloseWaits, w)
  else (CloseUnsubscribes, mkWatch true false (wt_subscribed w) (wt_registered w) (wt_updates w) (wt_updates_closed w) (wt_done_closed w)).
Definition watch_close_unsubscribe (w : natsInvocationWatch) : natsInvocationWatch :=
  mkWatch (wt_closed w) (wt_stop w) false (wt_registered w) (wt_updates w) (wt_updates_closed w) (wt_done_closed w).
Definition watch_close_unregister (w : natsInvocationWatch) : natsInvocationWatch :=
  mkWatch (wt_closed w) (wt_stop w) (wt_subscribed w) false (wt_updates w) (wt_updates_closed w) (wt_done_closed w).
Definition watch_close_finish (w : natsInvocationWatch) : option natsInvocationWatch :=
  if wt_updates_closed w || wt_done_closed w then None
  else Some (mkWatch (wt_closed w) (wt_stop w) (wt_subscribed w) (wt_registered w) (wt_updates w) true true).

End Bridge.
Import Bridge.

(** ** What is accepted was meant *)

Lemma publish_flush_sent {A} e ok fl subject (m : A) r s m' : publish_flush e ok fl subject m = (r, Some (s, m')) -> s = subject /\ m' = m.
Proof. unfold publish_flush. destruct (negb ok); [done|]. by intros [= _ <- <-]. Qed.
(** A frame that one gateway publishes for an application is delivered by every gateway
    to that application, and a message is delivered only to the application whose subject
    it came on. *)
Theorem bridge_delivers sent_ok flushed appID frame r subject o :
  PublishRealtimeV2 sent_ok flushed appID frame = (r, Some (subject, o)) -> handleRealtimeV2 subject (Some o) = Some (appID, frame).
Proof.
  unfold PublishRealtimeV2, handleRealtimeV2. destruct (realtimeV2Subject appID) as [sub|] eqn:Hs; [|done].
  destruct (validV2Delivery appID frame) eqn:Hv; [|done]. intros [-> ->]%publish_flush_sent. cbn [nv_AppID nv_Frame]. rewrite Hs.
  assert (sf_AppID frame = appID) as Ha.
  { unfold validV2Delivery in Hv. destruct (bool_decide (sf_AppID frame = appID)) eqn:E; [by apply bool_decide_eq_true in E|done]. }
  by rewrite !bool_decide_true.
Qed.
Theorem bridge_confined subject message appID frame :
  handleRealtimeV2 subject message = Some (appID, frame) -> realtimeV2Subject appID = Ok subject /\ sf_AppID frame = appID.
Proof.
  unfold handleRealtimeV2. destruct message as [o|]; [|done]. destruct (realtimeV2Subject (nv_AppID o)) as [e|] eqn:Hs; [|done].
  destruct (_ || _) eqn:E; [done|]. intros [= <- <-]. rewrite orb_false_iff, !negb_false_iff, !bool_decide_eq_true in E. destruct E as [-> ?]. done.
Qed.

(** ** Bridges and calls in any order *)

Inductive event :=
| EPublished (req : string) (at_ : Z)
| EAccepted (req inv : string)
| EClosed.
Record system := mkSystem {
  sy_bridge : NATSBridge;
  sy_calls : gmap string publishing;
  sy_now : Z;
  sy_log : list event (* newest first *)
}.
Definition move (req : string) (p : publishing) (s : call_state) (b : NATSBridge) (log : list event) (y : system) : system :=
  mkSystem b (<[req := with_state s p]> (sy_calls y)) (sy_now y) (log ++ sy_log y).
Definition acceptance_log (message : option natsInvocationAcceptance) (b : NATSBridge) : list event :=
  match message with
  | Some a =>
      match br_pending b !! na_RequestID a with
      | Some p => if negb (bool_decide (na_RequestID a = "")) && bool_decide (pa_invocationID p = na_InvocationID a) && na_Accepted a
                  then [EAccepted (na_RequestID a) (na_InvocationID a)] else []
      | None => []
      end
  | None => []
  end.
Inductive bridge_step : system -> system -> Prop :=
| st_tick y now : sy_now y <= now -> bridge_step y (mkSystem (sy_bridge y) (sy_calls y) now (sy_log y))
| st_begin y req inv claimBy context : req <> "" -> sy_calls y !! req = None ->
    bridge_step y (mkSystem (begin_publish req inv (sy_bridge y)).2
      (<[req := mkPublishing inv (sy_now y) (publish_deadline claimBy context) (begin_publish req inv (sy_bridge y)).1]> (sy_calls y)) (sy_now y) (sy_log y))
| st_check y req p cancelled sent_ok : sy_calls y !! req = Some p -> pb_state p = Checking ->
    bridge_step y (move req p (check_publish (sy_now y) (pb_deadline p) cancelled sent_ok req (sy_bridge y)).1 (sy_bridge y)
      (if (check_publish (sy_now y) (pb_deadline p) cancelled sent_ok req (sy_bridge y)).2 then [EPublished req (sy_now y)] else []) y)
| st_wait y req p : sy_calls y !! req = Some p -> pb_state p = Published ->
    bridge_step y (move req p (start_wait (sy_now y) (pb_deadline p)) (sy_bridge y) [] y)
| st_cancel y req p until : sy_calls y !! req = Some p -> pb_state p = Waiting until \/ pb_state p = BackingOff until ->
    bridge_step y (move req p (Returning (Err ContextError)) (sy_bridge y) [] y)
| st_update y req p until b : sy_calls y !! req = Some p -> pb_state p = Waiting until -> take_update req (sy_bridge y) = Some b ->
    bridge_step y (move req p Woken b [] y)
| st_woken y req p : sy_calls y !! req = Some p -> pb_state p = Woken ->
    bridge_step y (move req p (woken (sy_now y) (pb_deadline p) req (sy_bridge y)) (sy_bridge y) [] y)
| st_timer y req p until : sy_calls y !! req = Some p -> pb_state p = Waiting until \/ pb_state p = BackingOff until -> until <= sy_now y ->
    bridge_step y (move req p Checking (sy_bridge y) [] y)
| st_return y req p r : sy_calls y !! req = Some p -> pb_state p = Returning r ->
    bridge_step y (move req p (Returned r) (forget req (sy_bridge y)) [] y)
| st_acceptance y message :
    bridge_step y (mkSystem (handleAcceptance message (sy_bridge y)) (sy_calls y) (sy_now y) (acceptance_log message (sy_bridge y) ++ sy_log y))
| st_ensure y subscribed flushed app :
    bridge_step y (mkSystem (EnsureFunctionRoute subscribed flushed app (sy_bridge y)).2 (sy_calls y) (sy_now y) (sy_log y))
| st_release y app : bridge_step y (mkSystem (ReleaseFunctionRoute app (sy_bridge y)) (sy_calls y) (sy_now y) (sy_log y))
| st_close y : bridge_step y (mkSystem (Close (sy_bridge y)) (sy_calls y) (sy_now y) (EClosed :: sy_log y)).
Definition initial (now : Z) : system := mkSystem (mkBridge ∅ ∅ ∅ false) ∅ now [].

(** The times at which a request was published, newest first. *)
Fixpoint times (req : string) (log : list event) : list Z :=
  match log with
  | [] => []
  | EPublished r t :: log => if bool_decide (r = req) then t :: times req log else times req log
  | _ :: log => times req log
  end.
(** Times that are five milliseconds apart. *)
Fixpoint spaced (start : Z) (ts : list Z) : Prop :=
  match ts with
  | [] => True
  | t :: rest => start <= t /\ match rest with [] => True | t' :: _ => t' + 5 * Millisecond <= t end /\ spaced start rest
  end.
Lemma spaced_length start ts t : spaced start (t :: ts) -> Z.of_nat (length ts) * (5 * Millisecond) <= t - start.
Proof.
  revert t. induction ts as [|t' ts IH]; intros t (Hs & Hg & Hr); cbn [length]; [lia|]. specialize (IH t' Hr). rewrite Nat2Z.inj_succ. lia.
Qed.
(** When a call may publish next, after it published at a time. *)
Definition republish_ok (t deadline until : Z) : Prop := t + 5 * Millisecond <= until \/ deadline <= until.
Definition state_ok (now deadline : Z) (s : call_state) (ts : list Z) : Prop :=
  match ts with
  | [] => True
  | t :: _ =>
      t <= now /\ match s with
                  | Checking => republish_ok t deadline now
                  | Waiting until | BackingOff until => republish_ok t deadline until
                  | _ => True
                  end
  end.
Definition live_state (s : call_state) : bool := match s with Returned _ => false | _ => true end.
(** What holds of one call. *)
Definition call_ok (y : system) (req : string) (p : publishing) : Prop :=
  spaced (pb_start p) (times req (sy_log y)) /\ state_ok (sy_now y) (pb_deadline p) (pb_state p) (times req (sy_log y))
  /\ pb_start p <= sy_now y
  /\ (forall t, t ∈ times req (sy_log y) -> t < pb_deadline p)
  /\ (forall inv, EAccepted req inv ∈ sy_log y -> inv = pb_invocation p)
  /\ (pb_state p = Returning (Ok tt) \/ pb_state p = Returned (Ok tt) -> EAccepted req (pb_invocation p) ∈ sy_log y)
  /\ if live_state (pb_state p)
     then exists a, br_pending (sy_bridge y) !! req = Some a /\ pa_invocationID a = pb_invocation p
            /\ (pa_accepted a = true <-> (EAccepted req (pb_invocation p) ∈ sy_log y))
     else br_pending (sy_bridge y) !! req = None.
(** No request is published after it was accepted, and none after the bridge was closed. *)
Definition quiet_log (log : list event) : Prop :=
  forall newer older req t, log = (newer ++ older)%list -> EPublished req t ∈ newer -> (EClosed ∉ older) /\ forall inv, EAccepted req inv ∉ older.
Definition system_inv (y : system) : Prop :=
  (forall req p, sy_calls y !! req = Some p -> call_ok y req p)
  /\ (forall req, sy_calls y !! req = None -> br_pending (sy_bridge y) !! req = None /\ times req (sy_log y) = [] /\ forall inv, EAccepted req inv ∉ sy_log y)
  /\ (br_closed (sy_bridge y) = true <-> (EClosed ∈ sy_log y))
  /\ quiet_log (sy_log y).

Lemma quiet_cons e log : quiet_log log -> (forall req t, e = EPublished req t -> (EClosed ∉ log) /\ forall inv, EAccepted req inv ∉ log) -> quiet_log (e :: log).
Proof.
  intros Hq He newer older req t Hlog Hin. destruct newer as [|e' newer]; [by apply not_elem_of_nil in Hin|]. injection Hlog as <- ->.
  apply elem_of_cons in Hin as [Heq|Hin]; [|by eapply Hq]. destruct (He req t (eq_sym Heq)) as [H1 H2]. split; [set_solver|]. intros inv Hi. apply (H2 inv). set_solver.
Qed.
(** What a step changes of a call it is not about: the clock goes on, and others' events
    are recorded. *)
Definition foreign (req : string) (e : event) : Prop := match e with EPublished r _ | EAccepted r _ => r <> req | EClosed => True end.
Lemma foreign_times req log log' : Forall (foreign req) log -> times req (log ++ log')%list = times req log'.
Proof. induction 1 as [|e log He _ IH]; [done|]. cbn. destruct e; cbn in He; [by rewrite bool_decide_false|done..]. Qed.
Lemma foreign_accepted req inv log log' : Forall (foreign req) log -> (EAccepted req inv ∈ (log ++ log')%list) <-> (EAccepted req inv ∈ log').
Proof.
  intros Hf. rewrite elem_of_app. split; [intros [Hin|Hin]; [|done]|by right]. rewrite Forall_forall in Hf. by destruct (Hf _ Hin).
Qed.
Lemma state_later now now' deadline s ts : now <= now' -> state_ok now deadline s ts -> state_ok now' deadline s ts.
Proof. unfold state_ok, republish_ok. destruct ts; [done|]. intros Hn [H1 H2]. split; [lia|]. destruct s; try done; lia. Qed.
Lemma call_ok_foreign y y' req p log :
  call_ok y req p -> sy_log y' = (log ++ sy_log y)%list -> Forall (foreign req) log -> sy_now y <= sy_now y' ->
  (forall a, br_pending (sy_bridge y) !! req = Some a -> exists a', br_pending (sy_bridge y') !! req = Some a'
     /\ pa_invocationID a' = pa_invocationID a /\ pa_accepted a' = pa_accepted a) ->
  (br_pending (sy_bridge y) !! req = None -> br_pending (sy_bridge y') !! req = None) -> call_ok y' req p.
Proof.
  intros (H1 & H2 & H3 & H4 & H5 & H6 & H7) Hlog Hf Hn Hp Hnone. unfold call_ok. rewrite Hlog, (foreign_times _ _ _ Hf).
  pose proof (fun inv => foreign_accepted req inv _ (sy_log y) Hf) as Ha.
  split_and!; [done|by eapply state_later|lia|done|by intros inv Hi%Ha; apply H5|by intros Hs%H6; apply Ha|].
  destruct (live_state (pb_state p)); [|by apply Hnone].
  destruct H7 as (a & Hl & Hi & Hacc). destruct (Hp a Hl) as (a' & Hl' & Hi' & Hacc'). exists a'. split_and!; [done|congruence|].
  by rewrite Hacc', Hacc, Ha.
Qed.

(** ** Every step keeps the invariant *)

Section Steps.
Context (y : system) (Hinv : system_inv y).

(** A step of the bridge that is about no call. *)
Lemma inv_quiet b now log :
  sy_now y <= now -> (forall req, Forall (foreign req) log) ->
  (forall req a, br_pending (sy_bridge y) !! req = Some a ->
     exists a', br_pending b !! req = Some a' /\ pa_invocationID a' = pa_invocationID a /\ pa_accepted a' = pa_accepted a) ->
  (forall req, br_pending (sy_bridge y) !! req = None -> br_pending b !! req = None) ->
  (br_closed b = true <-> (EClosed ∈ (log ++ sy_log y)%list)) -> quiet_log (log ++ sy_log y)%list ->
  system_inv (mkSystem b (sy_calls y) now (log ++ sy_log y)%list).
Proof using Hinv.
  destruct Hinv as (H1 & H2 & _ & _). intros Hn Hf Hp Hnone Hc Hq. split_and!; [| |done|done].
  - intros req p Hr. eapply (call_ok_foreign y); [by apply H1|done|apply Hf|done|apply Hp|apply Hnone].
  - intros req Hr. destruct (H2 req Hr) as (H3 & H4 & H5). cbn. rewrite foreign_times by apply Hf.
    split_and!; [by apply Hnone|done|]. intros inv Hi. apply (H5 inv). by apply (foreign_accepted req inv log).
Qed.

Context (req : string) (p : publishing) (Hcall : sy_calls y !! req = Some p).

Lemma inv_call : call_ok y req p.
Proof using Hinv Hcall. destruct Hinv as (H1 & _). by apply H1. Qed.
(** A step of one call: it publishes, or says nothing. *)
Lemma inv_move s b log :
  (forall r, r <> req -> Forall (foreign r) log /\ br_pending b !! r = br_pending (sy_bridge y) !! r) ->
  EClosed ∉ log -> br_closed b = br_closed (sy_bridge y) -> quiet_log (log ++ sy_log y)%list ->
  call_ok (move req p s b log y) req (with_state s p) -> system_inv (move req p s b log y).
Proof using Hinv Hcall.
  destruct Hinv as (H1 & H2 & H3 & _). intros Hr Hc Hb Hq Hok. split_and!; [| | |done].
  - intros r q. cbn [move sy_calls]. destruct (decide (r = req)) as [->|Hne]; [rewrite lookup_insert_eq; by intros [= <-]|].
    rewrite lookup_insert_ne by done. intros Hq'. destruct (Hr r Hne) as [Hf Hp].
    eapply (call_ok_foreign y); [by apply H1|done|done|done| |]; cbn [move sy_bridge]; rewrite Hp; [|done]. intros a Ha. by exists a.
  - intros r. cbn [move sy_calls sy_bridge sy_log]. rewrite lookup_insert_None. intros [Hn Hne]. destruct (Hr r ltac:(done)) as [Hf Hp].
    destruct (H2 r Hn) as (H4 & H5 & H6). rewrite Hp, foreign_times by done. split_and!; [done|done|].
    intros inv Hi. apply (H6 inv). by apply (foreign_accepted r inv log).
  - cbn [move sy_bridge sy_log]. rewrite Hb, H3, elem_of_app. tauto.
Qed.
(** A step of one call that publishes nothing. *)
Lemma inv_silent s b :
  (forall r, r <> req -> br_pending b !! r = br_pending (sy_bridge y) !! r) -> br_closed b = br_closed (sy_bridge y) ->
  state_ok (sy_now y) (pb_deadline p) s (times req (sy_log y)) ->
  (s = Returning (Ok tt) \/ s = Returned (Ok tt) -> EAccepted req (pb_invocation p) ∈ sy_log y) ->
  (if live_state s
   then exists a, br_pending b !! req = Some a /\ pa_invocationID a = pb_invocation p /\ (pa_accepted a = true <-> (EAccepted req (pb_invocation p) ∈ sy_log y))
   else br_pending b !! req = None) ->
  system_inv (move req p s b [] y).
Proof using Hinv Hcall.
  intros Hr Hb Hs Hret Hlive. destruct inv_call as (H1 & H2 & H3 & H4 & H5 & H6 & H7).
  apply inv_move; [intros r Hne; split; [constructor|by apply Hr]|apply not_elem_of_nil|done|apply Hinv|]. split_and!; done.
Qed.
(** A step of one call that leaves the bridge alone. *)
Lemma inv_local s :
  live_state (pb_state p) = true -> live_state s = true -> state_ok (sy_now y) (pb_deadline p) s (times req (sy_log y)) ->
  (s = Returning (Ok tt) -> EAccepted req (pb_invocation p) ∈ sy_log y) -> system_inv (move req p s (sy_bridge y) [] y).
Proof using Hinv Hcall.
  intros Hl Hl' Hs Hret. destruct inv_call as (_ & _ & _ & _ & _ & _ & H7). rewrite Hl in H7.
  apply inv_silent; [done|done|done| |by rewrite Hl']. intros [->| ->]; [by apply Hret|done].
Qed.
Lemma accepted_logged : live_state (pb_state p) = true -> is_accepted req (sy_bridge y) = true -> EAccepted req (pb_invocation p) ∈ sy_log y.
Proof using Hinv Hcall.
  intros Hl. destruct inv_call as (_ & _ & _ & _ & _ & _ & H7). rewrite Hl in H7. destruct H7 as (a & Ha & _ & Hacc). unfold is_accepted. rewrite Ha. apply Hacc.
Qed.
Lemma unaccepted_silent inv : live_state (pb_state p) = true -> is_accepted req (sy_bridge y) = false -> EAccepted req inv ∉ sy_log y.
Proof using Hinv Hcall.
  intros Hl Hn Hin. destruct inv_call as (_ & _ & _ & _ & H5 & _ & H7). rewrite Hl in H7. destruct H7 as (a & Ha & _ & Hacc).
  pose proof (H5 _ Hin) as ->. apply Hacc in Hin. unfold is_accepted in Hn. rewrite Ha in Hn. congruence.
Qed.

Lemma step_check cancelled sent_ok :
  pb_state p = Checking ->
  let c := check_publish (sy_now y) (pb_deadline p) cancelled sent_ok req (sy_bridge y) in
  system_inv (move req p c.1 (sy_bridge y) (if c.2 then [EPublished req (sy_now y)] else []) y).
Proof using Hinv Hcall.
  intros Hst. assert (live_state (pb_state p) = true) as Hl by by rewrite Hst.
  destruct inv_call as (H1 & H2 & H3 & H4 & H5 & H6 & H7). cbv zeta. unfold check_publish.
  assert (forall r, state_ok (sy_now y) (pb_deadline p) (Returning r) (times req (sy_log y))) as Hret.
  { intros r. unfold state_ok in *. destruct (times req (sy_log y)); [done|]. by destruct H2. }
  destruct (is_accepted req (sy_bridge y)) eqn:Ha; [apply inv_local; [done|done|apply Hret|intros _; by apply accepted_logged]|].
  destruct (br_closed (sy_bridge y)) eqn:Hc; cbn [orb]; [by apply inv_local; [..|apply Hret|]|].
  destruct (Z.leb_spec (pb_deadline p) (sy_now y)); [by apply inv_local; [..|apply Hret|]|].
  destruct cancelled; [by apply inv_local; [..|apply Hret|]|]. destruct sent_ok; [|by apply inv_local; [..|apply Hret|]]. cbn [fst snd].
  assert (EClosed ∉ sy_log y) as Hopen. { destruct Hinv as (_ & _ & Hcl & _). rewrite <- Hcl. congruence. }
  apply inv_move; [intros r Hne; split; [by repeat constructor|done]|by intros [?|?%not_elem_of_nil]%elem_of_cons|done| |].
  - apply quiet_cons; [apply Hinv|]. intros r t [= <- _]. split; [done|]. intros inv. by apply unaccepted_silent.
  - rewrite Hst in H2. unfold call_ok. cbn [move sy_log sy_now sy_bridge app times with_state pb_start pb_deadline pb_state pb_invocation live_state].
    rewrite bool_decide_true by done. rewrite Hl in H7.
    split_and!; [cbn; split_and!; [done| |done]|cbn; lia|done| | | |].
    + destruct (times req (sy_log y)) as [|t ts]; [done|]. destruct H2 as [_ H2]. unfold republish_ok in H2. lia.
    + intros t. rewrite elem_of_cons. intros [->|Hin]; [lia|by apply H4].
    + intros inv. rewrite elem_of_cons. intros [?|Hin]; [done|by apply H5].
    + by intros [|].
    + destruct H7 as (a & Hl' & Hi & Hacc). exists a. split_and!; [done|done|]. rewrite Hacc, elem_of_cons. split; [by right|by intros [|]].
Qed.
Lemma published_before t ts : times req (sy_log y) = t :: ts -> t <= sy_now y.
Proof using Hinv Hcall. intros Ht. destruct inv_call as (_ & H2 & _). rewrite Ht in H2. by destruct H2. Qed.
Lemma idle_ok s : (match s with Checking | Waiting _ | BackingOff _ => False | _ => True end) -> state_ok (sy_now y) (pb_deadline p) s (times req (sy_log y)).
Proof using Hinv Hcall.
  unfold state_ok. destruct (times req (sy_log y)) as [|t ts] eqn:Ht; [done|]. pose proof (published_before t ts Ht). by destruct s.
Qed.
(** The next publication is five milliseconds later, or never. *)
Lemma wait_ready d : live_state (pb_state p) = true -> 5 * Millisecond <= d ->
  forall s, s = Waiting (sy_now y + Z.min d (pb_deadline p - sy_now y)) \/ s = BackingOff (sy_now y + Z.min d (pb_deadline p - sy_now y)) ->
  system_inv (move req p s (sy_bridge y) [] y).
Proof using Hinv Hcall.
  intros Hl Hd s Hs. apply inv_local; [done|by destruct Hs as [->| ->]| |by destruct Hs as [->| ->]].
  unfold state_ok. destruct (times req (sy_log y)) as [|t ts] eqn:Ht; [done|]. pose proof (published_before t ts Ht). split; [done|].
  destruct Hs as [->| ->]; unfold republish_ok; lia.
Qed.
Lemma step_woken : pb_state p = Woken -> system_inv (move req p (woken (sy_now y) (pb_deadline p) req (sy_bridge y)) (sy_bridge y) [] y).
Proof using Hinv Hcall.
  intros Hst. assert (live_state (pb_state p) = true) as Hl by by rewrite Hst. unfold woken.
  destruct (is_accepted req (sy_bridge y)) eqn:Ha; [|by apply (wait_ready (5 * Millisecond)); [..|by right]].
  apply inv_local; [done|done|by apply idle_ok|intros _; by apply accepted_logged].
Qed.
Lemma step_cancel until r : pb_state p = Waiting until \/ pb_state p = BackingOff until -> r <> Ok tt -> system_inv (move req p (Returning r) (sy_bridge y) [] y).
Proof using Hinv Hcall.
  intros Hst Hr. apply inv_local; [by destruct Hst as [->| ->]|done|by apply idle_ok|by intros [=]].
Qed.
Lemma step_timer until : pb_state p = Waiting until \/ pb_state p = BackingOff until -> until <= sy_now y -> system_inv (move req p Checking (sy_bridge y) [] y).
Proof using Hinv Hcall.
  intros Hst Hu. apply inv_local; [by destruct Hst as [->| ->]|done| |done]. destruct inv_call as (_ & H2 & _).
  unfold state_ok, republish_ok in *. destruct (times req (sy_log y)) as [|t ts]; [done|]. destruct H2 as [H2 H3]. split; [done|]. destruct Hst as [Hst|Hst]; rewrite Hst in H3; lia.
Qed.
Lemma step_update until b : pb_state p = Waiting until -> take_update req (sy_bridge y) = Some b -> system_inv (move req p Woken b [] y).
Proof using Hinv Hcall.
  intros Hst. destruct inv_call as (_ & _ & _ & _ & _ & _ & H7). rewrite Hst in H7. destruct H7 as (a & Ha & Hi & Hacc).
  unfold take_update. rewrite Ha. destruct (pa_updates a); [|done]. intros [= <-]. apply inv_silent; [|done| |by intros [|]|].
  - intros r Hr. cbn. by rewrite lookup_insert_ne.
  - by apply idle_ok.
  - cbn. rewrite lookup_insert_eq. by eexists.
Qed.
Lemma step_return r : pb_state p = Returning r -> system_inv (move req p (Returned r) (forget req (sy_bridge y)) [] y).
Proof using Hinv Hcall.
  intros Hst. destruct inv_call as (_ & _ & _ & _ & _ & H6 & _). apply inv_silent; [|done| | |].
  - intros r' Hr. cbn. by rewrite lookup_delete_ne.
  - by apply idle_ok.
  - intros [|[= ->]]; [done|]. apply H6. by left.
  - cbn. apply lookup_delete_eq.
Qed.
End Steps.

Lemma step_begin y req inv deadline : system_inv y -> sy_calls y !! req = None ->
  system_inv (mkSystem (begin_publish req inv (sy_bridge y)).2
    (<[req := mkPublishing inv (sy_now y) deadline (begin_publish req inv (sy_bridge y)).1]> (sy_calls y)) (sy_now y) (sy_log y)).
Proof.
  intros (H1 & H2 & H3 & H4) Hn. destruct (H2 req Hn) as (Hp & Ht & Ha). unfold begin_publish.
  split_and!; cbn [sy_calls sy_bridge sy_log sy_now].
  - intros r q. destruct (decide (r = req)) as [->|Hne].
    + rewrite lookup_insert_eq. intros [= <-]. unfold call_ok. cbn [sy_log sy_bridge sy_now pb_start pb_deadline pb_state pb_invocation]. rewrite Ht.
      split_and!; [done|done|done|by intros t ?%not_elem_of_nil|by intros i ?%Ha|by destruct (br_closed (sy_bridge y)); intros [|]|].
      destruct (br_closed (sy_bridge y)); cbn; [done|]. rewrite lookup_insert_eq. eexists. split_and!; [done|done|]. by split; [|intros ?%Ha].
    + rewrite lookup_insert_ne by done. intros Hq. eapply (call_ok_foreign y _ r q []); [by apply H1|done|constructor|done| |]; cbn [sy_bridge];
        destruct (br_closed (sy_bridge y)); cbn; rewrite ?lookup_insert_ne by done; eauto.
  - intros r [Hr Hne]%lookup_insert_None. destruct (H2 r Hr) as (H5 & H6 & H7). split_and!; [|done|done].
    destruct (br_closed (sy_bridge y)); cbn; [done|]. by rewrite lookup_insert_ne.
  - destruct (br_closed (sy_bridge y)) eqn:Hc; cbn; rewrite ?Hc; done.
  - done.
Qed.
Lemma step_acceptance y message : system_inv y ->
  system_inv (mkSystem (handleAcceptance message (sy_bridge y)) (sy_calls y) (sy_now y) (acceptance_log message (sy_bridge y) ++ sy_log y)).
Proof.
  intros Hinv. assert (system_inv (mkSystem (sy_bridge y) (sy_calls y) (sy_now y) (sy_log y))) as Hsame by by destruct y.
  unfold handleAcceptance, acceptance_log. destruct message as [[req inv acc]|]; [|done]. cbn [na_RequestID na_InvocationID na_Accepted].
  destruct (bool_decide (req = "")) eqn:He; cbn [negb andb]; [by destruct (br_pending (sy_bridge y) !! req)|].
  destruct (br_pending (sy_bridge y) !! req) as [a|] eqn:Ha; [|done]. destruct (bool_decide (pa_invocationID a = inv)) eqn:Hi; [|done]. apply bool_decide_eq_true in Hi. subst inv. cbn [andb].
  destruct Hinv as (H1 & H2 & H3 & H4). destruct (sy_calls y !! req) as [p|] eqn:Hp; [|by destruct (H2 req Hp); congruence].
  set (log := if acc then [EAccepted req (pa_invocationID a)] else []).
  assert (forall r, r <> req -> Forall (foreign r) log) as Hf by (intros r Hr; subst log; destruct acc; repeat constructor; by apply not_eq_sym).
  split_and!; cbn [sy_calls sy_bridge sy_log sy_now set_pending br_closed].
  - intros r q Hq. destruct (decide (r = req)) as [->|Hne].
    + assert (q = p) as -> by congruence. destruct (H1 req p Hp) as (K1 & K2 & K3 & K4 & K5 & K6 & K7).
      destruct (live_state (pb_state p)) eqn:Hl; [|congruence]. destruct K7 as (a' & Ha' & Hi' & Hacc). assert (a' = a) as -> by congruence.
      assert (times req (log ++ sy_log y)%list = times req (sy_log y)) as Ht by (subst log; by destruct acc).
      unfold call_ok. cbn [sy_log sy_bridge sy_now set_pending br_pending]. rewrite Ht, Hl.
      split_and!; [done|done|done|done| | |].
      * intros inv [Hin|Hin]%elem_of_app; [|by apply K5]. subst log. destruct acc; [|by apply not_elem_of_nil in Hin].
        apply elem_of_cons in Hin as [[= ->]|Hin]; [done|by apply not_elem_of_nil in Hin].
      * intros Hs. apply elem_of_app. right. by apply K6.
      * rewrite lookup_insert_eq. eexists. split_and!; [done|done|]. cbn [pa_accepted]. rewrite orb_true_iff, Hacc, elem_of_app. subst log. rewrite Hi'.
        destruct acc; split; try tauto; [intros _; left; by left|by intros [Hin|Hin]; [right|]|intros [Hin|Hin]; [by apply not_elem_of_nil in Hin|by left]].
    + eapply (call_ok_foreign y); [by apply H1|done|by apply Hf|done| |]; cbn [sy_bridge set_pending br_pending]; rewrite lookup_insert_ne by done; eauto.
  - intros r Hr. destruct (H2 r Hr) as (K1 & K2 & K3). assert (r <> req) as Hne by congruence. cbn [br_pending set_pending].
    rewrite lookup_insert_ne, foreign_times by auto. split_and!; [done|done|]. intros i Hin. apply (K3 i). by apply (foreign_accepted r i log); [apply Hf|].
  - rewrite H3, elem_of_app. subst log. destruct acc; set_solver.
  - subst log. destruct acc; [|done]. by apply quiet_cons.
Qed.
Lemma step_close y : system_inv y -> system_inv (mkSystem (Close (sy_bridge y)) (sy_calls y) (sy_now y) (EClosed :: sy_log y)).
Proof.
  intros Hinv. apply (inv_quiet y Hinv (Close (sy_bridge y)) (sy_now y) [EClosed]); [done|by repeat constructor| | | |].
  - intros req a Ha. unfold Close. destruct (br_closed (sy_bridge y)); [by exists a|]. cbn. rewrite lookup_fmap, Ha. by eexists.
  - intros req Hn. unfold Close. destruct (br_closed (sy_bridge y)); [done|]. cbn. by rewrite lookup_fmap, Hn.
  - unfold Close. destruct (br_closed (sy_bridge y)) eqn:Hc; cbn; rewrite ?Hc; (split; [by left|done]).
  - apply quiet_cons; [apply Hinv|done].
Qed.
Lemma step_route y b : system_inv y -> br_pending b = br_pending (sy_bridge y) -> br_closed b = br_closed (sy_bridge y) ->
  system_inv (mkSystem b (sy_calls y) (sy_now y) (sy_log y)).
Proof.
  intros Hinv Hp Hc. apply (inv_quiet y Hinv b (sy_now y) []); [done|constructor|rewrite Hp; eauto|by rewrite Hp|rewrite Hc; apply Hinv|apply Hinv].
Qed.
Lemma bridge_step_inv y y' : bridge_step y y' -> system_inv y -> system_inv y'.
Proof.
  intros Hstep Hinv. destruct Hstep.
  - by apply (inv_quiet y Hinv (sy_bridge y) now []); [done|constructor|eauto|done|apply Hinv|apply Hinv].
  - by apply step_begin.
  - by apply step_check.
  - apply (wait_ready y Hinv req p ltac:(done) (20 * Millisecond)); [by rewrite H0|done|by left].
  - by eapply step_cancel.
  - by eapply step_update.
  - by apply step_woken.
  - by eapply step_timer.
  - by apply step_return.
  - by apply step_acceptance.
  - unfold EnsureFunctionRoute. destruct (AppToken app); [|by apply step_route]. destruct (br_closed (sy_bridge y)) eqn:Hc; [by apply step_route|].
    case_bool_decide; [by apply step_route|]. by destruct (_ || _); apply step_route.
  - by apply step_route.
  - by apply step_close.
Qed.
Lemma bridge_initial_inv now : system_inv (initial now).
Proof.
  split_and!; cbn.
  - intros req p. by rewrite lookup_empty.
  - intros req _. rewrite lookup_empty. split_and!; [done|done|]. intros inv. apply not_elem_of_nil.
  - split; [done|]. by intros ?%not_elem_of_nil.
  - intros newer older req t Hn Hin. destruct newer; [by apply not_elem_of_nil in Hin|done].
Qed.
Lemma bridge_reachable_inv now y : rtc bridge_step (initial now) y -> system_inv y.
Proof.
  generalize (bridge_initial_inv now). generalize (initial now). intros y0 H0 Hr. revert H0. induction Hr; [done|]. intros H0. by apply IHHr, (bridge_step_inv x).
Qed.
Lemma spaced_from start ts t : spaced start ts -> t ∈ ts -> start <= t.
Proof. induction ts as [|t' ts IH]; [by intros _ ?%not_elem_of_nil|]. intros (H1 & _ & H3) [->|Hin]%elem_of_cons; auto. Qed.

Lemma spaced_apart start ts i j t t' :
  spaced start ts -> (i < j)%nat -> ts !! i = Some t' -> ts !! j = Some t -> t + 5 * Millisecond <= t'.
Proof.
  revert i j t'. induction ts as [|u ts IH]; intros i j t' Hs Hij Hi Hj; [done|]. destruct Hs as (_ & Hu & Hs).
  destruct i as [|i], j as [|j]; try lia; cbn in Hi, Hj; [|by apply (IH i j); try lia].
  injection Hi as <-. destruct ts as [|v ts]; [done|]. destruct j as [|j]; [cbn in Hj; by simplify_eq|].
  specialize (IH 0%nat (S j) v Hs ltac:(lia) eq_refl Hj).
  assert (0 <= 5 * Millisecond) by (vm_compute; discriminate). lia.
Qed.

(** C23: Requests to run a function over the bridge, with calls, replies, routes and
    [Close] in any order: once a request was accepted, or the bridge was closed, it is not
    published again; a call succeeds only if its own invocation was accepted; and a call
    publishes only before its deadline, any two times at least five milliseconds apart,
    so that the number of publications is bounded by the time it has. *)
Theorem redispatch_stops now y :
  rtc bridge_step (initial now) y ->
  quiet_log (sy_log y)
  /\ forall req p, sy_calls y !! req = Some p ->
       (pb_state p = Returned (Ok tt) -> EAccepted req (pb_invocation p) ∈ sy_log y)
       /\ (forall t, t ∈ times req (sy_log y) -> pb_start p <= t < pb_deadline p)
       /\ (forall i j t t', (i < j)%nat -> times req (sy_log y) !! i = Some t' -> times req (sy_log y) !! j = Some t ->
             t + 5 * Millisecond <= t')
       /\ (times req (sy_log y) <> [] -> (Z.of_nat (length (times req (sy_log y))) - 1) * (5 * Millisecond) < pb_deadline p - pb_start p).
Proof.
  intros Hr%bridge_reachable_inv. split; [apply Hr|]. intros req p Hp. destruct Hr as (H & _). destruct (H req p Hp) as (H1 & _ & _ & H4 & _ & H6 & _).
  split_and!; [auto| | |].
  - intros t Ht. split; [by eapply spaced_from|by apply H4].
  - intros i j t t'. by apply spaced_apart with (pb_start p).
  - destruct (times req (sy_log y)) as [|t ts]; [done|]. intros _. apply spaced_length in H1. specialize (H4 t ltac:(by left)). cbn [length]. lia.
Qed.

(** A request that is published, refused, published again and accepted. *)
Definition example_publishing (s : call_state) : publishing := mkPublishing "inv_1" 0 Second s.
Definition example_pending (accepted updates : bool) : NATSBridge := mkBridge {["r" := mkPending "inv_1" accepted updates]} ∅ ∅ false.
Definition example_system (accepted updates : bool) (s : call_state) (now : Z) (log : list event) : system :=
  mkSystem (example_pending accepted updates) {["r" := example_publishing s]} now log.
Definition example_once : list event := [EPublished "r" 0].
Definition example_twice : list event := EPublished "r" (20 * Millisecond) :: example_once.
Definition example_log : list event := EAccepted "r" "inv_1" :: example_twice.
Definition example_returned : system := mkSystem (mkBridge ∅ ∅ ∅ false) {["r" := example_publishing (Returned (Ok tt))]} (20 * Millisecond) example_log.
Lemma redispatch_stops_witness :
  rtc bridge_step (initial 0) example_returned
  /\ quiet_log (sy_log example_returned) /\ EAccepted "r" "inv_1" ∈ sy_log example_returned
  /\ times "r" (sy_log example_returned) = [20 * Millisecond; 0] /\ 0 + 5 * Millisecond <= 20 * Millisecond.
Proof.
  assert (rtc bridge_step (initial 0) example_returned) as Hr.
  { eapply rtc_l; [exact (st_begin (initial 0) "r" "inv_1" Second None ltac:(done) ltac:(done))|].
    change (rtc bridge_step (example_system false false Checking 0 []) example_returned).
    eapply rtc_l; [exact (st_check (example_system false false Checking 0 []) "r" (example_publishing Checking) false true ltac:(done) ltac:(done))|].
    change (rtc bridge_step (example_system false false Published 0 example_once) example_returned).
    eapply rtc_l; [exact (st_wait (example_system false false Published 0 example_once) "r" (example_publishing Published) ltac:(done) ltac:(done))|].
    change (rtc bridge_step (example_system false false (Waiting (20 * Millisecond)) 0 example_once) example_returned).
    eapply rtc_l; [exact (st_tick (example_system false false (Waiting (20 * Millisecond)) 0 example_once) (20 * Millisecond) ltac:(done))|].
    eapply rtc_l; [exact (st_timer (example_system false false (Waiting (20 * Millisecond)) (20 * Millisecond) example_once) "r" (example_publishing (Waiting (20 * Millisecond))) (20 * Millisecond) ltac:(done) ltac:(by left) ltac:(done))|].
    eapply rtc_l; [exact (st_check (example_system false false Checking (20 * Millisecond) example_once) "r" (example_publishing Checking) false true ltac:(done) ltac:(done))|].
    eapply rtc_l; [exact (st_acceptance (example_system false false Published (20 * Millisecond) example_twice) (Some (mkAcceptance "r" "inv_1" true)))|].
    eapply rtc_l; [exact (st_wait (example_system true true Published (20 * Millisecond) example_log) "r" (example_publishing Published) ltac:(done) ltac:(done))|].
    eapply rtc_l; [exact (st_update (example_system true true (Waiting (40 * Millisecond)) (20 * Millisecond) example_log) "r" (example_publishing (Waiting (40 * Millisecond))) (40 * Millisecond) (example_pending true false) ltac:(done) ltac:(done) ltac:(done))|].
    eapply rtc_l; [exact (st_woken (example_system true false Woken (20 * Millisecond) example_log) "r" (example_publishing Woken) ltac:(done) ltac:(done))|].
    eapply rtc_l; [exact (st_return (example_system true false (Returning (Ok tt)) (20 * Millisecond) example_log) "r" (example_publishing (Returning (Ok tt))) (Ok tt) ltac:(done) ltac:(done))|].
    apply rtc_refl. }
  destruct (redispatch_stops 0 example_returned Hr) as [Hq Hc]. destruct (Hc "r" (example_publishing (Returned (Ok tt))) eq_refl) as (Ha & _ & Hs & _).
  split; [done|]. split; [exact Hq|]. split; [by apply Ha|]. split; [reflexivity|].
  exact (Hs 0%nat 1%nat 0 (20 * Millisecond) ltac:(lia) eq_refl eq_refl).
Defined.

(** ** A call can always end *)

Lemma move_call req p s b log y : sy_calls (move req p s b log y) !! req = Some (with_state s p).
Proof. apply lookup_insert_eq. Qed.
Lemma with_same p s0 s : with_state s (with_state s0 p) = with_state s p.
Proof. done. Qed.
(** The call [p] of [req] can return without publishing. *)
Definition can_return (y : system) (req : string) (p : publishing) : Prop :=
  exists y' r, rtc bridge_step y y' /\ sy_calls y' !! req = Some (with_state (Returned r) p) /\ sy_log y' = sy_log y.
Lemma can_return_step y y' req p q : bridge_step y y' -> sy_log y' = sy_log y -> (forall s, with_state s q = with_state s p) -> can_return y' req q -> can_return y req p.
Proof. intros Hs Hl Hq (z & r & Hz & Hc & Hz'). exists z, r. split_and!; [by eapply rtc_l|by rewrite <- Hq|congruence]. Qed.
Lemma returning_returns y req p r : sy_calls y !! req = Some p -> pb_state p = Returning r -> can_return y req p.
Proof. intros Hc Hs. eexists _, r. split_and!; [eapply rtc_once, st_return; [done|done]|apply move_call|done]. Qed.
Lemma checking_returns y req p : sy_calls y !! req = Some p -> pb_state p = Checking -> can_return y req p.
Proof.
  intros Hc Hs. pose proof (st_check y req p false false Hc Hs) as Hstep.
  assert (exists r, check_publish (sy_now y) (pb_deadline p) false false req (sy_bridge y) = (Returning r, false)) as [r Hr].
  { unfold check_publish. destruct (is_accepted _ _); [by eexists|]. destruct (_ || _); by eexists. }
  rewrite Hr in Hstep. eapply can_return_step; [exact Hstep|done|apply (with_same p)|]. by eapply returning_returns; [apply move_call|].
Qed.
Lemma timed_returns y req p until : sy_calls y !! req = Some p -> pb_state p = Waiting until \/ pb_state p = BackingOff until -> can_return y req p.
Proof.
  intros Hc Hs. eapply can_return_step; [apply (st_tick y (Z.max (sy_now y) until)); lia|done|by intros|].
  eapply can_return_step; [by eapply (st_timer _ req p until); [..|cbn; lia]|done|apply (with_same p)|]. by eapply checking_returns; [apply move_call|].
Qed.
(** From any state, a call that has not returned can return, without publishing again:
    no call waits for something that never comes. *)
Theorem call_returns y req p : sy_calls y !! req = Some p -> live_state (pb_state p) = true -> can_return y req p.
Proof.
  intros Hc Hl. destruct (pb_state p) eqn:Hs; [| | | | | |done].
  - by apply checking_returns.
  - eapply can_return_step; [by apply st_wait|done|apply (with_same p)|]. eapply timed_returns; [apply move_call|by left].
  - eapply timed_returns; [done|by left].
  - eapply can_return_step; [by apply st_woken|done|apply (with_same p (woken (sy_now y) (pb_deadline p) req (sy_bridge y)))|]. unfold woken.
    destruct (is_accepted _ _); [by eapply returning_returns; [apply move_call|]|]. eapply timed_returns; [apply move_call|by right].
  - eapply timed_returns; [done|by right].
  - by eapply returning_returns.
Qed.

(** ** A watch that many close *)

(** The watch and the calls of its [Close]; [None] after a panic. *)
Definition watching : Type := natsInvocationWatch * gmap nat closing.
Inductive watch_step : watching -> option watching -> Prop :=
| ws_signal w cs : watch_step (w, cs) (w' ← signal w; Some (w', cs))
| ws_receive w cs : watch_step (w, cs) (Some (mkWatch (wt_closed w) (wt_stop w) (wt_subscribed w) (wt_registered w) false (wt_updates_closed w) (wt_done_closed w), cs))
| ws_stop w cs : watch_step (w, cs) (Some (install_stop w, cs))
| ws_begin w cs i : cs !! i = None -> watch_step (w, cs) (Some ((watch_close_begin w).2, <[i := (watch_close_begin w).1]> cs))
| ws_unsubscribe w cs i : cs !! i = Some CloseUnsubscribes -> watch_step (w, cs) (Some (watch_close_unsubscribe w, <[i := CloseUnregisters]> cs))
| ws_unregister w cs i : cs !! i = Some CloseUnregisters -> watch_step (w, cs) (Some (watch_close_unregister w, <[i := CloseFinishes]> cs))
| ws_finish w cs i : cs !! i = Some CloseFinishes -> watch_step (w, cs) (w' ← watch_close_finish w; Some (w', <[i := CloseReturned]> cs))
| ws_waited w cs i : cs !! i = Some CloseWaits -> wt_done_closed w = true -> watch_step (w, cs) (Some (w, <[i := CloseReturned]> cs)).
Inductive watch_reaches : option watching -> Prop :=
| wr_start : watch_reaches (Some (mkWatch false false true true false false false, ∅))
| wr_step y y' : watch_reaches (Some y) -> watch_step y y' -> watch_reaches y'.

(** A watch is open, or one call is closing it and the others wait, or it is closed. *)
Inductive watch_stage : watching -> Prop :=
| Open stop updates : watch_stage (mkWatch false stop true true updates false false, ∅)
| Closing i c stop subscribed registered updates cs :
    cs !! i = Some c ->
    match c with
    | CloseUnsubscribes => subscribed = true /\ registered = true
    | CloseUnregisters => subscribed = false /\ registered = true
    | CloseFinishes => subscribed = false /\ registered = false
    | _ => False
    end ->
    (forall j c', j <> i -> cs !! j = Some c' -> c' = CloseWaits) ->
    watch_stage (mkWatch true stop subscribed registered updates false false, cs)
| Closed stop updates cs :
    (forall j c, cs !! j = Some c -> c = CloseWaits \/ c = CloseReturned) ->
    watch_stage (mkWatch true stop false false updates true true, cs).

(** The call that closes goes on; the others still wait. *)
Lemma closing_unique (cs : gmap nat closing) i j c : (forall j c', j <> i -> cs !! j = Some c' -> c' = CloseWaits) -> cs !! j = Some c -> c <> CloseWaits -> j = i.
Proof. intros H Hj Hc. destruct (decide (j = i)) as [|Hne]; [done|]. by destruct Hc; eapply H. Qed.
Lemma others_insert (cs : gmap nat closing) i c : (forall j c', j <> i -> cs !! j = Some c' -> c' = CloseWaits) ->
  forall j c', j <> i -> <[i := c]> cs !! j = Some c' -> c' = CloseWaits.
Proof. intros H j c' Hne. rewrite lookup_insert_ne by done. by apply H. Qed.
Lemma watch_step_stage y y' : watch_stage y -> watch_step y y' -> exists z, y' = Some z /\ watch_stage z.
Proof.
  intros Hy Hs. destruct Hs as [w cs|w cs|w cs|w cs i Hi|w cs i Hi|w cs i Hi|w cs i Hi|w cs i Hi Hd].
  - inversion Hy; subst; cbn; eexists; (split; [done|]); by econstructor.
  - inversion Hy; subst; cbn; eexists; (split; [done|]); by econstructor.
  - inversion Hy; subst; cbn; eexists; (split; [done|]); by econstructor.
  - eexists. split; [done|]. inversion Hy as [|i' c stop sub reg up cs' Hc Hp Ho|stop up cs' Ho]; subst; cbn.
    + eapply (Closing i CloseUnsubscribes); [by rewrite lookup_insert_eq|done|]. apply others_insert. intros j c' _. by rewrite lookup_empty.
    + assert (i <> i') as Hne by congruence. eapply (Closing i'); [by rewrite lookup_insert_ne|done|].
      intros j c' Hj [[-> <-]|[_ Hl]]%lookup_insert_Some; [done|by eapply Ho].
    + constructor. intros j c' [[-> <-]|[_ Hl]]%lookup_insert_Some; [by left|by eapply Ho].
  - eexists. split; [done|]. inversion Hy as [|i' c stop sub reg up cs' Hc Hp Ho|stop up cs' Ho]; subst; cbn.
    + by rewrite lookup_empty in Hi.
    + pose proof (closing_unique cs i' i _ Ho Hi ltac:(done)) as ->. assert (c = CloseUnsubscribes) as -> by congruence. destruct Hp as [_ ->].
      eapply (Closing i' CloseUnregisters); [by rewrite lookup_insert_eq|done|by apply others_insert].
    + by destruct (Ho i _ Hi).
  - eexists. split; [done|]. inversion Hy as [|i' c stop sub reg up cs' Hc Hp Ho|stop up cs' Ho]; subst; cbn.
    + by rewrite lookup_empty in Hi.
    + pose proof (closing_unique cs i' i _ Ho Hi ltac:(done)) as ->. assert (c = CloseUnregisters) as -> by congruence. destruct Hp as [-> _].
      eapply (Closing i' CloseFinishes); [by rewrite lookup_insert_eq|done|by apply others_insert].
    + by destruct (Ho i _ Hi).
  - inversion Hy as [|i' c stop sub reg up cs' Hc Hp Ho|stop up cs' Ho]; subst; cbn.
    + by rewrite lookup_empty in Hi.
    + eexists. split; [done|]. pose proof (closing_unique cs i' i _ Ho Hi ltac:(done)) as ->. assert (c = CloseFinishes) as -> by congruence. destruct Hp as [-> ->].
      constructor. intros j c' [[-> <-]|[Hne Hl]]%lookup_insert_Some; [by right|left]. by eapply Ho; [apply not_eq_sym|].
    + by destruct (Ho i _ Hi).
  - eexists. split; [done|]. inversion Hy as [|i' c stop sub reg up cs' Hc Hp Ho|stop up cs' Ho]; subst; cbn; [done|done|].
    constructor. intros j c' [[-> <-]|[_ Hl]]%lookup_insert_Some; [by right|by eapply Ho].
Qed.
(** However often and by whomever a watch is signalled and closed, nothing is sent on a
    closed channel and no channel is closed twice; a [Close] returns only when the watch
    has no subscription and is not registered; and while one waits, another is closing or
    the watch is closed. *)
Theorem watch_safe y :
  watch_reaches y -> exists w cs, y = Some (w, cs)
  /\ (forall i, cs !! i = Some CloseReturned -> wt_subscribed w = false /\ wt_registered w = false /\ wt_updates_closed w = true)
  /\ (forall i, cs !! i = Some CloseWaits -> wt_done_closed w = true \/ exists j c, cs !! j = Some c /\ c <> CloseWaits /\ c <> CloseReturned).
Proof.
  intros Hr. assert (exists z, y = Some z /\ watch_stage z) as (z & -> & Hz).
  { induction Hr as [|y y' _ (z & [= <-] & Hz) Hs]; [eexists; split; [done|constructor]|by eapply watch_step_stage]. }
  destruct z as [w cs]. exists w, cs. split; [done|]. inversion Hz as [|i c stop sub reg up cs' Hc Hp Ho|stop up cs' Ho]; subst; cbn.
  - split; intros i; by rewrite lookup_empty.
  - split; intros j Hj.
    + destruct (decide (j = i)) as [->|Hne]; [|by specialize (Ho j _ Hne Hj)]. assert (c = CloseReturned) as -> by congruence. done.
    + right. exists i, c. split; [done|]. by destruct c.
  - split; [done|]. by left.
Qed.
