(* ===== verification/DeliveryExample.v ===== *)
(** * A small delivery database for evaluating the operations

    A sender and an application that takes events over the stream and over a
    callback, with the concrete instances of the theorems on deliveries. *)

From Stdlib Require Import Ascii String.
From S2P Require Import Prelude GoLib Crypto Json Domain QueueSchema QueueStore QueueLifecycle QueueScheduler DeliverySchema DeliveryStore DeliveryEffects CallbackStore CallbackEffects DeliverySystem PublishStore PublishEffects PublishClaims DeliveryClaims Dispatcher Classify CallbackWorker CallbackClaims JsonEncode AdminCursor AdminStore AdminEffects AdminRead AdminClaims StreamProtocol StreamFrames StreamSession StreamSystem StreamInvariant StreamLedger StreamClaims.

(** Closes a closed equation by evaluating its left side in the kernel. *)
Ltac by_vm :=
  lazymatch goal with
  | |- _ = ?y => vm_cast_no_check (eq_refl y)
  | |- _ => vm_compute; reflexivity
  end.

(** ** The database *)

Definition demo_app (name : string) (mode : DeliveryMode) (url : option string) : AppRow :=
  mkAppRow name url mode true (at_second 0) (at_second 0) (Some ("ciphertext", 1)).

Definition relay_empty : RelayDB :=
  mkRelayDB (mkQueueDB {["app_s"; "app_a"]} ∅ ∅ ∅ ∅ ∅ ∅ ∅ ∅ ∅ ∅)
    (list_to_map [("app_s", demo_app "Sender" DeliveryQueue None);
                  ("app_a", demo_app "Receiver" DeliveryAll (Some "https://a.example/hook"))])
    ∅ ∅ ∅ [] ∅ ∅ ∅ ∅ ∅.

Definition demo_published_event : Event :=
  mkEvent "evt_1" "order.created" "app_s" ["app_a"] "{}" (at_second 1) None.
Definition demo_job : Job :=
  mkJob false 0 0 None "" "job_1" "evt_1" "app_s" "app_a" JobPending 0 None (at_second 1)
    (at_second 1).
Definition demo_publication : Publication := mkPublication demo_published_event [demo_job].
Definition demo_retention : EventRetention :=
  mkRetention (1000 * Second) (1000 * Second) (1000 * Second).
Definition demo_decrypt (encrypted : string) : option string := Some "secret".

Definition relay_world (db : RelayDB) : World RelayDB := mkWorld db [] ∅.
Definition relay_after {A} (m : M_relay A) (db : RelayDB) : RelayDB := w_db (m (relay_world db)).2.

Definition demo_publish : M_relay (Publication * bool) :=
  PublishEvent (at_second 1) demo_publication "key-1" demo_retention.
(** One job, a stream delivery under its identifier and a callback delivery. *)
Definition relay_demo : RelayDB := Eval vm_compute in relay_after demo_publish relay_empty.
Definition demo_callback_id : string := derivedCallbackDeliveryID "job_1".

Example demo_published :
  (fun '(k, r) => (k, dr_sink r)) <$> map_to_list (deliveries relay_demo)
  = [("job_1", SinkStream); (demo_callback_id, SinkCallback)].
Proof. by_vm. Qed.

Lemma relay_empty_initial : relay_initial relay_empty.
Proof. done. Qed.

(** ** Publishing *)

Definition demo_stored : Publication := mkPublication demo_published_event [with_callback true demo_job].
Lemma demo_publish_run :
  demo_publish (relay_world relay_empty) = (Ok (demo_stored, false), relay_world relay_demo).
Proof. by_vm. Qed.
Lemma relay_demo_inv : relay_inv relay_demo.
Proof.
  pose proof (publish_event_keeps (at_second 1) demo_publication "key-1" demo_retention
    (relay_world relay_empty)) as Hk.
  fold demo_publish in Hk. rewrite demo_publish_run in Hk. apply Hk, initial_inv, relay_empty_initial.
Qed.

Lemma publish_stores_witness :
  deliveries relay_demo !! demo_callback_id
    = Some (fresh_delivery demo_published_event (with_callback true demo_job) demo_callback_id SinkCallback)
  /\ app_rows relay_demo = app_rows relay_empty.
Proof.
  pose proof (publish_stores _ _ _ _ _ _ _ demo_publish_run) as (_ & _ & _ & Hd & _ & _ & _ & Ha & _).
  split; [|exact Ha]. apply Hd. right. exists (with_callback true demo_job), SinkCallback.
  split; [|reflexivity]. split; [apply list_elem_of_here|].
  exists (demo_app "Receiver" DeliveryAll (Some "https://a.example/hook")).
  split; [by_vm|]. split; [reflexivity|]. split; [|reflexivity].
  split; [right; reflexivity|]. eexists. split; [reflexivity|]. apply (proj1 (bool_decide_eq_false _)). by_vm.
Defined.

Lemma publish_idempotent_witness :
  PublishEvent (at_second 500) demo_publication "key-1" demo_retention (relay_world relay_demo)
    = (Ok (wire_publication demo_stored, true), relay_world relay_demo).
Proof.
  refine (proj1 (publish_idempotent _ _ _ _ _ _ _ (at_second 500) demo_publication demo_retention ∅
    demo_publish_run _ _ eq_refl)); by_vm.
Defined.

(** ** The system *)

Lemma delivery_invariant_witness :
  relay_inv relay_demo /\ all_step row_step (deliveries relay_empty) (deliveries relay_demo).
Proof.
  assert (relay_trans demo_decrypt relay_empty relay_demo) as Ht.
  { pose proof (trans_op demo_decrypt relay_empty
      (OpPublish (at_second 1) demo_publication "key-1" demo_retention) [] ∅) as Ht.
    cbn [run_op] in Ht. fold demo_publish in Ht. unfold discard, mbind, M_bind in Ht.
    change (mkWorld relay_empty [] ∅) with (relay_world relay_empty) in Ht.
    rewrite demo_publish_run in Ht. exact Ht. }
  destruct (delivery_invariant demo_decrypt relay_empty relay_demo) as (Hinv & Hrows & _).
  - exists relay_empty. split; [exact relay_empty_initial|apply rtc_refl].
  - exact (rtc_once _ _ Ht).
  - split; [exact Hinv|exact Hrows].
Defined.

(** ** Assignments *)

Definition demo_assign : M_relay (DeliveryAssignment * DeliveryAssignmentDisposition) :=
  AssignStreamDelivery "job_1" "app_a" "conn_1" "tok_1" 1 (at_second 5) (30 * Second) (300 * Second).
Definition demo_assigned : World RelayDB := Eval vm_compute in (demo_assign (relay_world relay_demo)).2.
Definition demo_assignment : DeliveryAssignment :=
  Eval vm_compute in match (demo_assign (relay_world relay_demo)).1 with
                     | Ok (a, _) => a
                     | Err _ => empty_assignment
                     end.
Lemma demo_assign_run :
  demo_assign (relay_world relay_demo) = (Ok (demo_assignment, DeliveryAssigned), demo_assigned).
Proof. by_vm. Qed.

Lemma assignment_exclusive_witness :
  AcknowledgeStreamDelivery "job_1" "app_a" "conn_2" "tok_2" 1 (at_second 10) demo_assigned
    = (Err StoreConflict, demo_assigned)
  /\ exists w2 r2, AcknowledgeStreamDelivery "job_1" "app_a" "conn_1" "tok_1" 1 (at_second 10) demo_assigned
         = (Ok tt, w2) /\ deliveries (w_db w2) !! "job_1" = Some r2 /\ dr_status r2 = DAcked.
Proof.
  destruct (assignment_exclusive _ _ _ _ _ _ _ _ _ _ _ _ relay_demo_inv demo_assign_run)
    as (_ & Hothers & Hholder).
  split; [|apply Hholder; by_vm].
  refine (proj1 (Hothers "conn_2" "tok_2" (at_second 10) Second _ _)); [discriminate|reflexivity].
Defined.

Definition demo_acked : World RelayDB := Eval vm_compute in
  (AcknowledgeStreamDelivery "job_1" "app_a" "conn_1" "tok_1" 1 (at_second 10) demo_assigned).2.
Lemma assignee_operations_witness :
  exists d, deliveries (w_db demo_assigned) !! "job_1" = Some d
    /\ as_token (dr_assignment d) = Some "tok_1".
Proof.
  destruct (proj1 (assignee_operations "job_1" "app_a" "conn_1" "tok_1" 1 (at_second 10) Second
    demo_assigned) (Ok tt) demo_acked ltac:(by_vm)) as (d & Hd & _ & _ & Ht & _).
  exists d. split; [exact Hd|exact Ht].
Defined.

(** ** The outbox *)

Definition demo_claim : M_relay (list OutboxMessage) :=
  ClaimOutbox (at_second 5) (at_second 0) "tok_c" 10.
Definition demo_claimed : World RelayDB := Eval vm_compute in (demo_claim (relay_world relay_demo)).2.
Definition demo_messages : list OutboxMessage :=
  Eval vm_compute in match (demo_claim (relay_world relay_demo)).1 with Ok l => l | Err _ => [] end.

Lemma claim_exclusive_witness :
  length demo_messages = 2%nat /\ NoDup (om_ID <$> demo_messages).
Proof.
  split; [reflexivity|].
  refine (proj1 (proj2 (claim_exclusive (at_second 5) (at_second 0) "tok_c" 10
    (relay_world relay_demo) demo_messages demo_claimed relay_demo_inv _))).
  by_vm.
Defined.

Definition demo_options : Options := mkOptions 10 (30 * Second) Second (60 * Second) 5 (300 * Second).
Definition demo_broker : Broker := mkBroker (fun _ => Some false) (fun _ db => db).
Definition demo_run : (Z * RunError) * World RelayDB :=
  Eval vm_compute in RunOnce demo_options demo_broker (at_second 6) (Some "tok_c") (at_second 6)
    (relay_world relay_demo).

Lemma run_once_keeps_witness :
  relay_inv (w_db demo_run.2)
  /\ all_step (kept (accepted demo_broker) 5) (outbox relay_demo) (outbox (w_db demo_run.2)).
Proof.
  apply (run_once_keeps demo_options demo_broker (at_second 6) (fun _ db H => conj H (reflexivity _))
    (Some "tok_c") (at_second 6) (relay_world relay_demo) demo_run.1 demo_run.2 relay_demo_inv).
  by_vm.
Defined.

Lemma run_once_dispatches_witness :
  exists db', RunOnce demo_options demo_broker (at_second 6) (Some "tok_c") (at_second 6)
      (relay_world relay_demo) = ((2, RunOk), relay_world db').
Proof.
  destruct (run_once_dispatches demo_options demo_broker (at_second 6)
    (fun _ => ex_intro _ false eq_refl) (fun _ _ => eq_refl) "tok_c" (at_second 6) relay_demo ∅)
    as (db' & Hrun & _).
  - reflexivity.
  - discriminate.
  - exact relay_demo_inv.
  - by_vm.
  - refine (bool_decide_unpack (map_Forall (fun _ o => ob_attempts o < 5) (outbox relay_demo)) _).
    vm_compute. exact I.
  - exists db'. exact Hrun.
Defined.

Lemma retry_delay_spec_witness : retryDelay demo_options 4 = 8 * Second.
Proof. apply (retry_delay_spec demo_options 4); [reflexivity|reflexivity|lia]. Defined.

(** ** Callbacks *)

Definition demo_begin : M_relay (CallbackDispatch * CallbackDispatchDisposition) :=
  BeginCallbackAttempt demo_decrypt demo_callback_id 1 "tok_b" (at_second 7) (30 * Second).
Definition demo_started : World RelayDB := Eval vm_compute in (demo_begin (relay_world relay_demo)).2.
Definition demo_begun : option CallbackDispatch :=
  Eval vm_compute in match (demo_begin (relay_world relay_demo)).1 with
                     | Ok (d, _) => Some d
                     | Err _ => None
                     end.

Lemma callback_attempt_exclusive_witness :
  exists d, demo_begun = Some d /\ 1 <= cd_Attempt d <= 6
    /\ FinishCallbackAttempt demo_callback_id 1 "tok_other" 1
         (mkCallbackTransition JobDelivered (at_second 8) zero_time "") demo_started
       = (Err StoreConflict, demo_started).
Proof.
  eexists. split; [unfold demo_begun; reflexivity|].
  match goal with |- 1 <= cd_Attempt ?d <= 6 /\ _ =>
    destruct (callback_attempt_exclusive demo_decrypt demo_callback_id 1 "tok_b" (at_second 7)
      (30 * Second) relay_demo ∅ d demo_started relay_demo_inv ltac:(by_vm))
      as (Ha & _ & Hothers & _)
  end.
  split; [exact Ha|]. apply Hothers; [reflexivity|discriminate].
Defined.

Definition demo_turn : Turn :=
  mkTurn (at_second 7) "tok_b" (fun _ => (200, "", false)) (fun db => db) false (at_second 8) None
    (at_second 8).
Definition demo_message : Envelope := mkEnvelope demo_callback_id 1 demo_published_event.
Definition demo_settings : JetStreamOptions := mkJetStream 0 0 0 0.
Definition demo_processed : Processed * World RelayDB :=
  Eval vm_compute in process demo_decrypt (fun _ => None) (NewJetStream demo_settings) demo_turn
    (Some demo_message) (relay_world relay_demo).

Lemma worker_ack_settled_witness :
  no_callback_delivery demo_callback_id 1 relay_demo
  \/ closed_at demo_callback_id 1 (w_db demo_processed.2).
Proof.
  refine (worker_ack_settled demo_decrypt (fun _ => None) demo_settings demo_turn
    (fun _ => reflexivity _) (Some demo_message) (relay_world relay_demo) demo_processed.1
    demo_processed.2 relay_demo_inv _ _ _ _ demo_message eq_refl _ _).
  - discriminate.
  - intros env [= <-]. discriminate.
  - by_vm.
  - reflexivity.
  - discriminate.
  - discriminate.
Defined.

(** ** Administration *)

Definition demo_cursor : Cursor := mkCursor 0 (at_second 1) "evt_1" (FilterFingerprint ["event"]).
Definition demo_cursor_text : string :=
  Eval vm_compute in match EncodeCursor demo_cursor with Ok text => text | Err _ => "" end.

Lemma cursor_roundtrip_witness :
  DecodeCursor demo_cursor_text (FilterFingerprint ["event"])
  = Ok (mkCursor CursorVersion (at_second 1) "evt_1" (FilterFingerprint ["event"])).
Proof.
  destruct (cursor_roundtrip demo_cursor demo_cursor_text (FilterFingerprint ["event"])) as [Hd _].
  - by_vm.
  - split; by_vm.
  - by_vm.
  - by_vm.
  - rewrite Hd. by_vm.
Defined.

(** The broker refuses the stream message for good: the delivery is a dead letter. *)
Definition demo_stream_outbox : string := (outboxIdentities "job_1").1.
Definition demo_fail : M_relay unit :=
  FailOutbox demo_stream_outbox "tok_c" (at_second 7) "refused".
Definition demo_dead : World RelayDB := Eval vm_compute in (demo_fail demo_claimed).2.
Definition demo_replay_command : ReplayCommand :=
  Eval vm_compute in replay_command ["job_1"] "key-r" "operator" (at_second 60).
Definition demo_replayed : res (list ReplayItem * bool) * World RelayDB :=
  Eval vm_compute in ReplayAdminDeadLetters (at_second 60) demo_replay_command demo_dead.

Lemma demo_dead_inv : relay_inv (w_db demo_dead).
Proof.
  assert (relay_inv (w_db demo_claimed)) as Hinv.
  { pose proof (claim_keeps (at_second 5) (at_second 0) "tok_c" 10 (relay_world relay_demo)) as Hk.
    change (w_db demo_claimed) with (w_db (snd (demo_claim (relay_world relay_demo)))).
    apply Hk, relay_demo_inv. }
  change (w_db demo_dead) with (w_db (snd (demo_fail demo_claimed))).
  apply (fail_keeps demo_stream_outbox "tok_c" (at_second 7) "refused" demo_claimed), Hinv.
Qed.

Lemma replay_dead_letters_witness :
  exists d, deliveries (w_db demo_dead) !! "job_1" = Some d /\ dr_status d = DDeadLetter
    /\ deliveries (w_db demo_replayed.2) !! "job_1"
       = Some (started_over (at_second 60) d).
Proof.
  pose proof (replay_dead_letters (at_second 60) demo_replay_command demo_dead demo_replayed.1
    demo_replayed.2 demo_dead_inv) as H.
  specialize (H ltac:(by_vm)). cbn [demo_replayed fst] in H. destruct H as (_ & H & _).
  destruct (H "job_1") as (d & k & o & Hd & Hs & Hd' & _); [apply list_elem_of_In; left; reflexivity|].
  exists d. split; [exact Hd|split; [exact Hs|exact Hd']].
Defined.

(** Two pages of one event each. *)
Definition demo_second_event : Event :=
  mkEvent "evt_2" "order.created" "app_s" ["app_a"] "{}" (at_second 2) None.
Definition demo_second : Publication :=
  mkPublication demo_second_event
    [mkJob false 0 0 None "" "job_2" "evt_2" "app_s" "app_a" JobPending 0 None (at_second 2) (at_second 2)].
Definition relay_two : RelayDB :=
  Eval vm_compute in relay_after (PublishEvent (at_second 2) demo_second "key-2" demo_retention) relay_demo.
Definition no_event_filter : EventFilters := mkEventFilters "" "" None None.
Definition no_letter_filter : DeadLetterFilters := mkDeadLetterFilters "" "" "" "" None None.
Definition position_check (fingerprint : string) (t : Z) (id : string) : bool :=
  (0 <? UnixMicro t) && (UnixMicro t <? 2 ^ 63) && (t =? FromUnixMicro (UnixMicro t)) && utf8_Valid id
  && match EncodeCursor (mkCursor 0 t id fingerprint) with Ok _ => true | Err _ => false end.
Lemma position_check_ok fingerprint t id :
  position_check fingerprint t id = true -> positioned fingerprint t id.
Proof.
  unfold position_check, positioned. intros H. apply andb_true_iff in H as [H He].
  apply andb_true_iff in H as [H Hu]. split_and!; [lia|lia|lia|done|].
  destruct (EncodeCursor _) as [text|]; [by exists text|done].
Qed.

Lemma pages_cover_witness :
  follow (EventFilters_Fingerprint no_event_filter)
    (fun cursor => (ListAdminEvents (mkListOptions 1 cursor) no_event_filter (relay_world relay_two)).1)
    3 None
  = Some (merge_sort (newer es_CreatedAt es_ID text_le) (matching_events no_event_filter relay_two)).
Proof.
  refine (proj1 (pages_cover 1 _ relay_two ∅ no_event_filter no_letter_filter (fun _ _ => None) _ _ _ _)).
  - split; discriminate.
  - intros k e He. apply (map_Forall_lookup_1 (fun k e => er_id e = k
      /\ position_check (EventFilters_Fingerprint no_event_filter) (er_created_at e) k = true)
      (events (queue_db relay_two))) in He as [Hk Hp].
    + split; [exact Hk|apply position_check_ok, Hp].
    + apply (bool_decide_unpack _). vm_compute. exact I.
  - intros k e He. apply (map_Forall_lookup_1 (fun k e => dr_id e = k
      /\ position_check (DeadLetterFilters_Fingerprint no_letter_filter) (dr_updated_at e) k = true)
      (deliveries relay_two)) in He as [Hk Hp].
    + split; [exact Hk|apply position_check_ok, Hp].
    + apply (bool_decide_unpack _). vm_compute. exact I.
  - by_vm.
  - by_vm.
Defined.
Example pages_are_two :
  (fun e => es_ID e) <$> default [] (follow (EventFilters_Fingerprint no_event_filter)
    (fun cursor => (ListAdminEvents (mkListOptions 1 cursor) no_event_filter (relay_world relay_two)).1)
    3 None) = ["evt_2"; "evt_1"].
Proof. by_vm. Qed.

(** * A session on the small database

    Runs of a session: a message delivered and acknowledged, and three orders of
    events that the code does not handle. *)

Definition gateway_defaults : GatewayOptions := mkGatewayOptions 0 0 0 0 0 0 0 0.
Definition gateway_options : GatewayOptions :=
  Eval vm_compute in default gateway_defaults (New gateway_defaults).
Definition demo_session : Session :=
  Eval vm_compute in default (new_session "" "")
    (open gateway_options "app_a" (Some "conn_1") (mkGateway ∅ false)).1.
Definition demo_system : System := initial demo_session relay_demo.

Definition at_time (n : Z) : Call := mkCall (at_second n) [] ∅.
Definition demo_envelope : Envelope := mkEnvelope "job_1" 1 demo_published_event.
Definition settle_frame (t : string) : string :=
  client_text (mkClientFrame t 0 "" [] 0 "job_1" 0 "" None None None).
Definition start_text : string :=
  client_text (mkClientFrame "consumer.start" 1 "default" [] 4 "" 0 "" None None None).

(** The consumer starts; a message is assigned and sent. *)
Definition start_actions : list Action :=
  [AFrame start_text; AHandler true (at_time 2); AHandler true (at_time 2); AHandler true (at_time 2)].
Definition deliver_actions (h : nat) (token : string) (now : Z) : list Action :=
  [ADeliver h (Some demo_envelope); AThread h (Some token) (at_time now); AThread h None (at_time now);
   AThread h None (at_time now)].

Lemma run_reachable o actions y y' : run o actions y = Some y' -> rtc (step o) y y'.
Proof.
  revert y. induction actions as [|a actions IH]; intros y; unfold run; cbn [foldl mbind option_bind].
  - intros [= ->]. apply rtc_refl.
  - destruct (act o a y) as [y1|] eqn:Ha.
    + intros Hrun. eapply rtc_l; [by eapply step_act|]. by apply IH.
    + intros Hrun. exfalso. clear -Hrun. induction actions; simpl in *; [done|auto].
Qed.

Definition after (actions : list Action) : System := default demo_system (run gateway_options actions demo_system).

Definition demo_acked_actions : list Action :=
  (start_actions ++ deliver_actions 0 "tok_1" 3
   ++ [AFrame (settle_frame "delivery.ack"); AHandler true (at_time 4); AHandler true (at_time 4);
       AHandler true (at_time 4); AClose false (at_time 5); AClose false (at_time 5); AClose false (at_time 5)])%list.
Definition demo_acked_system : System := Eval vm_compute in after demo_acked_actions.
Example demo_acked_answers : sy_answers demo_acked_system = [(0%nat, Ack)].
Proof. reflexivity. Qed.

Lemma gateway_options_new : New gateway_defaults = Some gateway_options.
Proof. reflexivity. Qed.
Lemma demo_opened :
  open gateway_options "app_a" (Some "conn_1") (mkGateway ∅ false)
  = (Some demo_session, mkGateway {["conn_1"]} false).
Proof. by_vm. Qed.
Lemma demo_run_acked : run gateway_options demo_acked_actions demo_system = Some demo_acked_system.
Proof. by_vm. Qed.

Lemma session_flow_control_witness :
  Z.of_nat (size (se_inflight (sy_session demo_acked_system))) + se_reserved (sy_session demo_acked_system)
  <= se_maxInFlight (sy_session demo_acked_system).
Proof.
  exact (proj1 (session_flow_control gateway_defaults gateway_options "app_a" (Some "conn_1") _ _ demo_session
    relay_demo gateway_options_new demo_opened relay_demo_inv demo_acked_system
    (run_reachable _ _ _ _ demo_run_acked))).
Defined.

Lemma session_acks_settled_witness : done_at "job_1" 1 (sy_db demo_acked_system).
Proof.
  destruct (session_acks_settled gateway_defaults gateway_options "app_a" (Some "conn_1") _ _ demo_session
    relay_demo gateway_options_new demo_opened relay_demo_inv demo_acked_system 0
    (run_reachable _ _ _ _ demo_run_acked)) as (e & He & Hd).
  - apply list_elem_of_In. left. reflexivity.
  - assert (sy_messages demo_acked_system !! 0%nat = Some (Some demo_envelope)) as Hm by by_vm.
    rewrite Hm in He. injection He as <-. exact Hd.
Defined.

Lemma session_close_gives_back_witness : se_inflight (sy_session demo_acked_system) = ∅.
Proof.
  exact (proj1 (session_close_gives_back gateway_defaults gateway_options "app_a" (Some "conn_1") _ _
    demo_session relay_demo gateway_options_new demo_opened relay_demo_inv demo_acked_system
    (run_reachable _ _ _ _ demo_run_acked) eq_refl)).
Defined.

Lemma client_frames_roundtrip_witness :
  DecodeClientFrame (settle_frame "delivery.ack")
  = inl (mkClientFrame "delivery.ack" 0 "" [] 0 "job_1" 0 "" None None None).
Proof.
  apply (client_frames_roundtrip (mkClientFrame "delivery.ack" 0 "" [] 0 "job_1" 0 "" None None None)).
  - apply wf_settle; [left; reflexivity|discriminate|discriminate].
  - reflexivity.
  - reflexivity.
Defined.

(** ** What goes wrong *)

(** The consumer puts a delivery back without a delay, and the broker offers it again
    before [control] removes its entry: the entry that is removed is the new one. The
    new message is then neither in flight nor answered nor held by a goroutine, while
    the database keeps the delivery assigned to this connection. *)
Definition race_actions : list Action :=
  (start_actions ++ deliver_actions 0 "tok_1" 3
   ++ [AFrame (client_text (mkClientFrame "delivery.nack" 0 "" [] 0 "job_1" 0 "" None None None));
       AHandler true (at_time 4)]
   ++ deliver_actions 1 "tok_2" 4 ++ [AHandler true (at_time 4); AHandler true (at_time 4)])%list.
Definition race_system : System := Eval vm_compute in after race_actions.
Theorem nack_race_forgets :
  rtc (step gateway_options) demo_system race_system
  /\ sy_answers race_system = [(0%nat, Nack 0)] /\ sy_messages race_system !! 1%nat = Some (Some demo_envelope)
  /\ se_inflight (sy_session race_system) = ∅ /\ sy_threads race_system = ∅ /\ sy_handler race_system = HIdle
  /\ (as_token ∘ dr_assignment <$> deliveries (sy_db race_system) !! "job_1") = Some (Some "tok_2").
Proof.
  split_and!; try by_vm. apply (run_reachable _ race_actions). by_vm.
Qed.

(** A lease runs out and the broker offers the delivery to the same session again: the
    entry is replaced and its bytes stay counted for ever. *)
Definition leak_actions : list Action :=
  (start_actions ++ deliver_actions 0 "tok_1" 3 ++ deliver_actions 1 "tok_2" 70
   ++ [AFrame (settle_frame "delivery.ack"); AHandler true (at_time 71); AHandler true (at_time 71);
       AHandler true (at_time 71)])%list.
Definition leak_system : System := Eval vm_compute in after leak_actions.
Theorem replaced_entry_leaks_bytes :
  rtc (step gateway_options) demo_system leak_system
  /\ se_inflight (sy_session leak_system) = ∅ /\ sy_threads leak_system = ∅
  /\ 0 < se_inflightBytes (sy_session leak_system).
Proof.
  split_and!; try by_vm. apply (run_reachable _ leak_actions). by_vm.
Qed.

(** An event published with queue options carries a field that the check of server
    frames does not know, so every session puts its message back. *)
Definition queue_envelope : Envelope :=
  mkEnvelope "job_1" 1 (mkEvent "evt_1" "order.created" "app_s" ["app_a"] "{}" (at_second 1)
    (Some (mkQueueEvent (at_second 1) "" 0 "" ""))).
Theorem queue_event_put_back :
  validEnvelope queue_envelope "app_a" = true /\ deliver_check (Some queue_envelope) "app_a" = None
  /\ isSome (deliver_check (Some demo_envelope) "app_a") = true.
Proof. split_and!; by_vm. Qed.
